(* ===== verification/_CoqProject ===== *)
-Q . S2P
Prelude.v
Bytes.v
Paths.v
Qcow2Layout.v
Qcow2Image.v
Qcow2Write.v
Qcow2Host.v
Qcow2Refine.v
Qcow2WriteAt.v
Qcow2Create.v
Qcow2Open.v
Qcow2Meta.v
VuMem.v
VuRing.v
VuQueue.v
VuBlk.v
VuBlkSpec.v
VuBackends.v
VuProto.v
VuSession.v
VuSessionSpec.v
VuDemo.v
VuClaims.v
FsJson.v
Pool.v
PoolSpec.v
PoolClaims.v
Approval.v
ApprovalSpec.v
ApprovalClaims.v
UidAlloc.v
Ipam.v
Sha256.v
Json.v
Strconv.v
Redact.v
RedactSpec.v
AuditLedger.v
AuditSpec.v
AuditRun.v
AuditClaims.v
Policy.v
PolicySpec.v
PolicyClaims.v
TaskState.v
Pid.v
Cgroup.v
Lifecycle.v
LifecycleSpec.v
LifecycleClaims.v
LifecyclePool.v
Identity.v
IdentityClaims.v
Incident.v
IncidentClaims.v
NetIP.v
PortMap.v
PortMapSpec.v
PortMapDemo.v
PortMapClaims.v
PortMapApi.v
FsTree.v
Tar.v
TarSpec.v
TarClaims.v
GoText.v
Threads.v
Egress.v
Sni.v
EgressGate.v
EgressServe.v
EgressSpec.v
EgressClaims.v
EgressDemo.v
DnsLearn.v
DnsSpec.v
DnsClaims.v
DnsGuard.v
DnsDemo.v
