(* ===== verification/Prelude.v ===== *)
(** * PVM: a verification development

    PVM runs agents in sandboxes: user-mode Linux guests with copy-on-write
    disks, warm pools with tenant quotas, an approval gate for dangerous tool
    calls, a tamper-evident audit ledger and a filtered network.  This library
    models the parts of the Go program (under src/internal) that hold its state
    and decisions, as executable definitions, and proves what they promise.

    ** Parts, files and sources

    Disks.  [cow] keeps guest disks as qcow2 files over backing images.
    - Bytes: encoding/binary and the sparse files everything else writes to.
    - Paths: path/filepath and the containment policy of cow/manager.go
      ([validatePath], [backingPathAllowed], the registry of backing roots).
    - Qcow2Layout, Qcow2Image, Qcow2Create, Qcow2Open, Qcow2Meta:
      cow/qcow2.go - geometry, reads through the backing chain, creation,
      opening of untrusted chains, metadata ranges.
    - Qcow2Write, Qcow2Host, Qcow2Refine, Qcow2WriteAt: cow/qcow2_write.go -
      allocation and copy-on-write; the invariant gives every host cluster one
      owner, and [WriteAt] refines an update of an array of bytes.  Every access to
      the host file takes the host's answer from the state and may fail;
      Qcow2Host relates a run to the run of a host that never fails.

    Devices.  [vhost/vu] serves the disks to a guest over vhost-user.
    - VuMem (mem.go), VuRing and VuQueue (vring.go), VuBlk and VuBlkSpec (blk.go),
      VuProto (proto.go), VuSession and VuSessionSpec (server.go).  The guest and
      the frontend are adversaries: they write the shared memory during every
      access and send any message.  VuBackends discharges the interface the
      device is proved against with the images of [cow]; VuDemo is a concrete
      host, VuClaims holds the statements of record.

    Control plane.
    - FsJson: fsjson/fsjson.go, the atomic JSON files of the managers.
    - Pool, PoolSpec, PoolClaims: pool/manager.go and persist.go - warm
      sandboxes, claims, quotas, cleanup, restart.
    - Approval, ApprovalSpec, ApprovalClaims: approval/manager.go and store.go -
      tickets, decisions, single-use claims, restart.
    - UidAlloc: uidalloc/uidalloc.go, the uid ranges of the host.
    - Ipam: network/ipam.go, guest addresses, and the range tests of
      network/policy.go.

    Evidence and tools.
    - Sha256, Json and Strconv: crypto/sha256, and the parts of encoding/json,
      strconv, strings and time that records, limits and timers go through.
    - Redact, RedactSpec: audit/redact.go, the credential patterns and what
      replacing them leaves.
    - AuditLedger, AuditSpec, AuditRun, AuditClaims: audit/ledger.go and
      signing.go - records chained by digests, the head watermark, several
      handles on one file, verification.
    - Policy, PolicySpec, PolicyClaims: policy/gateway.go and executor.go, the
      tool gateway, with the hooks api/exec_runtime.go attaches to it over the
      approval tickets.

    Tasks.
    - TaskState: state/manager.go, the state machine of a task, its saved record
      and the cached listing.  Pid: state/pid.go.  Cgroup: cgroup/manager.go.
    - Lifecycle, LifecycleSpec, LifecycleClaims: lifecycle/*.go - idle timers,
      freezing, ballooning, checkpoints and resuming, over the saved states, the
      cgroups, the processes and a quota.  The quota is an interface
      ([QuotaHooks]); LifecyclePool discharges it with the pool, as
      api/pool_quota.go does.
    - Identity, IdentityClaims: identity/broker.go and persist.go, tokens and
      their revocation, and the endpoints of api/identity_api.go.
    - Incident, IncidentClaims: incident/controller.go, the response to
      anomalies, also over the broker.

    Ports and archives.
    - NetIP: net.ParseIP, To4 and the text of addresses.
    - PortMap, PortMapSpec, PortMapDemo, PortMapClaims: network/portmap.go and
      ingress.go - published ports, their registry file and the packet-filter
      rules behind them.  The filter and the listening sockets of the host are
      an interface ([Host], [HostLaws]) with the instances of PortMapDemo.
    - PortMapApi: api/portmap_api.go and [resolveSandboxID] of e2b_compat.go.
    - FsTree: a file system with inodes, symbolic links and the kernel's path
      resolution.  Tar, TarSpec, TarClaims: tarutil/tarutil.go, the
      extraction of untrusted archives over it.

    Egress.  Every connection a guest opens goes through a gateway of the host.
    - GoText: the functions of strings, net, path and net/http the gateway reads
      requests with; the tables beyond ASCII are the class [Unicode].
    - Threads: programs over atomic operations, their interleavings, and the
      rules by which each program is proved alone against what all keep.
    - Egress: egress/gateway.go, the policy - host patterns, the floor of
      addresses that are never reached, rules, credentials and their injection.
      Sni: egress/transparent.go, the first record of a TLS connection.
    - EgressGate and EgressServe: the gateway's state under its locks, and the
      handlers of gateway.go, mitm.go and transparent.go as programs (plain
      requests, CONNECT, interception, the transparent listener, policy updates).
      The learned addresses are an interface ([LearnedIPChecker]).
    - EgressSpec, EgressClaims, EgressDemo: the invariant, every
      handler against it, the statements of record, and concrete runs.
    - DnsLearn: dnslearn/dnslearn.go and proxy.go - the table of addresses learned
      from DNS answers, the whitelist in the packet filter, the proxy, and the
      registry of learners.  DnsSpec, DnsClaims: its invariant under all
      interleavings, and the whitelist as a mirror of the table.  DnsGuard: the
      registry discharges [LearnedIPChecker], the gateway runs over it, and
      [GetOrCreate] leaks no learner.  DnsDemo: concrete runs.

    ** How the code is modelled

    A Go struct is a record with its fields, a method a function on it that
    returns the new state and a [result]; the state an error return leaves is
    modelled, since callers go on using it.  Machine integers are [Z] with their
    wrap-around written out ([u16], [u32], [u64], [int64]).  A mutex delimits the
    atomic steps: a package whose operations interleave is a step relation over
    its critical sections, and its theorems are invariants of the reachable
    states.  Failures of the file system, clock readings, random identifiers and
    the iteration order of Go maps are arguments chosen by the environment, so
    the theorems quantify over them.

    ** What the theorems show

    - Disks: a read returns the bytes of the represented disk; a write on a
      well-formed image changes exactly the bytes it reports, keeps the image
      well-formed and its refcounts exact, or stops at a failure of the host that
      did occur, the finished rounds intact; a created image opens and shows its
      backing file; opening any file terminates, never indexes out of range and
      stays inside the allowed roots.
    - Devices: with a frontend that announces only memory its files hold
      ([announced]; the code does not check, [short_file_faults]), no guest or
      frontend behaviour makes the queue or the device fault while the session
      keeps its memory; requests in flight refer to mapped memory; teardown
      releases everything if no message follows it; the descriptor walk returns on
      every ring and accepts exactly the described chains; a request at rest is one
      operation of the abstract disk, which may fail to read or write.
    - Pool: for named tenants, templates below 2^62 CPUs and quotas in range, live
      counters equal what is charged and quotas hold at every claim; a critical
      section that fails leaves the manager in memory as it was; a restart
      restores the pool.
    - Approval: a ticket unlocks one execution, only after a recorded decision;
      between restarts tickets only move forward; creation is bounded per task.
    - Allocation: the uid ranges in one table and the guest addresses in use are
      disjoint.
    - Ledger: what the handles write verifies, for representable records and no
      torn one; a rewritten file that verifies exhibits a digest collision or lacks
      its signatures; no record carries a credential of the listed shapes in its
      subject, action, reason or parameter values; an append that meets a working
      disk gets through.
    - Gateway: every execution is permitted by a rule or uses its own approved
      ticket; what goes back to the agent is scrubbed.
    - Tasks: under every failure and every interleaving before its second look at
      the epoch a shallow pause ends in one of three described states; a resume
      ends running or suspended, with the exceptions its further failures cause;
      cancelled timers do nothing, limits and checkpoints come back as they were;
      the listing's cache never shows.
    - Credentials: a revocation that was reported lasts, across restarts that can
      read the file back; an incident cuts all tokens of its task off, and its
      response is as complete as the failing steps allow.
    - Ports: a protocol and port have one mapping; over a working filter, a readable
      registry, saves that reach the disk and free ports, its traffic reaches that
      guest only; publishing and deleting leaves the filter as it was; a caller
      publishes a port of its own sandbox only.
    - Archives: extraction of an archive without a link member named [.] changes
      nothing outside its destination but permission bits, regular files get their
      contents, the limits on members and bytes hold.
    - Egress: the floor is exactly its address ranges; what leaves was allowed, as
      presented to the decision function, by a policy the task had, to a peer
      outside the floor and, where the guard found the host learned, inside the
      learned set; every spliced or intercepted connection is registered, and none
      that carries no CONNECT tunnel outlives the policy it was opened under; a
      secret is sent only under the rule that owns it; the first record of a
      connection, whatever it holds, never makes the parser index out of range, and
      a well-formed one gives its server name.
    - DNS learning: the table keeps its bounds; what is whitelisted was answered for
      an allowed name and lies outside the listed ranges; guarded connections lead
      to such addresses; operations that do not overlap, over filter writes that
      succeed, leave the whitelist in step with the table; no learner leaks.
    Theorems without a claim number that follow a heading on departures show, on
    concrete inputs, where the code does something else than its comments say.

    ** Bounds and fuel

    Loops that are not structural run on fuel shown sufficient: the layout loop
    of [computeQcow2Layout] has the source's own bound of 32 rounds and is proved
    to converge; [openGuestImage] has the source's depth bound, [open_fuel] 33;
    the extension scan and the descriptor walk take fuel from the length of what
    they scan ([scan_fuel], [walk_fuel] = 2*num+2, above the source's own limits);
    refcount growth uses [bump_fuel] 8, the nesting a single write can cause;
    allocator scans ([first_free]) run over the size of the range plus one;
    text scans ([runes_fuel], the replacement of patterns, [duration_parts]) have
    the length of the text, each round taking at least one character; the
    shortest decimal of a float ([shortest_loop]) has 25 rounds, more than the 17
    digits a float can need.  Path resolution ([walk]) follows [max_links] 40 links,
    the kernel's limit; an IPv6 address has at most 8 groups.  The extensions of
    a hello are walked with its length as fuel, replacement in a text with the
    length of the text; the number of requests on one connection ([mitm_loop],
    [http_conn]) is an argument, and the theorems hold for each number.  The
    lifecycle's counters are 64-bit; its theorems ask for fewer than 2^64 calls.
    Positions in a disk are below 2^56, where the source's checks put them.

    ** Parameters

    What lies outside the sources is an argument: an Ed25519 key ([SigningKey]),
    the JSON text of a token ([TokenJSON]) and of approval parameters, the hooks of
    the gateway and the controller, the packet filter and the sockets of the host,
    the answers of resolvers and upstream servers, letter case and compatibility
    forms beyond ASCII, the parser of DNS messages ([DnsParser]), and the outcomes of system calls and of CRIU.
    Their laws are classes with concrete instances in the witnesses.

    ** Not modelled

    The components of the manifest that are marked not_modelled: code whose
    effect is the kernel's (jail, tc and eBPF programs, mounts, process
    management), HTTP routing and clients, and logging.  Within modelled
    packages: goroutine scheduling inside a critical section, the gap between the two
    locks of the broker's [Validate] (it is one step here), two timer callbacks
    of one task at once, socket and descriptor handling of the vhost server, the
    loading of signing keys, the online monitor of the ledger, and the text of log
    lines; of the egress gateway, listeners, certificates, timeouts and the
    texts of its error records. *)

From stdpp Require Export base tactics list gmap strings option numbers.
From Stdlib Require Export ZArith Lia.

#[global] Open Scope Z_scope.

(** ** Results: a Go function returning [(T, error)] *)

Inductive result (E A : Type) : Type :=
| Ok (a : A)
| Err (e : E).
Arguments Ok {E A} _.
Arguments Err {E A} _.

Definition rbind {E A B} (r : result E A) (k : A → result E B) : result E B :=
  match r with Ok a => k a | Err e => Err e end.

Definition is_ok {E A} (r : result E A) : bool :=
  match r with Ok _ => true | Err _ => false end.

#[global] Instance result_eq_dec {E A} `{EqDecision E, EqDecision A} : EqDecision (result E A).
Proof. solve_decision. Defined.

(** ** Methods on a mutable receiver

    A Go method with a pointer receiver and an error result is a function from
    the receiver's state to the new state and a result.  The state survives an
    error return: whatever the method wrote before it returned stays written. *)

Definition method (S E A : Type) : Type := S → S * result E A.

Definition gret {S E A} (a : A) : method S E A := λ s, (s, Ok a).
Definition gfail {S E A} (e : E) : method S E A := λ s, (s, Err e).
Definition gbind {S E A B} (m : method S E A) (k : A → method S E B) : method S E B :=
  λ s, match m s with
       | (s', Ok a) => k a s'
       | (s', Err e) => (s', Err e)
       end.
Definition gget {S E} : method S E S := λ s, (s, Ok s).
Definition ggets {S E A} (f : S → A) : method S E A := λ s, (s, Ok (f s)).
Definition gput {S E} (f : S → S) : method S E unit := λ s, (f s, Ok tt).
Definition glift {S E A} (r : result E A) : method S E A := λ s, (s, r).

Declare Scope go_scope.
Delimit Scope go_scope with go.

Notation "'let*' x ':=' c1 'in' c2" := (rbind c1 (λ x, c2))
  (at level 10, x pattern, c1 at level 100, c2 at level 200) : go_scope.
Notation "'do*' x '<-' c1 ';' c2" := (gbind c1 (λ x, c2))
  (at level 10, x pattern, c1 at level 100, c2 at level 200) : go_scope.
#[global] Open Scope go_scope.

Lemma rbind_ok {E A B} (r : result E A) (k : A → result E B) b :
  rbind r k = Ok b ↔ ∃ a, r = Ok a ∧ k a = Ok b.
Proof. destruct r; simpl; split; [eauto|by intros (?&[=->]&?)|done|by intros (?&?&?)]. Qed.

Lemma gbind_ok {S E A B} (m : method S E A) (k : A → method S E B) s s' b :
  gbind m k s = (s', Ok b) ↔ ∃ s1 a, m s = (s1, Ok a) ∧ k a s1 = (s', Ok b).
Proof.
  unfold gbind. destruct (m s) as [s1 [a|e]]; split;
    [eauto|by intros (?&?&[=-> ->]&?)|done|by intros (?&?&?&?)].
Qed.

Lemma gbind_run {S E A B} (m : method S E A) (k : A → method S E B) s s1 a :
  m s = (s1, Ok a) → gbind m k s = k a s1.
Proof. unfold gbind. by intros ->. Qed.

Lemma gbind_run_err {S E A B} (m : method S E A) (k : A → method S E B) s s1 e :
  m s = (s1, Err e) → gbind m k s = (s1, Err e).
Proof. unfold gbind. by intros ->. Qed.

(** ** Machine integers

    [uintN] values are integers in [0, 2^N); an operation that can overflow
    wraps explicitly with [u64], [u32], [u16]; [int64] is the two's complement
    conversion Go performs in [int64(x)]. *)

Definition u16 (z : Z) : Z := z mod 2^16.
Definition u32 (z : Z) : Z := z mod 2^32.
Definition u64 (z : Z) : Z := z mod 2^64.
Definition int64 (z : Z) : Z :=
  let m := z mod 2^64 in if m <? 2^63 then m else m - 2^64.
Definition MaxUint64 : Z := 2^64 - 1.
Definition MaxInt64 : Z := 2^63 - 1.

Definition in_u64 (z : Z) : Prop := 0 ≤ z < 2^64.
Definition in_u32 (z : Z) : Prop := 0 ≤ z < 2^32.

Lemma u64_id z : 0 ≤ z < 2^64 → u64 z = z.
Proof. apply Z.mod_small. Qed.
Lemma u32_id z : 0 ≤ z < 2^32 → u32 z = z.
Proof. apply Z.mod_small. Qed.
Lemma u16_id z : 0 ≤ z < 2^16 → u16 z = z.
Proof. apply Z.mod_small. Qed.
Lemma u64_range z : 0 ≤ u64 z < 2^64.
Proof. by apply Z.mod_pos_bound. Qed.
Lemma u32_range z : 0 ≤ u32 z < 2^32.
Proof. by apply Z.mod_pos_bound. Qed.
Lemma int64_id z : 0 ≤ z < 2^63 → int64 z = z.
Proof.
  intros H. unfold int64. rewrite Z.mod_small by lia.
  by destruct (Z.ltb_spec z (2^63)); [|lia].
Qed.

(** The flag tests [e & flag != 0] of the sources. *)
Definition has_flag (e flag : Z) : bool := negb (Z.land e flag =? 0).

(** ** Tactics and hint databases *)

Create HintDb go discriminated.
Create HintDb go_arith.
Create Rewrite HintDb go_arith.
#[export] Hint Rewrite u64_id u32_id u16_id int64_id using lia : go_arith.

(** [go_wrap] removes the wrap-arounds whose argument is provably in range. *)
Ltac go_wrap := autorewrite with go_arith in *.

(** Boolean comparisons of the code as propositions. *)
Ltac bsimp :=
  repeat match goal with
  | H : (_ <? _) = true |- _ => apply Z.ltb_lt in H
  | H : (_ <? _) = false |- _ => apply Z.ltb_ge in H
  | H : (_ <=? _) = true |- _ => apply Z.leb_le in H
  | H : (_ <=? _) = false |- _ => apply Z.leb_gt in H
  | H : (_ =? _) = true |- _ => apply Z.eqb_eq in H
  | H : (_ =? _) = false |- _ => apply Z.eqb_neq in H
  | H : _ && _ = true |- _ => apply andb_true_iff in H as [? ?]
  | H : _ || _ = false |- _ => apply orb_false_iff in H as [? ?]
  | H : negb _ = true |- _ => apply negb_true_iff in H
  | H : negb _ = false |- _ => apply negb_false_iff in H
  end.

(** Case analysis on the innermost test of an [if] in the goal or a hypothesis. *)
Ltac case_if :=
  match goal with
  | |- context [if ?b then _ else _] =>
      lazymatch type of b with bool => destruct b eqn:? | _ => destruct b end
  | H : context [if ?b then _ else _] |- _ =>
      lazymatch type of b with bool => destruct b eqn:? | _ => destruct b end
  end.
Ltac case_ifs := repeat case_if; bsimp.

(** ** Lists indexed by machine integers *)

(** [zlen l] is Go's [len]. *)
Definition zlen {A} (l : list A) : Z := Z.of_nat (length l).
(** [l !!! i] with a default is [zget]; Go's bounds check is modelled where the
    source can fail. *)
Definition zget {A} (d : A) (l : list A) (i : Z) : A :=
  if i <? 0 then d else nth (Z.to_nat i) l d.
Definition zset {A} (l : list A) (i : Z) (x : A) : list A :=
  if i <? 0 then l else <[Z.to_nat i := x]> l.
(** The slice expression [l[a:b]]. *)
Definition zslice {A} (l : list A) (a b : Z) : list A :=
  take (Z.to_nat (b - a)) (drop (Z.to_nat a) l).

Lemma zlen_nonneg {A} (l : list A) : 0 ≤ zlen l.
Proof. unfold zlen. lia. Qed.
Lemma zlen_nil {A} : zlen (@nil A) = 0.
Proof. done. Qed.
Lemma zlen_cons {A} (x : A) l : zlen (x :: l) = 1 + zlen l.
Proof. unfold zlen. simpl. lia. Qed.
Lemma zlen_app {A} (l k : list A) : zlen (l ++ k) = zlen l + zlen k.
Proof. unfold zlen. rewrite length_app. lia. Qed.
Lemma zlen_replicate {A} n (x : A) : zlen (replicate n x) = Z.of_nat n.
Proof. unfold zlen. by rewrite length_replicate. Qed.
Lemma zlen_zset {A} (l : list A) i x : zlen (zset l i x) = zlen l.
Proof. unfold zlen, zset. case_if; [done|]. by rewrite length_insert. Qed.
Lemma zlen_map {A B} (f : A → B) l : zlen (map f l) = zlen l.
Proof. unfold zlen. by rewrite length_map. Qed.
Lemma zlen_zslice {A} (l : list A) a b :
  0 ≤ a → a ≤ b → b ≤ zlen l → zlen (zslice l a b) = b - a.
Proof.
  unfold zlen, zslice. intros. rewrite length_take, length_drop. lia.
Qed.
Lemma zget_cons {A} (d : A) x l i :
  0 ≤ i → zget d (x :: l) i = if i =? 0 then x else zget d l (i - 1).
Proof.
  intros Hi. unfold zget. destruct (Z.ltb_spec i 0); [lia|].
  destruct (Z.eqb_spec i 0) as [->|]; [done|].
  destruct (Z.ltb_spec (i-1) 0); [lia|].
  replace (Z.to_nat i) with (S (Z.to_nat (i - 1))) by lia. done.
Qed.
Lemma zget_app {A} (d : A) l k i :
  0 ≤ i → zget d (l ++ k) i = if i <? zlen l then zget d l i else zget d k (i - zlen l).
Proof.
  intros Hi. unfold zget, zlen. destruct (Z.ltb_spec i 0); [lia|].
  destruct (Z.ltb_spec i (Z.of_nat (length l))).
  - apply app_nth1. lia.
  - destruct (Z.ltb_spec (i - Z.of_nat (length l)) 0); [lia|].
    rewrite app_nth2 by lia. f_equal. lia.
Qed.
Lemma zget_over {A} (d : A) l i : zlen l ≤ i → zget d l i = d.
Proof.
  unfold zget, zlen. intros. destruct (Z.ltb_spec i 0); [done|]. apply nth_overflow. lia.
Qed.
Lemma zget_zset {A} (d : A) l i j x :
  0 ≤ i < zlen l → 0 ≤ j → zget d (zset l i x) j = if j =? i then x else zget d l j.
Proof.
  unfold zget, zset, zlen. intros. destruct (Z.ltb_spec i 0), (Z.ltb_spec j 0); try lia.
  rewrite !nth_lookup. destruct (Z.eqb_spec j i) as [->|].
  - rewrite list_lookup_insert_eq by lia. done.
  - by rewrite list_lookup_insert_ne by lia.
Qed.
Lemma zget_map {A B} (d : A) (d' : B) (f : A → B) l i :
  0 ≤ i < zlen l → zget d' (map f l) i = f (zget d l i).
Proof.
  unfold zget, zlen. intros. destruct (Z.ltb_spec i 0); [lia|].
  rewrite (nth_indep _ d' (f d)) by (rewrite length_map; lia). apply map_nth.
Qed.
Lemma zget_replicate {A} (d : A) n i : zget d (replicate n d) i = d.
Proof.
  unfold zget. case_if; [done|]. rewrite nth_lookup.
  destruct (replicate n d !! _) eqn:E; [|done]. by apply lookup_replicate in E as [-> _].
Qed.
Lemma zget_zslice {A} (d : A) l a b i :
  0 ≤ a → 0 ≤ i < b - a → zget d (zslice l a b) i = zget d l (a + i).
Proof.
  intros. unfold zget, zslice. destruct (Z.ltb_spec i 0), (Z.ltb_spec (a+i) 0); try lia.
  rewrite !nth_lookup. f_equal. rewrite lookup_take_lt by lia.
  rewrite lookup_drop. f_equal. lia.
Qed.
Lemma zget_seqZ d m n i : 0 ≤ i < n → zget d (seqZ m n) i = m + i.
Proof.
  intros. unfold zget. destruct (Z.ltb_spec i 0); [lia|]. rewrite nth_lookup.
  replace (seqZ m n !! Z.to_nat i) with (Some (m + i)); [done|].
  symmetry. rewrite lookup_seqZ. lia.
Qed.
Lemma zlen_seqZ m n : 0 ≤ n → zlen (seqZ m n) = n.
Proof. intros. unfold zlen. rewrite length_seqZ. lia. Qed.
Lemma zget_eq {A} (d : A) (l k : list A) :
  zlen l = zlen k → (∀ i, 0 ≤ i < zlen l → zget d l i = zget d k i) → l = k.
Proof.
  unfold zlen, zget. intros Hl H. apply (nth_ext _ _ d d); [lia|].
  intros n Hn. specialize (H (Z.of_nat n)).
  destruct (Z.ltb_spec (Z.of_nat n) 0); [lia|]. rewrite Nat2Z.id in H. apply H. lia.
Qed.

Lemma fold_left_ext_in {A B} (f g : A → B → A) l a :
  (∀ x y, In y l → f x y = g x y) → fold_left f l a = fold_left g l a.
Proof.
  revert a. induction l as [|y l IH]; intros a H; [done|]. simpl.
  rewrite H by (by left). apply IH. intros x z Hz. apply H. by right.
Qed.

(** Index and position inside an entry of width [w]. *)
Lemma divmod_entry w a j : 0 ≤ j < w → (a * w + j) / w = a ∧ (a * w + j) mod w = j.
Proof.
  intros Hj. assert ((a * w + j) / w = a) as Hq by (symmetry; apply Z.div_unique with (r := j); lia).
  split; [done|]. rewrite Z.mod_eq, Hq by lia. lia.
Qed.

Lemma zget_elem {A} (d : A) l i : 0 ≤ i < zlen l → zget d l i ∈ l.
Proof.
  unfold zget, zlen. intros Hi. destruct (Z.ltb_spec i 0); [lia|]. apply list_elem_of_In, nth_In. lia.
Qed.

Lemma elem_zget {A} (d : A) l x : x ∈ l → ∃ i, 0 ≤ i < zlen l ∧ zget d l i = x.
Proof.
  intros Hx. apply list_elem_of_In, (In_nth _ _ d) in Hx as (m & Hm & Hrm).
  exists (Z.of_nat m). unfold zget, zlen. split; [lia|].
  destruct (Z.ltb_spec (Z.of_nat m) 0); [lia|]. by rewrite Nat2Z.id.
Qed.

(** ** Sums over lists *)

Definition zsum {A} (f : A → Z) (l : list A) : Z := foldr (λ a z, f a + z) 0 l.

Section Sums.
Context {A : Type}.
Implicit Types (f : A → Z) (l : list A).

Lemma zsum_nil f : zsum f [] = 0.
Proof. done. Qed.
Lemma zsum_cons f x l : zsum f (x :: l) = f x + zsum f l.
Proof. done. Qed.

Lemma zsum_app f l k : zsum f (l ++ k) = zsum f l + zsum f k.
Proof. induction l as [|x l IH]; [done|]. rewrite <- app_comm_cons, !zsum_cons, IH. lia. Qed.

Lemma zsum_single f x : zsum f [x] = f x.
Proof. rewrite zsum_cons, zsum_nil. lia. Qed.

Lemma zsum_middle f l i x : l !! i = Some x → zsum f l = zsum f (take i l) + f x + zsum f (drop (S i) l).
Proof.
  intros H. rewrite <- (take_drop_middle _ _ _ H) at 1. rewrite zsum_app.
  change (x :: drop (S i) l) with ([x] ++ drop (S i) l). rewrite zsum_app, zsum_single. lia.
Qed.

Lemma zsum_insert f l i x y : l !! i = Some x → zsum f (<[i:=y]> l) = zsum f l - f x + f y.
Proof.
  intros H. rewrite (zsum_middle f l i x H), (zsum_middle f (<[i:=y]> l) i y).
  - rewrite take_insert_ge, drop_insert_lt by lia. lia.
  - apply list_lookup_insert_eq. by eapply lookup_lt_Some.
Qed.

Lemma zsum_cut f l i x : l !! i = Some x → zsum f (take i l ++ drop (S i) l) = zsum f l - f x.
Proof. intros H. rewrite zsum_app, (zsum_middle f l i x H). lia. Qed.

Lemma zsum_nonneg f l : Forall (λ x, 0 ≤ f x) l → 0 ≤ zsum f l.
Proof. induction 1 as [|x l Hx _ IH]; rewrite ?zsum_nil, ?zsum_cons; lia. Qed.

Lemma zsum_elem f l i x : Forall (λ x, 0 ≤ f x) l → l !! i = Some x → f x ≤ zsum f l.
Proof.
  intros Hf Hi. rewrite (zsum_middle f l i x Hi).
  pose proof (zsum_nonneg f (take i l) ltac:(by apply Forall_take)).
  pose proof (zsum_nonneg f (drop (S i) l) ltac:(by apply Forall_drop)). lia.
Qed.

Lemma zsum_zero f l : Forall (λ x, f x = 0) l → zsum f l = 0.
Proof. induction 1 as [|x l Hx _ IH]; rewrite ?zsum_nil, ?zsum_cons; lia. Qed.
End Sums.

Lemma int64_small z : -2^63 ≤ z < 2^63 → int64 z = z.
Proof.
  intros H. unfold int64. destruct (Z.lt_ge_cases z 0).
  - replace (z mod 2^64) with (z + 2^64) by (rewrite <- (Z_mod_plus_full z 1), Z.mod_small; lia).
    destruct (Z.ltb_spec (z + 2^64) (2^63)); lia.
  - rewrite Z.mod_small by lia. destruct (Z.ltb_spec z (2^63)); lia.
Qed.

(** ** Searching for the first free slot *)

(** [for b := b; b <= last; b += step { if !used[b] { return b } }], for at most
    [fuel] rounds. *)
Fixpoint first_free (fuel : nat) (b step last : Z) (used : Z → bool) : option Z :=
  match fuel with
  | O => None
  | S fuel => if b <=? last then if used b then first_free fuel (b + step) step last used else Some b else None
  end.

Section FirstFree.
Context (step last : Z) (used : Z → bool).

Lemma first_free_some fuel b r :
  first_free fuel b step last used = Some r →
  ∃ k, r = b + Z.of_nat k * step ∧ r ≤ last ∧ used r = false ∧ ∀ j, (j < k)%nat → used (b + Z.of_nat j * step) = true.
Proof.
  revert b. induction fuel as [|fuel IH]; intros b; [done|]. simpl. destruct (Z.leb_spec b last); [|done].
  destruct (used b) eqn:E.
  - intros (k & -> & Hl & Hf & Hj)%IH. exists (S k). split_and!; [lia|done|done|]. intros [|j] Hlt; [by rewrite Z.add_0_r|].
    replace (b + Z.of_nat (S j) * step) with (b + step + Z.of_nat j * step) by lia. apply Hj. lia.
  - intros [= <-]. exists O. split_and!; [lia|lia|done|lia].
Qed.

Lemma first_free_none fuel b :
  first_free fuel b step last used = None →
  ∀ k, (k < fuel)%nat → (∀ j, (j <= k)%nat → b + Z.of_nat j * step ≤ last) → used (b + Z.of_nat k * step) = true.
Proof.
  revert b. induction fuel as [|fuel IH]; intros b; [lia|]. simpl. destruct (Z.leb_spec b last) as [Hb|Hb].
  - destruct (used b) eqn:E; [|done]. intros Hn [|k] Hk Hj; [by rewrite Z.add_0_r|].
    replace (b + Z.of_nat (S k) * step) with (b + step + Z.of_nat k * step) by lia. apply IH; [done|lia|].
    intros j Hjk. specialize (Hj (S j) ltac:(lia)). lia.
  - intros _ k Hk Hj. specialize (Hj O ltac:(lia)). lia.
Qed.

(** Among more slots than are taken, one is free: [S (size X)] rounds decide. *)
Lemma first_free_full (X : gset Z) b :
  0 < step → (∀ x, b ≤ x ≤ last → used x = true → x ∈ X) →
  first_free (S (size X)) b step last used = None →
  ∀ k : nat, b + Z.of_nat k * step ≤ last → used (b + Z.of_nat k * step) = true.
Proof.
  intros Hstep Hused Hn k Hk.
  assert (∀ j, (j <= k)%nat → b + Z.of_nat j * step ≤ last) as Hj by (intros; nia).
  destruct (decide (k < S (size X))%nat) as [Hlt|Hge]; [by eapply first_free_none|]. exfalso.
  set (l := map (λ j : nat, b + Z.of_nat j * step) (seq 0 (S (size X)))).
  assert (NoDup l) as Hnd.
  { apply (NoDup_fmap_2_strong (λ j : nat, b + Z.of_nat j * step)); [|apply NoDup_seq]. intros x y _ _ E. nia. }
  assert (list_to_set l ⊆ X) as Hsub.
  { intros x (j & -> & Hin)%elem_of_list_to_set%list_elem_of_fmap. apply elem_of_seq in Hin.
    pose proof (Hj j ltac:(lia)). apply Hused; [nia|]. apply (first_free_none _ _ Hn); [lia|]. intros; apply Hj; lia. }
  apply subseteq_size in Hsub. rewrite size_list_to_set in Hsub by done. unfold l in Hsub.
  rewrite length_map, length_seq in Hsub. lia.
Qed.
End FirstFree.
