(* ===== verification/Bytes.v ===== *)
(** * Bytes, fixed-width encodings and files

    [encoding/binary]'s big- and little-endian accessors and the part of
    [os.File] the sources use: positioned reads and writes and [Truncate] on a
    sparse file whose holes read as zero. *)

From S2P Require Import Prelude.

(** ** Encodings *)

Fixpoint le_decode (l : list Z) : Z :=
  match l with [] => 0 | b :: r => b + 256 * le_decode r end.

Fixpoint le_encode (n : nat) (v : Z) : list Z :=
  match n with O => [] | S n => v mod 256 :: le_encode n (v / 256) end.

Definition be_decode (l : list Z) : Z := le_decode (rev l).
Definition be_encode (n : nat) (v : Z) : list Z := rev (le_encode n v).

(** [binary.BigEndian.UintN(l[i:])] and its little-endian twin, [n] bytes wide. *)
Definition be_at (n : Z) (l : list Z) (i : Z) : Z := be_decode (zslice l i (i + n)).
Definition le_at (n : Z) (l : list Z) (i : Z) : Z := le_decode (zslice l i (i + n)).

(** [binary.X.PutUintN(l[i:], v)]: overwrite the bytes of [d] at [i]. *)
Definition splice (l : list Z) (i : Z) (d : list Z) : list Z :=
  take (Z.to_nat i) l ++ d ++ drop (Z.to_nat i + length d) l.

Definition is_byte (b : Z) : Prop := 0 ≤ b < 256.

Lemma length_le_encode n v : length (le_encode n v) = n.
Proof. revert v. induction n; simpl; auto. Qed.
Lemma length_be_encode n v : length (be_encode n v) = n.
Proof. unfold be_encode. by rewrite length_rev, length_le_encode. Qed.
Lemma zlen_be_encode n v : zlen (be_encode n v) = Z.of_nat n.
Proof. unfold zlen. by rewrite length_be_encode. Qed.
Lemma zlen_le_encode n v : zlen (le_encode n v) = Z.of_nat n.
Proof. unfold zlen. by rewrite length_le_encode. Qed.

Lemma le_decode_encode n v : le_decode (le_encode n v) = v mod 256 ^ Z.of_nat n.
Proof.
  revert v. induction n as [|n IH]; intros v.
  - simpl. by rewrite Z.mod_1_r.
  - cbn [le_encode le_decode]. rewrite IH.
    replace (256 ^ Z.of_nat (S n)) with (256 * 256 ^ Z.of_nat n)
      by (rewrite Nat2Z.inj_succ, Z.pow_succ_r; lia).
    rewrite Z.rem_mul_r; lia.
Qed.

Lemma be_decode_encode n v : be_decode (be_encode n v) = v mod 256 ^ Z.of_nat n.
Proof. unfold be_decode, be_encode. rewrite rev_involutive. apply le_decode_encode. Qed.

Lemma be64_decode_encode v : 0 ≤ v < 2^64 → be_decode (be_encode 8 v) = v.
Proof. intros. rewrite be_decode_encode. by apply Z.mod_small. Qed.
Lemma be32_decode_encode v : 0 ≤ v < 2^32 → be_decode (be_encode 4 v) = v.
Proof. intros. rewrite be_decode_encode. by apply Z.mod_small. Qed.
Lemma be16_decode_encode v : 0 ≤ v < 2^16 → be_decode (be_encode 2 v) = v.
Proof. intros. rewrite be_decode_encode. by apply Z.mod_small. Qed.

Lemma le_encode_bytes n v : Forall is_byte (le_encode n v).
Proof.
  revert v. induction n; intros v; simpl; constructor; [|auto].
  apply Z.mod_pos_bound. lia.
Qed.

Lemma le_decode_range l : Forall is_byte l → 0 ≤ le_decode l < 256 ^ zlen l.
Proof.
  induction 1 as [|b l Hb Hl IH]; [done|].
  rewrite zlen_cons, Z.pow_add_r by (try apply zlen_nonneg; lia).
  unfold is_byte in Hb. cbn [le_decode]. change (256^1) with 256. lia.
Qed.

Lemma be_decode_range l : Forall is_byte l → 0 ≤ be_decode l < 256 ^ zlen l.
Proof.
  intros H. unfold be_decode.
  replace (zlen l) with (zlen (rev l)) by (unfold zlen; by rewrite length_rev).
  apply le_decode_range. by apply Forall_rev.
Qed.

Lemma le_decode_zeros n : le_decode (replicate n 0) = 0.
Proof. induction n; simpl; lia. Qed.
Lemma reverse_replicate_rev {A} n (x : A) : rev (replicate n x) = replicate n x.
Proof.
  symmetry. apply replicate_as_elem_of. split; [by rewrite length_rev, length_replicate|].
  intros y Hy. apply list_elem_of_In, in_rev, list_elem_of_In in Hy.
  by apply elem_of_replicate in Hy as [-> _].
Qed.
Lemma be_decode_zeros n : be_decode (replicate n 0) = 0.
Proof. unfold be_decode. by rewrite reverse_replicate_rev, le_decode_zeros. Qed.

Lemma le_encode_app n m v : le_encode (n + m) v = le_encode n v ++ le_encode m (v / 256 ^ Z.of_nat n).
Proof.
  revert v. induction n as [|n IH]; intros v; [by rewrite Z.div_1_r|].
  cbn [Nat.add le_encode app]. rewrite IH, Z.div_div by lia. do 3 f_equal.
  by rewrite Nat2Z.inj_succ, Z.pow_succ_r by lia.
Qed.

Lemma le_encode_mod n v w : v mod 256 ^ Z.of_nat n = w mod 256 ^ Z.of_nat n → le_encode n v = le_encode n w.
Proof.
  revert v w. induction n as [|n IH]; intros v w Hvw; [done|].
  rewrite Nat2Z.inj_succ, Z.pow_succ_r, !Z.rem_mul_r in Hvw by lia. cbn [le_encode].
  pose proof (Z.mod_pos_bound v 256 ltac:(lia)). pose proof (Z.mod_pos_bound w 256 ltac:(lia)).
  assert (v mod 256 = w mod 256 ∧ (v / 256) mod 256 ^ Z.of_nat n = (w / 256) mod 256 ^ Z.of_nat n) as [-> Hq] by lia.
  f_equal. by apply IH.
Qed.

Lemma le_encode_decode l : Forall is_byte l → le_encode (length l) (le_decode l) = l.
Proof.
  induction 1 as [|b l Hb Hl IH]; [done|]. cbn [length le_encode le_decode]. unfold is_byte in Hb.
  rewrite (Z.mul_comm 256), Z.mod_add, Z.mod_small, Z.div_add, Z.div_small by lia. by rewrite Z.add_0_l, IH.
Qed.

(** ** Overwriting part of a buffer *)

Lemma splice_get buf i d j :
  0 ≤ i → i + zlen d ≤ zlen buf → 0 ≤ j →
  zget 0 (splice buf i d) j = if (i <=? j) && (j <? i + zlen d) then zget 0 d (j - i) else zget 0 buf j.
Proof.
  intros Hi Hd Hj. unfold splice. pose proof (zlen_nonneg d).
  assert (Ht : zlen (take (Z.to_nat i) buf) = i) by (unfold zlen in *; rewrite length_take; lia).
  rewrite zget_app, Ht by done. destruct (Z.ltb_spec j i), (Z.leb_spec i j); simpl; try lia.
  - unfold zget. destruct (Z.ltb_spec j 0); [lia|]. rewrite !nth_lookup, lookup_take_lt by lia. done.
  - rewrite zget_app by lia. destruct (Z.ltb_spec (j - i) (zlen d)), (Z.ltb_spec j (i + zlen d)); try lia.
    unfold zget. destruct (Z.ltb_spec (j - i - zlen d) 0), (Z.ltb_spec j 0); try lia.
    rewrite !nth_lookup, lookup_drop. do 2 f_equal. unfold zlen in *. lia.
Qed.

Lemma zlen_splice buf i d : 0 ≤ i → i + zlen d ≤ zlen buf → zlen (splice buf i d) = zlen buf.
Proof.
  intros Hi Hd. unfold splice, zlen in *. rewrite !length_app, length_take, length_drop. lia.
Qed.

Lemma zslice_app {A} (l : list A) a b c :
  0 ≤ a → a ≤ b → b ≤ c → c ≤ zlen l → zslice l a b ++ zslice l b c = zslice l a c.
Proof.
  intros. unfold zslice, zlen in *.
  replace (Z.to_nat (c - a)) with (Z.to_nat (b - a) + Z.to_nat (c - b))%nat by lia.
  rewrite <- take_take_drop, drop_drop. do 3 f_equal. lia.
Qed.

(** ** Files *)

(** A regular file: its bytes where it has any, and its length.  A position
    below [fsize] with no entry is a hole and reads as zero. *)
Record file : Type := File { fdata : gmap Z Z; fsize : Z }.

Definition empty_file : file := File ∅ 0.

Definition fbyte (f : file) (i : Z) : Z := default 0 (fdata f !! i).

(** The [n] bytes from [off] on. *)
Definition fread (f : file) (off n : Z) : list Z := map (fbyte f) (seqZ off n).

Fixpoint put_bytes (m : gmap Z Z) (off : Z) (d : list Z) : gmap Z Z :=
  match d with [] => m | b :: r => put_bytes (<[off := b]> m) (off + 1) r end.

Definition fwrite (f : file) (off : Z) (d : list Z) : file :=
  File (put_bytes (fdata f) off d)
       (if zlen d =? 0 then fsize f else Z.max (fsize f) (off + zlen d)).

Inductive io_err : Type := EOF | ErrNegOffset.
#[global] Instance io_err_eq_dec : EqDecision io_err.
Proof. solve_decision. Defined.

(** [f.ReadAt(p, off)] with [len(p) = n]: the bytes read and the error; a read
    that meets the end of the file is short and reports [io.EOF]. *)
Definition file_ReadAt (f : file) (n off : Z) : list Z * option io_err :=
  if off <? 0 then ([], Some ErrNegOffset)
  else let m := Z.max 0 (Z.min n (fsize f - off)) in
       (fread f off m, if m <? n then Some EOF else None).

(** [f.WriteAt(d, off)]. *)
Definition file_WriteAt (f : file) (d : list Z) (off : Z) : file * option io_err :=
  if off <? 0 then (f, Some ErrNegOffset) else (fwrite f off d, None).

(** [f.Truncate(n)]: cut the file or extend it with a hole. *)
Definition file_Truncate (f : file) (n : Z) : file :=
  File (filter (λ '(i, _), i < n) (fdata f)) n.

Lemma put_bytes_lookup m off d i :
  put_bytes m off d !! i =
    if (off <=? i) && (i <? off + zlen d) then Some (zget 0 d (i - off)) else m !! i.
Proof.
  revert m off. induction d as [|b d IH]; intros m off; cbn [put_bytes].
  - rewrite zlen_nil. case_ifs; [lia|done].
  - rewrite IH, zlen_cons.
    destruct (Z.leb_spec (off + 1) i), (Z.leb_spec off i),
      (Z.ltb_spec i (off + 1 + zlen d)), (Z.ltb_spec i (off + (1 + zlen d)));
      simpl; try lia; try (rewrite lookup_insert_ne by lia; done).
    + rewrite zget_cons by lia. case_ifs; [lia|]. do 2 f_equal. lia.
    + assert (i = off) as -> by lia. rewrite lookup_insert_eq, zget_cons by lia.
      by rewrite Z.sub_diag.
    + pose proof (zlen_nonneg d). lia.
Qed.

Lemma fbyte_fwrite f off d i :
  fbyte (fwrite f off d) i =
    if (off <=? i) && (i <? off + zlen d) then zget 0 d (i - off) else fbyte f i.
Proof. unfold fbyte, fwrite. simpl. rewrite put_bytes_lookup. by case_if. Qed.

Lemma fsize_fwrite f off d :
  fsize (fwrite f off d) = if zlen d =? 0 then fsize f else Z.max (fsize f) (off + zlen d).
Proof. done. Qed.

Lemma fsize_fwrite_mono f off d : fsize f ≤ fsize (fwrite f off d).
Proof. rewrite fsize_fwrite. case_if; lia. Qed.

Lemma zlen_fread f off n : 0 ≤ n → zlen (fread f off n) = n.
Proof. intros. unfold fread. by rewrite zlen_map, zlen_seqZ. Qed.

Lemma zget_fread f off n i : 0 ≤ i < n → zget 0 (fread f off n) i = fbyte f (off + i).
Proof.
  intros. unfold fread. rewrite (zget_map 0) by (rewrite zlen_seqZ; lia).
  by rewrite zget_seqZ.
Qed.

Lemma fread_ext f g off n :
  (∀ i, off ≤ i < off + n → fbyte f i = fbyte g i) → fread f off n = fread g off n.
Proof.
  intros H. unfold fread. apply map_ext_in. intros i Hi.
  apply list_elem_of_In, elem_of_seqZ in Hi. apply H. lia.
Qed.

(** A write leaves every byte range it does not meet unchanged ... *)
Lemma fread_fwrite_disj f off d o n :
  o + n ≤ off ∨ off + zlen d ≤ o → fread (fwrite f off d) o n = fread f o n.
Proof.
  intros H. apply fread_ext. intros i Hi. rewrite fbyte_fwrite.
  case_ifs; lia || done.
Qed.

(** ... and a read inside the written range returns the written bytes. *)
Lemma fread_fwrite_in f off d o n :
  off ≤ o → 0 ≤ n → o + n ≤ off + zlen d →
  fread (fwrite f off d) o n = zslice d (o - off) (o - off + n).
Proof.
  intros. apply (zget_eq 0).
  - rewrite zlen_fread, zlen_zslice; lia.
  - rewrite zlen_fread by lia. intros i Hi. rewrite zget_fread by lia.
    rewrite zget_zslice by lia. rewrite fbyte_fwrite. case_ifs; try lia. f_equal. lia.
Qed.

Lemma zslice_all {A} (l : list A) n : n = zlen l → zslice l 0 n = l.
Proof.
  intros ->. unfold zslice, zlen. rewrite Z.sub_0_r, Nat2Z.id. apply take_ge.
  done.
Qed.

Lemma fread_fwrite_same f off d : fread (fwrite f off d) off (zlen d) = d.
Proof.
  rewrite fread_fwrite_in by (try apply zlen_nonneg; lia).
  rewrite Z.sub_diag. by apply zslice_all.
Qed.

Lemma zslice_fread f off n a b :
  0 ≤ a → a ≤ b → b ≤ n → zslice (fread f off n) a b = fread f (off + a) (b - a).
Proof.
  intros. apply (zget_eq 0).
  - rewrite zlen_fread, zlen_zslice; rewrite ?zlen_fread; lia.
  - rewrite zlen_zslice by (rewrite ?zlen_fread; lia). intros i Hi.
    rewrite zget_zslice, !zget_fread by lia. f_equal. lia.
Qed.

Lemma fbyte_Truncate f n i : fbyte (file_Truncate f n) i = if i <? n then fbyte f i else 0.
Proof.
  unfold fbyte, file_Truncate. simpl. rewrite map_lookup_filter.
  destruct (fdata f !! i) as [b|]; simpl; [|by case_if].
  destruct (Z.ltb_spec i n); [by rewrite option_guard_True|by rewrite option_guard_False by lia].
Qed.

(** A full read: no end of file in the way. *)
Lemma file_ReadAt_full f n off :
  0 ≤ off → 0 ≤ n → off + n ≤ fsize f → file_ReadAt f n off = (fread f off n, None).
Proof.
  intros. unfold file_ReadAt. destruct (Z.ltb_spec off 0); [lia|].
  rewrite Z.max_r, Z.min_l by lia. destruct (Z.ltb_spec n n); [lia|done].
Qed.

Lemma file_WriteAt_ok f d off :
  0 ≤ off → file_WriteAt f d off = (fwrite f off d, None).
Proof. intros. unfold file_WriteAt. destruct (Z.ltb_spec off 0); [lia|done]. Qed.

(** A file of bytes. *)
Definition file_bytes (f : file) : Prop := ∀ i, is_byte (fbyte f i).

Lemma fread_bytes f off n : file_bytes f → Forall is_byte (fread f off n).
Proof. intros Hb. apply Forall_forall. intros x Hx. apply in_map_iff in Hx as (i & <- & _). apply Hb. Qed.

Lemma zslice_bytes l a b : Forall is_byte l → Forall is_byte (zslice l a b).
Proof. intros H. apply Forall_take, Forall_drop, H. Qed.

Lemma fwrite_bytes f off d : file_bytes f → Forall is_byte d → file_bytes (fwrite f off d).
Proof.
  intros Hf Hd i. rewrite fbyte_fwrite. case_ifs; [|apply Hf]. rewrite Forall_forall in Hd.
  apply Hd, list_elem_of_In, zget_elem. lia.
Qed.

#[export] Hint Rewrite @zlen_nil @zlen_cons @zlen_app @zlen_replicate @zlen_zset
  zlen_be_encode zlen_le_encode : go_arith.
