(* ===== verification/Paths.v ===== *)
(** * Paths and the containment of backing files

    The lexical functions of [path/filepath] the sources use ([Clean], [Dir],
    [Join], [Abs], [Rel], on byte strings) and, from [internal/cow/manager.go],
    [validatePath], [validateBackingName], [withinSubtree], [backingPathAllowed]
    and the refcounted registry of backing roots.  The theorems: containment is
    exactly the component-prefix relation, an accepted backing file lies below a
    resolved root, and the registry counts its users. *)

From S2P Require Import Prelude.

(** A path is a byte string; ['/'] is 47, ['.'] is 46. *)
Definition path : Type := list Z.
Definition slash : Z := 47.
Definition dot : path := [46].
Definition dotdot : path := [46; 46].

(** ** [path/filepath] *)

(** Split at every ['/']. *)
Fixpoint split_slash (p : path) : list path :=
  match p with
  | [] => [[]]
  | c :: r =>
      if c =? slash then [] :: split_slash r
      else match split_slash r with
           | e :: es => (c :: e) :: es
           | [] => [[c]]
           end
  end.

Fixpoint join_slash (es : list path) : path :=
  match es with
  | [] => []
  | [e] => e
  | e :: es => e ++ slash :: join_slash es
  end.

Definition IsAbs (p : path) : bool := match p with c :: _ => c =? slash | [] => false end.

(** The elements of a cleaned path, in reverse while they are collected. *)
Definition clean_step (rooted : bool) (acc : list path) (e : path) : list path :=
  if bool_decide (e = []) || bool_decide (e = dot) then acc
  else if bool_decide (e = dotdot) then
    match acc with
    | [] => if rooted then [] else [dotdot]
    | x :: r => if bool_decide (x = dotdot) then dotdot :: acc else r
    end
  else e :: acc.

Definition elems (p : path) : list path := rev (fold_left (clean_step (IsAbs p)) (split_slash p) []).

Definition Clean (p : path) : path :=
  if IsAbs p then slash :: join_slash (elems p)
  else match elems p with [] => dot | es => join_slash es end.

(** Everything up to the last ['/']. *)
Fixpoint dir_prefix (p : path) : path :=
  match p with
  | [] => []
  | c :: r => if bool_decide (slash ∈ r) || (c =? slash) then c :: dir_prefix r else []
  end.
Definition Dir (p : path) : path := Clean (dir_prefix p).

Definition Join (a b : path) : path :=
  match a, b with
  | [], [] => []
  | [], _ => Clean b
  | _, [] => Clean a
  | _, _ => Clean (a ++ slash :: b)
  end.

Definition Abs (cwd p : path) : path := if IsAbs p then Clean p else Join cwd p.

Fixpoint strip_common (b t : list path) : list path * list path :=
  match b, t with
  | x :: b', y :: t' => if bool_decide (x = y) then strip_common b' t' else (b, t)
  | _, _ => (b, t)
  end.

(** [Rel(base, targ)]; [None] is its error. *)
Definition Rel (base targ : path) : option path :=
  if negb (Bool.eqb (IsAbs base) (IsAbs targ)) then None
  else match strip_common (elems base) (elems targ) with
  | ([], []) => Some dot
  | ([], t) => Some (join_slash t)
  | (x :: b, t) =>
      if bool_decide (x = dotdot) then None
      else Some (join_slash (replicate (S (length b)) dotdot ++ t))
  end.

(** ** [internal/cow/manager.go] *)

Fixpoint has_prefix (pre p : path) : bool :=
  match pre, p with
  | [], _ => true
  | a :: pre', b :: p' => (a =? b) && has_prefix pre' p'
  | _ :: _, [] => false
  end.

Definition withinSubtree (p dir : path) : bool :=
  match Rel dir p with
  | None => false
  | Some rel => bool_decide (rel = dot) ||
                (negb (bool_decide (rel = dotdot)) && negb (has_prefix (dotdot ++ [slash]) rel))
  end.

(** [strings.ToLower] as far as an ASCII prefix can see it: ASCII capitals, and
    the two runes whose lower case is ASCII (U+0130, U+212A). *)
Fixpoint to_lower (p : path) : path :=
  match p with
  | [] => []
  | 196 :: 176 :: r => 105 :: to_lower r
  | 226 :: 132 :: 170 :: r => 107 :: to_lower r
  | c :: r => (if (65 <=? c) && (c <=? 90) then c + 32 else c) :: to_lower r
  end.

Inductive path_err : Type :=
| EPathEmpty | EPathForbidden | EPathOption | EPathSpecifier
| EResolve | EOutside.
#[global] Instance path_err_eq_dec : EqDecision path_err.
Proof. solve_decision. Defined.

(** json: nbd http:// https:// ftp:// ssh:// gluster:// iscsi:// *)
Definition remotePrefixes : list path :=
  [[106;115;111;110;58]; [110;98;100]; [104;116;116;112;58;47;47]; [104;116;116;112;115;58;47;47];
   [102;116;112;58;47;47]; [115;115;104;58;47;47]; [103;108;117;115;116;101;114;58;47;47];
   [105;115;99;115;105;58;47;47]].

(** The first path element: everything before the first ['/']. *)
Fixpoint first_elem (p : path) : path :=
  match p with [] => [] | c :: r => if c =? slash then [] else c :: first_elem r end.

Definition validatePath (p : path) : result path_err unit :=
  if bool_decide (p = []) then Err EPathEmpty
  else if existsb (λ c, (c =? 44) || (c =? 0)) p then Err EPathForbidden
  else if has_prefix [45] (first_elem p) then Err EPathOption
  else if existsb (λ pre, has_prefix pre (to_lower p)) remotePrefixes then Err EPathSpecifier
  else Ok tt.

Definition validateBackingName (name : path) : result path_err unit :=
  if bool_decide (name = []) then Err EPathEmpty else validatePath name.

(** The host file system as these functions see it: [EvalSymlinks] and the
    working directory, and the roots in force. *)
Record path_env : Type := {
  pe_cwd : path;
  pe_eval : path → option path;
  pe_roots : list path;              (** static and dynamic roots *)
}.

Definition root_vouches (E : path_env) (real root : path) : bool :=
  match pe_eval E root with
  | None => false
  | Some realRoot => withinSubtree real realRoot
  end.

Definition backingPathAllowed (E : path_env) (imagePath candidate : path) : result path_err path :=
  match pe_eval E candidate with
  | None => Err EResolve
  | Some real =>
      let candidates := Abs (pe_cwd E) (Dir imagePath) :: pe_roots E in
      if existsb (root_vouches E real) candidates then Ok real else Err EOutside
  end.

(** ** The registry of backing roots *)

Record registry : Type := {
  dynamicBackingRoots : gmap path Z;
  overlayBackingDirs : gmap path path;
}.

Definition count_of (r : registry) (d : path) : Z := default 0 (dynamicBackingRoots r !! d).

Definition drop_root (m : gmap path Z) (d : path) : gmap path Z :=
  if default 0 (m !! d) <=? 1 then delete d m else <[d := default 0 (m !! d) - 1]> m.
Definition add_root (m : gmap path Z) (d : path) : gmap path Z := <[d := default 0 (m !! d) + 1]> m.

Definition RegisterBackingRoot (cwd dir : path) (r : registry) : registry :=
  {| dynamicBackingRoots := add_root (dynamicBackingRoots r) (Abs cwd dir);
     overlayBackingDirs := overlayBackingDirs r |}.

Definition UnregisterBackingRoot (cwd dir : path) (r : registry) : registry :=
  {| dynamicBackingRoots := drop_root (dynamicBackingRoots r) (Abs cwd dir);
     overlayBackingDirs := overlayBackingDirs r |}.

Definition registerOverlayBacking (overlayPath baseDir : path) (r : registry) : registry :=
  let m := match overlayBackingDirs r !! overlayPath with
           | Some old => drop_root (dynamicBackingRoots r) old
           | None => dynamicBackingRoots r
           end in
  {| dynamicBackingRoots := add_root m baseDir;
     overlayBackingDirs := <[overlayPath := baseDir]> (overlayBackingDirs r) |}.

Definition unregisterOverlayBacking (overlayPath : path) (r : registry) : registry :=
  match overlayBackingDirs r !! overlayPath with
  | None => r
  | Some baseDir =>
      {| dynamicBackingRoots := drop_root (dynamicBackingRoots r) baseDir;
         overlayBackingDirs := delete overlayPath (overlayBackingDirs r) |}
  end.

(** ** Lemmas on cleaned paths *)

(** An ordinary path element. *)
Definition plain (e : path) : Prop := e ≠ [] ∧ e ≠ dot ∧ e ≠ dotdot ∧ slash ∉ e.

Lemma split_slash_elems p : Forall (λ e, slash ∉ e) (split_slash p).
Proof.
  induction p as [|c p IH]; simpl; [constructor; [by apply not_elem_of_nil|constructor]|].
  destruct (Z.eqb_spec c slash) as [->|Hc]; [constructor; [by apply not_elem_of_nil|done]|].
  destruct (split_slash p) as [|e es]; inversion IH; subst; constructor; try done.
  - apply not_elem_of_cons. split; [congruence|apply not_elem_of_nil].
  - apply not_elem_of_cons. split; [congruence|done].
Qed.

Lemma clean_step_plain acc e :
  Forall plain acc → slash ∉ e → Forall plain (clean_step true acc e).
Proof.
  intros Ha He. unfold clean_step.
  destruct (bool_decide_reflect (e = [])) as [|H1]; [done|].
  destruct (bool_decide_reflect (e = dot)) as [|H2]; [done|]. simpl.
  destruct (bool_decide_reflect (e = dotdot)) as [|H3]; [|by constructor].
  destruct Ha as [|x r Hx Hr]; [done|]. case_bool_decide as Hd; [by destruct Hx as (_ & _ & ? & _)|done].
Qed.

Lemma elems_plain p : IsAbs p = true → Forall plain (elems p).
Proof.
  intros Hp. unfold elems. rewrite Hp. apply Forall_rev.
  assert (H : ∀ es acc, Forall (λ e, slash ∉ e) es → Forall plain acc →
                        Forall plain (fold_left (clean_step true) es acc)).
  { induction es as [|e es IH]; intros acc Hes Ha; [done|]. inversion Hes; subst. simpl.
    apply IH; [done|]. by apply clean_step_plain. }
  apply H; [apply split_slash_elems|done].
Qed.

Lemma strip_common_spec b t :
  let '(b', t') := strip_common b t in
  ∃ c, b = c ++ b' ∧ t = c ++ t' ∧ (b' = [] ∨ t' = [] ∨ head b' ≠ head t').
Proof.
  revert t. induction b as [|x b IH]; intros [|y t]; simpl; try (exists []; simpl; tauto).
  case_bool_decide as Hxy.
  - subst y. specialize (IH t). destruct (strip_common b t) as [b' t'].
    destruct IH as (c & -> & -> & Hd). by exists (x :: c).
  - exists []. split_and!; try done. right. right. simpl. congruence.
Qed.

Lemma has_prefix_app pre p : has_prefix pre p = true ↔ ∃ q, p = pre ++ q.
Proof.
  revert p. induction pre as [|a pre IH]; intros p; simpl; [by split; [exists p|]|].
  destruct p as [|b p]; [by split; [|intros (? & ?)]|]. rewrite andb_true_iff, IH, Z.eqb_eq. split.
  - intros [-> [q ->]]. by exists q.
  - intros [q [= -> ->]]. eauto.
Qed.

(** The relative path of a descendant does not climb. *)
Lemma join_plain_inside t :
  Forall plain t → t ≠ [] →
  join_slash t ≠ dotdot ∧ has_prefix (dotdot ++ [slash]) (join_slash t) = false.
Proof.
  intros Ht Hn. destruct Ht as [|e t (He1 & He2 & He3 & He4) Ht]; [done|].
  destruct t as [|e' t]; simpl join_slash.
  - split; [done|]. apply not_true_is_false. rewrite has_prefix_app. intros [q ->].
    apply He4. set_solver.
  - assert (Hcases : ∀ q, e ++ slash :: q ≠ dotdot ∧ ∀ q', e ++ slash :: q ≠ dotdot ++ slash :: q').
    { intros q. destruct e as [|c0 [|c1 [|c2 e]]]; [done|..].
      - split; [|intros q']; intros [= -> Hs]; unfold slash in *; congruence.
      - split; [intros [= -> -> _]|intros q' [= -> -> _]]; by apply He3.
      - split; [done|]. intros q' [= -> -> -> _]. apply He4. set_solver. }
    split; [apply Hcases|]. apply not_true_is_false. rewrite has_prefix_app. intros [q Hq].
    rewrite <- app_assoc in Hq. exact (proj2 (Hcases _) q Hq).
Qed.

Lemma climbing b t :
  join_slash (dotdot :: b ++ t) = dotdot ∨ has_prefix (dotdot ++ [slash]) (join_slash (dotdot :: b ++ t)) = true.
Proof. destruct (b ++ t); [by left|]. right. apply has_prefix_app. simpl. eauto. Qed.

(** Containment is the component-prefix relation. *)
Lemma withinSubtree_spec p dir :
  IsAbs p = true → IsAbs dir = true →
  withinSubtree p dir = true ↔ elems dir `prefix_of` elems p.
Proof.
  intros Hp Hd. unfold withinSubtree, Rel. rewrite Hp, Hd. cbn [negb Bool.eqb].
  pose proof (elems_plain p Hp) as Hpp. pose proof (elems_plain dir Hd) as Hdp.
  pose proof (strip_common_spec (elems dir) (elems p)) as Hs.
  destruct (strip_common (elems dir) (elems p)) as [b' t'].
  destruct Hs as (c & Hb & Ht & Hdiff). rewrite Hb in Hdp. rewrite Ht in Hpp.
  apply Forall_app in Hdp as [_ Hdp]. apply Forall_app in Hpp as [_ Hpp]. rewrite Hb, Ht.
  destruct b' as [|x b].
  - rewrite app_nil_r. split; [intros _; by exists t'|]. intros _. destruct t' as [|e t]; [done|].
    destruct (join_plain_inside (e :: t)) as [H1 H2]; [done..|]. rewrite H2.
    rewrite (bool_decide_eq_false_2 _ H1). by rewrite orb_true_r.
  - inversion Hdp as [|? ? (_ & _ & Hx & _) _]; subst.
    rewrite (bool_decide_eq_false_2 _ Hx). split.
    + intros Hw. exfalso.
      change (replicate (S (length b)) dotdot ++ t') with (dotdot :: replicate (length b) dotdot ++ t') in Hw.
      pose proof (climbing (replicate (length b) dotdot) t') as H1. revert Hw H1.
      generalize (join_slash (dotdot :: replicate (length b) dotdot ++ t')). intros r Hw [->|H1]; [done|].
      rewrite H1, andb_false_r, orb_false_r in Hw. apply bool_decide_eq_true in Hw. by rewrite Hw in H1.
    + intros [k Hk]. exfalso. rewrite <- app_assoc in Hk. apply app_inv_head in Hk. subst t'.
      destruct Hdiff as [?|[?|Hne]]; [done..|]. by apply Hne.
Qed.

Lemma allowed_spec E imagePath candidate real :
  (∀ q r, pe_eval E q = Some r → IsAbs r = true) →
  backingPathAllowed E imagePath candidate = Ok real ↔
  pe_eval E candidate = Some real ∧
  ∃ root realRoot, root ∈ Abs (pe_cwd E) (Dir imagePath) :: pe_roots E ∧
    pe_eval E root = Some realRoot ∧ elems realRoot `prefix_of` elems real.
Proof.
  intros Habs. unfold backingPathAllowed. destruct (pe_eval E candidate) as [r|] eqn:Er.
  2:{ split; [done|by intros [? _]]. }
  destruct (existsb _ _) eqn:Ex.
  - apply existsb_exists in Ex as (root & Hin & Hv). unfold root_vouches in Hv.
    destruct (pe_eval E root) as [rr|] eqn:Err; [|done].
    apply withinSubtree_spec in Hv; [|by eapply Habs..].
    split; [intros [= ->]|intros [[= ->] _]; done]. split; [done|].
    exists root, rr. split_and!; try done. by apply list_elem_of_In.
  - split; [done|]. intros ([= ->] & root & rr & Hin & Err & Hpre). exfalso.
    assert (existsb (root_vouches E real) (Abs (pe_cwd E) (Dir imagePath) :: pe_roots E) = true); [|congruence].
    apply existsb_exists. exists root. split; [by apply list_elem_of_In|].
    unfold root_vouches. rewrite Err. apply withinSubtree_spec; [by eapply Habs..|done].
Qed.

(** Containment of backing files: [backingPathAllowed] accepts exactly the
    candidates that resolve to a path lying, element by element, below the
    resolution of the image's own directory or of a registered root, and it
    returns the resolved path.  A name that climbs out, or a symlink that leaves
    the roots, is rejected. *)
Theorem backingPathAllowed_contained E imagePath candidate real :
  (∀ q r, pe_eval E q = Some r → IsAbs r = true) →
  backingPathAllowed E imagePath candidate = Ok real ↔
  pe_eval E candidate = Some real ∧
  ∃ root realRoot, root ∈ Abs (pe_cwd E) (Dir imagePath) :: pe_roots E ∧
    pe_eval E root = Some realRoot ∧ elems realRoot `prefix_of` elems real.
Proof. apply allowed_spec. Qed.

(** A file system without symlinks: resolution is [Clean]. *)
Definition demo_env : path_env :=
  {| pe_cwd := [47]; pe_eval := λ p, if IsAbs p then Some (Clean p) else None;
     pe_roots := [[47; 115]] |}.

(** [/s/x/../b] resolves to [/s/b], below the root [/s]. *)
Lemma backingPathAllowed_contained_witness :
  backingPathAllowed demo_env [47; 105; 47; 97] [47; 115; 47; 120; 47; 46; 46; 47; 98] = Ok [47; 115; 47; 98] ∧
  backingPathAllowed demo_env [47; 105; 47; 97] [47; 115; 47; 46; 46; 47; 98] = Err EOutside.
Proof.
  split; [|by vm_compute].
  apply (backingPathAllowed_contained demo_env).
  - intros q r. simpl. destruct (IsAbs q) eqn:Hq; [|done]. intros [= <-]. unfold Clean. by rewrite Hq.
  - split; [by vm_compute|]. exists [47; 115], [47; 115]. split_and!; [set_solver|by vm_compute|].
    exists [[98]]. by vm_compute.
Defined.

(** ** The registry counts its users *)

(** Overlays whose base directory is [d]. *)
Definition overlays_at (m : gmap path path) (d : path) : Z := Z.of_nat (size (filter (λ kv, kv.2 = d) m)).

(** [ex d]: outstanding [RegisterBackingRoot] calls for [d]. *)
Definition registry_ok (r : registry) (ex : path → Z) : Prop :=
  (∀ d, count_of r d = ex d + overlays_at (overlayBackingDirs r) d) ∧
  (∀ d, 0 ≤ ex d) ∧ (∀ d n, dynamicBackingRoots r !! d = Some n → 0 < n).

Definition tally (ex : path → Z) (d : path) (k : Z) : path → Z := λ x, if decide (x = d) then ex x + k else ex x.

Inductive registry_step (cwd : path) : registry * (path → Z) → registry * (path → Z) → Prop :=
| step_register d r ex :
    registry_step cwd (r, ex) (RegisterBackingRoot cwd d r, tally ex (Abs cwd d) 1)
| step_unregister d r ex : 0 < ex (Abs cwd d) →
    registry_step cwd (r, ex) (UnregisterBackingRoot cwd d r, tally ex (Abs cwd d) (-1))
| step_overlay p d r ex : registry_step cwd (r, ex) (registerOverlayBacking p d r, ex)
| step_overlay_gone p r ex : registry_step cwd (r, ex) (unregisterOverlayBacking p r, ex).

Definition empty_registry : registry := {| dynamicBackingRoots := ∅; overlayBackingDirs := ∅ |}.

Lemma add_root_count m d x :
  default 0 (add_root m d !! x) = default 0 (m !! x) + (if decide (x = d) then 1 else 0).
Proof.
  unfold add_root. destruct (decide (x = d)) as [->|].
  - by rewrite lookup_insert_eq.
  - rewrite lookup_insert_ne by done. lia.
Qed.

Lemma drop_root_count m d x :
  (∀ y n, m !! y = Some n → 0 < n) → 0 < default 0 (m !! d) →
  default 0 (drop_root m d !! x) = default 0 (m !! x) - (if decide (x = d) then 1 else 0).
Proof.
  intros Hpos Hd. unfold drop_root. destruct (Z.leb_spec (default 0 (m !! d)) 1).
  - destruct (decide (x = d)) as [->|].
    + rewrite lookup_delete_eq. simpl. lia.
    + rewrite lookup_delete_ne by done. lia.
  - destruct (decide (x = d)) as [->|].
    + by rewrite lookup_insert_eq.
    + rewrite lookup_insert_ne by done. lia.
Qed.

Lemma add_root_pos m d :
  (∀ y n, m !! y = Some n → 0 < n) → ∀ y n, add_root m d !! y = Some n → 0 < n.
Proof.
  intros Hpos y n. unfold add_root. destruct (decide (y = d)) as [->|].
  - rewrite lookup_insert_eq. intros [= <-]. destruct (m !! d) eqn:E; simpl; [|lia].
    pose proof (Hpos _ _ E). lia.
  - rewrite lookup_insert_ne by done. apply Hpos.
Qed.

Lemma drop_root_pos m d :
  (∀ y n, m !! y = Some n → 0 < n) → ∀ y n, drop_root m d !! y = Some n → 0 < n.
Proof.
  intros Hpos y n. unfold drop_root. destruct (Z.leb_spec (default 0 (m !! d)) 1).
  - rewrite lookup_delete_Some. intros [_ Hy]. by eapply Hpos.
  - destruct (decide (y = d)) as [->|]; [rewrite lookup_insert_eq; intros [= <-]; lia|].
    rewrite lookup_insert_ne by done. apply Hpos.
Qed.

Lemma overlays_insert m p d x :
  overlays_at (<[p := d]> m) x =
    overlays_at m x - (if decide (m !! p = Some x) then 1 else 0) + (if decide (x = d) then 1 else 0).
Proof.
  unfold overlays_at. rewrite <- (insert_delete_eq m p d).
  assert (Hdel : size (filter (λ kv : path * path, kv.2 = x) m) =
          (size (filter (λ kv : path * path, kv.2 = x) (delete p m)) + (if decide (m !! p = Some x) then 1 else 0))%nat).
  { destruct (m !! p) as [v|] eqn:E.
    - rewrite <- (insert_delete_id m p v E) at 1. rewrite map_filter_insert.
      simpl. destruct (decide (v = x)) as [->|Hv].
      + rewrite map_size_insert_None by (rewrite map_lookup_filter, lookup_delete_eq; done).
        destruct (decide (Some x = Some x)); [lia|done].
      + rewrite delete_delete_eq. destruct (decide (Some v = Some x)); [congruence|lia].
    - rewrite delete_id by done. destruct (decide (None = Some x)); [done|lia]. }
  rewrite Hdel, map_filter_insert. simpl.
  destruct (decide (d = x)) as [->|Hd].
  - rewrite map_size_insert_None by (rewrite map_lookup_filter, lookup_delete_eq; done).
    destruct (decide (x = x)); [|done]. destruct (decide (m !! p = Some x)); lia.
  - rewrite delete_delete_eq. destruct (decide (x = d)); [congruence|].
    destruct (decide (m !! p = Some x)); lia.
Qed.

Lemma overlays_delete m p b x :
  m !! p = Some b → overlays_at (delete p m) x = overlays_at m x - (if decide (x = b) then 1 else 0).
Proof.
  intros Hp. rewrite <- (insert_delete_id m p b Hp) at 2.
  rewrite overlays_insert, lookup_delete_eq. destruct (decide (None = Some x)); [done|]. lia.
Qed.

Lemma overlays_pos m p d : m !! p = Some d → 0 < overlays_at m d.
Proof.
  intros Hp. unfold overlays_at.
  assert (size (filter (λ kv : path * path, kv.2 = d) m) ≠ 0%nat); [|lia].
  apply map_size_non_empty_iff. intros He.
  assert (filter (λ kv : path * path, kv.2 = d) m !! p = Some d) as Hf by (by apply map_lookup_filter_Some).
  by rewrite He, lookup_empty in Hf.
Qed.

Lemma registry_step_ok cwd r ex r' ex' :
  registry_step cwd (r, ex) (r', ex') → registry_ok r ex → registry_ok r' ex'.
Proof.
  intros Hs (Hc & Hex & Hpos). unfold count_of in *.
  assert (Hov0 : ∀ d, 0 ≤ overlays_at (overlayBackingDirs r) d) by (intros; unfold overlays_at; lia).
  inversion Hs as [d r0 ex0|d r0 ex0 Hd|p d r0 ex0|p r0 ex0]; subst.
  - split_and!; simpl.
    + intros x. unfold count_of. simpl. rewrite add_root_count, Hc. unfold tally. destruct (decide _); lia.
    + intros x. unfold tally. specialize (Hex x). destruct (decide _); lia.
    + by apply add_root_pos.
  - assert (0 < default 0 (dynamicBackingRoots r !! Abs cwd d)) by (rewrite Hc; specialize (Hov0 (Abs cwd d)); lia).
    split_and!; simpl.
    + intros x. unfold count_of. simpl. rewrite drop_root_count, Hc by done. unfold tally. destruct (decide _); lia.
    + intros x. unfold tally. specialize (Hex x). destruct (decide _) as [->|]; lia.
    + by apply drop_root_pos.
  - split_and!; [|done|]; unfold registerOverlayBacking; simpl.
    + intros x. unfold count_of. simpl. rewrite add_root_count, overlays_insert.
      destruct (overlayBackingDirs r !! p) as [old|] eqn:Eo.
      * rewrite drop_root_count, Hc by (done || (rewrite Hc; specialize (Hex old); pose proof (overlays_pos _ _ _ Eo); lia)).
        destruct (decide (x = old)), (decide (Some old = Some x)), (decide (x = d)); simplify_eq; try done; lia.
      * rewrite Hc. destruct (decide (None = Some x)), (decide (x = d)); done || lia.
    + apply add_root_pos. destruct (overlayBackingDirs r !! p); [by apply drop_root_pos|done].
  - unfold unregisterOverlayBacking. destruct (overlayBackingDirs r !! p) as [b|] eqn:Eo; [|by split_and!].
    split_and!; [|done|by apply drop_root_pos]. intros x. unfold count_of. simpl.
    rewrite drop_root_count, Hc, (overlays_delete _ _ b)
      by (done || (rewrite Hc; specialize (Hex b); pose proof (overlays_pos _ _ _ Eo); lia)).
    destruct (decide (x = b)); lia.
Qed.

(** The registry of backing roots never leaks and never drops a root in use:
    in every state reached by registrations, matched unregistrations and overlay
    creations, re-creations and removals, the count of a directory is the number
    of outstanding registrations plus the number of live overlays based there,
    and the directory is an allowed root exactly while that number is positive. *)
Theorem registry_counts cwd r ex :
  rtc (registry_step cwd) (empty_registry, λ _, 0) (r, ex) →
  ∀ d, count_of r d = ex d + overlays_at (overlayBackingDirs r) d ∧
       (is_Some (dynamicBackingRoots r !! d) ↔ 0 < ex d + overlays_at (overlayBackingDirs r) d).
Proof.
  intros Hr.
  assert (registry_ok r ex) as (Hc & Hex & Hpos).
  { assert (Hinv : ∀ s s', rtc (registry_step cwd) s s' → registry_ok s.1 s.2 → registry_ok s'.1 s'.2).
    { induction 1 as [|[r1 e1] [r2 e2] s3 Hs _ IH]; [done|]. intros H. by eapply IH, registry_step_ok. }
    eapply (Hinv _ (r, ex)); [exact Hr|]. split_and!; simpl; try done. }
  intros d. split; [apply Hc|]. rewrite <- Hc. unfold count_of.
  destruct (dynamicBackingRoots r !! d) as [n|] eqn:E; simpl.
  - split; [intros _; by eapply Hpos|by eexists].
  - split; [by intros [? ?]|lia].
Qed.

(** Re-creating an overlay moves its authorization. *)
Lemma registry_counts_witness :
  count_of (registerOverlayBacking [111] [98] (registerOverlayBacking [111] [97] empty_registry)) [97] = 0 ∧
  count_of (registerOverlayBacking [111] [98] (registerOverlayBacking [111] [97] empty_registry)) [98] = 1.
Proof.
  assert (Hr : rtc (registry_step [47]) (empty_registry, λ _, 0)
    (registerOverlayBacking [111] [98] (registerOverlayBacking [111] [97] empty_registry), λ _, 0)).
  { eapply rtc_l; [apply (step_overlay _ [111] [97])|]. eapply rtc_once. apply step_overlay. }
  destruct (registry_counts [47] _ _ Hr [97]) as [H1 _].
  destruct (registry_counts [47] _ _ Hr [98]) as [H2 _].
  split; [rewrite H1|rewrite H2]; vm_compute; reflexivity.
Defined.

(** A path [validatePath] accepts is non-empty, free of commas and NULs, does
    not start with ['-'], and starts with none of the remote or protocol
    specifiers, in any letter case. *)
Theorem validatePath_sound p :
  validatePath p = Ok tt →
  p ≠ [] ∧ (44 ∉ p) ∧ (0 ∉ p) ∧ head p ≠ Some 45 ∧
  ∀ pre rest, pre ∈ remotePrefixes → to_lower p ≠ pre ++ rest.
Proof.
  unfold validatePath. case_bool_decide as H0; [done|].
  destruct (existsb _ p) eqn:E1; [done|]. destruct (has_prefix [45] _) eqn:E2; [done|].
  destruct (existsb _ remotePrefixes) eqn:E3; [done|]. intros _.
  assert (Hno : ∀ c, c ∈ p → c ≠ 44 ∧ c ≠ 0).
  { intros c Hc. apply list_elem_of_In in Hc.
    split; intros ->; rewrite (proj2 (existsb_exists _ p)) in E1; try done; eexists; (split; [exact Hc|done]). }
  split_and!; try done.
  - intros Hin. by destruct (Hno _ Hin).
  - intros Hin. by destruct (Hno _ Hin).
  - destruct p as [|c p]; [done|]. simpl in *. intros [= ->]. done.
  - intros pre rest Hpre Heq. rewrite (proj2 (existsb_exists _ remotePrefixes)) in E3; [done|].
    exists pre. split; [by apply list_elem_of_In|]. apply has_prefix_app. eauto.
Qed.

(** "JSON:x" is rejected, "a" is accepted. *)
Lemma validatePath_sound_witness :
  validatePath [74; 83; 79; 78; 58; 120] = Err EPathSpecifier ∧ (44 ∉ [97 : Z]).
Proof.
  split; [by vm_compute|]. apply (validatePath_sound [97]). vm_compute. reflexivity.
Defined.
