(* ===== verification/Qcow2Layout.v ===== *)
(** * qcow2 geometry: constants, header and create-time layout

    [internal/cow/qcow2.go]: the format constants, [qcow2Header], [OverlayOpt],
    [qcow2Layout], [divCeil], [roundUp8] and [computeQcow2Layout].  The theorems
    show that the sizing loop always converges within its 32 rounds and that the
    layout it returns is a partition into cluster-aligned regions whose refcount
    structures cover every cluster the layout counts. *)

From S2P Require Import Prelude.

(** ** Constants *)

Definition maxVirtualSize : Z := Z.shiftl 16 40.
Definition maxBackingChainDepth : Z := 32.
Definition l2CacheMaxBytes : Z := Z.shiftl 32 20.
Definition maxRefcountTableBytes : Z := Z.shiftl 1 22.

Definition qcow2Version3 : Z := 3.
Definition qcow2HeaderLen : Z := 112.
Definition qcow2V3HeaderLen : Z := 104.
Definition defaultClusterBits : Z := 12.
Definition refcountOrder : Z := 4.
Definition extBackingFormat : Z := 0xE2792ACA.
Definition maxBackingNameLen : Z := 1023.

Definition oflagCopied : Z := Z.shiftl 1 63.
Definition oflagCompressed : Z := Z.shiftl 1 62.
Definition oflagZero : Z := 1.
Definition l1eOffsetMask : Z := 0x00fffffffffffe00.
Definition l2eOffsetMask : Z := 0x00fffffffffffe00.
Definition reftOffsetMask : Z := 0xfffffffffffffe00.

(** ** Errors: one constructor per error message of the driver *)

Inductive cow_err : Type :=
| EDivZero | ECeilOverflow
| EClusterBits | EVirtualSizeCap | EL1TooLarge | ENotConverged | EZeroSize
| EBackingPathTooLong
| EIO (e : Z)             (** a host access failed, wrapped: 0 = EOF, 1 = negative offset *)
| EBeyondL1 | EL2Index | EL2Unaligned | EL2BeyondFile | ECompressed
| EHost                   (** a host read or write failed: no space, I/O error, short write *)
| EEOF                    (** the bare [io.EOF] value *)
| EUnexpectedEOF
| EWriteBeyondSize | EFileUnaligned | ERefcountTableFull
| ERefTableBeyondFile | ERefTableCap
| EHostUnaligned | EHostBeyondFile | EHostMetadata
| EVersion | EEncrypted | EIncompatible | EHeaderLen | EExtRegion | EExtOverflow
| EBackingFormat | ENoExtMarker | EBackingName | EChainDepth | EChainCycle
| EBackingOpen | EFormatMismatch | EL1TooSmall | EL1Unaligned | EL1Cap | EL1BeyondFile
| ESizeInconsistent
| EReadOnly | ESnapshots | ENotQcow2
| ENoFile | EMagic | EBackingRejected | EBackingOutside
| EPanic                  (** an index or slice out of range *)
| EFuel.

#[global] Instance cow_err_eq_dec : EqDecision cow_err.
Proof. solve_decision. Defined.

(** ** Data *)

Record qcow2Header : Type := {
  h_size : Z;
  h_l1Offset : Z;
  h_l1Size : Z;
  h_refcountOffset : Z;
  h_refcountClusters : Z;
  h_snapshots : Z;
  h_snapshotsOffset : Z;
}.

Record OverlayOpt : Type := { ClusterBits : Z; PreallocMetadata : bool }.

Definition defaultOverlayOpt : OverlayOpt :=
  {| ClusterBits := defaultClusterBits; PreallocMetadata := true |}.

Record qcow2Layout : Type := {
  lay_clusterBits : Z;
  lay_clusterSize : Z;
  lay_l1Size : Z;
  lay_l1Clusters : Z;
  lay_l2Count : Z;
  lay_reftableCls : Z;
  lay_refblockCnt : Z;
  lay_refUsedCls : Z;
  lay_physMeta : Z;
  lay_reftableOff : Z;
  lay_refblockOff : Z;
  lay_l1Off : Z;
  lay_l2Off : Z;
}.

(** ** Operations *)

(** [(v + 7) &^ 7] *)
Definition roundUp8 (v : Z) : Z := Z.ldiff (u64 (v + 7)) 7.

Definition divCeil (a b : Z) : result cow_err Z :=
  if b =? 0 then Err EDivZero
  else
    let q := a / b in
    let r := a mod b in
    if 0 <? r
    then if q =? MaxUint64 then Err ECeilOverflow else Ok (q + 1)
    else Ok q.

(** The fixed-point loop of [computeQcow2Layout]; [n] rounds are left. *)
Fixpoint layout_loop (n : nat) (bits cs l1Size l1Clusters l2Count dataClusters : Z)
    (refblockCnt reftableCls : Z) : result cow_err qcow2Layout :=
  match n with
  | O => Err ENotConverged
  | S n =>
      let physMeta := u64 (1 + reftableCls + refblockCnt + l1Clusters + l2Count) in
      let worst := u64 (physMeta + dataClusters) in
      let nbW := u64 (worst + cs / 2 - 1) / (cs / 2) in
      let nt := u64 (nbW + cs / 8 - 1) / (cs / 8) in
      if (nbW =? refblockCnt) && (nt =? reftableCls) then
        let* refUsedCls := divCeil (u64 (2 * physMeta)) cs in
        let refblockOff := u64 ((1 + reftableCls) * cs) in
        let l1Off := u64 (refblockOff + refblockCnt * cs) in
        Ok {| lay_clusterBits := bits; lay_clusterSize := cs;
              lay_l1Size := l1Size; lay_l1Clusters := l1Clusters; lay_l2Count := l2Count;
              lay_reftableCls := reftableCls; lay_refblockCnt := refblockCnt;
              lay_refUsedCls := refUsedCls; lay_physMeta := physMeta;
              lay_reftableOff := cs;
              lay_refblockOff := refblockOff;
              lay_l1Off := l1Off;
              lay_l2Off := u64 (l1Off + l1Clusters * cs) |}
      else layout_loop n bits cs l1Size l1Clusters l2Count dataClusters nbW nt
  end.

Definition computeQcow2Layout (virtualSize bits : Z) (prealloc : bool)
    : result cow_err qcow2Layout :=
  let bits := if bits =? 0 then defaultClusterBits else bits in
  if (bits <? 9) || (21 <? bits) then Err EClusterBits
  else if maxVirtualSize <? virtualSize then Err EVirtualSizeCap
  else
    let cs := u64 (Z.shiftl 1 bits) in
    let l2Entries := cs / 8 in
    let* l1Size := divCeil virtualSize (u64 (l2Entries * cs)) in
    if 0xFFFFFFFF <? l1Size then Err EL1TooLarge
    else
      let* l1Clusters := divCeil (u64 (l1Size * 8)) cs in
      let l2Count := if prealloc then l1Size else 0 in
      let* dataClusters := divCeil virtualSize cs in
      layout_loop 32 bits cs l1Size l1Clusters l2Count dataClusters 1 1.

(** ** Ceiling division *)

(** The mathematical ceiling of [a / b]. *)
Definition cdiv (a b : Z) : Z := (a + b - 1) / b.

Lemma cdiv_bounds a b : 0 < b → b * (cdiv a b - 1) < a ≤ b * cdiv a b.
Proof.
  intros. unfold cdiv. pose proof (Z.div_mod (a + b - 1) b ltac:(lia)).
  pose proof (Z.mod_pos_bound (a + b - 1) b ltac:(lia)). lia.
Qed.

Lemma cdiv_unique a b q : 0 < b → b * (q - 1) < a ≤ b * q → cdiv a b = q.
Proof. intros. pose proof (cdiv_bounds a b). nia. Qed.

Lemma cdiv_mono a a' b : 0 < b → a ≤ a' → cdiv a b ≤ cdiv a' b.
Proof. intros. unfold cdiv. apply Z.div_le_mono; lia. Qed.

Lemma cdiv_add a d b : 0 < b → cdiv (a + d) b ≤ cdiv a b + cdiv d b.
Proof.
  intros. pose proof (cdiv_bounds a b). pose proof (cdiv_bounds d b).
  pose proof (cdiv_bounds (a + d) b). nia.
Qed.

Lemma cdiv_nonneg a b : 0 < b → 0 ≤ a → 0 ≤ cdiv a b.
Proof. intros. apply Z.div_pos; lia. Qed.

Lemma cdiv_le a b n : 0 < b → a ≤ b * n → cdiv a b ≤ n.
Proof. intros. pose proof (cdiv_bounds a b). nia. Qed.

Lemma divCeil_cdiv a b : 0 ≤ a < 2^64 → 0 < b → divCeil a b = Ok (cdiv a b).
Proof.
  intros Ha Hb. unfold divCeil. destruct (Z.eqb_spec b 0); [lia|].
  pose proof (Z.div_mod a b ltac:(lia)). pose proof (Z.mod_pos_bound a b Hb).
  destruct (Z.ltb_spec 0 (a mod b)).
  - destruct (Z.eqb_spec (a / b) MaxUint64) as [Hq|].
    + exfalso. unfold MaxUint64 in Hq. assert (b = 1) as -> by nia.
      rewrite Z.mod_1_r in *. lia.
    + f_equal. symmetry. apply cdiv_unique; [done|]. nia.
  - f_equal. symmetry. apply cdiv_unique; [done|]. nia.
Qed.

(** ** Convergence of the sizing loop *)

Section Convergence.
(** [E] refcounts per block, [T] blocks per table cluster, [K] the clusters
    that do not depend on the iteration. *)
Variables (E T K : Z).
Hypothesis HE : 256 ≤ E.
Hypothesis HT : 64 ≤ T.
Hypothesis HK : 1 ≤ K ≤ 2^37.

(** One round, as a function of the metadata total [s = blocks + table clusters]. *)
Definition round_blocks (s : Z) : Z := cdiv (K + s) E.
Definition round_tables (s : Z) : Z := cdiv (round_blocks s) T.
Definition round_total (s : Z) : Z := round_blocks s + round_tables s.

Lemma round_blocks_grow s d :
  0 ≤ d → round_blocks (s + d) ≤ round_blocks s + (d + 255) / 256.
Proof.
  intros. unfold round_blocks. rewrite Z.add_assoc.
  etrans; [apply cdiv_add; lia|]. apply Z.add_le_mono_l.
  apply cdiv_le; [lia|]. pose proof (Z.div_mod (d + 255) 256).
  pose proof (Z.mod_pos_bound (d + 255) 256). nia.
Qed.

Lemma round_total_grow s d :
  0 ≤ d →
  round_total (s + d) ≤ round_total s + (d + 255) / 256 + ((d + 255) / 256 + 63) / 64.
Proof.
  intros. unfold round_total, round_tables. pose proof (round_blocks_grow s d ltac:(lia)).
  assert (0 ≤ (d + 255) / 256) by (apply Z.div_pos; lia).
  assert (cdiv (round_blocks (s + d)) T ≤
          cdiv (round_blocks s) T + ((d + 255) / 256 + 63) / 64); [|lia].
  etrans; [apply cdiv_mono; [lia|done]|]. etrans; [apply cdiv_add; lia|].
  apply Z.add_le_mono_l. apply cdiv_le; [lia|].
  pose proof (Z.div_mod ((d + 255) / 256 + 63) 64).
  pose proof (Z.mod_pos_bound ((d + 255) / 256 + 63) 64). nia.
Qed.

Lemma round_total_mono s s' : s ≤ s' → round_total s ≤ round_total s'.
Proof.
  intros. unfold round_total, round_tables, round_blocks.
  assert (cdiv (K + s) E ≤ cdiv (K + s') E) by (apply cdiv_mono; lia).
  assert (cdiv (cdiv (K + s) E) T ≤ cdiv (cdiv (K + s') E) T) by (apply cdiv_mono; lia).
  lia.
Qed.

(** Equal block counts give equal totals, and two crossings of a block
    boundary are more than a block apart. *)
Lemma round_blocks_eq_total s s' :
  round_blocks s = round_blocks s' → round_total s = round_total s'.
Proof. unfold round_total, round_tables. by intros ->. Qed.

Lemma round_blocks_twice s s' : round_blocks s + 2 ≤ round_blocks s' → E < s' - s.
Proof.
  unfold round_blocks. intros. pose proof (cdiv_bounds (K + s) E).
  pose proof (cdiv_bounds (K + s') E). nia.
Qed.

Abbreviation iter k := (Nat.iter k round_total 2).

Lemma iter_mono k : iter k ≤ iter (S k).
Proof.
  induction k as [|k IH].
  - simpl. unfold round_total.
    assert (1 ≤ round_blocks 2).
    { unfold round_blocks. pose proof (cdiv_bounds (K + 2) E). nia. }
    assert (1 ≤ round_tables 2); [|lia].
    unfold round_tables. pose proof (cdiv_bounds (round_blocks 2) T). nia.
  - simpl. apply round_total_mono. exact IH.
Qed.

Lemma iter_gap k d d' :
  iter (S k) ≤ iter k + d → d' = (d + 255) / 256 + ((d + 255) / 256 + 63) / 64 →
  iter (S (S k)) ≤ iter (S k) + d'.
Proof.
  intros Hd ->. pose proof (iter_mono k) as Hm.
  change (iter (S (S k))) with (round_total (iter (S k))).
  change (iter (S k)) with (round_total (iter k)) at 2.
  replace (iter (S k)) with (iter k + (iter (S k) - iter k)) at 1 by lia.
  etrans; [apply round_total_grow; lia|].
  assert (HA : ∀ a b, 0 ≤ a ≤ b → (a + 255) / 256 + ((a + 255) / 256 + 63) / 64
                      ≤ (b + 255) / 256 + ((b + 255) / 256 + 63) / 64).
  { intros a b Hab. assert ((a + 255) / 256 ≤ (b + 255) / 256) by (apply Z.div_le_mono; lia).
    apply Z.add_le_mono; [done|]. apply Z.div_le_mono; lia. }
  pose proof (HA (iter (S k) - iter k) d ltac:(lia)). lia.
Qed.

(** The metadata total is stable from round 8 on. *)
Lemma iter_stable : iter 8 = iter 7 ∧ iter 7 ≤ 2^32.
Proof.
  assert (G0 : iter 1 ≤ iter 0 + 2^31).
  { simpl. unfold round_total, round_tables.
    assert (0 ≤ round_blocks 2 ≤ 2^30).
    { unfold round_blocks. split; [apply cdiv_nonneg; lia|]. apply cdiv_le; nia. }
    assert (cdiv (round_blocks 2) T ≤ 2^30) by (apply cdiv_le; nia). lia. }
  pose proof (iter_gap 0 _ _ G0 eq_refl) as G1. vm_compute (Z.add (_ / _) _) in G1.
  pose proof (iter_gap 1 _ _ G1 eq_refl) as G2. vm_compute (Z.add (_ / _) _) in G2.
  pose proof (iter_gap 2 _ _ G2 eq_refl) as G3. vm_compute (Z.add (_ / _) _) in G3.
  pose proof (iter_gap 3 _ _ G3 eq_refl) as G4. vm_compute (Z.add (_ / _) _) in G4.
  pose proof (iter_gap 4 _ _ G4 eq_refl) as G5. vm_compute (Z.add (_ / _) _) in G5.
  pose proof (iter_gap 5 _ _ G5 eq_refl) as G6. vm_compute (Z.add (_ / _) _) in G6.
  pose proof (iter_mono 5). pose proof (iter_mono 6).
  split; [|change (iter 0) with 2 in G0; lia].
  destruct (Z.eq_dec (round_blocks (iter 5)) (round_blocks (iter 6))) as [He|Hne].
  - apply round_blocks_eq_total in He.
    change (iter 8) with (round_total (iter 7)). change (iter 7) with (round_total (iter 6)) at 2.
    f_equal. symmetry. exact He.
  - destruct (Z.eq_dec (round_blocks (iter 6)) (round_blocks (iter 7))) as [He|Hne'].
    + symmetry. apply round_blocks_eq_total. exact He.
    + exfalso. assert (HM : ∀ a b, a ≤ b → round_blocks a ≤ round_blocks b).
      { intros. apply cdiv_mono; lia. }
      pose proof (HM (iter 5) (iter 6) ltac:(done)). pose proof (HM (iter 6) (iter 7) ltac:(done)).
      pose proof (round_blocks_twice (iter 5) (iter 7)). lia.
Qed.

Lemma iter_range k : (k ≤ 8)%nat → 2 ≤ iter k ≤ 2^32.
Proof.
  intros Hk. split.
  - clear Hk. induction k as [|k IH]; [done|]. pose proof (iter_mono k). lia.
  - destruct iter_stable as [H8 H7]. rewrite <- H8 in H7. clear H8.
    assert (Hle : ∀ n, (k ≤ n)%nat → iter k ≤ iter n).
    { induction 1 as [|n Hn IH]; [lia|]. pose proof (iter_mono n). lia. }
    specialize (Hle 8%nat Hk). lia.
Qed.
End Convergence.

(** What a returned layout is. *)
Record layout_ok (virtualSize bits : Z) (prealloc : bool) (l : qcow2Layout) : Prop := {
  lo_bits : lay_clusterBits l = bits;
  lo_cs : lay_clusterSize l = 2 ^ bits;
  lo_l1Size : lay_l1Size l = cdiv virtualSize (2 ^ bits / 8 * 2 ^ bits);
  lo_l1Clusters : lay_l1Clusters l = cdiv (lay_l1Size l * 8) (2 ^ bits);
  lo_l2Count : lay_l2Count l = if prealloc then lay_l1Size l else 0;
  (** header, refcount table, refcount blocks, L1 table, L2 tables: consecutive *)
  lo_reftableOff : lay_reftableOff l = 2 ^ bits;
  lo_refblockOff : lay_refblockOff l = (1 + lay_reftableCls l) * 2 ^ bits;
  lo_l1Off : lay_l1Off l = lay_refblockOff l + lay_refblockCnt l * 2 ^ bits;
  lo_l2Off : lay_l2Off l = lay_l1Off l + lay_l1Clusters l * 2 ^ bits;
  lo_physMeta : lay_physMeta l * 2 ^ bits = lay_l2Off l + lay_l2Count l * 2 ^ bits;
  (** exactly enough blocks for metadata and data, exactly enough table for the blocks *)
  lo_refblocks :
    lay_refblockCnt l = cdiv (lay_physMeta l + cdiv virtualSize (2 ^ bits)) (2 ^ bits / 2);
  lo_reftable : lay_reftableCls l = cdiv (lay_refblockCnt l) (2 ^ bits / 8);
  lo_refUsed : lay_refUsedCls l = cdiv (2 * lay_physMeta l) (2 ^ bits);
  lo_bound : 0 < lay_l2Off l ∧ lay_l2Off l + lay_l2Count l * 2 ^ bits < 2 ^ 55;
  (** the counts stored in 32-bit header fields fit *)
  lo_fit : 0 ≤ lay_reftableCls l < 2 ^ 32 ∧ 0 ≤ lay_l1Size l < 2 ^ 32 ∧ 0 ≤ lay_refblockCnt l;
}.

Lemma pow2_bits bits : 9 ≤ bits ≤ 21 → 512 ≤ 2 ^ bits ≤ 2097152.
Proof.
  intros. split.
  - change 512 with (2^9). apply Z.pow_le_mono_r; lia.
  - change 2097152 with (2^21). apply Z.pow_le_mono_r; lia.
Qed.

Lemma pow2_split bits k : 0 ≤ k ≤ bits → 2 ^ bits = 2 ^ (bits - k) * 2 ^ k.
Proof. intros. rewrite <- Z.pow_add_r by lia. f_equal. lia. Qed.

(** [2^bits / 8] and [2^bits / 2] are exact. *)
Lemma cs_div8 bits : 9 ≤ bits → 2 ^ bits = 8 * (2 ^ bits / 8).
Proof.
  intros. rewrite (pow2_split bits 3) by lia. change (2^3) with 8.
  rewrite Z.div_mul by lia. lia.
Qed.
Lemma cs_div2 bits : 9 ≤ bits → 2 ^ bits = 2 * (2 ^ bits / 2).
Proof.
  intros. rewrite (pow2_split bits 1) by lia. change (2^1) with 2.
  rewrite Z.div_mul by lia. lia.
Qed.

Section LayoutLoop.
Variables (bits virtualSize : Z) (prealloc : bool).
Hypothesis Hbits : 9 ≤ bits ≤ 21.
Hypothesis Hvs : 0 ≤ virtualSize ≤ maxVirtualSize.

Let cs := 2 ^ bits.
Let l1Size := cdiv virtualSize (cs / 8 * cs).
Let l1Clusters := cdiv (l1Size * 8) cs.
Let l2Count := if prealloc then l1Size else 0.
Let dataClusters := cdiv virtualSize cs.
Let K := 1 + l1Clusters + l2Count + dataClusters.

Lemma layout_sizes :
  512 ≤ cs ≤ 2097152 ∧ cs = 8 * (cs / 8) ∧ cs = 2 * (cs / 2) ∧
  0 ≤ l1Size ≤ 2^29 ∧ 0 ≤ l1Clusters ≤ 2^29 ∧ 0 ≤ l2Count ≤ 2^29 ∧
  0 ≤ dataClusters ≤ 2^35 ∧ dataClusters * cs ≤ 2^45 ∧ l1Size * cs ≤ 2^45.
Proof.
  change maxVirtualSize with (2^44) in Hvs.
  pose proof (pow2_bits bits Hbits) as Hcs. fold cs in Hcs.
  pose proof (cs_div8 bits ltac:(lia)) as H8. fold cs in H8.
  pose proof (cs_div2 bits ltac:(lia)) as H2. fold cs in H2.
  assert (Hl1 : 0 ≤ l1Size ≤ 2^29).
  { unfold l1Size. split; [apply cdiv_nonneg; nia|]. apply cdiv_le; nia. }
  assert (Hd : 0 ≤ dataClusters ≤ 2^35).
  { unfold dataClusters. split; [apply cdiv_nonneg; lia|]. apply cdiv_le; nia. }
  assert (Hd' : dataClusters * cs ≤ 2^45).
  { pose proof (cdiv_bounds virtualSize cs ltac:(lia)). fold dataClusters in H. nia. }
  assert (Hl1' : l1Size * cs ≤ 2^45).
  { pose proof (cdiv_bounds virtualSize (cs / 8 * cs) ltac:(nia)). fold l1Size in H.
    assert (64 ≤ cs / 8) by lia. nia. }
  repeat split; try lia; try nia; unfold l1Clusters, l2Count; try (by destruct prealloc; lia).
  - apply cdiv_nonneg; lia.
  - apply cdiv_le; nia.
Qed.

Lemma layout_loop_ok n k nb nt :
  (k ≤ 8)%nat → (9 ≤ n + k)%nat →
  nb + nt = Nat.iter k (round_total (cs / 2) (cs / 8) K) 2 →
  0 ≤ nb → 0 ≤ nt →
  (∀ k', k = S k' → nb = round_blocks (cs / 2) K (Nat.iter k' (round_total (cs / 2) (cs / 8) K) 2) ∧
                    nt = round_tables (cs / 2) (cs / 8) K (Nat.iter k' (round_total (cs / 2) (cs / 8) K) 2)) →
  ∃ l, layout_loop n bits cs l1Size l1Clusters l2Count dataClusters nb nt = Ok l ∧
       layout_ok virtualSize bits prealloc l.
Proof.
  destruct layout_sizes as (Hcs & H8 & H2 & Hl1 & Hl1c & Hl2 & Hd & Hdc & Hlc).
  assert (HK : 1 ≤ K ≤ 2^37) by (unfold K; lia).
  revert k nb nt. induction n as [|n IH]; intros k nb nt Hk Hn Hs Hnb Hnt Hprev; [lia|].
  pose proof (iter_range (cs/2) (cs/8) K ltac:(lia) ltac:(lia) HK k Hk) as Hr.
  rewrite <- Hs in Hr. cbn [layout_loop].
  rewrite (u64_id (1 + nt + nb + l1Clusters + l2Count)) by lia.
  set (physMeta := 1 + nt + nb + l1Clusters + l2Count).
  rewrite (u64_id (physMeta + dataClusters)) by (unfold physMeta; lia).
  rewrite (u64_id (physMeta + dataClusters + cs / 2 - 1)) by (unfold physMeta; lia).
  set (nbW := (physMeta + dataClusters + cs / 2 - 1) / (cs / 2)).
  assert (Hw : nbW = round_blocks (cs / 2) K (nb + nt)).
  { unfold nbW, round_blocks, cdiv, K, physMeta. f_equal. lia. }
  assert (HnbW : 0 ≤ nbW ≤ 2^38).
  { unfold nbW. split; [apply Z.div_pos; unfold physMeta; lia|].
    apply Z.div_le_upper_bound; [lia|]. unfold physMeta. nia. }
  rewrite (u64_id (nbW + cs / 8 - 1)) by lia.
  set (ntW := (nbW + cs / 8 - 1) / (cs / 8)).
  assert (Hwt : ntW = round_tables (cs / 2) (cs / 8) K (nb + nt)).
  { unfold ntW, round_tables. by rewrite <- Hw. }
  destruct ((nbW =? nb) && (ntW =? nt)) eqn:Htest.
  - apply andb_true_iff in Htest as [Hnbq%Z.eqb_eq Htest%Z.eqb_eq].
    rewrite divCeil_cdiv by (rewrite ?u64_id; unfold physMeta; lia).
    cbn [rbind]. eexists. split; [reflexivity|].
    assert (Hb1 : nb * cs ≤ 2^53) by nia.
    assert (Hb2 : nt * cs ≤ 2^53) by nia.
    assert (Hb3 : l1Clusters * cs ≤ 2^50) by nia.
    assert (Hb4 : l2Count * cs ≤ 2^50) by nia.
    assert (0 ≤ nb * cs ∧ 0 ≤ nt * cs ∧ 0 ≤ l1Clusters * cs ∧ 0 ≤ l2Count * cs) by nia.
    rewrite (u64_id ((1 + nt) * cs)) by lia.
    rewrite (u64_id ((1 + nt) * cs + nb * cs)) by lia.
    rewrite (u64_id ((1 + nt) * cs + nb * cs + l1Clusters * cs)) by lia.
    rewrite (u64_id (2 * physMeta)) by (unfold physMeta; lia).
    constructor; simpl; fold cs; try done.
    + unfold physMeta. lia.
    + rewrite <- Hnbq. symmetry. exact Htest.
    + lia.
    + assert (1 ≤ nb) by (rewrite <- Hnbq; apply Z.div_le_lower_bound; unfold physMeta; lia). lia.
  - apply (IH (S k)).
    + destruct (decide (k = 8%nat)) as [->|]; [|lia]. exfalso.
      destruct (Hprev 7%nat eq_refl) as [Hb Ht].
      destruct (iter_stable (cs/2) (cs/8) K ltac:(lia) ltac:(lia) HK) as [Hst _].
      rewrite <- Hs in Hst. rewrite <- Hst in Hb, Ht.
      rewrite <- Hw in Hb. rewrite <- Hwt in Ht.
      apply andb_false_iff in Htest as [Hq%Z.eqb_neq|Hq%Z.eqb_neq]; congruence.
    + lia.
    + rewrite Hw, Hwt, Hs. done.
    + lia.
    + unfold ntW. apply Z.div_pos; lia.
    + intros k' [= <-]. rewrite <- Hs. done.
Qed.
End LayoutLoop.

Lemma computeQcow2Layout_ok virtualSize bits prealloc :
  0 ≤ virtualSize ≤ maxVirtualSize → bits = 0 ∨ 9 ≤ bits ≤ 21 →
  ∃ l, computeQcow2Layout virtualSize bits prealloc = Ok l ∧
       layout_ok virtualSize (if bits =? 0 then defaultClusterBits else bits) prealloc l.
Proof.
  intros Hvs Hb. unfold computeQcow2Layout.
  set (b := if bits =? 0 then defaultClusterBits else bits).
  assert (Hb' : 9 ≤ b ≤ 21).
  { unfold b, defaultClusterBits. case_ifs; lia. }
  clearbody b. clear Hb.
  replace ((b <? 9) || (21 <? b)) with false by (symmetry; apply orb_false_iff; lia).
  replace (maxVirtualSize <? virtualSize) with false by lia.
  destruct (layout_sizes b virtualSize prealloc Hb' Hvs) as (Hcs & H8 & H2 & Hl1 & Hl1c & Hl2 & Hd & Hdc & Hlc).
  change maxVirtualSize with (2^44) in Hvs.
  rewrite Z.shiftl_1_l, (u64_id (2 ^ b)) by lia.
  rewrite (u64_id (2 ^ b / 8 * 2 ^ b)) by nia.
  rewrite divCeil_cdiv by nia. cbn [rbind].
  destruct (Z.ltb_spec 0xFFFFFFFF (cdiv virtualSize (2 ^ b / 8 * 2 ^ b))); [lia|].
  rewrite u64_id by lia. rewrite divCeil_cdiv by lia. cbn [rbind].
  rewrite divCeil_cdiv by lia. cbn [rbind].
  eapply (layout_loop_ok b virtualSize prealloc Hb' Hvs 32 0); try lia; done.
Qed.

(** C39.  [computeQcow2Layout] is total on every request its guards admit: for a
    virtual size up to the 16 TiB cap and cluster bits in 9..21 (0 selects the
    default 12), with or without preallocation, the refcount fixed point is
    reached within the loop's 32 rounds and no 64-bit computation wraps; the
    returned layout places header, refcount table, refcount blocks, L1 table and
    preallocated L2 tables consecutively on cluster boundaries, with exactly
    enough blocks for all metadata and data clusters and exactly enough table
    clusters for those blocks. *)
Theorem computeQcow2Layout_converges virtualSize bits prealloc :
  0 ≤ virtualSize ≤ maxVirtualSize → bits = 0 ∨ 9 ≤ bits ≤ 21 →
  ∃ l, computeQcow2Layout virtualSize bits prealloc = Ok l ∧
       layout_ok virtualSize (if bits =? 0 then defaultClusterBits else bits) prealloc l.
Proof. apply computeQcow2Layout_ok. Qed.

Lemma computeQcow2Layout_converges_witness :
  ∃ l, computeQcow2Layout (2^44) 9 true = Ok l ∧ layout_ok (2^44) 9 true l.
Proof. apply (computeQcow2Layout_converges (2^44) 9 true); [split; by vm_compute | lia]. Defined.
