(* ===== verification/Qcow2Image.v ===== *)
(** * Reading a qcow2 image through its backing chain

    [internal/cow/qcow2.go]: [qcow2Image], [rawImage], [ReadAt], [resolve],
    [backingOrZero], [l1Entry], [l2EntryAt] with its bounded table cache,
    [updateL2Cache], [invalidateL2Cache], [readUint64At].  The main theorem is
    that a cached read of a well-formed image returns exactly the bytes of the
    guest disk the image represents. *)

From S2P Require Import Prelude Bytes Qcow2Layout.

(** ** Data *)

(** An opened qcow2 file.  The mutable L2 cache is kept apart ([l2state]) so
    that the chain itself is an immutable value; everything else mirrors the
    fields of the Go struct that reads depend on. *)
Record qcow2Image : Type := {
  q_f : file;
  q_hdr : qcow2Header;
  q_clusterBits : Z;
  q_clusterSize : Z;
  q_clusterMask : Z;
  q_l1 : list Z;
  q_fileSize : Z;
}.

(** [guestImage]: a raw file or a qcow2 with an optional backing image. *)
Inductive guestImage : Type :=
| RawImage (f : file) (size : Z)
| Qcow2 (q : qcow2Image) (backing : option guestImage).

(** [l2cache] and [l2cacheBytes]. *)
Record l2state : Type := { l2cache : gmap Z (list Z); l2cacheBytes : Z }.

Definition l2state_empty : l2state := {| l2cache := ∅; l2cacheBytes := 0 |}.

(** The caches of a chain, top image first. *)
Definition caches : Type := list l2state.
Definition chead (c : caches) : l2state := default l2state_empty (head c).

Definition Size (g : guestImage) : Z :=
  match g with RawImage _ s => s | Qcow2 q _ => h_size (q_hdr q) end.

(** An I/O error wrapped with [%w] is no longer [== io.EOF]; one returned as it
    is stays [io.EOF]. *)
Definition io_cow (e : io_err) : cow_err :=
  EIO (match e with EOF => 0 | ErrNegOffset => 1 end).
Definition io_bare (e : io_err) : cow_err :=
  match e with EOF => EEOF | ErrNegOffset => EIO 1 end.

(** ** Table access *)

Definition hostZero : Z := u64 (-1).

Definition l1Entry (q : qcow2Image) (l1Idx : Z) : result cow_err Z :=
  if zlen (q_l1 q) <=? l1Idx then Err EBeyondL1 else Ok (zget 0 (q_l1 q) l1Idx).

(** [BigEndian.Uint64] of every 8-byte group of a table. *)
Definition decode_table (entries : Z) (buf : list Z) : list Z :=
  map (λ i, be_at 8 buf (i * 8)) (seqZ 0 entries).

Definition l2EntryAt (q : qcow2Image) (c : l2state) (l2Off l2Idx : Z)
    : l2state * result cow_err Z :=
  let entries := q_clusterSize q / 8 in
  if entries <=? l2Idx then (c, Err EL2Index)
  else match l2cache c !! l2Off with
  | Some tbl => (c, Ok (zget 0 tbl l2Idx))
  | None =>
      if negb (l2Off mod q_clusterSize q =? 0) then (c, Err EL2Unaligned)
      else
        let l2End := u64 (l2Off + q_clusterSize q) in
        if (l2End <? l2Off) || (q_fileSize q <? l2End) then (c, Err EL2BeyondFile)
        else match file_ReadAt (q_f q) (q_clusterSize q) (int64 l2Off) with
        | (_, Some e) => (c, Err (io_cow e))
        | (buf, None) =>
            let loaded := decode_table entries buf in
            let c1 :=
              if (l2CacheMaxBytes <? l2cacheBytes c + q_clusterSize q) &&
                 negb (bool_decide (l2cache c = ∅))
              then l2state_empty else c in
            match l2cache c1 !! l2Off with
            | Some existing => (c1, Ok (zget 0 existing l2Idx))
            | None =>
                ({| l2cache := <[l2Off := loaded]> (l2cache c1);
                    l2cacheBytes := l2cacheBytes c1 + zlen loaded * 8 |},
                 Ok (zget 0 loaded l2Idx))
            end
        end
  end.

Definition updateL2Cache (c : l2state) (l2Off l2Idx val : Z) : l2state :=
  match l2cache c !! l2Off with
  | Some tbl => {| l2cache := <[l2Off := zset tbl l2Idx val]> (l2cache c);
                   l2cacheBytes := l2cacheBytes c |}
  | None => c
  end.

Definition invalidateL2Cache (c : l2state) (l2Off : Z) : l2state :=
  match l2cache c !! l2Off with
  | Some _ => {| l2cache := delete l2Off (l2cache c); l2cacheBytes := l2cacheBytes c |}
  | None => c
  end.

Definition readUint64At (f : file) (off : Z) : result cow_err Z :=
  match file_ReadAt f 8 (int64 off) with
  | (_, Some e) => Err (io_cow e)
  | (b, None) => Ok (be_decode b)
  end.

(** ** Address resolution *)

(** The result [(host, fromBacking, n)] of [resolve]. *)
Definition backingOrZero (backing : option guestImage) (n : Z) : Z * bool * Z :=
  match backing with None => (hostZero, false, n) | Some _ => (0, true, n) end.

Definition resolve (q : qcow2Image) (backing : option guestImage) (c : l2state)
    (guest want : Z) : l2state * result cow_err (Z * bool * Z) :=
  let clusterIdx := Z.shiftr guest (q_clusterBits q) in
  let inCluster := Z.land guest (q_clusterMask q) in
  let n0 := u64 (q_clusterSize q - inCluster) in
  let n := if want <? n0 then want else n0 in
  let l2Entries := q_clusterSize q / 8 in
  let l1Idx := clusterIdx / l2Entries in
  let l2Idx := clusterIdx mod l2Entries in
  if zlen (q_l1 q) <=? l1Idx then (c, Err EBeyondL1)
  else
    let l2Off := Z.land (zget 0 (q_l1 q) l1Idx) l1eOffsetMask in
    if l2Off =? 0 then (c, Ok (backingOrZero backing n))
    else match l2EntryAt q c l2Off l2Idx with
    | (c, Err e) => (c, Err e)
    | (c, Ok l2e) =>
        if has_flag l2e oflagCompressed then (c, Err ECompressed)
        else
          let host := Z.land l2e l2eOffsetMask in
          if host =? 0
          then if has_flag l2e oflagZero then (c, Ok (hostZero, false, n))
               else (c, Ok (backingOrZero backing n))
          else if has_flag l2e oflagZero then (c, Ok (hostZero, false, n))
          else (c, Ok (u64 (host + inCluster), false, n))
    end.

(** ** ReadAt *)

(** What a chain member offers to the layer above it: [ReadAt(p, off)] with
    [len(p) = n], as the bytes read and the error. *)
Definition reader : Type := caches → Z → Z → caches * (list Z * option cow_err).

Definition raw_ReadAt (f : file) : reader :=
  λ c n off, let '(b, e) := file_ReadAt f n off in
             (c, (b, io_bare <$> e)).

(** The loop of [qcow2Image.ReadAt]; [acc] holds the [total] bytes read so far. *)
Fixpoint read_loop (fuel : nat) (q : qcow2Image) (backing : option guestImage) (rb : reader)
    (c : caches) (len off : Z) (acc : list Z) : caches * (list Z * option cow_err) :=
  let total := zlen acc in
  if len <=? total then (c, (acc, None))
  else match fuel with
  | O => (c, (acc, Some EFuel))
  | S fuel =>
      let guest := u64 (u64 off + total) in
      if h_size (q_hdr q) <=? guest then (c, (acc, Some EEOF))
      else match resolve q backing (chead c) guest (len - total) with
      | (h, Err e) => (h :: tail c, (acc, Some e))
      | (h, Ok (host, fromBacking, n)) =>
          let c := h :: tail c in
          if n =? 0 then (c, (acc, Some EUnexpectedEOF))
          else if host =? hostZero
          then read_loop fuel q backing rb c len off (acc ++ replicate (Z.to_nat n) 0)
          else if fromBacking then
            match rb (tail c) n (int64 guest) with
            | (t, (b, e)) =>
                let c := h :: t in
                match e with
                | None | Some EEOF =>
                    read_loop fuel q backing rb c len off
                      (acc ++ b ++ replicate (Z.to_nat n - length b) 0)
                | Some e => (c, (acc, Some e))
                end
            end
          else match file_ReadAt (q_f q) n (int64 host) with
          | (_, Some e) => (c, (acc, Some (io_bare e)))
          | (b, None) => read_loop fuel q backing rb c len off (acc ++ b)
          end
      end
  end.

(** Each round of the loop reads at least one byte, so [len] rounds are enough. *)
Fixpoint ReadAt (g : guestImage) : reader :=
  match g with
  | RawImage f _ => raw_ReadAt f
  | Qcow2 q backing =>
      let rb := match backing with None => λ c _ _, (c, ([], None)) | Some b => ReadAt b end in
      λ c n off, read_loop (Z.to_nat n) q backing rb c n off []
  end.

(** ** Table entries as numbers *)

Lemma mask_ones n : 2 ^ n - 1 = Z.ones n.
Proof. rewrite Z.ones_equiv. lia. Qed.

Lemma has_flag_bit e k : 0 ≤ k → has_flag e (2 ^ k) = Z.testbit e k.
Proof.
  intros Hk. unfold has_flag.
  assert (H : Z.land e (2 ^ k) = if Z.testbit e k then 2 ^ k else 0).
  { apply Z.bits_inj'. intros i Hi. rewrite Z.land_spec, Z.pow2_bits_eqb by done.
    destruct (Z.testbit e k) eqn:E; rewrite ?Z.bits_0, ?Z.pow2_bits_eqb by done;
      destruct (Z.eqb_spec k i) as [->|]; rewrite ?E, ?andb_false_r; done. }
  rewrite H. pose proof (Z.pow_pos_nonneg 2 k). destruct (Z.testbit e k); [|done].
  by destruct (Z.eqb_spec (2 ^ k) 0); [lia|].
Qed.

Lemma has_copied e : has_flag e oflagCopied = Z.testbit e 63.
Proof. by apply (has_flag_bit e 63). Qed.
Lemma has_compressed e : has_flag e oflagCompressed = Z.testbit e 62.
Proof. by apply (has_flag_bit e 62). Qed.
Lemma has_zero e : has_flag e oflagZero = Z.testbit e 0.
Proof. by apply (has_flag_bit e 0). Qed.

(** The offset field of a table entry: bits 9..55. *)
Lemma offset_mask e : Z.land e l2eOffsetMask = (e / 512) mod 2 ^ 47 * 512.
Proof.
  change l2eOffsetMask with (Z.shiftl (Z.ones 47) 9).
  change 512 with (2 ^ 9). rewrite <- Z.shiftr_div_pow2, <- Z.land_ones by done.
  rewrite <- Z.shiftl_mul_pow2 by done. apply Z.bits_inj'. intros i Hi.
  rewrite Z.land_spec, !Z.shiftl_spec by done.
  destruct (decide (i < 9)).
  - rewrite !(Z.testbit_neg_r _ (i - 9)) by lia. by rewrite andb_false_r.
  - rewrite Z.land_spec, Z.shiftr_spec by lia. do 2 f_equal. lia.
Qed.

Lemma offset_range e : 0 ≤ Z.land e l2eOffsetMask < 2 ^ 56.
Proof.
  rewrite offset_mask. pose proof (Z.mod_pos_bound (e / 512) (2 ^ 47) ltac:(done)).
  change (2 ^ 56) with (2 ^ 47 * 512). lia.
Qed.

Lemma offset_id h : 0 ≤ h < 2 ^ 56 → h mod 512 = 0 → Z.land h l2eOffsetMask = h.
Proof.
  intros Hh Hm. rewrite offset_mask. pose proof (Z.div_mod h 512 ltac:(lia)).
  rewrite Z.mod_small; [lia|]. change (2 ^ 56) with (2 ^ 47 * 512) in Hh.
  split; [apply Z.div_pos; lia|]. apply Z.div_lt_upper_bound; lia.
Qed.

(** An entry [h | oflagCopied] for a cluster-aligned [h]. *)
Lemma copied_entry h :
  0 ≤ h < 2 ^ 56 → h mod 512 = 0 →
  let e := Z.lor h oflagCopied in
  Z.land e l2eOffsetMask = h ∧ has_flag e oflagCopied = true ∧
  has_flag e oflagCompressed = false ∧ has_flag e oflagZero = false ∧ 0 ≤ e < 2 ^ 64.
Proof.
  intros Hh Hm e. unfold e. rewrite has_copied, has_compressed, has_zero, !Z.lor_spec.
  assert (Hz : ∀ i, 56 ≤ i → Z.testbit h i = false).
  { intros i Hi. apply Z.bounded_iff_bits_nonneg with (k := 56); lia. }
  assert (H0 : Z.testbit h 0 = false).
  { rewrite Z.bit0_odd, Zodd_mod. pose proof (Z.div_mod h 512 ltac:(lia)).
    replace (h mod 2) with 0; [done|]. symmetry.
    replace h with (h / 512 * 256 * 2) by lia. by rewrite Z.mod_mul. }
  rewrite !Hz, H0 by lia. repeat split; try done.
  - rewrite Z.land_lor_distr_l, offset_id by done. apply Z.lor_0_r.
  - apply Z.lor_nonneg. split; [lia|done].
  - apply Z.bounded_iff_bits_nonneg; [done|apply Z.lor_nonneg; split; [lia|done]|].
    intros i Hi. rewrite Z.lor_spec, Hz by lia. apply (Z.pow2_bits_false 63). lia.
Qed.

(** ** The guest disk an image represents *)

(** The L2 entry [idx] of the table at [l2Off], read from the file. *)
Definition entry_at (f : file) (l2Off idx : Z) : Z := be_decode (fread f (l2Off + idx * 8) 8).

Definition l1_off (q : qcow2Image) (k : Z) : Z := Z.land (zget 0 (q_l1 q) k) l1eOffsetMask.

(** The mapping entry of guest cluster [ci]; 0 when its L2 table is unallocated. *)
Definition guest_entry (q : qcow2Image) (ci : Z) : Z :=
  let l2Off := l1_off q (ci / (q_clusterSize q / 8)) in
  if l2Off =? 0 then 0 else entry_at (q_f q) l2Off (ci mod (q_clusterSize q / 8)).

(** The byte at guest position [i], given the bytes of the backing image. *)
Definition mapped_byte (q : qcow2Image) (below : Z → Z) (i : Z) : Z :=
  let e := guest_entry q (i / q_clusterSize q) in
  if has_flag e oflagZero then 0
  else if Z.land e l2eOffsetMask =? 0 then below i
  else fbyte (q_f q) (Z.land e l2eOffsetMask + i mod q_clusterSize q).

(** End of the last guest cluster. *)
Definition extent (q : qcow2Image) : Z :=
  cdiv (h_size (q_hdr q)) (q_clusterSize q) * q_clusterSize q.

Fixpoint guest_byte (g : guestImage) (i : Z) : Z :=
  match g with
  | RawImage f _ => if i <? fsize f then fbyte f i else 0
  | Qcow2 q b =>
      if extent q <=? i then 0
      else mapped_byte q (match b with None => λ _, 0 | Some b => guest_byte b end) i
  end.

Definition below (b : option guestImage) : Z → Z :=
  match b with None => λ _, 0 | Some b => guest_byte b end.

Definition guest_bytes (g : guestImage) (off n : Z) : list Z := map (guest_byte g) (seqZ off n).

(** ** Well-formed images *)

Record geometry_ok (q : qcow2Image) : Prop := {
  go_bits : 9 ≤ q_clusterBits q ≤ 21;
  go_size : q_clusterSize q = 2 ^ q_clusterBits q;
  go_mask : q_clusterMask q = 2 ^ q_clusterBits q - 1;
  go_virtual : 0 ≤ h_size (q_hdr q) ≤ maxVirtualSize;
  go_l1 : h_size (q_hdr q) ≤ zlen (q_l1 q) * (q_clusterSize q / 8 * q_clusterSize q);
}.

Record image_ok (q : qcow2Image) : Prop := {
  io_geom : geometry_ok q;
  io_l1 : ∀ k, 0 ≤ k < zlen (q_l1 q) → l1_off q k ≠ 0 →
    l1_off q k mod q_clusterSize q = 0 ∧
    l1_off q k + q_clusterSize q ≤ fsize (q_f q) ∧
    l1_off q k + q_clusterSize q ≤ q_fileSize q;
  io_l2 : ∀ ci, 0 ≤ ci → ci * q_clusterSize q < h_size (q_hdr q) →
    has_flag (guest_entry q ci) oflagCompressed = false ∧
    (has_flag (guest_entry q ci) oflagZero = false →
     Z.land (guest_entry q ci) l2eOffsetMask ≠ 0 →
     Z.land (guest_entry q ci) l2eOffsetMask + q_clusterSize q ≤ fsize (q_f q));
}.

(** Bytes past the virtual size in the last cluster read as zero. *)
Definition tail_zero (g : guestImage) : Prop :=
  ∀ i, Size g ≤ i → guest_byte g i = 0.

Fixpoint chain_ok (g : guestImage) : Prop :=
  match g with
  | RawImage f size => size = fsize f ∧ 0 ≤ fsize f
  | Qcow2 q b =>
      image_ok q ∧ match b with None => True | Some b => chain_ok b ∧ tail_zero b end
  end.

(** Every cached table is an L2 table of the image and agrees with the file. *)
Definition cache_ok (q : qcow2Image) (c : l2state) : Prop :=
  ∀ off tbl, l2cache c !! off = Some tbl →
    tbl = decode_table (q_clusterSize q / 8) (fread (q_f q) off (q_clusterSize q)) ∧
    ∃ k, 0 ≤ k < zlen (q_l1 q) ∧ off = l1_off q k ∧ off ≠ 0.

Fixpoint caches_ok (g : guestImage) (c : caches) : Prop :=
  match g with
  | RawImage _ _ => True
  | Qcow2 q b =>
      cache_ok q (chead c) ∧ match b with None => True | Some b => caches_ok b (tail c) end
  end.

(** ** Table lookups *)

Section Tables.
Context (q : qcow2Image) (Hg : geometry_ok q).

Lemma geometry_facts :
  512 ≤ q_clusterSize q ≤ 2097152 ∧ q_clusterSize q = 8 * (q_clusterSize q / 8) ∧
  h_size (q_hdr q) ≤ 2 ^ 44.
Proof.
  destruct Hg as [Hb Hs _ Hv _]. rewrite Hs. pose proof (pow2_bits _ Hb).
  pose proof (cs_div8 (q_clusterBits q)). change maxVirtualSize with (2^44) in Hv. lia.
Qed.

Lemma decode_table_get f off entries i :
  0 ≤ i < entries → zget 0 (decode_table entries (fread f off (8 * entries))) i = entry_at f off i.
Proof.
  intros Hi. unfold decode_table. rewrite (zget_map 0) by (rewrite zlen_seqZ; lia).
  rewrite zget_seqZ by done. unfold be_at, entry_at. rewrite zslice_fread by lia.
  do 2 f_equal; lia.
Qed.

(** With coherent caches the cached lookup returns the entry in the file. *)
Lemma l2EntryAt_ok c l2Off idx k :
  cache_ok q c → 0 ≤ k < zlen (q_l1 q) → l2Off = l1_off q k →
  0 ≤ idx < q_clusterSize q / 8 →
  l2Off mod q_clusterSize q = 0 → 0 < l2Off < 2 ^ 56 →
  l2Off + q_clusterSize q ≤ fsize (q_f q) → l2Off + q_clusterSize q ≤ q_fileSize q →
  ∃ c', l2EntryAt q c l2Off idx = (c', Ok (entry_at (q_f q) l2Off idx)) ∧ cache_ok q c'.
Proof.
  intros Hc Hk Hok Hi Ha Hr Hf Hfs. destruct geometry_facts as (Hcs & H8 & _).
  assert (Hget : ∀ tbl, tbl = decode_table (q_clusterSize q / 8) (fread (q_f q) l2Off (q_clusterSize q)) →
                        zget 0 tbl idx = entry_at (q_f q) l2Off idx).
  { intros tbl ->. rewrite H8 at 2. by apply decode_table_get. }
  unfold l2EntryAt. destruct (Z.leb_spec (q_clusterSize q / 8) idx); [lia|].
  destruct (l2cache c !! l2Off) as [tbl|] eqn:El.
  { exists c. split; [|done]. by rewrite (Hget tbl (proj1 (Hc _ _ El))). }
  rewrite Ha. simpl. rewrite u64_id by lia.
  destruct (Z.ltb_spec (l2Off + q_clusterSize q) l2Off); [lia|].
  destruct (Z.ltb_spec (q_fileSize q) (l2Off + q_clusterSize q)); [lia|]. simpl.
  rewrite int64_id, file_ReadAt_full by lia.
  assert (Hc1 : ∀ b, cache_ok q (if b : bool then l2state_empty else c) ∧
                     l2cache (if b then l2state_empty else c) !! l2Off = None).
  { intros []; split; done. }
  set (b := (_ <? _) && _). destruct (Hc1 b) as [Hco Hnone]. rewrite Hnone.
  eexists. split; [by rewrite (Hget _ eq_refl)|].
  intros off tbl. simpl. destruct (decide (off = l2Off)) as [->|].
  - rewrite lookup_insert_eq. intros [= <-]. split; [done|]. exists k. split_and!; lia.
  - rewrite lookup_insert_ne by done. apply Hco.
Qed.
End Tables.

(** ** Resolution *)

(** What [resolve] must return for [n] bytes at [guest]. *)
Definition resolved (q : qcow2Image) (b : option guestImage) (guest n : Z) : Z * bool * Z :=
  let e := guest_entry q (guest / q_clusterSize q) in
  if has_flag e oflagZero then (hostZero, false, n)
  else if Z.land e l2eOffsetMask =? 0 then backingOrZero b n
  else (Z.land e l2eOffsetMask + guest mod q_clusterSize q, false, n).

Section Resolve.
Context (q : qcow2Image) (b : option guestImage) (Hq : image_ok q).

Lemma guest_index guest :
  0 ≤ guest < h_size (q_hdr q) →
  let ci := guest / q_clusterSize q in
  0 ≤ ci ∧ ci * q_clusterSize q < h_size (q_hdr q) ∧
  0 ≤ ci / (q_clusterSize q / 8) < zlen (q_l1 q) ∧
  0 ≤ ci mod (q_clusterSize q / 8) < q_clusterSize q / 8 ∧
  0 ≤ guest mod q_clusterSize q < q_clusterSize q ∧ ci < 2 ^ 35.
Proof.
  intros Hr ci. destruct Hq as [Hg _ _]. destruct (geometry_facts q Hg) as (Hcs & H8 & Hv).
  destruct Hg as [_ _ _ _ Hl1].
  pose proof (Z.div_mod guest (q_clusterSize q) ltac:(lia)) as Hdm. fold ci in Hdm.
  pose proof (Z.mod_pos_bound guest (q_clusterSize q) ltac:(lia)).
  assert (0 ≤ ci) by (apply Z.div_pos; lia).
  repeat split; try lia; try nia.
  - apply Z.div_pos; lia.
  - apply Z.div_lt_upper_bound; nia.
  - apply Z.mod_pos_bound. lia.
  - apply Z.mod_pos_bound. lia.
Qed.

Lemma resolve_ok c guest want :
  cache_ok q c → 0 ≤ guest < h_size (q_hdr q) → 0 < want →
  ∃ c', resolve q b c guest want =
          (c', Ok (resolved q b guest (Z.min want (q_clusterSize q - guest mod q_clusterSize q)))) ∧
        cache_ok q c'.
Proof.
  intros Hc Hr Hw. destruct (guest_index guest Hr) as (Hci & Hcs' & Hk & Hi & Hm & _).
  pose proof (io_geom q Hq) as Hg. destruct (geometry_facts q Hg) as (Hcs & H8 & Hv).
  unfold resolve, resolved.
  rewrite (go_mask q Hg), mask_ones, Z.land_ones, <- (go_size q Hg) by (destruct Hg; lia).
  rewrite Z.shiftr_div_pow2, <- (go_size q Hg) by (destruct Hg; lia).
  rewrite u64_id by lia.
  set (ci := guest / q_clusterSize q) in *. set (inC := guest mod q_clusterSize q) in *.
  replace (if want <? q_clusterSize q - inC then want else q_clusterSize q - inC)
    with (Z.min want (q_clusterSize q - inC)) by (case_ifs; lia).
  set (n := Z.min want _).
  destruct (Z.leb_spec (zlen (q_l1 q)) (ci / (q_clusterSize q / 8))); [lia|].
  change (Z.land (zget 0 (q_l1 q) (ci / (q_clusterSize q / 8))) l1eOffsetMask)
    with (l1_off q (ci / (q_clusterSize q / 8))).
  destruct (io_l2 q Hq ci Hci Hcs') as [Hcomp _].
  destruct (Z.eqb_spec (l1_off q (ci / (q_clusterSize q / 8))) 0) as [H0|H0].
  { exists c. split; [|done]. unfold guest_entry. rewrite H0. done. }
  destruct (io_l1 q Hq _ Hk H0) as (Ha & Hf & Hfs).
  pose proof (offset_range (zget 0 (q_l1 q) (ci / (q_clusterSize q / 8)))) as Ho.
  change l2eOffsetMask with l1eOffsetMask in Ho. fold (l1_off q (ci / (q_clusterSize q / 8))) in Ho.
  destruct (l2EntryAt_ok q Hg c (l1_off q (ci / (q_clusterSize q / 8))) (ci mod (q_clusterSize q / 8))
    (ci / (q_clusterSize q / 8))) as (c' & -> & Hc'); try done; try lia.
  assert (Hge : guest_entry q ci = entry_at (q_f q) (l1_off q (ci / (q_clusterSize q / 8)))
                                     (ci mod (q_clusterSize q / 8))).
  { unfold guest_entry. by destruct (Z.eqb_spec (l1_off q (ci / (q_clusterSize q / 8))) 0). }
  rewrite <- Hge, Hcomp. exists c'. split; [|done].
  pose proof (offset_range (guest_entry q ci)).
  destruct (Z.eqb_spec (Z.land (guest_entry q ci) l2eOffsetMask) 0), (has_flag (guest_entry q ci) oflagZero);
    try done. by rewrite u64_id by lia.
Qed.
End Resolve.

(** ** The read loop *)

(** A reader of a lower layer: it returns the layer's bytes, possibly short with
    [io.EOF], the missing bytes being zero. *)
Definition reads_as (rb : reader) (ok : caches → Prop) (bytes : Z → Z) : Prop :=
  ∀ c n off, ok c → 0 ≤ off < 2 ^ 62 → 0 ≤ n < 2 ^ 62 →
  ∃ c' l e, rb c n off = (c', (l, e)) ∧ ok c' ∧ (e = None ∨ e = Some EEOF) ∧
            zlen l ≤ n ∧ l ++ replicate (Z.to_nat n - length l) 0 = map bytes (seqZ off n).

Definition lower_ok (b : option guestImage) (c : caches) : Prop :=
  match b with None => True | Some g => caches_ok g c end.

Lemma map_seqZ_app {A} (h : Z → A) off a n :
  0 ≤ a → 0 ≤ n → map h (seqZ off a) ++ map h (seqZ (off + a) n) = map h (seqZ off (a + n)).
Proof. intros. by rewrite seqZ_app, map_app. Qed.

Lemma map_seqZ_ext {A} (h k : Z → A) off n :
  (∀ i, off ≤ i < off + n → h i = k i) → map h (seqZ off n) = map k (seqZ off n).
Proof.
  intros H. apply map_ext_in. intros i Hi. apply list_elem_of_In, elem_of_seqZ in Hi.
  apply H. lia.
Qed.

Lemma map_seqZ_const {A} (x : A) off n : map (λ _, x) (seqZ off n) = replicate (Z.to_nat n) x.
Proof.
  symmetry. apply replicate_as_elem_of. split; [by rewrite length_map, length_seqZ|].
  intros y Hy. apply list_elem_of_In, in_map_iff in Hy as (?&<-&_). done.
Qed.

Lemma extent_bounds q :
  geometry_ok q →
  h_size (q_hdr q) ≤ extent q < h_size (q_hdr q) + q_clusterSize q ∧
  extent q mod q_clusterSize q = 0.
Proof.
  intros Hg. destruct (geometry_facts q Hg) as (Hcs & _). unfold extent.
  pose proof (cdiv_bounds (h_size (q_hdr q)) (q_clusterSize q) ltac:(lia)).
  rewrite Z.mod_mul by lia. lia.
Qed.

(** All positions of one guest cluster share its entry. *)
Lemma same_cluster cs guest i :
  0 < cs → guest ≤ i < guest + (cs - guest mod cs) →
  i / cs = guest / cs ∧ i mod cs = guest mod cs + (i - guest).
Proof.
  intros Hcs Hi. pose proof (Z.div_mod guest cs ltac:(lia)).
  pose proof (Z.mod_pos_bound guest cs ltac:(lia)).
  assert (i / cs = guest / cs).
  { symmetry. apply Z.div_unique with (r := guest mod cs + (i - guest)); lia. }
  split; [done|]. rewrite Z.mod_eq by lia. lia.
Qed.

(** A cluster that starts below a cluster boundary ends at or below it. *)
Lemma cluster_end_le cs e g :
  0 < cs → e mod cs = 0 → g < e → g + (cs - g mod cs) ≤ e.
Proof.
  intros Hcs He Hg. pose proof (Z.div_mod g cs ltac:(lia)).
  pose proof (Z.div_mod e cs ltac:(lia)). pose proof (Z.mod_pos_bound g cs ltac:(lia)).
  assert (g / cs < e / cs) by (apply Z.mul_lt_mono_pos_l with (p := cs); lia).
  assert (cs * (g / cs + 1) ≤ cs * (e / cs)) by (apply Z.mul_le_mono_nonneg_l; lia).
  lia.
Qed.

Section ReadLoop.
Context (q : qcow2Image) (b : option guestImage) (rb : reader).
Hypothesis Hq : image_ok q.
Hypothesis Hrb : ∀ g, b = Some g → reads_as rb (caches_ok g) (guest_byte g).

Lemma guest_bytes_chunk guest n :
  0 ≤ guest < h_size (q_hdr q) → 0 ≤ n ≤ q_clusterSize q - guest mod q_clusterSize q →
  let e := guest_entry q (guest / q_clusterSize q) in
  guest_bytes (Qcow2 q b) guest n =
    if has_flag e oflagZero then replicate (Z.to_nat n) 0
    else if Z.land e l2eOffsetMask =? 0 then map (below b) (seqZ guest n)
    else fread (q_f q) (Z.land e l2eOffsetMask + guest mod q_clusterSize q) n.
Proof.
  intros Hr Hn e. pose proof (io_geom q Hq) as Hg.
  destruct (geometry_facts q Hg) as (Hcs & _). destruct (extent_bounds q Hg) as [He Hea].
  assert (Hm : guest_bytes (Qcow2 q b) guest n = map (mapped_byte q (below b)) (seqZ guest n)).
  { apply map_seqZ_ext. intros i Hi. simpl. destruct (Z.leb_spec (extent q) i); [|done].
    pose proof (cluster_end_le (q_clusterSize q) (extent q) guest). lia. }
  rewrite Hm. unfold mapped_byte.
  assert (Hall : ∀ i, guest ≤ i < guest + n →
            i / q_clusterSize q = guest / q_clusterSize q ∧
            i mod q_clusterSize q = guest mod q_clusterSize q + (i - guest)).
  { intros i Hi. apply same_cluster; lia. }
  destruct (has_flag e oflagZero) eqn:Ez; [|destruct (Z.eqb_spec (Z.land e l2eOffsetMask) 0) as [E0|E0]].
  - rewrite <- (map_seqZ_const 0 guest n). apply map_seqZ_ext. intros i Hi.
    destruct (Hall i Hi) as [-> _]. fold e. by rewrite Ez.
  - apply map_seqZ_ext. intros i Hi. destruct (Hall i Hi) as [-> _]. fold e. by rewrite Ez, E0.
  - unfold fread. apply (zget_eq 0); rewrite !zlen_map, !zlen_seqZ by lia; [done|].
    intros i Hi. rewrite !(zget_map 0), !zget_seqZ by (rewrite ?zlen_seqZ; lia).
    destruct (Hall (guest + i) ltac:(lia)) as [-> ->]. fold e. rewrite Ez.
    destruct (Z.eqb_spec (Z.land e l2eOffsetMask) 0); [done|]. f_equal. lia.
Qed.

(** How many bytes [ReadAt] returns: a read that starts below the virtual size
    runs to the end of the last cluster at most. *)
Definition read_count (n off : Z) : Z :=
  if h_size (q_hdr q) <=? off then 0 else Z.min n (extent q - off).

Lemma read_loop_ok fuel c len off acc :
  cache_ok q (chead c) → lower_ok b (tail c) →
  0 ≤ off < 2 ^ 62 → 0 ≤ len < 2 ^ 62 → len - zlen acc ≤ Z.of_nat fuel → zlen acc ≤ len →
  acc = guest_bytes (Qcow2 q b) off (zlen acc) →
  (zlen acc = 0 ∨ off < h_size (q_hdr q) ∧ off + zlen acc ≤ extent q ∧
     (zlen acc = len ∨ (off + zlen acc) mod q_clusterSize q = 0)) →
  ∃ c', read_loop fuel q b rb c len off acc =
          (c', (guest_bytes (Qcow2 q b) off (read_count len off),
                if read_count len off <? len then Some EEOF else None)) ∧
        cache_ok q (chead c') ∧ lower_ok b (tail c').
Proof.
  pose proof (io_geom q Hq) as Hg. destruct (geometry_facts q Hg) as (Hcs & _ & Hv).
  destruct (extent_bounds q Hg) as [He Hea].
  revert c acc. induction fuel as [|fuel IH];
    intros c acc Hc Hl Hoff Hlen Hfuel Hle Hacc Hinv;
    pose proof (zlen_nonneg acc) as Hnn.
  { assert (zlen acc = len) by lia. simpl. destruct (Z.leb_spec len (zlen acc)); [|lia].
    exists c. assert (Hm : read_count len off = len).
    { unfold read_count. case_ifs; lia. }
    rewrite Hm. destruct (Z.ltb_spec len len); [lia|]. rewrite <- H, <- Hacc. done. }
  cbn [read_loop]. destruct (Z.leb_spec len (zlen acc)).
  { exists c. assert (zlen acc = len) by lia. assert (Hm : read_count len off = len).
    { unfold read_count. case_ifs; lia. }
    rewrite Hm. destruct (Z.ltb_spec len len); [lia|]. rewrite <- H0, <- Hacc. done. }
  rewrite (u64_id off), u64_id by lia.
  destruct (Z.leb_spec (h_size (q_hdr q)) (off + zlen acc)) as [Hend|Hin].
  { exists c. assert (Hm : read_count len off = zlen acc).
    { unfold read_count. destruct Hinv as [H0|(H1 & H2 & [H3|H3])]; case_ifs; try lia;
        pose proof (cluster_end_le (q_clusterSize q) (extent q) (off + zlen acc)); lia. }
    rewrite Hm, <- Hacc. destruct (Z.ltb_spec (zlen acc) len); [done|lia]. }
  set (guest := off + zlen acc) in *.
  destruct (resolve_ok q b Hq (chead c) guest (len - zlen acc)) as (h & -> & Hh); [done|lia|lia|].
  set (n := Z.min (len - zlen acc) (q_clusterSize q - guest mod q_clusterSize q)).
  destruct (guest_index q Hq guest) as (Hci & Hcis & _ & _ & Hmod & _); [lia|].
  assert (Hn : 0 < n ≤ q_clusterSize q - guest mod q_clusterSize q) by lia.
  pose proof (guest_bytes_chunk guest n ltac:(lia) ltac:(lia)) as Hchunk. cbv zeta in Hchunk.
  assert (Hgd : guest = q_clusterSize q * (guest / q_clusterSize q) + guest mod q_clusterSize q)
    by (apply Z.div_mod; lia).
  assert (Hext : guest + n ≤ extent q).
  { pose proof (cluster_end_le (q_clusterSize q) (extent q) guest). lia. }
  assert (Hnext : ∀ c2 piece, cache_ok q (chead c2) → lower_ok b (tail c2) →
      piece = guest_bytes (Qcow2 q b) guest n →
      ∃ c', read_loop fuel q b rb c2 len off (acc ++ piece) =
          (c', (guest_bytes (Qcow2 q b) off (read_count len off),
                if read_count len off <? len then Some EEOF else None)) ∧
        cache_ok q (chead c') ∧ lower_ok b (tail c')).
  { intros c2 piece Hc2 Hl2 ->.
    assert (Hz : zlen (acc ++ guest_bytes (Qcow2 q b) guest n) = zlen acc + n).
    { rewrite zlen_app. unfold guest_bytes. rewrite zlen_map, zlen_seqZ; lia. }
    apply IH; try done; rewrite ?Hz; try lia.
    - rewrite Hacc at 1. unfold guest_bytes. apply map_seqZ_app; lia.
    - right. split; [lia|]. split; [lia|].
      destruct (decide (zlen acc + n = len)); [by left|right].
      assert (n = q_clusterSize q - guest mod q_clusterSize q) as Hnn' by lia.
      replace (off + (zlen acc + n)) with ((guest / q_clusterSize q + 1) * q_clusterSize q) by lia.
      apply Z.mod_mul. lia. }
  clear IH. unfold resolved.
  destruct (has_flag (guest_entry q (guest / q_clusterSize q)) oflagZero) eqn:Ez.
  { cbn [fst snd]. destruct (Z.eqb_spec n 0); [lia|]. rewrite Z.eqb_refl. apply Hnext; [done|done|].
    by rewrite Hchunk. }
  destruct (io_l2 q Hq _ Hci Hcis) as [_ Hhost]. specialize (Hhost Ez).
  destruct (Z.eqb_spec (Z.land (guest_entry q (guest / q_clusterSize q)) l2eOffsetMask) 0) as [E0|E0].
  - unfold backingOrZero. destruct b as [g|] eqn:Eb.
    + destruct (Z.eqb_spec n 0); [lia|]. change (0 =? hostZero) with false. cbn iota.
      destruct (Hrb g eq_refl (tail c) n guest Hl ltac:(lia) ltac:(lia)) as (t & l & e & Hrun & Ht & He' & Hzl & Hbytes).
      simpl tail. rewrite int64_id by lia. rewrite Hrun.
      assert (l ++ replicate (Z.to_nat n - length l) 0 = guest_bytes (Qcow2 q (Some g)) guest n) as Hp
        by (rewrite Hchunk; exact Hbytes).
      destruct He' as [->| ->]; apply Hnext; done.
    + destruct (Z.eqb_spec n 0); [lia|]. rewrite Z.eqb_refl. apply Hnext; [done|done|].
      rewrite Hchunk. simpl. by rewrite map_seqZ_const.
  - destruct (Z.eqb_spec n 0); [lia|].
    pose proof (offset_range (guest_entry q (guest / q_clusterSize q))).
    destruct (Z.eqb_spec (Z.land (guest_entry q (guest / q_clusterSize q)) l2eOffsetMask
                          + guest mod q_clusterSize q) hostZero) as [Ehz|_].
    { change hostZero with (2^64 - 1) in Ehz. lia. }
    specialize (Hhost E0). rewrite int64_id, file_ReadAt_full by lia.
    apply Hnext; [done|done|]. by rewrite Hchunk.
Qed.
End ReadLoop.

(** ** Reading a chain *)

Lemma guestImage_chain_ind (P : guestImage → Prop) :
  (∀ f s, P (RawImage f s)) → (∀ q, P (Qcow2 q None)) →
  (∀ q g, P g → P (Qcow2 q (Some g))) → ∀ g, P g.
Proof.
  intros Hr Hn Hs. fix IH 1. intros [f s|q [g|]]; [apply Hr|apply Hs, IH|apply Hn].
Qed.

(** Bytes a read of [n] bytes at [off] can return. *)
Definition available (g : guestImage) (n off : Z) : Z :=
  match g with
  | RawImage f _ => Z.max 0 (Z.min n (fsize f - off))
  | Qcow2 q _ => read_count q n off
  end.

Lemma raw_guest_bytes f s off m :
  0 ≤ m → off + m ≤ fsize f ∨ m = 0 → fread f off m = guest_bytes (RawImage f s) off m.
Proof.
  intros Hm Hr. apply map_seqZ_ext. intros i Hi. simpl.
  destruct (Z.ltb_spec i (fsize f)); [done|lia].
Qed.

(** A read that obeys its specification serves the layer above. *)
Lemma available_reads_as g :
  tail_zero g → 0 ≤ Size g →
  (∀ c n off, caches_ok g c → 0 ≤ off < 2 ^ 62 → 0 ≤ n < 2 ^ 62 →
     ∃ c', ReadAt g c n off =
             (c', (guest_bytes g off (available g n off),
                   if available g n off <? n then Some EEOF else None)) ∧
           caches_ok g c' ∧ 0 ≤ available g n off ≤ n ∧
           (available g n off < n → Size g ≤ off + available g n off)) →
  reads_as (ReadAt g) (caches_ok g) (guest_byte g).
Proof.
  intros Ht Hs H c n off Hc Hoff Hn. destruct (H c n off Hc Hoff Hn) as (c' & Hrun & Hc' & Ha & Hshort).
  set (m := available g n off) in *.
  exists c', (guest_bytes g off m), (if m <? n then Some EEOF else None).
  assert (Hlen : zlen (guest_bytes g off m) = m).
  { unfold guest_bytes. rewrite zlen_map, zlen_seqZ; lia. }
  repeat split; try done; try lia.
  - destruct (m <? n); auto.
  - replace (Z.to_nat n - length (guest_bytes g off m))%nat with (Z.to_nat (n - m))
      by (unfold zlen in Hlen; lia).
    replace n with (m + (n - m)) at 2 by lia. rewrite <- map_seqZ_app by lia.
    unfold guest_bytes. f_equal. rewrite <- (map_seqZ_const 0 (off + m)).
    apply map_seqZ_ext. intros i Hi. symmetry. apply Ht. lia.
Qed.

Lemma read_count_short q n off :
  geometry_ok q → 0 ≤ off → 0 ≤ n →
  0 ≤ read_count q n off ≤ n ∧
  (read_count q n off < n → h_size (q_hdr q) ≤ off + read_count q n off).
Proof.
  intros Hg Hoff Hn. destruct (extent_bounds q Hg) as [He _].
  unfold read_count. case_ifs; lia.
Qed.

Lemma ReadAt_chain g :
  chain_ok g → ∀ c n off, caches_ok g c → 0 ≤ off < 2 ^ 62 → 0 ≤ n < 2 ^ 62 →
  ∃ c', ReadAt g c n off =
          (c', (guest_bytes g off (available g n off),
                if available g n off <? n then Some EEOF else None)) ∧
        caches_ok g c' ∧ 0 ≤ available g n off ≤ n ∧
        (available g n off < n → Size g ≤ off + available g n off).
Proof.
  induction g as [f s|q|q g IH] using guestImage_chain_ind.
  - intros [-> Hs] c n off _ Hoff Hn. exists c. simpl. unfold raw_ReadAt, file_ReadAt.
    destruct (Z.ltb_spec off 0); [lia|]. rewrite (raw_guest_bytes f (fsize f)) by lia.
    repeat split; try lia. by case_if.
  - intros [Hq _] c n off [Hc _] Hoff Hn.
    destruct (read_loop_ok q None (λ c _ _, (c, ([], None))) Hq ltac:(done) (Z.to_nat n) c n off [])
      as (c' & Hrun & Hc' & _); rewrite ?zlen_nil; try done; try lia.
    exists c'. simpl. rewrite Hrun. split_and!; try done; try apply read_count_short;
      try apply Hq; lia.
  - intros (Hq & Hg & Ht) c n off [Hc Hl] Hoff Hn.
    assert (Hs : 0 ≤ Size g).
    { destruct g as [f s|q' b']; simpl in *; [lia|]. destruct Hg as [Hq' _].
      destruct (io_geom q' Hq'). lia. }
    destruct (read_loop_ok q (Some g) (ReadAt g) Hq) with (fuel := Z.to_nat n) (c := c) (len := n)
      (off := off) (acc := @nil Z) as (c' & Hrun & Hc' & Hl'); rewrite ?zlen_nil; try done; try lia.
    { intros ? [= <-]. apply available_reads_as; [done..|]. by apply IH. }
    exists c'. simpl. rewrite Hrun. split_and!; try done; try apply read_count_short;
      try apply Hq; lia.
Qed.

(**  Reading is correct and total: on a well-formed chain with coherent
    caches, [ReadAt] never fails, returns exactly the bytes of the guest disk the
    chain represents (allocated clusters from the image, zero clusters as zeros,
    the rest from the backing images), reports [io.EOF] exactly when the read
    runs past the end, and leaves every cache coherent. *)
Theorem ReadAt_guest_bytes g c n off :
  chain_ok g → caches_ok g c → 0 ≤ off < 2 ^ 62 → 0 ≤ n < 2 ^ 62 →
  ∃ c', ReadAt g c n off =
          (c', (guest_bytes g off (available g n off),
                if available g n off <? n then Some EEOF else None)) ∧
        caches_ok g c' ∧
        (off + n ≤ Size g → available g n off = n).
Proof.
  intros Hg Hc Hoff Hn. destruct (ReadAt_chain g Hg c n off Hc Hoff Hn) as (c' & Hrun & Hc' & Ha & Hs).
  exists c'. repeat split; try done. intros Hin.
  destruct (decide (available g n off < n)) as [Hlt|]; [|lia].
  destruct g as [f s|q b]; simpl in *.
  - destruct Hg as [-> ?]. lia.
  - destruct Hg as [Hq _]. pose proof (extent_bounds q (io_geom q Hq)).
    unfold read_count in *. case_ifs; lia.
Qed.

(** ** A decision procedure for well-formedness *)

Definition image_okb (q : qcow2Image) : bool :=
  let cs := q_clusterSize q in
  (9 <=? q_clusterBits q) && (q_clusterBits q <=? 21) &&
  (cs =? 2 ^ q_clusterBits q) && (q_clusterMask q =? 2 ^ q_clusterBits q - 1) &&
  (0 <=? h_size (q_hdr q)) && (h_size (q_hdr q) <=? maxVirtualSize) &&
  (h_size (q_hdr q) <=? zlen (q_l1 q) * (cs / 8 * cs)) &&
  forallb (λ k, (l1_off q k =? 0) ||
                ((l1_off q k mod cs =? 0) && (l1_off q k + cs <=? fsize (q_f q)) &&
                 (l1_off q k + cs <=? q_fileSize q))) (seqZ 0 (zlen (q_l1 q))) &&
  forallb (λ ci, let e := guest_entry q ci in
                 negb (has_flag e oflagCompressed) &&
                 (has_flag e oflagZero || (Z.land e l2eOffsetMask =? 0) ||
                  (Z.land e l2eOffsetMask + cs <=? fsize (q_f q))))
          (seqZ 0 (cdiv (h_size (q_hdr q)) cs)).

Lemma forallb_seqZ P n i : forallb P (seqZ 0 n) = true → 0 ≤ i < n → P i = true.
Proof.
  rewrite forallb_forall. intros H Hi. apply H, list_elem_of_In, elem_of_seqZ. lia.
Qed.

Lemma image_okb_ok q : image_okb q = true → image_ok q.
Proof.
  unfold image_okb. intros H. bsimp.
  assert (Hg : geometry_ok q) by (split; try done; lia).
  split; [done| |].
  - intros k Hk Hk0.
    match goal with H : forallb _ (seqZ 0 (zlen _)) = true |- _ => pose proof (forallb_seqZ _ _ k H Hk) as Hb end.
    apply orb_true_iff in Hb as [Hb|Hb]; bsimp; done.
  - intros ci Hci Hs. destruct (geometry_facts q Hg) as (Hcs & _).
    pose proof (cdiv_bounds (h_size (q_hdr q)) (q_clusterSize q) ltac:(lia)).
    match goal with H : forallb _ (seqZ 0 (cdiv _ _)) = true |- _ =>
      pose proof (forallb_seqZ _ _ ci H ltac:(nia)) as Hb end.
    apply andb_true_iff in Hb as [Hc%negb_true_iff Hb]. split; [done|]. intros Hz Hn.
    rewrite Hz in Hb. simpl in Hb. apply orb_true_iff in Hb as [Hb|Hb]; bsimp; [done|lia].
Qed.

(** A two-cluster overlay (512-byte clusters) over a raw base: guest cluster 0
    falls through, cluster 1 is allocated at 1024. *)
Definition demo_base : file := fwrite empty_file 0 (replicate 1024 7).
Definition demo_file : file :=
  fwrite (fwrite (fwrite empty_file 1535 [0]) 520 (be_encode 8 (Z.lor 1024 oflagCopied))) 1024 [1; 2; 3].
Definition demo_image : qcow2Image :=
  {| q_f := demo_file;
     q_hdr := {| h_size := 1024; h_l1Offset := 0; h_l1Size := 1; h_refcountOffset := 0;
                 h_refcountClusters := 0; h_snapshots := 0; h_snapshotsOffset := 0 |};
     q_clusterBits := 9; q_clusterSize := 512; q_clusterMask := 511;
     q_l1 := [Z.lor 512 oflagCopied]; q_fileSize := 1536 |}.
Definition demo_chain : guestImage := Qcow2 demo_image (Some (RawImage demo_base 1024)).

Lemma ReadAt_guest_bytes_witness :
  ∃ c', ReadAt demo_chain [] 4 510 = (c', ([7; 7; 1; 2], None)).
Proof.
  assert (Hok : chain_ok demo_chain).
  { split; [apply image_okb_ok; vm_compute; reflexivity|]. split; [by vm_compute|].
    intros i Hi. unfold Size in Hi. unfold guest_byte.
    destruct (Z.ltb_spec i (fsize demo_base)) as [Hlt|]; [|done].
    change (fsize demo_base) with 1024 in Hlt. lia. }
  assert (Hc : caches_ok demo_chain []) by done.
  destruct (ReadAt_guest_bytes demo_chain [] 4 510 Hok Hc ltac:(lia) ltac:(lia)) as (c' & Hrun & _).
  exists c'. rewrite Hrun. vm_compute. reflexivity.
Defined.
