(* ===== verification/Qcow2Write.v ===== *)
(** * The qcow2 write path

    [internal/cow/qcow2_write.go]: [qcow2Writable], [WriteAt], [hostOffset],
    [allocDataCluster], [setL2Entry], [linkL2], [allocCluster], [bumpRefcount],
    and the raw and read-only backends.  The invariant and the refinement theorem
    are in [Qcow2Refine]. *)

From S2P Require Import Prelude Bytes Qcow2Layout Qcow2Image.

(** ** State *)

(** [w_fileSize] is [qcow2Writable.fileSize]; [q_fileSize] of the embedded image
    is the read-side bound the code keeps in step with it.  [w_io] is what the host
    will answer to the accesses to come, in order: [None] is a success, [Some k] a
    failure after [k] bytes; past its end every access succeeds. *)
Record qcow2Writable : Type := {
  w_q : qcow2Image;
  w_backing : option guestImage;
  w_caches : caches;
  w_fileSize : Z;
  w_io : list (option Z);
}.

Abbreviation wmethod := (method qcow2Writable cow_err).

Definition w_image (w : qcow2Writable) : guestImage := Qcow2 (w_q w) (w_backing w).

Definition set_q (w : qcow2Writable) (q : qcow2Image) : qcow2Writable :=
  {| w_q := q; w_backing := w_backing w; w_caches := w_caches w; w_fileSize := w_fileSize w;
     w_io := w_io w |}.
Definition set_caches (w : qcow2Writable) (c : caches) : qcow2Writable :=
  {| w_q := w_q w; w_backing := w_backing w; w_caches := c; w_fileSize := w_fileSize w;
     w_io := w_io w |}.
Definition set_io (w : qcow2Writable) (io : list (option Z)) : qcow2Writable :=
  {| w_q := w_q w; w_backing := w_backing w; w_caches := w_caches w; w_fileSize := w_fileSize w;
     w_io := io |}.

Definition set_q_f (q : qcow2Image) (f : file) : qcow2Image :=
  {| q_f := f; q_hdr := q_hdr q; q_clusterBits := q_clusterBits q;
     q_clusterSize := q_clusterSize q; q_clusterMask := q_clusterMask q;
     q_l1 := q_l1 q; q_fileSize := q_fileSize q |}.
Definition set_q_l1 (q : qcow2Image) (l1 : list Z) : qcow2Image :=
  {| q_f := q_f q; q_hdr := q_hdr q; q_clusterBits := q_clusterBits q;
     q_clusterSize := q_clusterSize q; q_clusterMask := q_clusterMask q;
     q_l1 := l1; q_fileSize := q_fileSize q |}.
Definition set_q_fileSize (q : qcow2Image) (n : Z) : qcow2Image :=
  {| q_f := q_f q; q_hdr := q_hdr q; q_clusterBits := q_clusterBits q;
     q_clusterSize := q_clusterSize q; q_clusterMask := q_clusterMask q;
     q_l1 := q_l1 q; q_fileSize := n |}.

(** [w.fileSize += cs; w.qcow2Image.fileSize = w.fileSize] *)
Definition grow (w : qcow2Writable) : qcow2Writable :=
  let n := u64 (w_fileSize w + q_clusterSize (w_q w)) in
  {| w_q := set_q_fileSize (w_q w) n; w_backing := w_backing w;
     w_caches := w_caches w; w_fileSize := n; w_io := w_io w |}.

(** The host's answer to the next access. *)
Definition host_answer : wmethod (option Z) :=
  λ w, (set_io w (tail (w_io w)), Ok (default None (head (w_io w)))).

(** [w.f.WriteAt(d, int64(off))]; a failing write leaves its first bytes behind. *)
Definition f_WriteAt (d : list Z) (off : Z) : wmethod unit :=
  do* a <- host_answer ;
  λ w, match a with
       | None =>
           match file_WriteAt (q_f (w_q w)) d (int64 off) with
           | (f, None) => (set_q w (set_q_f (w_q w) f), Ok tt)
           | (_, Some e) => (w, Err (io_bare e))
           end
       | Some k =>
           (set_q w (set_q_f (w_q w) (fst (file_WriteAt (q_f (w_q w)) (take (Z.to_nat k) d) (int64 off)))),
            Err EHost)
       end.

(** [w.readUint64At(&v, off)] *)
Definition f_readUint64At (off : Z) : wmethod Z :=
  do* a <- host_answer ;
  λ w, match a with
       | None => (w, readUint64At (q_f (w_q w)) off)
       | Some _ => (w, Err EHost)
       end.

(** [w.qcow2Image.ReadAt(p, off)] with [len(p) = n].  One answer stands for all the
    host reads of the chain: on a failure the first [k] bytes were read. *)
Definition chain_ReadAt (n off : Z) (w : qcow2Writable) : qcow2Writable * (list Z * option cow_err) :=
  let '(w, a) := host_answer w in
  match a with
  | Ok (Some k) =>
      let '(c, (b, _)) := ReadAt (w_image w) (w_caches w) (Z.max 0 (Z.min k n)) off in
      (set_caches w c, (b, Some EHost))
  | _ => let '(c, r) := ReadAt (w_image w) (w_caches w) n off in (set_caches w c, r)
  end.

(** Does [l2EntryAt] read the table from the host file? *)
Definition l2_reads_host (q : qcow2Image) (c : l2state) (l2Off l2Idx : Z) : bool :=
  let l2End := u64 (l2Off + q_clusterSize q) in
  (l2Idx <? q_clusterSize q / 8) && bool_decide (l2cache c !! l2Off = None) &&
  (l2Off mod q_clusterSize q =? 0) && (l2Off <=? l2End) && (l2End <=? q_fileSize q).

(** [w.l2EntryAt(l2Off, l2Idx)] *)
Definition w_l2EntryAt (l2Off l2Idx : Z) : wmethod Z :=
  do* w0 <- gget ;
  do* a <- (if l2_reads_host (w_q w0) (chead (w_caches w0)) l2Off l2Idx then host_answer else gret None) ;
  λ w, match a with
       | Some _ => (w, Err EHost)
       | None =>
           let '(h, r) := l2EntryAt (w_q w) (chead (w_caches w)) l2Off l2Idx in
           (set_caches w (h :: tail (w_caches w)), r)
       end.

(** ** Refcounts *)

Definition entriesPerBlock (w : qcow2Writable) : Z := q_clusterSize (w_q w) / 2.
Definition maxBlocks (w : qcow2Writable) : Z :=
  u64 (h_refcountClusters (q_hdr (w_q w)) * (q_clusterSize (w_q w) / 8)).

(** Address of refcount table entry [blockIdx]. *)
Definition reft_entry (w : qcow2Writable) (blockIdx : Z) : Z :=
  u64 (h_refcountOffset (q_hdr (w_q w)) + blockIdx * 8).

(** The [for] loop of [bumpRefcount]: [idx] is the cluster being counted,
    [deferred] the clusters waiting for it, last in first out. *)
Fixpoint bump_loop (fuel : nat) (idx : Z) (deferred : list Z) : wmethod unit :=
  λ w,
  match fuel with
  | O => (w, Err EFuel)
  | S fuel =>
      let blockIdx := idx / entriesPerBlock w in
      if maxBlocks w <=? blockIdx then (w, Err ERefcountTableFull)
      else
        let finish (blockOff : Z) : wmethod unit :=
          do* _ <- f_WriteAt (be_encode 2 1) (u64 (blockOff + idx mod entriesPerBlock w * 2)) ;
          match deferred with
          | [] => gret tt
          | d :: rest => bump_loop fuel d rest
          end in
        (do* tableEntry <- f_readUint64At (reft_entry w blockIdx) ;
         let blockOff := Z.land tableEntry reftOffsetMask in
         if blockOff =? 0 then
           let blockOff := w_fileSize w in
           do* _ <- f_WriteAt (replicate (Z.to_nat (q_clusterSize (w_q w))) 0) blockOff ;
           do* _ <- gput grow ;
           do* _ <- f_WriteAt (be_encode 8 blockOff) (reft_entry w blockIdx) ;
           let selfCluster := Z.shiftr blockOff (q_clusterBits (w_q w)) in
           if negb (selfCluster =? idx)
           then bump_loop fuel selfCluster (idx :: deferred)
           else finish blockOff
         else finish blockOff) w
  end.

(** A new block is appended at EOF, so at most two blocks are registered before
    one covers its own cluster; the loop then unwinds ([bump_loop_ok]). *)
Definition bump_fuel : nat := 8.

Definition bumpRefcount (clusterIdx : Z) : wmethod unit :=
  λ w, if negb (maxBlocks w =? 0) && (maxBlocks w <=? clusterIdx / entriesPerBlock w)
       then (w, Err ERefcountTableFull)
       else bump_loop bump_fuel clusterIdx [] w.

Definition allocCluster : wmethod Z :=
  λ w, let off := w_fileSize w in
       if negb (off mod q_clusterSize (w_q w) =? 0) then (w, Err EFileUnaligned)
       else (do* _ <- gput grow ;
             do* _ <- bumpRefcount (Z.shiftr off (q_clusterBits (w_q w))) ;
             gret off) w.

(** ** Mapping updates *)

Definition set_l1 (k v : Z) (w : qcow2Writable) : qcow2Writable :=
  set_q w (set_q_l1 (w_q w) (zset (q_l1 (w_q w)) k v)).

Definition set_cached (l2Off l2Idx val : Z) (w : qcow2Writable) : qcow2Writable :=
  set_caches w (updateL2Cache (chead (w_caches w)) l2Off l2Idx val :: tail (w_caches w)).

(** The L2 table of [l1Idx], allocated, zeroed and linked if there is none. *)
Definition ensure_l2 (l1Idx : Z) : wmethod Z :=
  λ w, let l2Off := Z.land (zget 0 (q_l1 (w_q w)) l1Idx) l1eOffsetMask in
       if l2Off =? 0 then
         (do* l2Off <- allocCluster ;
          do* _ <- f_WriteAt (replicate (Z.to_nat (q_clusterSize (w_q w))) 0) l2Off ;
          do* _ <- f_WriteAt (be_encode 8 (Z.lor l2Off oflagCopied))
                     (u64 (h_l1Offset (q_hdr (w_q w)) + l1Idx * 8)) ;
          do* _ <- gput (set_l1 l1Idx (Z.lor l2Off oflagCopied)) ;
          gret l2Off) w
       else (w, Ok l2Off).

Definition setL2Entry (clusterIdx l2e : Z) : wmethod unit :=
  λ w, let l2Entries := q_clusterSize (w_q w) / 8 in
       let l1Idx := clusterIdx / l2Entries in
       let l2Idx := clusterIdx mod l2Entries in
       if zlen (q_l1 (w_q w)) <=? l1Idx then (w, Err EBeyondL1)
       else (do* l2Off <- ensure_l2 l1Idx ;
             do* _ <- f_WriteAt (be_encode 8 l2e) (u64 (l2Off + l2Idx * 8)) ;
             gput (set_cached l2Off l2Idx l2e)) w.

Definition linkL2 (clusterIdx hostOff : Z) : wmethod unit :=
  setL2Entry clusterIdx (Z.lor hostOff oflagCopied).

(** ** Data *)

(** The backing view of a cluster: [ReadAt(buf[:readLen], clusterStart)] into a
    zeroed cluster buffer, end-of-disk tolerated. *)
Definition cow_buffer (clusterIdx : Z) : wmethod (list Z) :=
  λ w, let cs := q_clusterSize (w_q w) in
       let clusterStart := int64 (Z.shiftl clusterIdx (q_clusterBits (w_q w))) in
       let rem := int64 (h_size (q_hdr (w_q w))) - clusterStart in
       let readLen := if rem <? cs then rem else cs in
       if 0 <? readLen then
         match chain_ReadAt readLen clusterStart w with
         | (w, (b, e)) =>
             match e with
             | None | Some EEOF => (w, Ok (b ++ replicate (Z.to_nat cs - length b) 0))
             | Some e => (w, Err e)
             end
         end
       else (w, Ok (replicate (Z.to_nat cs) 0)).

Definition allocDataCluster (clusterIdx : Z) (data : list Z) (guest : Z) (fullCluster : bool)
    : wmethod Z :=
  do* hostOff <- allocCluster ;
  do* _ <- (if fullCluster then f_WriteAt data hostOff
            else do* buf <- cow_buffer clusterIdx ;
                 do* w <- gget ;
                 f_WriteAt (splice buf (Z.land guest (q_clusterMask (w_q w))) data) hostOff) ;
  do* _ <- linkL2 clusterIdx hostOff ;
  gret hostOff.

(** 0 when the cluster may not be written in place. *)
Definition hostOffset (clusterIdx : Z) : wmethod Z :=
  λ w, let q := w_q w in
       let l2Entries := q_clusterSize q / 8 in
       let l1Idx := clusterIdx / l2Entries in
       let l2Idx := clusterIdx mod l2Entries in
       match l1Entry q l1Idx with
       | Err _ => (w, Err EBeyondL1)
       | Ok l1e =>
           let l2Off := Z.land l1e l1eOffsetMask in
           if l2Off =? 0 then (w, Ok 0)
           else
             (do* l2e <- w_l2EntryAt l2Off l2Idx ;
              if has_flag l2e oflagCompressed then gfail ECompressed
              else if negb (Z.land l2e (Z.lor oflagCopied oflagZero) =? oflagCopied) then gret 0
              else gret (Z.land l2e l2eOffsetMask)) w
       end.

(** One round of [WriteAt]: the part [p] of the data that falls in the cluster
    of [guest]. *)
Definition write_chunk (guest : Z) (p : list Z) : wmethod unit :=
  λ w, let clusterIdx := Z.shiftr guest (q_clusterBits (w_q w)) in
       let inCluster := Z.land guest (q_clusterMask (w_q w)) in
       (do* host <- hostOffset clusterIdx ;
        if host =? 0 then
          let fullCluster := (inCluster =? 0) && (zlen p =? q_clusterSize (w_q w)) in
          do* _ <- allocDataCluster clusterIdx p guest fullCluster ;
          gret tt
        else f_WriteAt p (u64 (host + inCluster))) w.

(** The loop of [WriteAt]: [total] bytes are done.  Each round writes at least
    one byte. *)
Fixpoint write_loop (fuel : nat) (p : list Z) (off total : Z) (w : qcow2Writable)
    : qcow2Writable * (Z * option cow_err) :=
  if zlen p <=? total then (w, (total, None))
  else match fuel with
  | O => (w, (total, Some EFuel))
  | S fuel =>
      let guest := u64 (u64 off + total) in
      if h_size (q_hdr (w_q w)) <=? guest then (w, (total, Some EWriteBeyondSize))
      else
        let n0 := u64 (q_clusterSize (w_q w) - Z.land guest (q_clusterMask (w_q w))) in
        let n := if zlen p - total <? n0 then zlen p - total else n0 in
        match write_chunk guest (zslice p total (total + n)) w with
        | (w, Err e) => (w, (total, Some e))
        | (w, Ok _) => write_loop fuel p off (total + n) w
        end
  end.

Definition WriteAt (p : list Z) (off : Z) (w : qcow2Writable)
    : qcow2Writable * (Z * option cow_err) :=
  write_loop (length p) p off 0 w.

(** [qcow2Writable.ReadAt]: the embedded image's read. *)
Definition w_ReadAt (n off : Z) (w : qcow2Writable) : qcow2Writable * (list Z * option cow_err) :=
  chain_ReadAt n off w.

(** ** The other backends of [OpenWritable] and [OpenReadOnly] *)

(** [rawWritable.WriteAt] *)
Definition raw_WriteAt (p : list Z) (off : Z) (f : file) : file * (Z * option cow_err) :=
  match file_WriteAt f p off with
  | (f, None) => (f, (zlen p, None))
  | (f, Some e) => (f, (0, Some (io_bare e)))
  end.

(** [readOnlyBackend.WriteAt] *)
Definition readOnly_WriteAt (p : list Z) (off : Z) (g : guestImage)
    : guestImage * (Z * option cow_err) := (g, (0, Some EReadOnly)).
