(* ===== verification/Qcow2Host.v ===== *)
(** * Host failures under the write path

    The read and write error returns of [internal/cow/qcow2_write.go].  The state
    [qcow2Writable] carries what the host will answer ([w_io]); a method either
    reports the failure of one of those answers, or runs exactly as it does over a
    host on which every access succeeds.  [Qcow2WriteAt] uses this to carry the
    refinement proved over such a host to any host. *)

From S2P Require Import Prelude Bytes Qcow2Layout Qcow2Image Qcow2Write.

(** The same image over a host that does not fail. *)
Definition calm (w : qcow2Writable) : qcow2Writable := set_io w [].

Definition host_fails (w : qcow2Writable) : Prop := Exists is_Some (w_io w).

Lemma set_io_same w : set_io w (w_io w) = w.
Proof. by destruct w. Qed.

Lemma calm_idle w : w_io w = [] → calm w = w.
Proof. intros E. unfold calm. by rewrite <- E, set_io_same. Qed.

(** ** Agreement with the calm host *)

(** The cluster size and mask, which no method changes. *)
Definition shape (w : qcow2Writable) : Z * Z := (q_clusterSize (w_q w), q_clusterMask (w_q w)).

(** [x] is a result on the state [w], [y] the result of the same code on [calm w]. *)
Definition agrees {A} (w : qcow2Writable) (x y : qcow2Writable * result cow_err A) : Prop :=
  shape x.1 = shape w ∧
  (x.2 = Err EHost ∧ host_fails w ∨
   y = (calm x.1, x.2) ∧ w_io x.1 `suffix_of` w_io w).

Definition host_sim {A} (m : wmethod A) : Prop := ∀ w, agrees w (m w) (m (calm w)).

Lemma host_fails_suffix w w' : w_io w' `suffix_of` w_io w → host_fails w' → host_fails w.
Proof. intros [l Hl] Hf. unfold host_fails. rewrite Hl. apply Exists_app. by right. Qed.

Section Rules.
Context {A B : Type}.

Lemma agrees_same w (r : result cow_err A) : agrees w (w, r) (calm w, r).
Proof. split; [done|by right]. Qed.

Lemma sim_same (r : result cow_err A) : host_sim (λ w, (w, r)).
Proof. intros w. apply agrees_same. Qed.

Lemma sim_bind (m : wmethod A) (k : A → wmethod B) :
  host_sim m → (∀ a, host_sim (k a)) → host_sim (gbind m k).
Proof.
  intros Hm Hk w. unfold gbind. destruct (Hm w) as [Hsh Hor].
  destruct (m w) as [w1 [a|e]]; destruct Hor as [[He Hf]|[Hq Hs]]; simpl in *; try done.
  - rewrite Hq. destruct (Hk a w1) as [Hsh' [[He Hf]|[Hq' Hs']]]; (split; [congruence|]).
    + left. split; [done|]. by eapply host_fails_suffix.
    + right. split; [done|]. by etrans.
  - split; [done|]. injection He as ->. by left.
  - split; [done|]. right. by rewrite Hq.
Qed.
End Rules.

Lemma sim_put f :
  (∀ w, f (calm w) = calm (f w)) → (∀ w, w_io (f w) = w_io w) → (∀ w, shape (f w) = shape w) →
  host_sim (gput f).
Proof. intros Hq Hio Hsh w. split; [apply Hsh|]. right. unfold gput. simpl. by rewrite Hq, Hio. Qed.

Lemma sim_if {A} (b : bool) (m n : wmethod A) : host_sim m → host_sim n → host_sim (if b then m else n).
Proof. by destruct b. Qed.

(** A method that first looks at its state: run the rest at that state. *)
Ltac at_state w := match goal with |- agrees _ (?m w) _ => apply (λ H : host_sim m, H w) end.

(** ** The methods of the write path *)

(** An access that consults the host: a failure is reported, a success continues
    as on the calm host. *)
Lemma sim_access {A} (k : option Z → wmethod A) :
  host_sim (k None) → (∀ n w, (k (Some n) w).2 = Err EHost ∧ shape (k (Some n) w).1 = shape w) →
  host_sim (gbind host_answer k).
Proof.
  intros Hk He w. unfold gbind, host_answer. cbn [set_io w_io calm tail head default].
  destruct (w_io w) as [|[n|] io] eqn:Eio; simpl.
  - specialize (Hk (set_io w [])). unfold agrees, host_fails in *. simpl in *. by rewrite Eio.
  - destruct (He n (set_io w io)) as [H1 H2]. split; [exact H2|]. left. split; [done|]. unfold host_fails. rewrite Eio. by left.
  - destruct (Hk (set_io w io)) as [Hsh [[H1 H2]|[H1 H2]]]; (split; [exact Hsh|]).
    + left. split; [done|]. unfold host_fails in *. rewrite Eio. by right.
    + right. split; [exact H1|]. rewrite Eio. simpl in H2. etrans; [exact H2|]. by exists [None].
Qed.

Lemma sim_f_WriteAt d off : host_sim (f_WriteAt d off).
Proof.
  apply sim_access; [|done]. intros w. unfold agrees, calm. simpl.
  destruct (file_WriteAt _ _ _) as [f [e|]]; (split; [done|by right]).
Qed.

Lemma sim_f_readUint64At off : host_sim (f_readUint64At off).
Proof. apply sim_access; [|done]. intros w. apply agrees_same. Qed.

Lemma sim_w_l2EntryAt a i : host_sim (w_l2EntryAt a i).
Proof.
  assert (Hk : ∀ w, agrees w
    (let '(h, r) := l2EntryAt (w_q w) (chead (w_caches w)) a i in (set_caches w (h :: tail (w_caches w)), r))
    (let '(h, r) := l2EntryAt (w_q w) (chead (w_caches w)) a i in
      (set_caches (calm w) (h :: tail (w_caches w)), r))).
  { intros w. destruct (l2EntryAt _ _ _ _). split; [done|by right]. }
  intros w. unfold w_l2EntryAt, gbind at 1 3, gget. cbn [calm set_io w_q w_caches].
  destruct (l2_reads_host _ _ _ _).
  - by apply (sim_access (λ x w, match x with Some _ => (w, Err EHost) | None => _ end)).
  - apply Hk.
Qed.

Lemma sim_bump_loop fuel : ∀ idx deferred, host_sim (bump_loop fuel idx deferred).
Proof.
  induction fuel as [|fuel IH]; intros idx deferred w; [apply agrees_same|].
  cbn [bump_loop]. unfold entriesPerBlock, maxBlocks, reft_entry. cbn [calm set_io w_q w_fileSize].
  destruct (_ <=? _); [apply agrees_same|].
  at_state w.
  assert (Hfin : ∀ off, host_sim (do* _ <- f_WriteAt (be_encode 2 1) off ;
    match deferred with [] => gret tt | d :: rest => bump_loop fuel d rest end)).
  { intros off. apply sim_bind; [apply sim_f_WriteAt|]. intros _. destruct deferred; [apply sim_same|apply IH]. }
  apply sim_bind; [apply sim_f_readUint64At|]. intros e. cbv zeta. apply sim_if; [|apply Hfin].
  apply sim_bind; [apply sim_f_WriteAt|]. intros _. apply sim_bind; [by apply sim_put|]. intros _.
  apply sim_bind; [apply sim_f_WriteAt|]. intros _. apply sim_if; [apply IH|apply Hfin].
Qed.

Lemma sim_bumpRefcount c : host_sim (bumpRefcount c).
Proof.
  intros w. unfold bumpRefcount, entriesPerBlock, maxBlocks. cbn [calm set_io w_q].
  destruct (_ && _); [apply agrees_same|]. apply sim_bump_loop.
Qed.

Lemma sim_allocCluster : host_sim allocCluster.
Proof.
  intros w. unfold allocCluster. cbn [calm set_io w_q w_fileSize]. destruct (negb _); [apply agrees_same|]. at_state w.
  apply sim_bind; [by apply sim_put|]. intros _. apply sim_bind; [apply sim_bumpRefcount|]. intros _. apply sim_same.
Qed.

Lemma sim_ensure_l2 k : host_sim (ensure_l2 k).
Proof.
  intros w. unfold ensure_l2. cbn [calm set_io w_q]. cbv zeta. destruct (_ =? _); [|apply agrees_same]. at_state w.
  apply sim_bind; [apply sim_allocCluster|]. intros l2Off. do 2 (apply sim_bind; [apply sim_f_WriteAt|]; intros _).
  apply sim_bind; [by apply sim_put|]. intros _. apply sim_same.
Qed.

Lemma sim_linkL2 ci h : host_sim (linkL2 ci h).
Proof.
  intros w. unfold linkL2, setL2Entry. cbn [calm set_io w_q]. cbv zeta. destruct (_ <=? _); [apply agrees_same|]. at_state w.
  apply sim_bind; [apply sim_ensure_l2|]. intros l2Off. apply sim_bind; [apply sim_f_WriteAt|]. intros _.
  by apply sim_put.
Qed.

(** A read of the chain, in the same terms. *)
Lemma chain_ReadAt_sim n off w :
  let x := chain_ReadAt n off w in
  shape x.1 = shape w ∧
  (x.2.2 = Some EHost ∧ host_fails w ∨
   chain_ReadAt n off (calm w) = (calm x.1, x.2) ∧ w_io x.1 `suffix_of` w_io w).
Proof.
  unfold chain_ReadAt, host_answer, host_fails, w_image. cbn [calm set_io w_q w_backing w_caches w_io tail head default].
  destruct (w_io w) as [|[k|] io]; cbn [tail head default from_option id].
  - destruct (ReadAt _ _ _ _) as [c [b e]]. split; [done|by right].
  - destruct (ReadAt _ _ (Z.max _ _) _) as [c [b e]]. split; [done|]. left. by split; [|left].
  - destruct (ReadAt _ _ _ _) as [c [b e]]. split; [done|]. right. split; [done|]. by exists [None].
Qed.

Lemma sim_cow_buffer ci : host_sim (cow_buffer ci).
Proof.
  intros w. unfold cow_buffer. cbn [calm set_io w_q]. cbv zeta. destruct (0 <? _); [|apply agrees_same].
  match goal with |- context [chain_ReadAt ?n ?off w] => pose proof (chain_ReadAt_sim n off w) as Hs end.
  cbv zeta in Hs. destruct (chain_ReadAt _ _ w) as [w1 [b e]]; simpl in Hs.
  destruct Hs as [Hsh [[-> Hf]|[Hq Hs]]]; [by split; [|left]|]. fold (calm w). rewrite Hq.
  split; [by destruct e as [[]|]|]. right. by destruct e as [[]|].
Qed.

Lemma sim_allocDataCluster ci d guest full : host_sim (allocDataCluster ci d guest full).
Proof.
  apply sim_bind; [apply sim_allocCluster|]. intros off. apply sim_bind.
  - apply sim_if; [apply sim_f_WriteAt|]. apply sim_bind; [apply sim_cow_buffer|]. intros buf w.
    unfold gbind, gget. cbn [calm set_io w_q]. apply sim_f_WriteAt.
  - intros _. apply sim_bind; [apply sim_linkL2|]. intros _. apply sim_same.
Qed.

Lemma sim_hostOffset ci : host_sim (hostOffset ci).
Proof.
  intros w. unfold hostOffset. cbn [calm set_io w_q]. cbv zeta.
  destruct (l1Entry _ _) as [l1e|]; [|apply agrees_same]. destruct (_ =? _); [apply agrees_same|]. at_state w.
  apply sim_bind; [apply sim_w_l2EntryAt|]. intros e. repeat apply sim_if; apply sim_same.
Qed.

Lemma sim_write_chunk guest p : host_sim (write_chunk guest p).
Proof.
  intros w. unfold write_chunk. cbn [calm set_io w_q]. cbv zeta. at_state w.
  apply sim_bind; [apply sim_hostOffset|]. intros host. apply sim_if; [|apply sim_f_WriteAt].
  apply sim_bind; [apply sim_allocDataCluster|]. intros _. apply sim_same.
Qed.

(** ** The loop of [WriteAt] *)

Lemma zslice_take {A} (l : list A) n a b : 0 ≤ a → a ≤ b → b ≤ n → zslice (take (Z.to_nat n) l) a b = zslice l a b.
Proof.
  intros. unfold zslice. rewrite skipn_firstn_comm, take_take. f_equal. lia.
Qed.

Lemma zlen_take {A} (l : list A) n : 0 ≤ n ≤ zlen l → zlen (take (Z.to_nat n) l) = n.
Proof. unfold zlen. intros. rewrite length_take. lia. Qed.

(** A loop that the host stops after [n] bytes has completed the rounds of the first
    [n] bytes, as on the calm host, and failed in the round after them. *)
Definition host_stopped (fuel : nat) (p : list Z) (off total : Z) (w w' : qcow2Writable) (n : Z) : Prop :=
  host_fails w ∧ n < zlen p ∧
  ∃ w1 q, write_loop fuel (take (Z.to_nat n) p) off total (calm w) = (calm w1, (n, None)) ∧
    write_chunk (u64 (u64 off + n)) q w1 = (w', Err EHost).

Lemma write_loop_sim cs mask fuel p off : (∀ g, 0 < u64 (cs - Z.land g mask)) → ∀ total w w' n err,
  shape w = (cs, mask) → 0 ≤ total → write_loop fuel p off total w = (w', (n, err)) →
  total ≤ n ∧
  (err = Some EHost ∧ host_stopped fuel p off total w w' n ∨
   write_loop fuel p off total (calm w) = (calm w', (n, err))).
Proof.
  intros Hgeo. induction fuel as [|fuel IH]; intros total w w' n err Hw Ht; cbn [write_loop];
    destruct (Z.leb_spec (zlen p) total) as [Hd|Hm].
  1, 2, 3: intros [= <- <- <-]; split; [lia|by right].
  cbn [calm set_io w_q]. fold (calm w). set (guest := u64 (u64 off + total)).
  destruct (Z.leb_spec (h_size (q_hdr (w_q w))) guest) as [Hover|Hin].
  { intros [= <- <- <-]. split; [lia|by right]. }
  set (n0 := u64 (q_clusterSize (w_q w) - Z.land guest (q_clusterMask (w_q w)))).
  injection Hw as Hcs Hmask. assert (Hn0 : 0 < n0) by (unfold n0; rewrite Hcs, Hmask; apply Hgeo).
  set (k := if zlen p - total <? n0 then zlen p - total else n0).
  assert (Hk : 0 < k ≤ zlen p - total) by (unfold k; destruct (Z.ltb_spec (zlen p - total) n0); lia).
  pose proof (sim_write_chunk guest (zslice p total (total + k)) w) as Hsim.
  destruct (write_chunk guest _ w) as [w1 [[]|e]] eqn:Erun; destruct Hsim as [Hsh [[He Hf]|[Hq Hs]]]; simpl in *; try done.
  - rewrite Hq. intros Hrun.
    destruct (IH (total + k) w1 w' n err ltac:(unfold shape in *; congruence) ltac:(lia) Hrun) as [Hn Hor].
    split; [lia|]. destruct Hor as [[-> (Hf & Hlt & w2 & q & Hpre & Hfail)]|Hor]; [|by right].
    left. split; [done|]. split; [by eapply host_fails_suffix|]. split; [done|]. exists w2, q. split; [|done].
    cbn [write_loop calm set_io w_q]. fold (calm w). rewrite zlen_take by lia.
    destruct (Z.leb_spec n total) as [|_]; [lia|]. fold guest. destruct (Z.leb_spec (h_size (q_hdr (w_q w))) guest); [lia|].
    fold n0. assert ((if n - total <? n0 then n - total else n0) = k) as ->.
    { unfold k in *. destruct (Z.ltb_spec (n - total) n0), (Z.ltb_spec (zlen p - total) n0); lia. }
    by rewrite zslice_take, Hq by lia.
  - injection He as ->. intros [= <- <- <-]. split; [lia|]. left. split; [done|].
    split; [done|]. split; [done|]. exists w, (zslice p total (total + k)). split; [|done].
    cbn [write_loop]. rewrite zlen_take by lia. by destruct (Z.leb_spec total total); [|lia].
  - rewrite Hq. intros [= <- <- <-]. split; [lia|by right].
Qed.
