(* ===== verification/Qcow2Refine.v ===== *)
(** * The write path refines an array of bytes

    Invariant of an open writable image, its preservation by every step of
    [internal/cow/qcow2_write.go], and the theorem that [WriteAt] updates exactly
    the requested guest bytes.

    The invariant assigns an owner to every host cluster.  Ownership is a
    function of the cluster, so two structures with different owners never
    overlap, and a write inside one cluster leaves everything owned by another
    region unchanged. *)

From S2P Require Import Prelude Bytes Qcow2Layout Qcow2Image Qcow2Write.

Inductive region : Type :=
| RFree | RHeader | RL1 | RRefTable
| RRefBlock (k : Z)        (** refcount block [k] *)
| RL2 (k : Z)              (** L2 table of L1 slot [k] *)
| RData (ci : Z)           (** data of guest cluster [ci], exclusively owned *)
| RShared.                 (** data referenced without the COPIED flag *)

#[global] Instance region_eq_dec : EqDecision region.
Proof. solve_decision. Defined.

(** [n] bytes at [a] lie inside one cluster. *)
Definition within (cs a n : Z) : Prop := 0 ≤ n ∧ a mod cs + n ≤ cs.

Lemma within_index cs a n i :
  0 < cs → within cs a n → a ≤ i < a + n → i / cs = a / cs.
Proof. intros Hcs [? ?] Hi. apply (same_cluster cs a i); lia. Qed.

Lemma within_mul cs w a k :
  0 < w → cs mod w = 0 → 0 < cs → a mod cs = 0 → within cs (a + k * w) w.
Proof.
  intros Hw Hd Hcs Ha. split; [lia|].
  pose proof (Z.div_mod cs w ltac:(lia)) as Hcw. pose proof (Z.div_mod a cs ltac:(lia)) as Hac.
  pose proof (Z.div_mod (a + k * w) cs ltac:(lia)) as Hkc.
  pose proof (Z.mod_pos_bound (a + k * w) cs ltac:(lia)).
  set (r := (a + k * w) mod cs) in *.
  assert (Hr : r = w * (k + (cs / w) * (a / cs) - (cs / w) * ((a + k * w) / cs))) by nia.
  set (t := k + _ - _) in Hr. assert (t < cs / w) by nia. nia.
Qed.

Lemma below_extent cs s i :
  0 < cs → 0 ≤ i → i < cdiv s cs * cs → 0 ≤ i / cs ∧ i / cs * cs < s.
Proof.
  intros Hcs Hi He. pose proof (cdiv_bounds s cs Hcs).
  assert (i / cs < cdiv s cs) by (apply Z.div_lt_upper_bound; lia).
  assert (cs * (i / cs) ≤ cs * (cdiv s cs - 1)) by (apply Z.mul_le_mono_nonneg_l; lia).
  split; [apply Z.div_pos; lia|lia].
Qed.

(** A write inside cluster [c] leaves the other clusters alone. *)
Lemma fbyte_other cs f off d c i :
  0 < cs → c * cs ≤ off → off + zlen d ≤ (c + 1) * cs → i / cs ≠ c →
  fbyte (fwrite f off d) i = fbyte f i.
Proof.
  intros Hcs H1 H2 Hi. rewrite fbyte_fwrite.
  destruct (Z.leb_spec off i), (Z.ltb_spec i (off + zlen d)); simpl; try done.
  exfalso. apply Hi. symmetry. apply Z.div_unique with (r := i - c * cs); lia.
Qed.

Lemma fread_same cs f g a n :
  0 < cs → within cs a n → (∀ i, i / cs = a / cs → fbyte g i = fbyte f i) →
  fread g a n = fread f a n.
Proof. intros Hcs Hw H. apply fread_ext. intros i Hi. apply H. by eapply within_index. Qed.

Section Refine.
(** The parts of an open image that writing never changes. *)
Context (hdr : qcow2Header) (bits cs : Z) (bk : option guestImage).
Hypothesis Hbits : 9 ≤ bits ≤ 21.
Hypothesis Hcs : cs = 2 ^ bits.
Hypothesis Hsize : 0 ≤ h_size hdr ≤ maxVirtualSize.

Definition mkq (f : file) (l1 : list Z) (fs : Z) : qcow2Image :=
  {| q_f := f; q_hdr := hdr; q_clusterBits := bits; q_clusterSize := cs;
     q_clusterMask := cs - 1; q_l1 := l1; q_fileSize := fs |}.
Definition mkw (f : file) (l1 : list Z) (fs : Z) (c : caches) : qcow2Writable :=
  {| w_q := mkq f l1 fs; w_backing := bk; w_caches := c; w_fileSize := fs; w_io := [] |}.

Definition epb : Z := cs / 2.
Definition nblocks : Z := h_refcountClusters hdr * (cs / 8).

(** Accessors to the structures on disk. *)
Definition reft_at (f : file) (k : Z) : Z := be_decode (fread f (h_refcountOffset hdr + k * 8) 8).
Definition blk (f : file) (k : Z) : Z := Z.land (reft_at f k) reftOffsetMask.
Definition refcount (f : file) (c : Z) : Z :=
  if blk f (c / epb) =? 0 then 0
  else be_decode (fread f (blk f (c / epb) + c mod epb * 2) 2).
Definition l1_disk (f : file) (k : Z) : Z := be_decode (fread f (h_l1Offset hdr + k * 8) 8).
Definition loff (l1 : list Z) (k : Z) : Z := Z.land (zget 0 l1 k) l1eOffsetMask.
Definition gentry (f : file) (l1 : list Z) (ci : Z) : Z := guest_entry (mkq f l1 0) ci.
Definition view (f : file) (l1 : list Z) (i : Z) : Z := guest_byte (Qcow2 (mkq f l1 0) bk) i.

Record owned (o : Z → region) (f : file) (l1 : list Z) (fs : Z) : Prop := {
  ow_l1len : h_size hdr ≤ zlen l1 * (cs / 8 * cs);
  ow_fs : 0 ≤ fsize f ≤ fs;
  ow_align : fs mod cs = 0;
  ow_free : ∀ c, fs ≤ c * cs → o c = RFree;
  ow_hdr : o 0 = RHeader;
  ow_l1off : h_l1Offset hdr mod cs = 0 ∧ 0 ≤ h_l1Offset hdr < 2 ^ 56;
  ow_l1 : ∀ k, 0 ≤ k < zlen l1 →
    o ((h_l1Offset hdr + k * 8) / cs) = RL1 ∧ h_l1Offset hdr + k * 8 + 8 ≤ fsize f ∧
    l1_disk f k = zget 0 l1 k;
  ow_l2 : ∀ k, 0 ≤ k < zlen l1 → loff l1 k ≠ 0 →
    loff l1 k mod cs = 0 ∧ o (loff l1 k / cs) = RL2 k ∧ loff l1 k + cs ≤ fsize f;
  ow_refoff : h_refcountOffset hdr mod cs = 0 ∧ 0 ≤ h_refcountOffset hdr < 2 ^ 56 ∧
              0 ≤ h_refcountClusters hdr < 2 ^ 32;
  ow_reft : ∀ k, 0 ≤ k < nblocks →
    o ((h_refcountOffset hdr + k * 8) / cs) = RRefTable ∧
    h_refcountOffset hdr + k * 8 + 8 ≤ fsize f;
  ow_blk : ∀ k, 0 ≤ k < nblocks → blk f k ≠ 0 →
    blk f k mod cs = 0 ∧ o (blk f k / cs) = RRefBlock k ∧ 0 ≤ blk f k ∧ blk f k + cs ≤ fsize f;
  ow_data : ∀ ci, 0 ≤ ci → ci * cs < h_size hdr →
    has_flag (gentry f l1 ci) oflagCompressed = false ∧
    (has_flag (gentry f l1 ci) oflagZero = false →
     Z.land (gentry f l1 ci) l2eOffsetMask ≠ 0 →
     let h := Z.land (gentry f l1 ci) l2eOffsetMask in
     h mod cs = 0 ∧ h + cs ≤ fsize f ∧
     o (h / cs) = if has_flag (gentry f l1 ci) oflagCopied then RData ci else RShared);
}.

(** Every owned cluster is counted once, the pending ones excepted. *)
Definition refs_ok (o : Z → region) (f : file) (pend : list Z) : Prop :=
  ∀ c, 0 ≤ c → o c ≠ RFree → o c ≠ RShared → c ∉ pend → c / epb < nblocks ∧ refcount f c = 1.

Lemma cs_facts : 512 ≤ cs ≤ 2097152 ∧ cs = 8 * (cs / 8) ∧ cs = 2 * epb ∧ cs mod 8 = 0 ∧ cs mod 2 = 0.
Proof.
  unfold epb. rewrite Hcs. pose proof (pow2_bits bits Hbits). pose proof (cs_div8 bits).
  pose proof (cs_div2 bits). pose proof (Z.mod_eq (2 ^ bits) 8). pose proof (Z.mod_eq (2 ^ bits) 2). lia.
Qed.

Lemma geom f l1 fs : h_size hdr ≤ zlen l1 * (cs / 8 * cs) → geometry_ok (mkq f l1 fs).
Proof. intros. split; simpl; try done. by rewrite <- Hcs. Qed.

Lemma owned_image o f l1 fs : owned o f l1 fs → image_ok (mkq f l1 fs).
Proof.
  intros H. split.
  - apply geom, H.
  - intros k Hk H0. simpl in *. change (l1_off (mkq f l1 fs) k) with (loff l1 k) in *. destruct (ow_l2 _ _ _ _ H k Hk H0) as (? & _ & ?).
    pose proof (ow_fs _ _ _ _ H). lia.
  - intros ci Hci Hs. simpl in *. destruct (ow_data _ _ _ _ H ci Hci Hs) as [Hc Hd].
    split; [done|]. intros Hz Hn. by apply Hd.
Qed.

Lemma owned_pos o f l1 fs : owned o f l1 fs → cs ≤ fs.
Proof.
  intros H. destruct cs_facts as (? & _). pose proof (ow_align _ _ _ _ H).
  destruct (decide (fs ≤ 0)) as [Hle|].
  - pose proof (ow_free _ _ _ _ H 0 ltac:(lia)). pose proof (ow_hdr _ _ _ _ H). congruence.
  - destruct (decide (cs ≤ fs)) as [|Hlt]; [done|]. rewrite Z.mod_small in *; lia.
Qed.

(** ** Frames *)

(** Regions whose contents the guest view and the L1/L2 mapping depend on. *)
Definition mapping (r : region) : Prop :=
  match r with RHeader | RL1 | RL2 _ | RData _ | RShared => True | _ => False end.
Definition refs (r : region) : Prop :=
  match r with RRefTable | RRefBlock _ => True | _ => False end.

Definition is_l2 (r : region) : Prop := match r with RL2 _ => True | _ => False end.
Definition tables (r : region) : Prop := match r with RL1 | RL2 _ => True | _ => False end.
Definition is_data (r : region) : Prop := match r with RData _ | RShared => True | _ => False end.

Definition keeps (P : region → Prop) (o : Z → region) (f f' : file) : Prop :=
  ∀ i, P (o (i / cs)) → fbyte f' i = fbyte f i.

Lemma keeps_sub (P Q : region → Prop) o f f' :
  (∀ r, P r → Q r) → keeps Q o f f' → keeps P o f f'.
Proof. intros HPQ Hk i Hi. by apply Hk, HPQ. Qed.

(** [o'] extends [o] on free clusters only. *)
Definition extends (o o' : Z → region) : Prop := ∀ c, o c ≠ RFree → o' c = o c.

Lemma extends_refl o : extends o o.
Proof. done. Qed.
Lemma extends_trans o1 o2 o3 : extends o1 o2 → extends o2 o3 → extends o1 o3.
Proof. intros H1 H2 c Hc. rewrite H2; rewrite H1; done. Qed.
Lemma keeps_trans P o1 o2 f1 f2 f3 :
  (∀ r, P r → r ≠ RFree) → extends o1 o2 → keeps P o1 f1 f2 → keeps P o2 f2 f3 → keeps P o1 f1 f3.
Proof. intros HP He H1 H2 i Hi. rewrite H2; [by apply H1|]. rewrite He; [done|]. by apply HP. Qed.

Lemma mapping_not_free r : mapping r → r ≠ RFree.
Proof. by destruct r. Qed.
Lemma refs_not_free r : refs r → r ≠ RFree.
Proof. by destruct r. Qed.

Lemma keeps_write (P : region → Prop) o f off d c :
  c * cs ≤ off → off + zlen d ≤ (c + 1) * cs → (¬ P (o c)) → keeps P o f (fwrite f off d).
Proof.
  intros H1 H2 HP i Hi. destruct cs_facts as (? & _). apply (fbyte_other cs _ _ _ c); try lia.
  intros Heq. apply HP. by rewrite <- Heq.
Qed.

Section Accessors.
Context (o : Z → region) (f f' : file) (l1 : list Z) (fs : Z).
Hypothesis Ho : owned o f l1 fs.

(** Entries of the L2 tables depend on the tables only. *)
Lemma entry_keeps k idx :
  keeps is_l2 o f f' → 0 ≤ k < zlen l1 → loff l1 k ≠ 0 → 0 ≤ idx < cs / 8 →
  entry_at f' (loff l1 k) idx = entry_at f (loff l1 k) idx.
Proof.
  intros Hk Hki H0 Hi. destruct cs_facts as (? & H8 & _ & Hm8 & _).
  destruct (ow_l2 _ _ _ _ Ho _ Hki H0) as (Ha & How & Hf).
  unfold entry_at. f_equal. apply (fread_same cs); [lia|apply within_mul; lia|].
  intros i Hin. apply Hk. rewrite Hin.
  replace ((loff l1 k + idx * 8) / cs) with (loff l1 k / cs).
  { by rewrite How. }
  symmetry. apply (same_cluster cs); [lia|]. rewrite Ha. lia.
Qed.

Lemma table_index ci :
  0 ≤ ci → ci * cs < h_size hdr →
  0 ≤ ci / (cs / 8) < zlen l1 ∧ 0 ≤ ci mod (cs / 8) < cs / 8.
Proof.
  intros Hci Hs. destruct cs_facts as (? & H8 & _). pose proof (ow_l1len _ _ _ _ Ho).
  split; [split; [apply Z.div_pos; lia|apply Z.div_lt_upper_bound; nia]|].
  apply Z.mod_pos_bound. lia.
Qed.

Lemma gentry_l2 ci :
  keeps is_l2 o f f' → 0 ≤ ci → ci * cs < h_size hdr → gentry f' l1 ci = gentry f l1 ci.
Proof.
  intros Hk Hci Hs. destruct (table_index ci Hci Hs) as [? ?].
  unfold gentry, guest_entry. simpl.
  change (l1_off (mkq f' l1 0)) with (loff l1). change (l1_off (mkq f l1 0)) with (loff l1).
  destruct (Z.eqb_spec (loff l1 (ci / (cs / 8))) 0) as [|Hn0]; [done|]. by apply entry_keeps.
Qed.

Lemma gentry_keeps ci :
  keeps mapping o f f' → 0 ≤ ci → ci * cs < h_size hdr → gentry f' l1 ci = gentry f l1 ci.
Proof. intros Hk. apply gentry_l2. eapply keeps_sub, Hk. by intros []. Qed.

Lemma l1_disk_tables k :
  keeps tables o f f' → 0 ≤ k < zlen l1 → l1_disk f' k = l1_disk f k.
Proof.
  intros Hk Hr. destruct cs_facts as (? & _ & _ & Hm8 & _).
  destruct (ow_l1off _ _ _ _ Ho) as [Ha _]. destruct (ow_l1 _ _ _ _ Ho k Hr) as (How & _).
  unfold l1_disk. f_equal. apply (fread_same cs); [lia|apply within_mul; lia|].
  intros i Hi. apply Hk. rewrite Hi, How. done.
Qed.

Lemma l1_disk_keeps k :
  keeps mapping o f f' → 0 ≤ k < zlen l1 → l1_disk f' k = l1_disk f k.
Proof. intros Hk. apply l1_disk_tables. eapply keeps_sub, Hk. by intros []. Qed.

Lemma reft_keeps k :
  keeps refs o f f' → 0 ≤ k < nblocks → reft_at f' k = reft_at f k.
Proof.
  intros Hk Hr. destruct cs_facts as (? & _ & _ & Hm8 & _).
  destruct (ow_refoff _ _ _ _ Ho) as [Ha _]. destruct (ow_reft _ _ _ _ Ho k Hr) as (How & _).
  unfold reft_at. f_equal. apply (fread_same cs); [lia|apply within_mul; lia|].
  intros i Hi. apply Hk. rewrite Hi, How. done.
Qed.

Lemma refcount_keeps c :
  keeps refs o f f' → 0 ≤ c → c / epb < nblocks → refcount f' c = refcount f c.
Proof.
  intros Hk Hc Hr. destruct cs_facts as (? & _ & He & _ & Hm2).
  assert (Hkr : 0 ≤ c / epb < nblocks) by (split; [apply Z.div_pos; lia|done]).
  unfold refcount, blk. rewrite (reft_keeps _ Hk Hkr). fold (blk f (c / epb)).
  destruct (Z.eqb_spec (blk f (c / epb)) 0) as [|H0]; [done|].
  destruct (ow_blk _ _ _ _ Ho _ Hkr H0) as (Ha & How & _).
  f_equal. apply (fread_same cs); [lia|apply within_mul; lia|].
  intros i Hi. apply Hk. rewrite Hi.
  replace ((blk f (c / epb) + c mod epb * 2) / cs) with (blk f (c / epb) / cs).
  { by rewrite How. }
  symmetry. apply (same_cluster cs); [lia|]. rewrite Ha. pose proof (Z.mod_pos_bound c epb). lia.
Qed.

(** The guest view depends on the mapping regions only. *)
Lemma view_entries l1' i :
  (∀ ci, 0 ≤ ci → ci * cs < h_size hdr → gentry f' l1' ci = gentry f l1 ci) →
  keeps is_data o f f' → 0 ≤ i → view f' l1' i = view f l1 i.
Proof.
  intros He Hk Hi. destruct cs_facts as (? & _). unfold view. simpl.
  change (extent (mkq f' l1' 0)) with (extent (mkq f l1 0)).
  destruct (Z.leb_spec (extent (mkq f l1 0)) i) as [|Hext]; [done|].
  assert (Hci : 0 ≤ i / cs ∧ i / cs * cs < h_size hdr).
  { apply below_extent; [lia..|exact Hext]. }
  unfold mapped_byte. simpl. fold (gentry f' l1' (i / cs)) (gentry f l1 (i / cs)).
  rewrite He by lia.
  destruct (has_flag (gentry f l1 (i / cs)) oflagZero) eqn:Ez; [done|].
  destruct (Z.eqb_spec (Z.land (gentry f l1 (i / cs)) l2eOffsetMask) 0) as [|H0]; [done|].
  destruct (ow_data _ _ _ _ Ho (i / cs)) as [_ Hd]; [lia..|].
  destruct (Hd Ez H0) as (Ha & _ & How). apply Hk.
  replace ((Z.land (gentry f l1 (i / cs)) l2eOffsetMask + i mod cs) / cs)
    with (Z.land (gentry f l1 (i / cs)) l2eOffsetMask / cs).
  { rewrite How. by destruct (has_flag (gentry f l1 (i / cs)) oflagCopied). }
  symmetry. apply (same_cluster cs); [lia|]. rewrite Ha. pose proof (Z.mod_pos_bound i cs). lia.
Qed.

Lemma view_keeps i : keeps mapping o f f' → 0 ≤ i → view f' l1 i = view f l1 i.
Proof.
  intros Hk. apply view_entries; [intros; by apply gentry_keeps|].
  eapply keeps_sub, Hk. by intros [].
Qed.
End Accessors.

(** ** Preservation by single writes *)

Definition upd (o : Z → region) (c : Z) (r : region) : Z → region :=
  λ x, if x =? c then r else o x.

Lemma upd_eq o c r : upd o c r c = r.
Proof. unfold upd. by rewrite Z.eqb_refl. Qed.
Lemma upd_ne o c r x : x ≠ c → upd o c r x = o x.
Proof. intros. unfold upd. by destruct (Z.eqb_spec x c). Qed.
Lemma extends_upd o c r : o c = RFree → extends o (upd o c r).
Proof. intros Hc x Hx. apply upd_ne. congruence. Qed.

(** Changes that keep the tables; the data clusters do not matter. *)
Lemma owned_frame o o' f f' l1 fs fs' :
  owned o f l1 fs → keeps tables o f f' → keeps refs o f f' → extends o o' →
  fsize f ≤ fsize f' ≤ fs' → fs' mod cs = 0 → (∀ c, fs' ≤ c * cs → o' c = RFree) →
  owned o' f' l1 fs'.
Proof.
  intros H Hm Hr He Hsz Hal Hfree.
  assert (Hext : ∀ c r, o c = r → r ≠ RFree → o' c = r) by (intros c r <- ?; by apply He).
  pose proof (ow_fs _ _ _ _ H) as Hfs0.
  split; try apply H; try done; try lia.
  - by apply Hext; [apply H|].
  - intros k Hk. destruct (ow_l1 _ _ _ _ H k Hk) as (? & ? & ?).
    split_and!; [by apply Hext|lia|]. by rewrite (l1_disk_tables o f f' l1 fs).
  - intros k Hk H0. destruct (ow_l2 _ _ _ _ H k Hk H0) as (? & ? & ?).
    split_and!; [done|by apply Hext|lia].
  - intros k Hk. destruct (ow_reft _ _ _ _ H k Hk) as (? & ?). split; [by apply Hext|lia].
  - intros k Hk. unfold blk. rewrite (reft_keeps o f f' l1 fs) by done.
    intros H0. destruct (ow_blk _ _ _ _ H k Hk H0) as (? & ? & ? & ?).
    split_and!; [done|by apply Hext|done|unfold blk in *; lia].
  - intros ci Hci Hs. rewrite (gentry_l2 o f f' l1 fs) by (eapply keeps_sub, Hm || done; by intros []).
    destruct (ow_data _ _ _ _ H ci Hci Hs) as [Hc Hd]. split; [done|].
    intros Hz H0. destruct (Hd Hz H0) as (? & ? & Ho). split_and!; [done|lia|].
    apply Hext; [done|]. by destruct (has_flag _ oflagCopied).
Qed.

Lemma refs_frame o f f' l1 fs pend :
  owned o f l1 fs → keeps refs o f f' → refs_ok o f pend → refs_ok o f' pend.
Proof.
  intros H Hk Hr c Hc H1 H2 H3. destruct (Hr c Hc H1 H2 H3) as [Hb Hrc].
  split; [done|]. by rewrite (refcount_keeps o f f' l1 fs).
Qed.

(** A write into a free cluster. *)
Lemma owned_write_free o f l1 fs c off d :
  owned o f l1 fs → o c = RFree → c * cs ≤ off → off + zlen d ≤ (c + 1) * cs →
  (c + 1) * cs ≤ fs →
  owned o (fwrite f off d) l1 fs ∧ keeps mapping o f (fwrite f off d) ∧
  keeps refs o f (fwrite f off d).
Proof.
  intros H Hfree H1 H2 H3.
  assert (Hk : ∀ P : region → Prop, ¬ P RFree → keeps P o f (fwrite f off d)).
  { intros P HP. apply (keeps_write P o f off d c H1 H2). by rewrite Hfree. }
  assert (keeps mapping o f (fwrite f off d)) by (apply Hk; intros []).
  assert (keeps tables o f (fwrite f off d)) by (apply Hk; intros []).
  assert (keeps refs o f (fwrite f off d)) by (apply Hk; intros []).
  split_and!; [|done|done]. apply (owned_frame o o f _ l1 fs fs); try done; try apply H.
  pose proof (fsize_fwrite_mono f off d). pose proof (ow_fs _ _ _ _ H).
  split; [lia|]. rewrite fsize_fwrite. case_if; lia.
Qed.

(** ** Refcounts *)

Lemma refcount_slot o f l1 fs c :
  owned o f l1 fs → 0 ≤ c → c / epb < nblocks → blk f (c / epb) ≠ 0 →
  let a := blk f (c / epb) + c mod epb * 2 in
  blk f (c / epb) / cs * cs ≤ a ∧ a + 2 ≤ (blk f (c / epb) / cs + 1) * cs ∧
  a / cs = blk f (c / epb) / cs ∧ 0 ≤ a ∧ a + 2 ≤ fsize f ∧
  o (blk f (c / epb) / cs) = RRefBlock (c / epb).
Proof.
  intros H Hc Hr H0 a. destruct cs_facts as (? & _ & He & _).
  destruct (ow_blk _ _ _ _ H (c / epb)) as (Ha & Ho & Hp & Hf); [|done|].
  { split; [apply Z.div_pos; lia|done]. }
  pose proof (Z.mod_pos_bound c epb ltac:(lia)).
  pose proof (Z.div_mod (blk f (c / epb)) cs ltac:(lia)) as Hd. rewrite Ha in Hd.
  split_and!; try lia; try done. unfold a. apply (same_cluster cs); lia.
Qed.

Lemma owned_count o f l1 fs c :
  owned o f l1 fs → 0 ≤ c → c / epb < nblocks → blk f (c / epb) ≠ 0 →
  let f' := fwrite f (blk f (c / epb) + c mod epb * 2) (be_encode 2 1) in
  owned o f' l1 fs ∧ keeps mapping o f f' ∧ fsize f' = fsize f ∧
  (∀ k, 0 ≤ k < nblocks → blk f' k = blk f k) ∧
  refcount f' c = 1 ∧
  (∀ c', 0 ≤ c' → c' / epb < nblocks → c' ≠ c → refcount f' c' = refcount f c').
Proof.
  intros H Hc Hr H0 f'. destruct cs_facts as (Hcsr & _ & He & Hm8 & Hm2).
  destruct (refcount_slot o f l1 fs c H Hc Hr H0) as (Ha1 & Ha2 & Ha3 & Ha4 & Ha5 & Ho).
  set (a := blk f (c / epb) + c mod epb * 2) in *. set (kc := blk f (c / epb) / cs) in *.
  assert (Hz : zlen (be_encode 2 1) = 2) by done.
  assert (Hother : ∀ i, i / cs ≠ kc → fbyte f' i = fbyte f i).
  { intros i Hi. apply (fbyte_other cs _ _ _ kc); rewrite ?Hz; [lia|done|lia|done]. }
  assert (Hm : keeps mapping o f f') by (apply (keeps_write mapping o f a _ kc); rewrite ?Hz, ?Ho; try lia; by intros []).
  assert (Hsz : fsize f' = fsize f) by (unfold f'; rewrite fsize_fwrite, Hz; simpl; lia).
  assert (Hreft : ∀ k, 0 ≤ k < nblocks → reft_at f' k = reft_at f k).
  { intros k Hk. destruct (ow_reft _ _ _ _ H k Hk) as [Hok _]. destruct (ow_refoff _ _ _ _ H) as [Hra _].
    unfold reft_at. f_equal. apply (fread_same cs); [lia|apply within_mul; lia|].
    intros i Hi. apply Hother. rewrite Hi. intros Heq. rewrite Heq, Ho in Hok. done. }
  assert (Hblk : ∀ k, 0 ≤ k < nblocks → blk f' k = blk f k) by (intros; unfold blk; by rewrite Hreft).
  assert (Hkr : 0 ≤ c / epb < nblocks) by (split; [apply Z.div_pos; lia|done]).
  split_and!; try done.
  - split; try apply H; try done.
    + rewrite Hsz. apply H.
    + intros k Hk. destruct (ow_l1 _ _ _ _ H k Hk) as (? & ? & ?). rewrite Hsz.
      split_and!; try done. by rewrite (l1_disk_keeps o f f' l1 fs).
    + rewrite Hsz. apply H.
    + rewrite Hsz. apply H.
    + intros k Hk. rewrite Hblk, Hsz by done. by apply H.
    + intros ci Hci Hs. rewrite (gentry_keeps o f f' l1 fs), Hsz by done. by apply H.
  - unfold refcount. rewrite Hblk by done. destruct (Z.eqb_spec (blk f (c / epb)) 0); [done|].
    fold a. rewrite <- Hz at 1. unfold f'. rewrite fread_fwrite_same. done.
  - intros c' Hc' Hr' Hne. unfold refcount. rewrite Hblk by (split; [apply Z.div_pos; lia|done]).
    destruct (Z.eqb_spec (blk f (c' / epb)) 0) as [|H0']; [done|]. f_equal.
    destruct (refcount_slot o f l1 fs c' H Hc' Hr' H0') as (_ & _ & Hb3 & _ & _ & Ho').
    destruct (decide (c' / epb = c / epb)) as [Heq|Hneb].
    + apply fread_fwrite_disj. rewrite Hz. fold a. rewrite Heq. unfold a.
      pose proof (Z.div_mod c epb ltac:(lia)). pose proof (Z.div_mod c' epb ltac:(lia)).
      rewrite Heq in *. lia.
    + apply (fread_same cs); [lia| |].
      { destruct (ow_blk _ _ _ _ H (c' / epb)) as (Hal & _); [split; [apply Z.div_pos; lia|done]|done|].
        apply within_mul; lia. }
      intros i Hi. apply Hother. rewrite Hi, Hb3. intros Hk. rewrite Hk, Ho in Ho'. congruence.
Qed.

Lemma reft_mask_id h : 0 ≤ h < 2 ^ 56 → h mod 512 = 0 → Z.land h reftOffsetMask = h.
Proof.
  intros Hh Hm. rewrite <- (offset_id h) at 1 by done. rewrite <- Z.land_assoc.
  change (Z.land l2eOffsetMask reftOffsetMask) with l2eOffsetMask. by apply offset_id.
Qed.

(** A multiple of the cluster size is a multiple of 512. *)
Lemma aligned_512 a : a mod cs = 0 → a mod 512 = 0.
Proof.
  intros Ha. destruct cs_facts as (? & _). pose proof (Z.div_mod a cs ltac:(lia)).
  assert (Hc : cs = 2 ^ (bits - 9) * 512) by (rewrite Hcs; by apply pow2_split; lia).
  replace a with (a / cs * 2 ^ (bits - 9) * 512) by (rewrite Ha in *; lia).
  apply Z.mod_mul. lia.
Qed.

Lemma mod_cs_add a : a mod cs = 0 → (a + cs) mod cs = 0.
Proof.
  intros. destruct cs_facts as (? & _). replace (a + cs) with (a + 1 * cs) by lia.
  by rewrite Z.mod_add by lia.
Qed.

Lemma fs_cluster fs : fs mod cs = 0 → fs = fs / cs * cs.
Proof. intros Ha. destruct cs_facts as (? & _). pose proof (Z.div_mod fs cs ltac:(lia)). lia. Qed.

(** The host file grows by one cluster. *)
Lemma owned_grow o f l1 fs : owned o f l1 fs → owned o f l1 (fs + cs).
Proof.
  intros H. destruct cs_facts as (? & _). pose proof (ow_fs _ _ _ _ H).
  apply (owned_frame o o f f l1 fs (fs + cs)); try done; try lia.
  - by apply mod_cs_add, H.
  - intros c Hc. apply H. lia.
Qed.

Definition zeros : list Z := replicate (Z.to_nat cs) 0.
Lemma zlen_zeros : zlen zeros = cs.
Proof. destruct cs_facts as (? & _). unfold zeros. rewrite zlen_replicate. lia. Qed.

(** The new block [k] appended at [fs] and registered in the table. *)
Definition register (f : file) (k fs : Z) : file :=
  fwrite (fwrite f fs zeros) (h_refcountOffset hdr + k * 8) (be_encode 8 fs).

Lemma owned_register o f l1 fs k :
  owned o f l1 fs → fs + cs ≤ 2 ^ 56 → 0 ≤ k < nblocks → blk f k = 0 →
  let f' := register f k fs in
  let o' := upd o (fs / cs) (RRefBlock k) in
  owned o' f' l1 (fs + cs) ∧ extends o o' ∧ keeps mapping o f f' ∧ fsize f ≤ fsize f' ∧
  blk f' k = fs ∧ (∀ k', 0 ≤ k' < nblocks → k' ≠ k → blk f' k' = blk f k') ∧
  (∀ c, 0 ≤ c → c / epb < nblocks → c / epb ≠ k → refcount f' c = refcount f c).
Proof.
  intros H Hb Hk Hk0 f' o'. destruct cs_facts as (Hcsr & _ & He & Hm8 & Hm2).
  pose proof (owned_pos _ _ _ _ H) as Hpos. pose proof (ow_align _ _ _ _ H) as Hal.
  pose proof (fs_cluster fs Hal) as Hfs. set (m := fs / cs) in *.
  assert (Hfree : o m = RFree) by (apply H; lia).
  destruct (owned_write_free o f l1 (fs + cs) m fs zeros) as (H1 & Hm1 & Hr1);
    rewrite ?zlen_zeros; try lia; [by apply owned_grow|done|].
  set (f1 := fwrite f fs zeros) in *.
  destruct (ow_reft _ _ _ _ H1 k Hk) as [Hok Hkf]. destruct (ow_refoff _ _ _ _ H) as [Hra Hrr].
  pose proof (within_mul cs 8 (h_refcountOffset hdr) k ltac:(lia) Hm8 ltac:(lia) Hra) as Hw.
  set (a := h_refcountOffset hdr + k * 8) in *. set (kc := a / cs) in *.
  assert (Hz : zlen (be_encode 8 fs) = 8) by done.
  assert (Hac : kc * cs ≤ a ∧ a + 8 ≤ (kc + 1) * cs).
  { unfold kc. destruct Hw. pose proof (Z.div_mod a cs ltac:(lia)).
    pose proof (Z.mod_pos_bound a cs ltac:(lia)). lia. }
  assert (Hother : ∀ i, i / cs ≠ kc → fbyte f' i = fbyte f1 i).
  { intros i Hi. apply (fbyte_other cs _ _ _ kc); rewrite ?Hz; [lia|lia|lia|done]. }
  assert (Hm2' : keeps mapping o f1 f').
  { apply (keeps_write mapping o f1 a _ kc); rewrite ?Hz, ?Hok; try lia; by intros []. }
  assert (Hmm : keeps mapping o f f').
  { intros i Hi. rewrite Hm2' by done. by apply Hm1. }
  assert (Hsz : fsize f' = fsize f1) by (unfold f', register; fold f1 a; rewrite fsize_fwrite, Hz; change (8 =? 0) with false; cbv iota; lia).
  assert (Hsz1 : fsize f1 = fs + cs).
  { unfold f1. rewrite fsize_fwrite, zlen_zeros. pose proof (ow_fs _ _ _ _ H). case_ifs; lia. }
  assert (Hreft : reft_at f' k = fs).
  { unfold reft_at. fold a. rewrite <- Hz. unfold f', register. fold f1 a. rewrite fread_fwrite_same.
    apply be64_decode_encode. lia. }
  assert (Hreft' : ∀ k', 0 ≤ k' < nblocks → k' ≠ k → reft_at f' k' = reft_at f k').
  { intros k' Hk' Hne. rewrite <- (reft_keeps o f f1 l1 fs) by done. unfold reft_at. f_equal.
    apply fread_fwrite_disj. rewrite Hz. unfold a. lia. }
  assert (Hbk : blk f' k = fs) by (unfold blk; rewrite Hreft; apply reft_mask_id; [lia|by apply aligned_512]).
  assert (Hbk' : ∀ k', 0 ≤ k' < nblocks → k' ≠ k → blk f' k' = blk f k') by (intros; unfold blk; by rewrite Hreft').
  assert (Hext : extends o o') by (by apply extends_upd).
  assert (Ho : ∀ c r, o c = r → r ≠ RFree → o' c = r) by (intros c r <- ?; by apply Hext).
  split_and!; try done; [| |].
  - split; try apply H; try done.
    + rewrite Hsz, Hsz1. lia.
    + by apply mod_cs_add.
    + intros c Hc. unfold o'. rewrite upd_ne by lia. apply H. lia.
    + by apply Ho; [apply H|].
    + intros j Hj. destruct (ow_l1 _ _ _ _ H j Hj) as (? & ? & ?). rewrite Hsz, Hsz1.
      pose proof (ow_fs _ _ _ _ H). split_and!; [by apply Ho|lia|]. by rewrite (l1_disk_keeps o f f' l1 fs).
    + intros j Hj H0. destruct (ow_l2 _ _ _ _ H j Hj H0) as (? & ? & ?). pose proof (ow_fs _ _ _ _ H).
      rewrite Hsz, Hsz1. split_and!; [done|by apply Ho|lia].
    + intros j Hj. destruct (ow_reft _ _ _ _ H j Hj) as (? & ?). pose proof (ow_fs _ _ _ _ H).
      rewrite Hsz, Hsz1. split; [by apply Ho|lia].
    + intros j Hj. rewrite Hsz, Hsz1. destruct (decide (j = k)) as [->|Hne].
      * rewrite Hbk. intros _. fold m. unfold o'. rewrite upd_eq. split_and!; lia || done.
      * rewrite Hbk' by done. intros H0. destruct (ow_blk _ _ _ _ H j Hj H0) as (? & ? & ? & ?).
        pose proof (ow_fs _ _ _ _ H). split_and!; [done|by apply Ho|done|lia].
    + intros ci Hci Hs. rewrite (gentry_keeps o f f' l1 fs), Hsz, Hsz1 by done.
      destruct (ow_data _ _ _ _ H ci Hci Hs) as [Hc Hd]. split; [done|].
      intros Hz0 H0. destruct (Hd Hz0 H0) as (? & ? & Hoo). pose proof (ow_fs _ _ _ _ H).
      split_and!; [done|lia|]. apply Ho; [done|]. by destruct (has_flag _ oflagCopied).
  - rewrite Hsz, Hsz1. pose proof (ow_fs _ _ _ _ H). lia.
  - intros c Hc Hr Hne. unfold refcount.
    assert (Hcr : 0 ≤ c / epb < nblocks) by (split; [apply Z.div_pos; lia|done]).
    rewrite Hbk' by done. destruct (Z.eqb_spec (blk f (c / epb)) 0) as [|H0]; [done|].
    destruct (refcount_slot o f l1 fs c H Hc Hr H0) as (_ & _ & Hb3 & _ & _ & Hob).
    destruct (ow_blk _ _ _ _ H (c / epb) Hcr H0) as (Hba & _).
    f_equal. apply (fread_same cs); [lia|apply within_mul; lia|].
    intros i Hi. rewrite Hother by (rewrite Hi, Hb3; intros Heq; rewrite Heq, Hok in Hob; done).
    apply Hr1. by rewrite Hi, Hb3, Hob.
Qed.

(** ** [bumpRefcount] *)

Lemma f_WriteAt_mkw d off f l1 fs ch :
  0 ≤ off < 2 ^ 63 → f_WriteAt d off (mkw f l1 fs ch) = (mkw (fwrite f off d) l1 fs ch, Ok tt).
Proof.
  intros H. unfold f_WriteAt, gbind, host_answer. simpl. rewrite int64_id, file_WriteAt_ok by lia. done.
Qed.

Lemma f_readUint64At_mkw off f l1 fs ch :
  f_readUint64At off (mkw f l1 fs ch) = (mkw f l1 fs ch, readUint64At f off).
Proof. done. Qed.

Lemma grow_mkw f l1 fs ch :
  0 ≤ fs → fs + cs < 2 ^ 64 → grow (mkw f l1 fs ch) = mkw f l1 (fs + cs) ch.
Proof. intros. destruct cs_facts as (? & _). unfold grow. simpl. rewrite u64_id by lia. done. Qed.

Lemma shiftr_bits a : Z.shiftr a bits = a / cs.
Proof. rewrite Hcs. apply Z.shiftr_div_pow2. lia. Qed.

Section Bump.
Context (o : Z → region) (f : file) (l1 : list Z) (fs : Z) (ch : caches).
Hypothesis H : owned o f l1 fs.
Hypothesis Hfs : fs + cs ≤ 2 ^ 56.

Lemma maxBlocks_mkw : maxBlocks (mkw f l1 fs ch) = nblocks ∧ 0 ≤ nblocks < 2 ^ 50.
Proof.
  destruct cs_facts as (? & ? & _). destruct (ow_refoff _ _ _ _ H) as (_ & _ & ?).
  unfold maxBlocks, nblocks. simpl. rewrite u64_id; nia.
Qed.

Lemma reft_entry_mkw k : 0 ≤ k < nblocks →
  reft_entry (mkw f l1 fs ch) k = h_refcountOffset hdr + k * 8 ∧
  readUint64At f (h_refcountOffset hdr + k * 8) = Ok (reft_at f k) ∧
  0 ≤ h_refcountOffset hdr + k * 8 < 2 ^ 60.
Proof.
  intros Hk. destruct maxBlocks_mkw as [_ Hn]. destruct (ow_refoff _ _ _ _ H) as (_ & Hr & _).
  destruct (ow_reft _ _ _ _ H k Hk) as [_ Hf].
  unfold reft_entry, readUint64At. simpl. rewrite u64_id, int64_id, file_ReadAt_full by lia.
  split_and!; done || lia.
Qed.

Lemma bump_full fuel idx def :
  nblocks ≤ idx / epb →
  bump_loop (S fuel) idx def (mkw f l1 fs ch) = (mkw f l1 fs ch, Err ERefcountTableFull).
Proof.
  intros Hk. cbn [bump_loop]. destruct maxBlocks_mkw as [-> _].
  change (entriesPerBlock (mkw f l1 fs ch)) with epb.
  destruct (Z.leb_spec nblocks (idx / epb)); [done|lia].
Qed.

Lemma bump_exists fuel idx def :
  0 ≤ idx → idx / epb < nblocks → blk f (idx / epb) ≠ 0 →
  bump_loop (S fuel) idx def (mkw f l1 fs ch) =
    let w := mkw (fwrite f (blk f (idx / epb) + idx mod epb * 2) (be_encode 2 1)) l1 fs ch in
    match def with [] => (w, Ok tt) | d :: rest => bump_loop fuel d rest w end.
Proof.
  intros Hi Hk H0. destruct cs_facts as (? & _ & He & _).
  assert (Hkr : 0 ≤ idx / epb < nblocks) by (split; [apply Z.div_pos; lia|done]).
  destruct (refcount_slot o f l1 fs idx H Hi Hk H0) as (_ & _ & _ & Ha & Hf & _).
  pose proof (ow_fs _ _ _ _ H).
  cbn [bump_loop]. destruct maxBlocks_mkw as [-> _].
  change (entriesPerBlock (mkw f l1 fs ch)) with epb.
  destruct (Z.leb_spec nblocks (idx / epb)); [lia|].
  destruct (reft_entry_mkw _ Hkr) as (Hre & Hrd & _). rewrite Hre.
  unfold gbind at 1. rewrite f_readUint64At_mkw, Hrd. cbv beta iota zeta.
  fold (blk f (idx / epb)). destruct (Z.eqb_spec (blk f (idx / epb)) 0); [done|].
  unfold gbind at 1. rewrite u64_id, f_WriteAt_mkw by lia. by destruct def.
Qed.

Lemma bump_missing fuel idx def :
  0 ≤ idx → idx / epb < nblocks → blk f (idx / epb) = 0 → fs / cs ≠ idx →
  bump_loop (S fuel) idx def (mkw f l1 fs ch) =
    bump_loop fuel (fs / cs) (idx :: def) (mkw (register f (idx / epb) fs) l1 (fs + cs) ch).
Proof.
  intros Hi Hk H0 Hne. destruct cs_facts as (? & _ & He & _).
  assert (Hkr : 0 ≤ idx / epb < nblocks) by (split; [apply Z.div_pos; lia|done]).
  pose proof (owned_pos _ _ _ _ H).
  cbn [bump_loop]. destruct maxBlocks_mkw as [-> _].
  change (entriesPerBlock (mkw f l1 fs ch)) with epb.
  destruct (Z.leb_spec nblocks (idx / epb)); [lia|].
  destruct (reft_entry_mkw _ Hkr) as (Hre & Hrd & Hrr). rewrite Hre.
  unfold gbind at 1. rewrite f_readUint64At_mkw, Hrd. cbv beta iota zeta.
  fold (blk f (idx / epb)). rewrite H0. change (w_fileSize (mkw f l1 fs ch)) with fs.
  change (q_clusterSize (w_q (mkw f l1 fs ch))) with cs. change (q_clusterBits (w_q (mkw f l1 fs ch))) with bits.
  change (0 =? 0) with true. cbv iota. unfold gbind at 1. fold zeros.
  rewrite f_WriteAt_mkw by lia. unfold gbind at 1, gput. rewrite grow_mkw by lia.
  unfold gbind at 1. rewrite f_WriteAt_mkw by lia. rewrite shiftr_bits.
  by destruct (Z.eqb_spec (fs / cs) idx).
Qed.
End Bump.

(** When every pending cluster has its block, the loop counts them all. *)
Lemma bump_unwind o l1 fs ch def : ∀ fuel idx f,
  owned o f l1 fs → fs + cs ≤ 2 ^ 56 → (length def < fuel)%nat →
  Forall (λ c, 0 ≤ c ∧ c / epb < nblocks ∧ blk f (c / epb) ≠ 0) (idx :: def) →
  ∃ f', bump_loop fuel idx def (mkw f l1 fs ch) = (mkw f' l1 fs ch, Ok tt) ∧
    owned o f' l1 fs ∧ keeps mapping o f f' ∧ fsize f' = fsize f ∧
    (∀ c, 0 ≤ c → c / epb < nblocks →
       refcount f' c = if decide (c ∈ idx :: def) then 1 else refcount f c).
Proof.
  destruct cs_facts as (Hcsr & _ & He & _).
  induction def as [|d rest IH]; intros fuel idx f H Hfs Hfuel Hall;
    destruct fuel as [|fuel]; simpl in Hfuel; try lia;
    apply Forall_cons_iff in Hall as [(Hi & Hk & H0) Hall];
    destruct (owned_count o f l1 fs idx H Hi Hk H0) as (H1 & Hm1 & Hs1 & Hb1 & Hc1 & Ho1);
    rewrite (bump_exists o f l1 fs ch H Hfs) by done; cbv zeta;
    set (f1 := fwrite f _ _) in *.
  - exists f1. split_and!; try done. intros c Hc Hkc.
    destruct (decide (c ∈ [idx])) as [Hin|Hin].
    + apply list_elem_of_singleton in Hin as ->. done.
    + apply Ho1; [done..|]. intros ->. apply Hin. by left.
  - destruct (IH fuel d f1) as (f' & -> & H' & Hm' & Hs' & Hr'); try done; [lia| |].
    { eapply Forall_impl; [|exact Hall]. intros c (? & ? & ?). split_and!; [done..|].
      rewrite Hb1; [done|]. split; [apply Z.div_pos; lia|done]. }
    exists f'. split_and!; try done.
    + intros i Hin. rewrite Hm' by done. by apply Hm1.
    + lia.
    + intros c Hc Hkc. rewrite Hr' by done.
      destruct (decide (c ∈ d :: rest)) as [Hin|Hin].
      * destruct (decide (c ∈ idx :: d :: rest)) as [|Hn]; [done|]. exfalso. apply Hn. by right.
      * destruct (decide (c = idx)) as [->|Hne].
        -- destruct (decide (idx ∈ idx :: d :: rest)) as [|Hn]; [done|]. exfalso. apply Hn. by left.
        -- rewrite Ho1 by done. destruct (decide (c ∈ idx :: d :: rest)) as [Hn|]; [|done].
           exfalso. apply elem_of_cons in Hn as [|]; done.
Qed.

(** The state moved on without touching what the guest can see. *)
Record grown (o : Z → region) (f : file) (l1 : list Z) (fs : Z)
             (o' : Z → region) (f' : file) (fs' : Z) : Prop := {
  gr_owned : owned o' f' l1 fs';
  gr_extends : extends o o';
  gr_keeps : keeps mapping o f f';
  gr_fsize : fsize f ≤ fsize f';
  gr_fs : fs ≤ fs';
}.

Lemma grown_trans o f l1 fs o1 f1 fs1 o2 f2 fs2 :
  grown o f l1 fs o1 f1 fs1 → grown o1 f1 l1 fs1 o2 f2 fs2 → grown o f l1 fs o2 f2 fs2.
Proof.
  intros [] []. split; try done; try lia.
  - by eapply extends_trans.
  - eapply keeps_trans; eauto using mapping_not_free.
Qed.

Lemma grown_register o f l1 fs k :
  owned o f l1 fs → fs + cs ≤ 2 ^ 56 → 0 ≤ k < nblocks → blk f k = 0 →
  grown o f l1 fs (upd o (fs / cs) (RRefBlock k)) (register f k fs) (fs + cs).
Proof.
  intros H Hb Hk H0. destruct cs_facts as (? & _).
  destruct (owned_register o f l1 fs k H Hb Hk H0) as (? & ? & ? & ? & _). split; done || lia.
Qed.

(** A new block covers no counted cluster, so registering it loses no count;
    its own cluster is pending. *)
Lemma refs_register o f l1 fs k pend :
  owned o f l1 fs → fs + cs ≤ 2 ^ 56 → 0 ≤ k < nblocks → blk f k = 0 → refs_ok o f pend →
  refs_ok (upd o (fs / cs) (RRefBlock k)) (register f k fs) (fs / cs :: pend).
Proof.
  intros H Hb Hk H0 Hr c Hc H1 H2 H3. apply not_elem_of_cons in H3 as [Hne H3].
  rewrite upd_ne in H1, H2 by done. destruct (Hr c Hc H1 H2 H3) as [Hn Hc1].
  destruct (owned_register o f l1 fs k H Hb Hk H0) as (_ & _ & _ & _ & _ & _ & Hkeep).
  split; [done|]. rewrite Hkeep; [done..|]. intros <-. unfold refcount in Hc1. by rewrite H0 in Hc1.
Qed.

(** What a successful count establishes. *)
Definition counted (o : Z → region) (f : file) (o' : Z → region) (f' : file) (c : Z) : Prop :=
  c / epb < nblocks ∧ refcount f' c = 1 ∧ (refs_ok o f [] → refs_ok o' f' []).

Lemma bump_done o l1 fs ch def fuel idx f :
  owned o f l1 fs → fs + cs ≤ 2 ^ 56 → (length def < fuel)%nat →
  Forall (λ c, 0 ≤ c ∧ c / epb < nblocks ∧ blk f (c / epb) ≠ 0) (idx :: def) →
  ∃ f', bump_loop fuel idx def (mkw f l1 fs ch) = (mkw f' l1 fs ch, Ok tt) ∧
    grown o f l1 fs o f' fs ∧ (refs_ok o f (idx :: def) → refs_ok o f' []) ∧
    (∀ c, c ∈ idx :: def → refcount f' c = 1).
Proof.
  intros H Hfs Hfuel Hall.
  destruct (bump_unwind o l1 fs ch def fuel idx f H Hfs Hfuel Hall) as (f' & Hb & H' & Hk & Hs & Hr).
  rewrite Forall_forall in Hall. setoid_rewrite <- list_elem_of_In in Hall.
  exists f'. split_and!; [done|split; done || lia| |].
  - intros Hrefs c Hc H1 H2 _. destruct (decide (c ∈ idx :: def)) as [Hin|Hin].
    + destruct (Hall c Hin) as (? & ? & _). split; [done|]. rewrite Hr by done.
      by destruct (decide (c ∈ idx :: def)).
    + destruct (Hrefs c Hc H1 H2 Hin) as [? ?]. split; [done|]. rewrite Hr by done.
      by destruct (decide (c ∈ idx :: def)).
  - intros c Hin. destruct (Hall c Hin) as (? & ? & _). rewrite Hr by done.
    by destruct (decide (c ∈ idx :: def)).
Qed.

Lemma refs_ok_weaken o f p p' : (∀ c, c ∈ p → c ∈ p') → refs_ok o f p → refs_ok o f p'.
Proof. intros Hs Hr c ? ? ? Hn. apply Hr; try done. intros Hin. by apply Hn, Hs. Qed.

(** [c] is the cluster just appended; the host file ends right after it. *)
Lemma bump_ok o f l1 fs ch c :
  owned o f l1 fs → fs = (c + 1) * cs → 0 ≤ c → fs + 3 * cs ≤ 2 ^ 56 → o c = RFree →
  ∃ o' f' fs' r, bump_loop bump_fuel c [] (mkw f l1 fs ch) = (mkw f' l1 fs' ch, r) ∧
    grown o f l1 fs o' f' fs' ∧ fs' ≤ fs + 2 * cs ∧ o' c = RFree ∧
    (r = Ok tt ∧ counted o f o' f' c ∨ r = Err ERefcountTableFull).
Proof.
  intros H Hfs Hc Hb Hfree. destruct cs_facts as (Hcsr & _ & He & _).
  assert (Hg0 : grown o f l1 fs o f fs) by (by split).
  destruct (decide (nblocks ≤ c / epb)) as [Hk|Hk].
  { exists o, f, fs, (Err ERefcountTableFull). unfold bump_fuel.
    rewrite (bump_full o f l1 fs ch H) by lia. split_and!; try done; [lia|by right]. }
  destruct (decide (blk f (c / epb) = 0)) as [H0|H0]; cycle 1.
  { destruct (bump_done o l1 fs ch [] bump_fuel c f) as (f' & -> & Hg & Hr & Hc1);
      try done; [lia|simpl; unfold bump_fuel; lia|repeat constructor; done || lia|].
    exists o, f', fs, (Ok tt). split_and!; try done; [lia|]. left. split; [done|]. split_and!; [lia| |].
    - apply Hc1. by left.
    - intros Hrefs. apply Hr. eapply refs_ok_weaken, Hrefs. by inversion 1. }
  assert (Hkr : 0 ≤ c / epb < nblocks) by (split; [apply Z.div_pos; lia|lia]).
  assert (Hm : fs / cs = c + 1) by (rewrite Hfs; apply Z.div_mul; lia).
  pose proof (grown_register o f l1 fs _ H ltac:(lia) Hkr H0) as Hg1.
  pose proof (λ p, refs_register o f l1 fs _ p H ltac:(lia) Hkr H0) as Hr1.
  destruct (owned_register o f l1 fs _ H ltac:(lia) Hkr H0) as (H1 & _ & _ & _ & Hb1 & Hb1' & _).
  set (o1 := upd _ _ _) in *. set (f1 := register _ _ _) in *.
  change bump_fuel with (S 7). rewrite (bump_missing o f l1 fs ch H) by lia. fold f1.
  rewrite Hm in *.
  assert (Ho1c : o1 c = RFree) by (unfold o1; rewrite Hm, upd_ne by lia; done).
  assert (Hdm : (c + 1) / epb = c / epb ∨ (c + 1) / epb = c / epb + 1 ∧ (c + 2) / epb = c / epb + 1).
  { pose proof (Z.div_mod c epb ltac:(lia)). pose proof (Z.mod_pos_bound c epb ltac:(lia)).
    destruct (decide (c mod epb = epb - 1)).
    - right. split; symmetry; [apply Z.div_unique with (r := 0)|apply Z.div_unique with (r := 1)]; lia.
    - left. symmetry. apply Z.div_unique with (r := c mod epb + 1); lia. }
  destruct (decide (nblocks ≤ (c + 1) / epb)) as [Hk2|Hk2].
  { exists o1, f1, (fs + cs), (Err ERefcountTableFull).
    rewrite (bump_full o1 f1 l1 _ ch H1) by lia. split_and!; try done; [lia|by right]. }
  destruct (decide (blk f1 ((c + 1) / epb) = 0)) as [H02|H02]; cycle 1.
  { destruct (bump_done o1 l1 (fs + cs) ch [c] 7 (c + 1) f1) as (f' & -> & Hg & Hr & Hc1);
      try done; [lia|simpl; lia|repeat constructor; try done; try lia; rewrite Hb1; lia|].
    exists o1, f', (fs + cs), (Ok tt). split_and!; try done; [by eapply grown_trans|lia|].
    left. split; [done|]. split_and!; [lia| |].
    - apply Hc1. right. by left.
    - intros Hrefs. apply Hr. eapply refs_ok_weaken, Hr1, Hrefs.
      intros x Hx. apply list_elem_of_singleton in Hx as ->. by left. }
  destruct Hdm as [Heq|[Heq Heq2]]; [exfalso; rewrite Heq, Hb1 in H02; lia|].
  assert (Hkr2 : 0 ≤ (c + 1) / epb < nblocks) by lia.
  assert (Hm2 : (fs + cs) / cs = c + 2) by (rewrite Hfs; replace (_ + _) with ((c + 2) * cs) by lia; apply Z.div_mul; lia).
  pose proof (grown_register o1 f1 l1 _ _ H1 ltac:(lia) Hkr2 H02) as Hg2.
  pose proof (λ p, refs_register o1 f1 l1 _ _ p H1 ltac:(lia) Hkr2 H02) as Hr2.
  destruct (owned_register o1 f1 l1 _ _ H1 ltac:(lia) Hkr2 H02) as (H2 & _ & _ & _ & Hb2 & Hb2' & _).
  set (o2 := upd o1 _ _) in *. set (f2 := register f1 _ _) in *.
  rewrite (bump_missing o1 f1 l1 _ ch H1) by lia. fold f2. rewrite Hm2 in *.
  destruct (bump_done o2 l1 (fs + cs + cs) ch [c + 1; c] 6 (c + 2) f2) as (f' & -> & Hg & Hr & Hc1);
    try done; [lia|simpl; lia| |].
  { repeat constructor; try done; try lia; rewrite ?Heq2, <- ?Heq, ?Hb2, ?Hb2', ?Hb1; try lia. }
  exists o2, f', (fs + cs + cs), (Ok tt). split_and!; try done.
  - eapply grown_trans; [exact Hg1|]. by eapply grown_trans.
  - lia.
  - unfold o2. rewrite Hm2, upd_ne by lia. done.
  - left. split; [done|]. split_and!; [lia| |].
    + apply Hc1. right. right. by left.
    + intros Hrefs. apply Hr. eapply refs_ok_weaken, Hr2, Hr1, Hrefs.
      intros x Hx. set_solver.
Qed.

(** ** [allocCluster] *)

Lemma grown_grow o f l1 fs : owned o f l1 fs → grown o f l1 fs o f (fs + cs).
Proof. intros H. destruct cs_facts as (? & _). split; [by apply owned_grow|done..|lia]. Qed.

Lemma alloc_ok o f l1 fs ch :
  owned o f l1 fs → fs + 4 * cs ≤ 2 ^ 56 →
  ∃ o' f' fs' r, allocCluster (mkw f l1 fs ch) = (mkw f' l1 fs' ch, r) ∧
    grown o f l1 fs o' f' fs' ∧ fs + cs ≤ fs' ≤ fs + 3 * cs ∧ o' (fs / cs) = RFree ∧
    (r = Ok fs ∧ counted o f o' f' (fs / cs) ∨ r = Err ERefcountTableFull).
Proof.
  intros H Hb. destruct cs_facts as (Hcsr & _ & He & _).
  pose proof (owned_pos _ _ _ _ H) as Hpos. pose proof (ow_align _ _ _ _ H) as Hal.
  pose proof (fs_cluster fs Hal) as Hfs. pose proof (owned_grow _ _ _ _ H) as H1.
  assert (Hfree : o (fs / cs) = RFree) by (apply H; lia).
  unfold allocCluster. simpl w_fileSize. simpl q_clusterSize. simpl q_clusterBits.
  rewrite Hal. simpl negb. cbv iota. unfold gbind at 1, gput. rewrite grow_mkw by lia.
  rewrite shiftr_bits. unfold gbind, bumpRefcount.
  destruct (maxBlocks_mkw o f l1 (fs + cs) ch H1) as [-> _].
  change (entriesPerBlock _) with epb.
  destruct (negb (nblocks =? 0) && (nblocks <=? fs / cs / epb)).
  { exists o, f, (fs + cs), (Err ERefcountTableFull).
    split_and!; try done; [by apply grown_grow|lia..|by right]. }
  destruct (bump_ok o f l1 (fs + cs) ch (fs / cs) H1) as (o' & f' & fs' & r & -> & Hg & Hle & Ho & Hr);
    [lia|apply Z.div_pos; lia|lia|done|].
  exists o', f', fs', (match r with Ok _ => Ok fs | Err e => Err e end).
  split_and!; try done; [by destruct r| | |lia|].
  - eapply grown_trans; [by apply grown_grow|done].
  - destruct Hg. lia.
  - destruct Hr as [[-> ?]| ->]; auto.
Qed.

(** ** Giving an owner to a fresh cluster *)

Lemma owned_claim o f l1 fs c r :
  owned o f l1 fs → o c = RFree → (c + 1) * cs ≤ fs → owned (upd o c r) f l1 fs.
Proof.
  intros H Hc Hle. destruct cs_facts as (? & _).
  apply (owned_frame o _ f f l1 fs fs); try done; [by apply extends_upd|split; [lia|apply H]|apply H|].
  intros x Hx. rewrite upd_ne by (intros ->; lia). by apply H.
Qed.

Lemma refs_claim o f c r :
  refs_ok o f [] → c / epb < nblocks → refcount f c = 1 → refs_ok (upd o c r) f [].
Proof.
  intros Hr Hc H1 x Hx Hf Hs _. destruct (decide (x = c)) as [->|Hne]; [done|].
  rewrite upd_ne in Hf, Hs by done. apply Hr; try done. apply not_elem_of_nil.
Qed.

Lemma cluster_of_byte c i : c * cs ≤ i < (c + 1) * cs → i / cs = c.
Proof. intros. symmetry. apply Z.div_unique with (r := i - c * cs); lia. Qed.

Lemma own_pos o f l1 fs c r : owned o f l1 fs → o c = r → r ≠ RHeader → r ≠ RFree → 0 ≤ c → 0 < c.
Proof. intros H Hc H1 H2 H0. destruct (decide (c = 0)) as [->|]; [|lia]. rewrite (ow_hdr _ _ _ _ H) in Hc. congruence. Qed.

(** ** Linking a new L2 table *)

Section Link.
Context (o : Z → region) (f : file) (l1 : list Z) (fs k c : Z).
Hypothesis H : owned o f l1 fs.
Hypothesis Hk : 0 ≤ k < zlen l1.
Hypothesis Hk0 : loff l1 k = 0.
Hypothesis Hc : o c = RL2 k.
Hypothesis Hcr : 0 ≤ c ∧ c * cs < 2 ^ 56 ∧ (c + 1) * cs ≤ fsize f.
Hypothesis Hzero : ∀ i, c * cs ≤ i < (c + 1) * cs → fbyte f i = 0.

Let v := Z.lor (c * cs) oflagCopied.
Let f' := fwrite f (h_l1Offset hdr + k * 8) (be_encode 8 v).
Let l1' := zset l1 k v.

Lemma link_value : Z.land v l1eOffsetMask = c * cs ∧ 0 ≤ v < 2 ^ 64.
Proof.
  destruct cs_facts as (? & _).
  destruct (copied_entry (c * cs)) as (? & _ & _ & _ & ?); [lia| |done].
  apply aligned_512, Z.mod_mul. lia.
Qed.

Lemma link_keeps (P : region → Prop) : ¬ P RL1 → keeps P o f f'.
Proof.
  intros HP. destruct cs_facts as (? & _ & _ & Hm8 & _).
  destruct (ow_l1off _ _ _ _ H) as [Ha _]. destruct (ow_l1 _ _ _ _ H k Hk) as (Ho & _ & _).
  destruct (within_mul cs 8 (h_l1Offset hdr) k ltac:(lia) Hm8 ltac:(lia) Ha) as [_ Hw].
  pose proof (Z.div_mod (h_l1Offset hdr + k * 8) cs ltac:(lia)).
  pose proof (Z.mod_pos_bound (h_l1Offset hdr + k * 8) cs ltac:(lia)).
  apply (keeps_write P o f _ _ ((h_l1Offset hdr + k * 8) / cs));
    rewrite ?zlen_be_encode, ?Ho; simpl; done || lia.
Qed.

Lemma link_fsize : fsize f' = fsize f.
Proof.
  destruct (ow_l1 _ _ _ _ H k Hk) as (_ & Hf & _). unfold f'.
  rewrite fsize_fwrite, zlen_be_encode. simpl. lia.
Qed.

Lemma link_loff j : 0 ≤ j → loff l1' j = if j =? k then c * cs else loff l1 j.
Proof.
  intros Hj. unfold loff, l1'. rewrite zget_zset by done.
  destruct (Z.eqb_spec j k); [apply link_value|done].
Qed.

Lemma link_gentry ci :
  0 ≤ ci → ci * cs < h_size hdr → gentry f' l1' ci = gentry f l1 ci.
Proof.
  intros Hci Hs. destruct cs_facts as (? & H8 & _). destruct (table_index o f l1 fs H ci Hci Hs) as [Hj Hi].
  unfold gentry, guest_entry. simpl.
  change (l1_off (mkq f' l1' 0)) with (loff l1'). change (l1_off (mkq f l1 0)) with (loff l1).
  rewrite link_loff by lia. destruct (Z.eqb_spec (ci / (cs / 8)) k) as [->|Hne].
  - rewrite Hk0. simpl. destruct (Z.eqb_spec (c * cs) 0) as [|_]; [done|].
    unfold entry_at. replace (fread _ _ 8) with (replicate 8 0); [done|].
    symmetry. change (replicate 8 0) with (map (λ _ : Z, 0) (seqZ (c * cs + ci mod (cs / 8) * 8) 8)).
    apply map_seqZ_ext. intros i Hi8.
    rewrite (link_keeps is_l2) by (try (rewrite (cluster_of_byte c) by lia; by rewrite Hc); by intros []).
    apply Hzero. lia.
  - destruct (Z.eqb_spec (loff l1 (ci / (cs / 8))) 0) as [|Hn0]; [done|].
    apply (entry_keeps o f f' l1 fs); try done. apply link_keeps. by intros [].
Qed.

Lemma link_l1 j : 0 ≤ j < zlen l1 → l1_disk f' j = zget 0 l1' j.
Proof.
  intros Hj. unfold l1'. rewrite zget_zset by lia. destruct (Z.eqb_spec j k) as [->|Hne].
  - unfold l1_disk. replace 8 with (zlen (be_encode 8 v)) at 2 by done.
    unfold f'. rewrite fread_fwrite_same. apply be64_decode_encode, link_value.
  - destruct (ow_l1 _ _ _ _ H j Hj) as (_ & _ & <-). unfold l1_disk, f'. f_equal.
    apply fread_fwrite_disj. rewrite zlen_be_encode. lia.
Qed.

Lemma owned_link : owned o f' l1' fs.
Proof.
  destruct cs_facts as (Hcsr & _).
  assert (Hlen : zlen l1' = zlen l1) by apply zlen_zset.
  assert (Hr : keeps refs o f f') by (apply link_keeps; by intros []).
  split; rewrite ?link_fsize, ?Hlen; try apply H.
  - intros j Hj. destruct (ow_l1 _ _ _ _ H j Hj) as (? & ? & _). split_and!; try done. by apply link_l1.
  - intros j Hj. rewrite link_loff by lia. destruct (Z.eqb_spec j k) as [->|]; [|by apply H].
    intros _. rewrite Z.mod_mul, Z.div_mul by lia. split_and!; [done..|lia].
  - intros j Hj. unfold blk. rewrite (reft_keeps o f f' l1 fs) by done. by apply H.
  - intros ci Hci Hs. rewrite link_gentry by done. by apply H.
Qed.
End Link.

(** ** Writing an L2 entry *)

(** [e] may be the entry of guest cluster [ci]. *)
Definition entry_fine (o : Z → region) (f : file) (ci e : Z) : Prop :=
  0 ≤ e < 2 ^ 64 ∧ has_flag e oflagCompressed = false ∧
  (has_flag e oflagZero = false → Z.land e l2eOffsetMask ≠ 0 →
   let h := Z.land e l2eOffsetMask in
   h mod cs = 0 ∧ h + cs ≤ fsize f ∧
   o (h / cs) = if has_flag e oflagCopied then RData ci else RShared).

Section SetEntry.
Context (o : Z → region) (f : file) (l1 : list Z) (fs ci e : Z).
Hypothesis H : owned o f l1 fs.
Hypothesis Hci : 0 ≤ ci.
Hypothesis Hs : ci * cs < h_size hdr.
Let k := ci / (cs / 8).
Hypothesis Hk0 : loff l1 k ≠ 0.
Hypothesis He : entry_fine o f ci e.
Let a := loff l1 k + ci mod (cs / 8) * 8.
Let f' := fwrite f a (be_encode 8 e).

Lemma set_facts :
  (0 ≤ k < zlen l1) ∧ loff l1 k / cs * cs ≤ a ∧ a + 8 ≤ (loff l1 k / cs + 1) * cs ∧
  a + 8 ≤ fsize f ∧ o (loff l1 k / cs) = RL2 k ∧ 0 ≤ loff l1 k ∧ 0 ≤ a < 2 ^ 57.
Proof.
  destruct cs_facts as (? & H8 & _). destruct (table_index o f l1 fs H ci Hci Hs) as [Hk Hi].
  destruct (ow_l2 _ _ _ _ H k Hk Hk0) as (Ha & Ho & Hf). pose proof (fs_cluster _ Ha).
  pose proof (offset_range (zget 0 l1 k)) as Hr. change (Z.land (zget 0 l1 k) _) with (loff l1 k) in Hr.
  unfold a. split_and!; try done; lia.
Qed.

Lemma set_keeps (P : region → Prop) : ¬ P (RL2 k) → keeps P o f f'.
Proof.
  intros HP. destruct set_facts as (_ & Ha1 & Ha2 & _ & Ho & _).
  apply (keeps_write P o f _ _ (loff l1 k / cs)); rewrite ?zlen_be_encode, ?Ho; done.
Qed.

Lemma set_fsize : fsize f' = fsize f.
Proof.
  destruct set_facts as (_ & _ & _ & Hf & _). unfold f'.
  rewrite fsize_fwrite, zlen_be_encode. simpl. lia.
Qed.

Lemma set_entry j idx :
  0 ≤ j < zlen l1 → loff l1 j ≠ 0 → 0 ≤ idx < cs / 8 →
  entry_at f' (loff l1 j) idx =
    if (j =? k) && (idx =? ci mod (cs / 8)) then e else entry_at f (loff l1 j) idx.
Proof.
  intros Hj Hj0 Hi. destruct cs_facts as (? & H8 & _ & Hm8 & _).
  destruct (Z.eqb_spec j k) as [->|Hne]; simpl; cycle 1.
  { destruct (ow_l2 _ _ _ _ H j Hj Hj0) as (Ha & How & _). pose proof (fs_cluster _ Ha).
    unfold entry_at. f_equal. apply (fread_same cs); [lia|apply within_mul; lia|].
    intros i Hin. apply (set_keeps (λ r, r = RL2 j)); [intros [=]; lia|].
    rewrite Hin, (cluster_of_byte (loff l1 j / cs)); [done|lia]. }
  unfold entry_at. destruct (Z.eqb_spec idx (ci mod (cs / 8))) as [->|Hne].
  - replace 8 with (zlen (be_encode 8 e)) at 3 by done. fold a. unfold f'.
    rewrite fread_fwrite_same. apply be64_decode_encode, He.
  - unfold f'. rewrite fread_fwrite_disj; [done|]. rewrite zlen_be_encode. unfold a. lia.
Qed.
Lemma set_gentry cj :
  0 ≤ cj → cj * cs < h_size hdr →
  gentry f' l1 cj = if cj =? ci then e else gentry f l1 cj.
Proof.
  intros Hcj Hsj. destruct (table_index o f l1 fs H cj Hcj Hsj) as [Hj Hi].
  destruct cs_facts as (? & H8 & _).
  unfold gentry, guest_entry. simpl.
  change (l1_off (mkq f' l1 0)) with (loff l1). change (l1_off (mkq f l1 0)) with (loff l1).
  pose proof (Z.div_mod cj (cs / 8) ltac:(lia)). pose proof (Z.div_mod ci (cs / 8) ltac:(lia)).
  destruct (Z.eqb_spec (loff l1 (cj / (cs / 8))) 0) as [E0|E0].
  { destruct (Z.eqb_spec cj ci) as [->|]; [by destruct Hk0|done]. }
  rewrite set_entry by done. unfold k.
  destruct (Z.eqb_spec cj ci) as [->|Hne]; [by rewrite !Z.eqb_refl|].
  destruct (Z.eqb_spec (cj / (cs / 8)) (ci / (cs / 8))) as [Ek|], (Z.eqb_spec (cj mod (cs / 8)) (ci mod (cs / 8))) as [Em|];
    simpl; try done. exfalso. apply Hne. rewrite Ek, Em in *. lia.
Qed.

Lemma owned_set_entry : owned o f' l1 fs.
Proof.
  assert (Hr : keeps refs o f f') by (apply set_keeps; by intros []).
  split; rewrite ?set_fsize; try apply H.
  - intros j Hj. destruct (ow_l1 _ _ _ _ H j Hj) as (? & ? & <-). split_and!; try done.
    unfold l1_disk. f_equal. destruct cs_facts as (? & _ & _ & Hm8 & _).
    apply (fread_same cs); [lia|apply within_mul; lia || apply H|].
    intros i Hi. apply (set_keeps (λ r, r = RL1)); [done|]. by rewrite Hi.
  - intros j Hj. unfold blk. rewrite (reft_keeps o f f' l1 fs) by done. by apply H.
  - intros cj Hcj Hsj. rewrite set_gentry by done. destruct (Z.eqb_spec cj ci) as [->|]; [|by apply H].
    split; apply He.
Qed.

(** Only the cluster whose entry was written looks different. *)
Lemma set_view i : 0 ≤ i → i / cs ≠ ci → view f' l1 i = view f l1 i.
Proof.
  intros Hi Hne. destruct cs_facts as (? & _). unfold view. simpl.
  change (extent (mkq f' l1 0)) with (extent (mkq f l1 0)).
  destruct (Z.leb_spec (extent (mkq f l1 0)) i) as [|Hext]; [done|].
  destruct (below_extent cs (h_size hdr) i) as [Hic His]; [lia..|exact Hext|].
  unfold mapped_byte. simpl. fold (gentry f' l1 (i / cs)) (gentry f l1 (i / cs)).
  rewrite set_gentry by done. destruct (Z.eqb_spec (i / cs) ci) as [|_]; [done|].
  destruct (has_flag (gentry f l1 (i / cs)) oflagZero) eqn:Ez; [done|].
  destruct (Z.eqb_spec (Z.land (gentry f l1 (i / cs)) l2eOffsetMask) 0) as [|Hn0]; [done|].
  destruct (ow_data _ _ _ _ H (i / cs)) as [_ Hd]; [lia..|].
  destruct (Hd Ez Hn0) as (Ha & _ & How). apply (set_keeps is_data); [by intros []|].
  pose proof (fs_cluster _ Ha). pose proof (Z.mod_pos_bound i cs ltac:(lia)).
  rewrite (cluster_of_byte (Z.land (gentry f l1 (i / cs)) l2eOffsetMask / cs)) by lia.
  rewrite How. by destruct (has_flag (gentry f l1 (i / cs)) oflagCopied).
Qed.

(** A mapped cluster shows the host cluster. *)
Lemma set_view_mapped i :
  0 ≤ i < h_size hdr → i / cs = ci → has_flag e oflagZero = false →
  Z.land e l2eOffsetMask ≠ 0 →
  view f' l1 i = fbyte f (Z.land e l2eOffsetMask + i mod cs).
Proof.
  intros Hi Hic Hz He0. destruct cs_facts as (? & _). destruct He as (_ & _ & Hd).
  destruct (Hd Hz He0) as (Ha & _ & How). unfold view. simpl.
  pose proof (cdiv_bounds (h_size hdr) cs ltac:(lia)) as Hb.
  change (extent (mkq f' l1 0)) with (cdiv (h_size hdr) cs * cs).
  destruct (Z.leb_spec (cdiv (h_size hdr) cs * cs) i) as [|_]; [lia|].
  unfold mapped_byte. simpl. fold (gentry f' l1 (i / cs)).
  rewrite Hic, set_gentry, Z.eqb_refl, Hz by done.
  destruct (Z.eqb_spec (Z.land e l2eOffsetMask) 0) as [|_]; [done|].
  apply (set_keeps is_data); [by intros []|].
  pose proof (fs_cluster _ Ha). pose proof (Z.mod_pos_bound i cs ltac:(lia)).
  rewrite (cluster_of_byte (Z.land e l2eOffsetMask / cs)) by lia.
  rewrite How. by destruct (has_flag e oflagCopied).
Qed.
End SetEntry.

(** ** Steps that do not change the guest view *)

Definition cached (f : file) (l1 : list Z) (c : l2state) : Prop := cache_ok (mkq f l1 0) c.

Record evolves (o : Z → region) (f : file) (l1 : list Z) (fs : Z)
               (o' : Z → region) (f' : file) (l1' : list Z) (fs' : Z) : Prop := {
  ev_owned : owned o' f' l1' fs';
  ev_extends : extends o o';
  ev_keeps : keeps is_data o f f';
  ev_entries : ∀ ci, 0 ≤ ci → ci * cs < h_size hdr → gentry f' l1' ci = gentry f l1 ci;
  ev_len : zlen l1' = zlen l1;
  ev_fsize : fsize f ≤ fsize f';
  ev_fs : fs ≤ fs';
  ev_cache : ∀ c, cached f l1 c → cached f' l1' c;
}.

Lemma is_data_not_free r : is_data r → r ≠ RFree.
Proof. by destruct r. Qed.

Lemma evolves_refl o f l1 fs : owned o f l1 fs → evolves o f l1 fs o f l1 fs.
Proof. intros H. by split. Qed.

Lemma evolves_trans o f l1 fs o1 f1 l11 fs1 o2 f2 l12 fs2 :
  evolves o f l1 fs o1 f1 l11 fs1 → evolves o1 f1 l11 fs1 o2 f2 l12 fs2 →
  evolves o f l1 fs o2 f2 l12 fs2.
Proof.
  intros [_ E1 K1 G1 L1 S1 F1 C1] [H2 E2 K2 G2 L2 S2 F2 C2].
  split; try done; try lia; try congruence.
  - by eapply extends_trans.
  - eapply keeps_trans; eauto using is_data_not_free.
  - intros ci Hci Hs. by rewrite G2, G1.
  - eauto.
Qed.

Lemma evolves_view o f l1 fs o' f' l1' fs' i :
  owned o f l1 fs → evolves o f l1 fs o' f' l1' fs' → 0 ≤ i → view f' l1' i = view f l1 i.
Proof. intros H [] Hi. by apply (view_entries o f f' l1 fs). Qed.

Lemma cached_ext f f' l1 l1' c :
  (∀ j, 0 ≤ j < zlen l1 → loff l1 j ≠ 0 → loff l1' j = loff l1 j) → zlen l1' = zlen l1 →
  (∀ j idx, 0 ≤ j < zlen l1 → loff l1 j ≠ 0 → 0 ≤ idx < cs / 8 →
     entry_at f' (loff l1 j) idx = entry_at f (loff l1 j) idx) →
  cached f l1 c → cached f' l1' c.
Proof.
  intros Hl Hlen He Hc off tbl Hin. destruct cs_facts as (? & H8 & _).
  destruct (Hc off tbl Hin) as (-> & j & Hj & -> & Hj0). simpl in *. change (l1_off (mkq f l1 0) j) with (loff l1 j) in *.
  split; [|exists j; rewrite Hlen; change (l1_off _ j) with (loff l1' j); by rewrite Hl].
  apply map_seqZ_ext. intros idx Hidx. unfold be_at. rewrite H8, !zslice_fread by lia.
  specialize (He j idx Hj Hj0 ltac:(lia)). unfold entry_at in He.
  replace (8 * (cs / 8)) with cs by lia. replace (idx * 8 + 8 - idx * 8) with 8 by lia. done.
Qed.

Lemma grown_evolves o f l1 fs o' f' fs' :
  owned o f l1 fs → grown o f l1 fs o' f' fs' → evolves o f l1 fs o' f' l1 fs'.
Proof.
  intros H [H' He Hk Hs Hfs].
  assert (keeps is_l2 o f f') by (eapply keeps_sub, Hk; by intros []).
  split; try done.
  - eapply keeps_sub, Hk. by intros [].
  - intros. by apply (gentry_l2 o f f' l1 fs).
  - intros c. apply cached_ext; [done..|]. intros. by apply (entry_keeps o f f' l1 fs).
Qed.

Lemma claim_evolves o f l1 fs c r :
  owned o f l1 fs → o c = RFree → (c + 1) * cs ≤ fs → evolves o f l1 fs (upd o c r) f l1 fs.
Proof. intros. split; try done; [by apply owned_claim|by apply extends_upd]. Qed.

Lemma write_free_evolves o f l1 fs c off d :
  owned o f l1 fs → o c = RFree → c * cs ≤ off → off + zlen d ≤ (c + 1) * cs →
  (c + 1) * cs ≤ fs → evolves o f l1 fs o (fwrite f off d) l1 fs.
Proof.
  intros H Hc H1 H2 H3. destruct (owned_write_free o f l1 fs c off d) as (? & ? & ?); try done.
  apply grown_evolves; [done|]. split; try done. apply fsize_fwrite_mono.
Qed.

Lemma link_evolves o f l1 fs k c :
  owned o f l1 fs → 0 ≤ k < zlen l1 → loff l1 k = 0 → o c = RL2 k →
  0 ≤ c ∧ c * cs < 2 ^ 56 ∧ (c + 1) * cs ≤ fsize f →
  (∀ i, c * cs ≤ i < (c + 1) * cs → fbyte f i = 0) →
  let v := Z.lor (c * cs) oflagCopied in
  evolves o f l1 fs o (fwrite f (h_l1Offset hdr + k * 8) (be_encode 8 v)) (zset l1 k v) fs.
Proof.
  intros H Hk Hk0 Hc Hcr Hz v.
  assert (Hk2 : keeps is_l2 o f (fwrite f (h_l1Offset hdr + k * 8) (be_encode 8 v))).
  { apply (link_keeps o f l1 fs k c H Hk). by intros []. }
  split; try done.
  - by apply owned_link.
  - apply (link_keeps o f l1 fs k c H Hk). by intros [].
  - intros. by apply (link_gentry o f l1 fs k c).
  - apply zlen_zset.
  - apply fsize_fwrite_mono.
  - intros ch. apply cached_ext.
    + intros j Hj Hj0. rewrite (link_loff f l1 k c Hk Hcr) by lia. by destruct (Z.eqb_spec j k) as [->|].
    + apply zlen_zset.
    + intros. by apply (entry_keeps o f _ l1 fs).
Qed.

(** ** Operations *)

Lemma alloc_evolves o f l1 fs ch :
  owned o f l1 fs → fs + 4 * cs ≤ 2 ^ 56 →
  ∃ o' f' fs' r, allocCluster (mkw f l1 fs ch) = (mkw f' l1 fs' ch, r) ∧
    evolves o f l1 fs o' f' l1 fs' ∧ fs + cs ≤ fs' ≤ fs + 3 * cs ∧ o' (fs / cs) = RFree ∧
    (r = Ok fs ∧ counted o f o' f' (fs / cs) ∨ r = Err ERefcountTableFull).
Proof.
  intros H Hb. destruct (alloc_ok o f l1 fs ch H Hb) as (o' & f' & fs' & r & Ha & Hg & Hr).
  exists o', f', fs', r. split_and!; try apply Hr; [done|by apply grown_evolves].
Qed.

(** A fresh cluster is claimed for region [r] and filled with [d]. *)
Lemma claim_fill o f l1 fs o' f' fs' r d :
  owned o f l1 fs → evolves o f l1 fs o' f' l1 fs' → fs + cs ≤ fs' → o' (fs / cs) = RFree →
  zlen d = cs →
  let o2 := upd o' (fs / cs) r in
  evolves o f l1 fs o2 (fwrite f' fs d) l1 fs' ∧
  (∀ i, fs ≤ i < fs + cs → fbyte (fwrite f' fs d) i = zget 0 d (i - fs)) ∧
  fs + cs ≤ fsize (fwrite f' fs d) ∧
  (counted o f o' f' (fs / cs) → refs_ok o f [] → refs_ok o2 (fwrite f' fs d) []).
Proof.
  intros H He Hfs Hfree Hd o2. pose proof (ev_owned _ _ _ _ _ _ _ _ He) as H'.
  destruct cs_facts as (? & _). pose proof (fs_cluster fs (ow_align _ _ _ _ H)) as Hal.
  destruct (owned_write_free o' f' l1 fs' (fs / cs) fs d) as (H1 & _ & Hk1); try done; try lia.
  split_and!.
  - eapply evolves_trans; [exact He|]. eapply evolves_trans; [|by apply claim_evolves; [exact H1|..|lia]].
    eapply write_free_evolves with (c := fs / cs); try done; lia.
  - intros i Hi. rewrite fbyte_fwrite. destruct (Z.leb_spec fs i), (Z.ltb_spec i (fs + zlen d)); try lia. done.
  - rewrite fsize_fwrite. destruct (Z.eqb_spec (zlen d) 0); lia.
  - intros (Hc1 & Hc2 & Hc3) Hrefs. apply refs_claim; [|done|].
    + by eapply refs_frame; [exact H'|..|apply Hc3].
    + rewrite (refcount_keeps o' f' _ l1 fs'); try done. apply Z.div_pos; [|lia].
      pose proof (owned_pos _ _ _ _ H). lia.
Qed.

Lemma ensure_l2_ok o f l1 fs ch k :
  owned o f l1 fs → 0 ≤ k < zlen l1 → fs + 4 * cs ≤ 2 ^ 56 →
  ∃ o' f' l1' fs' r, ensure_l2 k (mkw f l1 fs ch) = (mkw f' l1' fs' ch, r) ∧
    evolves o f l1 fs o' f' l1' fs' ∧ fs' ≤ fs + 3 * cs ∧
    (r = Ok (loff l1' k) ∧ loff l1' k ≠ 0 ∧ (refs_ok o f [] → refs_ok o' f' []) ∨
     r = Err ERefcountTableFull).
Proof.
  intros H Hk Hb. destruct cs_facts as (? & _). unfold ensure_l2.
  change (Z.land (zget 0 (q_l1 (w_q (mkw f l1 fs ch))) k) l1eOffsetMask) with (loff l1 k).
  destruct (Z.eqb_spec (loff l1 k) 0) as [Hk0|Hk0]; cycle 1.
  { exists o, f, l1, fs, (Ok (loff l1 k)). split_and!; [done|by apply evolves_refl|lia|by left]. }
  destruct (alloc_evolves o f l1 fs ch H Hb) as (o1 & f1 & fs1 & r & Ha & He & Hle & Hfree & Hr).
  destruct Hr as [[-> Hcnt]| ->]; cycle 1.
  { rewrite (gbind_run_err _ _ _ _ _ Ha). exists o1, f1, l1, fs1. eexists.
    split_and!; [done|done|lia|by right]. }
  rewrite (gbind_run _ _ _ _ _ Ha). pose proof (owned_pos _ _ _ _ H).
  pose proof (fs_cluster fs (ow_align _ _ _ _ H)) as Hal.
  simpl q_clusterSize. fold zeros. unfold gbind at 1. rewrite f_WriteAt_mkw by lia.
  destruct (claim_fill o f l1 fs o1 f1 fs1 (RL2 k) zeros H He) as (He2 & Hz & Hsz & Hrefs);
    [lia|done|apply zlen_zeros|].
  set (o2 := upd o1 _ _) in *. set (f2 := fwrite f1 fs zeros) in *.
  destruct (ow_l1off _ _ _ _ H) as [_ Hl1].
  destruct (ow_l1 _ _ _ _ H k Hk) as (_ & Hl1f & _). pose proof (ow_fs _ _ _ _ H).
  unfold gbind at 1. simpl q_hdr. rewrite u64_id, f_WriteAt_mkw by lia. unfold gbind, gput, gret.
  pose proof (ev_owned _ _ _ _ _ _ _ _ He2) as HO2.
  assert (Hlk : evolves o2 f2 l1 fs1 o2 (fwrite f2 (h_l1Offset hdr + k * 8)
                  (be_encode 8 (Z.lor fs oflagCopied))) (zset l1 k (Z.lor fs oflagCopied)) fs1).
  { rewrite Hal. apply link_evolves; try done; [apply upd_eq|split_and!; [apply Z.div_pos; lia|lia|lia]|].
    intros i Hi. rewrite Hz by lia. apply zget_replicate. }
  assert (Hoff : loff (zset l1 k (Z.lor fs oflagCopied)) k = fs).
  { unfold loff. rewrite zget_zset, Z.eqb_refl by lia.
    apply copied_entry; [lia|]. by apply aligned_512, (ow_align _ _ _ _ H). }
  eexists o2, _, (zset l1 k (Z.lor fs oflagCopied)), fs1, (Ok fs). split_and!.
  - done.
  - by eapply evolves_trans.
  - lia.
  - left. rewrite Hoff. split_and!; [done|lia|]. intros Hr0.
    pose proof (link_keeps o2 f2 l1 fs1 k (fs / cs) HO2 Hk refs ltac:(by intros [])) as Hkr.
    rewrite <- Hal in Hkr. eapply refs_frame; [exact HO2|exact Hkr|by apply Hrefs].
Qed.

(** The write-through of [updateL2Cache] keeps the cache coherent. *)
Lemma cached_set o f l1 fs ci e c :
  owned o f l1 fs → 0 ≤ ci → ci * cs < h_size hdr → loff l1 (ci / (cs / 8)) ≠ 0 →
  entry_fine o f ci e → cached f l1 c →
  let a := loff l1 (ci / (cs / 8)) in
  cached (fwrite f (a + ci mod (cs / 8) * 8) (be_encode 8 e)) l1
         (updateL2Cache c a (ci mod (cs / 8)) e).
Proof.
  intros H Hci Hs Hk0 He Hc a. destruct cs_facts as (Hcsr & H8 & _).
  destruct (table_index o f l1 fs H ci Hci Hs) as [Hk Hi].
  pose proof (set_entry o f l1 fs ci e H Hci Hs Hk0 He) as Hset. fold a in Hset.
  set (f' := fwrite _ _ _) in *.
  assert (Hsame : ∀ off tbl, l2cache c !! off = Some tbl → off ≠ a →
            tbl = decode_table (cs / 8) (fread f' off cs) ∧ ∃ j, 0 ≤ j < zlen l1 ∧ off = loff l1 j ∧ off ≠ 0).
  { intros off tbl Hin Hne. destruct (Hc off tbl Hin) as (-> & j & Hj & -> & Hj0).
    change (l1_off (mkq f l1 0) j) with (loff l1 j) in *. split; [|by exists j].
    apply map_seqZ_ext. intros idx Hidx. simpl. unfold be_at. rewrite H8, !zslice_fread by lia.
    specialize (Hset j idx Hj Hj0 ltac:(lia)). destruct (Z.eqb_spec j (ci / (cs / 8))) as [->|]; [done|].
    simpl in Hset. unfold entry_at in Hset.
    replace (8 * (cs / 8)) with cs by lia. replace (idx * 8 + 8 - idx * 8) with 8 by lia. done. }
  unfold updateL2Cache. destruct (l2cache c !! a) as [tbl|] eqn:Ea; cycle 1.
  { intros off tbl Hin. apply Hsame; [done|]. intros ->. congruence. }
  intros off t. simpl. destruct (decide (off = a)) as [->|Hne]; cycle 1.
  { rewrite lookup_insert_ne by done. intros Hin. by apply Hsame. }
  rewrite lookup_insert_eq. intros [= <-]. split; [|by exists (ci / (cs / 8))].
  destruct (Hc a tbl Ea) as (-> & _). simpl.
  assert (Hlen : ∀ g, zlen (decode_table (cs / 8) (fread g a cs)) = cs / 8).
  { intros g. unfold decode_table. rewrite zlen_map, zlen_seqZ; lia. }
  apply (zget_eq 0); rewrite zlen_zset, Hlen; [by rewrite Hlen|].
  intros idx Hidx. rewrite zget_zset by (rewrite ?Hlen; lia).
  assert (Hget : ∀ g, zget 0 (decode_table (cs / 8) (fread g a cs)) idx = entry_at g a idx).
  { intros g. rewrite H8 at 2. by apply decode_table_get. }
  pose proof (Hset (ci / (cs / 8)) idx Hk Hk0 Hidx) as He'. fold a in He'.
  rewrite Z.eqb_refl in He'. by rewrite !Hget, He'.
Qed.

(** What writing an entry leaves: the mapped cluster shows its host cluster,
    the rest of the disk is unchanged. *)
Definition shows (f : file) (l1 : list Z) (ci h : Z) (f' : file) (l1' : list Z) : Prop :=
  ∀ i, 0 ≤ i < h_size hdr →
    view f' l1' i = if i / cs =? ci then fbyte f (h + i mod cs) else view f l1 i.

Lemma setL2Entry_ok o f l1 fs ch ci e :
  owned o f l1 fs → cached f l1 (chead ch) → 0 ≤ ci → ci * cs < h_size hdr →
  fs + 4 * cs ≤ 2 ^ 56 → entry_fine o f ci e →
  has_flag e oflagZero = false → Z.land e l2eOffsetMask ≠ 0 →
  ∃ o' f' l1' fs' ch' r, setL2Entry ci e (mkw f l1 fs ch) = (mkw f' l1' fs' ch', r) ∧
    owned o' f' l1' fs' ∧ extends o o' ∧ cached f' l1' (chead ch') ∧ tail ch' = tail ch ∧
    zlen l1' = zlen l1 ∧ fs ≤ fs' ≤ fs + 3 * cs ∧
    (r = Ok tt ∧ shows f l1 ci (Z.land e l2eOffsetMask) f' l1' ∧
       (refs_ok o f [] → refs_ok o' f' []) ∨
     r = Err ERefcountTableFull ∧ ∀ i, 0 ≤ i → view f' l1' i = view f l1 i).
Proof.
  intros H Hc Hci Hs Hb He Hz Hm. destruct cs_facts as (Hcsr & H8 & _).
  destruct (table_index o f l1 fs H ci Hci Hs) as [Hk Hi].
  unfold setL2Entry. simpl q_clusterSize. simpl q_l1.
  destruct (Z.leb_spec (zlen l1) (ci / (cs / 8))) as [|_]; [lia|].
  destruct (ensure_l2_ok o f l1 fs ch (ci / (cs / 8)) H Hk Hb)
    as (o1 & f1 & l11 & fs1 & r & Hen & Hev & Hle & Hr).
  pose proof (ev_owned _ _ _ _ _ _ _ _ Hev) as H1. pose proof (ev_fs _ _ _ _ _ _ _ _ Hev).
  pose proof (ev_cache _ _ _ _ _ _ _ _ Hev _ Hc) as Hc1.
  destruct Hr as [(-> & Hk0 & Hrefs)| ->]; cycle 1.
  { rewrite (gbind_run_err _ _ _ _ _ Hen). eexists o1, f1, l11, fs1, ch, _.
    split_and!; try done; try lia; [apply Hev..|]. right. split; [done|].
    intros. by eapply evolves_view. }
  rewrite (gbind_run _ _ _ _ _ Hen).
  assert (He1 : entry_fine o1 f1 ci e).
  { destruct He as (? & ? & Hd). split_and!; [lia..|done|]. intros _ _. destruct (Hd Hz Hm) as (? & ? & Ho).
    pose proof (ev_fsize _ _ _ _ _ _ _ _ Hev). split_and!; [done|lia|].
    rewrite (ev_extends _ _ _ _ _ _ _ _ Hev); [done|]. rewrite Ho. by case_if. }
  destruct (set_facts o1 f1 l11 fs1 ci H1 Hci Hs Hk0) as (_ & _ & _ & _ & _ & _ & Ha).
  unfold gbind at 1. rewrite u64_id, f_WriteAt_mkw by lia. unfold gput, set_cached. simpl.
  eexists o1, _, l11, fs1, _, _. split_and!; [reflexivity|..].
  - by apply owned_set_entry.
  - apply Hev.
  - by apply (cached_set o1 f1 l11 fs1).
  - by destruct ch.
  - apply Hev.
  - lia.
  - lia.
  - left. split_and!; [done| |].
    + intros i Hir. destruct (Z.eqb_spec (i / cs) ci) as [Hic|Hic].
      * rewrite (set_view_mapped o1 f1 l11 fs1) by done.
        destruct He as (_ & _ & Hd). destruct (Hd Hz Hm) as (Hal & _ & Ho).
        apply (ev_keeps _ _ _ _ _ _ _ _ Hev). pose proof (fs_cluster _ Hal).
        pose proof (Z.mod_pos_bound i cs ltac:(lia)).
        rewrite (cluster_of_byte (Z.land e l2eOffsetMask / cs)), Ho by lia. by case_if.
      * rewrite (set_view o1 f1 l11 fs1) by (done || lia). eapply evolves_view; done || lia.
    + intros Hr0. eapply refs_frame; [exact H1| |by apply Hrefs].
      apply (set_keeps o1 f1 l11 fs1 ci e H1 Hci Hs Hk0). by intros [].
Qed.

(** ** Data clusters *)

Hypothesis Hbk : match bk with None => True | Some b => chain_ok b ∧ tail_zero b end.

(** Coherence of the caches of the whole chain. *)
Definition coherent (f : file) (l1 : list Z) (ch : caches) : Prop :=
  cached f l1 (chead ch) ∧ lower_ok bk (tail ch).

Lemma coherent_caches f l1 fs ch : coherent f l1 ch ↔ caches_ok (Qcow2 (mkq f l1 fs) bk) ch.
Proof. done. Qed.

Lemma chain_ReadAt_mkw n off f l1 fs ch :
  chain_ReadAt n off (mkw f l1 fs ch) =
    (let '(c, r) := ReadAt (Qcow2 (mkq f l1 fs) bk) ch n off in (mkw f l1 fs c, r)).
Proof. reflexivity. Qed.

Lemma cow_buffer_ok o f l1 fs ch ci :
  owned o f l1 fs → coherent f l1 ch → 0 ≤ ci → ci * cs < h_size hdr →
  ∃ ch' buf, cow_buffer ci (mkw f l1 fs ch) = (mkw f l1 fs ch', Ok buf) ∧
    coherent f l1 ch' ∧ zlen buf = cs ∧
    (∀ j, 0 ≤ j < cs → ci * cs + j < h_size hdr → zget 0 buf j = view f l1 (ci * cs + j)).
Proof.
  intros H Hc Hci Hs. destruct cs_facts as (Hcsr & _).
  assert (Hv : h_size hdr ≤ 2 ^ 44) by (change (2 ^ 44) with maxVirtualSize; lia).
  assert (Hg : chain_ok (Qcow2 (mkq f l1 fs) bk)).
  { split; [by eapply owned_image|]. exact Hbk. }
  unfold cow_buffer. simpl q_clusterSize. simpl q_clusterBits. simpl q_hdr.
  replace (Z.shiftl ci bits) with (ci * cs) by (rewrite Hcs; symmetry; apply Z.shiftl_mul_pow2; lia).
  rewrite !int64_id by lia.
  set (n := if h_size hdr - ci * cs <? cs then _ else _).
  assert (Hn : 0 < n ≤ cs ∧ ci * cs + n ≤ h_size hdr ∧ (n = cs ∨ ci * cs + n = h_size hdr)).
  { unfold n. destruct (Z.ltb_spec (h_size hdr - ci * cs) cs); lia. }
  destruct (Z.ltb_spec 0 n); [|lia].
  destruct (ReadAt_chain _ Hg ch n (ci * cs) Hc) as (ch' & Hrun & Hc' & Ha & _); [lia..|].
  assert (Hav : available (Qcow2 (mkq f l1 fs) bk) n (ci * cs) = n).
  { simpl. unfold read_count. simpl. destruct (Z.leb_spec (h_size hdr) (ci * cs)); [lia|].
    pose proof (extent_bounds (mkq f l1 fs) (geom f l1 fs ltac:(apply H))). simpl in *. lia. }
  rewrite Hav in Hrun. rewrite chain_ReadAt_mkw, Hrun.
  destruct (Z.ltb_spec n n); [lia|].
  set (b := guest_bytes _ _ _).
  assert (Hb : zlen b = n) by (unfold b, guest_bytes; rewrite zlen_map, zlen_seqZ; lia).
  exists ch'. eexists. split_and!; [reflexivity|apply Hc'..| |].
  - rewrite zlen_app, Hb, zlen_replicate. unfold zlen in Hb. lia.
  - intros j Hj Hjs. rewrite zget_app by lia. destruct (Z.ltb_spec j (zlen b)); [|lia].
    unfold b, guest_bytes. rewrite (zget_map 0) by (rewrite zlen_seqZ; lia).
    by rewrite zget_seqZ by lia.
Qed.

(** The test [e & (COPIED|ZERO) == COPIED]. *)
Lemma writable_flags e :
  (Z.land e (Z.lor oflagCopied oflagZero) =? oflagCopied) =
    has_flag e oflagCopied && negb (has_flag e oflagZero).
Proof.
  rewrite has_copied, has_zero.
  assert (Hl : Z.land e (Z.lor oflagCopied oflagZero) =
               Z.lor (if Z.testbit e 63 then oflagCopied else 0) (if Z.testbit e 0 then oflagZero else 0)).
  { rewrite Z.land_lor_distr_r. f_equal.
    - change oflagCopied with (2 ^ 63). rewrite Z.land_comm. apply Z.bits_inj'. intros i Hi.
      rewrite Z.land_spec, Z.pow2_bits_eqb by lia. destruct (Z.eqb_spec 63 i) as [<-|].
      + by destruct (Z.testbit e 63).
      + destruct (Z.testbit e 63); rewrite ?Z.pow2_bits_false by lia; by rewrite ?Z.bits_0.
    - change oflagZero with (2 ^ 0). rewrite Z.land_comm. apply Z.bits_inj'. intros i Hi.
      rewrite Z.land_spec, Z.pow2_bits_eqb by lia. destruct (Z.eqb_spec 0 i) as [<-|].
      + by destruct (Z.testbit e 0).
      + destruct (Z.testbit e 0); rewrite ?Z.pow2_bits_false by lia; by rewrite ?Z.bits_0. }
  rewrite Hl. by destruct (Z.testbit e 63), (Z.testbit e 0).
Qed.

Definition host_of (e : Z) : Z :=
  if has_flag e oflagCopied && negb (has_flag e oflagZero) then Z.land e l2eOffsetMask else 0.

Lemma w_l2EntryAt_mkw a i f l1 fs ch :
  w_l2EntryAt a i (mkw f l1 fs ch) =
    (let '(h, r) := l2EntryAt (mkq f l1 fs) (chead ch) a i in (mkw f l1 fs (h :: tail ch), r)).
Proof.
  unfold w_l2EntryAt, gbind, gget, host_answer, gret. by destruct (l2_reads_host _ _ _ _).
Qed.

Lemma hostOffset_ok o f l1 fs ch ci :
  owned o f l1 fs → coherent f l1 ch → 0 ≤ ci → ci * cs < h_size hdr →
  ∃ ch', hostOffset ci (mkw f l1 fs ch) = (mkw f l1 fs ch', Ok (host_of (gentry f l1 ci))) ∧
    coherent f l1 ch'.
Proof.
  intros H [Hc Hl] Hci Hs. destruct cs_facts as (Hcsr & H8 & _).
  destruct (table_index o f l1 fs H ci Hci Hs) as [Hk Hi].
  destruct (ow_data _ _ _ _ H ci Hci Hs) as [Hcomp _].
  unfold hostOffset, l1Entry. simpl q_clusterSize. simpl q_l1.
  destruct (Z.leb_spec (zlen l1) (ci / (cs / 8))) as [|_]; [lia|].
  fold (loff l1 (ci / (cs / 8))).
  unfold gentry, guest_entry in *. simpl in Hcomp |- *.
  change (l1_off (mkq f l1 0)) with (loff l1) in *.
  destruct (Z.eqb_spec (loff l1 (ci / (cs / 8))) 0) as [E0|E0]; [by exists ch|].
  destruct (ow_l2 _ _ _ _ H _ Hk E0) as (Ha & _ & Hf). pose proof (ow_fs _ _ _ _ H).
  pose proof (offset_range (zget 0 l1 (ci / (cs / 8)))) as Hr.
  change (Z.land (zget 0 l1 _) _) with (loff l1 (ci / (cs / 8))) in Hr.
  destruct (l2EntryAt_ok (mkq f l1 fs) (geom f l1 fs ltac:(apply H)) (chead ch)
    (loff l1 (ci / (cs / 8))) (ci mod (cs / 8)) (ci / (cs / 8))) as (c' & Hrun & Hc');
    try done; simpl; try lia.
  unfold gbind at 1. rewrite w_l2EntryAt_mkw. simpl in Hrun |- *. rewrite Hrun, Hcomp, writable_flags.
  exists (c' :: tail ch). split; [|done]. unfold host_of. by destruct (has_flag _ oflagCopied && _).
Qed.

(** ** One chunk *)

(** The bytes [p] were written at [guest]. *)
Definition written (f : file) (l1 : list Z) (guest : Z) (p : list Z) (f' : file) (l1' : list Z) : Prop :=
  ∀ i, 0 ≤ i < h_size hdr →
    view f' l1' i = if (guest <=? i) && (i <? guest + zlen p) then zget 0 p (i - guest)
                    else view f l1 i.

(** The outcome of a step that writes [p] at [guest]: either it is done, or the
    refcount table is full and the guest sees no change. *)
Definition outcome {A} (o : Z → region) (f : file) (l1 : list Z) (fs guest : Z) (p : list Z)
    (x : qcow2Writable * result cow_err A) : Prop :=
  ∃ o' f' l1' fs' ch' r, x = (mkw f' l1' fs' ch', r) ∧
    owned o' f' l1' fs' ∧ coherent f' l1' ch' ∧ zlen l1' = zlen l1 ∧ fs ≤ fs' ≤ fs + 6 * cs ∧
    ((∃ a, r = Ok a) ∧ written f l1 guest p f' l1' ∧ (refs_ok o f [] → refs_ok o' f' []) ∨
     r = Err ERefcountTableFull ∧ ∀ i, 0 ≤ i → view f' l1' i = view f l1 i).

Lemma chunk_cluster guest n i :
  0 ≤ guest → 0 < n → guest mod cs + n ≤ cs → guest ≤ i < guest + n →
  i / cs = guest / cs ∧ i mod cs = guest mod cs + (i - guest).
Proof. intros. destruct cs_facts as (? & _). apply same_cluster; lia. Qed.

(** The byte of a guest cluster that some write did not touch. *)
Lemma data_byte_keeps o f f' l1 fs i :
  owned o f l1 fs → 0 ≤ i / cs → i / cs * cs < h_size hdr →
  keeps (λ r, r = RData (i / cs) ∨ r = RShared) o f f' →
  (if has_flag (gentry f l1 (i / cs)) oflagZero then 0
   else if Z.land (gentry f l1 (i / cs)) l2eOffsetMask =? 0 then below bk i
   else fbyte f' (Z.land (gentry f l1 (i / cs)) l2eOffsetMask + i mod cs)) =
  (if has_flag (gentry f l1 (i / cs)) oflagZero then 0
   else if Z.land (gentry f l1 (i / cs)) l2eOffsetMask =? 0 then below bk i
   else fbyte f (Z.land (gentry f l1 (i / cs)) l2eOffsetMask + i mod cs)).
Proof.
  intros H Hic His Hk. destruct cs_facts as (? & _).
  destruct (has_flag (gentry f l1 (i / cs)) oflagZero) eqn:Ez; [done|].
  destruct (Z.eqb_spec (Z.land (gentry f l1 (i / cs)) l2eOffsetMask) 0) as [|Hn0]; [done|].
  destruct (ow_data _ _ _ _ H (i / cs)) as [_ Hd]; [lia..|].
  destruct (Hd Ez Hn0) as (Ha & _ & How). apply Hk.
  pose proof (fs_cluster _ Ha). pose proof (Z.mod_pos_bound i cs ltac:(lia)).
  rewrite (cluster_of_byte (Z.land (gentry f l1 (i / cs)) l2eOffsetMask / cs)) by lia.
  rewrite How. case_if; auto.
Qed.

(** In place, into the cluster the image owns. *)
Lemma overwrite_ok o f l1 fs ch guest p :
  owned o f l1 fs → coherent f l1 ch → 0 ≤ guest < h_size hdr → 0 < zlen p →
  guest mod cs + zlen p ≤ cs → host_of (gentry f l1 (guest / cs)) ≠ 0 →
  outcome o f l1 fs guest p
    (f_WriteAt p (u64 (host_of (gentry f l1 (guest / cs)) + guest mod cs)) (mkw f l1 fs ch)).
Proof.
  intros H [Hc Hl] Hg Hp Hfit Hh. destruct cs_facts as (Hcsr & _).
  set (ci := guest / cs) in *. pose proof (Z.mod_pos_bound guest cs ltac:(lia)).
  pose proof (Z.div_mod guest cs ltac:(lia)) as Hdm. fold ci in Hdm.
  assert (Hci : 0 ≤ ci ∧ ci * cs < h_size hdr) by (split; [apply Z.div_pos; lia|lia]).
  unfold host_of in *. destruct (has_flag (gentry f l1 ci) oflagCopied) eqn:Ec; [|done].
  destruct (has_flag (gentry f l1 ci) oflagZero) eqn:Ez; [done|]. simpl in *.
  destruct (ow_data _ _ _ _ H ci) as [_ Hd]; [lia..|]. destruct (Hd Ez Hh) as (Ha & Hf & Ho).
  rewrite Ec in Ho. set (h := Z.land (gentry f l1 ci) l2eOffsetMask) in *.
  pose proof (offset_range (gentry f l1 ci)) as Hr. fold h in Hr. pose proof (fs_cluster _ Ha) as Hal.
  rewrite u64_id, f_WriteAt_mkw by lia. set (f' := fwrite f (h + guest mod cs) p).
  assert (Hk : ∀ P : region → Prop, ¬ P (RData ci) → keeps P o f f').
  { intros P HP. apply (keeps_write P o f _ _ (h / cs)); [lia|lia|by rewrite Ho]. }
  assert (Hsz : fsize f' = fsize f) by (unfold f'; rewrite fsize_fwrite; destruct (Z.eqb_spec (zlen p) 0); lia).
  assert (Hk2 : keeps is_l2 o f f') by (apply Hk; by intros []).
  assert (Hge : ∀ cj, 0 ≤ cj → cj * cs < h_size hdr → gentry f' l1 cj = gentry f l1 cj)
    by (intros; by apply (gentry_l2 o f f' l1 fs)).
  pose proof (ow_fs _ _ _ _ H).
  exists o, f', l1, fs, ch, (Ok tt). split_and!; try done; try lia.
  - apply (owned_frame o o f f' l1 fs fs); try done; try apply H; try (apply Hk; by intros []). lia.
  - split; [|done]. apply (cached_ext f f' l1 l1); [done..| |done].
    intros. by apply (entry_keeps o f f' l1 fs).
  - left. split_and!; [by eexists| |].
    + intros i Hi. unfold view. simpl.
      pose proof (cdiv_bounds (h_size hdr) cs ltac:(lia)) as Hb.
      change (extent (mkq f' l1 0)) with (cdiv (h_size hdr) cs * cs).
      change (extent (mkq f l1 0)) with (cdiv (h_size hdr) cs * cs).
      destruct (Z.leb_spec (cdiv (h_size hdr) cs * cs) i) as [|_]; [lia|].
      destruct (below_extent cs (h_size hdr) i) as [Hic His]; [lia..|].
      unfold mapped_byte. simpl. fold (gentry f' l1 (i / cs)) (gentry f l1 (i / cs)). rewrite Hge by done.
      pose proof (Z.mod_pos_bound i cs ltac:(lia)).
      destruct (decide (i / cs = ci)) as [Heq|Hne].
      * rewrite Heq, Ez. fold h. destruct (Z.eqb_spec h 0) as [|_]; [done|].
        pose proof (Z.div_mod i cs ltac:(lia)) as Hdi. rewrite Heq in Hdi.
        unfold f'. rewrite fbyte_fwrite. clearbody ci.
        replace (h + guest mod cs <=? h + i mod cs) with (guest <=? i) by (case_ifs; lia).
        replace (h + i mod cs <? h + guest mod cs + zlen p) with (i <? guest + zlen p) by (case_ifs; lia).
        case_if; [f_equal; lia|done].
      * destruct (Z.leb_spec guest i), (Z.ltb_spec i (guest + zlen p)); simpl;
          try (exfalso; apply Hne; apply (chunk_cluster guest (zlen p)); lia).
        all: apply (data_byte_keeps o f f' l1 fs); try done; apply Hk; intros [[= Hx]|[=]]; by apply Hne.
    + intros Hr0. eapply refs_frame; [exact H| |done]. apply Hk. by intros [].
Qed.

(** The contents of the new cluster: the data, or the copied-up cluster with
    the data spliced in. *)
Definition filled (f : file) (l1 : list Z) (guest : Z) (p d : list Z) : Prop :=
  zlen d = cs ∧
  ∀ i, 0 ≤ i < h_size hdr → i / cs = guest / cs →
    zget 0 d (i mod cs) = if (guest <=? i) && (i <? guest + zlen p) then zget 0 p (i - guest)
                          else view f l1 i.

Lemma fill_ok o f l1 fs ch guest p hostOff :
  owned o f l1 fs → coherent f l1 ch → 0 ≤ guest < h_size hdr → 0 < zlen p →
  guest mod cs + zlen p ≤ cs → 0 ≤ hostOff < 2 ^ 63 →
  ∃ ch' d,
    (if (guest mod cs =? 0) && (zlen p =? cs) then f_WriteAt p hostOff
     else do* buf <- cow_buffer (guest / cs) ;
          do* w <- gget ;
          f_WriteAt (splice buf (Z.land guest (q_clusterMask (w_q w))) p) hostOff) (mkw f l1 fs ch)
      = (mkw (fwrite f hostOff d) l1 fs ch', Ok tt) ∧
    coherent f l1 ch' ∧ filled f l1 guest p d.
Proof.
  intros H Hc Hg Hp Hfit Hh. destruct cs_facts as (Hcsr & _).
  pose proof (Z.mod_pos_bound guest cs ltac:(lia)). pose proof (Z.div_mod guest cs ltac:(lia)) as Hdm.
  destruct ((guest mod cs =? 0) && (zlen p =? cs)) eqn:Efull.
  - apply andb_true_iff in Efull as [E0 E1]. apply Z.eqb_eq in E0, E1.
    exists ch, p. rewrite f_WriteAt_mkw by lia. split; [done|]. split; [exact Hc|]. split; [lia|].
    intros i Hi Hic. pose proof (Z.div_mod i cs ltac:(lia)). pose proof (Z.mod_pos_bound i cs ltac:(lia)).
    rewrite Hic in *. destruct (Z.leb_spec guest i), (Z.ltb_spec i (guest + zlen p)); simpl; try lia.
    f_equal. lia.
  - destruct (cow_buffer_ok o f l1 fs ch (guest / cs) H Hc) as (ch' & buf & Hrun & Hc' & Hlen & Hget);
      [apply Z.div_pos; lia|lia|].
    rewrite (gbind_run _ _ _ _ _ Hrun). unfold gbind, gget. simpl q_clusterMask.
    replace (cs - 1) with (Z.ones bits) by (rewrite Hcs; by rewrite mask_ones).
    rewrite Z.land_ones, <- Hcs by lia. rewrite f_WriteAt_mkw by lia.
    exists ch', (splice buf (guest mod cs) p). split; [done|]. split; [exact Hc'|].
    split; [rewrite zlen_splice; lia|].
    intros i Hi Hic. pose proof (Z.div_mod i cs ltac:(lia)). pose proof (Z.mod_pos_bound i cs ltac:(lia)).
    rewrite Hic in *. rewrite splice_get by lia.
    replace (guest mod cs <=? i mod cs) with (guest <=? i) by (case_ifs; lia).
    replace (i mod cs <? guest mod cs + zlen p) with (i <? guest + zlen p) by (case_ifs; lia).
    case_if; [f_equal; lia|]. rewrite Hget by lia. f_equal. lia.
Qed.

Lemma allocDataCluster_ok o f l1 fs ch guest p :
  owned o f l1 fs → coherent f l1 ch → 0 ≤ guest < h_size hdr → 0 < zlen p →
  guest mod cs + zlen p ≤ cs → fs + 7 * cs ≤ 2 ^ 56 →
  outcome o f l1 fs guest p
    (allocDataCluster (guest / cs) p guest ((guest mod cs =? 0) && (zlen p =? cs)) (mkw f l1 fs ch)).
Proof.
  intros H [Hc Hl] Hg Hp Hfit Hb. destruct cs_facts as (Hcsr & _). set (ci := guest / cs) in *.
  pose proof (Z.mod_pos_bound guest cs ltac:(lia)). pose proof (Z.div_mod guest cs ltac:(lia)) as Hdm.
  assert (Hci : 0 ≤ ci ∧ ci * cs < h_size hdr) by (split; [apply Z.div_pos; lia|unfold ci; lia]).
  pose proof (owned_pos _ _ _ _ H). pose proof (fs_cluster fs (ow_align _ _ _ _ H)) as Hal.
  unfold allocDataCluster.
  destruct (alloc_evolves o f l1 fs ch H ltac:(lia)) as (o1 & f1 & fs1 & r & Ha & He & Hle & Hfree & Hr).
  pose proof (ev_owned _ _ _ _ _ _ _ _ He) as HO1. pose proof (ev_cache _ _ _ _ _ _ _ _ He _ Hc) as Hc1.
  destruct Hr as [[-> Hcnt]| ->]; cycle 1.
  { rewrite (gbind_run_err _ _ _ _ _ Ha). exists o1, f1, l1, fs1, ch. eexists.
    split_and!; try done; try lia. right. split; [done|]. intros. by eapply evolves_view. }
  rewrite (gbind_run _ _ _ _ _ Ha).
  destruct (fill_ok o1 f1 l1 fs1 ch guest p fs HO1) as (ch2 & d & Hfill & [Hc2 Hl2] & Hd & Hbytes); try done; [lia|].
  rewrite (gbind_run _ _ _ _ _ Hfill).
  destruct (claim_fill o f l1 fs o1 f1 fs1 (RData ci) d H He) as (He2 & Hz & Hsz & Hrefs); [lia|done|done|].
  pose proof (ev_owned _ _ _ _ _ _ _ _ He2) as HO2.
  assert (Hc3 : cached (fwrite f1 fs d) l1 (chead ch2)).
  { eapply (ev_cache o1 f1 l1 fs1), Hc2. eapply write_free_evolves with (c := fs / cs); try done; lia. }
  set (o2 := upd o1 _ _) in *. set (f2 := fwrite f1 fs d) in *.
  destruct (copied_entry fs) as (Em & Ecp & Ecm & Ez & Er); [lia|by apply aligned_512, H|].
  assert (Hfine : entry_fine o2 f2 ci (Z.lor fs oflagCopied)).
  { split_and!; try done; try lia. intros _ _. rewrite Em, Ecp. split_and!; [apply H|done|apply upd_eq]. }
  destruct (setL2Entry_ok o2 f2 l1 fs1 ch2 ci (Z.lor fs oflagCopied) HO2 Hc3)
    as (o3 & f3 & l13 & fs3 & ch3 & r3 & Hset & HO3 & _ & Hc4 & Ht3 & Hlen3 & Hle3 & Hr3); try done; try lia.
  unfold linkL2. exists o3, f3, l13, fs3, ch3, (match r3 with Ok _ => Ok fs | Err e => Err e end).
  split_and!; try done; try lia.
  - unfold gbind. rewrite Hset. by destruct r3.
  - split; [done|by rewrite Ht3].
  - destruct Hr3 as [(-> & Hsh & Hrf)|[-> Hv]]; [left|right].
    + split_and!; [by eexists| |auto]. intros i Hi. rewrite Hsh by done. rewrite Em.
      pose proof (Z.mod_pos_bound i cs ltac:(lia)).
      assert (view f2 l1 i = view f l1 i) as -> by (eapply evolves_view; done || lia).
      destruct (Z.eqb_spec (i / cs) ci) as [Hic|Hic].
      * rewrite Hz by lia. replace (fs + i mod cs - fs) with (i mod cs) by lia. rewrite Hbytes by done.
        case_if; [done|]. eapply evolves_view; done || lia.
      * destruct (Z.leb_spec guest i), (Z.ltb_spec i (guest + zlen p)); simpl; try done.
        exfalso. apply Hic. apply (chunk_cluster guest (zlen p)); lia.
    + split; [done|]. intros i Hi. rewrite Hv by done. by eapply evolves_view.
Qed.

Lemma land_mask a : Z.land a (cs - 1) = a mod cs.
Proof.
  replace (cs - 1) with (Z.ones bits) by (rewrite Hcs; by rewrite mask_ones).
  rewrite Z.land_ones, <- Hcs by lia. done.
Qed.

Lemma write_chunk_ok o f l1 fs ch guest p :
  owned o f l1 fs → coherent f l1 ch → 0 ≤ guest < h_size hdr → 0 < zlen p →
  guest mod cs + zlen p ≤ cs → fs + 7 * cs ≤ 2 ^ 56 →
  outcome o f l1 fs guest p (write_chunk guest p (mkw f l1 fs ch)).
Proof.
  intros H Hc Hg Hp Hfit Hb. destruct cs_facts as (Hcsr & _).
  pose proof (Z.mod_pos_bound guest cs ltac:(lia)). pose proof (Z.div_mod guest cs ltac:(lia)).
  unfold write_chunk. simpl q_clusterBits. simpl q_clusterMask. simpl q_clusterSize.
  rewrite shiftr_bits, land_mask.
  destruct (hostOffset_ok o f l1 fs ch (guest / cs) H Hc) as (ch' & Hrun & Hc');
    [apply Z.div_pos; lia|lia|].
  rewrite (gbind_run _ _ _ _ _ Hrun).
  destruct (Z.eqb_spec (host_of (gentry f l1 (guest / cs))) 0) as [E0|E0].
  - destruct (allocDataCluster_ok o f l1 fs ch' guest p H Hc' Hg Hp Hfit Hb)
      as (o' & f' & l1' & fs' & ch2 & r & Ha & HO & Hc2 & Hlen & Hfs & Hr).
    exists o', f', l1', fs', ch2, (match r with Ok _ => Ok tt | Err e => Err e end).
    split_and!; try done; try apply Hfs.
    + unfold gbind. rewrite Ha. by destruct r.
    + destruct Hr as [([a ->] & Hw & Hrf)|[-> Hv]]; [left|by right]. split_and!; try done. by eexists.
  - by apply overwrite_ok.
Qed.

(** ** The whole write *)

(** The error of a write that stopped after [n] bytes. *)
Definition write_error (off n len : Z) (err : option cow_err) : Prop :=
  match err with
  | None => n = len
  | Some e => e = EWriteBeyondSize ∧ h_size hdr ≤ off + n ∨ e = ERefcountTableFull
  end.

Lemma written_app f l1 g p q f1 l11 f2 l12 :
  written f l1 g p f1 l11 → written f1 l11 (g + zlen p) q f2 l12 →
  written f l1 g (p ++ q) f2 l12.
Proof.
  intros H1 H2 i Hi. rewrite H2, H1, zlen_app by done.
  pose proof (zlen_nonneg p). pose proof (zlen_nonneg q).
  destruct (Z.leb_spec (g + zlen p) i), (Z.leb_spec g i), (Z.ltb_spec i (g + zlen p + zlen q)),
    (Z.ltb_spec i (g + zlen p)), (Z.ltb_spec i (g + (zlen p + zlen q))); simpl; try lia; try done.
  - rewrite zget_app by lia. destruct (Z.ltb_spec (i - g) (zlen p)); [lia|]. f_equal. lia.
  - rewrite zget_app by lia. by destruct (Z.ltb_spec (i - g) (zlen p)); [|lia].
Qed.

(** Host space a write of the remaining bytes may use: one data cluster, one L2
    table and their refcount blocks for each cluster touched. *)
Definition demand (guest rem : Z) : Z :=
  if rem <=? 0 then 0 else 6 * (rem + guest mod cs + cs) + cs.

Lemma written_nil f l1 g p t f' l1' :
  (∀ i, 0 ≤ i → view f' l1' i = view f l1 i) → written f l1 g (zslice p t t) f' l1'.
Proof.
  intros Hv i Hi. assert (zslice p t t = []) as -> by (unfold zslice; by rewrite Z.sub_diag).
  rewrite zlen_nil. destruct (Z.leb_spec g i), (Z.ltb_spec i (g + 0)); simpl; try lia; apply Hv; lia.
Qed.

(** The demand shrinks by what a chunk may have used. *)
Lemma demand_step guest rem n :
  0 ≤ guest → 0 < n ≤ rem → guest mod cs + n ≤ cs → n = rem ∨ guest mod cs + n = cs →
  demand (guest + n) (rem - n) + 6 * cs ≤ demand guest rem ∧ 7 * cs ≤ demand guest rem.
Proof.
  intros Hg Hn Hfit Hl. destruct cs_facts as (Hcsr & _). unfold demand.
  pose proof (Z.mod_pos_bound guest cs ltac:(lia)). pose proof (Z.div_mod guest cs ltac:(lia)).
  destruct (Z.leb_spec rem 0); [lia|]. destruct (Z.leb_spec (rem - n) 0); [lia|].
  destruct Hl as [|Hl]; [lia|].
  replace (guest + n) with ((guest / cs + 1) * cs) by lia. rewrite Z.mod_mul; lia.
Qed.

Lemma demand_nonneg guest rem : 0 ≤ demand guest rem.
Proof.
  destruct cs_facts as (Hcsr & _). unfold demand. pose proof (Z.mod_pos_bound guest cs ltac:(lia)).
  destruct (Z.leb_spec rem 0); lia.
Qed.

Lemma write_loop_ok fuel p off : ∀ o f l1 fs ch total,
  owned o f l1 fs → coherent f l1 ch → 0 ≤ off < 2 ^ 62 → zlen p < 2 ^ 62 →
  0 ≤ total ≤ zlen p → zlen p - total ≤ Z.of_nat fuel →
  fs + demand (off + total) (zlen p - total) ≤ 2 ^ 56 →
  ∃ o' f' l1' fs' ch' n err,
    write_loop fuel p off total (mkw f l1 fs ch) = (mkw f' l1' fs' ch', (n, err)) ∧
    owned o' f' l1' fs' ∧ coherent f' l1' ch' ∧ total ≤ n ≤ zlen p ∧
    fs ≤ fs' ≤ fs + demand (off + total) (zlen p - total) ∧
    written f l1 (off + total) (zslice p total n) f' l1' ∧ write_error off n (zlen p) err ∧
    (err ≠ Some ERefcountTableFull → refs_ok o f [] → refs_ok o' f' []).
Proof.
  destruct cs_facts as (Hcsr & _).
  assert (Hv : h_size hdr ≤ 2 ^ 44) by (change (2 ^ 44) with maxVirtualSize; lia).
  induction fuel as [|fuel IH]; intros o f l1 fs ch total H Hc Hoff Hlen Ht Hfuel Hb;
    pose proof (demand_nonneg (off + total) (zlen p - total));
    cbn [write_loop]; destruct (Z.leb_spec (zlen p) total) as [Hdone|Hmore]; try lia.
  1, 2: exists o, f, l1, fs, ch, total, None;
    split_and!; try done; try lia; [by apply written_nil|simpl; lia].
  rewrite (u64_id off), u64_id by lia. set (guest := off + total) in *. simpl q_hdr. simpl q_clusterSize.
  simpl q_clusterMask. rewrite land_mask.
  pose proof (Z.mod_pos_bound guest cs ltac:(lia)). rewrite u64_id by lia.
  destruct (Z.leb_spec (h_size hdr) guest) as [Hover|Hin].
  { exists o, f, l1, fs, ch, total, (Some EWriteBeyondSize).
    split_and!; try done; try lia; [by apply written_nil|by left]. }
  set (n := if zlen p - total <? cs - guest mod cs then _ else _).
  assert (Hn : 0 < n ≤ zlen p - total ∧ guest mod cs + n ≤ cs ∧ (n = zlen p - total ∨ guest mod cs + n = cs)).
  { unfold n. destruct (Z.ltb_spec (zlen p - total) (cs - guest mod cs)); lia. }
  clearbody n. destruct Hn as (Hn & Hfit & Hlast).
  destruct (demand_step guest (zlen p - total) n ltac:(lia) Hn Hfit Hlast) as [Hd1 Hd7].
  assert (Hsl : zlen (zslice p total (total + n)) = n) by (rewrite zlen_zslice; lia).
  destruct (write_chunk_ok o f l1 fs ch guest (zslice p total (total + n)) H Hc)
    as (o1 & f1 & l11 & fs1 & ch1 & r & Hrun & HO1 & Hc1 & Hl1 & Hfs1 & Hr); [lia..|].
  rewrite Hrun. destruct Hr as [([a ->] & Hw & Hrf)|[-> Hvw]]; cycle 1.
  { exists o1, f1, l11, fs1, ch1, total, (Some ERefcountTableFull).
    split_and!; try done; try lia; [by apply written_nil|by right]. }
  replace (zlen p - total - n) with (zlen p - (total + n)) in Hd1 by lia.
  replace (guest + n) with (off + (total + n)) in Hd1 by lia.
  destruct (IH o1 f1 l11 fs1 ch1 (total + n) HO1 Hc1)
    as (o' & f' & l1' & fs' & ch' & m & err & -> & HO & Hc' & Hm & Hfs & Hw' & Herr & Hrefs); try done; try lia.
  exists o', f', l1', fs', ch', m, err. split_and!; try done; try lia.
  - rewrite <- (zslice_app p total (total + n) m) by lia. eapply written_app; [exact Hw|].
    rewrite Hsl. replace (guest + n) with (off + (total + n)) by lia. done.
  - auto.
Qed.
End Refine.
