(* ===== verification/Qcow2WriteAt.v ===== *)
(** * WriteAt as an operation on a disk of bytes

    The invariant [writable_ok] of an open writable image, stated on the state
    record of the code, and the theorems about [qcow2Writable.WriteAt] and
    [ReadAt] that follow from the refinement of [Qcow2Refine] over a host that does
    not fail and from the agreement of [Qcow2Host]. *)

From S2P Require Import Prelude Bytes Qcow2Layout Qcow2Image Qcow2Write Qcow2Host Qcow2Refine.

Definition backing_ok (b : option guestImage) : Prop :=
  match b with None => True | Some b => chain_ok b ∧ tail_zero b end.

Definition owned_by (o : Z → region) (w : qcow2Writable) : Prop :=
  owned (q_hdr (w_q w)) (q_clusterBits (w_q w)) (q_clusterSize (w_q w)) o
        (q_f (w_q w)) (q_l1 (w_q w)) (w_fileSize w).

(** Every owned cluster has refcount 1. *)
Definition refcounts_ok (o : Z → region) (w : qcow2Writable) : Prop :=
  refs_ok (q_hdr (w_q w)) (q_clusterSize (w_q w)) o (q_f (w_q w)) [].

Record writable_ok (w : qcow2Writable) : Prop := {
  wo_bits : 9 ≤ q_clusterBits (w_q w) ≤ 21;
  wo_size : q_clusterSize (w_q w) = 2 ^ q_clusterBits (w_q w);
  wo_mask : q_clusterMask (w_q w) = q_clusterSize (w_q w) - 1;
  wo_fileSize : q_fileSize (w_q w) = w_fileSize w;
  wo_virtual : 0 ≤ h_size (q_hdr (w_q w)) ≤ maxVirtualSize;
  wo_backing : backing_ok (w_backing w);
  wo_caches : caches_ok (w_image w) (w_caches w);
  wo_owned : ∃ o, owned_by o w;
}.

(** The same with the refcounts exact: what [Create] and successful writes leave. *)
Definition counted_ok (w : qcow2Writable) : Prop :=
  writable_ok w ∧ ∃ o, owned_by o w ∧ refcounts_ok o w.

Definition disk_size (w : qcow2Writable) : Z := h_size (q_hdr (w_q w)).
Definition disk_byte (w : qcow2Writable) (i : Z) : Z := guest_byte (w_image w) i.

(** Host space a write of [n] bytes may take. *)
Definition write_budget (w : qcow2Writable) (n : Z) : Prop :=
  w_fileSize w + 6 * n + 13 * q_clusterSize (w_q w) ≤ 2 ^ 56.

(** The disk [w'] is [w] with [p] written at [off]. *)
Definition disk_written (w : qcow2Writable) (off : Z) (p : list Z) (w' : qcow2Writable) : Prop :=
  disk_size w' = disk_size w ∧
  ∀ i, 0 ≤ i < disk_size w →
    disk_byte w' i = if (off <=? i) && (i <? off + zlen p) then zget 0 p (i - off) else disk_byte w i.

(** A write that stopped after [n] of [len] bytes: past the end of the disk, or
    out of refcounts. *)
Definition stopped (w : qcow2Writable) (off n len : Z) (err : option cow_err) : Prop :=
  match err with
  | None => n = len
  | Some e => e = EWriteBeyondSize ∧ disk_size w ≤ off + n ∨ e = ERefcountTableFull
  end.

Lemma writable_mkw w :
  writable_ok w →
  calm w = mkw (q_hdr (w_q w)) (q_clusterBits (w_q w)) (q_clusterSize (w_q w)) (w_backing w)
          (q_f (w_q w)) (q_l1 (w_q w)) (w_fileSize w) (w_caches w).
Proof.
  intros [_ _ Hm Hf _ _ _ _]. destruct w as [[f hdr bits cs mask l1 qfs] b c fs]. unfold calm. simpl in *. by subst.
Qed.

(** The answers of the host are no part of the image. *)
Lemma writable_io w io : writable_ok w → writable_ok (set_io w io).
Proof. by intros []. Qed.

Lemma writable_calm w : writable_ok (calm w) ↔ writable_ok w.
Proof. split; [intros H; by apply (writable_io _ (w_io w)) in H; rewrite <- (set_io_same w)|apply writable_io]. Qed.

(** The refinement of the loop on the code's own state, over a host that does not fail. *)
Lemma calm_loop_ok fuel o p off w :
  writable_ok w → owned_by o w → 0 ≤ off < 2 ^ 62 → zlen p < 2 ^ 62 → write_budget w (zlen p) →
  (length p ≤ fuel)%nat →
  ∃ o' w' n err, write_loop fuel p off 0 (calm w) = (calm w', (n, err)) ∧ writable_ok w' ∧ owned_by o' w' ∧
    0 ≤ n ≤ zlen p ∧ disk_written w off (take (Z.to_nat n) p) w' ∧
    stopped w off n (zlen p) err ∧
    w_fileSize w ≤ w_fileSize w' ≤ w_fileSize w + 6 * zlen p + 13 * q_clusterSize (w_q w) ∧
    q_clusterSize (w_q w') = q_clusterSize (w_q w) ∧
    (err ≠ Some ERefcountTableFull → refcounts_ok o w → refcounts_ok o' w').
Proof.
  intros Hw Ho Hoff Hlen Hb Hfuel. pose proof (zlen_nonneg p). unfold write_budget, owned_by in *.
  pose proof (writable_mkw w Hw) as Heq. destruct Hw as [Hbits Hcs Hm Hqf Hv Hbk Hc _].
  set (hdr := q_hdr (w_q w)) in *. set (bits := q_clusterBits (w_q w)) in *.
  set (cs := q_clusterSize (w_q w)) in *. set (bk := w_backing w) in *.
  set (f := q_f (w_q w)) in *. set (l1 := q_l1 (w_q w)) in *. set (fs := w_fileSize w) in *.
  assert (Hd : 0 ≤ demand cs (off + 0) (zlen p - 0) ≤ 6 * zlen p + 13 * cs).
  { split; [by apply (demand_nonneg bits cs Hbits Hcs)|]. unfold demand.
    pose proof (pow2_bits bits Hbits). pose proof (Z.mod_pos_bound (off + 0) cs ltac:(lia)).
    destruct (Z.leb_spec (zlen p - 0) 0); lia. }
  assert (Hcoh : coherent hdr bits cs bk f l1 (w_caches w)).
  { change (caches_ok (w_image (calm w)) (w_caches w)) in Hc. rewrite Heq in Hc at 1. exact Hc. }
  destruct (write_loop_ok hdr bits cs bk Hbits Hcs Hv Hbk fuel p off o f l1 fs (w_caches w) 0)
    as (o' & f' & l1' & fs' & ch' & n & err & Hrun & HO & Hc' & Hn & Hfs & Hwr & Herr & Hrefs);
    try done; try (unfold zlen in *; lia).
  exists o', (mkw hdr bits cs bk f' l1' fs' ch'), n, err. rewrite Heq at 1.
  split; [exact Hrun|]. split.
  { split; try done. by exists o'. }
  split_and!; try done; try lia.
  - split; [done|]. intros i Hi. unfold disk_byte, w_image. fold bk.
    change (guest_byte (Qcow2 (w_q w) bk) i) with (guest_byte (w_image (calm w)) i). rewrite Heq.
    specialize (Hwr i Hi). unfold view in Hwr. rewrite Z.add_0_r in Hwr.
    unfold zslice in Hwr. rewrite Z.sub_0_r, drop_0 in Hwr. exact Hwr.
  - simpl. lia.
  - simpl. lia.
Qed.

Lemma take_all_z {A} (p : list A) n : n = zlen p → take (Z.to_nat n) p = p.
Proof. intros ->. unfold zlen. rewrite Nat2Z.id. by apply take_ge. Qed.

Lemma cluster_room w : writable_ok w →
  ∀ g, 0 < u64 (q_clusterSize (w_q w) - Z.land g (q_clusterMask (w_q w))).
Proof.
  intros Hw g. destruct Hw as [Hbits Hcs Hm _ _ _ _ _]. rewrite Hm, Hcs, Z.sub_1_r, <- Z.ones_equiv, Z.land_ones by lia.
  pose proof (pow2_bits _ Hbits). pose proof (Z.mod_pos_bound g (2 ^ q_clusterBits (w_q w)) ltac:(lia)).
  rewrite u64_id; lia.
Qed.

(** What is left when the host fails in a write of [p]: the rounds of the first [n]
    bytes were complete, on a well-formed image [w1], and the round after them hit
    the failure and left [w']. *)
Definition host_failure (w : qcow2Writable) (off : Z) (p : list Z) (n : Z) (w' : qcow2Writable) : Prop :=
  host_fails w ∧ n < zlen p ∧
  ∃ w1 q, writable_ok w1 ∧ disk_written w off (take (Z.to_nat n) p) w1 ∧
    write_chunk (u64 (u64 off + n)) q w1 = (w', Err EHost).

Lemma WriteAt_ok o p off w :
  writable_ok w → owned_by o w → 0 ≤ off < 2 ^ 62 → zlen p < 2 ^ 62 → write_budget w (zlen p) →
  ∃ w' n err, WriteAt p off w = (w', (n, err)) ∧ 0 ≤ n ≤ zlen p ∧
    (err = Some EHost ∧ host_failure w off p n w' ∨
     err ≠ Some EHost ∧ writable_ok w' ∧ disk_written w off (take (Z.to_nat n) p) w' ∧ stopped w off n (zlen p) err ∧
     ∃ o', owned_by o' w' ∧ (err ≠ Some ERefcountTableFull → refcounts_ok o w → refcounts_ok o' w')).
Proof.
  intros Hw Ho Hoff Hlen Hb. pose proof (zlen_nonneg p). unfold WriteAt.
  destruct (write_loop (length p) p off 0 w) as [w' [n err]] eqn:Erun. exists w', n, err. split; [done|].
  destruct (write_loop_sim _ _ (length p) p off (cluster_room w Hw) 0 w w' n err ltac:(done) ltac:(done) Erun)
    as [Hn0 [[-> (Hf & Hlt & w1 & q & Hpre & Hfail)]|Hq]].
  - split; [lia|]. left. split; [done|]. split; [done|]. split; [done|].
    destruct (calm_loop_ok (length p) o (take (Z.to_nat n) p) off w Hw Ho Hoff)
      as (o1 & w2 & m & e & Hrun & Hw2 & _ & _ & Hd & Hs & _).
    { rewrite zlen_take by lia. lia. }
    { unfold write_budget in *. rewrite zlen_take by lia. lia. }
    { rewrite length_take. lia. }
    rewrite Hpre in Hrun. apply pair_equal_spec in Hrun as [E1 [= <- <-]]. exists w1, q. split_and!; try done.
    + apply writable_calm. rewrite E1. by apply writable_calm.
    + rewrite take_take, Nat.min_id in Hd. destruct Hd as [Hsz Hby]. split.
      * change (disk_size w1) with (disk_size (calm w1)). rewrite E1. exact Hsz.
      * intros i Hi. change (disk_byte w1 i) with (disk_byte (calm w1) i). rewrite E1. by apply Hby.
  - destruct (calm_loop_ok (length p) o p off w Hw Ho Hoff Hlen Hb ltac:(done))
      as (o' & w2 & m & e & Hrun & Hw2 & Ho2 & Hm & Hd & Hs & _ & _ & Hr).
    rewrite Hq in Hrun. apply pair_equal_spec in Hrun as [E1 [= <- <-]]. split; [done|]. right.
    assert (E2 : w' = set_io w2 (w_io w')).
    { transitivity (set_io (calm w') (w_io w')); [symmetry; apply (set_io_same w')|]. by rewrite E1. }
    rewrite E2. split; [|split_and!; [by apply writable_io|done|done|by exists o']].
    intros ->. simpl in Hs. destruct Hs as [[]|]; done.
Qed.

(** C1. Writing refines an array of bytes.  On a well-formed image with host space
    left below the 2^56 offset limit of the table entries, whatever the host answers
    to each read and write, [WriteAt] terminates and either
    - reports a failure of the host (no space, an I/O error, a short write), which
      the host did report: the rounds of the first [n] bytes, [n] the count returned,
      had been completed on a well-formed image and the failure hit the next round;
      nothing is said of the image that failed round leaves; or
    - leaves the image well-formed with exactly the first [n] requested bytes changed
      and no other byte of the disk; it then returns no error only if every byte was
      written, and the only errors are running past the virtual size and a full
      refcount table. *)
Theorem WriteAt_refines p off w :
  writable_ok w → 0 ≤ off < 2 ^ 62 → zlen p < 2 ^ 62 → write_budget w (zlen p) →
  ∃ w' n err, WriteAt p off w = (w', (n, err)) ∧ 0 ≤ n ≤ zlen p ∧
    (err = Some EHost ∧ host_failure w off p n w' ∨
     err ≠ Some EHost ∧ writable_ok w' ∧ disk_written w off (take (Z.to_nat n) p) w' ∧
     stopped w off n (zlen p) err).
Proof.
  intros Hw Hoff Hlen Hb. destruct (wo_owned w Hw) as [o Ho].
  destruct (WriteAt_ok o p off w Hw Ho Hoff Hlen Hb) as (w' & n & err & Hrun & Hn & Hor).
  exists w', n, err. split; [done|]. split; [done|]. destruct Hor as [|(? & ? & ? & ? & _)]; [by left|by right].
Qed.

(** A write the host did not fail keeps every refcount exact: if each cluster in use
    had refcount 1 before, so has each cluster in use after, the freshly allocated
    data clusters, L2 tables and refcount blocks included. *)
Theorem WriteAt_refcounts p off w w' n err :
  counted_ok w → 0 ≤ off < 2 ^ 62 → zlen p < 2 ^ 62 → write_budget w (zlen p) →
  WriteAt p off w = (w', (n, err)) → err ≠ Some EHost → err ≠ Some ERefcountTableFull → counted_ok w'.
Proof.
  intros [Hw [o [Ho Hr]]] Hoff Hlen Hb Hrun Hh Herr.
  destruct (WriteAt_ok o p off w Hw Ho Hoff Hlen Hb) as (w1 & n1 & err1 & Hrun1 & _ & Hor).
  rewrite Hrun in Hrun1. injection Hrun1 as <- <- <-. destruct Hor as [[? _]|(_ & Hw' & _ & _ & o' & Ho' & Hrefs)]; [done|].
  split; [done|]. exists o'. auto.
Qed.

(** Over a host that does not fail. *)
Lemma idle_WriteAt o p off w :
  w_io w = [] → writable_ok w → owned_by o w → 0 ≤ off < 2 ^ 62 → zlen p < 2 ^ 62 → write_budget w (zlen p) →
  ∃ w' n err, WriteAt p off w = (w', (n, err)) ∧ 0 ≤ n ≤ zlen p ∧ w_io w' = [] ∧ writable_ok w' ∧
    disk_written w off (take (Z.to_nat n) p) w' ∧ stopped w off n (zlen p) err.
Proof.
  intros Hio Hw Ho Hoff Hlen Hb. pose proof (calm_loop_ok (length p) o p off w Hw Ho Hoff Hlen Hb ltac:(done)) as Hq.
  rewrite (calm_idle w Hio) in Hq. destruct Hq as (_ & w' & n & err & Hrun & Hw' & _ & Hn & Hd & Hs & _).
  exists (calm w'), n, err. split_and!; try done; try lia. by apply writable_calm.
Qed.

Lemma w_ReadAt_ok w n off :
  w_io w = [] → writable_ok w → 0 ≤ off → 0 ≤ n → off + n ≤ disk_size w →
  ∃ w', w_ReadAt n off w = (w', (map (disk_byte w) (seqZ off n), None)) ∧ w_io w' = [] ∧ writable_ok w' ∧
    disk_size w' = disk_size w ∧ ∀ i, disk_byte w' i = disk_byte w i.
Proof.
  intros Hio Hw Hoff Hn Hsz. pose proof (writable_mkw w Hw) as Heq. rewrite (calm_idle w Hio) in Heq.
  pose proof Hw as [Hbits Hcs Hm Hqf Hv Hbk Hc [o Ho]].
  assert (Hg : chain_ok (w_image w)).
  { split; [|exact Hbk]. rewrite Heq. simpl. by apply (owned_image _ _ _ Hbits Hcs Hv o). }
  unfold disk_size in *. change maxVirtualSize with (2 ^ 44) in Hv.
  destruct (ReadAt_chain (w_image w) Hg (w_caches w) n off Hc) as (c' & Hrun & Hc' & Ha & Hshort); [lia..|].
  assert (Hav : available (w_image w) n off = n).
  { destruct (decide (n = 0)) as [->|]; [lia|]. simpl. unfold read_count.
    destruct (Z.leb_spec (h_size (q_hdr (w_q w))) off); [lia|].
    destruct (extent_bounds (w_q w)); [apply (proj1 Hg)|]. lia. }
  rewrite Hav in Hrun. unfold w_ReadAt, chain_ReadAt, host_answer. rewrite Hio. cbn [tail head default from_option].
  change (set_io w []) with (calm w). rewrite (calm_idle w Hio), Hrun. destruct (Z.ltb_spec n n); [lia|].
  exists (set_caches w c'). split_and!; try done. split; try done. by exists o.
Qed.

(** Round trip over a host that does not fail: what [WriteAt] reports written is what [ReadAt] returns, and
    a read disjoint from the write returns what it returned before. *)
Theorem WriteAt_ReadAt p off w :
  w_io w = [] → writable_ok w → 0 ≤ off → off + zlen p ≤ disk_size w → write_budget w (zlen p) →
  ∃ w' n err, WriteAt p off w = (w', (n, err)) ∧
    (err = None → ∃ w'', w_ReadAt (zlen p) off w' = (w'', (p, None))) ∧
    (∀ o m, 0 ≤ o → 0 ≤ m → o + m ≤ disk_size w → o + m ≤ off ∨ off + zlen p ≤ o →
       snd (w_ReadAt m o w') = snd (w_ReadAt m o w)).
Proof.
  intros Hio Hw Hoff Hsz Hb. pose proof (zlen_nonneg p). destruct (wo_owned w Hw) as [o Ho].
  pose proof (wo_virtual w Hw) as Hv. change maxVirtualSize with (2 ^ 44) in Hv. unfold disk_size in Hsz.
  destruct (idle_WriteAt o p off w Hio Hw Ho) as (w' & n & err & Hrun & Hn & Hio' & Hw' & [Hds Hd] & Hs);
    [lia|lia|done|].
  exists w', n, err. split_and!; [done| |].
  - intros ->. simpl in Hs. destruct (w_ReadAt_ok w' (zlen p) off Hio' Hw') as (w'' & -> & _);
      [lia..|rewrite Hds; unfold disk_size; lia|].
    exists w''. do 2 f_equal. apply (zget_eq 0); [by rewrite zlen_map, zlen_seqZ by lia|].
    rewrite zlen_map, zlen_seqZ by lia. intros i Hi.
    rewrite (zget_map 0), zget_seqZ by (rewrite ?zlen_seqZ; lia).
    rewrite Hd, take_all_z by (done || (unfold disk_size; lia)).
    destruct (Z.leb_spec off (off + i)), (Z.ltb_spec (off + i) (off + zlen p)); simpl; try lia. f_equal. lia.
  - intros a m Ha Hm Hr Hdisj.
    destruct (w_ReadAt_ok w' m a Hio' Hw' Ha Hm) as (w1 & -> & _); [lia|].
    destruct (w_ReadAt_ok w m a Hio Hw Ha Hm Hr) as (w2 & -> & _). simpl. f_equal.
    apply map_seqZ_ext. intros i Hi. rewrite Hd by lia.
    assert (zlen (take (Z.to_nat n) p) ≤ zlen p) by (unfold zlen; rewrite length_take; lia).
    destruct (Z.leb_spec off i), (Z.ltb_spec i (off + zlen (take (Z.to_nat n) p))); simpl; done || lia.
Qed.
