(* ===== verification/Qcow2Create.v ===== *)
(** * Creating a qcow2 image

    [internal/cow/qcow2.go], [createQcow2]: the metadata buffer (header,
    extensions, backing name, refcount table, refcounts), the sparse extensions
    of the file and the L1 table.  The theorems: creation succeeds on every
    admissible request, and the file it leaves, opened for writing, satisfies the
    invariant of the write path with exact refcounts and shows the backing image. *)

From S2P Require Import Prelude Bytes Qcow2Layout Qcow2Image Qcow2Write Qcow2Refine Qcow2WriteAt.

(** ["QFI\xfb"] *)
Definition qcow2Magic : list Z := [81; 70; 73; 251].

(** ** Definitions *)

(** [binary.BigEndian.PutUintN(buf[off:], v)], [n] bytes wide. *)
Definition putBE (n : nat) (buf : list Z) (off v : Z) : list Z := splice buf off (be_encode n v).

(** [copy(buf[off:], s)] stops at the end of the buffer. *)
Definition copyAt (buf : list Z) (off : Z) (s : list Z) : list Z :=
  splice buf off (take (Z.to_nat (zlen buf - off)) s).

(** A loop of [putBE] over [idxs]: entry [i] goes to [base + i * n]; [None] skips it. *)
Definition putEach (n : nat) (base : Z) (v : Z → option Z) (idxs buf : list Z) : list Z :=
  fold_left (λ b i, match v i with
                    | Some x => putBE n b (base + i * Z.of_nat n) x
                    | None => b
                    end) idxs buf.

(** The fixed header fields. *)
Definition create_fixed (lay : qcow2Layout) (virtualSize : Z) (buf : list Z) : list Z :=
  let buf := copyAt buf 0 qcow2Magic in
  let buf := putBE 4 buf 4 qcow2Version3 in
  let buf := putBE 4 buf 0x14 (lay_clusterBits lay) in
  let buf := putBE 8 buf 0x18 virtualSize in
  let buf := putBE 4 buf 0x24 (u32 (lay_l1Size lay)) in
  let buf := putBE 8 buf 0x28 (lay_l1Off lay) in
  let buf := putBE 8 buf 0x30 (lay_reftableOff lay) in
  let buf := putBE 4 buf 0x38 (u32 (lay_reftableCls lay)) in
  let buf := putBE 4 buf 0x60 refcountOrder in
  putBE 4 buf 0x64 qcow2HeaderLen.

(** The backing-format extension and the backing name; the end-of-extensions
    marker is left zero between them. *)
Definition create_backing (cs : Z) (backingPath backingFormat buf : list Z)
    : result cow_err (list Z) :=
  if zlen backingPath =? 0 then Ok buf
  else
    let off := qcow2HeaderLen in
    let buf := putBE 4 buf off extBackingFormat in
    let buf := putBE 4 buf (off + 4) (u32 (zlen backingFormat)) in
    let buf := copyAt buf (off + 8) backingFormat in
    let off := u64 (off + 8 + roundUp8 (zlen backingFormat)) in
    let off := u64 (off + 8) in
    if (maxBackingNameLen <? zlen backingPath) || (cs <? u64 (off + zlen backingPath))
    then Err EBackingPathTooLong
    else
      let buf := putBE 8 buf 0x08 off in
      let buf := putBE 4 buf 0x10 (u32 (zlen backingPath)) in
      Ok (copyAt buf off backingPath).

(** The refcount table and the create-time refcounts. *)
Definition create_refs (lay : qcow2Layout) (buf : list Z) : list Z :=
  let cs := lay_clusterSize lay in
  let buf := putEach 8 (lay_reftableOff lay) (λ b, Some (u64 (lay_refblockOff lay + b * cs)))
               (seqZ 0 (lay_refblockCnt lay)) buf in
  putEach 2 (lay_refblockOff lay) (λ _, Some 1) (seqZ 0 (lay_physMeta lay)) buf.

(** Cluster [k] of the L1 table. *)
Definition l1_cluster (lay : qcow2Layout) (k : Z) : list Z :=
  let cs := lay_clusterSize lay in
  let entriesPerCluster := cs / 8 in
  putEach 8 0
    (λ j, let e := u64 (k * entriesPerCluster + j) in
          if e <? lay_l2Count lay
          then Some (Z.lor (u64 (lay_l2Off lay + e * cs)) oflagCopied) else None)
    (seqZ 0 entriesPerCluster) (replicate (Z.to_nat cs) 0).

(** The file: the buffer, a hole up to the L1 table, the L1 table, a hole for the
    preallocated L2 tables.  [f.Write] continues at the current offset. *)
Definition create_file (lay : qcow2Layout) (buf : list Z) : file :=
  let cs := lay_clusterSize lay in
  let f := fwrite empty_file 0 buf in
  let f := file_Truncate f (int64 (lay_l1Off lay)) in
  let f := fold_left (λ f k, fwrite f (int64 (lay_l1Off lay) + k * cs) (l1_cluster lay k))
             (seqZ 0 (lay_l1Clusters lay)) f in
  if 0 <? lay_l2Count lay
  then file_Truncate f (int64 (u64 (lay_l2Off lay + lay_l2Count lay * cs))) else f.

Definition createQcow2 (virtualSize : Z) (backingPath backingFormat : list Z) (opt : OverlayOpt)
    : result cow_err file :=
  if virtualSize =? 0 then Err EZeroSize
  else
    let* lay := computeQcow2Layout virtualSize (ClusterBits opt) (PreallocMetadata opt) in
    let cs := lay_clusterSize lay in
    let buf := replicate (Z.to_nat (u64 (lay_refblockOff lay + lay_refUsedCls lay * cs))) 0 in
    let buf := create_fixed lay virtualSize buf in
    let* buf := create_backing cs backingPath backingFormat buf in
    Ok (create_file lay (create_refs lay buf)).

(** ** Buffers *)

Lemma zget_putBE n buf off v j :
  0 ≤ off → off + Z.of_nat n ≤ zlen buf → 0 ≤ j →
  zget 0 (putBE n buf off v) j =
    if (off <=? j) && (j <? off + Z.of_nat n) then zget 0 (be_encode n v) (j - off) else zget 0 buf j.
Proof. intros. unfold putBE. rewrite splice_get; rewrite ?zlen_be_encode; done. Qed.

Lemma zlen_putBE n buf off v :
  0 ≤ off → off + Z.of_nat n ≤ zlen buf → zlen (putBE n buf off v) = zlen buf.
Proof. intros. unfold putBE. rewrite zlen_splice; rewrite ?zlen_be_encode; done. Qed.

Lemma copyAt_fits buf off s : 0 ≤ off → off + zlen s ≤ zlen buf → copyAt buf off s = splice buf off s.
Proof. intros. unfold copyAt. rewrite take_ge; [done|]. unfold zlen in *. lia. Qed.

(** What the loop leaves, byte by byte. *)
Lemma putEach_spec n base v m buf :
  (0 < n)%nat → 0 ≤ base → 0 ≤ m → base + m * Z.of_nat n ≤ zlen buf →
  zlen (putEach n base v (seqZ 0 m) buf) = zlen buf ∧
  ∀ j, 0 ≤ j → zget 0 (putEach n base v (seqZ 0 m) buf) j =
    if (base <=? j) && (j <? base + m * Z.of_nat n)
    then match v ((j - base) / Z.of_nat n) with
         | Some x => zget 0 (be_encode n x) ((j - base) mod Z.of_nat n)
         | None => zget 0 buf j
         end
    else zget 0 buf j.
Proof.
  intros Hn Hb Hm. rewrite <- (Z2Nat.id m Hm). clear Hm. induction (Z.to_nat m) as [|k IH]; intros Hfit.
  { split; [done|]. intros j Hj. change (Z.of_nat 0) with 0. rewrite Z.mul_0_l.
    destruct (Z.leb_spec base j), (Z.ltb_spec j (base + 0)); simpl; done || lia. }
  rewrite Nat2Z.inj_succ, <- Z.add_1_r in *. destruct IH as [IHl IHg]; [lia|].
  unfold putEach in *. rewrite seqZ_app, fold_left_app, Z.add_0_l by lia.
  replace (seqZ (Z.of_nat k) 1) with [Z.of_nat k] by (unfold seqZ; simpl; f_equal; lia). cbn [fold_left].
  set (b := fold_left _ _ _) in *. set (i := Z.of_nat k) in *.
  assert (Hi : 0 ≤ i * Z.of_nat n) by (unfold i; lia).
  assert (Hdiv : ∀ j, base + i * Z.of_nat n ≤ j < base + (i + 1) * Z.of_nat n →
            (j - base) / Z.of_nat n = i ∧ (j - base) mod Z.of_nat n = j - (base + i * Z.of_nat n)).
  { intros j Hj. assert ((j - base) / Z.of_nat n = i) as Hd.
    { symmetry. apply Z.div_unique with (r := j - base - i * Z.of_nat n); lia. }
    split; [done|]. rewrite Z.mod_eq, Hd by lia. lia. }
  destruct (v i) as [x|] eqn:Ev; (split; [rewrite ?zlen_putBE; lia|]); intros j Hj.
  - rewrite zget_putBE, IHg by lia.
    destruct (Z.leb_spec (base + i * Z.of_nat n) j), (Z.ltb_spec j (base + i * Z.of_nat n + Z.of_nat n)),
      (Z.leb_spec base j), (Z.ltb_spec j (base + i * Z.of_nat n)),
      (Z.ltb_spec j (base + (i + 1) * Z.of_nat n)); simpl; try lia; try done.
    destruct (Hdiv j) as [-> ->]; [lia|]. by rewrite Ev.
  - rewrite IHg by lia.
    destruct (Z.leb_spec base j), (Z.ltb_spec j (base + i * Z.of_nat n)),
      (Z.ltb_spec j (base + (i + 1) * Z.of_nat n)); simpl; try lia; try done.
    destruct (Hdiv j) as [-> ->]; [lia|]. by rewrite Ev.
Qed.

(** [b'] is [b] up to the bytes below [c]. *)
Definition same_from (c : Z) (b b' : list Z) : Prop :=
  zlen b' = zlen b ∧ ∀ j, c ≤ j → zget 0 b' j = zget 0 b j.

Lemma same_from_splice c b off d b' :
  0 ≤ off → off + zlen d ≤ c → c ≤ zlen b → same_from c b' b → same_from c b' (splice b off d).
Proof.
  intros H1 H2 H3 [Hl Hg]. pose proof (zlen_nonneg d). split; [by rewrite zlen_splice by lia|].
  intros j Hj. rewrite splice_get by lia. rewrite <- Hg by done.
  destruct (Z.leb_spec off j), (Z.ltb_spec j (off + zlen d)); simpl; done || lia.
Qed.

Lemma same_from_refl c b : same_from c b b.
Proof. done. Qed.

Lemma same_from_putBE c b n off v b' :
  0 ≤ off → off + Z.of_nat n ≤ c → c ≤ zlen b' → same_from c b' b → same_from c b' (putBE n b off v).
Proof.
  intros ? ? ? [Hl Hg]. apply same_from_splice; rewrite ?zlen_be_encode; done || lia.
Qed.

Lemma same_from_copyAt c b off s b' :
  0 ≤ off → off + zlen s ≤ c → c ≤ zlen b' → same_from c b' b → same_from c b' (copyAt b off s).
Proof.
  intros ? ? ? [Hl Hg]. rewrite copyAt_fits by lia. apply same_from_splice; done || lia.
Qed.

Lemma create_fixed_low lay vs b :
  512 ≤ zlen b → same_from 512 b (create_fixed lay vs b).
Proof.
  intros Hb. unfold create_fixed.
  repeat (apply same_from_putBE; [done|done|done|]). apply same_from_copyAt; done.
Qed.

Lemma roundUp8_le v : 0 ≤ v < 2 ^ 63 → v ≤ roundUp8 v ≤ v + 7 ∧ roundUp8 v mod 8 = 0.
Proof.
  intros Hv. unfold roundUp8. rewrite u64_id by lia.
  assert (Z.ldiff (v + 7) 7 = (v + 7) / 8 * 8) as ->.
  { change 7 with (Z.ones 3) at 2. rewrite Z.ldiff_ones_r, Z.shiftl_mul_pow2, Z.shiftr_div_pow2 by lia. done. }
  rewrite Z.mod_mul by lia.
  pose proof (Z.div_mod (v + 7) 8 ltac:(lia)). pose proof (Z.mod_pos_bound (v + 7) 8 ltac:(lia)). lia.
Qed.

(** The name of a backing format is at most 16 bytes ("raw", "qcow2"). *)
Lemma create_backing_low cs path fmt b b' :
  512 ≤ cs ≤ zlen b → zlen fmt ≤ 16 → create_backing cs path fmt b = Ok b' → same_from cs b b'.
Proof.
  intros Hb Hf. pose proof (zlen_nonneg fmt). pose proof (zlen_nonneg path).
  pose proof (roundUp8_le (zlen fmt) ltac:(lia)). unfold create_backing.
  destruct (zlen path =? 0); [by intros [= <-]|]. change qcow2HeaderLen with 112.
  rewrite (u64_id (112 + 8 + _)) by lia. rewrite (u64_id (112 + 8 + _ + 8)) by lia.
  change maxBackingNameLen with 1023.
  destruct (Z.ltb_spec 1023 (zlen path)); [done|]. rewrite u64_id by lia.
  destruct (Z.ltb_spec cs (112 + 8 + roundUp8 (zlen fmt) + 8 + zlen path)); [done|]. simpl.
  intros [= <-]. apply same_from_copyAt; [lia..|].
  repeat (apply same_from_putBE; [lia..|]). apply same_from_copyAt; [lia..|].
  repeat (apply same_from_putBE; [lia..|]). done.
Qed.

Lemma create_backing_ok cs path fmt b :
  512 ≤ cs → zlen path ≤ 256 → zlen fmt ≤ 16 → ∃ b', create_backing cs path fmt b = Ok b'.
Proof.
  intros Hb Hp Hf. pose proof (zlen_nonneg fmt). pose proof (zlen_nonneg path).
  pose proof (roundUp8_le (zlen fmt) ltac:(lia)). unfold create_backing.
  destruct (zlen path =? 0); [eauto|]. change qcow2HeaderLen with 112.
  rewrite (u64_id (112 + 8 + _)) by lia. rewrite (u64_id (112 + 8 + _ + 8)) by lia. rewrite u64_id by lia.
  change maxBackingNameLen with 1023.
  destruct (Z.ltb_spec 1023 (zlen path)); [lia|].
  destruct (Z.ltb_spec cs (112 + 8 + roundUp8 (zlen fmt) + 8 + zlen path)); [lia|]. eauto.
Qed.

(** ** The created file *)

Lemma fold_fwrite_spec base cs (d : Z → list Z) m f :
  0 < cs → (∀ k, zlen (d k) = cs) → 0 ≤ m →
  let g := fold_left (λ f k, fwrite f (base + k * cs) (d k)) (seqZ 0 m) f in
  fsize g = (if m =? 0 then fsize f else Z.max (fsize f) (base + m * cs)) ∧
  ∀ i, fbyte g i = if (base <=? i) && (i <? base + m * cs)
                   then zget 0 (d ((i - base) / cs)) ((i - base) mod cs) else fbyte f i.
Proof.
  intros Hcs Hd Hm. rewrite <- (Z2Nat.id m Hm). clear Hm. induction (Z.to_nat m) as [|k IH].
  { split; [done|]. intros i. change (Z.of_nat 0) with 0. rewrite Z.mul_0_l.
    destruct (Z.leb_spec base i), (Z.ltb_spec i (base + 0)); simpl; done || lia. }
  rewrite Nat2Z.inj_succ, <- Z.add_1_r in *. destruct IH as [IHs IHb].
  rewrite seqZ_app, fold_left_app, Z.add_0_l by lia.
  replace (seqZ (Z.of_nat k) 1) with [Z.of_nat k] by (unfold seqZ; simpl; f_equal; lia). cbn [fold_left].
  set (g := fold_left _ _ _) in *. set (n := Z.of_nat k) in *.
  assert (Hn : 0 ≤ n) by (unfold n; lia). assert (Hnc : 0 ≤ n * cs) by (apply Z.mul_nonneg_nonneg; lia).
  split.
  - rewrite fsize_fwrite, IHs, Hd. destruct (Z.eqb_spec cs 0), (Z.eqb_spec n 0), (Z.eqb_spec (n + 1) 0); lia.
  - intros i. rewrite fbyte_fwrite, IHb, Hd.
    destruct (Z.leb_spec (base + n * cs) i), (Z.ltb_spec i (base + n * cs + cs)), (Z.leb_spec base i),
      (Z.ltb_spec i (base + n * cs)), (Z.ltb_spec i (base + (n + 1) * cs)); simpl; try lia; try done.
    assert ((i - base) / cs = n) as Hq by (symmetry; apply Z.div_unique with (r := i - base - n * cs); lia).
    rewrite Z.mod_eq, Hq by lia. f_equal. lia.
Qed.

Section Created.
Context (vs bits cs : Z) (prealloc : bool) (lay : qcow2Layout) (buf0 : list Z).
Hypothesis Hcs : cs = 2 ^ bits.
Hypothesis Hbits : 9 ≤ bits ≤ 21.
Hypothesis Hvs : 0 < vs ≤ maxVirtualSize.
Hypothesis Hlay : layout_ok vs bits prealloc lay.
Let L := lay_refblockOff lay + lay_refUsedCls lay * cs.
Hypothesis Hlen : zlen buf0 = L.
Hypothesis Hlow : ∀ j, cs ≤ j → zget 0 buf0 j = 0.
Let f := create_file lay (create_refs lay buf0).

Lemma created_sizes :
  (512 ≤ cs ≤ 2097152 ∧ cs = 8 * (cs / 8) ∧ cs = 2 * (cs / 2)) ∧
  lay_clusterSize lay = cs ∧
  (0 < lay_l1Size lay ∧ 0 < lay_l1Clusters lay ∧ 0 ≤ lay_l2Count lay) ∧
  (0 < lay_refblockCnt lay ∧ 0 < lay_reftableCls lay ∧ 0 < lay_physMeta lay) ∧
  L ≤ lay_l1Off lay ∧ lay_refblockOff lay + 2 * lay_physMeta lay ≤ L ∧
  lay_refblockCnt lay ≤ lay_reftableCls lay * (cs / 8) ∧
  lay_physMeta lay ≤ lay_refblockCnt lay * (cs / 2) ∧
  (lay_l1Size lay * 8 ≤ lay_l1Clusters lay * cs) ∧ vs ≤ lay_l1Size lay * (cs / 8 * cs) ∧
  lay_refUsedCls lay ≤ lay_refblockCnt lay.
Proof.
  destruct Hlay. unfold L. rewrite lo_cs.
  pose proof (pow2_bits bits Hbits) as Hc.
  pose proof (cs_div8 bits ltac:(lia)) as H8. pose proof (cs_div2 bits ltac:(lia)) as H2.
  rewrite <- Hcs in *.
  pose proof (cdiv_bounds vs (cs / 8 * cs) ltac:(nia)) as B1. rewrite <- lo_l1Size in B1.
  assert (0 < lay_l1Size lay) by nia.
  pose proof (cdiv_bounds (lay_l1Size lay * 8) cs ltac:(lia)) as B2. rewrite <- lo_l1Clusters in B2.
  assert (0 < lay_l1Clusters lay) by nia.
  assert (0 ≤ lay_l2Count lay) by (rewrite lo_l2Count; destruct prealloc; lia).
  assert (0 < cdiv vs cs) by (pose proof (cdiv_bounds vs cs ltac:(lia)); nia).
  assert (0 < lay_physMeta lay).
  { apply (Z.mul_pos_cancel_r _ cs); [lia|]. pose proof (Z.mul_nonneg_nonneg (lay_l2Count lay) cs). lia. }
  pose proof (cdiv_bounds (lay_physMeta lay + cdiv vs cs) (cs / 2) ltac:(lia)) as B3.
  rewrite <- lo_refblocks in B3.
  assert (0 < lay_refblockCnt lay) by (apply (Z.mul_pos_cancel_l (cs / 2)); lia).
  pose proof (cdiv_bounds (lay_refblockCnt lay) (cs / 8) ltac:(lia)) as B4. rewrite <- lo_reftable in B4.
  assert (0 < lay_reftableCls lay) by (apply (Z.mul_pos_cancel_l (cs / 8)); lia).
  pose proof (cdiv_bounds (2 * lay_physMeta lay) cs ltac:(lia)) as B5. rewrite <- lo_refUsed in B5.
  assert (Hcc : cs * lay_refblockCnt lay = 2 * (cs / 2 * lay_refblockCnt lay)) by (rewrite H2 at 1; ring).
  assert (Hu : lay_refUsedCls lay - 1 < lay_refblockCnt lay).
  { apply (Z.mul_lt_mono_pos_l cs); lia. }
  assert (lay_refUsedCls lay * cs ≤ lay_refblockCnt lay * cs) by (apply Z.mul_le_mono_nonneg_r; lia).
  split_and!; lia.
Qed.

Lemma created_int64 :
  int64 (lay_l1Off lay) = lay_l1Off lay ∧
  int64 (u64 (lay_l2Off lay + lay_l2Count lay * cs)) = lay_physMeta lay * cs ∧
  0 < lay_reftableOff lay ∧ lay_refblockOff lay ≤ lay_l1Off lay ≤ lay_l2Off lay ∧
  lay_l2Off lay ≤ lay_physMeta lay * cs < 2 ^ 55 ∧ cs ≤ lay_refblockOff lay.
Proof.
  destruct created_sizes as ((? & ? & ?) & ? & (? & ? & ?) & (? & ? & ?) & ?).
  destruct Hlay. rewrite <- Hcs in *.
  assert (0 ≤ lay_refblockCnt lay * cs ∧ 0 ≤ lay_l1Clusters lay * cs ∧ 0 ≤ lay_l2Count lay * cs ∧
          0 ≤ lay_reftableCls lay * cs) by (split_and!; apply Z.mul_nonneg_nonneg; lia).
  split_and!; try lia; [apply int64_id; lia|]. rewrite u64_id by lia. rewrite int64_id; lia.
Qed.

Lemma l1_cluster_spec k :
  0 ≤ k < lay_l1Clusters lay →
  zlen (l1_cluster lay k) = cs ∧
  ∀ j, 0 ≤ j < cs → zget 0 (l1_cluster lay k) j =
    let e := k * (cs / 8) + j / 8 in
    if e <? lay_l2Count lay then zget 0 (be_encode 8 (Z.lor (lay_l2Off lay + e * cs) oflagCopied)) (j mod 8) else 0.
Proof.
  intros Hk. destruct created_sizes as ((Hc & H8 & _) & Hlc & _).
  destruct created_int64 as (_ & _ & _ & _ & Hp & _).
  unfold l1_cluster. rewrite Hlc. cbv zeta.
  match goal with |- context [putEach 8 0 ?v _ _] => set (v0 := v) end.
  destruct (putEach_spec 8 0 v0 (cs / 8) (replicate (Z.to_nat cs) 0)) as [Hl Hg];
    [lia..|rewrite zlen_replicate; lia|].
  rewrite Hl, zlen_replicate. split; [lia|]. intros j Hj. rewrite Hg by lia. rewrite Z.sub_0_r.
  change (Z.of_nat 8) with 8. unfold v0.
  destruct (Z.leb_spec 0 j), (Z.ltb_spec j (0 + cs / 8 * 8)); simpl; try lia.
  pose proof (Z.div_mod j 8 ltac:(lia)). pose proof (Z.mod_pos_bound j 8 ltac:(lia)).
  assert (0 ≤ k * (cs / 8) + j / 8 < 2 ^ 55).
  { pose proof (lo_l2Off _ _ _ _ Hlay). rewrite <- Hcs in *. destruct created_int64 as (_ & _ & _ & ? & _ & ?).
    assert ((k + 1) * (cs / 8) ≤ lay_l1Clusters lay * cs) by (apply Z.mul_le_mono_nonneg; lia).
    assert (0 ≤ k * (cs / 8)) by (apply Z.mul_nonneg_nonneg; lia). lia. }
  rewrite (u64_id (k * (cs / 8) + j / 8)) by lia.
  destruct (Z.ltb_spec (k * (cs / 8) + j / 8) (lay_l2Count lay)).
  - rewrite u64_id; [done|].
    assert (0 ≤ (k * (cs / 8) + j / 8) * cs) by (apply Z.mul_nonneg_nonneg; lia).
    assert ((k * (cs / 8) + j / 8) * cs ≤ lay_l2Count lay * cs) by (apply Z.mul_le_mono_nonneg_r; lia).
    pose proof (lo_bound _ _ _ _ Hlay). rewrite <- Hcs in *. lia.
  - apply zget_replicate.
Qed.


(** The buffer: refcount table and refcounts. *)
Lemma create_refs_spec :
  zlen (create_refs lay buf0) = L ∧
  (∀ j, 0 ≤ j < cs → zget 0 (create_refs lay buf0) j = zget 0 buf0 j) ∧
  (∀ k, 0 ≤ k < lay_reftableCls lay * (cs / 8) → ∀ j, 0 ≤ j < 8 →
     zget 0 (create_refs lay buf0) (cs + k * 8 + j) =
     if k <? lay_refblockCnt lay then zget 0 (be_encode 8 (lay_refblockOff lay + k * cs)) j else 0) ∧
  (∀ c j, 0 ≤ c → 0 ≤ j < 2 → zget 0 (create_refs lay buf0) (lay_refblockOff lay + 2 * c + j) =
     if c <? lay_physMeta lay then zget 0 (be_encode 2 1) j else 0).
Proof.
  destruct created_sizes as ((Hc & H8 & H2) & Hlc & _ & (Hb & Ht & Hp) & HL & HL2 & Hbt & _).
  destruct created_int64 as (_ & _ & _ & Ho1 & Ho2 & Ho3).
  pose proof (lo_reftableOff _ _ _ _ Hlay) as Hro. pose proof (lo_refblockOff _ _ _ _ Hlay) as Hbo.
  rewrite <- Hcs in *. unfold create_refs. rewrite Hlc, Hro.
  assert (Htc : lay_reftableCls lay * (cs / 8) * 8 = lay_reftableCls lay * cs) by lia.
  match goal with |- context [putEach 8 cs ?v _ _] => set (v0 := v) end.
  destruct (putEach_spec 8 cs v0 (lay_refblockCnt lay) buf0) as [Hl1 Hg1]; [lia..|].
  set (b1 := putEach 8 cs _ _ _) in *.
  destruct (putEach_spec 2 (lay_refblockOff lay) (λ _, Some 1) (lay_physMeta lay) b1) as [Hl2 Hg2]; [lia..|].
  set (b2 := putEach 2 _ _ _ _) in *. change (Z.of_nat 8) with 8 in *. change (Z.of_nat 2) with 2 in *.
  split_and!; [lia|..].
  - intros j Hj. rewrite Hg2, Hg1 by lia.
    destruct (Z.leb_spec (lay_refblockOff lay) j), (Z.leb_spec cs j); simpl; done || lia.
  - intros k Hk j Hj. rewrite Hg2, Hg1 by lia.
    destruct (Z.leb_spec (lay_refblockOff lay) (cs + k * 8 + j)); simpl; [lia|].
    assert ((cs + k * 8 + j - cs) / 8 = k ∧ (cs + k * 8 + j - cs) mod 8 = j) as [-> ->].
    { replace (cs + k * 8 + j - cs) with (j + k * 8) by lia.
      rewrite Z.div_add, Z.mod_add, Z.div_small, Z.mod_small by lia. lia. }
    destruct (Z.leb_spec cs (cs + k * 8 + j)); simpl; [|lia].
    destruct (Z.ltb_spec (cs + k * 8 + j) (cs + lay_refblockCnt lay * 8)),
      (Z.ltb_spec k (lay_refblockCnt lay)); simpl; try lia; [|apply Hlow; lia].
    unfold v0. rewrite u64_id; [done|].
    assert (0 ≤ k * cs ≤ lay_refblockCnt lay * cs).
    { split; [apply Z.mul_nonneg_nonneg; lia|apply Z.mul_le_mono_nonneg_r; lia]. }
    pose proof (lo_l1Off _ _ _ _ Hlay). rewrite <- Hcs in *. lia.
  - intros c j Hcr Hj. rewrite Hg2 by lia.
    assert ((lay_refblockOff lay + 2 * c + j - lay_refblockOff lay) mod 2 = j) as ->.
    { replace (lay_refblockOff lay + 2 * c + j - lay_refblockOff lay) with (j + c * 2) by lia.
      rewrite Z.mod_add, Z.mod_small by lia. done. }
    destruct (Z.leb_spec (lay_refblockOff lay) (lay_refblockOff lay + 2 * c + j)); simpl; [|lia].
    destruct (Z.ltb_spec (lay_refblockOff lay + 2 * c + j) (lay_refblockOff lay + lay_physMeta lay * 2)),
      (Z.ltb_spec c (lay_physMeta lay)); simpl; try lia.
    rewrite Hg1 by lia.
    destruct (Z.leb_spec cs (lay_refblockOff lay + 2 * c + j)),
      (Z.ltb_spec (lay_refblockOff lay + 2 * c + j) (cs + lay_refblockCnt lay * 8)); simpl; try lia;
      apply Hlow; lia.
Qed.

Lemma created_file :
  fsize f = lay_physMeta lay * cs ∧
  ∀ i, 0 ≤ i → fbyte f i =
    if i <? lay_l1Off lay then zget 0 (create_refs lay buf0) i
    else if i <? lay_l2Off lay
         then zget 0 (l1_cluster lay ((i - lay_l1Off lay) / cs)) ((i - lay_l1Off lay) mod cs) else 0.
Proof.
  destruct created_sizes as ((Hc & H8 & H2) & Hlc & (Hl1 & Hl1c & Hl2) & (Hb & Ht & Hp) & HL & HL2 & _).
  destruct created_int64 as (Hi1 & Hi2 & _ & Ho1 & Ho2 & Ho3). destruct create_refs_spec as (Hlr & _).
  pose proof (lo_l2Off _ _ _ _ Hlay) as Hl2o. pose proof (lo_physMeta _ _ _ _ Hlay) as Hpm. rewrite <- Hcs in *.
  unfold f, create_file. rewrite Hlc, Hi1, Hi2. set (b := create_refs lay buf0) in *.
  set (f1 := file_Truncate (fwrite empty_file 0 b) _).
  assert (Hf1 : ∀ i, 0 ≤ i → fbyte f1 i = if i <? lay_l1Off lay then zget 0 b i else 0).
  { intros i Hi. unfold f1. rewrite fbyte_Truncate. destruct (Z.ltb_spec i (lay_l1Off lay)); [|done].
    rewrite fbyte_fwrite, Hlr, Z.sub_0_r.
    destruct (Z.leb_spec 0 i), (Z.ltb_spec i (0 + L)); simpl; try lia.
    rewrite zget_over; [done|lia]. }
  set (g := fold_left _ _ f1).
  assert (Hg : fsize g = lay_l2Off lay ∧ ∀ i, 0 ≤ i → fbyte g i =
    if i <? lay_l1Off lay then zget 0 b i else if i <? lay_l2Off lay
         then zget 0 (l1_cluster lay ((i - lay_l1Off lay) / cs)) ((i - lay_l1Off lay) mod cs) else 0).
  { destruct (fold_fwrite_spec (lay_l1Off lay) cs (λ k, if (0 <=? k) && (k <? lay_l1Clusters lay) then l1_cluster lay k else replicate (Z.to_nat cs) 0)
      (lay_l1Clusters lay) f1) as [Hs Hby]; [lia| |lia|].
    { intros k. destruct (Z.leb_spec 0 k), (Z.ltb_spec k (lay_l1Clusters lay)); simpl;
        rewrite ?zlen_replicate; try lia. by apply l1_cluster_spec. }
    assert (Heq : fold_left (λ f k, fwrite f (lay_l1Off lay + k * cs)
                    (if (0 <=? k) && (k <? lay_l1Clusters lay) then l1_cluster lay k else replicate (Z.to_nat cs) 0))
                    (seqZ 0 (lay_l1Clusters lay)) f1 = g).
    { apply fold_left_ext_in. intros h k Hk. apply list_elem_of_In, elem_of_seqZ in Hk.
      destruct (Z.leb_spec 0 k), (Z.ltb_spec k (lay_l1Clusters lay)); simpl; done || lia. }
    rewrite Heq in Hs, Hby. split.
    { rewrite Hs. destruct (Z.eqb_spec (lay_l1Clusters lay) 0); [lia|]. unfold f1. simpl. lia. }
    intros i Hi. rewrite Hby, Hf1 by done. rewrite <- Hl2o.
    destruct (Z.leb_spec (lay_l1Off lay) i), (Z.ltb_spec i (lay_l2Off lay)), (Z.ltb_spec i (lay_l1Off lay));
      simpl; try lia; try done.
    assert (0 ≤ (i - lay_l1Off lay) / cs < lay_l1Clusters lay).
    { split; [apply Z.div_pos; lia|apply Z.div_lt_upper_bound; lia]. }
    destruct (Z.leb_spec 0 ((i - lay_l1Off lay) / cs)), (Z.ltb_spec ((i - lay_l1Off lay) / cs) (lay_l1Clusters lay));
      simpl; done || lia. }
  destruct Hg as [Hgs Hgb]. destruct (Z.ltb_spec 0 (lay_l2Count lay)).
  - split; [done|]. intros i Hi. rewrite fbyte_Truncate, Hgb by done.
    destruct (Z.ltb_spec i (lay_physMeta lay * cs)), (Z.ltb_spec i (lay_l1Off lay)), (Z.ltb_spec i (lay_l2Off lay));
      done || lia.
  - assert (lay_l2Count lay = 0) as Hz by lia. rewrite Hz in Hpm. split; [lia|done].
Qed.


(** ** The invariant of a fresh image *)

(** Who owns each cluster of the created file. *)
Definition created_owner (c : Z) : region :=
  let blk0 := 1 + lay_reftableCls lay in
  let l10 := blk0 + lay_refblockCnt lay in
  let l20 := l10 + lay_l1Clusters lay in
  if c <? 0 then RFree
  else if c =? 0 then RHeader
  else if c <? blk0 then RRefTable
  else if c <? l10 then RRefBlock (c - blk0)
  else if c <? l20 then RL1
  else if c <? l20 + lay_l2Count lay then RL2 (c - l20)
  else RFree.

Definition created_hdr : qcow2Header :=
  {| h_size := vs; h_l1Offset := lay_l1Off lay; h_l1Size := lay_l1Size lay;
     h_refcountOffset := lay_reftableOff lay; h_refcountClusters := lay_reftableCls lay;
     h_snapshots := 0; h_snapshotsOffset := 0 |}.

(** The L1 table as the open loads it. *)
Definition created_l1 : list Z :=
  map (λ k, if k <? lay_l2Count lay then Z.lor (lay_l2Off lay + k * cs) oflagCopied else 0)
      (seqZ 0 (lay_l1Size lay)).

Lemma created_l1_entry k :
  0 ≤ k < lay_l1Size lay →
  zget 0 created_l1 k = if k <? lay_l2Count lay then Z.lor (lay_l2Off lay + k * cs) oflagCopied else 0.
Proof.
  intros Hk. unfold created_l1. rewrite (zget_map 0) by (rewrite zlen_seqZ; lia).
  by rewrite zget_seqZ by lia.
Qed.

Lemma zlen_created_l1 : zlen created_l1 = lay_l1Size lay.
Proof. destruct created_sizes as (_ & _ & (? & _) & _). unfold created_l1. rewrite zlen_map, zlen_seqZ; lia. Qed.

(** Layout offsets as cluster numbers. *)
Lemma created_offsets :
  lay_reftableOff lay = cs ∧ lay_refblockOff lay = (1 + lay_reftableCls lay) * cs ∧
  lay_l1Off lay = (1 + lay_reftableCls lay + lay_refblockCnt lay) * cs ∧
  lay_l2Off lay = (1 + lay_reftableCls lay + lay_refblockCnt lay + lay_l1Clusters lay) * cs ∧
  lay_physMeta lay = 1 + lay_reftableCls lay + lay_refblockCnt lay + lay_l1Clusters lay + lay_l2Count lay.
Proof.
  destruct created_sizes as ((? & _) & _). destruct Hlay. rewrite <- Hcs in *. split_and!; try lia.
  apply (Z.mul_cancel_r _ _ cs); lia.
Qed.

Lemma l2_offset_range k : 0 ≤ k < lay_l2Count lay →
  0 < lay_l2Off lay + k * cs < 2 ^ 55 ∧ lay_l2Off lay + k * cs + cs ≤ lay_physMeta lay * cs.
Proof.
  intros Hk. destruct created_sizes as ((? & _) & _). destruct created_offsets as (_ & _ & _ & Hl2 & Hp).
  destruct created_int64 as (_ & _ & _ & ? & ? & ?).
  assert (0 ≤ k * cs) by (apply Z.mul_nonneg_nonneg; lia).
  assert ((k + 1) * cs ≤ lay_l2Count lay * cs) by (apply Z.mul_le_mono_nonneg_r; lia). rewrite Hp in *. lia.
Qed.

Lemma created_l1_disk k : 0 ≤ k < lay_l1Size lay → l1_disk created_hdr f k = zget 0 created_l1 k.
Proof.
  intros Hk. destruct created_sizes as ((Hc & H8 & _) & _ & (Hs & Hlc & Hl2) & _ & _ & _ & _ & _ & Hl18 & _).
  destruct created_file as [_ Hby]. destruct created_int64 as (_ & _ & _ & Ho & Hpo & Hpo2).
  pose proof (lo_l2Off _ _ _ _ Hlay) as Hl2o. rewrite <- Hcs in Hl2o.
  rewrite created_l1_entry by done. unfold l1_disk. simpl.
  set (v := if k <? lay_l2Count lay then Z.lor (lay_l2Off lay + k * cs) oflagCopied else 0).
  assert (Hv : 0 ≤ v < 2 ^ 64).
  { unfold v. destruct (Z.ltb_spec k (lay_l2Count lay)); [|lia]. pose proof (l2_offset_range k ltac:(lia)).
    apply copied_entry; [lia|]. destruct created_offsets as (_ & _ & _ & -> & _).
    rewrite <- Z.mul_add_distr_r. assert (Hd : cs = 2 ^ (bits - 9) * 512) by (rewrite Hcs; apply pow2_split; lia).
    rewrite Hd, Z.mul_assoc. apply Z.mod_mul. lia. }
  replace (fread f (lay_l1Off lay + k * 8) 8) with (be_encode 8 v); [by apply be64_decode_encode|].
  symmetry. apply (zget_eq 0); rewrite zlen_fread by lia; [by rewrite zlen_be_encode|].
  intros j Hj. rewrite zget_fread, Hby by lia.
  destruct (Z.ltb_spec (lay_l1Off lay + k * 8 + j) (lay_l1Off lay)); [lia|].
  destruct (Z.ltb_spec (lay_l1Off lay + k * 8 + j) (lay_l2Off lay)); [|lia].
  replace (lay_l1Off lay + k * 8 + j - lay_l1Off lay) with (k * 8 + j) by lia.
  assert (Hq : (k * 8 + j) / cs = k / (cs / 8) ∧ (k * 8 + j) mod cs = k mod (cs / 8) * 8 + j).
  { pose proof (Z.div_mod k (cs / 8) ltac:(lia)). pose proof (Z.mod_pos_bound k (cs / 8) ltac:(lia)).
    assert ((k * 8 + j) / cs = k / (cs / 8)) as Hq.
    { symmetry. apply Z.div_unique with (r := k mod (cs / 8) * 8 + j); [lia|]. rewrite H8 at 1. lia. }
    split; [done|]. rewrite Z.mod_eq, Hq by lia. rewrite H8 at 1. lia. }
  destruct Hq as [-> ->]. pose proof (Z.mod_pos_bound k (cs / 8) ltac:(lia)).
  destruct (l1_cluster_spec (k / (cs / 8))) as [_ Hg].
  { split; [apply Z.div_pos; lia|]. apply Z.div_lt_upper_bound; lia. }
  rewrite Hg by lia. cbv zeta.
  destruct (divmod_entry 8 (k mod (cs / 8)) j) as [-> ->]; [lia|].
  replace (k / (cs / 8) * (cs / 8) + k mod (cs / 8)) with k by (pose proof (Z.div_mod k (cs / 8)); lia).
  unfold v. destruct (Z.ltb_spec k (lay_l2Count lay)); [done|].
  change (be_encode 8 0) with (replicate 8 0). by rewrite zget_replicate.
Qed.

Lemma created_reft k :
  0 ≤ k < lay_reftableCls lay * (cs / 8) →
  reft_at created_hdr f k = if k <? lay_refblockCnt lay then lay_refblockOff lay + k * cs else 0.
Proof.
  intros Hk. destruct created_sizes as ((Hc & H8 & _) & _ & _ & (Hb & _) & _).
  destruct created_file as [_ Hby]. destruct created_int64 as (_ & _ & _ & Ho & Hpo & Hpo2).
  destruct create_refs_spec as (_ & _ & Hr & _). destruct created_offsets as (Hro & Hbo & Hl1o & _).
  set (v := if k <? lay_refblockCnt lay then lay_refblockOff lay + k * cs else 0).
  assert (Hv : 0 ≤ v < 2 ^ 64).
  { unfold v. destruct (Z.ltb_spec k (lay_refblockCnt lay)); [|lia].
    assert (k * cs ≤ lay_refblockCnt lay * cs) by (apply Z.mul_le_mono_nonneg_r; lia).
    assert (0 ≤ k * cs) by (apply Z.mul_nonneg_nonneg; lia). lia. }
  unfold reft_at. simpl. rewrite Hro.
  replace (fread f (cs + k * 8) 8) with (be_encode 8 v); [by apply be64_decode_encode|].
  symmetry. apply (zget_eq 0); rewrite zlen_fread by lia; [by rewrite zlen_be_encode|].
  intros j Hj. rewrite zget_fread, Hby by lia.
  assert (lay_reftableCls lay * (cs / 8) * 8 = lay_reftableCls lay * cs) by lia.
  assert (0 ≤ lay_refblockCnt lay * cs) by (apply Z.mul_nonneg_nonneg; lia).
  destruct (Z.ltb_spec (cs + k * 8 + j) (lay_l1Off lay)); [|lia]. rewrite Hr by lia. unfold v.
  destruct (Z.ltb_spec k (lay_refblockCnt lay)); [done|].
  change (be_encode 8 0) with (replicate 8 0). by rewrite zget_replicate.
Qed.


Lemma owner_at c :
  (c = 0 → created_owner c = RHeader) ∧
  (1 ≤ c < 1 + lay_reftableCls lay → created_owner c = RRefTable) ∧
  (∀ k, 0 ≤ k < lay_refblockCnt lay → c = 1 + lay_reftableCls lay + k → created_owner c = RRefBlock k) ∧
  (1 + lay_reftableCls lay + lay_refblockCnt lay ≤ c <
   1 + lay_reftableCls lay + lay_refblockCnt lay + lay_l1Clusters lay → created_owner c = RL1) ∧
  (∀ k, 0 ≤ k < lay_l2Count lay →
     c = 1 + lay_reftableCls lay + lay_refblockCnt lay + lay_l1Clusters lay + k → created_owner c = RL2 k) ∧
  (lay_physMeta lay ≤ c → created_owner c = RFree) ∧
  (0 ≤ c → created_owner c ≠ RFree → c < lay_physMeta lay).
Proof.
  destruct created_sizes as (_ & _ & (? & ? & ?) & (? & ? & ?) & _).
  destruct created_offsets as (_ & _ & _ & _ & Hp). unfold created_owner.
  destruct (Z.ltb_spec c 0), (Z.eqb_spec c 0), (Z.ltb_spec c (1 + lay_reftableCls lay)),
    (Z.ltb_spec c (1 + lay_reftableCls lay + lay_refblockCnt lay)),
    (Z.ltb_spec c (1 + lay_reftableCls lay + lay_refblockCnt lay + lay_l1Clusters lay)),
    (Z.ltb_spec c (1 + lay_reftableCls lay + lay_refblockCnt lay + lay_l1Clusters lay + lay_l2Count lay));
    split_and!; intros; try lia; try done; try (f_equal; lia).
Qed.

Lemma created_gentry ci :
  0 ≤ ci → ci * cs < vs → gentry created_hdr bits cs f created_l1 ci = 0.
Proof.
  intros Hci Hs. destruct created_sizes as ((Hc & H8 & _) & _ & (Hl1 & _ & Hl2) & _ & _ & _ & _ & _ & _ & Hvl & _).
  destruct created_file as [_ Hby]. unfold gentry, guest_entry. simpl.
  unfold l1_off. simpl. set (k := ci / (cs / 8)).
  assert (Hk : 0 ≤ k < lay_l1Size lay).
  { split; [apply Z.div_pos; lia|]. apply Z.div_lt_upper_bound; [lia|].
    apply (Z.mul_lt_mono_pos_r cs); lia. }
  rewrite created_l1_entry by done. destruct (Z.ltb_spec k (lay_l2Count lay)); [|done].
  destruct (l2_offset_range k ltac:(lia)) as [Hr1 Hr2].
  destruct (copied_entry (lay_l2Off lay + k * cs)) as (Hm & _).
  { lia. }
  { destruct created_offsets as (_ & _ & _ & -> & _). rewrite <- Z.mul_add_distr_r.
    assert (Hd : cs = 2 ^ (bits - 9) * 512) by (rewrite Hcs; apply pow2_split; lia).
    rewrite Hd, Z.mul_assoc. apply Z.mod_mul. lia. }
  change l1eOffsetMask with l2eOffsetMask. rewrite Hm.
  destruct (Z.eqb_spec (lay_l2Off lay + k * cs) 0); [lia|].
  unfold entry_at. replace (fread f _ 8) with (replicate 8 0); [done|].
  symmetry. apply (zget_eq 0); rewrite zlen_fread by lia; [done|]. intros j Hj.
  pose proof (Z.mod_pos_bound ci (cs / 8) ltac:(lia)).
  assert (0 ≤ k * cs) by (apply Z.mul_nonneg_nonneg; lia). destruct created_int64 as (_ & _ & _ & ? & _).
  rewrite zget_fread, Hby, zget_replicate by lia.
  destruct (Z.ltb_spec (lay_l2Off lay + k * cs + ci mod (cs / 8) * 8 + j) (lay_l1Off lay)); [lia|].
  destruct (Z.ltb_spec (lay_l2Off lay + k * cs + ci mod (cs / 8) * 8 + j) (lay_l2Off lay)); [lia|done].
Qed.

Lemma created_blk k :
  0 ≤ k < lay_reftableCls lay * (cs / 8) → blk created_hdr f k = reft_at created_hdr f k.
Proof.
  intros Hk. unfold blk. rewrite created_reft by done.
  destruct (Z.ltb_spec k (lay_refblockCnt lay)); [|done].
  destruct created_sizes as ((Hc & _) & _ & _ & (? & _) & _). destruct created_int64 as (_ & _ & _ & ? & ? & ?).
  destruct created_offsets as (_ & Hbo & Hl1o & _).
  assert (0 ≤ k * cs ≤ lay_refblockCnt lay * cs).
  { split; [apply Z.mul_nonneg_nonneg; lia|apply Z.mul_le_mono_nonneg_r; lia]. }
  apply reft_mask_id; [lia|]. apply (aligned_512 bits cs Hbits Hcs). rewrite Hbo, <- Z.mul_add_distr_r.
  apply Z.mod_mul. lia.
Qed.

Lemma created_owned : owned created_hdr bits cs created_owner f created_l1 (lay_physMeta lay * cs).
Proof.
  destruct created_sizes as ((Hc & H8 & _) & _ & (Hl1 & Hl1c & Hl2) & (Hb & Ht & Hp) & _ & _ & Hbt & _ & Hl18 & Hvl & _).
  destruct created_file as [Hsz _]. destruct created_int64 as (_ & _ & _ & Ho1 & Ho2 & Ho3).
  destruct created_offsets as (Hro & Hbo & Hl1o & Hl2o & Hpm).
  pose proof (lo_fit _ _ _ _ Hlay) as Hfit.
  assert (Hpos : 0 ≤ lay_refblockCnt lay * cs ∧ 0 ≤ lay_l2Count lay * cs ∧ 0 ≤ lay_l1Clusters lay * cs)
    by (split_and!; apply Z.mul_nonneg_nonneg; lia).
  assert (Hphys : lay_physMeta lay * cs = lay_l2Off lay + lay_l2Count lay * cs) by (rewrite Hpm, Hl2o; ring).
  split; rewrite ?zlen_created_l1, ?Hsz; simpl; try lia.
  - apply Z.mod_mul. lia.
  - intros c Hcc. apply owner_at. apply (Z.mul_le_mono_pos_r _ _ cs); lia.
  - by apply owner_at.
  - split; [rewrite Hl1o; apply Z.mod_mul; lia|lia].
  - intros k Hk. split_and!; [|lia|by apply created_l1_disk].
    apply owner_at. rewrite Hl1o, Z.div_add_l by lia.
    assert (0 ≤ k * 8 / cs < lay_l1Clusters lay); [|lia].
    split; [apply Z.div_pos; lia|]. apply Z.div_lt_upper_bound; lia.
  - intros k Hk. unfold loff. rewrite created_l1_entry by done.
    destruct (Z.ltb_spec k (lay_l2Count lay)); [|done]. intros _.
    destruct (l2_offset_range k ltac:(lia)) as [Hr1 Hr2].
    assert (Hal : (lay_l2Off lay + k * cs) mod cs = 0).
    { rewrite Hl2o, <- Z.mul_add_distr_r. apply Z.mod_mul. lia. }
    destruct (copied_entry (lay_l2Off lay + k * cs)) as (Hm & _); [lia|by apply (aligned_512 bits cs Hbits Hcs)|].
    change l1eOffsetMask with l2eOffsetMask. rewrite Hm. split_and!; [done| |lia].
    apply owner_at; [lia|]. rewrite Hl2o, <- Z.mul_add_distr_r. apply Z.div_mul. lia.
  - rewrite Hro. split_and!; try lia. by rewrite Z.mod_same by lia.
  - intros k Hk. unfold nblocks in Hk. simpl in Hk. split.
    + apply owner_at. rewrite Hro. replace (cs + k * 8) with (1 * cs + k * 8) by lia.
      rewrite Z.div_add_l by lia.
      assert (0 ≤ k * 8 / cs < lay_reftableCls lay); [|lia].
      split; [apply Z.div_pos; lia|]. apply Z.div_lt_upper_bound; lia.
    + rewrite Hro. assert (lay_reftableCls lay * (cs / 8) * 8 = lay_reftableCls lay * cs) by lia. lia.
  - intros k Hk. unfold nblocks in Hk. simpl in Hk. rewrite created_blk, created_reft by done.
    destruct (Z.ltb_spec k (lay_refblockCnt lay)); [|done]. intros _.
    assert (0 ≤ k * cs ∧ (k + 1) * cs ≤ lay_refblockCnt lay * cs).
    { split; [apply Z.mul_nonneg_nonneg; lia|apply Z.mul_le_mono_nonneg_r; lia]. }
    rewrite Hbo, <- Z.mul_add_distr_r, Z.mod_mul, Z.div_mul by lia. split_and!; [done| |lia..].
    apply owner_at; lia.
  - intros ci Hci Hs. rewrite created_gentry by done. done.
Qed.

Lemma created_refs : refs_ok created_hdr cs created_owner f [].
Proof.
  intros c Hc0 Hf _ _. destruct created_sizes as ((Hc & H8 & H2) & _ & _ & (Hb & Ht & Hp) & HL & HL2 & Hbt & Hpb & _).
  assert (Hcp : c < lay_physMeta lay) by (by apply owner_at).
  assert (Hk : 0 ≤ c / epb cs < lay_refblockCnt lay).
  { unfold epb. split; [apply Z.div_pos; lia|]. apply Z.div_lt_upper_bound; lia. }
  unfold nblocks. simpl. split; [lia|]. unfold refcount.
  rewrite created_blk, created_reft by lia. destruct (Z.ltb_spec (c / epb cs) (lay_refblockCnt lay)); [|lia].
  destruct created_int64 as (_ & _ & _ & Ho1 & Ho2 & Ho3).
  assert (0 ≤ c / epb cs * cs) by (apply Z.mul_nonneg_nonneg; lia).
  destruct (Z.eqb_spec (lay_refblockOff lay + c / epb cs * cs) 0); [lia|].
  replace (lay_refblockOff lay + c / epb cs * cs + c mod epb cs * 2) with (lay_refblockOff lay + 2 * c).
  2:{ unfold epb in *. pose proof (Z.div_mod c (cs / 2) ltac:(lia)).
    assert (c / (cs / 2) * cs = 2 * (cs / 2 * (c / (cs / 2)))) by (rewrite H2 at 2; ring). lia. }
  destruct created_file as [_ Hby]. destruct create_refs_spec as (_ & _ & _ & Hr).
  replace (fread f (lay_refblockOff lay + 2 * c) 2) with (be_encode 2 1); [done|].
  symmetry. apply (zget_eq 0); rewrite zlen_fread by lia; [done|]. intros j Hj.
  rewrite zget_fread, Hby by lia.
  destruct (Z.ltb_spec (lay_refblockOff lay + 2 * c + j) (lay_l1Off lay)); [|lia].
  rewrite Hr by lia. by destruct (Z.ltb_spec c (lay_physMeta lay)); [|lia].
Qed.
End Created.

(** ** Creation *)

(** The state of a created file opened for writing over [bk]. *)
Definition fresh_writable (lay : qcow2Layout) (vs : Z) (f : file) (bk : option guestImage) : qcow2Writable :=
  mkw (created_hdr vs lay) (lay_clusterBits lay) (lay_clusterSize lay) bk f
      (created_l1 (lay_clusterSize lay) lay) (fsize f) [].

Lemma layout_total vs bits prealloc :
  0 ≤ vs ≤ maxVirtualSize → bits = 0 ∨ 9 ≤ bits ≤ 21 →
  ∃ l b, computeQcow2Layout vs bits prealloc = Ok l ∧ 9 ≤ b ≤ 21 ∧ layout_ok vs b prealloc l.
Proof.
  intros Hvs Hb. destruct (computeQcow2Layout_ok vs bits prealloc Hvs Hb) as (l & Hl & Hok).
  exists l. eexists. split; [done|]. split; [|done]. unfold defaultClusterBits. case_if; bsimp; lia.
Qed.

(** The file and the buffer it came from. *)
Lemma createQcow2_file vs path fmt opt :
  0 < vs ≤ maxVirtualSize → ClusterBits opt = 0 ∨ 9 ≤ ClusterBits opt ≤ 21 →
  zlen path ≤ 256 → zlen fmt ≤ 16 →
  ∃ lay bits buf, computeQcow2Layout vs (ClusterBits opt) (PreallocMetadata opt) = Ok lay ∧
    9 ≤ bits ≤ 21 ∧ layout_ok vs bits (PreallocMetadata opt) lay ∧
    createQcow2 vs path fmt opt = Ok (create_file lay (create_refs lay buf)) ∧
    create_backing (2 ^ bits) path fmt
      (create_fixed lay vs (replicate (Z.to_nat (lay_refblockOff lay + lay_refUsedCls lay * 2 ^ bits)) 0)) = Ok buf ∧
    zlen buf = lay_refblockOff lay + lay_refUsedCls lay * 2 ^ bits ∧
    (∀ j, 2 ^ bits ≤ j → zget 0 buf j = 0).
Proof.
  intros Hvs Hb Hp Hf.
  destruct (layout_total vs (ClusterBits opt) (PreallocMetadata opt)) as (lay & bits & Hlay & Hbits & Hok); [lia|done|].
  destruct (created_sizes vs bits (2 ^ bits) _ lay eq_refl Hbits Hvs Hok)
    as ((Hc & _) & Hlc & _ & (? & ? & ?) & HL & HL2 & _).
  destruct (created_int64 vs bits (2 ^ bits) _ lay eq_refl Hbits Hvs Hok) as (_ & _ & _ & Ho & Hpm & Hcs).
  set (n := lay_refblockOff lay + lay_refUsedCls lay * 2 ^ bits) in *.
  destruct (create_backing_ok (2 ^ bits) path fmt (create_fixed lay vs (replicate (Z.to_nat n) 0)))
    as [buf Hbuf]; [lia..|].
  exists lay, bits, buf. unfold createQcow2. destruct (Z.eqb_spec vs 0); [lia|]. rewrite Hlay. simpl.
  rewrite Hlc, u64_id by lia. fold n. rewrite Hbuf.
  assert (Hz : zlen (replicate (Z.to_nat n) 0) = n) by (rewrite zlen_replicate; lia).
  destruct (create_fixed_low lay vs (replicate (Z.to_nat n) 0)) as [Hl1 Hg1]; [lia|].
  pose proof (λ H, create_backing_low (2 ^ bits) path fmt _ buf H Hf Hbuf) as Hbl. rewrite Hl1, Hz in Hbl.
  destruct (Hbl ltac:(lia)) as [Hl2 Hg2].
  split_and!; try done; try lia. intros j Hj. rewrite Hg2, Hg1 by lia. apply zget_replicate.
Qed.

Lemma fresh_ok vs path fmt opt bk :
  0 < vs ≤ maxVirtualSize → ClusterBits opt = 0 ∨ 9 ≤ ClusterBits opt ≤ 21 →
  zlen path ≤ 256 → zlen fmt ≤ 16 → backing_ok bk →
  ∃ lay f, computeQcow2Layout vs (ClusterBits opt) (PreallocMetadata opt) = Ok lay ∧
    createQcow2 vs path fmt opt = Ok f ∧ counted_ok (fresh_writable lay vs f bk) ∧
    w_fileSize (fresh_writable lay vs f bk) < 2 ^ 55 ∧
    ∀ i, 0 ≤ i < vs → disk_byte (fresh_writable lay vs f bk) i = below bk i.
Proof.
  intros Hvs Hb Hp Hf Hbk.
  destruct (createQcow2_file vs path fmt opt Hvs Hb Hp Hf)
    as (lay & bits & buf & Hlay & Hbits & Hok & Hcr & _ & Hlen & Hlow).
  pose proof (created_owned vs bits (2 ^ bits) _ lay buf eq_refl Hbits Hvs Hok Hlen Hlow) as HO.
  pose proof (created_refs vs bits (2 ^ bits) _ lay buf eq_refl Hbits Hvs Hok Hlen Hlow) as HR.
  destruct (created_file vs bits (2 ^ bits) _ lay buf eq_refl Hbits Hvs Hok Hlen Hlow) as [Hsz _].
  destruct (created_int64 vs bits (2 ^ bits) _ lay eq_refl Hbits Hvs Hok) as (_ & _ & _ & _ & Hpm & _).
  pose proof (created_gentry vs bits (2 ^ bits) _ lay buf eq_refl Hbits Hvs Hok Hlen Hlow) as HG.
  set (f := create_file _ _) in *. exists lay, f.
  assert (Hcb : lay_clusterBits lay = bits) by apply Hok.
  assert (Hcs : lay_clusterSize lay = 2 ^ bits) by apply Hok.
  unfold fresh_writable. rewrite Hcb, Hcs, Hsz.
  split_and!; try done; [|simpl; lia|].
  - split; [|exists (created_owner lay); by split]. split; simpl; try done; try lia; [|by exists (created_owner lay)].
    unfold w_image. simpl. split; [done|]. destruct bk as [b|]; [|done].
    clear. simpl. induction b as [|q|q b IH] using guestImage_chain_ind; simpl; done.
  - intros i Hi. pose proof (pow2_bits bits Hbits). unfold disk_byte, w_image. simpl.
    pose proof (cdiv_bounds vs (2 ^ bits) ltac:(lia)).
    unfold extent. simpl. destruct (Z.leb_spec (cdiv vs (2 ^ bits) * 2 ^ bits) i); [lia|].
    unfold mapped_byte. simpl.
    pose proof (Z.div_mod i (2 ^ bits) ltac:(lia)). pose proof (Z.mod_pos_bound i (2 ^ bits) ltac:(lia)).
    specialize (HG (i / 2 ^ bits) ltac:(apply Z.div_pos; lia) ltac:(lia)). unfold gentry in HG.
    change (guest_entry (mkq (created_hdr vs lay) bits (2 ^ bits) f (created_l1 (2 ^ bits) lay) (lay_physMeta lay * 2 ^ bits)))
      with (guest_entry (mkq (created_hdr vs lay) bits (2 ^ bits) f (created_l1 (2 ^ bits) lay) 0)).
    by rewrite HG.
Qed.

(** Creation is total and correct: for every virtual size up to the cap and
    every admissible cluster size, [createQcow2] succeeds, and the file it
    leaves, opened over a well-formed backing image (or none), satisfies the
    write path's invariant with exact refcounts, and every guest byte reads
    through to the backing image (zero if there is none). *)
Theorem createQcow2_fresh vs path fmt opt bk :
  0 < vs ≤ maxVirtualSize → ClusterBits opt = 0 ∨ 9 ≤ ClusterBits opt ≤ 21 →
  zlen path ≤ 256 → zlen fmt ≤ 16 → backing_ok bk →
  ∃ lay f, computeQcow2Layout vs (ClusterBits opt) (PreallocMetadata opt) = Ok lay ∧
    createQcow2 vs path fmt opt = Ok f ∧ counted_ok (fresh_writable lay vs f bk) ∧
    ∀ i, 0 ≤ i < vs → disk_byte (fresh_writable lay vs f bk) i = below bk i.
Proof.
  intros. destruct (fresh_ok vs path fmt opt bk) as (lay & f & ? & ? & ? & _ & ?); try done.
  by exists lay, f.
Qed.

Definition demo_opt : OverlayOpt := {| ClusterBits := 9; PreallocMetadata := false |}.

Lemma createQcow2_fresh_witness :
  ∃ lay f, computeQcow2Layout 2048 9 false = Ok lay ∧ createQcow2 2048 [98] [114; 97; 119] demo_opt = Ok f ∧
    counted_ok (fresh_writable lay 2048 f None).
Proof.
  destruct (createQcow2_fresh 2048 [98] [114; 97; 119] demo_opt None) as (lay & f & H1 & H2 & H3 & _);
    [by vm_compute|right; by vm_compute|by vm_compute|by vm_compute|done|].
  exists lay, f. exact (conj H1 (conj H2 H3)).
Defined.

(** ** A concrete image: 2 KiB disk, 512-byte clusters, no backing *)

Definition demo_layout : qcow2Layout :=
  match computeQcow2Layout 2048 9 false with
  | Ok l => l
  | Err _ => {| lay_clusterBits := 0; lay_clusterSize := 0; lay_l1Size := 0; lay_l1Clusters := 0;
                lay_l2Count := 0; lay_reftableCls := 0; lay_refblockCnt := 0; lay_refUsedCls := 0;
                lay_physMeta := 0; lay_reftableOff := 0; lay_refblockOff := 0; lay_l1Off := 0; lay_l2Off := 0 |}
  end.
Definition demo_created : file :=
  match createQcow2 2048 [] [] demo_opt with Ok f => f | Err _ => empty_file end.
Definition demo_w : qcow2Writable := fresh_writable demo_layout 2048 demo_created None.

Lemma demo_w_ok : counted_ok demo_w ∧ w_fileSize demo_w < 2 ^ 55 ∧ q_clusterSize (w_q demo_w) = 512.
Proof.
  destruct (fresh_ok 2048 [] [] demo_opt None) as (lay & f & H1 & H2 & H3 & H4 & _);
    [by vm_compute|right; by vm_compute|by vm_compute|by vm_compute|done|].
  assert (demo_layout = lay) as Hl by (unfold demo_layout; change (computeQcow2Layout 2048 9 false) with (computeQcow2Layout 2048 (ClusterBits demo_opt) (PreallocMetadata demo_opt)); by rewrite H1).
  assert (demo_created = f) as Hf by (unfold demo_created; by rewrite H2).
  unfold demo_w. rewrite Hl, Hf. split_and!; [assumption..|]. rewrite <- Hl. by vm_compute.
Qed.

Lemma demo_budget n : n ≤ 1000000 → write_budget demo_w n.
Proof. intros. destruct demo_w_ok as (_ & ? & Hcs). unfold write_budget. rewrite Hcs. lia. Qed.

(** Three bytes across a cluster boundary; then the same over a host that fails on
    its third access. *)
Definition demo_failing : qcow2Writable := set_io demo_w [None; None; Some 1].

Lemma WriteAt_refines_witness :
  (∃ w', WriteAt [1; 2; 3] 510 demo_w = (w', (3, None)) ∧ writable_ok w' ∧ disk_written demo_w 510 [1; 2; 3] w') ∧
  (∃ w' n, WriteAt [1; 2; 3] 510 demo_failing = (w', (n, Some EHost)) ∧ host_failure demo_failing 510 [1; 2; 3] n w').
Proof.
  assert (H1 : snd (WriteAt [1; 2; 3] 510 demo_w) = (3, None)) by (vm_compute; reflexivity).
  assert (H2 : snd (snd (WriteAt [1; 2; 3] 510 demo_failing)) = Some EHost) by (vm_compute; reflexivity).
  split.
  - destruct (WriteAt_refines [1; 2; 3] 510 demo_w) as (w' & n & err & Hrun & _ & Hor);
      [apply demo_w_ok|lia|by vm_compute|by apply demo_budget; vm_compute|].
    rewrite Hrun in H1. simpl in H1. injection H1 as -> ->.
    destruct Hor as [[? _]|(_ & Hw & Hd & _)]; [discriminate|].
    change (take (Z.to_nat 3) [1; 2; 3]) with [1; 2; 3] in Hd. exists w'. exact (conj Hrun (conj Hw Hd)).
  - destruct (WriteAt_refines [1; 2; 3] 510 demo_failing) as (w' & n & err & Hrun & _ & Hor);
      [apply writable_io, demo_w_ok|lia|by vm_compute|by apply (demo_budget 3)|].
    rewrite Hrun in H2. simpl in H2. subst err.
    destruct Hor as [[_ Hf]|[? _]]; [|exfalso; auto]. exists w', n. exact (conj Hrun Hf).
Defined.

Lemma WriteAt_refcounts_witness :
  counted_ok (fst (WriteAt [1; 2; 3] 510 demo_w)).
Proof.
  apply (WriteAt_refcounts [1; 2; 3] 510 demo_w _ 3 None);
    [apply demo_w_ok|lia|by vm_compute|by apply demo_budget; vm_compute| |discriminate..].
  assert (H : snd (WriteAt [1; 2; 3] 510 demo_w) = (3, None)) by (vm_compute; reflexivity).
  rewrite <- H. apply surjective_pairing.
Defined.

Lemma WriteAt_ReadAt_witness :
  ∃ w' n err, WriteAt [1; 2; 3] 510 demo_w = (w', (n, err)) ∧
    (err = None → ∃ w'', w_ReadAt 3 510 w' = (w'', ([1; 2; 3], None))).
Proof.
  destruct (WriteAt_ReadAt [1; 2; 3] 510 demo_w) as (w' & n & err & H1 & H2 & _);
    [reflexivity|apply demo_w_ok|lia|by vm_compute|by apply demo_budget; vm_compute|].
  exists w', n, err. exact (conj H1 H2).
Defined.

(** Without metadata preallocation the layout leaves the L2 tables out of the worst
    case: a 512-byte-cluster image of 16300 clusters needs more clusters, once its
    L2 tables are allocated, than its fixed refcount table can count. *)
Theorem lazy_tables_outgrow_refcounts :
  match computeQcow2Layout (512 * 16300) 9 false with
  | Ok lay => lay_reftableCls lay * (lay_clusterSize lay / 8) * (lay_clusterSize lay / 2) <? lay_physMeta lay + lay_l1Size lay + 16300
  | Err _ => false
  end = true.
Proof. vm_compute. reflexivity. Qed.
