(* ===== verification/Qcow2Open.v ===== *)
(** * Opening an image chain

    [internal/cow/qcow2.go]: [openGuestImage] and [openGuestImageDepth] - header
    parsing, the extension scan, the backing name, recursion into the backing
    file and the L1 table - and [OpenWritable], [OpenReadOnly] of
    [qcow2_write.go].  Files are untrusted: the theorems quantify over every file
    system contents.  Opening terminates, never indexes out of range, accepts only
    chains whose geometry is sound, and opens what [createQcow2] creates. *)

From S2P Require Import Prelude Bytes Qcow2Layout Qcow2Image Qcow2Write Qcow2Refine Qcow2WriteAt Qcow2Create Paths.

(** ** Files by name *)

(** [chainKey]: device and inode. *)
Definition chainKey : Type := Z * Z.

(** The host: what [os.Open] and [Stat] give for a path, and path resolution. *)
Record host : Type := {
  ho_open : path → option (chainKey * file);
  ho_paths : path_env;
}.

(** What an opened qcow2 image remembers besides its tables. *)
Record opened : Type := {
  op_image : guestImage;
  op_backingName : path;
  op_backingFormat : list Z;
  op_backingAbs : path;
}.

(** ["raw"], ["qcow2"] *)
Definition fmt_raw : list Z := [114; 97; 119].
Definition fmt_qcow2 : list Z := [113; 99; 111; 119; 50].
Definition Format (g : guestImage) : list Z :=
  match g with RawImage _ _ => fmt_raw | Qcow2 _ _ => fmt_qcow2 end.

(** ** Reading the header *)

(** [binary.BigEndian.UintN(buf[i:])] panics when fewer than [n] bytes are left. *)
Definition be_idx (n : Z) (buf : list Z) (i : Z) : result cow_err Z :=
  if (i <? 0) || (zlen buf <? i + n) then Err EPanic else Ok (be_at n buf i).

(** [buf[a:b]] panics unless [a <= b <= len(buf)]. *)
Definition slice_idx (buf : list Z) (a b : Z) : result cow_err (list Z) :=
  if (a <? 0) || (b <? a) || (zlen buf <? b) then Err EPanic else Ok (zslice buf a b).

(** [f.ReadAt(buf, off)] of [n] bytes, any error wrapped. *)
Definition read_exact (f : file) (n off : Z) : result cow_err (list Z) :=
  match file_ReadAt f n (int64 off) with
  | (b, None) => Ok b
  | (_, Some e) => Err (io_cow e)
  end.

Definition parse_header (b : list Z) : qcow2Header :=
  {| h_size := be_at 8 b 0x18; h_l1Size := be_at 4 b 0x24; h_l1Offset := be_at 8 b 0x28;
     h_refcountOffset := be_at 8 b 0x30; h_refcountClusters := be_at 4 b 0x38;
     h_snapshots := be_at 4 b 0x3C; h_snapshotsOffset := be_at 8 b 0x40 |}.

(** The checks of the fixed header; returns the cluster bits and the header. *)
Definition open_fixed (hdrBuf : list Z) : result cow_err (Z * qcow2Header) :=
  if negb (be_at 4 hdrBuf 4 =? qcow2Version3) then Err EVersion
  else
    let cb := be_at 4 hdrBuf 0x14 in
    if (cb <? 9) || (21 <? cb) then Err EClusterBits
    else if negb (be_at 4 hdrBuf 0x20 =? 0) then Err EEncrypted
    else if negb (be_at 8 hdrBuf 0x48 =? 0) then Err EIncompatible
    else
      let hdr := parse_header hdrBuf in
      if maxVirtualSize <? h_size hdr then Err EVirtualSizeCap else Ok (cb, hdr).

(** [header_length]: where the extensions start. *)
Definition open_hdrLen (hdrBuf : list Z) (clusterSize : Z) : result cow_err Z :=
  let hdrLen := be_at 4 hdrBuf 0x64 in
  if hdrLen <? qcow2V3HeaderLen then Err EHeaderLen
  else if clusterSize <? hdrLen then Err EHeaderLen
  else if negb (hdrLen mod 8 =? 0) then Err EHeaderLen
  else Ok hdrLen.

(** The extension region [extEnd] bytes long, empty when the fixed header buffer
    already covers it. *)
Definition open_extBuf (f : file) (clusterSize hdrLen extEnd : Z) : result cow_err (list Z) :=
  if qcow2HeaderLen <? extEnd then
    if clusterSize <? extEnd then Err EExtRegion
    else match file_ReadAt f extEnd 0 with
         | (b, None) => if zlen b =? extEnd then Ok b else Err EUnexpectedEOF
         | (_, Some e) => Err (io_cow e)
         end
  else if extEnd <? hdrLen then Err EExtRegion
  else Ok [].

(** The scan: [e] is the offset of the next extension; the result is the
    declared backing format. *)
Fixpoint scan_ext (fuel : nat) (hdrBuf extBuf : list Z) (extEnd e : Z) (fmt : list Z)
    : result cow_err (list Z) :=
  if negb (u64 (e + 8) <=? extEnd) then Err ENoExtMarker
  else match fuel with
  | O => Err EFuel
  | S fuel =>
      let buf := if u64 (e + 8) <=? zlen hdrBuf then hdrBuf else extBuf in
      let* magic := be_idx 4 buf e in
      let* elen := be_idx 4 buf (e + 4) in
      if magic =? 0 then Ok fmt
      else
        let dataOff := u64 (e + 8) in
        if u64 (extEnd - dataOff) <? elen then Err EExtOverflow
        else
          let next := u64 (dataOff + roundUp8 elen) in
          if (magic =? extBackingFormat) && (0 <? elen) then
            let* name := slice_idx extBuf dataOff (u64 (dataOff + elen)) in
            if negb (bool_decide (name = fmt_raw)) && negb (bool_decide (name = fmt_qcow2))
            then Err EBackingFormat
            else scan_ext fuel hdrBuf extBuf extEnd next name
          else scan_ext fuel hdrBuf extBuf extEnd next fmt
  end.

(** Each extension takes at least 8 bytes of a region of at most one cluster. *)
Definition scan_fuel (extEnd : Z) : nat := Z.to_nat (extEnd / 8 + 1).

Definition open_extensions (f : file) (hdrBuf : list Z) (clusterSize hdrLen bfOff : Z)
    : result cow_err (list Z) :=
  let extEnd := if bfOff =? 0 then clusterSize else bfOff in
  let* extBuf := open_extBuf f clusterSize hdrLen extEnd in
  scan_ext (scan_fuel extEnd) hdrBuf extBuf extEnd hdrLen [].

(** The backing name stored in cluster 0, validated, as the path to open. *)
Definition open_backingName (H : host) (imagePath : path) (f : file) (clusterSize hdrLen bfOff bfSize : Z)
    : result cow_err (path * path) :=
  if maxBackingNameLen <? bfSize then Err EBackingName
  else if (bfOff <? hdrLen) || (clusterSize <? bfOff) || (u64 (clusterSize - bfOff) <? bfSize)
  then Err EBackingName
  else
    let* name := read_exact f bfSize bfOff in
    match validateBackingName name with
    | Err _ => Err EBackingRejected
    | Ok _ =>
        let absBacking := Abs (pe_cwd (ho_paths H)) (Join (Dir imagePath) name) in
        let backingPath := if IsAbs name then name else absBacking in
        match backingPathAllowed (ho_paths H) imagePath backingPath with
        | Err _ => Err EBackingOutside
        | Ok real => Ok (name, real)
        end
    end.

Definition maxL1TableBytes : Z := Z.shiftl 1 26.

(** The L1 table, bounded by the real file size. *)
Definition open_l1 (f : file) (hdr : qcow2Header) (clusterSize fileSize : Z) : result cow_err (list Z) :=
  let l2Entries := clusterSize / 8 in
  match divCeil (h_size hdr) (u64 (l2Entries * clusterSize)) with
  | Err _ => Err ESizeInconsistent
  | Ok needed =>
      if 0xFFFFFFFF <? needed then Err ESizeInconsistent
      else if h_l1Size hdr <? needed then Err EL1TooSmall
      else if negb (h_l1Offset hdr mod clusterSize =? 0) then Err EL1Unaligned
      else
        let l1Bytes := u64 (needed * 8) in
        if maxL1TableBytes <? l1Bytes then Err EL1Cap
        else
          let l1End := u64 (h_l1Offset hdr + l1Bytes) in
          if (l1End <? h_l1Offset hdr) || (fileSize <? l1End) then Err EL1BeyondFile
          else
            let* l1buf := read_exact f (needed * 8) (h_l1Offset hdr) in
            Ok (decode_table needed l1buf)
  end.

(** ** The recursion *)

Fixpoint openGuestImageDepth (fuel : nat) (H : host) (p : path) (depth : Z) (visited : list chainKey)
    : result cow_err opened :=
  if maxBackingChainDepth <? depth then Err EChainDepth
  else match fuel with
  | O => Err EFuel
  | S fuel =>
      match ho_open H p with
      | None => Err ENoFile
      | Some (key, f) =>
          if bool_decide (key ∈ visited) then Err EChainCycle
          else match read_exact f 4 0 with
          | Err _ => Err EMagic
          | Ok magic =>
              if negb (bool_decide (magic = qcow2Magic))
              then Ok {| op_image := RawImage f (fsize f); op_backingName := [];
                         op_backingFormat := []; op_backingAbs := [] |}
              else
                let* hdrBuf := read_exact f qcow2HeaderLen 0 in
                let* (cb, hdr) := open_fixed hdrBuf in
                let clusterSize := Z.shiftl 1 cb in
                let* hdrLen := open_hdrLen hdrBuf clusterSize in
                let bfOff := be_at 8 hdrBuf 0x08 in
                let bfSize := be_at 4 hdrBuf 0x10 in
                let* fmt := open_extensions f hdrBuf clusterSize hdrLen bfOff in
                let finish (backing : option guestImage) (name real : path) :=
                  let* l1 := open_l1 f hdr clusterSize (fsize f) in
                  Ok {| op_image := Qcow2 {| q_f := f; q_hdr := hdr; q_clusterBits := cb;
                                             q_clusterSize := clusterSize;
                                             q_clusterMask := clusterSize - 1;
                                             q_l1 := l1; q_fileSize := fsize f |} backing;
                        op_backingName := name; op_backingFormat := fmt; op_backingAbs := real |} in
                if 0 <? bfSize then
                  let* (name, real) := open_backingName H p f clusterSize hdrLen bfOff bfSize in
                  match openGuestImageDepth fuel H real (depth + 1) (key :: visited) with
                  | Err EFuel => Err EFuel
                  | Err EPanic => Err EPanic
                  | Err _ => Err EBackingOpen
                  | Ok b =>
                      if negb (bool_decide (fmt = [])) && negb (bool_decide (Format (op_image b) = fmt))
                      then Err EFormatMismatch
                      else finish (Some (op_image b)) name real
                  end
                else finish None [] []
          end
      end
  end.

(** Depth [maxBackingChainDepth] is the deepest level that opens a file. *)
Definition open_fuel : nat := 33.

Definition openGuestImage (H : host) (p : path) : result cow_err opened :=
  openGuestImageDepth open_fuel H p 0 [].

(** [OpenReadOnly]: the parsed image, its writes rejected ([readOnly_WriteAt]). *)
Definition OpenReadOnly (H : host) (p : path) : result cow_err guestImage :=
  let* o := openGuestImage H p in Ok (op_image o).

(** [isQcow2]: sniff the magic; an unreadable file is not qcow2. *)
Definition isQcow2 (H : host) (p : path) : bool :=
  match ho_open H p with
  | None => false
  | Some (_, f) => bool_decide (fst (file_ReadAt f 4 0) = qcow2Magic)
  end.

(** [OpenWritable]; the reopen finds the same file here, so the replacement guard
    does not fire. *)
Inductive backend : Type := RawWritable (f : file) (size : Z) | Qcow2Writable (w : qcow2Writable).

Definition OpenWritable (H : host) (p : path) : result cow_err backend :=
  if negb (isQcow2 H p) then
    match ho_open H p with
    | None => Err ENoFile
    | Some (_, f) => Ok (RawWritable f (fsize f))
    end
  else
    let* o := openGuestImage H p in
    match op_image o with
    | RawImage _ _ => Err ENotQcow2
    | Qcow2 q b => Ok (Qcow2Writable {| w_q := q; w_backing := b; w_caches := [];
                                      w_fileSize := fsize (q_f q); w_io := [] |})
    end.

(** ** Opening never fails internally *)

(** Host files contain bytes, and their length fits an [off_t]. *)
Definition host_ok (H : host) : Prop :=
  ∀ p k f, ho_open H p = Some (k, f) → 0 ≤ fsize f < 2 ^ 63 ∧ ∀ i, is_byte (fbyte f i).

Lemma be_at_range n l i : 0 ≤ n → Forall is_byte l → 0 ≤ be_at n l i < 256 ^ n.
Proof.
  intros Hn Hl. unfold be_at. pose proof (be_decode_range (zslice l i (i + n)) (zslice_bytes _ _ _ Hl)) as Hr.
  split; [lia|]. eapply Z.lt_le_trans; [apply Hr|]. apply Z.pow_le_mono_r; [lia|].
  unfold zlen, zslice. rewrite length_take. lia.
Qed.

Lemma read_exact_ok f n off b :
  0 ≤ n → 0 ≤ off < 2 ^ 63 → read_exact f n off = Ok b → b = fread f off n ∧ off + n ≤ fsize f ∨ n = 0 ∧ b = [].
Proof.
  intros Hn Ho. unfold read_exact, file_ReadAt. rewrite int64_id by done.
  destruct (Z.ltb_spec off 0); [lia|]. destruct (Z.ltb_spec (Z.max 0 (Z.min n (fsize f - off))) n); [done|].
  intros [= <-]. destruct (decide (n = 0)) as [->|]; [right; split; [done|]|left].
  - by replace (Z.max 0 (Z.min 0 (fsize f - off))) with 0 by lia.
  - replace (Z.max 0 (Z.min n (fsize f - off))) with n by lia. split; [done|lia].
Qed.

(** Invariant of the scan at offset [e]. *)
Record scan_ok (hdrBuf extBuf : list Z) (extEnd e : Z) : Prop := {
  sc_hdr : zlen hdrBuf = 112;
  sc_bytes : Forall is_byte hdrBuf ∧ Forall is_byte extBuf;
  sc_ext : zlen extBuf = extEnd ∨ extEnd ≤ 112;
  sc_end : 0 ≤ extEnd < 2 ^ 32;
  sc_e : 104 ≤ e < 2 ^ 40;
}.

Definition internal (e : cow_err) : Prop := e = EPanic ∨ e = EFuel.

Lemma scan_ext_safe fuel hdrBuf extBuf extEnd e fmt err :
  scan_ok hdrBuf extBuf extEnd e → extEnd - e < 8 * Z.of_nat fuel →
  scan_ext fuel hdrBuf extBuf extEnd e fmt = Err err → ¬ internal err.
Proof.
  revert e fmt. induction fuel as [|fuel IH]; intros e fmt [Hh [Hb1 Hb2] Hx Hend He] Hf; cbn [scan_ext];
    rewrite (u64_id (e + 8)) by lia; destruct (Z.leb_spec (e + 8) extEnd) as [Hin|Hout]; cbn [negb];
    try (intros [= <-]; by intros []); try lia.
  set (buf := if e + 8 <=? zlen hdrBuf then hdrBuf else extBuf).
  assert (Hbuf : e + 8 ≤ zlen buf ∧ Forall is_byte buf).
  { unfold buf. destruct (Z.leb_spec (e + 8) (zlen hdrBuf)); split; done || lia. }
  assert (Hidx : ∀ i, 0 ≤ i → i + 4 ≤ zlen buf → be_idx 4 buf i = Ok (be_at 4 buf i)).
  { intros i Hi1 Hi2. unfold be_idx.
    destruct (Z.ltb_spec i 0), (Z.ltb_spec (zlen buf) (i + 4)); simpl; done || lia. }
  rewrite !Hidx by lia. cbn [rbind]. destruct (be_at 4 buf e =? 0); [done|].
  pose proof (be_at_range 4 buf (e + 4) ltac:(lia) (proj2 Hbuf)) as Hel. change (256 ^ 4) with (2 ^ 32) in Hel.
  set (elen := be_at 4 buf (e + 4)) in *. rewrite u64_id by lia.
  destruct (Z.ltb_spec (extEnd - (e + 8)) elen); [intros [= <-]; by intros []|].
  destruct (roundUp8_le elen ltac:(lia)) as [Hru _]. rewrite (u64_id (e + 8 + roundUp8 elen)) by lia.
  assert (Hnext : ∀ fmt', scan_ext fuel hdrBuf extBuf extEnd (e + 8 + roundUp8 elen) fmt' = Err err → ¬ internal err).
  { intros fmt'. apply IH; [split; done || lia|lia]. }
  destruct ((_ =? extBackingFormat) && (0 <? elen)) eqn:Em; [|apply Hnext].
  apply andb_true_iff in Em as [_ Hpos%Z.ltb_lt]. rewrite u64_id by lia.
  unfold slice_idx. destruct (Z.ltb_spec (e + 8) 0), (Z.ltb_spec (e + 8 + elen) (e + 8)),
    (Z.ltb_spec (zlen extBuf) (e + 8 + elen)); simpl; try lia.
  case_if; [intros [= <-]; by intros []|apply Hnext].
Qed.

Lemma not_internal_io e : ¬ internal (io_cow e).
Proof. by destruct e; intros []. Qed.

Lemma read_exact_err f n off err : read_exact f n off = Err err → ¬ internal err.
Proof.
  unfold read_exact. destruct (file_ReadAt f n (int64 off)) as [b [e|]]; [|done].
  intros [= <-]. apply not_internal_io.
Qed.

Lemma open_fixed_spec hdrBuf :
  Forall is_byte hdrBuf →
  match open_fixed hdrBuf with
  | Err err => ¬ internal err
  | Ok (cb, hdr) => 9 ≤ cb ≤ 21 ∧ hdr = parse_header hdrBuf ∧ 0 ≤ h_size hdr ≤ maxVirtualSize
  end.
Proof.
  intros Hb. unfold open_fixed. case_if; [by intros []|].
  destruct (Z.ltb_spec (be_at 4 hdrBuf 0x14) 9), (Z.ltb_spec 21 (be_at 4 hdrBuf 0x14)); simpl orb; cbv iota; try by intros [].
  case_if; [by intros []|]. case_if; [by intros []|].
  destruct (Z.ltb_spec maxVirtualSize (h_size (parse_header hdrBuf))); [by intros []|].
  split_and!; try done; try lia. pose proof (be_at_range 8 hdrBuf 0x18 ltac:(lia) Hb). simpl in *. lia.
Qed.

Lemma open_hdrLen_spec hdrBuf cs :
  match open_hdrLen hdrBuf cs with
  | Err err => ¬ internal err
  | Ok hl => 104 ≤ hl ≤ cs ∧ hl mod 8 = 0
  end.
Proof.
  unfold open_hdrLen. change qcow2V3HeaderLen with 104.
  destruct (Z.ltb_spec (be_at 4 hdrBuf 0x64) 104); [by intros []|].
  destruct (Z.ltb_spec cs (be_at 4 hdrBuf 0x64)); [by intros []|].
  destruct (Z.eqb_spec (be_at 4 hdrBuf 0x64 mod 8) 0); simpl; [done|by intros []].
Qed.

Lemma open_extBuf_spec f cs hl extEnd :
  (∀ i, is_byte (fbyte f i)) → 0 ≤ extEnd →
  match open_extBuf f cs hl extEnd with
  | Err err => ¬ internal err
  | Ok b => Forall is_byte b ∧ (zlen b = extEnd ∧ b = fread f 0 extEnd ∧ extEnd ≤ cs ∨ extEnd ≤ 112)
  end.
Proof.
  intros Hb He. unfold open_extBuf. change qcow2HeaderLen with 112.
  destruct (Z.ltb_spec 112 extEnd).
  - destruct (Z.ltb_spec cs extEnd); [by intros []|]. unfold file_ReadAt. simpl.
    destruct (Z.ltb_spec (Z.max 0 (Z.min extEnd (fsize f - 0))) extEnd) as [|Hfull]; [apply not_internal_io|].
    replace (Z.max 0 (Z.min extEnd (fsize f - 0))) with extEnd by lia.
    rewrite zlen_fread, Z.eqb_refl by lia. split; [by apply fread_bytes|].
    left. rewrite zlen_fread; done || lia.
  - destruct (Z.ltb_spec extEnd hl); [by intros []|]. split; [constructor|by right].
Qed.

Lemma open_extensions_safe f hdrBuf cs hl bfOff err :
  (∀ i, is_byte (fbyte f i)) → zlen hdrBuf = 112 → Forall is_byte hdrBuf → 512 ≤ cs ≤ 2097152 →
  104 ≤ hl ≤ cs → open_extensions f hdrBuf cs hl bfOff = Err err → 0 ≤ bfOff → ¬ internal err.
Proof.
  intros Hb Hl Hhb Hcs Hhl Ho Hbf. unfold open_extensions in Ho.
  set (extEnd := if bfOff =? 0 then cs else bfOff) in *.
  assert (He : 0 ≤ extEnd) by (unfold extEnd; case_if; lia).
  pose proof (open_extBuf_spec f cs hl extEnd Hb He) as Hx.
  destruct (open_extBuf f cs hl extEnd) as [b|e]; simpl in Ho; [|by injection Ho as <-].
  destruct Hx as [Hbb Hx]. eapply scan_ext_safe, Ho.
  - split; try done; [destruct Hx as [(? & _)|]; [by left|by right]|destruct Hx; lia|lia].
  - unfold scan_fuel. pose proof (Z.div_mod extEnd 8 ltac:(lia)). pose proof (Z.mod_pos_bound extEnd 8 ltac:(lia)).
    pose proof (Z.div_pos extEnd 8 ltac:(lia) ltac:(lia)). lia.
Qed.

Lemma open_backingName_err H p f cs hl a b err :
  open_backingName H p f cs hl a b = Err err → ¬ internal err.
Proof.
  unfold open_backingName. case_if; [intros [= <-]; by intros []|].
  case_if; [intros [= <-]; by intros []|].
  destruct (read_exact f b a) as [name|e] eqn:Er; simpl; [|intros [= <-]; by eapply read_exact_err].
  destruct (validateBackingName name); [|intros [= <-]; by intros []].
  destruct (backingPathAllowed _ _ _); [done|]. intros [= <-]; by intros [].
Qed.

Lemma open_l1_spec f hdr bits :
  9 ≤ bits ≤ 21 → 0 ≤ h_size hdr ≤ maxVirtualSize → 0 ≤ h_l1Offset hdr < 2 ^ 64 → 0 ≤ fsize f < 2 ^ 63 →
  match open_l1 f hdr (2 ^ bits) (fsize f) with
  | Err err => ¬ internal err
  | Ok l1 =>
      let n := cdiv (h_size hdr) (2 ^ bits / 8 * 2 ^ bits) in
      zlen l1 = n ∧ l1 = decode_table n (fread f (h_l1Offset hdr) (n * 8)) ∧
      h_l1Offset hdr mod 2 ^ bits = 0 ∧ h_l1Offset hdr + n * 8 ≤ fsize f
  end.
Proof.
  intros Hb Hs Ho Hf. pose proof (pow2_bits bits Hb). pose proof (cs_div8 bits ltac:(lia)).
  unfold open_l1. change maxVirtualSize with (2 ^ 44) in Hs.
  rewrite (u64_id (2 ^ bits / 8 * 2 ^ bits)) by nia. rewrite divCeil_cdiv by nia.
  set (n := cdiv (h_size hdr) (2 ^ bits / 8 * 2 ^ bits)) in *.
  assert (Hn : 0 ≤ n) by (apply cdiv_nonneg; nia).
  destruct (Z.ltb_spec 0xFFFFFFFF n); [by intros []|].
  destruct (Z.ltb_spec (h_l1Size hdr) n); [by intros []|].
  destruct (Z.eqb_spec (h_l1Offset hdr mod 2 ^ bits) 0); simpl negb; cbv iota; [|by intros []].
  rewrite (u64_id (n * 8)) by lia. destruct (Z.ltb_spec maxL1TableBytes (n * 8)) as [|Hcap]; [by intros []|].
  change maxL1TableBytes with (2 ^ 26) in Hcap.
  destruct (Z.ltb_spec (u64 (h_l1Offset hdr + n * 8)) (h_l1Offset hdr)) as [|Hnw]; simpl orb; cbv iota; [by intros []|].
  destruct (Z.ltb_spec (fsize f) (u64 (h_l1Offset hdr + n * 8))) as [|Hfit]; [by intros []|].
  assert (Hnowrap : u64 (h_l1Offset hdr + n * 8) = h_l1Offset hdr + n * 8).
  { apply u64_id. split; [lia|]. destruct (decide (h_l1Offset hdr + n * 8 < 2 ^ 64)) as [|Hw]; [done|].
    exfalso. unfold u64 in Hnw. replace (h_l1Offset hdr + n * 8) with (h_l1Offset hdr + n * 8 - 2 ^ 64 + 1 * 2 ^ 64) in Hnw by lia.
    rewrite Z.mod_add, Z.mod_small in Hnw; lia. }
  rewrite Hnowrap in Hfit. unfold read_exact. rewrite int64_id, file_ReadAt_full by lia. simpl.
  split_and!; try done. unfold decode_table. rewrite zlen_map, zlen_seqZ; lia.
Qed.

(** ** Accepted chains *)

(** What every opened layer satisfies: sound geometry, and an L1 table loaded
    from inside the file. *)
Record layer_ok (q : qcow2Image) : Prop := {
  ly_geom : geometry_ok q;
  ly_fileSize : q_fileSize q = fsize (q_f q);
  ly_l1 : q_l1 q = decode_table (zlen (q_l1 q)) (fread (q_f q) (h_l1Offset (q_hdr q)) (zlen (q_l1 q) * 8));
  ly_l1off : h_l1Offset (q_hdr q) mod q_clusterSize q = 0 ∧
             h_l1Offset (q_hdr q) + zlen (q_l1 q) * 8 ≤ fsize (q_f q);
  ly_l1len : zlen (q_l1 q) = cdiv (h_size (q_hdr q)) (q_clusterSize q / 8 * q_clusterSize q);
}.

Fixpoint layers_ok (g : guestImage) : Prop :=
  match g with
  | RawImage f size => size = fsize f
  | Qcow2 q b => layer_ok q ∧ match b with None => True | Some b => layers_ok b end
  end.

Fixpoint chain_length (g : guestImage) : Z :=
  match g with
  | RawImage _ _ => 1
  | Qcow2 _ b => 1 + match b with None => 0 | Some b => chain_length b end
  end.

(** The backing file of an image opened at [p] is where its name resolves, below
    an allowed root. *)
Definition backing_contained (H : host) (p : path) (o : opened) : Prop :=
  match op_image o with
  | Qcow2 _ (Some _) =>
      validateBackingName (op_backingName o) = Ok tt ∧
      ∃ candidate, backingPathAllowed (ho_paths H) p candidate = Ok (op_backingAbs o)
  | _ => True
  end.

Lemma open_backingName_ok H p f cs hl a b name real :
  open_backingName H p f cs hl a b = Ok (name, real) →
  validateBackingName name = Ok tt ∧ ∃ candidate, backingPathAllowed (ho_paths H) p candidate = Ok real.
Proof.
  unfold open_backingName. case_if; [done|]. case_if; [done|].
  destruct (read_exact f b a) as [nm|e]; simpl; [|done].
  destruct (validateBackingName nm) as [[]|] eqn:Ev; [|done].
  destruct (backingPathAllowed _ _ _) eqn:Ea; [|done]. intros [= -> ->]. eauto.
Qed.

Lemma open_spec fuel H : host_ok H → ∀ p depth visited,
  0 ≤ depth → 33 - depth ≤ Z.of_nat fuel →
  match openGuestImageDepth fuel H p depth visited with
  | Err err => ¬ internal err
  | Ok o => layers_ok (op_image o) ∧ chain_length (op_image o) ≤ 33 - depth ∧ backing_contained H p o
  end.
Proof.
  intros HH. induction fuel as [|fuel IH]; intros p depth visited Hd Hf; cbn [openGuestImageDepth];
    change maxBackingChainDepth with 32; destruct (Z.ltb_spec 32 depth); try (by intros []); try lia.
  destruct (ho_open H p) as [[key f]|] eqn:Eo; [|by intros []]. destruct (HH _ _ _ Eo) as [Hfs Hfb].
  case_bool_decide; [by intros []|].
  destruct (read_exact f 4 0) as [magic|] eqn:Em; [|by intros []].
  case_bool_decide; simpl negb; cbv iota; cycle 1.
  { simpl. split_and!; [done|lia|done]. }
  change qcow2HeaderLen with 112.
  destruct (read_exact f 112 0) as [hdrBuf|] eqn:Eh; [|by eapply read_exact_err].
  apply read_exact_ok in Eh as [[-> Hlen]|[? _]]; [|lia..]. cbn [rbind].
  set (hdrBuf := fread f 0 112). assert (Hhb : Forall is_byte hdrBuf) by (by apply fread_bytes).
  assert (Hhl : zlen hdrBuf = 112) by (by apply zlen_fread).
  pose proof (open_fixed_spec hdrBuf Hhb) as Hfix.
  destruct (open_fixed hdrBuf) as [[cb hdr]|]; [|exact Hfix]. destruct Hfix as (Hcb & Hhdr & Hsz). cbn [rbind].
  rewrite Z.shiftl_1_l. pose proof (pow2_bits cb Hcb) as Hcs.
  pose proof (open_hdrLen_spec hdrBuf (2 ^ cb)) as Hlen'.
  destruct (open_hdrLen hdrBuf (2 ^ cb)) as [hl|]; [|exact Hlen']. destruct Hlen' as [Hhlr _]. cbn [rbind].
  pose proof (be_at_range 8 hdrBuf 0x08 ltac:(lia) Hhb) as Hbf.
  destruct (open_extensions f hdrBuf (2 ^ cb) hl (be_at 8 hdrBuf 0x08)) as [fmt|] eqn:Ex;
    [|apply (open_extensions_safe f hdrBuf (2 ^ cb) hl _ _ Hfb Hhl Hhb Hcs Hhlr Ex); lia]. cbn [rbind].
  assert (Hl1o : 0 ≤ h_l1Offset hdr < 2 ^ 64).
  { rewrite Hhdr. simpl. pose proof (be_at_range 8 hdrBuf 0x28 ltac:(lia) Hhb). simpl in *. lia. }
  pose proof (open_l1_spec f hdr cb Hcb Hsz Hl1o Hfs) as Hl1.
  destruct (open_l1 f hdr (2 ^ cb) (fsize f)) as [l1|err] eqn:El1.
  - destruct Hl1 as (Hll & Hld & Hal & Hfit). cbn [rbind].
    set (q := {| q_f := f; q_hdr := hdr; q_clusterBits := cb; q_clusterSize := 2 ^ cb;
                 q_clusterMask := 2 ^ cb - 1; q_l1 := l1; q_fileSize := fsize f |}).
    assert (Hly : layer_ok q).
    { split; simpl; try done; try lia.
      - split; simpl; try done; try lia. rewrite Hll. pose proof (cs_div8 cb ltac:(lia)).
        pose proof (cdiv_bounds (h_size hdr) (2 ^ cb / 8 * 2 ^ cb) ltac:(nia)). lia.
      - by rewrite Hll at 1 2. }
    destruct (0 <? be_at 4 hdrBuf 0x10); [|simpl; split_and!; done || lia].
    destruct (open_backingName _ _ _ _ _ _ _) as [[name real]|] eqn:Eb; [|by eapply open_backingName_err].
    cbn [rbind]. apply open_backingName_ok in Eb.
    specialize (IH real (depth + 1) (key :: visited) ltac:(lia) ltac:(lia)).
    destruct (openGuestImageDepth fuel H real (depth + 1) (key :: visited)) as [b|err].
    + destruct IH as (IH1 & IH2 & _). case_if; [by intros []|]. simpl. split_and!; try done; lia.
    + destruct err; try done; by intros [].
  - cbn [rbind]. destruct (0 <? be_at 4 hdrBuf 0x10); [|exact Hl1].
    destruct (open_backingName _ _ _ _ _ _ _) as [[name real]|] eqn:Eb; [|by eapply open_backingName_err].
    cbn [rbind]. specialize (IH real (depth + 1) (key :: visited) ltac:(lia) ltac:(lia)).
    destruct (openGuestImageDepth fuel H real (depth + 1) (key :: visited)) as [b|e2].
    + case_if; [by intros []|exact Hl1].
    + destruct e2; try done; by intros [].
Qed.

(** C40. Opening is total on untrusted input: whatever bytes the files hold -
    truncated, random, or crafted headers, looping or endless backing chains -
    [openGuestImage] returns an image or an error of its own; the extension scan
    and the chain recursion terminate and no buffer is indexed out of range. *)
Theorem openGuestImage_safe H p err :
  host_ok H → openGuestImage H p = Err err → err ≠ EPanic ∧ err ≠ EFuel.
Proof.
  intros HH Ho. pose proof (open_spec open_fuel H HH p 0 [] ltac:(lia) ltac:(done)) as Hs.
  unfold openGuestImage in Ho. rewrite Ho in Hs. split; intros ->; apply Hs; [by left|by right].
Qed.

(** What opening accepts: every qcow2 layer has a cluster size of 2^9..2^21, a
    virtual size within the cap covered by an L1 table that was read from inside
    the file; the chain has at most 33 files; and the backing file of the image
    was named by a valid name and lies below an allowed root after symlink
    resolution. *)
Theorem openGuestImage_validates H p o :
  host_ok H → (∀ q r, pe_eval (ho_paths H) q = Some r → IsAbs r = true) →
  openGuestImage H p = Ok o →
  layers_ok (op_image o) ∧ chain_length (op_image o) ≤ 33 ∧
  (∀ q b, op_image o = Qcow2 q (Some b) →
     validateBackingName (op_backingName o) = Ok tt ∧
     ∃ root realRoot, root ∈ Abs (pe_cwd (ho_paths H)) (Dir p) :: pe_roots (ho_paths H) ∧
       pe_eval (ho_paths H) root = Some realRoot ∧
       elems realRoot `prefix_of` elems (op_backingAbs o)).
Proof.
  intros HH Habs Ho. pose proof (open_spec open_fuel H HH p 0 [] ltac:(lia) ltac:(done)) as Hs.
  unfold openGuestImage in Ho. rewrite Ho in Hs. destruct Hs as (Hl & Hc & Hb). split_and!; [done|lia|].
  intros q b Hq. unfold backing_contained in Hb. rewrite Hq in Hb. destruct Hb as (Hv & cand & Hcand).
  split; [done|]. apply allowed_spec in Hcand as [_ Hr]; done.
Qed.

(** ** Opening a created image *)

(** Reading a field of a buffer. *)
Lemma be_at_field n b i v :
  0 ≤ i → 0 ≤ v < 256 ^ Z.of_nat n → i + Z.of_nat n ≤ zlen b →
  (∀ j, 0 ≤ j < Z.of_nat n → zget 0 b (i + j) = zget 0 (be_encode n v) j) →
  be_at (Z.of_nat n) b i = v.
Proof.
  intros Hi Hv Hl Hg. unfold be_at.
  replace (zslice b i (i + Z.of_nat n)) with (be_encode n v).
  { rewrite be_decode_encode. by apply Z.mod_small. }
  symmetry. apply (zget_eq 0); rewrite zlen_zslice by lia; [rewrite zlen_be_encode; lia|].
  intros j Hj. rewrite zget_zslice, Hg by lia. done.
Qed.

Definition long (b : list Z) : Prop := 512 ≤ zlen b.

Lemma long_putBE n b off v : 0 ≤ off → off + Z.of_nat n ≤ 512 → long b → long (putBE n b off v).
Proof. unfold long. intros. rewrite zlen_putBE; lia. Qed.

Lemma zget_long n b off v j :
  long b → 0 ≤ off → off + Z.of_nat n ≤ 512 → 0 ≤ j →
  zget 0 (putBE n b off v) j =
    if (off <=? j) && (j <? off + Z.of_nat n) then zget 0 (be_encode n v) (j - off) else zget 0 b j.
Proof. unfold long. intros. apply zget_putBE; lia. Qed.

(** Peel the field writes off a byte of the header. *)
Ltac peel_puts :=
  repeat (rewrite zget_long; [|repeat (apply long_putBE; [lia|simpl; lia|]); assumption|lia|simpl; lia|lia];
          match goal with
          | |- context [if ?c then zget 0 (be_encode _ _) _ else _] =>
              first [replace c with false by (symmetry; apply andb_false_iff; rewrite Z.leb_gt, Z.ltb_ge; simpl; lia)
                    |replace c with true by (symmetry; apply andb_true_iff; rewrite Z.leb_le, Z.ltb_lt; simpl; lia)]
          end; cbv iota).

Section FixedHeader.
Context (lay : qcow2Layout) (vs : Z) (b0 : list Z).
Hypothesis Hlong : long b0.
Hypothesis Hzero : ∀ j, 0 ≤ j → zget 0 b0 j = 0.
Let b := create_fixed lay vs b0.

Lemma long_magic : long (copyAt b0 0 qcow2Magic).
Proof. unfold long in *. rewrite copyAt_fits, zlen_splice by (change (zlen qcow2Magic) with 4; lia). done. Qed.

Lemma zget_magic j : 0 ≤ j → zget 0 (copyAt b0 0 qcow2Magic) j = if j <? 4 then zget 0 qcow2Magic j else 0.
Proof.
  intros Hj. unfold long in Hlong. rewrite copyAt_fits by (change (zlen qcow2Magic) with 4; lia).
  rewrite splice_get by (change (zlen qcow2Magic) with 4; lia).
  change (0 + zlen qcow2Magic) with 4. rewrite Z.sub_0_r, Hzero by done.
  destruct (Z.leb_spec 0 j); [done|lia].
Qed.

Lemma fixed_fields n i v :
  In (n, i, v) [(4%nat, 4, 3); (4%nat, 0x14, lay_clusterBits lay); (8%nat, 0x18, vs);
                (4%nat, 0x24, u32 (lay_l1Size lay)); (8%nat, 0x28, lay_l1Off lay);
                (8%nat, 0x30, lay_reftableOff lay); (4%nat, 0x38, u32 (lay_reftableCls lay));
                (4%nat, 0x60, 4); (4%nat, 0x64, 112)] →
  ∀ j, 0 ≤ j < Z.of_nat n → zget 0 b (i + j) = zget 0 (be_encode n v) j.
Proof.
  intros Hin j Hj. pose proof long_magic as Hm. unfold b, create_fixed.
  repeat (destruct Hin as [[= <- <- <-]|Hin]; [peel_puts; f_equal; simpl in *; lia|]). destruct Hin.
Qed.

Lemma fixed_zero j :
  0x08 ≤ j < 0x14 ∨ 0x20 ≤ j < 0x24 ∨ 0x3C ≤ j < 0x60 ∨ 0x68 ≤ j → zget 0 b j = 0.
Proof.
  intros Hj. pose proof long_magic as Hm. unfold b, create_fixed. peel_puts.
  rewrite zget_magic by lia. destruct (Z.ltb_spec j 4); [lia|done].
Qed.

Lemma fixed_magic j : 0 ≤ j < 4 → zget 0 b j = zget 0 qcow2Magic j.
Proof.
  intros Hj. pose proof long_magic as Hm. unfold b, create_fixed. peel_puts.
  rewrite zget_magic by lia. destruct (Z.ltb_spec j 4); [done|lia].
Qed.
End FixedHeader.

Lemma long_copyAt b off s : 0 ≤ off → off + zlen s ≤ 512 → long b → long (copyAt b off s).
Proof. unfold long. intros. rewrite copyAt_fits, zlen_splice; lia. Qed.

Lemma zget_copyAt b off s j :
  0 ≤ off → off + zlen s ≤ zlen b → 0 ≤ j →
  zget 0 (copyAt b off s) j = if (off <=? j) && (j <? off + zlen s) then zget 0 s (j - off) else zget 0 b j.
Proof. intros. rewrite copyAt_fits by lia. apply splice_get; lia. Qed.

Lemma zlen_put_long n b off v :
  long b → 0 ≤ off → off + Z.of_nat n ≤ 512 → zlen (putBE n b off v) = zlen b.
Proof. unfold long. intros. apply zlen_putBE; lia. Qed.

(** The header of an overlay on a backing file [bpath] of format [fmt]. *)
Section Backing.
Context (cs : Z) (bpath fmt b b' : list Z).
Hypothesis Hlong : long b.
Hypothesis Hcs : 512 ≤ cs ≤ zlen b.
Hypothesis Hp : 0 < zlen bpath.
Hypothesis Hfmt : fmt = fmt_raw ∨ fmt = fmt_qcow2.
Hypothesis Hb' : create_backing cs bpath fmt b = Ok b'.

Let b1 := copyAt (putBE 4 (putBE 4 b 112 extBackingFormat) 116 (zlen fmt)) 120 fmt.
Let b2 := putBE 4 (putBE 8 b1 8 136) 16 (zlen bpath).

Lemma backing_shape : b' = copyAt b2 136 bpath ∧ zlen bpath ≤ 1023 ∧ 136 + zlen bpath ≤ cs.
Proof.
  revert Hb'. unfold create_backing. destruct (Z.eqb_spec (zlen bpath) 0); [lia|]. change qcow2HeaderLen with 112.
  assert (Hl : zlen fmt ≤ 5 ∧ roundUp8 (zlen fmt) = 8 ∧ u32 (zlen fmt) = zlen fmt).
  { destruct Hfmt as [-> | ->]; by vm_compute. }
  destruct Hl as (Hl1 & -> & ->). change (u64 (u64 (112 + 8 + 8) + 8)) with 136. change maxBackingNameLen with 1023.
  destruct (Z.ltb_spec 1023 (zlen bpath)); [done|]. simpl orb. rewrite u64_id by lia.
  destruct (Z.ltb_spec cs (136 + zlen bpath)); [done|]. intros [= <-].
  split; [|lia]. unfold b2, b1. rewrite u32_id by lia. done.
Qed.

Lemma fmt_len : 3 ≤ zlen fmt ≤ 5.
Proof. destruct Hfmt as [-> | ->]; by vm_compute. Qed.

Lemma long_b1 : long b1.
Proof.
  pose proof fmt_len. apply long_copyAt; [lia..|]. repeat (apply long_putBE; [lia|simpl; lia|]). assumption.
Qed.

Lemma zget_b1 j : 0 ≤ j →
  zget 0 b1 j = if (120 <=? j) && (j <? 120 + zlen fmt) then zget 0 fmt (j - 120)
                else zget 0 (putBE 4 (putBE 4 b 112 extBackingFormat) 116 (zlen fmt)) j.
Proof.
  intros Hj. pose proof fmt_len. unfold b1. apply zget_copyAt; try lia.
  assert (long (putBE 4 (putBE 4 b 112 extBackingFormat) 116 (zlen fmt))) as Hl
    by (repeat (apply long_putBE; [lia|simpl; lia|]); assumption).
  unfold long in Hl. lia.
Qed.

Lemma zget_b' j : 0 ≤ j →
  zget 0 b' j = if (136 <=? j) && (j <? 136 + zlen bpath) then zget 0 bpath (j - 136) else zget 0 b2 j.
Proof.
  intros Hj. destruct backing_shape as (Heq & _ & Hfit). pose proof long_b1 as Hl. unfold long in Hl.
  pose proof fmt_len as Hfl. assert (zlen b1 = zlen b).
  { assert (zlen (putBE 4 (putBE 4 b 112 extBackingFormat) 116 (zlen fmt)) = zlen b).
    { rewrite !zlen_put_long; try done; try lia. apply long_putBE; done || lia. }
    unfold b1. rewrite copyAt_fits, zlen_splice; lia. }
  rewrite Heq. apply zget_copyAt; try lia.
  unfold b2. rewrite !zlen_put_long; try done; try lia. apply long_putBE; done || lia.
Qed.

(** The fields it adds; everything else below 112 is the fixed header. *)
Lemma backing_bytes :
  (∀ j, 0 ≤ j < 8 → zget 0 b' (8 + j) = zget 0 (be_encode 8 136) j) ∧
  (∀ j, 0 ≤ j < 4 → zget 0 b' (16 + j) = zget 0 (be_encode 4 (zlen bpath)) j) ∧
  (∀ j, 0 ≤ j < 4 → zget 0 b' (112 + j) = zget 0 (be_encode 4 extBackingFormat) j) ∧
  (∀ j, 0 ≤ j < 4 → zget 0 b' (116 + j) = zget 0 (be_encode 4 (zlen fmt)) j) ∧
  (∀ j, 0 ≤ j < zlen fmt → zget 0 b' (120 + j) = zget 0 fmt j) ∧
  (∀ j, 128 ≤ j < 136 → zget 0 b' j = zget 0 b j) ∧
  (∀ j, 0 ≤ j < zlen bpath → zget 0 b' (136 + j) = zget 0 bpath j) ∧
  (∀ j, 0 ≤ j < 8 ∨ 20 ≤ j < 112 → zget 0 b' j = zget 0 b j).
Proof.
  pose proof long_b1 as Hl1. pose proof fmt_len as Hfl.
  assert (Hlow : ∀ j, 0 ≤ j < 136 → zget 0 b' j = zget 0 b2 j).
  { intros j Hj. rewrite zget_b' by lia. destruct (Z.leb_spec 136 j); simpl; [lia|done]. }
  assert (Hmid : ∀ j, 20 ≤ j < 136 → zget 0 b2 j = zget 0 b1 j) by (intros j Hj; unfold b2; peel_puts; done).
  assert (Hskip : ∀ j, 0 ≤ j < 120 ∨ 125 ≤ j → zget 0 b1 j =
            zget 0 (putBE 4 (putBE 4 b 112 extBackingFormat) 116 (zlen fmt)) j).
  { intros j Hj. rewrite zget_b1 by lia.
    destruct (Z.leb_spec 120 j), (Z.ltb_spec j (120 + zlen fmt)); simpl; done || lia. }
  split_and!; intros j Hj.
  - rewrite Hlow by lia. unfold b2. peel_puts. f_equal. lia.
  - rewrite Hlow by lia. unfold b2. peel_puts. f_equal. lia.
  - rewrite Hlow, Hmid, Hskip by lia. peel_puts. f_equal. lia.
  - rewrite Hlow, Hmid, Hskip by lia. peel_puts. f_equal. lia.
  - rewrite Hlow, Hmid, zget_b1 by lia.
    destruct (Z.leb_spec 120 (120 + j)), (Z.ltb_spec (120 + j) (120 + zlen fmt)); simpl; try lia. f_equal. lia.
  - rewrite Hlow, Hmid, Hskip by lia. peel_puts. done.
  - rewrite zget_b' by lia.
    destruct (Z.leb_spec 136 (136 + j)), (Z.ltb_spec (136 + j) (136 + zlen bpath)); simpl; try lia. f_equal. lia.
  - rewrite Hlow by lia. unfold b2. destruct Hj as [Hj|Hj]; peel_puts; rewrite Hskip by lia; peel_puts; done.
Qed.
End Backing.

(** ** The round trip *)

Section OpenCreated.
Context (vs : Z) (bpath fmt : list Z) (opt : OverlayOpt) (lay : qcow2Layout) (bits : Z) (buf : list Z).
Hypothesis Hvs : 0 < vs ≤ maxVirtualSize.
Hypothesis Hbits : 9 ≤ bits ≤ 21.
Hypothesis Hlay : layout_ok vs bits (PreallocMetadata opt) lay.
Hypothesis Hfmt : fmt = fmt_raw ∨ fmt = fmt_qcow2.
Hypothesis Hcreate : create_backing (2 ^ bits) bpath fmt
  (create_fixed lay vs (replicate (Z.to_nat (lay_refblockOff lay + lay_refUsedCls lay * 2 ^ bits)) 0)) = Ok buf.
Hypothesis Hlen : zlen buf = lay_refblockOff lay + lay_refUsedCls lay * 2 ^ bits.
Hypothesis Hlow : ∀ j, 2 ^ bits ≤ j → zget 0 buf j = 0.
Let f := create_file lay (create_refs lay buf).
Let b0 := replicate (Z.to_nat (lay_refblockOff lay + lay_refUsedCls lay * 2 ^ bits)) 0.
Let bf := create_fixed lay vs b0.

Lemma created_cluster0 j : 0 ≤ j < 2 ^ bits → fbyte f j = zget 0 buf j.
Proof.
  intros Hj. destruct (created_file vs bits (2 ^ bits) _ lay buf eq_refl Hbits Hvs Hlay Hlen Hlow) as [_ Hby].
  destruct (created_int64 vs bits (2 ^ bits) _ lay eq_refl Hbits Hvs Hlay) as (_ & _ & _ & Ho & _ & Hc).
  destruct (create_refs_spec vs bits (2 ^ bits) _ lay buf eq_refl Hbits Hvs Hlay Hlen Hlow) as (_ & Hr & _).
  fold f in Hby. rewrite Hby by lia. destruct (Z.ltb_spec j (lay_l1Off lay)); [|lia]. by apply Hr.
Qed.

Lemma created_long : long b0 ∧ (∀ j, 0 ≤ j → zget 0 b0 j = 0) ∧ zlen b0 = zlen buf ∧ 2 ^ bits ≤ zlen b0 ∧
  long bf ∧ zlen bf = zlen b0 ∧ 2 ^ bits ≤ fsize f ∧ fsize f < 2 ^ 55.
Proof.
  pose proof (pow2_bits bits Hbits).
  destruct (created_int64 vs bits (2 ^ bits) _ lay eq_refl Hbits Hvs Hlay) as (_ & _ & _ & Ho & Hp & Hc).
  destruct (created_sizes vs bits (2 ^ bits) _ lay eq_refl Hbits Hvs Hlay) as (_ & _ & _ & (_ & _ & Hpm) & HL & HL2 & _).
  destruct (created_file vs bits (2 ^ bits) _ lay buf eq_refl Hbits Hvs Hlay Hlen Hlow) as [Hsz _].
  assert (Hz : zlen b0 = zlen buf) by (unfold b0; rewrite zlen_replicate; lia).
  destruct (create_fixed_low lay vs b0) as [Hl _]; [lia|]. fold f in Hsz.
  unfold long, bf. split_and!; try lia. intros j Hj. unfold b0. apply zget_replicate.
Qed.

Let hdrBuf := fread f 0 112.

Lemma hdr_field n i v :
  0 ≤ v < 256 ^ Z.of_nat n → 0 ≤ i → i + Z.of_nat n ≤ 112 →
  (∀ j, 0 ≤ j < Z.of_nat n → zget 0 buf (i + j) = zget 0 (be_encode n v) j) →
  be_at (Z.of_nat n) hdrBuf i = v.
Proof.
  intros Hv Hi Hn Hg. pose proof (pow2_bits bits Hbits).
  apply be_at_field; [done|done|unfold hdrBuf; rewrite zlen_fread; lia|]. unfold hdrBuf.
  intros j Hj. rewrite zget_fread by lia. rewrite created_cluster0 by lia. by apply Hg.
Qed.

(** Bytes of the fixed header survive the backing fields. *)
Lemma buf_fixed j : 0 ≤ j < 8 ∨ 20 ≤ j < 112 → zget 0 buf j = zget 0 bf j.
Proof.
  intros Hj. destruct created_long as (_ & _ & _ & Hc & Hl & Hl2 & _). pose proof (pow2_bits bits Hbits).
  destruct (decide (zlen bpath = 0)) as [Hp|Hp].
  - revert Hcreate. unfold create_backing. rewrite Hp. simpl. fold b0 bf. by intros [= <-].
  - apply (backing_bytes (2 ^ bits) bpath fmt bf buf); try done; pose proof (zlen_nonneg bpath); lia.
Qed.

Lemma fixed_field n i v :
  In (n, i, v) [(4%nat, 4, 3); (4%nat, 0x14, lay_clusterBits lay); (8%nat, 0x18, vs);
                (4%nat, 0x24, u32 (lay_l1Size lay)); (8%nat, 0x28, lay_l1Off lay);
                (8%nat, 0x30, lay_reftableOff lay); (4%nat, 0x38, u32 (lay_reftableCls lay));
                (4%nat, 0x60, 4); (4%nat, 0x64, 112)] →
  0 ≤ v < 256 ^ Z.of_nat n → be_at (Z.of_nat n) hdrBuf i = v.
Proof.
  intros Hin Hv. destruct created_long as (Hl0 & Hz0 & _).
  assert (0 ≤ i ∧ i + Z.of_nat n ≤ 112 ∧ (i + Z.of_nat n ≤ 8 ∨ 20 ≤ i)) as (Hi1 & Hi2 & Hi3).
  { repeat (destruct Hin as [[= <- <- _]|Hin]; [simpl; lia|]). destruct Hin. }
  apply hdr_field; try done. intros j Hj. rewrite buf_fixed by lia. by apply fixed_fields.
Qed.

Lemma zero_field n i :
  0x20 ≤ i ∧ i + Z.of_nat n ≤ 0x24 ∨ 0x3C ≤ i ∧ i + Z.of_nat n ≤ 0x60 → (0 < n)%nat →
  be_at (Z.of_nat n) hdrBuf i = 0.
Proof.
  intros Hi Hn. destruct created_long as (Hl0 & Hz0 & _).
  apply hdr_field; try lia. intros j Hj. rewrite buf_fixed by lia.
  unfold bf. rewrite fixed_zero by (done || lia). replace (be_encode n 0) with (replicate n 0); [by rewrite zget_replicate|].
  unfold be_encode. replace (le_encode n 0) with (replicate n 0); [by rewrite reverse_replicate_rev|].
  clear. induction n as [|n IH]; simpl; [done|]. by rewrite IH.
Qed.

Lemma created_header :
  open_fixed hdrBuf = Ok (bits, created_hdr vs lay) ∧ open_hdrLen hdrBuf (2 ^ bits) = Ok 112.
Proof.
  pose proof (pow2_bits bits Hbits). change maxVirtualSize with (2 ^ 44) in Hvs.
  destruct (created_int64 vs bits (2 ^ bits) _ lay eq_refl Hbits Hvs Hlay) as (_ & _ & Hr0 & Ho & Hp & Hc).
  destruct (lo_fit _ _ _ _ Hlay) as (Ht & Hl1 & _). pose proof (lo_bits _ _ _ _ Hlay) as Hcb.
  pose proof (lo_reftableOff _ _ _ _ Hlay).
  assert (H4 : be_at 4 hdrBuf 4 = 3) by (apply (fixed_field 4); [simpl; tauto|done]).
  assert (H14 : be_at 4 hdrBuf 0x14 = lay_clusterBits lay) by (apply (fixed_field 4); [simpl; tauto|simpl; lia]).
  assert (H18 : be_at 8 hdrBuf 0x18 = vs) by (apply (fixed_field 8); [simpl; tauto|simpl; lia]).
  assert (H24 : be_at 4 hdrBuf 0x24 = lay_l1Size lay).
  { rewrite <- (u32_id (lay_l1Size lay)) by lia. apply (fixed_field 4); [simpl; tauto|rewrite u32_id; simpl; lia]. }
  assert (H28 : be_at 8 hdrBuf 0x28 = lay_l1Off lay) by (apply (fixed_field 8); [simpl; tauto|simpl; lia]).
  assert (H30 : be_at 8 hdrBuf 0x30 = lay_reftableOff lay) by (apply (fixed_field 8); [simpl; tauto|simpl; lia]).
  assert (H38 : be_at 4 hdrBuf 0x38 = lay_reftableCls lay).
  { rewrite <- (u32_id (lay_reftableCls lay)) by lia. apply (fixed_field 4); [simpl; tauto|rewrite u32_id; simpl; lia]. }
  assert (H64 : be_at 4 hdrBuf 0x64 = 112) by (apply (fixed_field 4); [simpl; tauto|done]).
  assert (H20 : be_at 4 hdrBuf 0x20 = 0) by (apply (zero_field 4); [simpl; lia|lia]).
  assert (H48 : be_at 8 hdrBuf 0x48 = 0) by (apply (zero_field 8); [simpl; lia|lia]).
  assert (H3c : be_at 4 hdrBuf 0x3C = 0) by (apply (zero_field 4); [simpl; lia|lia]).
  assert (H40 : be_at 8 hdrBuf 0x40 = 0) by (apply (zero_field 8); [simpl; lia|lia]).
  split.
  - unfold open_fixed, parse_header. rewrite H4, H14, H18, H24, H28, H30, H38, H20, H48, H3c, H40. simpl.
    rewrite Hcb. destruct (Z.ltb_spec bits 9), (Z.ltb_spec 21 bits); simpl; try lia.
    change maxVirtualSize with (2 ^ 44). destruct (Z.ltb_spec (2 ^ 44) vs); [lia|done].
  - unfold open_hdrLen. rewrite H64. change qcow2V3HeaderLen with 104. simpl.
    destruct (Z.ltb_spec (2 ^ bits) 112); [lia|done].
Qed.

Lemma created_open_l1 :
  lay_l1Size lay * 8 ≤ maxL1TableBytes →
  open_l1 f (created_hdr vs lay) (2 ^ bits) (fsize f) = Ok (created_l1 (2 ^ bits) lay).
Proof.
  intros Hcap. pose proof (pow2_bits bits Hbits). pose proof (cs_div8 bits ltac:(lia)).
  change maxVirtualSize with (2 ^ 44) in Hvs.
  destruct (lo_fit _ _ _ _ Hlay) as (_ & Hl1 & _).
  destruct (created_int64 vs bits (2 ^ bits) _ lay eq_refl Hbits Hvs Hlay) as (_ & _ & _ & Ho & Hp & Hc).
  destruct (created_offsets vs bits (2 ^ bits) _ lay eq_refl Hbits Hvs Hlay) as (_ & _ & Hl1o & Hl2o & _).
  destruct (created_sizes vs bits (2 ^ bits) _ lay eq_refl Hbits Hvs Hlay)
    as (_ & _ & (Hs & _) & _ & _ & _ & _ & _ & Hl18 & _).
  destruct (created_file vs bits (2 ^ bits) _ lay buf eq_refl Hbits Hvs Hlay Hlen Hlow) as [Hsz _]. fold f in Hsz.
  unfold open_l1. simpl h_size. simpl h_l1Size. simpl h_l1Offset.
  rewrite (u64_id (2 ^ bits / 8 * 2 ^ bits)) by nia. rewrite divCeil_cdiv by nia.
  rewrite <- (lo_l1Size _ _ _ _ Hlay).
  destruct (Z.ltb_spec 0xFFFFFFFF (lay_l1Size lay)); [lia|].
  destruct (Z.ltb_spec (lay_l1Size lay) (lay_l1Size lay)); [lia|].
  rewrite Hl1o at 1. rewrite Z.mod_mul by lia. simpl negb. cbv iota.
  rewrite (u64_id (lay_l1Size lay * 8)) by lia. destruct (Z.ltb_spec maxL1TableBytes (lay_l1Size lay * 8)); [lia|].
  change maxL1TableBytes with (2 ^ 26) in Hcap. rewrite u64_id by lia.
  assert (Hfit : lay_l1Off lay + lay_l1Size lay * 8 ≤ fsize f) by lia.
  destruct (Z.ltb_spec (lay_l1Off lay + lay_l1Size lay * 8) (lay_l1Off lay)),
    (Z.ltb_spec (fsize f) (lay_l1Off lay + lay_l1Size lay * 8)); simpl orb; cbv iota; try lia.
  unfold read_exact. rewrite int64_id, file_ReadAt_full by lia. simpl. f_equal.
  apply (zget_eq 0).
  { unfold decode_table, created_l1. by rewrite !zlen_map. }
  unfold decode_table at 1. rewrite zlen_map, zlen_seqZ by lia. intros k Hk.
  rewrite <- (created_l1_disk vs bits (2 ^ bits) _ lay buf eq_refl Hbits Hvs Hlay Hlen Hlow k) by done.
  replace (lay_l1Size lay * 8) with (8 * lay_l1Size lay) by lia. rewrite decode_table_get by done. done.
Qed.


(** A field of the extension region. *)
Lemma ext_field n extEnd i v :
  0 ≤ v < 256 ^ Z.of_nat n → 0 ≤ i → i + Z.of_nat n ≤ extEnd ≤ 2 ^ bits →
  (∀ j, 0 ≤ j < Z.of_nat n → zget 0 buf (i + j) = zget 0 (be_encode n v) j) →
  be_idx (Z.of_nat n) (fread f 0 extEnd) i = Ok v.
Proof.
  intros Hv Hi Hn Hg. unfold be_idx. rewrite zlen_fread by lia.
  destruct (Z.ltb_spec i 0), (Z.ltb_spec extEnd (i + Z.of_nat n)); simpl; try lia. f_equal.
  apply be_at_field; [done|done|rewrite zlen_fread; lia|].
  intros j Hj. rewrite zget_fread by lia. rewrite created_cluster0 by lia. by apply Hg.
Qed.

Lemma zero_bytes n j : zget 0 (be_encode n 0) j = 0.
Proof.
  replace (be_encode n 0) with (replicate n 0); [by rewrite zget_replicate|].
  unfold be_encode. replace (le_encode n 0) with (replicate n 0); [by rewrite reverse_replicate_rev|].
  clear. induction n as [|n IH]; simpl; [done|]. by rewrite IH.
Qed.

Lemma created_extBuf extEnd :
  112 < extEnd ≤ 2 ^ bits → open_extBuf f (2 ^ bits) 112 extEnd = Ok (fread f 0 extEnd).
Proof.
  intros He. destruct created_long as (_ & _ & _ & _ & _ & _ & Hf & _). unfold open_extBuf.
  change qcow2HeaderLen with 112. destruct (Z.ltb_spec 112 extEnd); [|lia].
  destruct (Z.ltb_spec (2 ^ bits) extEnd); [lia|]. rewrite file_ReadAt_full by lia.
  rewrite zlen_fread, Z.eqb_refl by lia. done.
Qed.

(** One step of the scan past the fixed header. *)
Lemma scan_step fuel extBuf extEnd e fm magic elen :
  112 ≤ e → e + 8 ≤ extEnd < 2 ^ 32 → be_idx 4 extBuf e = Ok magic → be_idx 4 extBuf (e + 4) = Ok elen →
  scan_ext (S fuel) hdrBuf extBuf extEnd e fm =
    if magic =? 0 then Ok fm
    else if u64 (extEnd - (e + 8)) <? elen then Err EExtOverflow
    else if (magic =? extBackingFormat) && (0 <? elen) then
      let* name := slice_idx extBuf (e + 8) (u64 (e + 8 + elen)) in
      if negb (bool_decide (name = fmt_raw)) && negb (bool_decide (name = fmt_qcow2)) then Err EBackingFormat
      else scan_ext fuel hdrBuf extBuf extEnd (u64 (e + 8 + roundUp8 elen)) name
    else scan_ext fuel hdrBuf extBuf extEnd (u64 (e + 8 + roundUp8 elen)) fm.
Proof.
  intros He Hin Hm Hl. cbn [scan_ext]. rewrite (u64_id (e + 8)) by lia.
  destruct (Z.leb_spec (e + 8) extEnd); [|lia]. simpl negb. cbv iota.
  assert (zlen hdrBuf = 112) as -> by (unfold hdrBuf; by rewrite zlen_fread by lia).
  destruct (Z.leb_spec (e + 8) 112); [lia|]. by rewrite Hm, Hl.
Qed.

Lemma created_standalone :
  bpath = [] →
  be_at 8 hdrBuf 0x08 = 0 ∧ be_at 4 hdrBuf 0x10 = 0 ∧
  open_extensions f hdrBuf (2 ^ bits) 112 0 = Ok [].
Proof.
  intros ->. destruct created_long as (Hl0 & Hz0 & _ & _ & _ & _ & Hf & _). pose proof (pow2_bits bits Hbits).
  assert (Hbuf : buf = bf) by (revert Hcreate; unfold create_backing; simpl; by intros [= <-]).
  assert (Hz : ∀ j, 0x08 ≤ j < 0x14 ∨ 0x70 ≤ j → zget 0 buf j = 0).
  { intros j Hj. rewrite Hbuf. apply fixed_zero; done || lia. }
  split_and!.
  - apply (hdr_field 8); try done. intros j Hj. rewrite zero_bytes. apply Hz. simpl in Hj. lia.
  - apply (hdr_field 4); try done. intros j Hj. rewrite zero_bytes. apply Hz. simpl in Hj. lia.
  - unfold open_extensions. rewrite Z.eqb_refl, created_extBuf by lia. cbn [rbind].
    unfold scan_fuel. replace (Z.to_nat (2 ^ bits / 8 + 1)) with (S (Z.to_nat (2 ^ bits / 8)))
      by (pose proof (Z.div_pos (2 ^ bits) 8); lia).
    rewrite (scan_step _ _ _ _ _ 0 0); [done|lia|lia|..].
    + apply (ext_field 4); [done|done|simpl; lia|]. intros j Hj. rewrite zero_bytes. apply Hz. lia.
    + apply (ext_field 4); [done|done|simpl; lia|]. intros j Hj. rewrite zero_bytes. apply Hz. lia.
Qed.

Lemma fread_list i (l : list Z) :
  0 ≤ i → i + zlen l ≤ 2 ^ bits → (∀ j, 0 ≤ j < zlen l → zget 0 buf (i + j) = zget 0 l j) →
  fread f i (zlen l) = l.
Proof.
  intros Hi Hl Hg. pose proof (zlen_nonneg l). apply (zget_eq 0); rewrite zlen_fread by lia; [done|].
  intros j Hj. rewrite zget_fread, created_cluster0 by lia. by apply Hg.
Qed.

Lemma created_overlay :
  0 < zlen bpath →
  be_at 8 hdrBuf 0x08 = 136 ∧ be_at 4 hdrBuf 0x10 = zlen bpath ∧ zlen bpath ≤ 1023 ∧ 136 + zlen bpath ≤ 2 ^ bits ∧
  fread f 136 (zlen bpath) = bpath ∧ open_extensions f hdrBuf (2 ^ bits) 112 136 = Ok fmt.
Proof.
  intros Hp. destruct created_long as (Hl0 & Hz0 & Hlz & Hc & Hl & Hl2 & Hf & _). pose proof (pow2_bits bits Hbits).
  destruct (backing_shape (2 ^ bits) bpath fmt bf buf Hp Hfmt Hcreate) as (_ & Hp1 & Hp2).
  destruct (backing_bytes (2 ^ bits) bpath fmt bf buf Hl ltac:(lia) Hp Hfmt Hcreate)
    as (B8 & B16 & B112 & B116 & B120 & B128 & Bname & _).
  assert (Hfl : 3 ≤ zlen fmt ≤ 5) by (destruct Hfmt as [-> | ->]; by vm_compute).
  split_and!; try lia.
  - apply (hdr_field 8); done.
  - apply (hdr_field 4); try done. simpl. lia.
  - apply fread_list; done || lia.
  - unfold open_extensions. change (136 =? 0) with false. cbv iota. rewrite created_extBuf by lia. cbn [rbind].
    change (scan_fuel 136) with 18%nat. set (eb := fread f 0 136).
    rewrite (scan_step _ eb 136 112 [] extBackingFormat (zlen fmt)); try lia.
    2:{ apply (ext_field 4); [done|done|simpl; lia|done]. }
    2:{ apply (ext_field 4); [simpl; lia|done|simpl; lia|done]. }
    change (extBackingFormat =? 0) with false. rewrite Z.eqb_refl. cbv iota.
    change (u64 (136 - (112 + 8))) with 16.
    destruct (Z.ltb_spec 16 (zlen fmt)); [lia|]. destruct (Z.ltb_spec 0 (zlen fmt)); [|lia]. simpl andb. cbv iota.
    assert (Hname : slice_idx eb 120 (u64 (120 + zlen fmt)) = Ok fmt).
    { rewrite u64_id by lia. unfold slice_idx, eb. rewrite zlen_fread by lia.
      destruct (Z.ltb_spec 120 0), (Z.ltb_spec (120 + zlen fmt) 120), (Z.ltb_spec 136 (120 + zlen fmt)); simpl; try lia.
      f_equal. rewrite zslice_fread by lia. replace (120 + zlen fmt - 120) with (zlen fmt) by lia.
      apply fread_list; done || lia. }
    change (112 + 8) with 120. rewrite Hname. cbn [rbind].
    assert (Hok : negb (bool_decide (fmt = fmt_raw)) && negb (bool_decide (fmt = fmt_qcow2)) = false).
    { destruct Hfmt as [-> | ->]; by vm_compute. }
    rewrite Hok. assert (u64 (120 + roundUp8 (zlen fmt)) = 128) as ->.
    { destruct Hfmt as [-> | ->]; by vm_compute. }
    assert (Hzz : ∀ j, 128 ≤ j < 136 → zget 0 buf j = 0).
    { intros j Hj. rewrite B128 by lia. apply fixed_zero; done || lia. }
    rewrite (scan_step _ eb 136 128 fmt 0 0); try lia; [done|..].
    + apply (ext_field 4); [done|done|simpl; lia|]. intros j Hj. rewrite zero_bytes. apply Hzz. simpl in Hj. lia.
    + apply (ext_field 4); [done|done|simpl; lia|]. intros j Hj. rewrite zero_bytes. apply Hzz. simpl in Hj. lia.
Qed.


(** Everything but the backing file. *)
Lemma created_prefix H p fuel key visited :
  ho_open H p = Some (key, f) → key ∉ visited → lay_l1Size lay * 8 ≤ maxL1TableBytes →
  ∀ depth, depth ≤ 32 →
  openGuestImageDepth (S fuel) H p depth visited =
    let* fm := open_extensions f hdrBuf (2 ^ bits) 112 (be_at 8 hdrBuf 0x08) in
    let finish (backing : option guestImage) (name real : path) :=
      Ok {| op_image := Qcow2 (w_q (fresh_writable lay vs f backing)) backing;
            op_backingName := name; op_backingFormat := fm; op_backingAbs := real |} in
    if 0 <? be_at 4 hdrBuf 0x10 then
      let* (name, real) := open_backingName H p f (2 ^ bits) 112 (be_at 8 hdrBuf 0x08) (be_at 4 hdrBuf 0x10) in
      match openGuestImageDepth fuel H real (depth + 1) (key :: visited) with
      | Err EFuel => Err EFuel
      | Err EPanic => Err EPanic
      | Err _ => Err EBackingOpen
      | Ok b => if negb (bool_decide (fm = [])) && negb (bool_decide (Format (op_image b) = fm))
                then Err EFormatMismatch else finish (Some (op_image b)) name real
      end
    else finish None [] [].
Proof.
  intros Ho Hv Hcap depth Hd. destruct created_long as (Hl0 & Hz0 & _ & _ & _ & _ & Hf & _).
  pose proof (pow2_bits bits Hbits). cbn [openGuestImageDepth]. change maxBackingChainDepth with 32.
  destruct (Z.ltb_spec 32 depth); [lia|]. rewrite Ho, bool_decide_eq_false_2 by done.
  assert (Hm : read_exact f 4 0 = Ok qcow2Magic).
  { unfold read_exact. rewrite int64_id, file_ReadAt_full by lia. f_equal.
    apply (fread_list 0 qcow2Magic); [done|change (zlen qcow2Magic) with 4; lia|].
    change (zlen qcow2Magic) with 4. intros j Hj. rewrite buf_fixed by lia.
    unfold bf. rewrite Z.add_0_l. by apply fixed_magic. }
  rewrite Hm, bool_decide_eq_true_2 by done. simpl negb. cbv iota. change qcow2HeaderLen with 112.
  assert (read_exact f 112 0 = Ok hdrBuf) as ->.
  { unfold read_exact. rewrite int64_id, file_ReadAt_full by lia. done. }
  cbn [rbind]. destruct created_header as [-> Hhl]. cbn [rbind]. rewrite Z.shiftl_1_l, Hhl. cbn [rbind].
  destruct (open_extensions f hdrBuf (2 ^ bits) 112 (be_at 8 hdrBuf 0x08)) as [fm|]; [|done]. cbn [rbind].
  rewrite created_open_l1 by done. cbn [rbind]. unfold fresh_writable.
  rewrite (lo_bits _ _ _ _ Hlay), (lo_cs _ _ _ _ Hlay). done.
Qed.
End OpenCreated.

(** Create and open are inverse: opening the file [createQcow2] wrote parses
    back exactly the geometry, header and L1 table of the created layout, and an
    overlay's backing name and format, and attaches the backing image that name
    resolves to.  (The L1 table must be within the open path's 64 MiB cap, which
    only cluster sizes below 4 KiB can exceed.) *)
Theorem open_createQcow2 vs bpath fmt opt f H p key :
  0 < vs ≤ maxVirtualSize → ClusterBits opt = 0 ∨ 9 ≤ ClusterBits opt ≤ 21 → zlen bpath ≤ 256 →
  fmt = fmt_raw ∨ fmt = fmt_qcow2 → createQcow2 vs bpath fmt opt = Ok f → ho_open H p = Some (key, f) →
  ∃ lay, computeQcow2Layout vs (ClusterBits opt) (PreallocMetadata opt) = Ok lay ∧
  (lay_l1Size lay * 8 ≤ maxL1TableBytes →
   (bpath = [] →
    openGuestImage H p = Ok {| op_image := Qcow2 (w_q (fresh_writable lay vs f None)) None;
                               op_backingName := []; op_backingFormat := []; op_backingAbs := [] |}) ∧
   (∀ real b, bpath ≠ [] → validateBackingName bpath = Ok tt →
    backingPathAllowed (ho_paths H) p
      (if IsAbs bpath then bpath else Abs (pe_cwd (ho_paths H)) (Join (Dir p) bpath)) = Ok real →
    openGuestImageDepth 32 H real 1 [key] = Ok b → Format (op_image b) = fmt →
    openGuestImage H p = Ok {| op_image := Qcow2 (w_q (fresh_writable lay vs f (Some (op_image b)))) (Some (op_image b));
                               op_backingName := bpath; op_backingFormat := fmt; op_backingAbs := real |})).
Proof.
  intros Hvs Hb Hp Hfmt Hc Ho.
  assert (Hfl : zlen fmt ≤ 16) by (destruct Hfmt as [-> | ->]; by vm_compute).
  destruct (createQcow2_file vs bpath fmt opt Hvs Hb Hp Hfl)
    as (lay & bits & buf & Hlay & Hbits & Hok & Hcr & Hbk & Hlen & Hlow).
  rewrite Hc in Hcr. injection Hcr as ->. exists lay. split; [done|]. intros Hcap.
  pose proof (created_prefix vs bpath fmt opt lay bits buf Hvs Hbits Hok Hfmt Hbk Hlen Hlow H p 32 key []
                Ho (not_elem_of_nil _) Hcap 0 ltac:(lia)) as Hpre.
  unfold openGuestImage. change open_fuel with 33%nat. rewrite Hpre. clear Hpre. split.
  - intros Hnil.
    destruct (created_standalone vs bpath fmt opt lay bits buf Hvs Hbits Hok Hbk Hlen Hlow Hnil) as (-> & -> & ->).
    done.
  - intros real b Hne Hv Hal Hob Hfo.
    assert (Hpos : 0 < zlen bpath) by (destruct bpath; [done|]; rewrite zlen_cons; pose proof (zlen_nonneg bpath); lia).
    destruct (created_overlay vs bpath fmt opt lay bits buf Hvs Hbits Hok Hfmt Hbk Hlen Hlow Hpos)
      as (-> & -> & H1 & H2 & Hname & ->). cbn [rbind].
    destruct (Z.ltb_spec 0 (zlen bpath)); [|lia].
    destruct (created_long vs opt lay bits buf Hvs Hbits Hok Hlen Hlow) as (_ & _ & _ & _ & _ & _ & Hfs & Hfs2).
    pose proof (pow2_bits bits Hbits).
    assert (open_backingName H p (create_file lay (create_refs lay buf)) (2 ^ bits) 112 136 (zlen bpath) = Ok (bpath, real)) as ->.
    { unfold open_backingName. change maxBackingNameLen with 1023. destruct (Z.ltb_spec 1023 (zlen bpath)); [lia|].
      rewrite (u64_id (2 ^ bits - 136)) by lia.
      destruct (Z.ltb_spec 136 112), (Z.ltb_spec (2 ^ bits) 136), (Z.ltb_spec (2 ^ bits - 136) (zlen bpath));
        simpl orb; cbv iota; try lia.
      unfold read_exact. rewrite int64_id, file_ReadAt_full, Hname by lia. cbn [rbind]. rewrite Hv. cbv zeta. by destruct (IsAbs bpath); rewrite Hal. }
    cbn [rbind]. change (0 + 1) with 1. rewrite Hob. rewrite (bool_decide_eq_true_2 (Format (op_image b) = fmt)) by done.
    by rewrite andb_false_r.
Qed.

(** ** Concrete hosts *)

Definition bytes_okb (f : file) : bool :=
  (0 <=? fsize f) && (fsize f <? 2 ^ 63) && forallb (λ kv, (0 <=? kv.2) && (kv.2 <? 256)) (map_to_list (fdata f)).

Lemma bytes_okb_ok f : bytes_okb f = true → 0 ≤ fsize f < 2 ^ 63 ∧ ∀ i, is_byte (fbyte f i).
Proof.
  unfold bytes_okb. intros H. apply andb_true_iff in H as [H1 H2]. bsimp. split; [lia|].
  intros i. unfold fbyte, is_byte. destruct (fdata f !! i) as [b|] eqn:E; simpl; [|lia].
  apply elem_of_map_to_list, list_elem_of_In in E. rewrite forallb_forall in H2. specialize (H2 _ E). simpl in H2.
  bsimp. lia.
Qed.

(** One file [/i/a]; [demo_env] resolves paths. *)
Definition one_file (f : file) : host :=
  {| ho_open := λ p, if bool_decide (p = [47; 105; 47; 97]) then Some ((1, 1), f) else None; ho_paths := demo_env |}.

Lemma one_file_ok f : bytes_okb f = true → host_ok (one_file f).
Proof. intros Hf p k g. simpl. case_bool_decide; [|done]. intros [= _ <-]. by apply bytes_okb_ok. Qed.

(** A qcow2 magic followed by zeros. *)
Definition hostile_file : file := fwrite empty_file 0 (qcow2Magic ++ replicate 200 0).

Lemma openGuestImage_safe_witness :
  EVersion ≠ EPanic ∧ EVersion ≠ EFuel.
Proof.
  apply (openGuestImage_safe (one_file hostile_file) [47; 105; 47; 97] EVersion).
  - apply one_file_ok. vm_compute. reflexivity.
  - vm_compute. reflexivity.
Defined.

Definition demo_image_file : file :=
  match createQcow2 2048 [] fmt_raw demo_opt with Ok f => f | Err _ => empty_file end.

Lemma demo_image_file_created : createQcow2 2048 [] fmt_raw demo_opt = Ok demo_image_file.
Proof.
  destruct (createQcow2_file 2048 [] fmt_raw demo_opt) as (lay & bits & buf & _ & _ & _ & H & _);
    [by vm_compute|right; by vm_compute|by vm_compute|by vm_compute|].
  unfold demo_image_file. rewrite H. reflexivity.
Qed.

Lemma open_createQcow2_witness :
  ∃ lay, openGuestImage (one_file demo_image_file) [47; 105; 47; 97] =
    Ok {| op_image := Qcow2 (w_q (fresh_writable lay 2048 demo_image_file None)) None;
          op_backingName := []; op_backingFormat := []; op_backingAbs := [] |}.
Proof.
  destruct (open_createQcow2 2048 [] fmt_raw demo_opt demo_image_file (one_file demo_image_file) [47; 105; 47; 97] (1, 1))
    as (lay & Hl & Ho).
  - by vm_compute.
  - right. by vm_compute.
  - by vm_compute.
  - by left.
  - apply demo_image_file_created.
  - reflexivity.
  - exists lay. apply Ho; [|reflexivity].
    assert (Hl1 : ∀ l, computeQcow2Layout 2048 9 false = Ok l → lay_l1Size l = 1).
    { intros l. vm_compute. by intros [= <-]. }
    rewrite (Hl1 lay Hl). by vm_compute.
Defined.

Lemma openGuestImage_validates_witness :
  ∃ o, openGuestImage (one_file demo_image_file) [47; 105; 47; 97] = Ok o ∧ chain_length (op_image o) ≤ 33.
Proof.
  assert (Hok : is_ok (openGuestImage (one_file demo_image_file) [47; 105; 47; 97]) = true)
    by (vm_compute; reflexivity).
  destruct (openGuestImage (one_file demo_image_file) [47; 105; 47; 97]) as [o|err] eqn:E; [|discriminate Hok].
  exists o. split; [reflexivity|].
  apply (openGuestImage_validates (one_file demo_image_file) [47; 105; 47; 97] o).
  - apply one_file_ok. vm_compute. reflexivity.
  - intros q r. simpl. destruct (IsAbs q) eqn:Hq; [|done]. intros [= <-]. unfold Clean. by rewrite Hq.
  - exact E.
Defined.
