(* ===== verification/Qcow2Meta.v ===== *)
(** * Metadata ranges and the validation of host data

    [internal/cow/qcow2.go]: [metadataRanges] - collecting, sorting and merging the
    host ranges of the header, L1, L2 and refcount structures - and
    [validateHostData], which decides with one binary search whether a host range
    is clear of all of them.  The theorem is that the search over the merged
    ranges decides exactly disjointness from every collected range. *)

From stdpp Require Import sorting.
From S2P Require Import Prelude Bytes Qcow2Layout Qcow2Image.

(** ** Definitions *)

(** A half-open range [off, end). *)
Definition hostRange : Type := Z * Z.
Definition no_range : hostRange := (0, 0).

(** The range of each non-zero entry of a table. *)
Definition cluster_ranges (cs : Z) (offs : list Z) : list hostRange :=
  map (λ c, (c, u64 (c + cs))) (filter (λ c, c ≠ 0) offs).

(** The refcount table and the blocks it references. *)
Definition refcount_ranges (q : qcow2Image) : result cow_err (list hostRange) :=
  let hdr := q_hdr q in
  let cs := q_clusterSize q in
  if negb (h_refcountOffset hdr =? 0) && (0 <? h_refcountClusters hdr) then
    let tblLen := u64 (h_refcountClusters hdr * cs) in
    let tblEnd := u64 (h_refcountOffset hdr + tblLen) in
    if (tblEnd <? h_refcountOffset hdr) || (q_fileSize q <? tblEnd) then Err ERefTableBeyondFile
    else if maxRefcountTableBytes <? tblLen then Err ERefTableCap
    else match file_ReadAt (q_f q) tblLen (int64 (h_refcountOffset hdr)) with
         | (_, Some e) => Err (io_cow e)
         | (buf, None) =>
             let blocks := map (λ e, Z.land e l1eOffsetMask) (decode_table (tblLen / 8) buf) in
             Ok ((h_refcountOffset hdr, tblEnd) ::
                 cluster_ranges cs (filter (λ c, u64 (c + cs) ≤ q_fileSize q) blocks))
         end
  else Ok [].

(** Everything that is metadata, unsorted. *)
Definition raw_ranges (q : qcow2Image) : result cow_err (list hostRange) :=
  let cs := q_clusterSize q in
  let n := zlen (q_l1 q) in
  let l1 := if 0 <? n then [(h_l1Offset (q_hdr q), u64 (h_l1Offset (q_hdr q) + n * 8))] else [] in
  let l2 := cluster_ranges cs (map (λ e, Z.land e l1eOffsetMask) (q_l1 q)) in
  let* refs := refcount_ranges q in
  Ok ((0, cs) :: l1 ++ l2 ++ refs).

Definition off_le (a b : hostRange) : Prop := fst a ≤ fst b.
#[global] Instance off_le_dec a b : Decision (off_le a b).
Proof. unfold off_le. apply _. Defined.

#[global] Instance off_le_trans : Transitive off_le.
Proof. unfold off_le. intros x y z. lia. Qed.
#[global] Instance off_le_total : Total off_le.
Proof. unfold off_le. intros x y. lia. Qed.

(** Coalesce a range into the merged list; the last merged range comes first. *)
Definition merge_step (merged : list hostRange) (r : hostRange) : list hostRange :=
  match merged with
  | [] => [r]
  | (a, e) :: m => if fst r <=? e then (a, if e <? snd r then snd r else e) :: m else r :: merged
  end.

Definition merge_ranges (l : list hostRange) : list hostRange := rev (fold_left merge_step l []).

(** [sort.Slice] by offset, then the merge. *)
Definition metadataRanges (q : qcow2Image) : result cow_err (list hostRange) :=
  let* raw := raw_ranges q in Ok (merge_ranges (merge_sort off_le raw)).

(** [sort.Search]: the smallest index in [i, j) where the predicate holds, [j] if
    there is none, for a monotone predicate. *)
Fixpoint search (fuel : nat) (p : Z → bool) (i j : Z) : Z :=
  match fuel with
  | O => i
  | S fuel =>
      if i <? j then
        let h := (i + j) / 2 in
        if p h then search fuel p i h else search fuel p (h + 1) j
      else i
  end.

Definition validateHostData (q : qcow2Image) (off n : Z) : result cow_err unit :=
  if negb (off mod q_clusterSize q =? 0) then Err EHostUnaligned
  else
    let e := u64 (off + n) in
    if (e <? off) || (q_fileSize q <? e) then Err EHostBeyondFile
    else
      let* ranges := metadataRanges q in
      let i := search (length ranges) (λ i, off <? snd (zget no_range ranges i)) 0 (zlen ranges) in
      if (i <? zlen ranges) && (off <? snd (zget no_range ranges i)) && (fst (zget no_range ranges i) <? e)
      then Err EHostMetadata else Ok tt.

(** ** Merging *)

(** [i] lies in some range of [l]. *)
Definition covers (l : list hostRange) (i : Z) : Prop := ∃ r : hostRange, r ∈ l ∧ fst r ≤ i < snd r.

(** Ascending, disjoint, not even adjacent. *)
Definition separated (l : list hostRange) : Prop :=
  (∀ i, 0 ≤ i < zlen l → fst (zget no_range l i) < snd (zget no_range l i)) ∧
  (∀ i j, 0 ≤ i → i < j < zlen l → snd (zget no_range l i) < fst (zget no_range l j)).

(** The same for a list in reverse. *)
Inductive rsep : list hostRange → Prop :=
| rsep_nil : rsep []
| rsep_one r : fst r < snd r → rsep [r]
| rsep_cons r s l : fst r < snd r → snd s < fst r → rsep (s :: l) → rsep (r :: s :: l).

Lemma rsep_head r l : rsep (r :: l) → fst r < snd r ∧ ∀ s, s ∈ l → snd s < fst r.
Proof.
  revert r. induction l as [|s l IH]; intros r H; inversion H; subst.
  - split; [done|]. intros s Hs. by apply not_elem_of_nil in Hs.
  - split; [done|]. intros t Ht. apply elem_of_cons in Ht as [->|Ht]; [done|].
    destruct (IH s) as [? Hl]; [done|]. specialize (Hl t Ht). lia.
Qed.

Lemma merge_step_spec (m : list hostRange) (r : hostRange) :
  rsep m → fst r < snd r → (∀ s, s ∈ m → fst s ≤ fst r) →
  rsep (merge_step m r) ∧ (∀ s, s ∈ merge_step m r → fst s ≤ fst r) ∧
  ∀ i, covers (merge_step m r) i ↔ covers m i ∨ fst r ≤ i < snd r.
Proof.
  intros Hm Hr Hle. destruct m as [|[a e] m]; simpl.
  - split_and!; [by constructor|intros s Hs; apply list_elem_of_singleton in Hs as ->; lia|].
    intros i. unfold covers. split.
    + intros (s & Hs & Hi). apply list_elem_of_singleton in Hs as ->. by right.
    + intros [(s & Hs & _)|Hi]; [by apply not_elem_of_nil in Hs|]. exists r. split; [by left|done].
  - pose proof (Hle (a, e) ltac:(by left)) as Ha. simpl in Ha. pose proof (rsep_head _ _ Hm) as [Hae Hlow]. simpl in *.
    destruct (Z.leb_spec (fst r) e) as [Hj|Hj].
    + set (e' := if e <? snd r then snd r else e). assert (e ≤ e' ∧ snd r ≤ e') by (unfold e'; case_ifs; lia).
      assert (He' : e' = e ∨ e' = snd r) by (unfold e'; case_if; auto).
      split_and!.
      * inversion Hm; subst; constructor; simpl in *; done || lia.
      * intros s Hs. apply elem_of_cons in Hs as [->|Hs]; [done|]. apply Hle. by right.
      * intros i. unfold covers. split.
        -- intros (s & Hs & Hi). apply elem_of_cons in Hs as [->|Hs].
           ++ simpl in Hi. destruct (decide (i < e)); [left; exists (a, e); split; [by left|simpl; lia]|right; lia].
           ++ left. exists s. split; [by right|done].
        -- intros [(s & Hs & Hi)|Hi].
           ++ apply elem_of_cons in Hs as [->|Hs]; [exists (a, e'); split; [by left|simpl in *; lia]|].
              exists s. split; [by right|done].
           ++ exists (a, e'). split; [by left|simpl; lia].
    + split_and!.
      * by constructor.
      * intros s Hs. apply elem_of_cons in Hs as [->|Hs]; [done|by apply Hle].
      * intros i. unfold covers. split.
        -- intros (s & Hs & Hi). apply elem_of_cons in Hs as [->|Hs]; [by right|left; eauto].
        -- intros [(s & Hs & Hi)|Hi]; [exists s; split; [by right|done]|exists r; split; [by left|done]].
Qed.

Lemma merge_fold l m :
  rsep m → Forall (λ r, fst r < snd r) l → StronglySorted off_le l →
  (∀ s r, s ∈ m → r ∈ l → fst s ≤ fst r) →
  rsep (fold_left merge_step l m) ∧
  ∀ i, covers (fold_left merge_step l m) i ↔ covers m i ∨ covers l i.
Proof.
  revert m. induction l as [|r l IH]; intros m Hm Hv Hs Hle; simpl.
  - split; [done|]. intros i. split; [by left|]. intros [|(s & Hs' & _)]; [done|by apply not_elem_of_nil in Hs'].
  - inversion Hv; subst. inversion Hs as [|? ? Hs1 Hs2]; subst.
    destruct (merge_step_spec m r) as (M1 & M2 & M3); [done..|intros s Hin; apply Hle; [done|by left]|].
    destruct (IH (merge_step m r)) as [IH1 IH2]; try done.
    { intros s t Hin Ht. specialize (M2 s Hin). rewrite Forall_forall in Hs2.
      specialize (Hs2 t ltac:(by apply list_elem_of_In)). unfold off_le in Hs2. lia. }
    split; [done|]. intros i. rewrite IH2, M3. unfold covers. split.
    + intros [[?|?]|(s & ? & ?)]; [by left|right; exists r; split; [by left|done]|right; exists s; split; [by right|done]].
    + intros [?|(s & Hin & ?)]; [by left; left|]. apply elem_of_cons in Hin as [->|]; [by left; right|right; eauto].
Qed.

Lemma separated_snoc (l : list hostRange) (r : hostRange) :
  separated l → fst r < snd r → (∀ s : hostRange, s ∈ l → snd s < fst r) → separated (l ++ [r]).
Proof.
  intros [H1 H2] Hr Hl.
  assert (Hget : ∀ i, 0 ≤ i < zlen l + 1 → zget no_range (l ++ [r]) i = if i <? zlen l then zget no_range l i else r).
  { intros i Hi. rewrite zget_app by lia. destruct (Z.ltb_spec i (zlen l)); [done|].
    replace (i - zlen l) with 0 by lia. done. }
  assert (Hlen : zlen (l ++ [r]) = zlen l + 1) by (rewrite zlen_app; done).
  unfold separated. rewrite Hlen. split.
  - intros i Hi. rewrite Hget by lia. destruct (Z.ltb_spec i (zlen l)); [apply H1; lia|done].
  - intros i j Hi Hj. rewrite !Hget by lia. destruct (Z.ltb_spec i (zlen l)); [|lia].
    destruct (Z.ltb_spec j (zlen l)); [apply H2; lia|apply Hl, zget_elem; lia].
Qed.

Lemma rsep_separated m : rsep m → separated (rev m).
Proof.
  induction m as [|r m IH]; intros H.
  - split; intros; change (rev []) with (@nil hostRange) in *; unfold zlen in *; simpl in *; lia.
  - simpl. destruct (rsep_head _ _ H) as [Hr Hl]. apply separated_snoc; [|done|].
    + apply IH. inversion H; subst; [constructor|done].
    + intros s Hs. apply Hl. apply list_elem_of_In, in_rev, list_elem_of_In, Hs.
Qed.

(** The merged ranges: separated, and covering exactly what was collected. *)
Lemma merge_ranges_spec raw :
  Forall (λ r, fst r < snd r) raw →
  separated (merge_ranges (merge_sort off_le raw)) ∧
  ∀ i, covers (merge_ranges (merge_sort off_le raw)) i ↔ covers raw i.
Proof.
  intros Hv. pose proof (merge_sort_Permutation off_le raw) as Hp.
  destruct (merge_fold (merge_sort off_le raw) []) as [H1 H2].
  - constructor.
  - by rewrite Hp.
  - apply (StronglySorted_merge_sort off_le).
  - intros s r Hs. by apply not_elem_of_nil in Hs.
  - unfold merge_ranges. split; [by apply rsep_separated|]. intros i.
    assert (Hrev : ∀ l, covers (rev l) i ↔ covers l i).
    { intros l. unfold covers. setoid_rewrite list_elem_of_In. setoid_rewrite <- in_rev. done. }
    etrans; [apply Hrev|]. etrans; [apply H2|]. unfold covers. setoid_rewrite Hp. split; [|by right].
    intros [(s & Hs & _)|?]; [by apply not_elem_of_nil in Hs|done].
Qed.

(** ** The binary search *)

Lemma search_spec fuel p i j n :
  0 ≤ i ≤ j → j ≤ n → j - i ≤ Z.of_nat fuel →
  (∀ a b, 0 ≤ a ≤ b → b < n → p a = true → p b = true) →
  (∀ a, 0 ≤ a < i → p a = false) → (∀ a, j ≤ a < n → p a = true) →
  let k := search fuel p i j in
  i ≤ k ≤ j ∧ (∀ a, 0 ≤ a < k → p a = false) ∧ (∀ a, k ≤ a < n → p a = true).
Proof.
  revert i j. induction fuel as [|fuel IH]; intros i j Hij Hjn Hf Hmono Hlo Hhi; cbn [search].
  { assert (i = j) as -> by lia. done. }
  destruct (Z.ltb_spec i j) as [Hlt|]; [|assert (i = j) as -> by lia; done].
  pose proof (Z.div_mod (i + j) 2 ltac:(lia)). pose proof (Z.mod_pos_bound (i + j) 2 ltac:(lia)).
  set (h := (i + j) / 2) in *. destruct (p h) eqn:Eh.
  - destruct (IH i h) as (? & ? & ?); try lia; try done.
    { intros a Ha. apply (Hmono h a); try lia. done. }
    split_and!; done || lia.
  - destruct (IH (h + 1) j) as (? & ? & ?); try lia; try done.
    { intros a Ha. destruct (p a) eqn:Ea; [|done]. rewrite <- Eh. symmetry. apply (Hmono a h); done || lia. }
    split_and!; done || lia.
Qed.

(** One candidate decides for all merged ranges. *)
Lemma candidate_decides l off e :
  separated l → off < e →
  let i := search (length l) (λ i, off <? snd (zget no_range l i)) 0 (zlen l) in
  (i <? zlen l) && (off <? snd (zget no_range l i)) && (fst (zget no_range l i) <? e) = true ↔
  ∃ x, off ≤ x < e ∧ covers l x.
Proof.
  intros [Hv Hs] Hoe i.
  assert (Hmono : ∀ a b, 0 ≤ a ≤ b → b < zlen l → (off <? snd (zget no_range l a)) = true →
                         (off <? snd (zget no_range l b)) = true).
  { intros a b Hab Hb. rewrite !Z.ltb_lt. destruct (decide (a = b)) as [->|]; [done|].
    pose proof (Hs a b ltac:(lia) ltac:(lia)). pose proof (Hv b ltac:(lia)). lia. }
  pose proof (zlen_nonneg l).
  destruct (search_spec (length l) (λ i, off <? snd (zget no_range l i)) 0 (zlen l) (zlen l))
    as (Hi & Hlo & Hhi); try done; try (unfold zlen; lia).
  fold i in Hi, Hlo, Hhi. rewrite !andb_true_iff, !Z.ltb_lt. split.
  - intros [[Hin He] Hf]. pose proof (Hv i ltac:(lia)).
    exists (Z.max off (fst (zget no_range l i))). split; [lia|].
    exists (zget no_range l i). split; [apply zget_elem; lia|lia].
  - intros (x & Hx & r & Hr & Hxr).
    apply (elem_zget no_range) in Hr as (m & Hm & Hz).
    assert (Hmi : i ≤ m).
    { destruct (decide (i ≤ m)) as [|Hn]; [done|]. pose proof (Hlo m ltac:(lia)) as Hf.
      simpl in Hf. rewrite Hz in Hf. apply Z.ltb_ge in Hf. lia. }
    assert (Hil : i < zlen l) by lia. pose proof (Hhi i ltac:(lia)) as Ht.
    simpl in Ht. apply Z.ltb_lt in Ht. split_and!; try done.
    destruct (decide (i = m)) as [Heq|]; [rewrite Heq, Hz; lia|].
    pose proof (Hs i m ltac:(lia) ltac:(lia)) as Hsep. rewrite Hz in Hsep.
    pose proof (Hv i ltac:(lia)). lia.
Qed.

(** The validation is exact: for a non-empty range, [validateHostData] accepts
    precisely the host ranges that are cluster-aligned, inside the file, and
    disjoint from every metadata range collected - header cluster, L1 table, L2
    tables, refcount table and refcount blocks - although it inspects only one of
    the merged ranges. *)
Theorem validateHostData_exact q off n raw :
  raw_ranges q = Ok raw → Forall (λ r, fst r < snd r) raw → 0 < n → 0 ≤ off → off + n < 2 ^ 64 →
  validateHostData q off n = Ok tt ↔
  off mod q_clusterSize q = 0 ∧ off + n ≤ q_fileSize q ∧
  ∀ a e, (a, e) ∈ raw → off + n ≤ a ∨ e ≤ off.
Proof.
  intros Hraw Hv Hn Ho Hw. destruct (merge_ranges_spec raw Hv) as [Hsep Hcov].
  unfold validateHostData, metadataRanges. rewrite Hraw, u64_id by lia. cbn [rbind].
  set (l := merge_ranges _) in *. pose proof (candidate_decides l off (off + n) Hsep ltac:(lia)) as Hd. simpl in Hd.
  destruct (Z.eqb_spec (off mod q_clusterSize q) 0) as [Hal|Hal]; simpl negb; cbv iota; [|split; [done|by intros []]].
  destruct (Z.ltb_spec (off + n) off); [lia|]. simpl orb.
  destruct (Z.ltb_spec (q_fileSize q) (off + n)) as [Hf|Hf]; [split; [done|lia]|].
  assert (Hiff : (∃ x, off ≤ x < off + n ∧ covers l x) ↔ ∃ a e, (a, e) ∈ raw ∧ a < off + n ∧ off < e).
  { split.
    - intros (x & Hx & Hc). apply Hcov in Hc as ([a e] & Hin & Hxr). simpl in Hxr. exists a, e. split; [done|lia].
    - intros (a & e & Hin & Ha & He). exists (Z.max off a).
      assert (a < e) by (rewrite Forall_forall in Hv; apply (Hv (a, e)); by apply list_elem_of_In).
      split; [lia|]. apply Hcov. exists (a, e). simpl. split; [done|lia]. }
  rewrite Hiff in Hd. destruct (_ && _ && _).
  - split; [done|]. intros (_ & _ & Hdis). destruct Hd as [(a & e & Hin & Ha & He) _]; [done|].
    specialize (Hdis a e Hin). lia.
  - split; [|done]. intros _. split_and!; [done|done|]. intros a e Hin.
    destruct (decide (off + n ≤ a ∨ e ≤ off)) as [|Hnot]; [done|]. exfalso.
    enough (false = true) by done. apply Hd. exists a, e. split; [done|lia].
Qed.

(** On [demo_image], the data cluster at 1024 is valid and the L2 table at 512 is not. *)
Lemma validateHostData_exact_witness :
  validateHostData demo_image 1024 512 = Ok tt ∧ validateHostData demo_image 512 512 ≠ Ok tt.
Proof.
  assert (Hraw : raw_ranges demo_image = Ok [(0, 512); (0, 8); (512, 1024)]) by (vm_compute; reflexivity).
  assert (Hv : Forall (λ r : hostRange, fst r < snd r) [(0, 512); (0, 8); (512, 1024)])
    by (repeat constructor; simpl; lia).
  split.
  - apply (validateHostData_exact demo_image 1024 512 _ Hraw Hv); [lia..|].
    split_and!; [by vm_compute|by vm_compute|]. intros a e Hin.
    repeat (apply elem_of_cons in Hin as [[= -> ->]|Hin]; [lia|]). by apply not_elem_of_nil in Hin.
  - intros H. apply (validateHostData_exact demo_image 512 512 _ Hraw Hv) in H; [|lia..].
    destruct H as (_ & _ & H). specialize (H 512 1024). assert (Hin : (512, 1024) ∈ [(0, 512); (0, 8); (512, 1024)]) by set_solver.
    specialize (H Hin). lia.
Defined.
