(* ===== verification/VuMem.v ===== *)
(** * Guest memory shared over vhost-user (internal/vhost/vu/mem.go)

    The frontend passes file descriptors of its physical memory; the backend
    maps them and addresses them through slices.  The model keeps what makes this
    dangerous: a slice is a reference into a mapping, not a value, it keeps its
    capacity, a mapping can be gone (the access faults), and the guest writes the
    same memory at any time. *)

From S2P Require Import Prelude Bytes.

Inductive vu_err : Type :=
| VPanic | VFault | VFuel
| VShortMemTable | VFewFds | VSmallPayload | VRegionWraps | VMmap
| VRangeWraps | VOutside
| VNoNum | VUnaligned | VUnconfigured | VChainLoop | VIndirectNext | VIndirectLen
| VEmptyChain | VBadIndex | VRanOff | VZeroLength
| VMissingHeaders | VShortOutHdr | VShortInHdr | VConfigRange
| VQueueIndex | VBadNum | VShortConfig | VNoSharedObject | VUnknownRequest | VNoFd | VDup | VSend.
#[global] Instance vu_err_eq_dec : EqDecision vu_err.
Proof. solve_decision. Defined.

(** Errors the code never intends: an index out of range (a Go panic), an access
    to memory that is not mapped (SIGSEGV or SIGBUS), and the model's fuel. *)
Definition crash (e : vu_err) : Prop := e = VPanic ∨ e = VFault ∨ e = VFuel.
Definition safe {A} (r : result vu_err A) : Prop :=
  match r with Ok _ => True | Err e => ¬ crash e end.

(** ** The process's memory and descriptors *)

(** A live mapping of [mp_len] bytes of a memory object. *)
Record mapping : Type := { mp_obj : Z; mp_off : Z; mp_len : Z }.

Record sys : Type := {
  sy_objs : gmap Z file;      (* memory objects, shared with the guest *)
  sy_maps : gmap Z mapping;   (* live mappings *)
  sy_next : Z;                (* next unused mapping *)
  sy_fds : gset Z;            (* open descriptors *)
  sy_signals : list Z;        (* eventfds signalled, latest first *)
  sy_time : nat;              (* accesses made so far *)
}.

(** What runs outside the program: the kernel's [mmap] (the object a descriptor
    refers to, or an error) and [dup], and the guest, which may rewrite the
    memory objects before each access the program makes. *)
Class Host := {
  k_mmap : Z → Z → Z → option Z;
  k_dup : Z → gset Z → option Z;
  guest : nat → gmap Z file → gmap Z file;
}.

(** The documented behaviour: [mmap] fails on an empty or negative length and
    [dup] returns a fresh non-negative descriptor.  The guest rewrites memory but
    does not truncate or remove it, and memory holds bytes. *)
Class HostOk `{Host} := {
  mmap_len : ∀ fd off len o, k_mmap fd off len = Some o → 0 < len ∧ 0 ≤ off;
  dup_fresh : ∀ fd open nfd, k_dup fd open = Some nfd → (nfd ∉ open) ∧ 0 ≤ nfd;
  guest_sizes : ∀ t objs o f, objs !! o = Some f →
    ∃ f', guest t objs !! o = Some f' ∧ fsize f' = fsize f ∧ (file_bytes f → file_bytes f');
}.

(** A guest that leaves memory alone. *)
Definition quiet `{Host} : Prop := ∀ t objs, guest t objs = objs.

(** ** Slices *)

Record slice : Type := { sl_map : Z; sl_off : Z; sl_len : Z; sl_cap : Z }.

(** [s[a:b]]: the bounds are checked against the capacity. *)
Definition sub (s : slice) (a b : Z) : result vu_err slice :=
  if (0 <=? a) && (a <=? b) && (b <=? sl_cap s)
  then Ok {| sl_map := sl_map s; sl_off := sl_off s + a; sl_len := b - a; sl_cap := sl_cap s - a |}
  else Err VPanic.

Definition load (s : sys) (sl : slice) : result vu_err (list Z) :=
  if sl_len sl =? 0 then Ok [] else
  match sy_maps s !! sl_map sl with
  | None => Err VFault
  | Some mp =>
      match sy_objs s !! mp_obj mp with
      | Some f =>
          if mp_off mp + sl_off sl + sl_len sl <=? fsize f
          then Ok (fread f (mp_off mp + sl_off sl) (sl_len sl)) else Err VFault
      | None => Err VFault
      end
  end.

Definition with_objs (s : sys) (objs : gmap Z file) : sys :=
  {| sy_objs := objs; sy_maps := sy_maps s; sy_next := sy_next s; sy_fds := sy_fds s;
     sy_signals := sy_signals s; sy_time := sy_time s |}.

Definition store (s : sys) (sl : slice) (d : list Z) : result vu_err sys :=
  if zlen d =? 0 then Ok s else
  match sy_maps s !! sl_map sl with
  | None => Err VFault
  | Some mp =>
      match sy_objs s !! mp_obj mp with
      | Some f =>
          if mp_off mp + sl_off sl + zlen d <=? fsize f
          then Ok (with_objs s (<[mp_obj mp := fwrite f (mp_off mp + sl_off sl) d]> (sy_objs s)))
          else Err VFault
      | None => Err VFault
      end
  end.

Section Accesses.
Context `{Host}.

(** The guest runs, then the program makes its access. *)
Definition turn (s : sys) : sys :=
  {| sy_objs := guest (sy_time s) (sy_objs s); sy_maps := sy_maps s; sy_next := sy_next s;
     sy_fds := sy_fds s; sy_signals := sy_signals s; sy_time := S (sy_time s) |}.

Definition ld (sl : slice) : method sys vu_err (list Z) := λ s, (turn s, load (turn s) sl).

Definition st (sl : slice) (d : list Z) : method sys vu_err unit := λ s,
  match store (turn s) sl d with Ok s' => (s', Ok tt) | Err e => (turn s, Err e) end.

(** [binary.LittleEndian.UintN(s[i:])], [n] bytes wide. *)
Definition rd (n : Z) (sl : slice) (i : Z) : method sys vu_err Z :=
  if (0 <=? i) && (i + n <=? sl_len sl)
  then do* b <- ld {| sl_map := sl_map sl; sl_off := sl_off sl + i; sl_len := n; sl_cap := n |};
       gret (le_decode b)
  else gfail VPanic.

(** [binary.LittleEndian.PutUintN(s[i:], v)]. *)
Definition wr (n : nat) (sl : slice) (i v : Z) : method sys vu_err unit :=
  if (0 <=? i) && (i + Z.of_nat n <=? sl_len sl)
  then st {| sl_map := sl_map sl; sl_off := sl_off sl + i; sl_len := Z.of_nat n; sl_cap := Z.of_nat n |}
          (le_encode n v)
  else gfail VPanic.
End Accesses.

(** ** Descriptors *)

Definition set_fds (s : sys) (fds : gset Z) : sys :=
  {| sy_objs := sy_objs s; sy_maps := sy_maps s; sy_next := sy_next s; sy_fds := fds;
     sy_signals := sy_signals s; sy_time := sy_time s |}.

Definition close_fd (s : sys) (fd : Z) : sys := set_fds s (sy_fds s ∖ {[fd]}).

Definition closeFds (fds : list Z) (s : sys) : sys :=
  fold_left (λ s fd, if 0 <=? fd then close_fd s fd else s) fds s.

Definition munmap (s : sys) (m : Z) : sys :=
  {| sy_objs := sy_objs s; sy_maps := delete m (sy_maps s); sy_next := sy_next s; sy_fds := sy_fds s;
     sy_signals := sy_signals s; sy_time := sy_time s |}.

(** ** The memory table *)

Record memRegion : Type := { r_gpa : Z; r_size : Z; r_data : slice; r_fd : Z }.
Abbreviation memTable := (list memRegion).

Definition close_region (s : sys) (r : memRegion) : sys :=
  let s := munmap s (sl_map (r_data r)) in
  if 0 <=? r_fd r then close_fd s (r_fd r) else s.

Definition close_table (mt : memTable) (s : sys) : sys := fold_left close_region mt s.

Section Table.
Context `{Host}.

(** [unix.Mmap]: a fresh mapping of [len] bytes. *)
Definition Mmap (fd off len : Z) (s : sys) : option (sys * slice) :=
  match k_mmap fd off len with
  | None => None
  | Some o =>
      Some ({| sy_objs := sy_objs s;
               sy_maps := <[sy_next s := {| mp_obj := o; mp_off := off; mp_len := len |}]> (sy_maps s);
               sy_next := sy_next s + 1; sy_fds := sy_fds s; sy_signals := sy_signals s;
               sy_time := sy_time s |},
            {| sl_map := sy_next s; sl_off := 0; sl_len := len; sl_cap := len |})
  end.

(** The loop over the regions; [fds] are those of the regions still to do. *)
Fixpoint map_regions (n : nat) (i : Z) (payload fds : list Z) : method (memTable * sys) vu_err unit :=
  match n with
  | O => λ '(mt, s), ((mt, closeFds fds s), Ok tt)
  | S n => λ '(mt, s),
      let p := 8 + i * 32 in
      let gpa := le_at 8 payload p in
      let size := le_at 8 payload (p + 8) in
      match fds with
      | [] => ((mt, s), Err VPanic)
      | fd :: rest =>
          if MaxUint64 - gpa <? size then (([], closeFds fds (close_table mt s)), Err VRegionWraps) else
          let mmapOff := le_at 8 payload (p + 24) in
          match Mmap fd (int64 mmapOff) (int64 size) s with
          | None => (([], closeFds fds (close_table mt s)), Err VMmap)
          | Some (s, data) =>
              map_regions n (i + 1) payload rest
                (mt ++ [{| r_gpa := gpa; r_size := size; r_data := data; r_fd := fd |}], s)
          end
      end
  end.

Definition setMemTable (payload fds : list Z) : method (memTable * sys) vu_err unit := λ '(mt, s),
  if zlen payload <? 8 then ((mt, closeFds fds s), Err VShortMemTable) else
  let n := le_at 4 payload 0 in
  if zlen fds <? n then ((mt, closeFds fds s), Err VFewFds) else
  if zlen payload <? 8 + n * 32 then ((mt, closeFds fds s), Err VSmallPayload) else
  map_regions (Z.to_nat n) 0 payload fds ([], close_table mt s).
End Table.

Definition translate (mt : memTable) (gpa size : Z) : result vu_err slice :=
  if MaxUint64 - gpa <? size then Err VRangeWraps else
  match list_find (λ r, (r_gpa r <=? gpa) && (u64 (gpa + size) <=? u64 (r_gpa r + r_size r)) = true) mt with
  | Some (_, r) => sub (r_data r) (gpa - r_gpa r) (gpa - r_gpa r + size)
  | None => Err VOutside
  end.

(** ** Valid references *)

(** The whole capacity of the slice lies in a live mapping of existing memory. *)
Definition mapped (s : sys) (sl : slice) : Prop :=
  0 ≤ sl_off sl ∧ 0 ≤ sl_len sl ≤ sl_cap sl ∧
  ∃ mp f, sy_maps s !! sl_map sl = Some mp ∧ sy_objs s !! mp_obj mp = Some f ∧
    0 ≤ mp_off mp ∧ sl_off sl + sl_cap sl ≤ mp_len mp ∧ mp_off mp + mp_len mp ≤ fsize f ∧ file_bytes f.

Record region_ok (s : sys) (r : memRegion) : Prop := {
  ro_mapped : mapped s (r_data r);
  ro_base : sl_off (r_data r) = 0;
  ro_len : sl_len (r_data r) = r_size r;
  ro_cap : sl_cap (r_data r) = r_size r;
  ro_range : 0 ≤ r_gpa r ∧ 0 < r_size r ∧ r_gpa r + r_size r < 2 ^ 64;
}.

Definition table_ok (s : sys) (mt : memTable) : Prop := Forall (region_ok s) mt.

(** The same mappings and descriptors; the memory objects kept their sizes. *)
Definition same_maps (s s' : sys) : Prop :=
  (sy_maps s' = sy_maps s ∧ sy_fds s' = sy_fds s ∧ sy_next s' = sy_next s) ∧
  ∀ o f, sy_objs s !! o = Some f → ∃ f', sy_objs s' !! o = Some f' ∧ fsize f' = fsize f ∧ (file_bytes f → file_bytes f').

#[global] Instance same_maps_preorder : PreOrder same_maps.
Proof.
  split; [split; [done|by eauto]|]. intros s1 s2 s3 [(H1 & F1 & N1) G1] [(H2 & F2 & N2) G2]. split; [split_and!; congruence|].
  intros o f Hf. destruct (G1 o f Hf) as (f' & Hf' & <- & Hb). destruct (G2 _ _ Hf') as (g & ? & ? & ?). eauto 6.
Qed.

Lemma mapped_same s s' sl : same_maps s s' → mapped s sl → mapped s' sl.
Proof.
  intros [[Hm _] Ho] (? & ? & mp & f & Hmp & Hf & ? & ? & ? & ?). destruct (Ho _ _ Hf) as (f' & Hf' & Hs & Hb).
  split_and!; try done; try lia. exists mp, f'. rewrite Hm, Hs. auto 10.
Qed.

Lemma mapped_other s s' sl :
  mapped s sl → sy_objs s' = sy_objs s → sy_maps s' !! sl_map sl = sy_maps s !! sl_map sl → mapped s' sl.
Proof. unfold mapped. by intros ? -> ->. Qed.

Lemma mapped_part s sl i n :
  mapped s sl → 0 ≤ i → 0 ≤ n → i + n ≤ sl_len sl →
  mapped s {| sl_map := sl_map sl; sl_off := sl_off sl + i; sl_len := n; sl_cap := n |}.
Proof.
  intros (? & ? & mp & f & ? & ? & ? & ? & ? & ?) Hi Hn Hl. split_and!; simpl; try lia.
  exists mp, f. split_and!; try done; simpl; lia.
Qed.

Lemma table_same s s' mt : same_maps s s' → table_ok s mt → table_ok s' mt.
Proof.
  intros Hs. apply Forall_impl. intros r []. split; try done. by eapply mapped_same.
Qed.

Lemma sub_mapped s sl a b :
  mapped s sl → 0 ≤ a → a ≤ b → b ≤ sl_cap sl →
  ∃ sl', sub sl a b = Ok sl' ∧ mapped s sl' ∧ sl_len sl' = b - a ∧
    sl_map sl' = sl_map sl ∧ sl_off sl' = sl_off sl + a.
Proof.
  intros (H1 & H2 & mp & f & Hmp & Hf & H3 & H4 & H5 & H6) Ha Hab Hb. unfold sub.
  destruct (Z.leb_spec 0 a), (Z.leb_spec a b), (Z.leb_spec b (sl_cap sl)); try lia. simpl.
  eexists. split; [done|]. split; [|by simpl]. split_and!; simpl; try lia. exists mp, f. simpl.
  split_and!; try done; lia.
Qed.

Lemma load_mapped s sl : mapped s sl → ∃ b, load s sl = Ok b ∧ zlen b = sl_len sl ∧ Forall is_byte b.
Proof.
  intros (H1 & H2 & mp & f & Hmp & Hf & H3 & H4 & H5 & H6). unfold load.
  destruct (Z.eqb_spec (sl_len sl) 0) as [E|E]; [exists []; rewrite E; by repeat split|].
  rewrite Hmp, Hf. destruct (Z.leb_spec (mp_off mp + sl_off sl + sl_len sl) (fsize f)); [|lia].
  eexists. split; [done|]. split; [apply zlen_fread; lia|by apply fread_bytes].
Qed.

Lemma store_mapped s sl d :
  mapped s sl → zlen d ≤ sl_cap sl → Forall is_byte d → ∃ s', store s sl d = Ok s' ∧ same_maps s s'.
Proof.
  intros (H1 & H2 & mp & f & Hmp & Hf & H3 & H4 & H5 & H6) Hd Hbd. unfold store.
  destruct (Z.eqb_spec (zlen d) 0) as [E|E]; [by exists s|]. rewrite Hmp, Hf.
  destruct (Z.leb_spec (mp_off mp + sl_off sl + zlen d) (fsize f)); [|lia].
  eexists. split; [done|]. split; [done|]. simpl. intros o g Hg.
  destruct (decide (mp_obj mp = o)) as [<-|].
  - rewrite lookup_insert_eq. eexists. split; [done|]. rewrite fsize_fwrite. simplify_eq.
    split; [case_ifs; lia|]. intros _. by apply fwrite_bytes.
  - rewrite lookup_insert_ne by done. by exists g.
Qed.

Section Safety.
Context `{HostOk}.

Lemma turn_same s : same_maps s (turn s).
Proof. split; [done|]. intros o f Hf. simpl. by apply guest_sizes. Qed.

(** An access to a mapped slice never faults, whatever the guest does. *)
Lemma rd_mapped n sl i s :
  mapped s sl → 0 ≤ i → 0 ≤ n → i + n ≤ sl_len sl →
  ∃ v, rd n sl i s = (turn s, Ok v) ∧ 0 ≤ v < 256 ^ n.
Proof.
  intros Hm Hi Hn Hl. unfold rd. destruct (Z.leb_spec 0 i), (Z.leb_spec (i + n) (sl_len sl)); try lia. simpl.
  assert (mapped (turn s) {| sl_map := sl_map sl; sl_off := sl_off sl + i; sl_len := n; sl_cap := n |}) as Hm'.
  { eapply mapped_same; [apply turn_same|by apply mapped_part]. }
  destruct (load_mapped _ _ Hm') as (b & Hb & Hl' & Hbb). unfold ld, gbind. rewrite Hb. eexists. split; [done|].
  simpl in Hl'. rewrite <- Hl'. by apply le_decode_range.
Qed.

Lemma st_mapped sl d s :
  mapped s sl → zlen d ≤ sl_cap sl → Forall is_byte d → ∃ s', st sl d s = (s', Ok tt) ∧ same_maps s s'.
Proof.
  intros Hm Hd Hbd. unfold st. pose proof (turn_same s) as Ht.
  destruct (store_mapped (turn s) sl d ltac:(by eapply mapped_same) Hd Hbd) as (s' & -> & Hs').
  exists s'. split; [done|]. by etrans.
Qed.

Lemma wr_mapped n sl i v s :
  mapped s sl → 0 ≤ i → i + Z.of_nat n ≤ sl_len sl → ∃ s', wr n sl i v s = (s', Ok tt) ∧ same_maps s s'.
Proof.
  intros Hm Hi Hl. unfold wr. destruct (Z.leb_spec 0 i), (Z.leb_spec (i + Z.of_nat n) (sl_len sl)); try lia. simpl.
  apply st_mapped; [apply mapped_part; done || lia|simpl; rewrite zlen_le_encode; lia|apply le_encode_bytes].
Qed.
End Safety.

(** ** Address translation *)

Definition in_region (gpa size : Z) (r : memRegion) : Prop := r_gpa r ≤ gpa ∧ gpa + size ≤ r_gpa r + r_size r.

Lemma translate_exact s mt gpa size :
  table_ok s mt → 0 ≤ gpa < 2 ^ 64 → 0 ≤ size →
  match translate mt gpa size with
  | Ok sl => mapped s sl ∧ sl_len sl = size ∧
             ∃ r, r ∈ mt ∧ in_region gpa size r ∧
                  sl_map sl = sl_map (r_data r) ∧ sl_off sl = gpa - r_gpa r
  | Err e => (e = VRangeWraps ∧ 2 ^ 64 ≤ gpa + size) ∨
             (e = VOutside ∧ Forall (λ r, ¬ in_region gpa size r) mt)
  end.
Proof.
  intros Hmt Hg Hs. unfold translate, MaxUint64.
  destruct (Z.ltb_spec (2 ^ 64 - 1 - gpa) size) as [Hw|Hw]; [left; split; [done|lia]|].
  set (P := λ r, _ = true). assert (HP : ∀ r, region_ok s r → P r ↔ in_region gpa size r).
  { intros r Hr. destruct (ro_range _ _ Hr). unfold P, in_region.
    rewrite andb_true_iff, !Z.leb_le, !u64_id by lia. done. }
  destruct (list_find P mt) as [[k r]|] eqn:E.
  - apply list_find_Some in E as (Hr & Hp & _). apply list_elem_of_lookup_2 in Hr.
    assert (Hro : region_ok s r) by (unfold table_ok in Hmt; rewrite Forall_forall in Hmt; by apply Hmt, list_elem_of_In).
    apply (HP r Hro) in Hp as Hin. destruct Hin as [H1 H2]. destruct Hro as [Hm Hb Hl Hc Hra].
    destruct (sub_mapped s (r_data r) (gpa - r_gpa r) (gpa - r_gpa r + size) Hm) as (sl & -> & Hm' & Hl' & Hmap & Hoff);
      try lia. split_and!; [done|lia|]. exists r. split_and!; try done. lia.
  - right. split; [done|]. apply list_find_None in E. unfold table_ok in Hmt. rewrite Forall_forall in *.
    intros r Hr Hin. apply (E r Hr), HP; [|done]. by apply Hmt.
Qed.

(** ** Ownership of descriptors and mappings *)

Definition region_map (r : memRegion) : Z := sl_map (r_data r).

(** The process owns exactly the descriptors in [base], those of the table's
    regions and those in [extra], and its mappings are exactly the table's. *)
Record holds (base : gset Z) (extra : list Z) (mt : memTable) (s : sys) : Prop := {
  hd_fds : sy_fds s = base ∪ list_to_set (map r_fd mt ++ extra);
  hd_maps : ∀ m, is_Some (sy_maps s !! m) ↔ m ∈ map region_map mt;
  hd_mnodup : NoDup (map region_map mt);
  hd_next : ∀ m, m ∈ map region_map mt → m < sy_next s;
  hd_nonneg : ∀ fd, fd ∈ map r_fd mt ++ extra → 0 ≤ fd ∧ (fd ∉ base);
  hd_nodup : NoDup (map r_fd mt ++ extra);
  hd_table : table_ok s mt;
}.

Lemma table_fds s fds mt : table_ok s mt → table_ok (set_fds s fds) mt.
Proof.
  apply Forall_impl. intros r []. by split.
Qed.

Lemma holds_close_fd base fd extra mt s :
  holds base (fd :: extra) mt s → holds base extra mt (close_fd s fd).
Proof.
  intros [Hf Hm Hmn Hn Hnn Hnd Ht]. rewrite <- Permutation_middle in Hnd. apply list.NoDup_cons in Hnd as [Hfd Hnd].
  split; try done; [| |by apply table_fds].
  - simpl. rewrite Hf. assert (fd ∉ base) by (apply Hnn; set_solver). set_solver.
  - intros x Hx. apply Hnn. set_solver.
Qed.

Lemma holds_closeFds base extra mt s : holds base extra mt s → holds base [] mt (closeFds extra s).
Proof.
  revert s. induction extra as [|fd extra IH]; intros s Hs; [done|]. simpl.
  destruct (Z.leb_spec 0 fd) as [_|Hneg]; [by apply IH, holds_close_fd|].
  destruct (hd_nonneg _ _ _ _ Hs fd); [set_solver|lia].
Qed.

Lemma holds_close_region base extra r mt s :
  holds base extra (r :: mt) s → holds base extra mt (close_region s r).
Proof.
  intros [Hf Hm Hmn Hn Hnn Hnd Ht]. simpl in *. apply list.NoDup_cons in Hmn as [Hr Hmn].
  apply list.NoDup_cons in Hnd as [Hfd Hnd]. inversion Ht as [|? ? Hr0 Ht']; subst.
  destruct (Hnn (r_fd r) ltac:(set_solver)) as [Hge Hbase].
  unfold close_region. destruct (Z.leb_spec 0 (r_fd r)) as [_|]; [|lia]. split; simpl; try done.
  - rewrite Hf. set_solver.
  - intros m. destruct (decide (sl_map (r_data r) = m)) as [<-|Hne].
    + rewrite lookup_delete_eq. split; [by intros [? ?]|]. intros Hin. by destruct Hr.
    + rewrite lookup_delete_ne, Hm by done. unfold region_map at 1. set_solver.
  - set_solver.
  - set_solver.
  - unfold table_ok in *. rewrite Forall_forall in *. intros r' Hr'. destruct (Ht' r' Hr') as [Hmp ? ? ? ?].
    split; try done. apply (mapped_other s); [done|done|]. simpl. rewrite lookup_delete_ne; [done|].
    intros Heq. apply Hr. unfold region_map at 1. rewrite Heq. by apply list_elem_of_In, (in_map region_map).
Qed.

Lemma holds_close_table base extra mt s : holds base extra mt s → holds base extra [] (close_table mt s).
Proof.
  revert s. induction mt as [|r mt IH]; intros s Hs; [done|]. simpl. by apply IH, holds_close_region.
Qed.

Lemma close_table_objs mt s : sy_objs (close_table mt s) = sy_objs s.
Proof.
  revert s. induction mt as [|r mt IH]; intros s; [done|]. simpl. rewrite IH. unfold close_region. by case_if.
Qed.

Lemma le_at_range n b i :
  Forall is_byte b → 0 ≤ i → 0 ≤ n → i + n ≤ zlen b → 0 ≤ le_at n b i < 256 ^ n.
Proof.
  intros Hb Hi Hn Hl. unfold le_at. replace n with (zlen (zslice b i (i + n))) at 3 by (rewrite zlen_zslice; lia).
  apply le_decode_range. unfold zslice. by apply Forall_take, Forall_drop.
Qed.

Section SetMemTable.
Context `{HostOk}.

(** A mapping the kernel grants is of an existing object, which holds bytes.  It may
    reach past the end of that object: [mmap] does not look. *)
Definition backed (objs : gmap Z file) : Prop :=
  ∀ fd off len o, k_mmap fd off len = Some o → ∃ f, objs !! o = Some f ∧ file_bytes f.

(** The frontend announces memory it has: each region of the table lies inside the
    object its descriptor refers to.  The backend does not check this. *)
Fixpoint announced_from (objs : gmap Z file) (n : nat) (i : Z) (payload fds : list Z) : bool :=
  match n, fds with
  | S n, fd :: fds =>
      let off := int64 (le_at 8 payload (8 + i * 32 + 24)) in
      let len := int64 (le_at 8 payload (8 + i * 32 + 8)) in
      match k_mmap fd off len with
      | Some o => match objs !! o with Some f => off + len <=? fsize f | None => false end
      | None => true
      end && announced_from objs n (i + 1) payload fds
  | _, _ => true
  end.
Definition announced (objs : gmap Z file) (payload fds : list Z) : Prop :=
  announced_from objs (Z.to_nat (le_at 4 payload 0)) 0 payload fds = true.
#[global] Instance announced_dec objs payload fds : Decision (announced objs payload fds).
Proof. unfold announced. apply _. Defined.

(** The regions a payload describes. *)
Definition described (payload : list Z) (i : Z) (r : memRegion) : Prop :=
  r_gpa r = le_at 8 payload (8 + i * 32) ∧ r_size r = le_at 8 payload (8 + i * 32 + 8).

Lemma holds_mmap base fd extra mt s off gpa size s' data :
  holds base (fd :: extra) mt s → backed (sy_objs s) →
  (∀ o f, k_mmap fd off (int64 size) = Some o → sy_objs s !! o = Some f → off + int64 size ≤ fsize f) → 0 ≤ gpa → 0 ≤ size → gpa + size < 2 ^ 64 →
  Mmap fd off (int64 size) s = Some (s', data) →
  holds base extra (mt ++ [{| r_gpa := gpa; r_size := size; r_data := data; r_fd := fd |}]) s' ∧
  sy_objs s' = sy_objs s.
Proof.
  intros [Hf Hm Hmn Hn Hnn Hnd Ht] Hb Hcov Hg Hsz Hr. unfold Mmap.
  destruct (k_mmap fd off (int64 size)) as [o|] eqn:Ek; [|done]. intros [= <- <-].
  destruct (mmap_len _ _ _ _ Ek) as [Hlen Hoff]. destruct (Hb _ _ _ _ Ek) as (f & Hfo & Hfb).
  pose proof (Hcov o f eq_refl Hfo) as Hfs.
  assert (Hi : int64 size = size).
  { unfold int64 in *. rewrite Z.mod_small in * by lia. destruct (Z.ltb_spec size (2 ^ 63)); lia. }
  rewrite Hi in *. split; [|done].
  assert (Hnew : sy_next s ∉ map region_map mt) by (intros Hin; apply Hn in Hin; lia).
  split; simpl; rewrite ?map_app, <- ?app_assoc; simpl; try done.
  - intros m. destruct (decide (sy_next s = m)) as [<-|Hne].
    + rewrite lookup_insert_eq. split; [set_solver|by eexists].
    + rewrite lookup_insert_ne, Hm by done. unfold region_map at 2. simpl. set_solver.
  - apply list.NoDup_app. split_and!; [done| |apply NoDup_singleton].
    intros m Hin. unfold region_map at 1. simpl. set_solver.
  - intros m. unfold region_map at 2. simpl. rewrite elem_of_app, list_elem_of_singleton.
    intros [Hin| ->]; [apply Hn in Hin|]; lia.
  - apply Forall_app. split.
    + unfold table_ok in Ht. rewrite Forall_forall in *. intros r Hin. destruct (Ht r Hin) as [Hmp ? ? ? ?].
      split; try done. apply (mapped_other s); [done|done|]. simpl. rewrite lookup_insert_ne; [done|].
      intros Heq. apply Hnew. rewrite Heq. by apply list_elem_of_In, (in_map region_map).
    + repeat constructor; simpl; try lia. eexists _, f. rewrite lookup_insert_eq. split; [done|]. simpl.
      split_and!; try done; lia.
Qed.

Lemma map_regions_ok n : ∀ i payload base extra mt s,
  Forall is_byte payload → 0 ≤ i → 8 + (i + Z.of_nat n) * 32 ≤ zlen payload → (n ≤ length extra)%nat →
  holds base extra mt s → backed (sy_objs s) → announced_from (sy_objs s) n i payload extra = true →
  ∃ mt' s' r, map_regions n i payload extra (mt, s) = ((mt', s'), r) ∧ holds base [] mt' s' ∧
    sy_objs s' = sy_objs s ∧
    match r with
    | Ok _ => ∃ l, mt' = mt ++ l ∧ map r_fd l = take n extra ∧
                   (∀ k r, l !! k = Some r → described payload (i + Z.of_nat k) r)
    | Err e => mt' = [] ∧ ¬ crash e
    end.
Proof.
  assert (Hcl : ∀ l s, sy_objs (closeFds l s) = sy_objs s).
  { induction l as [|x l IHl]; intros s; [done|]. simpl. rewrite IHl. by case_if. }
  induction n as [|n IH]; intros i payload base extra mt s Hp Hi Hl Hx Hh Hb Ha.
  - eexists mt, _, _. simpl. split; [done|]. split; [by apply holds_closeFds|]. split; [apply Hcl|].
    exists []. by rewrite app_nil_r.
  - destruct extra as [|fd extra]; [simpl in Hx; lia|]. cbn [map_regions]. cbn [announced_from] in Ha.
    apply andb_true_iff in Ha as [Ha1 Ha2].
    pose proof (le_at_range 8 payload (8 + i * 32) Hp ltac:(lia) ltac:(lia) ltac:(lia)) as Hg.
    pose proof (le_at_range 8 payload (8 + i * 32 + 8) Hp ltac:(lia) ltac:(lia) ltac:(lia)) as Hs.
    set (gpa := le_at 8 payload (8 + i * 32)) in *. set (size := le_at 8 payload (8 + i * 32 + 8)) in *.
    unfold MaxUint64. destruct (Z.ltb_spec (2 ^ 64 - 1 - gpa) size) as [Hw|Hw].
    { eexists [], _, _. split; [done|]. split; [by eapply holds_closeFds, holds_close_table|].
      rewrite Hcl, close_table_objs. by split_and!; [| |intros [|[|]]]. }
    set (off := int64 (le_at 8 payload (8 + i * 32 + 24))).
    destruct (Mmap fd off (int64 size) s) as [[s1 data]|] eqn:Em.
    2:{ eexists [], _, _. split; [done|]. split; [by eapply holds_closeFds, holds_close_table|].
        rewrite Hcl, close_table_objs. by split_and!; [| |intros [|[|]]]. }
    destruct (holds_mmap base fd extra mt s off gpa size s1 data Hh Hb) as [Hh1 Ho1]; try lia; [|done|].
    { intros o f Ek Ho. fold off size in Ha1. rewrite Ek, Ho in Ha1. by apply Z.leb_le in Ha1. }
    destruct (IH (i + 1) payload base extra _ s1 Hp ltac:(lia) ltac:(lia) ltac:(simpl in Hx; lia) Hh1 ltac:(by rewrite Ho1) ltac:(by rewrite Ho1))
      as (mt' & s' & r & -> & Hh' & Ho' & Hr). exists mt', s', r. split; [done|]. split; [done|]. split; [congruence|].
    destruct r as [u|e]; [|done]. destruct Hr as (l & -> & Hfd & Hd).
    eexists (_ :: l). rewrite <- app_assoc. split; [done|]. split; [simpl; by rewrite Hfd|].
    intros [|k] r; simpl; [intros [= <-]; rewrite Z.add_0_r; done|].
    intros Hk. replace (i + Z.of_nat (S k)) with (i + 1 + Z.of_nat k) by lia. by apply Hd.
Qed.

Lemma setMemTable_holds payload fds base mt s :
  Forall is_byte payload → holds base fds mt s → backed (sy_objs s) → announced (sy_objs s) payload fds →
  ∃ mt' s' r, setMemTable payload fds (mt, s) = ((mt', s'), r) ∧ holds base [] mt' s' ∧
    match r with
    | Ok _ => zlen mt' = le_at 4 payload 0 ∧ map r_fd mt' = take (length mt') fds ∧
              ∀ k r, mt' !! k = Some r → described payload (Z.of_nat k) r
    | Err e => (mt' = mt ∨ mt' = []) ∧ ¬ crash e
    end.
Proof.
  intros Hp Hh Hb Ha. unfold setMemTable.
  assert (Herr : ∀ e, ¬ crash e → ∃ mt' s' r, (mt, closeFds fds s, @Err vu_err unit e) = (mt', s', r) ∧ holds base [] mt' s' ∧
    match r with
    | Ok _ => zlen mt' = le_at 4 payload 0 ∧ map r_fd mt' = take (length mt') fds ∧
              ∀ k r, mt' !! k = Some r → described payload (Z.of_nat k) r
    | Err e => (mt' = mt ∨ mt' = []) ∧ ¬ crash e
    end).
  { intros e He. eexists _, _, _. split; [done|]. split; [by apply holds_closeFds|]. split; [by left|done]. }
  destruct (Z.ltb_spec (zlen payload) 8); [apply Herr; by intros [|[|]]|].
  pose proof (le_at_range 4 payload 0 Hp ltac:(lia) ltac:(lia) ltac:(lia)) as Hn.
  set (n := le_at 4 payload 0) in *.
  destruct (Z.ltb_spec (zlen fds) n); [apply Herr; by intros [|[|]]|].
  destruct (Z.ltb_spec (zlen payload) (8 + n * 32)); [apply Herr; by intros [|[|]]|].
  destruct (map_regions_ok (Z.to_nat n) 0 payload base fds [] (close_table mt s)) as (mt' & s' & r & -> & Hh' & _ & Hr);
    try done; try (unfold zlen in *; lia); [by apply holds_close_table|by rewrite close_table_objs|by rewrite close_table_objs|].
  exists mt', s', r. split; [done|]. split; [done|]. destruct r as [u|e]; [|by split; [right|]; destruct Hr].
  destruct Hr as (l & -> & Hfd & Hd). simpl in *. rewrite <- (length_map r_fd l), Hfd, length_take.
  rewrite Nat.min_l by (unfold zlen in *; lia). split_and!; try done.
  - unfold zlen. rewrite <- (length_map r_fd l), Hfd, length_take. unfold zlen in *. lia.
Qed.
End SetMemTable.
