(* ===== verification/VuRing.v ===== *)
(** * Split virtqueues (internal/vhost/vu/vring.go)

    The descriptor table, the avail ring and the used ring live in guest memory;
    every read of them is an access during which the guest may run. *)

From S2P Require Import Prelude Bytes VuMem.

Definition descFlagNext : Z := 1.
Definition descFlagWrite : Z := 2.
Definition descFlagIndirect : Z := 4.
Definition vringAvailFNoInterrupt : Z := 1.

Record rawDesc : Type := { d_addr : Z; d_length : Z; d_write : bool }.

Record elem : Type := { e_head : Z; e_outSG : list slice; e_inSG : list slice; e_raw : list rawDesc }.

Record vring : Type := {
  v_num : Z;
  v_desc : option slice; v_avail : option slice; v_used : option slice;
  v_lastAvail : Z; v_usedIdx : Z;
  v_kick : option Z; v_call : option Z; v_err : option Z;
  v_enabled : bool;
}.

Definition vring0 : vring :=
  {| v_num := 0; v_desc := None; v_avail := None; v_used := None; v_lastAvail := 0; v_usedIdx := 0;
     v_kick := None; v_call := None; v_err := None; v_enabled := false |}.

Record vringAddr : Type := {
  a_index : Z; a_flags : Z; a_desc : Z; a_used : Z; a_avail : Z; a_log : Z;
}.

(** A nil slice has length and capacity zero. *)
Definition nil_slice : slice := {| sl_map := -1; sl_off := 0; sl_len := 0; sl_cap := 0 |}.
Definition slice_of (o : option slice) : slice := default nil_slice o.

Definition set_tables (v : vring) (d a u : option slice) : vring :=
  {| v_num := v_num v; v_desc := d; v_avail := a; v_used := u; v_lastAvail := v_lastAvail v;
     v_usedIdx := v_usedIdx v; v_kick := v_kick v; v_call := v_call v; v_err := v_err v;
     v_enabled := v_enabled v |}.
Definition set_lastAvail (v : vring) (i : Z) : vring :=
  {| v_num := v_num v; v_desc := v_desc v; v_avail := v_avail v; v_used := v_used v; v_lastAvail := i;
     v_usedIdx := v_usedIdx v; v_kick := v_kick v; v_call := v_call v; v_err := v_err v;
     v_enabled := v_enabled v |}.
Definition set_usedIdx (v : vring) (i : Z) : vring :=
  {| v_num := v_num v; v_desc := v_desc v; v_avail := v_avail v; v_used := v_used v;
     v_lastAvail := v_lastAvail v; v_usedIdx := i; v_kick := v_kick v; v_call := v_call v; v_err := v_err v;
     v_enabled := v_enabled v |}.

(** [setup] assigns each table before it checks the next: an error leaves the
    earlier tables bound and the failed one nil. *)
Definition setup (mt : memTable) (a : vringAddr) : method vring vu_err unit := λ v,
  if v_num v =? 0 then (v, Err VNoNum) else
  match translate mt (a_desc a) (v_num v * 16) with
  | Err e => (set_tables v None (v_avail v) (v_used v), Err e)
  | Ok d =>
      match translate mt (a_avail a) (4 + v_num v * 2) with
      | Err e => (set_tables v (Some d) None (v_used v), Err e)
      | Ok av =>
          match translate mt (a_used a) (4 + v_num v * 8) with
          | Err e => (set_tables v (Some d) (Some av) None, Err e)
          | Ok u =>
              let v := set_tables v (Some d) (Some av) (Some u) in
              (* mappings are page-aligned: the offset decides *)
              if negb (sl_off av mod 4 =? 0) then (v, Err VUnaligned)
              else if negb (sl_off u mod 4 =? 0) then (v, Err VUnaligned)
              else (v, Ok tt)
          end
      end
  end.

Section Ring.
Context `{Host}.

(** The 32-bit atomic load of [{flags, idx}] at [&avail[0]]. *)
Definition availIdx (v : vring) : method sys vu_err Z :=
  do* v32 <- rd 4 (slice_of (v_avail v)) 0; gret (u16 (Z.shiftr v32 16)).

Definition descAt (v : vring) (idx : Z) : result vu_err slice :=
  if v_num v <=? idx then Err VBadIndex
  else sub (slice_of (v_desc v)) (idx * 16) (idx * 16 + 16).

Definition addDesc (d : slice) (raw : list rawDesc) : method sys vu_err (list rawDesc) :=
  do* addr <- rd 8 d 0;
  do* length <- rd 4 d 8;
  do* flags <- rd 2 d 12;
  if length =? 0 then gfail VZeroLength
  else gret (raw ++ [{| d_addr := addr; d_length := length; d_write := has_flag flags descFlagWrite |}]).

(** The loop of [walkTable]; [n] entries remain, [i] is the next. *)
Fixpoint walkTable (n : nat) (i : Z) (tbl : slice) (raw : list rawDesc) : method sys vu_err (list rawDesc) :=
  match n with
  | O => gfail VRanOff
  | S n =>
      do* d <- glift (sub tbl (i * 16) (sl_len tbl));
      do* raw <- addDesc d raw;
      do* flags <- rd 2 d 12;
      if has_flag flags descFlagNext then walkTable n (i + 1) tbl raw else gret raw
  end.

Fixpoint walk_loop (fuel : nat) (v : vring) (mt : memTable) (idx seen : Z) (raw : list rawDesc)
    : method sys vu_err (list rawDesc) :=
  match fuel with
  | O => gfail VFuel
  | S fuel =>
      if v_num v * 2 <? seen then gfail VChainLoop else
      do* d <- glift (descAt v idx);
      do* flags <- rd 2 d 12;
      if has_flag flags descFlagIndirect then
        do* taddr <- rd 8 d 0;
        do* tlen <- rd 4 d 8;
        if has_flag flags descFlagNext then gfail VIndirectNext else
        if negb (tlen mod 16 =? 0) then gfail VIndirectLen else
        do* tbl <- glift (translate mt taddr tlen);
        walkTable (Z.to_nat (tlen / 16)) 0 tbl raw
      else
        do* raw <- addDesc d raw;
        if has_flag flags descFlagNext then
          do* next <- rd 2 d 14;
          walk_loop fuel v mt next (seen + 1) raw
        else gret raw
  end.

(** The guard [seen > 2*num] ends the loop after at most [2*num + 2] rounds. *)
Definition walk_fuel (v : vring) : nat := Z.to_nat (v_num v * 2 + 2).

Definition walkChain (v : vring) (mt : memTable) (head : Z) : method sys vu_err elem :=
  do* raw <- walk_loop (walk_fuel v) v mt head 0 [];
  if zlen raw =? 0 then gfail VEmptyChain
  else gret {| e_head := head; e_outSG := []; e_inSG := []; e_raw := raw |}.

(** [pop]: the next element, or [None] on an empty queue. *)
Definition pop (mt : memTable) : method (vring * sys) vu_err (option elem) := λ '(v, s),
  match v_desc v with
  | None => ((v, s), Err VUnconfigured)
  | Some _ =>
      match availIdx v s with
      | (s, Err e) => ((v, s), Err e)
      | (s, Ok avail) =>
          if avail =? u16 (v_lastAvail v) then ((v, s), Ok None) else
          if v_num v =? 0 then ((v, s), Err VPanic) else
          match rd 2 (slice_of (v_avail v)) (4 + u16 (v_lastAvail v) mod v_num v * 2) s with
          | (s, Err e) => ((v, s), Err e)
          | (s, Ok head) =>
              let v := set_lastAvail v (u16 (v_lastAvail v + 1)) in
              match walkChain v mt head s with
              | (s, Ok e) => ((v, s), Ok (Some e))
              | (s, Err e) => ((v, s), Err e)
              end
          end
      end
  end.

(** [push]: the entry first, then the index.  The compare-and-swap loop on
    [{flags, idx}] is modelled by its successful round: one atomic update of the
    word in which the flags are whatever they then are. *)
Definition publish (used : slice) (idx : Z) : method sys vu_err unit := λ s,
  let s := turn s in
  match load s {| sl_map := sl_map used; sl_off := sl_off used; sl_len := 4; sl_cap := 4 |} with
  | Err e => (s, Err e)
  | Ok b =>
      let new := Z.lor (Z.land (le_decode b) 0xFFFF) (u32 (Z.shiftl (u16 idx) 16)) in
      match store s used (le_encode 4 new) with Ok s => (s, Ok tt) | Err e => (s, Err e) end
  end.

Definition push (e : elem) (usedLen : Z) : method (vring * sys) vu_err unit := λ '(v, s),
  if v_num v =? 0 then ((v, s), Err VPanic) else
  let used := slice_of (v_used v) in
  let slot := v_usedIdx v mod v_num v in
  match wr 4 used (4 + slot * 8) (e_head e) s with
  | (s, Err err) => ((v, s), Err err)
  | (s, Ok _) =>
      match wr 4 used (4 + slot * 8 + 4) usedLen s with
      | (s, Err err) => ((v, s), Err err)
      | (s, Ok _) =>
          let v := set_usedIdx v (u32 (v_usedIdx v + 1)) in
          if sl_len used =? 0 then ((v, s), Err VPanic) else
          let (s, r) := publish used (v_usedIdx v) s in ((v, s), r)
      end
  end.

Definition signal (fd : Z) (s : sys) : sys :=
  {| sy_objs := sy_objs s; sy_maps := sy_maps s; sy_next := sy_next s; sy_fds := sy_fds s;
     sy_signals := fd :: sy_signals s; sy_time := sy_time s |}.

Definition notify (v : vring) : method sys vu_err unit :=
  do* flags <- rd 2 (slice_of (v_avail v)) 0;
  if has_flag flags vringAvailFNoInterrupt then gret tt else
  match v_call v with None => gret tt | Some fd => gput (signal fd) end.
End Ring.

(** [translateSG]: descriptors to slices, split by direction. *)
Fixpoint translateSG_loop (mt : memTable) (raw : list rawDesc) (outs ins : list slice)
    : result vu_err (list slice * list slice) :=
  match raw with
  | [] => Ok (outs, ins)
  | d :: raw =>
      let* b := translate mt (d_addr d) (d_length d) in
      if d_write d then translateSG_loop mt raw outs (ins ++ [b])
      else translateSG_loop mt raw (outs ++ [b]) ins
  end.

Definition translateSG (mt : memTable) (e : elem) : result vu_err elem :=
  let* (outs, ins) := translateSG_loop mt (e_raw e) (e_outSG e) (e_inSG e) in
  Ok {| e_head := e_head e; e_outSG := outs; e_inSG := ins; e_raw := [] |}.

(** ** Safety under an arbitrary guest *)

(** The tables are mapped, with the sizes the queue size asks for. *)
Definition table_at (s : sys) (o : option slice) (len : Z) : Prop :=
  ∃ sl, o = Some sl ∧ mapped s sl ∧ sl_len sl = len.

Record ring_ok (s : sys) (v : vring) : Prop := {
  rk_num : 0 < v_num v ≤ 32768;
  rk_desc : table_at s (v_desc v) (v_num v * 16);
  rk_avail : table_at s (v_avail v) (4 + v_num v * 2);
  rk_used : table_at s (v_used v) (4 + v_num v * 8);
  rk_last : 0 ≤ v_lastAvail v < 65536;
  rk_usedIdx : 0 ≤ v_usedIdx v < 2 ^ 32;
}.

Lemma ring_ok_same s s' v : same_maps s s' → ring_ok s v → ring_ok s' v.
Proof.
  intros Hs [Hn (d & Hd & ? & ?) (a & Ha & ? & ?) (u & Hu & ? & ?) Hl Hi].
  split; try done; eexists; (split; [done|]); split; try done; by eapply mapped_same.
Qed.

Lemma slice_of_some o sl : o = Some sl → slice_of o = sl.
Proof. by intros ->. Qed.

(** Running [m] from [s] keeps the mappings, ends in [Q] or in an error the code
    means to report. *)
Definition run_safe {A} (s : sys) (m : method sys vu_err A) (Q : A → Prop) : Prop :=
  same_maps s (m s).1 ∧ match (m s).2 with Ok a => Q a | Err e => ¬ crash e end.

Lemma run_safe_bind {A B} s (m : method sys vu_err A) (k : A → method sys vu_err B) Q R :
  run_safe s m Q → (∀ a s', same_maps s s' → Q a → run_safe s' (k a) R) → run_safe s (gbind m k) R.
Proof.
  unfold run_safe, gbind. intros [Hs Hm] Hk. destruct (m s) as [s1 [a|e]]; [|done]. simpl in *.
  destruct (Hk a s1 Hs Hm) as [Hs2 Hr]. split; [by etrans|done].
Qed.

Lemma run_safe_weaken {A} s (m : method sys vu_err A) (Q R : A → Prop) :
  run_safe s m Q → (∀ a, Q a → R a) → run_safe s m R.
Proof. intros [Hs Hm] HQ. split; [done|]. destruct (m s).2; auto. Qed.

Lemma run_safe_ret {A} s (a : A) (Q : A → Prop) : Q a → run_safe s (gret a) Q.
Proof. intros. by split. Qed.
Lemma run_safe_fail {A} s e (Q : A → Prop) : ¬ crash e → run_safe s (gfail e) Q.
Proof. intros. by split. Qed.
Lemma run_safe_lift {A} s (r : result vu_err A) (Q : A → Prop) :
  match r with Ok a => Q a | Err e => ¬ crash e end → run_safe s (glift r) Q.
Proof. intros. by split. Qed.

Ltac no_crash := by intros [|[|]].

#[export] Hint Resolve run_safe_ret : go.

Section RingSafety.
Context `{HostOk}.

Lemma run_safe_rd s n sl i :
  mapped s sl → 0 ≤ i → 0 ≤ n → i + n ≤ sl_len sl → run_safe s (rd n sl i) (λ v, 0 ≤ v < 256 ^ n).
Proof.
  intros. destruct (rd_mapped n sl i s) as (v & Hr & Hv); try done. unfold run_safe. rewrite Hr. simpl.
  split; [apply turn_same|done].
Qed.

Definition descs_ok (raw : list rawDesc) : Prop :=
  Forall (λ r, 0 ≤ d_addr r < 2 ^ 64 ∧ 0 < d_length r < 2 ^ 32) raw.

Lemma run_safe_addDesc s d raw :
  mapped s d → 16 ≤ sl_len d →
  descs_ok raw →
  run_safe s (addDesc d raw)
    (λ raw', ∃ r, raw' = raw ++ [r] ∧ descs_ok raw').
Proof.
  intros Hm Hl Hraw. unfold addDesc.
  eapply run_safe_bind; [apply run_safe_rd; try done; lia|]. intros addr s1 E1 Ha.
  eapply run_safe_bind; [apply run_safe_rd; try lia; by eapply mapped_same|]. intros len s2 E2 Hlen.
  eapply run_safe_bind; [apply run_safe_rd; try lia; eapply mapped_same; [exact E2|]; by eapply mapped_same|].
  intros flags s3 E3 Hf. destruct (Z.eqb_spec len 0); [apply run_safe_fail; no_crash|].
  apply run_safe_ret. eexists. split; [done|]. apply Forall_app. split; [done|].
  apply Forall_singleton. simpl in *. lia.
Qed.

Lemma run_safe_walkTable n : ∀ s i tbl raw,
  mapped s tbl → 0 ≤ i → (i + Z.of_nat n) * 16 ≤ sl_len tbl → descs_ok raw →
  run_safe s (walkTable n i tbl raw) (λ raw', descs_ok raw' ∧ raw' ≠ [] ∧ zlen raw' ≤ zlen raw + Z.of_nat n).
Proof.
  induction n as [|n IH]; intros s i tbl raw Hm Hi Hl Hraw; cbn [walkTable]; [apply run_safe_fail; no_crash|].
  destruct (sub_mapped s tbl (i * 16) (sl_len tbl) Hm) as (d & Hd & Hmd & Hld & _); try lia.
  { destruct Hm as (_ & ? & _). lia. }
  eapply run_safe_bind; [apply (run_safe_lift _ _ (λ x, x = d)); by rewrite Hd|]. intros x s1 E1 ->.
  assert (Hm1 : mapped s1 d) by (by eapply mapped_same).
  eapply run_safe_bind; [apply run_safe_addDesc; try done; lia|]. intros raw' s2 E2 (r & -> & Hraw').
  assert (Hm2 : mapped s2 d) by (by eapply mapped_same).
  eapply run_safe_bind; [apply run_safe_rd; try done; lia|]. intros flags s3 E3 _.
  case_if; [|apply run_safe_ret; split_and!; [done|by destruct raw|rewrite zlen_app; unfold zlen; simpl; lia]].
  eapply run_safe_weaken; [apply IH; try done; try lia|].
  - eapply mapped_same; [|exact Hm]. by do 2 (etrans; [eassumption|]).
  - intros raw' (? & ? & Hz). split_and!; try done. rewrite zlen_app in Hz. unfold zlen in *. simpl in Hz. lia.
Qed.

Lemma run_safe_walk_loop fuel : ∀ s v mt idx seen raw,
  ring_ok s v → table_ok s mt → 0 ≤ idx → 0 ≤ seen ≤ v_num v * 2 + 1 →
  v_num v * 2 + 2 ≤ seen + Z.of_nat fuel → descs_ok raw →
  run_safe s (walk_loop fuel v mt idx seen raw)
    (λ raw', descs_ok raw' ∧ raw' ≠ [] ∧ zlen raw' ≤ zlen raw + (v_num v * 2 + 1 - seen) + 2 ^ 28).
Proof.
  induction fuel as [|fuel IH]; intros s v mt idx seen raw Hv Hmt Hi Hsn Hf Hraw; cbn [walk_loop]; [lia|].
  destruct (rk_desc _ _ Hv) as (dt & Hdt & Hmd & Hld). pose proof (rk_num _ _ Hv).
  destruct (Z.ltb_spec (v_num v * 2) seen); [apply run_safe_fail; no_crash|].
  unfold descAt. rewrite (slice_of_some _ _ Hdt).
  destruct (Z.leb_spec (v_num v) idx); [eapply (run_safe_bind _ _ _ (λ _, False)); [apply run_safe_lift; no_crash|done]|].
  destruct (sub_mapped s dt (idx * 16) (idx * 16 + 16) Hmd) as (d & Hd & Hmd' & Hld' & _); try lia.
  { destruct Hmd as (_ & ? & _). lia. }
  eapply run_safe_bind; [apply (run_safe_lift _ _ (λ x, x = d)); by rewrite Hd|]. intros x s1 E1 ->.
  assert (Hm1 : mapped s1 d) by (by eapply mapped_same).
  eapply run_safe_bind; [apply run_safe_rd; try done; lia|]. intros flags s2 E2 _.
  assert (Hm2 : mapped s2 d) by (by eapply mapped_same). case_if.
  - eapply run_safe_bind; [apply run_safe_rd; try done; lia|]. intros taddr s3 E3 Hta.
    assert (Hm3 : mapped s3 d) by (by eapply mapped_same).
    eapply run_safe_bind; [apply run_safe_rd; try done; lia|]. intros tlen s4 E4 Htl.
    case_if; [apply run_safe_fail; no_crash|]. case_if; [apply run_safe_fail; no_crash|]. bsimp.
    assert (Hmt4 : table_ok s4 mt) by (eapply table_same; [|exact Hmt]; by do 3 (etrans; [eassumption|])).
    cbv beta in *. pose proof (translate_exact s4 mt taddr tlen Hmt4 ltac:(lia) ltac:(lia)) as Ht.
    destruct (translate mt taddr tlen) as [tbl|e].
    + destruct Ht as (Hmtbl & Hltbl & _). eapply run_safe_bind; [by apply (run_safe_lift _ _ (λ x, x = tbl))|].
      intros x s5 E5 ->. pose proof (Z.mul_div_le tlen 16 ltac:(lia)). pose proof (Z.div_pos tlen 16 ltac:(lia) ltac:(lia)).
      eapply run_safe_weaken; [apply run_safe_walkTable; try done; [by eapply mapped_same|lia]|].
      intros raw' (? & ? & Hz). split_and!; try done. lia.
    + eapply (run_safe_bind _ _ _ (λ _, False)); [apply run_safe_lift; simpl|done].
      destruct Ht as [[-> _]|[-> _]]; no_crash.
  - eapply run_safe_bind; [apply run_safe_addDesc; try done; lia|]. intros raw' s3 E3 (r & -> & Hraw').
    assert (Hm3 : mapped s3 d) by (by eapply mapped_same).
    case_if; [|apply run_safe_ret; split_and!; [done|by destruct raw|rewrite zlen_app; unfold zlen; simpl; lia]].
    eapply run_safe_bind; [apply run_safe_rd; try done; lia|]. intros next s4 E4 Hn. cbv beta in Hn.
    assert (Hs4 : same_maps s s4) by (by do 3 (etrans; [eassumption|])).
    eapply run_safe_weaken; [apply IH; try done; try lia; [by eapply ring_ok_same|by eapply table_same]|].
    intros raw' (? & ? & Hz). split_and!; try done. rewrite zlen_app in Hz. unfold zlen in *. simpl in Hz. lia.
Qed.

Lemma run_safe_walkChain s v mt head :
  ring_ok s v → table_ok s mt → 0 ≤ head →
  run_safe s (walkChain v mt head)
    (λ e, e_head e = head ∧ e_outSG e = [] ∧ e_inSG e = [] ∧ descs_ok (e_raw e) ∧ e_raw e ≠ [] ∧ zlen (e_raw e) ≤ 2 ^ 29).
Proof.
  intros Hv Hmt Hh. unfold walkChain. eapply run_safe_bind.
  - apply run_safe_walk_loop; try done; [pose proof (rk_num _ _ Hv); lia| |constructor].
    unfold walk_fuel. pose proof (rk_num _ _ Hv). lia.
  - intros raw s' _ (Hraw & Hne & Hz). case_if; [apply run_safe_fail; no_crash|]. apply run_safe_ret.
    pose proof (rk_num _ _ Hv). change (zlen []) with 0 in Hz. split_and!; try done. simpl. lia.
Qed.

Lemma ring_ok_last s v i : ring_ok s v → 0 ≤ i < 65536 → ring_ok s (set_lastAvail v i).
Proof. intros [] ?. by split. Qed.

(** [pop] under an arbitrary guest. *)
Lemma pop_safe v s mt :
  ring_ok s v → table_ok s mt →
  ∃ i s' r, pop mt (v, s) = ((set_lastAvail v i, s'), r) ∧ same_maps s s' ∧ 0 ≤ i < 65536 ∧
    match r with
    | Ok None => i = v_lastAvail v
    | Ok (Some e) => i = u16 (v_lastAvail v + 1) ∧ 0 ≤ e_head e < 65536 ∧
                     e_outSG e = [] ∧ e_inSG e = [] ∧ descs_ok (e_raw e) ∧ e_raw e ≠ [] ∧ zlen (e_raw e) ≤ 2 ^ 29
    | Err err => ¬ crash err
    end.
Proof.
  intros Hv Hmt. destruct (rk_desc _ _ Hv) as (dt & Hdt & _). destruct (rk_avail _ _ Hv) as (av & Hav & Hma & Hla).
  pose proof (rk_num _ _ Hv) as Hn. pose proof (rk_last _ _ Hv) as Hlast.
  assert (Hsame : v = set_lastAvail v (v_lastAvail v)) by (by destruct v).
  unfold pop, availIdx. rewrite Hdt, (slice_of_some _ _ Hav).
  destruct (rd_mapped 4 av 0 s) as (v32 & Hr & Hv32); try done; try lia.
  rewrite (gbind_run _ _ _ _ _ Hr). simpl. pose proof (turn_same s) as Ht.
  case_if; [exists (v_lastAvail v), (turn s), (Ok None); rewrite <- Hsame; done|].
  destruct (Z.eqb_spec (v_num v) 0); [lia|]. rewrite (u16_id (v_lastAvail v)) by lia.
  pose proof (Z.mod_pos_bound (v_lastAvail v) (v_num v) ltac:(lia)) as Hmod.
  destruct (rd_mapped 2 av (4 + v_lastAvail v mod v_num v * 2) (turn s)) as (head & Hr2 & Hhead); try lia.
  { by eapply mapped_same. }
  rewrite Hr2. set (i := u16 (v_lastAvail v + 1)).
  assert (Hi : 0 ≤ i < 65536) by (apply Z.mod_pos_bound; lia).
  assert (Ht2 : same_maps s (turn (turn s))) by (etrans; [exact Ht|apply turn_same]).
  destruct (run_safe_walkChain (turn (turn s)) (set_lastAvail v i) mt head) as [Hs3 Hres].
  { apply ring_ok_last; [|done]. by eapply ring_ok_same. }
  { by eapply table_same. }
  { lia. }
  destruct (walkChain _ mt head _) as [s3 [e|e]]; simpl in *.
  - exists i, s3, (Ok (Some e)). split; [done|]. split; [by etrans|]. split; [done|].
    destruct Hres as (-> & ? & ? & ? & ? & ?). split_and!; try done; lia.
  - exists i, s3, (Err e). split; [done|]. split; [by etrans|]. done.
Qed.

(** Translation of a popped element: every slice is valid. *)
Lemma translateSG_loop_ok s mt raw : ∀ outs ins,
  table_ok s mt → descs_ok raw → Forall (λ sl, mapped s sl ∧ 0 < sl_len sl < 2 ^ 32) (outs ++ ins) →
  match translateSG_loop mt raw outs ins with
  | Ok (outs', ins') => Forall (λ sl, mapped s sl ∧ 0 < sl_len sl < 2 ^ 32) (outs' ++ ins') ∧
                        length (outs' ++ ins') = (length (outs ++ ins) + length raw)%nat
  | Err e => e = VRangeWraps ∨ e = VOutside
  end.
Proof.
  induction raw as [|d raw IH]; intros outs ins Hmt Hraw Hsl; [simpl; split; [done|lia]|]. cbn [translateSG_loop].
  inversion Hraw as [|? ? [Ha Hl] Hraw']; subst.
  pose proof (translate_exact s mt (d_addr d) (d_length d) Hmt Ha ltac:(lia)) as Ht.
  destruct (translate mt (d_addr d) (d_length d)) as [b|e]; [|by destruct Ht as [[? _]|[? _]]; [left|right]].
  destruct Ht as (Hm & Hlen & _). simpl. apply Forall_app in Hsl as [Ho Hi].
  case_if.
  - specialize (IH outs (ins ++ [b]) Hmt Hraw').
    destruct (translateSG_loop mt raw outs (ins ++ [b])) as [[outs' ins']|].
    + destruct IH as [IH ->]; [rewrite !Forall_app; split_and!; try done; apply Forall_singleton; split; try done; lia|].
      split; [done|]. rewrite !length_app. simpl. lia.
    + apply IH. rewrite !Forall_app; split_and!; try done; apply Forall_singleton; split; try done; lia.
  - specialize (IH (outs ++ [b]) ins Hmt Hraw').
    destruct (translateSG_loop mt raw (outs ++ [b]) ins) as [[outs' ins']|].
    + destruct IH as [IH ->]; [rewrite !Forall_app; split_and!; try done; apply Forall_singleton; split; try done; lia|].
      split; [done|]. rewrite !length_app. simpl. lia.
    + apply IH. rewrite !Forall_app; split_and!; try done; apply Forall_singleton; split; try done; lia.
Qed.

Lemma translateSG_ok s mt e :
  table_ok s mt → descs_ok (e_raw e) → e_outSG e = [] → e_inSG e = [] →
  match translateSG mt e with
  | Ok e' => e_head e' = e_head e ∧ e_raw e' = [] ∧ Forall (λ sl, mapped s sl ∧ 0 < sl_len sl < 2 ^ 32) (e_outSG e' ++ e_inSG e') ∧
             length (e_outSG e' ++ e_inSG e') = length (e_raw e)
  | Err err => err = VRangeWraps ∨ err = VOutside
  end.
Proof.
  intros Hmt Hraw Ho Hi. unfold translateSG. rewrite Ho, Hi.
  pose proof (translateSG_loop_ok s mt (e_raw e) [] [] Hmt Hraw ltac:(constructor)) as Hl.
  destruct (translateSG_loop mt (e_raw e) [] []) as [[outs ins]|err]; simpl; [|done]. by destruct Hl.
Qed.
End RingSafety.

(** ** What the ring operations read and write *)

(** A byte of a memory object, and the location of a slice's first byte. *)
Definition gbyte (s : sys) (o i : Z) : Z := match sy_objs s !! o with Some f => fbyte f i | None => 0 end.
Definition origin (s : sys) (sl : slice) : Z * Z :=
  match sy_maps s !! sl_map sl with Some mp => (mp_obj mp, mp_off mp + sl_off sl) | None => (0, 0) end.

(** The bytes of a slice, and the little-endian integer at [i] in it. *)
Definition contents (s : sys) (sl : slice) : list Z :=
  map (λ i, gbyte s (origin s sl).1 ((origin s sl).2 + i)) (seqZ 0 (sl_len sl)).
Definition peek (s : sys) (n : Z) (sl : slice) (i : Z) : Z :=
  le_decode (map (λ j, gbyte s (origin s sl).1 ((origin s sl).2 + i + j)) (seqZ 0 n)).

(** The memory of [s'] is that of [s]; only the clock and the signals may differ. *)
Definition same_mem (s s' : sys) : Prop :=
  sy_objs s' = sy_objs s ∧ sy_maps s' = sy_maps s ∧ sy_fds s' = sy_fds s ∧ sy_next s' = sy_next s.

#[global] Instance same_mem_equiv : Equivalence same_mem.
Proof. split; [done|intros ?? (? & ? & ? & ?); by split_and!|intros ??? (? & ? & ? & ?) (? & ? & ? & ?); split_and!; congruence]. Qed.

#[global] Instance peek_proper : Proper (same_mem ==> eq ==> eq ==> eq ==> eq) peek.
Proof. intros s s' (Ho & Hm & _) n ? <- sl ? <- i ? <-. unfold peek, gbyte, origin. by rewrite Ho, Hm. Qed.

Lemma same_mem_maps s s' : same_mem s s' → same_maps s s'.
Proof. intros (Ho & Hm). split; [done|]. rewrite Ho. eauto 6. Qed.

Lemma load_contents s sl : mapped s sl → load s sl = Ok (contents s sl).
Proof.
  intros (H1 & H2 & mp & f & Hmp & Hf & H3 & H4 & H5 & H6). unfold load, contents, origin, gbyte.
  rewrite Hmp, Hf. destruct (Z.eqb_spec (sl_len sl) 0) as [->|]; [done|].
  destruct (Z.leb_spec (mp_off mp + sl_off sl + sl_len sl) (fsize f)); [|lia]. f_equal. simpl. rewrite Hf.
  unfold fread. apply (zget_eq 0); [by rewrite !zlen_map, !zlen_seqZ by lia|].
  rewrite zlen_map, zlen_seqZ by lia. intros i Hi.
  rewrite !(zget_map 0), !zget_seqZ by (rewrite ?zlen_seqZ; lia). f_equal.
Qed.

Lemma peek_sub s n sl sl' k i :
  sl_map sl' = sl_map sl → sl_off sl' = sl_off sl + k → mapped s sl → peek s n sl' i = peek s n sl (k + i).
Proof.
  intros Hm Ho (_ & _ & mp & f & Hmp & _). unfold peek, origin. rewrite Hm, Hmp, Ho. simpl.
  f_equal. apply map_ext. intros j. f_equal. lia.
Qed.

(** A store changes the bytes it covers and no others. *)
Lemma store_effect s sl d s' :
  mapped s sl → zlen d ≤ sl_cap sl → store s sl d = Ok s' →
  sy_maps s' = sy_maps s ∧
  ∀ o i, gbyte s' o i =
    if (o =? (origin s sl).1) && ((origin s sl).2 <=? i) && (i <? (origin s sl).2 + zlen d)
    then zget 0 d (i - (origin s sl).2) else gbyte s o i.
Proof.
  intros (H1 & H2 & mp & f & Hmp & Hf & H3 & H4 & H5 & H6) Hd. unfold store, origin. rewrite Hmp, Hf. simpl.
  destruct (Z.eqb_spec (zlen d) 0) as [E|E].
  { intros [= <-]. split; [done|]. intros o i. case_ifs; lia || done. }
  destruct (Z.leb_spec (mp_off mp + sl_off sl + zlen d) (fsize f)); [|done]. intros [= <-].
  split; [done|]. intros o i. unfold gbyte. simpl. destruct (Z.eqb_spec o (mp_obj mp)) as [->|Hne]; simpl.
  - rewrite lookup_insert_eq, Hf, fbyte_fwrite. done.
  - by rewrite lookup_insert_ne by done.
Qed.

Section Quiet.
Context `{HostOk} (Q : quiet).

Lemma turn_quiet s : same_mem s (turn s).
Proof. by split_and!; [apply Q|..]. Qed.

Lemma rd_quiet n sl i s :
  mapped s sl → 0 ≤ i → 0 ≤ n → i + n ≤ sl_len sl → rd n sl i s = (turn s, Ok (peek s n sl i)).
Proof.
  intros Hm Hi Hn Hl. unfold rd. destruct (Z.leb_spec 0 i), (Z.leb_spec (i + n) (sl_len sl)); try lia. simpl.
  set (sl' := {| sl_map := sl_map sl; sl_off := sl_off sl + i; sl_len := n; sl_cap := n |}).
  assert (Hm' : mapped (turn s) sl').
  { eapply mapped_same; [apply turn_same|apply mapped_part; done || lia]. }
  unfold ld, gbind. rewrite (load_contents _ _ Hm'). unfold gret. do 2 f_equal.
  unfold contents, peek, origin, gbyte. simpl. rewrite Q.
  destruct Hm as (_ & _ & mp & f & Hmp & _). rewrite Hmp. simpl. f_equal. apply map_ext. intros j. by rewrite Z.add_assoc.
Qed.
End Quiet.

(** *** Descriptor chains *)

Section Chains.
Context (s : sys) (v : vring) (mt : memTable).

Definition desc_in (tbl : slice) (k : Z) : rawDesc :=
  {| d_addr := peek s 8 tbl (k * 16); d_length := peek s 4 tbl (k * 16 + 8);
     d_write := has_flag (peek s 2 tbl (k * 16 + 12)) descFlagWrite |}.
Definition flag_in (tbl : slice) (k flag : Z) : bool := has_flag (peek s 2 tbl (k * 16 + 12)) flag.

(** The descriptors of an indirect table of [n] entries from position [k] on. *)
Inductive table_chain (tbl : slice) (n : Z) : Z → list rawDesc → Prop :=
| tc_last k : k < n → d_length (desc_in tbl k) ≠ 0 → flag_in tbl k descFlagNext = false →
    table_chain tbl n k [desc_in tbl k]
| tc_next k ds : k < n → d_length (desc_in tbl k) ≠ 0 → flag_in tbl k descFlagNext = true →
    table_chain tbl n (k + 1) ds → table_chain tbl n k (desc_in tbl k :: ds).

(** The descriptors of a chain that starts at [idx] and visits [m] entries of the
    descriptor table; an indirect entry ends it. *)
Inductive chain : Z → Z → list rawDesc → Prop :=
| ch_last idx : idx < v_num v → flag_in (slice_of (v_desc v)) idx descFlagIndirect = false →
    d_length (desc_in (slice_of (v_desc v)) idx) ≠ 0 → flag_in (slice_of (v_desc v)) idx descFlagNext = false →
    chain idx 1 [desc_in (slice_of (v_desc v)) idx]
| ch_next idx m ds : idx < v_num v → flag_in (slice_of (v_desc v)) idx descFlagIndirect = false →
    d_length (desc_in (slice_of (v_desc v)) idx) ≠ 0 → flag_in (slice_of (v_desc v)) idx descFlagNext = true →
    chain (peek s 2 (slice_of (v_desc v)) (idx * 16 + 14)) m ds →
    chain idx (m + 1) (desc_in (slice_of (v_desc v)) idx :: ds)
| ch_indirect idx tbl ds : idx < v_num v → flag_in (slice_of (v_desc v)) idx descFlagIndirect = true →
    flag_in (slice_of (v_desc v)) idx descFlagNext = false →
    peek s 4 (slice_of (v_desc v)) (idx * 16 + 8) mod 16 = 0 →
    translate mt (peek s 8 (slice_of (v_desc v)) (idx * 16)) (peek s 4 (slice_of (v_desc v)) (idx * 16 + 8)) = Ok tbl →
    table_chain tbl (peek s 4 (slice_of (v_desc v)) (idx * 16 + 8) / 16) 0 ds →
    chain idx 1 ds.
End Chains.

Section ChainExact.
Context `{HostOk} (Q : quiet).

Lemma addDesc_quiet s s0 d tbl k raw :
  same_mem s0 s → mapped s0 tbl → mapped s d → 16 ≤ sl_len d →
  sl_map d = sl_map tbl → sl_off d = sl_off tbl + k * 16 →
  ∃ s', same_mem s0 s' ∧
    addDesc d raw s = (s', if d_length (desc_in s0 tbl k) =? 0 then Err VZeroLength
                           else Ok (raw ++ [desc_in s0 tbl k])).
Proof.
  intros Hs Ht Hm Hl Hmap Hoff. unfold addDesc.
  pose proof (turn_quiet Q s) as T1. pose proof (turn_quiet Q (turn s)) as T2.
  pose proof (turn_quiet Q (turn (turn s))) as T3.
  assert (Hm1 : mapped (turn s) d) by (by eapply mapped_same, Hm; apply same_mem_maps).
  assert (Hm2 : mapped (turn (turn s)) d) by (by eapply mapped_same, Hm1; apply same_mem_maps).
  rewrite (gbind_run _ _ _ _ _ (rd_quiet Q 8 d 0 s Hm ltac:(lia) ltac:(lia) ltac:(lia))).
  rewrite (gbind_run _ _ _ _ _ (rd_quiet Q 4 d 8 _ Hm1 ltac:(lia) ltac:(lia) ltac:(lia))).
  rewrite (gbind_run _ _ _ _ _ (rd_quiet Q 2 d 12 _ Hm2 ltac:(lia) ltac:(lia) ltac:(lia))).
  assert (Hp : ∀ s1 n i, same_mem s0 s1 → peek s1 n d i = peek s0 n tbl (k * 16 + i)).
  { intros s1 n i <-. by apply peek_sub. }
  assert (S2 : same_mem s0 (turn (turn s))) by (by etrans; [|etrans]).
  exists (turn (turn (turn s))). split; [by etrans|].
  rewrite !Hp, Z.add_0_r by (done || by etrans). unfold desc_in. simpl d_length. by case_if.
Qed.

Lemma walkTable_exact s0 tbl n : ∀ s i raw out,
  same_mem s0 s → mapped s0 tbl → 0 ≤ i → (i + Z.of_nat n) * 16 ≤ sl_len tbl →
  (∃ s', walkTable n i tbl raw s = (s', Ok out)) ↔
  ∃ ds, table_chain s0 tbl (i + Z.of_nat n) i ds ∧ out = raw ++ ds.
Proof.
  induction n as [|n IH]; intros s i raw out Hs Ht Hi Hl; cbn [walkTable].
  { split; [by intros (s' & ?)|]. intros (ds & Hc & _). inversion Hc; lia. }
  destruct (sub_mapped s tbl (i * 16) (sl_len tbl)) as (d & Hd & Hmd & Hld & Hmap & Hoff); try lia.
  { by eapply mapped_same; [apply same_mem_maps|]. }
  { destruct Ht as (_ & ? & _). lia. }
  rewrite Hd. unfold glift. erewrite gbind_run by done.
  destruct (addDesc_quiet s s0 d tbl i raw) as (s1 & Hs1 & Ha); try done; try lia.
  destruct (Z.eqb_spec (d_length (desc_in s0 tbl i)) 0) as [Hz|Hnz].
  { rewrite (gbind_run_err _ _ _ _ _ Ha). split; [by intros (s' & ?)|].
    intros (ds & Hc & _). by inversion Hc. }
  rewrite (gbind_run _ _ _ _ _ Ha).
  assert (Hm1 : mapped s1 d).
  { eapply mapped_same; [|exact Hmd]. apply same_mem_maps. by etrans; [symmetry|]. }
  rewrite (gbind_run _ _ _ _ _ (rd_quiet Q 2 d 12 s1 Hm1 ltac:(lia) ltac:(lia) ltac:(lia))).
  assert (Hf : peek s1 2 d 12 = peek s0 2 tbl (i * 16 + 12)).
  { rewrite <- Hs1. by apply peek_sub. }
  rewrite Hf. destruct (has_flag _ descFlagNext) eqn:E.
  - rewrite IH by (try done; try lia; by etrans; [|apply turn_quiet]).
    replace (i + 1 + Z.of_nat n) with (i + Z.of_nat (S n)) by lia. split.
    + intros (ds & Hc & ->). exists (desc_in s0 tbl i :: ds). rewrite <- app_assoc. split; [|done].
      constructor; try done. lia.
    + intros (ds & Hc & ->). inversion Hc as [? ? ? Hx|? ds' ? ? ? Hc']; subst; [unfold flag_in in Hx; congruence|].
      exists ds'. by rewrite <- app_assoc.
  - split.
    + intros (s' & [= _ <-]). eexists. split; [|done]. constructor; try done. lia.
    + intros (ds & Hc & ->). inversion Hc as [|? ds' ? ? Hx]; subst; [|unfold flag_in in Hx; congruence]. by eexists.
Qed.

(** Values read from a mapped table are in range. *)
Lemma peek_range s n sl i :
  mapped s sl → 0 ≤ i → 0 ≤ n → i + n ≤ sl_len sl → 0 ≤ peek s n sl i < 256 ^ n.
Proof.
  intros Hm Hi Hn Hl. destruct (rd_mapped n sl i s Hm Hi Hn Hl) as (x & Hx & Hr).
  rewrite (rd_quiet Q) in Hx by done. by injection Hx as <-.
Qed.

(** The indirect branch: the chain is the table's. *)
Lemma walk_indirect_exact s0 s v mt idx raw out taddr tlen :
  same_mem s0 s → table_ok s0 mt → idx < v_num v →
  flag_in s0 (slice_of (v_desc v)) idx descFlagIndirect = true →
  taddr = peek s0 8 (slice_of (v_desc v)) (idx * 16) → tlen = peek s0 4 (slice_of (v_desc v)) (idx * 16 + 8) →
  0 ≤ taddr < 2 ^ 64 → 0 ≤ tlen < 2 ^ 32 →
  (∃ s', (if flag_in s0 (slice_of (v_desc v)) idx descFlagNext then gfail VIndirectNext else
          if negb (tlen mod 16 =? 0) then gfail VIndirectLen else
          do* tbl <- glift (translate mt taddr tlen); walkTable (Z.to_nat (tlen / 16)) 0 tbl raw) s = (s', Ok out)) ↔
  ∃ m ds, chain s0 v mt idx m ds ∧ m = 1 ∧ out = raw ++ ds.
Proof.
  intros Hs Hmt Hidx Hind -> -> Ha Hl. set (tlen := peek s0 4 _ _) in *. set (taddr := peek s0 8 _ _) in *.
  assert (Hinv : ∀ m ds, chain s0 v mt idx m ds →
    flag_in s0 (slice_of (v_desc v)) idx descFlagNext = false ∧ tlen mod 16 = 0 ∧
    ∃ tbl, translate mt taddr tlen = Ok tbl ∧ table_chain s0 tbl (tlen / 16) 0 ds).
  { intros m ds Hc. inversion Hc; subst; try congruence. eauto 6. }
  destruct (flag_in _ _ _ descFlagNext) eqn:En.
  { split; [by intros (s' & ?)|]. by intros (m & ds & (? & _)%Hinv & _). }
  destruct (Z.eqb_spec (tlen mod 16) 0) as [Hmod|Hmod]; cbn [negb].
  2:{ split; [by intros (s' & ?)|]. by intros (m & ds & (_ & ? & _)%Hinv & _). }
  pose proof (translate_exact s0 mt taddr tlen Hmt ltac:(lia) ltac:(lia)) as Ht.
  destruct (translate mt taddr tlen) as [tbl|e] eqn:Etr.
  2:{ split; [by intros (s' & ?)|]. by intros (m & ds & (_ & _ & tbl & ? & _)%Hinv & _). }
  unfold glift. erewrite gbind_run by done. destruct Ht as (Hmt' & Hlt & _).
  pose proof (Z.div_pos tlen 16 ltac:(lia) ltac:(lia)). pose proof (Z.mul_div_le tlen 16 ltac:(lia)).
  rewrite (walkTable_exact s0 tbl) by (done || lia).
  replace (0 + Z.of_nat (Z.to_nat (tlen / 16))) with (tlen / 16) by lia. split.
  - intros (ds & Hc & ->). exists 1, ds. split_and!; [|done|done]. by eapply (ch_indirect s0 v mt idx tbl).
  - intros (m & ds & (_ & _ & tbl0 & Htr & Hc)%Hinv & _ & ->). exists ds. by simplify_eq.
Qed.

Lemma walk_loop_exact s0 v mt fuel : ∀ s idx seen raw out,
  same_mem s0 s → ring_ok s0 v → table_ok s0 mt → 0 ≤ idx → 0 ≤ seen ≤ v_num v * 2 + 1 →
  v_num v * 2 + 2 ≤ seen + Z.of_nat fuel →
  (∃ s', walk_loop fuel v mt idx seen raw s = (s', Ok out)) ↔
  ∃ m ds, chain s0 v mt idx m ds ∧ seen + m ≤ v_num v * 2 + 1 ∧ out = raw ++ ds.
Proof.
  induction fuel as [|fuel IH]; intros s idx seen raw out Hs Hv Hmt Hi Hsn Hfu; cbn [walk_loop]; [lia|].
  assert (Hm0 : ∀ i m ds, chain s0 v mt i m ds → 1 ≤ m) by (induction 1; lia).
  destruct (rk_desc _ _ Hv) as (dt0 & Hdt & Hmd & Hld).
  rewrite <- (slice_of_some _ _ Hdt) in Hmd, Hld. clear dt0 Hdt. pose proof (rk_num _ _ Hv) as Hnum.
  destruct (Z.ltb_spec (v_num v * 2) seen).
  { split; [by intros (s' & ?)|]. intros (m & ds & Hc & Hb & _). apply Hm0 in Hc. lia. }
  unfold descAt. destruct (Z.leb_spec (v_num v) idx).
  { split; [by intros (s' & ?)|]. intros (m & ds & Hc & _). inversion Hc; lia. }
  set (dt := slice_of (v_desc v)) in *.
  assert (Hmd1 : mapped s dt) by (by eapply mapped_same; [apply same_mem_maps|]).
  destruct (sub_mapped s dt (idx * 16) (idx * 16 + 16) Hmd1) as (d & Hd & Hmd' & Hld' & Hmap & Hoff); try lia.
  { destruct Hmd as (_ & ? & _). lia. }
  rewrite Hd. unfold glift at 1. erewrite gbind_run by done.
  rewrite (gbind_run _ _ _ _ _ (rd_quiet Q 2 d 12 s Hmd' ltac:(lia) ltac:(lia) ltac:(lia))).
  assert (Hp : ∀ s1 n i, same_mem s0 s1 → peek s1 n d i = peek s0 n dt (idx * 16 + i)).
  { intros s1 n i <-. by apply peek_sub. }
  rewrite Hp by done. fold (flag_in s0 dt idx descFlagIndirect). fold (flag_in s0 dt idx descFlagNext).
  assert (Hs1 : same_mem s0 (turn s)) by (by etrans; [|apply turn_quiet]).
  assert (Hkeep : ∀ s1, same_mem s0 s1 → mapped s1 d).
  { intros s1 Hx. eapply mapped_same; [|exact Hmd']. apply same_mem_maps. by etrans; [symmetry|]. }
  destruct (flag_in s0 dt idx descFlagIndirect) eqn:Eind.
  - assert (Hs2 : same_mem s0 (turn (turn s))) by (by etrans; [|apply turn_quiet]).
    rewrite (gbind_run _ _ _ _ _ (rd_quiet Q 8 d 0 _ (Hkeep _ Hs1) ltac:(lia) ltac:(lia) ltac:(lia))).
    rewrite (gbind_run _ _ _ _ _ (rd_quiet Q 4 d 8 _ (Hkeep _ Hs2) ltac:(lia) ltac:(lia) ltac:(lia))).
    rewrite !Hp, Z.add_0_r by done.
    etrans; [apply (walk_indirect_exact s0 _ v mt idx raw out); try done; [by etrans; [exact Hs2|apply turn_quiet]|
      by apply (peek_range s0 8); try done; lia|by apply (peek_range s0 4); try done; lia]|].
    split; intros (m & ds & Hc & Hm & ->); exists m, ds; (split_and!; [done| |done]); [lia|].
    inversion Hc; subst; done || unfold dt in *; congruence.
  - destruct (addDesc_quiet (turn s) s0 d dt idx raw) as (s1 & Hs1' & Ha); try done; try lia; [by apply Hkeep|].
    assert (Hinv : ∀ m ds, chain s0 v mt idx m ds → d_length (desc_in s0 dt idx) ≠ 0 ∧
      if flag_in s0 dt idx descFlagNext
      then ∃ ds', ds = desc_in s0 dt idx :: ds' ∧ chain s0 v mt (peek s0 2 dt (idx * 16 + 14)) (m - 1) ds'
      else m = 1 ∧ ds = [desc_in s0 dt idx]).
    { intros m ds Hc. inversion Hc as [? ? ? ? Hn|? m' ds' ? ? ? Hn|]; subst;
        [fold dt in Hn; by rewrite Hn|fold dt in Hn|unfold dt in *; congruence].
      rewrite Hn. split; [done|]. exists ds'. by replace (m' + 1 - 1) with m' by lia. }
    destruct (Z.eqb_spec (d_length (desc_in s0 dt idx)) 0) as [Hz|Hnz].
    { rewrite (gbind_run_err _ _ _ _ _ Ha). split; [by intros (s' & ?)|]. by intros (m & ds & [? _]%Hinv & _). }
    rewrite (gbind_run _ _ _ _ _ Ha). destruct (flag_in s0 dt idx descFlagNext) eqn:Enext.
    + rewrite (gbind_run _ _ _ _ _ (rd_quiet Q 2 d 14 _ (Hkeep _ Hs1') ltac:(lia) ltac:(lia) ltac:(lia))).
      rewrite Hp by done. pose proof (peek_range s0 2 dt (idx * 16 + 14) Hmd ltac:(lia) ltac:(lia) ltac:(lia)).
      rewrite IH; [|by etrans; [exact Hs1'|apply turn_quiet]|done|done|lia|lia|lia]. split.
      * intros (m & ds & Hc & Hb & ->). exists (m + 1), (desc_in s0 dt idx :: ds).
        rewrite <- app_assoc. split_and!; [|lia|done]. by apply ch_next.
      * intros (m & ds & (_ & ds' & -> & Hc)%Hinv & Hb & ->). exists (m - 1), ds'.
        rewrite <- app_assoc. split_and!; [done|lia|done].
    + split.
      * intros (s' & [= _ <-]). exists 1, [desc_in s0 dt idx]. split_and!; [|lia|done]. by apply ch_last.
      * intros (m & ds & (_ & -> & ->)%Hinv & Hb & ->). by eexists.
Qed.

(** Under a guest at rest, [walkChain] returns an element exactly for the
    non-empty chains of at most [2*num + 1] descriptors. *)
Lemma walkChain_chain s v mt head e :
  ring_ok s v → table_ok s mt → 0 ≤ head →
  (∃ s', walkChain v mt head s = (s', Ok e)) ↔
  ∃ m ds, chain s v mt head m ds ∧ m ≤ v_num v * 2 + 1 ∧
          e = {| e_head := head; e_outSG := []; e_inSG := []; e_raw := ds |}.
Proof.
  intros Hv Hmt Hh. pose proof (rk_num _ _ Hv).
  assert (Hne : ∀ i m ds, chain s v mt i m ds → ds ≠ []).
  { intros i m ds Hc. inversion Hc as [| |? ? ? ? ? ? ? ? Ht]; [done|done|]. by inversion Ht. }
  assert (Hloop : ∀ raw, (∃ s', walk_loop (walk_fuel v) v mt head 0 [] s = (s', Ok raw)) ↔
    ∃ m ds, chain s v mt head m ds ∧ 0 + m ≤ v_num v * 2 + 1 ∧ raw = [] ++ ds).
  { intros raw. apply walk_loop_exact; try done; unfold walk_fuel; lia. }
  unfold walkChain. split.
  - intros (s' & Hr). apply gbind_ok in Hr as (s1 & raw & Hw & Hr).
    destruct (proj1 (Hloop raw)) as (m & ds & Hc & Hm & ->); [by eexists|].
    destruct (Z.eqb_spec (zlen ([] ++ ds)) 0); [done|]. injection Hr as _ <-. by exists m, ds.
  - intros (m & ds & Hc & Hm & ->). destruct (proj2 (Hloop ds)) as (s' & Hw); [by exists m, ds|].
    exists s'. rewrite (gbind_run _ _ _ _ _ Hw).
    destruct (Z.eqb_spec (zlen ds) 0) as [Hz|]; [|done]. apply Hne in Hc. by destruct ds.
Qed.
End ChainExact.
