(* ===== verification/VuQueue.v ===== *)
(** * The queue operations as a contract

    What [pop], [push] and [notify] promise to the device: no crash whatever the
    guest writes into the rings, the exact chains under a guest at rest, and the
    exact bytes a completion publishes. *)

From S2P Require Import Prelude Bytes VuMem VuRing.

(** ** Publishing a completion *)

Lemma word_join a b : Z.lor (Z.land a 0xFFFF) (u32 (Z.shiftl (u16 b) 16)) = a mod 2 ^ 16 + 2 ^ 16 * u16 b.
Proof.
  change 0xFFFF with (Z.ones 16). rewrite Z.land_ones by lia.
  pose proof (Z.mod_pos_bound a (2 ^ 16) ltac:(lia)) as Ha.
  assert (Hb : 0 ≤ u16 b < 2 ^ 16) by (apply Z.mod_pos_bound; lia).
  rewrite Z.shiftl_mul_pow2, u32_id by lia. transitivity (a mod 2 ^ 16 + u16 b * 2 ^ 16); [|lia].
  rewrite <- (Z.add_lor_land (a mod 2 ^ 16)).
  enough (Z.land (a mod 2 ^ 16) (u16 b * 2 ^ 16) = 0) as -> by lia.
  rewrite <- Z.shiftl_mul_pow2 by lia. apply Z.bits_inj'. intros n Hn. rewrite Z.land_spec, Z.bits_0.
  destruct (Z.lt_ge_cases n 16).
  - by rewrite Z.shiftl_spec_low, andb_false_r by lia.
  - by rewrite Z.mod_pow2_bits_high, andb_false_l by lia.
Qed.

(** The four bytes [publish] writes: the two flag bytes it found, then the index. *)
Lemma publish_bytes b idx :
  Forall is_byte b → length b = 4%nat →
  le_encode 4 (Z.lor (Z.land (le_decode b) 0xFFFF) (u32 (Z.shiftl (u16 idx) 16))) = take 2 b ++ le_encode 2 idx.
Proof.
  intros Hb Hl. rewrite word_join, (le_encode_app 2 2). f_equal.
  - destruct b as [|b0 [|b1 [|b2 [|b3 [|]]]]]; try done. clear Hl.
    inversion Hb as [|? ? H0 Hb1]; subst. inversion Hb1 as [|? ? H1 Hb2]; subst.
    rewrite <- (le_encode_decode (take 2 [b0; b1; b2; b3])) by (by apply (Forall_take is_byte 2)).
    apply le_encode_mod. change (256 ^ Z.of_nat 2) with (2 ^ 16). unfold is_byte in *. cbn [take le_decode].
    rewrite (Z.mul_comm (2 ^ 16)), Z_mod_plus_full, Z.mod_mod by lia.
    replace (b0 + 256 * (b1 + 256 * (b2 + 256 * (b3 + 256 * 0))))
      with (b0 + 256 * (b1 + 256 * 0) + (b2 + 256 * b3) * 2 ^ 16) by lia. by rewrite Z_mod_plus_full.
  - apply le_encode_mod. change (256 ^ Z.of_nat 2) with (2 ^ 16).
    pose proof (Z.mod_pos_bound (le_decode b) (2 ^ 16) ltac:(lia)).
    rewrite (Z.mul_comm (2 ^ 16)), Z.div_add, (Z.div_small (_ mod _)), Z.add_0_l by lia.
    unfold u16. by rewrite Z.mod_mod by lia.
Qed.

(** A region of guest memory, and what a write of [d] at [i] of a slice leaves. *)
Definition covers_at (s : sys) (sl : slice) (i n : Z) (o j : Z) : bool :=
  (o =? (origin s sl).1) && ((origin s sl).2 + i <=? j) && (j <? (origin s sl).2 + i + n).

Lemma origin_same s s' sl : same_maps s s' → origin s' sl = origin s sl.
Proof. intros [[Hm _] _]. unfold origin. by rewrite Hm. Qed.

Lemma covers_same s s' sl i n o j : same_maps s s' → covers_at s' sl i n o j = covers_at s sl i n o j.
Proof. intros Hs. unfold covers_at. by rewrite (origin_same s s'). Qed.

Lemma covers_disjoint s sl i n i' n' o j :
  covers_at s sl i n o j = true → i + n ≤ i' ∨ i' + n' ≤ i → covers_at s sl i' n' o j = false.
Proof.
  unfold covers_at. destruct (origin s sl) as [oo p]. simpl. destruct (o =? oo); simpl; [|done].
  intros Hc Hd. bsimp. apply andb_false_iff. rewrite Z.leb_gt, Z.ltb_ge. lia.
Qed.

Section Push.
Context `{HostOk} (Q : quiet).

(** A fixed-width write into a mapped slice of a memory at rest. *)
Lemma wr_quiet n sl i v s :
  mapped s sl → 0 ≤ i → i + Z.of_nat n ≤ sl_len sl →
  ∃ s', wr n sl i v s = (s', Ok tt) ∧ same_maps s s' ∧
    ∀ o j, gbyte s' o j = if covers_at s sl i (Z.of_nat n) o j
                          then zget 0 (le_encode n v) (j - ((origin s sl).2 + i)) else gbyte s o j.
Proof.
  intros Hm Hi Hl. unfold wr. destruct (Z.leb_spec 0 i), (Z.leb_spec (i + Z.of_nat n) (sl_len sl)); try lia. simpl.
  set (sl' := {| sl_map := sl_map sl; sl_off := sl_off sl + i; sl_len := Z.of_nat n; sl_cap := Z.of_nat n |}).
  pose proof (turn_quiet Q s) as (To & Tm & _).
  assert (Hm' : mapped (turn s) sl').
  { eapply mapped_same; [apply turn_same|apply mapped_part; done || lia]. }
  unfold st. destruct (store_mapped (turn s) sl' (le_encode n v) Hm') as (s' & Hst & Hs').
  { rewrite zlen_le_encode. simpl. lia. }
  { apply le_encode_bytes. }
  rewrite Hst. exists s'. split; [done|]. split; [etrans; [apply turn_same|done]|].
  destruct (store_effect (turn s) sl' (le_encode n v) s' Hm') as [_ He]; [rewrite zlen_le_encode; simpl; lia|done|].
  intros o j. rewrite He, zlen_le_encode. unfold covers_at, origin, gbyte. rewrite To, Tm. simpl.
  destruct Hm as (_ & _ & mp & f & Hmp & _). rewrite Hmp. simpl. by rewrite !Z.add_assoc.
Qed.

Lemma publish_quiet used idx s :
  mapped s used → 4 ≤ sl_len used →
  ∃ s', publish used idx s = (s', Ok tt) ∧ same_maps s s' ∧
    ∀ o j, gbyte s' o j = if covers_at s used 2 2 o j
                          then zget 0 (le_encode 2 idx) (j - ((origin s used).2 + 2)) else gbyte s o j.
Proof.
  intros Hm Hl. unfold publish. pose proof (turn_quiet Q s) as (To & Tm & _).
  assert (Hmt : mapped (turn s) used) by (eapply mapped_same; [apply turn_same|done]).
  set (w := {| sl_map := sl_map used; sl_off := sl_off used; sl_len := 4; sl_cap := 4 |}).
  assert (Hmw : mapped (turn s) w).
  { destruct Hmt as (? & ? & mp & f & ? & ? & ? & ? & ? & ?).
    split_and!; simpl; try lia. exists mp, f. split_and!; try done; simpl; lia. }
  destruct (load_mapped _ _ Hmw) as (b & Hb & Hbl & Hbb). rewrite Hb.
  assert (Hb4 : length b = 4%nat) by (unfold zlen in Hbl; simpl in Hbl; lia).
  rewrite publish_bytes by done.
  assert (Hlen : zlen (take 2 b ++ le_encode 2 idx) = 4).
  { unfold zlen in *. rewrite length_app, length_take, length_le_encode. simpl in Hbl. lia. }
  destruct (store_mapped (turn s) used (take 2 b ++ le_encode 2 idx) Hmt) as (s' & Hst & Hs').
  { rewrite Hlen. destruct Hmt as (_ & ? & _). lia. }
  { apply Forall_app. split; [by apply Forall_take|apply le_encode_bytes]. }
  rewrite Hst. exists s'. split; [done|]. split; [etrans; [apply turn_same|done]|].
  destruct (store_effect (turn s) used (take 2 b ++ le_encode 2 idx) s' Hmt) as [_ He];
    [rewrite Hlen; destruct Hmt as (_ & ? & _); lia|done|].
  intros o j. rewrite He, Hlen.
  rewrite (load_contents _ _ Hmw) in Hb. injection Hb as Hb. unfold contents, gbyte, origin in Hb.
  unfold covers_at, origin, gbyte in *. rewrite To, Tm in *. destruct Hm as (_ & _ & mp & f & Hmp & _).
  simpl in Hb. rewrite Hmp in *. simpl in Hb |- *. set (p := mp_off mp + sl_off used) in *.
  assert (Ht2 : zlen (take 2 b) = 2) by (rewrite <- Hb; done).
  destruct (Z.eqb_spec o (mp_obj mp)) as [->|]; [|done]. simpl.
  destruct (Z.leb_spec p j), (Z.ltb_spec j (p + 4)), (Z.leb_spec (p + 2) j), (Z.ltb_spec j (p + 2 + 2)); try lia; simpl; try done.
  - rewrite zget_app, Ht2 by lia. destruct (Z.ltb_spec (j - p) 2); [lia|]. f_equal. lia.
  - rewrite zget_app, Ht2 by lia. destruct (Z.ltb_spec (j - p) 2); [|lia]. rewrite <- Hb.
    assert (j = p ∨ j = p + 1) as [-> | ->] by lia;
      [rewrite Z.sub_diag|replace (p + 1 - p) with 1 by lia]; unfold zget; simpl;
      (destruct (sy_objs s !! mp_obj mp); [f_equal; lia|done]).
Qed.

(** The bytes a completion of [e] changes, and their new values. *)
Definition completion (s : sys) (v : vring) (e : elem) (usedLen o j : Z) : Z :=
  let used := slice_of (v_used v) in
  let at_ := 4 + v_usedIdx v mod v_num v * 8 in
  if covers_at s used at_ 4 o j then zget 0 (le_encode 4 (e_head e)) (j - ((origin s used).2 + at_))
  else if covers_at s used (at_ + 4) 4 o j then zget 0 (le_encode 4 usedLen) (j - ((origin s used).2 + (at_ + 4)))
  else if covers_at s used 2 2 o j then zget 0 (le_encode 2 (v_usedIdx v + 1)) (j - ((origin s used).2 + 2))
  else gbyte s o j.

Lemma push_quiet v s e usedLen :
  ring_ok s v →
  ∃ s', push e usedLen (v, s) = ((set_usedIdx v (u32 (v_usedIdx v + 1)), s'), Ok tt) ∧ same_maps s s' ∧
    ∀ o j, gbyte s' o j = completion s v e usedLen o j.
Proof.
  intros Hv. pose proof (rk_num _ _ Hv) as Hn. destruct (rk_used _ _ Hv) as (u & Hu & Hmu & Hlu).
  unfold push, completion. rewrite (slice_of_some _ _ Hu). destruct (Z.eqb_spec (v_num v) 0); [lia|].
  pose proof (Z.mod_pos_bound (v_usedIdx v) (v_num v) ltac:(lia)) as Hslot. set (slot := v_usedIdx v mod v_num v) in *.
  destruct (wr_quiet 4 u (4 + slot * 8) (e_head e) s Hmu) as (s1 & -> & Hs1 & He1); try lia.
  assert (Hm1 : mapped s1 u) by (by eapply mapped_same).
  destruct (wr_quiet 4 u (4 + slot * 8 + 4) usedLen s1 Hm1) as (s2 & -> & Hs2 & He2); try lia.
  assert (Hm2 : mapped s2 u) by (by eapply mapped_same).
  destruct (Z.eqb_spec (sl_len u) 0); [lia|]. cbn [v_usedIdx set_usedIdx].
  destruct (publish_quiet u (u32 (v_usedIdx v + 1)) s2 Hm2) as (s3 & -> & Hs3 & He3); [lia|].
  exists s3. split; [done|]. split; [etrans; [exact Hs1|]; by etrans|].
  assert (Hidx : le_encode 2 (u32 (v_usedIdx v + 1)) = le_encode 2 (v_usedIdx v + 1)).
  { apply le_encode_mod. change (256 ^ Z.of_nat 2) with (2 ^ 16). unfold u32.
    change (2 ^ 32) with (2 ^ 16 * 2 ^ 16). rewrite Z.rem_mul_r, (Z.mul_comm (2 ^ 16)), Z_mod_plus_full, Z.mod_mod by lia.
    done. }
  assert (Hsame2 : same_maps s s2) by (by etrans).
  intros o j. rewrite He3, Hidx, He2, He1, !(covers_same s s2), !(covers_same s s1), !(origin_same s s2), !(origin_same s s1) by done.
  change (Z.of_nat 4) with 4. cbv zeta.
  destruct (covers_at s u 2 2 o j) eqn:E1; [by rewrite !(covers_disjoint _ _ _ _ _ _ _ _ E1) by lia|].
  destruct (covers_at s u (4 + slot * 8 + 4) 4 o j) eqn:E2; [by rewrite (covers_disjoint _ _ _ _ _ _ _ _ E2) by lia|done].
Qed.
End Push.
