(* ===== verification/VuBlk.v ===== *)
(** * The virtio-blk device (internal/vhost/vu/blk.go)

    The device turns a popped element into one operation of its storage backend.
    The backend is an interface: [Backend] has the operations of the Go
    interface, [BackendOk] what the device relies on - an array of bytes.  The
    device is proved against the interface; [VuBackends] discharges it for the
    writable images of [internal/cow]. *)

From S2P Require Import Prelude Bytes VuMem VuRing.

(** ** The storage interface *)

Inductive be_error : Type := BE_EOF | BE_Other.

Class Backend (B : Type) := {
  be_ReadAt : Z → Z → B → B * (list Z * option be_error);
  be_WriteAt : list Z → Z → B → B * (Z * option be_error);
  be_Sync : B → B * option be_error;
  be_Size : B → Z;
}.

(** The array of bytes a backend in a good state ([be_inv]) represents.  A read
    returns its bytes or fails after some of them; a write stops after a prefix. *)
Class BackendOk (B : Type) `{Backend B} := {
  be_inv : B → Prop;
  be_byte : B → Z → Z;
  be_room : B → Z → Prop;   (* host space for a write of that many bytes *)
  be_is_byte : ∀ b i, be_inv b → 0 ≤ i < be_Size b → is_byte (be_byte b i);
  be_size_ok : ∀ b, be_inv b → 0 ≤ be_Size b < 2 ^ 62;
  be_read_ok : ∀ b n off, be_inv b → 0 ≤ off → 0 ≤ n → off + n ≤ be_Size b →
    ∃ b' d e, be_ReadAt n off b = (b', (d, e)) ∧ be_inv b' ∧
      be_Size b' = be_Size b ∧ (∀ i, 0 ≤ i < be_Size b → be_byte b' i = be_byte b i) ∧
      (e = None ∧ d = map (be_byte b) (seqZ off n) ∨ e = Some BE_Other ∧ zlen d ≤ n);
  be_write_ok : ∀ b p off, be_inv b → Forall is_byte p → 0 ≤ off → off + zlen p ≤ be_Size b → be_room b (zlen p) →
    ∃ b' n err, be_WriteAt p off b = (b', (n, err)) ∧ be_inv b' ∧ be_Size b' = be_Size b ∧ 0 ≤ n ≤ zlen p ∧
      (err = None → n = zlen p) ∧
      ∀ i, 0 ≤ i < be_Size b →
        be_byte b' i = if (off <=? i) && (i <? off + n) then zget 0 p (i - off) else be_byte b i;
  be_sync_ok : ∀ b, be_inv b → be_inv (be_Sync b).1 ∧ be_Size (be_Sync b).1 = be_Size b ∧
    ∀ i, 0 ≤ i < be_Size b → be_byte (be_Sync b).1 i = be_byte b i;
}.

(** ** Constants *)

Definition blkTIn : Z := 0.
Definition blkTOut : Z := 1.
Definition blkTFlush : Z := 4.
Definition blkTGetID : Z := 8.
Definition blkTBarrier : Z := 0x80000000.
Definition blkSOK : Z := 0.
Definition blkSIOErr : Z := 1.
Definition blkSUnsupp : Z := 2.
Definition blkConfigSize : Z := 60.
Definition blkID : list Z := [112; 118; 109; 45; 118; 117; 98; 108; 107].   (* "pvm-vublk" *)

Definition virtioBlkFSizeMax : Z := 1.
Definition virtioBlkFSegMax : Z := 2.
Definition virtioBlkFBlkSize : Z := 6.
Definition virtioBlkFFlush : Z := 9.
Definition virtioBlkFRo : Z := 5.
Definition virtioFVersion1 : Z := 32.
Definition vhostUserFProtocolFeatures : Z := 30.

(** ** The device *)

Record BlkDev : Type := { d_ro : bool; d_cfg : list Z }.

Definition NewBlkDev {B} `{Backend B} (be : B) (readOnly : bool) : BlkDev :=
  let cfg := replicate 60 0 in
  let cfg := splice cfg 0 (le_encode 8 (u64 (be_Size be) / 512)) in
  let cfg := splice cfg 8 (le_encode 4 65536) in
  let cfg := splice cfg 12 (le_encode 4 126) in
  let cfg := splice cfg 20 (le_encode 4 512) in
  let cfg := splice cfg 26 (le_encode 2 1) in
  let cfg := splice cfg 28 (le_encode 4 1) in
  let cfg := splice cfg 34 (le_encode 2 1) in
  {| d_ro := readOnly; d_cfg := cfg |}.

Definition features (d : BlkDev) : Z :=
  let f := Z.lor (Z.shiftl 1 virtioBlkFSizeMax) (Z.lor (Z.shiftl 1 virtioBlkFSegMax)
          (Z.lor (Z.shiftl 1 virtioBlkFBlkSize) (Z.lor (Z.shiftl 1 virtioBlkFFlush)
          (Z.lor (Z.shiftl 1 vhostUserFProtocolFeatures) (Z.shiftl 1 virtioFVersion1))))) in
  if d_ro d then Z.lor f (Z.shiftl 1 virtioBlkFRo) else f.

Definition config (d : BlkDev) (offset size : Z) : result vu_err (list Z) :=
  if blkConfigSize <? offset + size then Err VConfigRange
  else Ok (zslice (d_cfg d) offset (offset + size)).

(** *** Bounce buffers: a pool of power-of-two buckets

    A pooled buffer is its capacity; [getBuf] returns the length and capacity of
    the buffer it hands out.  [sync.Pool] may drop buffers at any time, so the
    model lets the pool lose any of them. *)
Definition bufPoolMinSize : Z := 512.
Definition bufPoolBuckets : Z := 8.

Fixpoint bucket_loop (fuel : nat) (c b size : Z) : Z :=
  match fuel with
  | O => b
  | S fuel => if (c <? size) && (b <? bufPoolBuckets - 1) then bucket_loop fuel (Z.shiftl c 1) (b + 1) size else b
  end.
Definition bufBucket (size : Z) : Z := bucket_loop 8 bufPoolMinSize 0 size.

Definition pools : Type := list (list Z).

Definition getBuf (n : Z) (ps : pools) : pools * result vu_err (Z * Z) :=
  if Z.shiftl bufPoolMinSize (bufPoolBuckets - 1) <? n then (ps, Ok (n, n)) else
  let b := bufBucket n in
  match zget [] ps b with
  | c :: rest => (zset ps b rest, if n <=? c then Ok (n, c) else Err VPanic)
  | [] => (ps, Ok (n, Z.shiftl bufPoolMinSize b))
  end.

Definition putBuf (cap : Z) (ps : pools) : pools :=
  let b := bufBucket cap in
  if (b <? 0) || (bufPoolBuckets <=? b) || negb (cap =? Z.shiftl bufPoolMinSize b) then ps
  else zset ps b (cap :: zget [] ps b).

(** *** Requests *)

Definition sgLen (sg : list slice) : Z := fold_left (λ n b, n + sl_len b) sg 0.

Definition inRange {B} `{Backend B} (be : B) (sector length : Z) : bool :=
  if (MaxUint64 / 512 <? sector) || (length <? 0) then false else
  let off := u64 (sector * 512) in
  if MaxUint64 - off <? u64 length then false else
  u64 (off + u64 length) <=? u64 (be_Size be).

Section Device.
Context `{Host} {B : Type} `{Backend B}.

(** [sgGatherInto]: [dst] is what the destination holds so far. *)
Fixpoint sgGather_loop (sg : list slice) (off : Z) (dst : list Z) : method sys vu_err (list Z) :=
  match sg with
  | [] => gret dst
  | b :: sg =>
      do* d <- ld b;
      let n := Z.min (zlen d) (zlen dst - off) in
      sgGather_loop sg (off + n) (splice dst off (take (Z.to_nat n) d))
  end.
Definition sgGatherInto (sg : list slice) (dst : list Z) : method sys vu_err (list Z) := sgGather_loop sg 0 dst.

Fixpoint sgCopy (sg : list slice) (data : list Z) : method sys vu_err unit :=
  match sg with
  | [] => gret tt
  | b :: sg =>
      if zlen data =? 0 then gret tt else
      let n := Z.min (sl_len b) (zlen data) in
      do* _ <- st b (take (Z.to_nat n) data);
      sgCopy sg (drop (Z.to_nat n) data)
  end.

(** What a recycled bounce buffer holds. *)
Definition stale_buf (stale : Z → Z) (n : Z) : list Z := map stale (seqZ 0 n).

(** One request: status and used length. *)
Definition execute (d : BlkDev) (stale : Z → Z) (typ sector : Z) (dataIn dataOut : list slice)
    : method (B * sys) vu_err (Z * Z) := λ '(be, s),
  let t := Z.ldiff typ blkTBarrier in
  if t =? blkTIn then
    let n := sgLen dataIn in
    if negb (inRange be sector n) then ((be, s), Ok (blkSIOErr, 1)) else
    match be_ReadAt n (int64 (int64 sector * 512)) be with
    | (be, (data, Some BE_Other)) => ((be, s), Ok (blkSIOErr, u32 (u32 (zlen data) + 1)))
    | (be, (data, _)) =>
        match sgCopy dataIn data s with
        | (s, Err e) => ((be, s), Err e)
        | (s, Ok _) => ((be, s), Ok (blkSOK, u32 (u32 (zlen data) + 1)))
        end
    end
  else if t =? blkTOut then
    let n := sgLen dataOut in
    if d_ro d || negb (inRange be sector n) then ((be, s), Ok (blkSIOErr, 1)) else
    match sgGatherInto dataOut (stale_buf stale n) s with
    | (s, Err e) => ((be, s), Err e)
    | (s, Ok buf) =>
        let '(be, (_, err)) := be_WriteAt buf (int64 (int64 sector * 512)) be in
        ((be, s), Ok (match err with Some _ => blkSIOErr | None => blkSOK end, 1))
    end
  else if t =? blkTFlush then
    let '(be, err) := be_Sync be in
    ((be, s), Ok (match err with Some _ => blkSIOErr | None => blkSOK end, 1))
  else if t =? blkTGetID then
    let n := Z.min (sgLen dataIn) 20 in
    match sgCopy dataIn (take (Z.to_nat n) blkID) s with
    | (s, Err e) => ((be, s), Err e)
    | (s, Ok _) => ((be, s), Ok (blkSOK, u32 (u32 n + 1)))
    end
  else ((be, s), Ok (blkSUnsupp, 1)).

(** The request header. *)
Definition read_header (out : slice) : method sys vu_err (Z * Z) :=
  do* typ <- rd 4 out 0; do* _ <- rd 4 out 4; do* sector <- rd 8 out 8; gret (typ, sector).

(** [process]: decode the header, execute, store the status byte. *)
Definition process (d : BlkDev) (stale : Z → Z) (e : elem) : method (B * sys) vu_err Z := λ '(be, s),
  match e_outSG e, list.last (e_inSG e) with
  | out :: dataOut, Some statusBuf =>
      if sl_len out <? 16 then ((be, s), Err VShortOutHdr) else
      match read_header out s with
      | (s, Err e) => ((be, s), Err e)
      | (s, Ok (typ, sector)) =>
          if sl_len statusBuf <? 1 then ((be, s), Err VShortInHdr) else
          match execute d stale typ sector (removelast (e_inSG e)) dataOut (be, s) with
          | (bs, Err e) => (bs, Err e)
          | ((be, s), Ok (status, usedLen)) =>
              match wr 1 statusBuf 0 status s with
              | (s, Err e) => ((be, s), Err e)
              | (s, Ok _) => ((be, s), Ok usedLen)
              end
          end
      end
  | _, _ => ((be, s), Err VMissingHeaders)
  end.
End Device.

(** ** The buffer pool *)

Lemma bucket_loop_spec fuel : ∀ b n,
  n ≤ 65536 → 0 ≤ b ≤ 7 → 7 ≤ b + Z.of_nat fuel → (0 < b → 512 * 2 ^ (b - 1) < n) →
  let r := bucket_loop fuel (512 * 2 ^ b) b n in
  b ≤ r ≤ 7 ∧ n ≤ 512 * 2 ^ r ∧ (0 < r → 512 * 2 ^ (r - 1) < n).
Proof.
  induction fuel as [|fuel IH]; intros b n Hn Hb Hf Hlow; cbn [bucket_loop].
  - assert (b = 7) as -> by lia. split_and!; [lia|lia|lia|done].
  - unfold bufPoolBuckets. destruct (Z.ltb_spec (512 * 2 ^ b) n), (Z.ltb_spec b (8 - 1)); simpl.
    + rewrite Z.shiftl_mul_pow2, <- Z.mul_assoc, <- Z.pow_add_r by lia.
      destruct (IH (b + 1) n) as (H1 & H2 & H3); try lia; replace (b + 1 - 1) with b in * by lia; lia.
    + assert (b = 7) as -> by lia. lia.
    + split_and!; try done; lia.
    + split_and!; try done; lia.
Qed.

Lemma bufBucket_spec n :
  n ≤ 65536 → 0 ≤ bufBucket n < 8 ∧ n ≤ Z.shiftl bufPoolMinSize (bufBucket n) ∧
  (0 < bufBucket n → Z.shiftl bufPoolMinSize (bufBucket n - 1) < n).
Proof.
  intros Hn. destruct (bucket_loop_spec 8 0 n) as (H1 & H2 & H3); try lia. fold (bufBucket n) in *.
  change (bucket_loop 8 (512 * 2 ^ 0) 0 n) with (bufBucket n) in *.
  split_and!; [lia|lia|rewrite Z.shiftl_mul_pow2 by lia; exact H2|].
  intros Hr. rewrite Z.shiftl_mul_pow2 by lia. by apply H3.
Qed.

(** Every buffer of bucket [b] has the bucket's capacity. *)
Definition pools_ok (ps : pools) : Prop :=
  zlen ps = bufPoolBuckets ∧ ∀ b, 0 ≤ b < bufPoolBuckets → Forall (λ c, c = Z.shiftl bufPoolMinSize b) (zget [] ps b).

Lemma pools_set ps b l :
  pools_ok ps → 0 ≤ b < bufPoolBuckets → Forall (λ c, c = Z.shiftl bufPoolMinSize b) l → pools_ok (zset ps b l).
Proof.
  intros [Hlen Hps] Hb Hl. split; [by rewrite zlen_zset|]. intros b' Hb'.
  rewrite zget_zset by (rewrite ?Hlen; lia). destruct (Z.eqb_spec b' b) as [->|]; [done|by apply Hps].
Qed.

Lemma getBuf_ok n ps :
  pools_ok ps → 0 ≤ n →
  ∃ ps' cap, getBuf n ps = (ps', Ok (n, cap)) ∧ pools_ok ps' ∧ n ≤ cap ∧
    (n ≤ 65536 → cap = Z.shiftl bufPoolMinSize (bufBucket n)).
Proof.
  intros Hps Hn. unfold getBuf. change (Z.shiftl bufPoolMinSize (bufPoolBuckets - 1)) with 65536.
  destruct (Z.ltb_spec 65536 n); [exists ps, n; split_and!; try done; lia|].
  destruct (bufBucket_spec n) as (Hb & Hc & _); [done|].
  pose proof (proj2 Hps _ Hb) as Hl. destruct (zget [] ps (bufBucket n)) as [|c rest] eqn:E.
  - eexists ps, _. split_and!; [done|done|done|done].
  - inversion Hl as [|? ? -> Hrest]; subst. destruct (Z.leb_spec n (Z.shiftl bufPoolMinSize (bufBucket n))); [|lia].
    eexists _, _. split_and!; [done|by apply pools_set|done|done].
Qed.

Lemma putBuf_ok cap ps : pools_ok ps → pools_ok (putBuf cap ps).
Proof.
  intros Hps. unfold putBuf. destruct (Z.ltb_spec (bufBucket cap) 0); [done|]. simpl.
  destruct (Z.leb_spec bufPoolBuckets (bufBucket cap)); [done|]. simpl.
  destruct (Z.eqb_spec cap (Z.shiftl bufPoolMinSize (bufBucket cap))) as [Hc|]; simpl; [|done].
  apply pools_set; [done|lia|]. constructor; [done|]. apply (proj2 Hps). lia.
Qed.

(** ** Scatter-gather lists *)

Lemma sgLen_acc sg n : fold_left (λ n b, n + sl_len b) sg n = n + sgLen sg.
Proof.
  revert n. induction sg as [|b sg IH]; intros n; unfold sgLen; simpl; [lia|]. rewrite !IH. lia.
Qed.
Lemma sgLen_cons b sg : sgLen (b :: sg) = sl_len b + sgLen sg.
Proof. unfold sgLen at 1. simpl. rewrite sgLen_acc. lia. Qed.
Lemma sgLen_nonneg s sg : Forall (mapped s) sg → 0 ≤ sgLen sg.
Proof.
  induction 1 as [|b sg Hb _ IH]; [done|]. rewrite sgLen_cons. destruct Hb as (_ & ? & _). lia.
Qed.
Lemma sgLen_app sg sg' : sgLen (sg ++ sg') = sgLen sg + sgLen sg'.
Proof. induction sg as [|b sg IH]; [done|]. rewrite <- app_comm_cons, !sgLen_cons, IH. lia. Qed.

(** What a list of slices holds. *)
Definition sg_contents (s : sys) (sg : list slice) : list Z := concat (map (contents s) sg).

Lemma zlen_contents s sl : 0 ≤ sl_len sl → zlen (contents s sl) = sl_len sl.
Proof. intros. unfold contents. by rewrite zlen_map, zlen_seqZ. Qed.

Lemma zlen_sg_contents s sg : Forall (mapped s) sg → zlen (sg_contents s sg) = sgLen sg.
Proof.
  induction 1 as [|b sg Hb _ IH]; [done|]. unfold sg_contents in *. cbn [map concat].
  destruct Hb as (_ & ? & _). rewrite zlen_app, zlen_contents, IH, sgLen_cons by lia. done.
Qed.

#[global] Instance contents_proper : Proper (same_mem ==> eq ==> eq) contents.
Proof. intros s s' (Ho & Hm & _) sl ? <-. unfold contents, gbyte, origin. by rewrite Ho, Hm. Qed.

#[global] Instance sg_contents_proper : Proper (same_mem ==> eq ==> eq) sg_contents.
Proof.
  intros s s' Hs sg ? <-. unfold sg_contents. f_equal. apply map_ext. intros sl. by rewrite Hs.
Qed.

Lemma same_maps_Forall s s' sg : same_maps s s' → Forall (mapped s) sg → Forall (mapped s') sg.
Proof. intros Hs. apply Forall_impl. intros sl. by apply mapped_same. Qed.

Lemma splice_prefix dst off d :
  0 ≤ off → off + zlen d ≤ zlen dst → take (Z.to_nat (off + zlen d)) (splice dst off d) = take (Z.to_nat off) dst ++ d.
Proof.
  intros Ho Hl. unfold splice. rewrite app_assoc, take_app_length'; [done|].
  rewrite length_app, length_take. unfold zlen in *. lia.
Qed.

Section Gather.
Context `{HostOk}.

(** Whatever the guest does meanwhile, the gather fills the buffer with bytes. *)
Lemma sgGather_safe sg : ∀ s off dst,
  Forall (mapped s) sg → 0 ≤ off → off + sgLen sg = zlen dst → Forall is_byte (take (Z.to_nat off) dst) →
  ∃ s' out, sgGather_loop sg off dst s = (s', Ok out) ∧ same_maps s s' ∧ zlen out = zlen dst ∧ Forall is_byte out.
Proof.
  induction sg as [|b sg IH]; intros s off dst Hsg Hoff Hlen Hb; cbn [sgGather_loop].
  - exists s, dst. split; [done|]. split; [done|]. split; [done|]. change (sgLen []) with 0 in Hlen.
    by rewrite take_ge in Hb by (unfold zlen in *; lia).
  - inversion Hsg as [|? ? Hmb Hsg']; subst. rewrite sgLen_cons in Hlen. pose proof (sgLen_nonneg s sg Hsg').
    assert (Hmt : mapped (turn s) b) by (eapply mapped_same; [apply turn_same|done]).
    destruct (load_mapped _ _ Hmt) as (d & Hd & Hdl & Hdb). unfold ld, gbind. rewrite Hd.
    assert (0 ≤ sl_len b) by (destruct Hmb as (_ & ? & _); lia).
    rewrite Z.min_l by lia. rewrite (take_ge d) by (unfold zlen; lia).
    destruct (IH (turn s) (off + zlen d) (splice dst off d)) as (s' & out & Hr & Hs & Hl & Hob).
    + by eapply same_maps_Forall; [apply turn_same|].
    + pose proof (zlen_nonneg d). lia.
    + rewrite zlen_splice by lia. lia.
    + rewrite splice_prefix by lia. by apply Forall_app.
    + rewrite zlen_splice in Hl by lia. exists s', out. split; [done|]. split; [|done]. by etrans; [apply turn_same|].
Qed.

(** With the guest at rest it is the concatenation of the slices: nothing of the
    recycled buffer is left. *)
Lemma sgGather_quiet (Q : quiet) sg : ∀ s off dst,
  Forall (mapped s) sg → 0 ≤ off → off + sgLen sg = zlen dst →
  ∃ s', sgGather_loop sg off dst s = (s', Ok (take (Z.to_nat off) dst ++ sg_contents s sg)) ∧ same_mem s s'.
Proof.
  induction sg as [|b sg IH]; intros s off dst Hsg Hoff Hlen; cbn [sgGather_loop].
  - exists s. change (sgLen []) with 0 in Hlen. unfold sg_contents. simpl. rewrite app_nil_r.
    by rewrite take_ge by (unfold zlen in *; lia).
  - inversion Hsg as [|? ? Hmb Hsg']; subst. rewrite sgLen_cons in Hlen. pose proof (sgLen_nonneg s sg Hsg').
    pose proof (turn_quiet Q s) as Ht.
    assert (Hmt : mapped (turn s) b) by (by eapply mapped_same; [apply same_mem_maps|]).
    assert (0 ≤ sl_len b) by (destruct Hmb as (_ & ? & _); lia).
    unfold ld, gbind. rewrite (load_contents _ _ Hmt). pose proof (zlen_contents (turn s) b ltac:(lia)) as Hc.
    rewrite Hc, Z.min_l by lia. rewrite (take_ge (contents _ _)) by (unfold zlen in Hc; lia). rewrite <- Hc.
    destruct (IH (turn s) (off + zlen (contents (turn s) b)) (splice dst off (contents (turn s) b))) as (s' & Hr & Hs).
    + by eapply same_maps_Forall; [apply same_mem_maps|].
    + lia.
    + rewrite zlen_splice by lia. lia.
    + exists s'. split; [|by etrans]. rewrite Hr, splice_prefix, <- app_assoc by lia. do 2 f_equal. f_equal.
      unfold sg_contents at 2. cbn [map concat]. by rewrite <- Ht.
Qed.
End Gather.
