(* ===== verification/VuBlkSpec.v ===== *)
(** * The device as an abstract disk

    Safety of [process] under any guest, and its refinement of an abstract block
    device when the guest is at rest. *)

From S2P Require Import Prelude Bytes VuMem VuRing VuQueue VuBlk.

(** ** Slices that do not overlap *)

Definition apart (s : sys) (a b : slice) : Prop :=
  (origin s a).1 ≠ (origin s b).1 ∨ (origin s a).2 + sl_len a ≤ (origin s b).2 ∨
  (origin s b).2 + sl_len b ≤ (origin s a).2.

Fixpoint pairwise (s : sys) (sg : list slice) : Prop :=
  match sg with [] => True | a :: sg => Forall (apart s a) sg ∧ pairwise s sg end.

Lemma apart_same s s' a b : same_maps s s' → apart s a b → apart s' a b.
Proof. intros Hs. unfold apart. by rewrite !(origin_same s s'). Qed.
Lemma pairwise_same s s' sg : same_maps s s' → pairwise s sg → pairwise s' sg.
Proof.
  intros Hs. induction sg as [|a sg IH]; [done|]. intros [Ha Hp]. split; [|by apply IH].
  eapply Forall_impl; [|exact Ha]. intros b. by apply apart_same.
Qed.

Lemma pairwise_app s sg sg' :
  pairwise s (sg ++ sg') → pairwise s sg ∧ pairwise s sg' ∧ Forall (λ a, Forall (apart s a) sg') sg.
Proof.
  induction sg as [|a sg IH]; [done|]. intros [Ha Hp]. apply Forall_app in Ha as [Ha Hb].
  destruct (IH Hp) as (H1 & H2 & H3). split_and!; try done. by constructor.
Qed.

(** No slice of [sg] holds the byte [(o, j)]. *)
Definition outside (s : sys) (sg : list slice) (o j : Z) : Prop :=
  Forall (λ sl, covers_at s sl 0 (sl_len sl) o j = false) sg.

Lemma outside_same s s' sg o j : same_maps s s' → outside s sg o j → outside s' sg o j.
Proof. intros Hs. apply Forall_impl. intros sl. by rewrite (covers_same s s'). Qed.

Lemma apart_outside s a b j :
  apart s a b → 0 ≤ j < sl_len b → covers_at s a 0 (sl_len a) (origin s b).1 ((origin s b).2 + j) = false.
Proof.
  unfold apart, covers_at. intros Ha Hj. destruct (Z.eqb_spec (origin s b).1 (origin s a).1) as [E|]; [|done].
  destruct Ha as [Ha|Ha]; [congruence|]. simpl. apply andb_false_iff. rewrite Z.leb_gt, Z.ltb_ge. lia.
Qed.

Lemma covers_shrink s a n m o j : n ≤ m → covers_at s a 0 m o j = false → covers_at s a 0 n o j = false.
Proof.
  unfold covers_at. intros Hn. destruct (o =? _); [|done]. simpl. rewrite !andb_false_iff, !Z.leb_gt, !Z.ltb_ge. lia.
Qed.

Lemma contents_ext s s' sl :
  same_maps s s' → 0 ≤ sl_len sl →
  (∀ j, 0 ≤ j < sl_len sl → gbyte s' (origin s sl).1 ((origin s sl).2 + j) = gbyte s (origin s sl).1 ((origin s sl).2 + j)) →
  contents s' sl = contents s sl.
Proof.
  intros Hs Hl Hb. unfold contents. rewrite (origin_same s s') by done. apply map_ext_in. intros j Hj.
  apply list_elem_of_In, elem_of_seqZ in Hj. apply Hb. lia.
Qed.

Section Stores.
Context `{HostOk} (Q : quiet).

Lemma st_quiet sl d s :
  mapped s sl → zlen d ≤ sl_len sl → Forall is_byte d →
  ∃ s', st sl d s = (s', Ok tt) ∧ same_maps s s' ∧
    ∀ o j, gbyte s' o j = if covers_at s sl 0 (zlen d) o j then zget 0 d (j - (origin s sl).2) else gbyte s o j.
Proof.
  intros Hm Hl Hd. pose proof (turn_quiet Q s) as (To & Tm & _).
  assert (Hmt : mapped (turn s) sl) by (eapply mapped_same; [apply turn_same|done]).
  assert (zlen d ≤ sl_cap sl) by (destruct Hm as (_ & ? & _); lia).
  unfold st. destruct (store_mapped (turn s) sl d Hmt) as (s' & Hst & Hs'); [done|done|].
  rewrite Hst. exists s'. split; [done|]. split; [etrans; [apply turn_same|done]|].
  destruct (store_effect (turn s) sl d s' Hmt) as [_ He]; [done|done|].
  intros o j. rewrite He. unfold covers_at, origin, gbyte. rewrite To, Tm. by rewrite Z.add_0_r.
Qed.

(** [sgCopy] fills the slices in order and touches nothing else. *)
Lemma sgCopy_quiet sg : ∀ data s,
  Forall (mapped s) sg → pairwise s sg → Forall is_byte data → zlen data ≤ sgLen sg →
  ∃ s', sgCopy sg data s = (s', Ok tt) ∧ same_maps s s' ∧
    take (length data) (sg_contents s' sg) = data ∧
    ∀ o j, outside s sg o j → gbyte s' o j = gbyte s o j.
Proof.
  induction sg as [|b sg IH]; intros data s Hsg Hp Hd Hl; cbn [sgCopy].
  { exists s. assert (data = []) as -> by (destruct data; [done|]; rewrite zlen_cons in Hl; change (sgLen []) with 0 in Hl; pose proof (zlen_nonneg data); lia).
    done. }
  inversion Hsg as [|? ? Hmb Hsg']; subst. destruct Hp as [Ha Hp]. rewrite sgLen_cons in Hl.
  assert (0 ≤ sl_len b) by (destruct Hmb as (_ & ? & _); lia).
  destruct (Z.eqb_spec (zlen data) 0) as [Hz|Hz]; [exists s; by destruct data|].
  set (n := Z.min (sl_len b) (zlen data)). pose proof (zlen_nonneg data).
  assert (Hn : zlen (take (Z.to_nat n) data) = n) by (unfold zlen in *; rewrite length_take; lia).
  destruct (st_quiet b (take (Z.to_nat n) data) s Hmb) as (s1 & Hst & Hs1 & He1); [lia|by apply Forall_take|].
  rewrite (gbind_run _ _ _ _ _ Hst).
  destruct (IH (drop (Z.to_nat n) data) s1) as (s2 & Hr & Hs2 & Hc & Hfr).
  { by eapply same_maps_Forall. } { by eapply pairwise_same. } { by apply Forall_drop. }
  { pose proof (sgLen_nonneg s sg Hsg'). unfold zlen in *. rewrite length_drop. lia. }
  exists s2. split; [done|]. split; [by etrans|].
  (* the first slice keeps what was stored into it *)
  assert (Hb2 : contents s2 b = contents s1 b).
  { apply contents_ext; [done|done|]. intros j Hj. apply Hfr. apply Forall_forall. intros b' Hb'.
    rewrite (origin_same s s1), (covers_same s s1) by done. rewrite Forall_forall in Ha.
    apply apart_outside; [|done]. apply Ha in Hb'. unfold apart in *. destruct Hb' as [|[|]]; auto. }
  assert (Hb1 : take (Z.to_nat n) (contents s1 b) = take (Z.to_nat n) data).
  { assert (zlen (contents s1 b) = sl_len b) by (by apply zlen_contents).
    apply (zget_eq 0); [unfold zlen in *; rewrite !length_take; lia|]. intros j Hj.
    assert (Hj' : 0 ≤ j < n) by (unfold zlen in *; rewrite length_take in Hj; lia).
    assert (Htk : ∀ l : list Z, zget 0 (take (Z.to_nat n) l) j = zget 0 l j).
    { intros l. unfold zget. destruct (Z.ltb_spec j 0); [done|]. by rewrite !nth_lookup, lookup_take_lt by lia. }
    rewrite !Htk. unfold contents. rewrite (zget_map 0), zget_seqZ by (rewrite ?zlen_seqZ; lia).
    rewrite He1, (origin_same s s1), Hn, <- (Htk data) by done. unfold covers_at. rewrite Z.eqb_refl. simpl.
    destruct (Z.leb_spec ((origin s b).2 + 0) ((origin s b).2 + (0 + j))), (Z.ltb_spec ((origin s b).2 + (0 + j)) ((origin s b).2 + 0 + n)); try lia.
    simpl. f_equal. lia. }
  split.
  - unfold sg_contents in *. cbn [map concat]. rewrite Hb2.
    assert (Hlb : length (contents s1 b) = Z.to_nat (sl_len b)) by (pose proof (zlen_contents s1 b); unfold zlen in *; lia).
    destruct (decide (zlen data ≤ sl_len b)) as [Hle|Hgt].
    + rewrite take_app_le by (unfold zlen in *; lia). unfold n in Hb1. rewrite Z.min_r in Hb1 by lia.
      unfold zlen in Hb1. rewrite Nat2Z.id in Hb1. by rewrite Hb1, take_ge.
    + rewrite take_app_ge, Hlb by (unfold zlen in *; lia). unfold n in *. rewrite Z.min_l in * by lia.
      rewrite (take_ge (contents s1 b)) in Hb1 by lia. rewrite length_drop in Hc. rewrite Hb1, Hc. apply take_drop.
  - intros o j Ho. inversion Ho as [|? ? Hb Ho']; subst. rewrite Hfr by (by eapply outside_same).
    rewrite He1, Hn. rewrite (covers_shrink s b n (sl_len b)); [done|lia|done].
Qed.
End Stores.

(** ** Safety *)

Lemma Forall_removelast {A} (P : A → Prop) l : Forall P l → Forall P (removelast l).
Proof.
  induction 1 as [|x l Hx Hl IH]; [done|]. simpl. destruct l as [|y l]; [constructor|by constructor].
Qed.

Lemma last_split {A} (l : list A) x : list.last l = Some x → l = removelast l ++ [x].
Proof.
  intros Hl. apply last_Some in Hl as [l' ->]. by rewrite removelast_last.
Qed.

(** The part of the element [process] relies on. *)
Definition elem_ok (s : sys) (e : elem) : Prop := Forall (mapped s) (e_outSG e ++ e_inSG e).

(** Two backend states represent the same disk, except in [[lo, hi)]. *)
Definition disk_same_but {B} `{BackendOk B} (b b' : B) (lo hi : Z) : Prop :=
  be_Size b' = be_Size b ∧ ∀ i, 0 ≤ i < be_Size b → i < lo ∨ hi ≤ i → be_byte b' i = be_byte b i.

Section DeviceSafety.
Context `{HostOk} {B : Type} `{BackendOk B}.

Lemma sgCopy_safe sg : ∀ data s,
  Forall (mapped s) sg → Forall is_byte data →
  ∃ s', sgCopy sg data s = (s', Ok tt) ∧ same_maps s s'.
Proof.
  induction sg as [|b sg IH]; intros data s Hsg Hd; cbn [sgCopy]; [by exists s|].
  case_if; [by exists s|]. inversion Hsg as [|? ? Hmb Hsg']; subst.
  set (n := Z.min (sl_len b) (zlen data)).
  destruct (st_mapped b (take (Z.to_nat n) data) s Hmb) as (s1 & Hst & Hs1).
  { pose proof (zlen_nonneg data). unfold zlen in *. rewrite length_take. destruct Hmb as (_ & ? & _). lia. }
  { by apply Forall_take. }
  rewrite (gbind_run _ _ _ _ _ Hst).
  destruct (IH (drop (Z.to_nat n) data) s1) as (s2 & -> & Hs2); [by eapply same_maps_Forall|by apply Forall_drop|].
  exists s2. split; [done|]. by etrans.
Qed.

(** The 64-bit checks of [inRange] say what they mean. *)
Lemma inRange_spec be sector n :
  be_inv be → 0 ≤ sector < 2 ^ 64 → 0 ≤ n < 2 ^ 63 →
  inRange be sector n = true ↔ sector * 512 + n ≤ be_Size be.
Proof.
  intros Hb Hs Hn. pose proof (be_size_ok be Hb) as Hsz. unfold inRange, MaxUint64.
  change ((2 ^ 64 - 1) / 512) with 36028797018963967.
  destruct (Z.ltb_spec 36028797018963967 sector) as [Hbig|Hbig]; simpl; [split; [done|lia]|].
  destruct (Z.ltb_spec n 0); [lia|]. rewrite (u64_id n), (u64_id (sector * 512)) by lia.
  destruct (Z.ltb_spec (2 ^ 64 - 1 - sector * 512) n); [split; [done|lia]|].
  rewrite (u64_id (sector * 512 + n)), (u64_id (be_Size be)) by lia. apply Z.leb_le.
Qed.

Lemma int64_sector be sector n :
  be_inv be → 0 ≤ sector → 0 ≤ n → sector * 512 + n ≤ be_Size be → int64 (int64 sector * 512) = sector * 512.
Proof. intros Hb ? ? ?. pose proof (be_size_ok be Hb). rewrite (int64_id sector), int64_id by lia. done. Qed.

Lemma map_bytes be off n :
  be_inv be → 0 ≤ off → off + n ≤ be_Size be → Forall is_byte (map (be_byte be) (seqZ off n)).
Proof.
  intros Hb Ho Hn. apply Forall_forall. intros x Hx. apply in_map_iff in Hx as (i & <- & Hi).
  apply list_elem_of_In, elem_of_seqZ in Hi. apply be_is_byte; [done|lia].
Qed.

Definition room (be : B) (e : elem) : Prop := be_room be (sgLen (tail (e_outSG e))).

Lemma execute_safe d stale typ sector dataIn dataOut be s :
  be_inv be → Forall (mapped s) dataIn → Forall (mapped s) dataOut → 0 ≤ sector < 2 ^ 64 →
  sgLen dataIn < 2 ^ 62 → sgLen dataOut < 2 ^ 62 → be_room be (sgLen dataOut) →
  ∃ be' s' status used, execute d stale typ sector dataIn dataOut (be, s) = ((be', s'), Ok (status, used)) ∧
    be_inv be' ∧ same_maps s s' ∧ is_byte status ∧
    disk_same_but be be' (sector * 512) (if d_ro d then 0 else sector * 512 + sgLen dataOut).
Proof.
  intros Hb Hin Hout Hsec Hni Hno Hroom. pose proof (sgLen_nonneg s _ Hin). pose proof (sgLen_nonneg s _ Hout).
  assert (Hrefl : ∀ lo hi, disk_same_but be be lo hi) by done. unfold execute. case_if; [|case_if; [|case_if; [|case_if]]].
  - destruct (inRange be sector (sgLen dataIn)) eqn:Er; simpl; [|by eexists be, s, _, _].
    apply inRange_spec in Er; [|done|lia|lia]. rewrite (int64_sector be _ (sgLen dataIn)) by (done || lia).
    destruct (be_read_ok be (sgLen dataIn) (sector * 512) Hb) as (be' & dt & er & -> & Hb' & Hsz & Hby & [[-> ->]|[-> _]]); [lia..| |].
    2: { eexists be', s, _, _. split_and!; try done. split; [done|]. auto. }
    destruct (sgCopy_safe dataIn (map (be_byte be) (seqZ (sector * 512) (sgLen dataIn))) s Hin) as (s' & -> & Hs').
    { by apply map_bytes; [|lia|]. }
    eexists be', s', _, _. split_and!; try done. split; [done|]. auto.
  - destruct (d_ro d) eqn:Ero; simpl; [by eexists be, s, _, _|].
    destruct (inRange be sector (sgLen dataOut)) eqn:Er; simpl; [|by eexists be, s, _, _].
    apply inRange_spec in Er; [|done|lia|lia]. rewrite (int64_sector be _ (sgLen dataOut)) by (done || lia).
    assert (Hst : zlen (stale_buf stale (sgLen dataOut)) = sgLen dataOut).
    { unfold stale_buf. by rewrite zlen_map, zlen_seqZ. }
    destruct (sgGather_safe dataOut s 0 (stale_buf stale (sgLen dataOut))) as (s' & buf & Hg & Hs' & Hlen & Hbuf); try done.
    unfold sgGatherInto. rewrite Hg. rewrite Hst in Hlen.
    destruct (be_write_ok be buf (sector * 512) Hb Hbuf) as (be' & n & err & -> & Hb' & Hsz & Hn & _ & Hby); try (rewrite ?Hlen; done || lia).
    eexists be', s', _, _. split_and!; try done; [by destruct err|].
    split; [done|]. intros i Hi Hout'. rewrite Hby by done.
    destruct (Z.leb_spec (sector * 512) i), (Z.ltb_spec i (sector * 512 + n)); simpl; done || lia.
  - destruct (be_sync_ok be Hb) as (Hb' & Hsz & Hby). destruct (be_Sync be) as [be' err]. simpl in *.
    eexists be', s, _, _. split_and!; try done; [by destruct err|]. split; [done|]. auto.
  - destruct (sgCopy_safe dataIn (take (Z.to_nat (Z.min (sgLen dataIn) 20)) blkID) s Hin) as (s' & -> & Hs').
    { apply Forall_take. unfold blkID. repeat (constructor; [unfold is_byte; lia|]). constructor. }
    eexists be, s', _, _. split_and!; try done.
  - by eexists be, s, _, _.
Qed.

Lemma read_header_ok out s :
  mapped s out → 16 ≤ sl_len out →
  ∃ s' typ sector, read_header out s = (s', Ok (typ, sector)) ∧ same_maps s s' ∧ 0 ≤ sector < 2 ^ 64.
Proof.
  intros Hm Hl. unfold read_header. pose proof (turn_same s) as T1. pose proof (turn_same (turn s)) as T2.
  assert (Hm1 : mapped (turn s) out) by (by eapply mapped_same).
  assert (Hm2 : mapped (turn (turn s)) out) by (by eapply mapped_same, Hm1).
  destruct (rd_mapped 4 out 0 s) as (x & Hx & _); try done; try lia. rewrite (gbind_run _ _ _ _ _ Hx).
  destruct (rd_mapped 4 out 4 (turn s)) as (y & Hy & _); try done; try lia. rewrite (gbind_run _ _ _ _ _ Hy).
  destruct (rd_mapped 8 out 8 (turn (turn s))) as (z & Hz & Hzr); try done; try lia. rewrite (gbind_run _ _ _ _ _ Hz).
  eexists _, x, z. split; [done|]. split; [|done]. etrans; [exact T1|]. etrans; [exact T2|apply turn_same].
Qed.

(** [process] on a translated element, whatever the guest does meanwhile. *)
Lemma process_safe d stale e be s :
  be_inv be → elem_ok s e → sgLen (e_outSG e ++ e_inSG e) < 2 ^ 62 → room be e →
  ∃ be' s' r, process d stale e (be, s) = ((be', s'), r) ∧ be_inv be' ∧ same_maps s s' ∧
    be_Size be' = be_Size be ∧ (d_ro d = true → ∀ i, 0 ≤ i < be_Size be → be_byte be' i = be_byte be i) ∧
    match r with
    | Ok _ => True
    | Err err => err = VMissingHeaders ∨ err = VShortOutHdr ∨ err = VShortInHdr
    end.
Proof.
  intros Hb He Hlen Hroom. unfold process, elem_ok, room in *. apply Forall_app in He as [Ho Hi].
  destruct (e_outSG e) as [|out dataOut]; [eexists be, s, _; split_and!; try done; simpl; auto|].
  destruct (list.last (e_inSG e)) as [sb|] eqn:El; [|eexists be, s, _; split_and!; try done; simpl; auto].
  destruct (Z.ltb_spec (sl_len out) 16) as [Hl|Hl]; [eexists be, s, _; split_and!; try done; simpl; auto|].
  inversion Ho as [|? ? Hmo Hmd]; subst. pose proof (last_split _ _ El) as Hsplit.
  destruct (read_header_ok out s Hmo Hl) as (s1 & typ & sector & -> & Hs1 & Hres).
  destruct (Z.ltb_spec (sl_len sb) 1) as [Hsb|Hsb]; [eexists be, s1, _; split_and!; try done; simpl; auto|].
  rewrite Hsplit in Hi, Hlen. apply Forall_app in Hi as [Hdi Hsbm]. apply Forall_inv in Hsbm.
  rewrite sgLen_app, sgLen_cons, sgLen_app in Hlen. rewrite (sgLen_cons sb []) in Hlen. change (sgLen []) with 0 in Hlen.
  pose proof (sgLen_nonneg s _ Hmd). pose proof (sgLen_nonneg s _ Hdi).
  destruct (execute_safe d stale typ sector (removelast (e_inSG e)) dataOut be s1) as (be' & s2 & status & used & -> & Hb' & Hs2 & Hst & Hdisk & Hby);
    [done|by eapply same_maps_Forall|by eapply same_maps_Forall|done|lia|lia|done|].
  assert (Hm2 : mapped s2 sb) by (eapply mapped_same; [exact Hs2|]; eapply mapped_same; [exact Hs1|done]).
  destruct (wr_mapped 1 sb 0 status s2 Hm2) as (s3 & -> & Hs3); [lia|lia|].
  eexists be', s3, _. split_and!; try done; [etrans; [exact Hs1|etrans; [exact Hs2|exact Hs3]]|].
  intros Hro i Hib. apply Hby; [done|]. rewrite Hro. lia.
Qed.
End DeviceSafety.

(** ** Refinement *)

(** A request as the device sees it, data to write included. *)
Inductive request : Type :=
| RRead (sector n : Z)
| RWrite (sector : Z) (data : list Z)
| RFlush
| RGetID (n : Z)
| ROther.

Definition request_of (s : sys) (typ sector : Z) (dataIn dataOut : list slice) : request :=
  let t := Z.ldiff typ blkTBarrier in
  if t =? blkTIn then RRead sector (sgLen dataIn)
  else if t =? blkTOut then RWrite sector (sg_contents s dataOut)
  else if t =? blkTFlush then RFlush
  else if t =? blkTGetID then RGetID (sgLen dataIn)
  else ROther.

(** An array of [size] bytes serving requests: new contents, status, data
    returned.  A read may fail, a write may fail after a prefix (the host is out of
    space), and a flush may fail. *)
Inductive blk_step (ro : bool) (size : Z) (disk : Z → Z) : request → (Z → Z) → Z → list Z → Prop :=
| bs_read sector n :
    sector * 512 + n ≤ size → blk_step ro size disk (RRead sector n) disk blkSOK (map disk (seqZ (sector * 512) n))
| bs_read_range sector n :
    size < sector * 512 + n → blk_step ro size disk (RRead sector n) disk blkSIOErr []
| bs_read_failed sector n :
    sector * 512 + n ≤ size → blk_step ro size disk (RRead sector n) disk blkSIOErr []
| bs_write sector data k status disk' :
    ro = false → sector * 512 + zlen data ≤ size → 0 ≤ k ≤ zlen data →
    status = blkSOK ∧ k = zlen data ∨ status = blkSIOErr →
    (∀ i, 0 ≤ i < size → disk' i = if (sector * 512 <=? i) && (i <? sector * 512 + k) then zget 0 data (i - sector * 512) else disk i) →
    blk_step ro size disk (RWrite sector data) disk' status []
| bs_write_denied sector data :
    ro = true ∨ size < sector * 512 + zlen data → blk_step ro size disk (RWrite sector data) disk blkSIOErr []
| bs_flush status : status = blkSOK ∨ status = blkSIOErr → blk_step ro size disk RFlush disk status []
| bs_id n : blk_step ro size disk (RGetID n) disk blkSOK (take (Z.to_nat (Z.min n 20)) blkID)
| bs_other : blk_step ro size disk ROther disk blkSUnsupp [].

(** The length reported in the used ring: the bytes read, also by a read of the
    backend that failed, and the status byte. *)
Definition used_ok (size : Z) (r : request) (status used : Z) : Prop :=
  match r with
  | RRead sector n =>
      if status =? blkSOK then used = u32 (u32 n + 1)
      else if size <? sector * 512 + n then used = 1
      else ∃ m, 0 ≤ m ≤ n ∧ used = u32 (u32 m + 1)
  | RGetID n => used = u32 (u32 (Z.min n 20) + 1)
  | _ => used = 1
  end.

Section Refinement.
Context `{HostOk} {B : Type} `{BackendOk B} (Q : quiet).

(** [be'] holds the disk contents [disk]. *)
Definition represents (be : B) (size : Z) (disk : Z → Z) : Prop :=
  be_inv be ∧ be_Size be = size ∧ ∀ i, 0 ≤ i < size → be_byte be i = disk i.

(** An in-range read is answered with success exactly when the backend's read was. *)
Definition read_reported (be : B) (req : request) (status : Z) : Prop :=
  match req with
  | RRead sector n =>
      sector * 512 + n ≤ be_Size be → (status = blkSOK ↔ (be_ReadAt n (sector * 512) be).2.2 = None)
  | _ => True
  end.

Definition served (d : BlkDev) (be : B) (s : sys) (req : request) (dataIn : list slice) (be' : B) (s' : sys)
    (status used : Z) : Prop :=
  ∃ disk' data, blk_step (d_ro d) (be_Size be) (be_byte be) req disk' status data ∧
    represents be' (be_Size be) disk' ∧ used_ok (be_Size be) req status used ∧ read_reported be req status ∧ same_maps s s' ∧
    take (length data) (sg_contents s' dataIn) = data ∧
    (∀ o j, outside s dataIn o j → gbyte s' o j = gbyte s o j).

(** An answer that leaves disk and memory alone. *)
Lemma served_same d be s req dataIn status used :
  be_inv be → blk_step (d_ro d) (be_Size be) (be_byte be) req (be_byte be) status [] →
  used_ok (be_Size be) req status used → read_reported be req status → served d be s req dataIn be s status used.
Proof. intros Hb Hs Hu Hrep. exists (be_byte be), []. by split_and!. Qed.

Lemma execute_refines d stale typ sector dataIn dataOut be s :
  be_inv be → Forall (mapped s) dataIn → pairwise s dataIn → Forall (mapped s) dataOut → 0 ≤ sector < 2 ^ 64 →
  sgLen dataIn < 2 ^ 62 → sgLen dataOut < 2 ^ 62 → be_room be (sgLen dataOut) →
  ∃ be' s' status used, execute d stale typ sector dataIn dataOut (be, s) = ((be', s'), Ok (status, used)) ∧
    is_byte status ∧ served d be s (request_of s typ sector dataIn dataOut) dataIn be' s' status used.
Proof.
  intros Hb Hin Hpw Hout Hsec Hni Hno Hroom. pose proof (sgLen_nonneg s _ Hin) as Hi0. pose proof (sgLen_nonneg s _ Hout) as Ho0.
  unfold execute, request_of. case_if; [|case_if; [|case_if; [|case_if]]].
  - pose proof (inRange_spec be sector (sgLen dataIn) Hb Hsec ltac:(lia)) as Hr.
    destruct (inRange be sector (sgLen dataIn)); simpl.
    2:{ assert (be_Size be < sector * 512 + sgLen dataIn).
        { destruct (Z.lt_ge_cases (be_Size be) (sector * 512 + sgLen dataIn)) as [|Hge]; [done|]. by apply Hr in Hge. }
        eexists be, s, _, _. split_and!; [done|done|]. apply served_same; [done|by apply bs_read_range| |].
        { simpl. by destruct (Z.ltb_spec (be_Size be) (sector * 512 + sgLen dataIn)); [|lia]. }
        simpl. lia. }
    apply proj1 in Hr. specialize (Hr eq_refl). rewrite (int64_sector be _ (sgLen dataIn)) by (done || lia).
    destruct (be_read_ok be (sgLen dataIn) (sector * 512) Hb) as (be' & dt & er & Hrun & Hb' & Hsz & Hby & Hor); [lia..|].
    rewrite Hrun. destruct Hor as [[-> ->]|[-> Hdl]].
    2: { eexists be', s, _, _. split_and!; [done|done|]. exists (be_byte be), []. split_and!; try done; [by apply bs_read_failed| |simpl; by rewrite Hrun].
         simpl. destruct (Z.ltb_spec (be_Size be) (sector * 512 + sgLen dataIn)); [lia|]. exists (zlen dt).
         pose proof (zlen_nonneg dt). lia. }
    set (data := map (be_byte be) (seqZ (sector * 512) (sgLen dataIn))).
    assert (Hdl : zlen data = sgLen dataIn) by (unfold data; by rewrite zlen_map, zlen_seqZ).
    destruct (sgCopy_quiet Q dataIn data s Hin Hpw) as (s' & -> & Hs' & Hc & Hfr); [by apply map_bytes; [|lia|]|lia|].
    eexists be', s', _, _. split_and!; [done|done|]. exists (be_byte be), data. rewrite Hdl.
    split_and!; try done; [by apply bs_read|simpl; by rewrite Hrun].
  - pose proof (inRange_spec be sector (sgLen dataOut) Hb Hsec ltac:(lia)) as Hr.
    pose proof (zlen_sg_contents s dataOut Hout) as Hzl.
    destruct (d_ro d || negb (inRange be sector (sgLen dataOut))) eqn:Ed.
    { eexists be, s, _, _. split_and!; [done|done|]. apply (served_same d be s (RWrite _ _)); [done| |done|done]. apply bs_write_denied. rewrite Hzl.
      apply orb_true_iff in Ed as [|Ed]; [by left|right]. apply negb_true_iff in Ed. rewrite Ed in Hr.
      destruct (Z.lt_ge_cases (be_Size be) (sector * 512 + sgLen dataOut)) as [|Hge]; [done|]. by apply Hr in Hge. }
    apply orb_false_iff in Ed as [Ero Ed]. apply negb_false_iff in Ed. apply Hr in Ed as Er.
    rewrite (int64_sector be _ (sgLen dataOut)) by (done || lia).
    assert (Hst : zlen (stale_buf stale (sgLen dataOut)) = sgLen dataOut) by (unfold stale_buf; by rewrite zlen_map, zlen_seqZ).
    destruct (sgGather_quiet Q dataOut s 0 (stale_buf stale (sgLen dataOut))) as (s' & Hg & Hs'); try done.
    unfold sgGatherInto. rewrite Hg. change (Z.to_nat 0) with 0%nat. rewrite take_0. simpl app.
    assert (Hbb : Forall is_byte (sg_contents s dataOut)).
    { destruct (sgGather_safe dataOut s 0 (stale_buf stale (sgLen dataOut))) as (s2 & out & Hg2 & _ & _ & Hob); try done.
      rewrite Hg in Hg2. by injection Hg2 as _ <-. }
    destruct (be_write_ok be (sg_contents s dataOut) (sector * 512) Hb Hbb) as (be' & n & err & -> & Hb' & Hsz & Hn & He & Hby);
      [lia|lia|by rewrite Hzl|].
    eexists be', s', _, _. split_and!; [done|by destruct err|]. exists (be_byte be'), [].
    split_and!; try done; [|by apply same_mem_maps|intros o j _; destruct Hs' as [Ho' _]; unfold gbyte; by rewrite Ho'].
    apply (bs_write _ _ _ _ _ n); try done; [lia|]. destruct err; [by right|left; split; [done|by apply He]].
  - destruct (be_sync_ok be Hb) as (Hb' & Hsz & Hby). destruct (be_Sync be) as [be' err]. simpl in *.
    eexists be', s, _, _. split_and!; [done|by destruct err|]. exists (be_byte be), [].
    split_and!; try done. apply bs_flush. destruct err; [by right|by left].
  - set (data := take (Z.to_nat (Z.min (sgLen dataIn) 20)) blkID).
    destruct (sgCopy_quiet Q dataIn data s Hin Hpw) as (s' & -> & Hs' & Hc & Hfr).
    { apply Forall_take. unfold blkID. repeat (constructor; [unfold is_byte; lia|]). constructor. }
    { unfold data, zlen. rewrite length_take. lia. }
    eexists be, s', _, _. split_and!; [done|done|]. exists (be_byte be), data. split_and!; try done. apply bs_id.
  - eexists be, s, _, _. split_and!; [done|done|]. apply (served_same d be s ROther); [done| |done|done]. apply bs_other.
Qed.

Lemma read_header_quiet out s :
  mapped s out → 16 ≤ sl_len out →
  ∃ s', read_header out s = (s', Ok (peek s 4 out 0, peek s 8 out 8)) ∧ same_mem s s'.
Proof.
  intros Hm Hl. unfold read_header. pose proof (turn_quiet Q s) as T1. pose proof (turn_quiet Q (turn s)) as T2.
  pose proof (turn_quiet Q (turn (turn s))) as T3.
  assert (Hm1 : mapped (turn s) out) by (by eapply mapped_same; [apply same_mem_maps|]).
  assert (Hm2 : mapped (turn (turn s)) out) by (by eapply mapped_same; [apply same_mem_maps|]).
  rewrite (gbind_run _ _ _ _ _ (rd_quiet Q 4 out 0 s Hm ltac:(lia) ltac:(lia) ltac:(lia))).
  rewrite (gbind_run _ _ _ _ _ (rd_quiet Q 4 out 4 _ Hm1 ltac:(lia) ltac:(lia) ltac:(lia))).
  rewrite (gbind_run _ _ _ _ _ (rd_quiet Q 8 out 8 _ Hm2 ltac:(lia) ltac:(lia) ltac:(lia))).
  assert (Hp : peek (turn (turn s)) 8 out 8 = peek s 8 out 8) by (by rewrite <- T2, <- T1).
  rewrite Hp. eexists. split; [done|]. by etrans; [exact T1|etrans].
Qed.

(** Slices apart from [sb] keep their contents when only [sb] is written. *)
Lemma sg_contents_keep s s' sb sg :
  same_maps s s' → Forall (mapped s) sg → Forall (λ a, apart s a sb) sg →
  (∀ o j, covers_at s sb 0 (sl_len sb) o j = false → gbyte s' o j = gbyte s o j) →
  sg_contents s' sg = sg_contents s sg.
Proof.
  intros Hs Hm Ha Hb. unfold sg_contents. f_equal. apply map_ext_in. intros a Hin.
  rewrite Forall_forall in Hm, Ha. pose proof (Hm a Hin) as (_ & ? & _).
  apply contents_ext; [done|lia|]. intros j Hj. apply Hb, apart_outside; [|done].
  destruct (Ha a Hin) as [|[|]]; unfold apart; auto.
Qed.

Lemma process_served d stale e out dataOut dataIn sb be s :
  e_outSG e = out :: dataOut → e_inSG e = dataIn ++ [sb] →
  be_inv be → elem_ok s e → pairwise s (e_inSG e) → 16 ≤ sl_len out → 1 ≤ sl_len sb →
  sgLen (e_outSG e ++ e_inSG e) < 2 ^ 62 → room be e →
  ∃ be' s' status used, process d stale e (be, s) = ((be', s'), Ok used) ∧
    gbyte s' (origin s sb).1 (origin s sb).2 = status ∧
    served d be s (request_of s (peek s 4 out 0) (peek s 8 out 8) dataIn dataOut) (e_inSG e) be' s' status used.
Proof.
  intros Eo Ei Hb He Hpw Hl16 Hsb Hlen Hroom. unfold process, elem_ok, room in *.
  rewrite Eo, Ei, last_snoc, removelast_last in *. simpl tail in Hroom. apply Forall_app in He as [Ho Hi].
  inversion Ho as [|? ? Hmo Hmd]; subst. apply Forall_app in Hi as [Hdi Hsbm]. apply Forall_inv in Hsbm.
  apply pairwise_app in Hpw as (Hpd & _ & Hap).
  rewrite sgLen_app, sgLen_cons, sgLen_app, (sgLen_cons sb []) in Hlen. change (sgLen []) with 0 in Hlen.
  pose proof (sgLen_nonneg s _ Hmd). pose proof (sgLen_nonneg s _ Hdi).
  destruct (Z.ltb_spec (sl_len out) 16); [lia|].
  destruct (read_header_quiet out s Hmo Hl16) as (s1 & -> & Hs1). pose proof (same_mem_maps _ _ Hs1) as Hm1.
  destruct (Z.ltb_spec (sl_len sb) 1); [lia|].
  destruct (execute_refines d stale (peek s 4 out 0) (peek s 8 out 8) dataIn dataOut be s1)
    as (be' & s2 & status & used & -> & Hst & disk' & data & Hstep & Hrep & Hused & Hrr & Hs2 & Hdata & Hfr);
    [done|by eapply same_maps_Forall|by eapply pairwise_same|by eapply same_maps_Forall|
     by apply (peek_range Q s 8); try done; lia|lia|lia|done|].
  assert (Hreq : request_of s1 (peek s 4 out 0) (peek s 8 out 8) dataIn dataOut =
                 request_of s (peek s 4 out 0) (peek s 8 out 8) dataIn dataOut) by (unfold request_of; by rewrite <- Hs1).
  rewrite Hreq in *. assert (Hss2 : same_maps s s2) by (by etrans).
  assert (Hms : mapped s2 sb) by (by eapply mapped_same).
  destruct (wr_quiet Q 1 sb 0 status s2 Hms) as (s3 & -> & Hs3 & He3); [lia|lia|].
  change (Z.of_nat 1) with 1 in He3.
  assert (Hcov : ∀ o j, covers_at s sb 0 (sl_len sb) o j = false → gbyte s3 o j = gbyte s2 o j).
  { intros o j Hc. rewrite He3, (covers_same s s2) by done. by rewrite (covers_shrink s sb 1 (sl_len sb)) by (done || lia). }
  exists be', s3, status, used. split; [done|]. split.
  { rewrite He3, (covers_same s s2), (origin_same s s2) by done. unfold covers_at. rewrite Z.eqb_refl. simpl.
    rewrite Z.add_0_r, Z.leb_refl, Z.sub_diag. destruct (Z.ltb_spec (origin s sb).2 ((origin s sb).2 + 1)); [|lia]. simpl.
    unfold is_byte in Hst. by apply Z.mod_small. }
  exists disk', data. split_and!; try done; [by etrans| |].
  - assert (Hk : sg_contents s3 dataIn = sg_contents s2 dataIn).
    { apply (sg_contents_keep s2 s3 sb); [done|by eapply same_maps_Forall| |].
      - eapply Forall_impl; [|exact Hap]. intros a Ha. apply Forall_inv in Ha. by eapply apart_same.
      - intros o j Hc. apply Hcov. by rewrite (covers_same s s2) in Hc. }
    unfold sg_contents in *. rewrite map_app, concat_app, take_app_le; [by rewrite Hk|].
    rewrite Hk, <- Hdata, length_take. lia.
  - intros o j Hout. apply Forall_app in Hout as [Hin Hc]. apply Forall_inv in Hc. rewrite Hcov by done.
    rewrite Hfr by (by eapply outside_same). destruct Hs1 as [Hob _]. unfold gbyte. by rewrite Hob.
Qed.
End Refinement.
