(* ===== verification/VuBackends.v ===== *)
(** * The storage backends behind the device

    [internal/cow]'s three backends (OpenWritable, OpenReadOnly) implement the
    interface the virtio-blk device is proved against. *)

From S2P Require Import Prelude Bytes Qcow2Layout Qcow2Image Qcow2Write Qcow2Refine Qcow2WriteAt.
From S2P Require Import VuMem VuRing VuBlk.

Definition be_of (e : cow_err) : be_error := match e with EEOF => BE_EOF | _ => BE_Other end.

(** ** A raw file *)

(** [rw_io] is what the host will answer, as in [Qcow2Write]. *)
Record rawWritable : Type := { rw_f : file; rw_size : Z; rw_io : list (option Z) }.

Definition raw_set (b : rawWritable) (f : file) : rawWritable := {| rw_f := f; rw_size := rw_size b; rw_io := tail (rw_io b) |}.

#[global] Instance raw_backend : Backend rawWritable := {|
  be_ReadAt n off b :=
    let '(_, (d, e)) := raw_ReadAt (rw_f b) [] n off in
    match head (rw_io b) with
    | Some (Some k) => (raw_set b (rw_f b), (take (Z.to_nat k) d, Some BE_Other))
    | _ => (raw_set b (rw_f b), (d, be_of <$> e))
    end;
  be_WriteAt p off b :=
    match head (rw_io b) with
    | Some (Some k) =>
        let q := take (Z.to_nat k) p in
        (raw_set b (fst (raw_WriteAt q off (rw_f b))), (zlen q, Some BE_Other))
    | _ => let '(f, (n, e)) := raw_WriteAt p off (rw_f b) in (raw_set b f, (n, be_of <$> e))
    end;
  be_Sync b := (b, None);
  be_Size b := rw_size b;
|}.

Lemma raw_read b n off :
  0 ≤ off → 0 ≤ n → off + n ≤ rw_size b → rw_size b = fsize (rw_f b) →
  raw_ReadAt (rw_f b) [] n off = ([], (map (fbyte (rw_f b)) (seqZ off n), None)).
Proof. intros ? ? ? E. unfold raw_ReadAt. by rewrite file_ReadAt_full by lia. Qed.

Definition raw_inv (b : rawWritable) : Prop :=
  rw_size b = fsize (rw_f b) ∧ 0 ≤ rw_size b < 2 ^ 62 ∧ file_bytes (rw_f b).

(** A prefix [q] written inside the file. *)
Lemma raw_written b q off :
  raw_inv b → Forall is_byte q → 0 ≤ off → off + zlen q ≤ rw_size b →
  raw_WriteAt q off (rw_f b) = (fwrite (rw_f b) off q, (zlen q, None)) ∧ raw_inv (raw_set b (fwrite (rw_f b) off q)).
Proof.
  intros (Hs & Hr & Hb) Hp Ho Hl. pose proof (zlen_nonneg q). unfold raw_WriteAt, raw_inv. rewrite file_WriteAt_ok by lia.
  split; [done|]. cbn [raw_set rw_f rw_size]. rewrite fsize_fwrite. split_and!; try done; try lia; [case_ifs; lia|by apply fwrite_bytes].
Qed.

#[global] Instance raw_backend_ok : BackendOk rawWritable.
Proof.
  refine {| be_inv := raw_inv; be_byte b := fbyte (rw_f b); be_room _ _ := True |}.
  - intros b i (_ & _ & Hb) _. apply Hb.
  - by intros b (_ & ? & _).
  - intros b n off Hb Ho Hn Hl. simpl. rewrite raw_read by (done || apply Hb).
    destruct (head (rw_io b)) as [[k|]|]; eexists _, _, _; (split; [done|]); split_and!; try done; [right|left..]; try done.
    split; [done|]. unfold zlen. rewrite length_take, length_map. pose proof (zlen_seqZ off n ltac:(lia)) as Hz. unfold zlen in Hz. lia.
  - intros b p off Hb Hp Ho Hl _. pose proof (zlen_nonneg p). simpl in *.
    assert (Hgo : ∀ k q (err : option be_error), q = take k p → (err = None → zlen q = zlen p) →
      ∃ b' n e, (raw_set b (fwrite (rw_f b) off q), (zlen q, err)) = (b', (n, e)) ∧ raw_inv b' ∧ rw_size b' = rw_size b ∧
        0 ≤ n ≤ zlen p ∧ (e = None → n = zlen p) ∧
        ∀ i, 0 ≤ i < rw_size b → fbyte (rw_f b') i = if (off <=? i) && (i <? off + n) then zget 0 p (i - off) else fbyte (rw_f b) i).
    { intros k q err -> He. assert (zlen (take k p) ≤ zlen p) by (unfold zlen; rewrite length_take; lia). pose proof (zlen_nonneg (take k p)).
      eexists _, _, _. split; [done|]. split_and!; try done; try lia.
      - apply raw_written; try done; [by apply Forall_take|lia].
      - intros i _. cbn [raw_set rw_f]. rewrite fbyte_fwrite.
        destruct (Z.leb_spec off i), (Z.ltb_spec i (off + zlen (take k p))); simpl; try done.
        unfold zget. destruct (Z.ltb_spec (i - off) 0); [done|]. rewrite !nth_lookup, lookup_take_lt; [done|].
        unfold zlen in *. rewrite length_take in *. lia. }
    destruct (head (rw_io b)) as [[k|]|].
    + destruct (raw_written b (take (Z.to_nat k) p) off Hb) as [-> _]; [by apply Forall_take|done| |by eapply Hgo].
      assert (zlen (take (Z.to_nat k) p) ≤ zlen p) by (unfold zlen; rewrite length_take; lia). lia.
    + destruct (raw_written b p off Hb Hp Ho Hl) as [-> _]. apply (Hgo (length p)); [by rewrite take_ge|done].
    + destruct (raw_written b p off Hb Hp Ho Hl) as [-> _]. apply (Hgo (length p)); [by rewrite take_ge|done].
  - by intros b Hb.
Defined.

(** ** A read-only image *)

Record readOnlyBackend : Type := { ro_img : guestImage; ro_caches : caches; ro_io : list (option Z) }.

#[global] Instance readOnly_backend : Backend readOnlyBackend := {|
  be_ReadAt n off b :=
    let '(c, (d, e)) := ReadAt (ro_img b) (ro_caches b) n off in
    let b' := {| ro_img := ro_img b; ro_caches := c; ro_io := tail (ro_io b) |} in
    match head (ro_io b) with
    | Some (Some k) => (b', (take (Z.to_nat k) d, Some BE_Other))
    | _ => (b', (d, be_of <$> e))
    end;
  be_WriteAt p off b :=
    let '(g, (n, e)) := readOnly_WriteAt p off (ro_img b) in ({| ro_img := g; ro_caches := ro_caches b; ro_io := ro_io b |}, (n, be_of <$> e));
  be_Sync b := (b, None);
  be_Size b := int64 (Size (ro_img b));
|}.

#[global] Instance readOnly_backend_ok : BackendOk readOnlyBackend.
Proof.
  refine {| be_inv b := chain_ok (ro_img b) ∧ caches_ok (ro_img b) (ro_caches b) ∧ 0 ≤ Size (ro_img b) < 2 ^ 62 ∧
                        ∀ i, is_byte (guest_byte (ro_img b) i);
            be_byte b := guest_byte (ro_img b);
            be_room _ _ := True |}; unfold be_Size; simpl.
  - intros b i (_ & _ & _ & Hb) _. apply Hb.
  - intros b (_ & _ & ? & _). rewrite int64_id; lia.
  - intros b n off (Hg & Hc & Hs & Hb) Ho Hn Hl. rewrite int64_id in * by lia.
    destruct (ReadAt_chain (ro_img b) Hg (ro_caches b) n off Hc) as (c' & -> & Hc' & Ha & Hshort); [lia..|].
    assert (available (ro_img b) n off = n) as ->.
    { destruct (decide (available (ro_img b) n off < n)) as [Hlt|]; [|lia]. specialize (Hshort Hlt).
      destruct (ro_img b) as [f sz|q bk]; simpl in *; [destruct Hg as [-> ?]; lia|]. unfold read_count in *.
      repeat case_if; bsimp; lia. }
    destruct (Z.ltb_spec n n); [lia|].
    assert (Hlen : zlen (guest_bytes (ro_img b) off n) = n) by (unfold guest_bytes; rewrite zlen_map, zlen_seqZ; lia).
    destruct (head (ro_io b)) as [[k|]|]; eexists _, _, _; (split; [done|]); simpl; rewrite int64_id by lia;
      (split; [done|split; [done|split; [done|]]]); [right|left..]; try done.
    split; [done|]. unfold zlen in *. rewrite length_take. lia.
  - intros b p off (Hg & Hc & Hs & Hb) Hp Ho Hl _. pose proof (zlen_nonneg p).
    eexists b, 0, (Some BE_Other). destruct b as [g c io]. split; [done|]. split_and!; try done; try lia.
    intros i _. destruct (Z.leb_spec off i), (Z.ltb_spec i (off + 0)); simpl; done || lia.
  - by intros b Hb.
Defined.

(** ** A writable qcow2 image

    A failed host write inside the metadata may leave an image that is no longer
    well-formed, so the contract is given for a host that does not fail. *)

#[global] Instance qcow2_backend : Backend qcow2Writable := {|
  be_ReadAt n off w := let '(w, (d, e)) := w_ReadAt n off w in (w, (d, be_of <$> e));
  be_WriteAt p off w := let '(w, (n, e)) := WriteAt p off w in (w, (n, be_of <$> e));
  be_Sync w := (w, None);
  be_Size w := int64 (h_size (q_hdr (w_q w)));
|}.

Lemma disk_size_int64 w : writable_ok w → int64 (h_size (q_hdr (w_q w))) = disk_size w ∧ 0 ≤ disk_size w ≤ 2 ^ 44.
Proof.
  intros Hw. pose proof (wo_virtual w Hw) as Hv. change maxVirtualSize with (2 ^ 44) in Hv.
  unfold disk_size. rewrite int64_id by lia. done.
Qed.

#[global] Instance qcow2_backend_ok : BackendOk qcow2Writable.
Proof.
  refine {| be_inv w := w_io w = [] ∧ writable_ok w ∧ ∀ i, 0 ≤ i < disk_size w → is_byte (disk_byte w i);
            be_byte := disk_byte;
            be_room := write_budget |}; unfold be_Size; simpl.
  - intros w i (_ & Hw & Hb). destruct (disk_size_int64 w Hw) as [-> _]. apply Hb.
  - intros w (_ & Hw & _). destruct (disk_size_int64 w Hw) as [-> ?]. lia.
  - intros w n off (Hio & Hw & Hb). destruct (disk_size_int64 w Hw) as [-> ?]. intros Ho Hn Hl.
    destruct (w_ReadAt_ok w n off Hio Hw Ho Hn Hl) as (w' & -> & Hio' & Hw' & Hs & Hd). eexists w', _, _.
    destruct (disk_size_int64 w' Hw') as [-> _]. split; [done|]. split_and!; try done; [|by left].
    intros i Hi. rewrite Hd. apply Hb. lia.
  - intros w p off (Hio & Hw & Hb) Hp. destruct (disk_size_int64 w Hw) as [-> ?]. intros Ho Hl Hroom.
    pose proof (zlen_nonneg p). destruct (wo_owned w Hw) as [o Hown].
    destruct (idle_WriteAt o p off w Hio Hw Hown) as (w' & n & err & -> & Hn & Hio' & Hw' & [Hs Hd] & Hst); [lia|lia|done|].
    assert (Htk : zlen (take (Z.to_nat n) p) = n) by (unfold zlen in *; rewrite length_take; lia).
    assert (Hd' : ∀ i, 0 ≤ i < disk_size w →
      disk_byte w' i = if (off <=? i) && (i <? off + n) then zget 0 p (i - off) else disk_byte w i).
    { intros i Hi. rewrite Hd, Htk by done. destruct (Z.leb_spec off i), (Z.ltb_spec i (off + n)); simpl; try done.
      unfold zget. destruct (Z.ltb_spec (i - off) 0); [done|]. by rewrite !nth_lookup, lookup_take_lt by lia. }
    exists w', n, (be_of <$> err). destruct (disk_size_int64 w' Hw') as [-> _].
    split; [done|]. split_and!; try done; try lia; [|by destruct err].
    intros i Hi. rewrite Hd' by lia. destruct (Z.leb_spec off i), (Z.ltb_spec i (off + n)); simpl; try (apply Hb; lia).
    rewrite Forall_forall in Hp. apply Hp, list_elem_of_In, zget_elem. lia.
  - by intros w Hw.
Defined.
