(* ===== verification/VuProto.v ===== *)
(** * vhost-user messages (internal/vhost/vu/proto.go)

    The wire format of the control channel: a 12-byte header and a payload, and
    the payload structures the handlers decode. *)

From S2P Require Import Prelude Bytes VuMem VuRing.

Definition reqGetFeatures : Z := 1.
Definition reqSetFeatures : Z := 2.
Definition reqSetOwner : Z := 3.
Definition reqResetOwner : Z := 4.
Definition reqSetMemTable : Z := 5.
Definition reqSetLogFd : Z := 7.
Definition reqSetVringNum : Z := 8.
Definition reqSetVringAddr : Z := 9.
Definition reqSetVringBase : Z := 10.
Definition reqGetVringBase : Z := 11.
Definition reqSetVringKick : Z := 12.
Definition reqSetVringCall : Z := 13.
Definition reqSetVringErr : Z := 14.
Definition reqGetProtocolFeatures : Z := 15.
Definition reqSetProtocolFeatures : Z := 16.
Definition reqGetQueueNum : Z := 17.
Definition reqSetVringEnable : Z := 18.
Definition reqSetVringEndian : Z := 23.
Definition reqGetConfig : Z := 24.
Definition reqSetConfig : Z := 25.
Definition reqGetStatus : Z := 39.
Definition reqSetStatus : Z := 40.
Definition reqGetSharedObject : Z := 41.

Definition flagVersion : Z := 0x3.
Definition flagReply : Z := 0x4.
Definition flagNeedReply : Z := 0x8.
Definition vringNoFD : Z := 0x100.

Definition protoFReplyAck : Z := 3.
Definition protoFConfig : Z := 9.
Definition ourProtocolFeatures : Z := Z.lor (Z.shiftl 1 protoFConfig) (Z.shiftl 1 protoFReplyAck).

Record msg : Type := { m_request : Z; m_flags : Z; m_payload : list Z; m_fds : list Z }.

Definition msg_u64 (m : msg) : Z := if zlen (m_payload m) <? 8 then 0 else le_at 8 (m_payload m) 0.

Definition vringState (m : msg) : Z * Z :=
  if zlen (m_payload m) <? 8 then (0, 0) else (le_at 4 (m_payload m) 0, le_at 4 (m_payload m) 4).

Definition msg_vringAddr (m : msg) : vringAddr :=
  let p := m_payload m in
  if zlen p <? 40 then {| a_index := 0; a_flags := 0; a_desc := 0; a_used := 0; a_avail := 0; a_log := 0 |}
  else {| a_index := le_at 4 p 0; a_flags := le_at 4 p 4; a_desc := le_at 8 p 8; a_used := le_at 8 p 16;
          a_avail := le_at 8 p 24; a_log := le_at 8 p 32 |}.

(** ** The byte stream *)

Inductive recv_err : Type := RecvEOF | RecvUnexpectedEOF | RecvTruncated | RecvVersion | RecvSize.

(** [recv] on a stream whose pending bytes are [stream]: the message and the bytes
    left.  [fds] came with the header bytes; [ctrunc] is the kernel's MSG_CTRUNC. *)
Definition recv (stream : list Z) (fds : list Z) (ctrunc : bool) : result recv_err (msg * list Z) :=
  if zlen stream =? 0 then Err RecvEOF else
  if ctrunc then Err RecvTruncated else
  if zlen stream <? 12 then Err RecvEOF else
  let hdr := zslice stream 0 12 in
  let flags := le_at 4 hdr 4 in
  if negb (Z.land flags flagVersion =? 1) then Err RecvVersion else
  let size := le_at 4 hdr 8 in
  if 8192 <? size then Err RecvSize else
  if zlen stream <? 12 + size then Err (if zlen stream =? 12 then RecvEOF else RecvUnexpectedEOF) else
  Ok ({| m_request := le_at 4 hdr 0; m_flags := flags; m_payload := zslice stream 12 (12 + size); m_fds := fds |},
      drop (Z.to_nat (12 + size)) stream).

(** [send]: the bytes written. *)
Definition send (request flags : Z) (payload : list Z) : list Z :=
  le_encode 4 request ++ le_encode 4 (Z.lor (Z.ldiff flags flagVersion) 1) ++
  le_encode 4 (u32 (zlen payload)) ++ payload.

Definition reply (m : msg) (payload : list Z) : list Z :=
  send (m_request m) (Z.ldiff (Z.lor (m_flags m) flagReply) flagNeedReply) payload.

(** ** Round trip *)

Lemma le_at_app n a b i v :
  zlen a = i → zlen b = n → le_decode b = v → ∀ r, le_at n (a ++ b ++ r) i = v.
Proof.
  intros Ha Hb Hv r. unfold le_at. rewrite <- Hv. f_equal. pose proof (zlen_nonneg a). pose proof (zlen_nonneg b).
  apply (zget_eq 0); [rewrite zlen_zslice; rewrite ?zlen_app; pose proof (zlen_nonneg r); lia|].
  rewrite zlen_zslice by (rewrite ?zlen_app; pose proof (zlen_nonneg r); lia). intros j Hj.
  rewrite zget_zslice, !zget_app by lia. destruct (Z.ltb_spec (i + j) (zlen a)); [lia|].
  destruct (Z.ltb_spec (i + j - zlen a) (zlen b)); [|lia]. f_equal. lia.
Qed.

Lemma le_decode_encode4 v : 0 ≤ v < 2 ^ 32 → le_decode (le_encode 4 v) = v.
Proof. intros. rewrite le_decode_encode. by apply Z.mod_small. Qed.

Lemma version_one flags : Z.land (Z.lor (Z.ldiff flags flagVersion) 1) flagVersion = 1.
Proof.
  apply Z.bits_inj'. intros n Hn. unfold flagVersion. rewrite Z.land_spec, Z.lor_spec, Z.ldiff_spec.
  change 3 with (Z.ones 2). destruct (Z.lt_ge_cases n 2) as [Hl|Hl].
  - rewrite Z.ones_spec_low by lia. simpl. by rewrite andb_false_r, andb_true_r.
  - rewrite Z.ones_spec_high by lia. rewrite andb_false_r. change 1 with (2 ^ 0). rewrite Z.pow2_bits_eqb by lia.
    by destruct (Z.eqb_spec 0 n); [lia|].
Qed.

Lemma flags_range flags : 0 ≤ flags < 2 ^ 32 → 0 ≤ Z.lor (Z.ldiff flags flagVersion) 1 < 2 ^ 32.
Proof.
  intros Hf. assert (H0 : 0 ≤ Z.lor (Z.ldiff flags flagVersion) 1).
  { apply Z.lor_nonneg. split; [|lia]. apply Z.ldiff_nonneg. left. lia. }
  split; [done|]. apply Z.bounded_iff_bits_nonneg; [lia|done|]. intros n Hn.
  rewrite Z.lor_spec, Z.ldiff_spec. rewrite (Z.bits_above_log2 1) by (simpl; lia). rewrite orb_false_r.
  destruct (Z.eq_dec flags 0) as [->|]; [by rewrite Z.bits_0|].
  rewrite (Z.bits_above_log2 flags); [done|lia|]. apply Z.log2_lt_pow2; [lia|].
  eapply Z.lt_le_trans; [apply Hf|]. apply Z.pow_le_mono_r; lia.
Qed.

Lemma recv_send request flags payload rest fds :
  0 ≤ request < 2 ^ 32 → 0 ≤ flags < 2 ^ 32 → zlen payload ≤ 8192 →
  recv (send request flags payload ++ rest) fds false =
  Ok ({| m_request := request; m_flags := Z.lor (Z.ldiff flags flagVersion) 1; m_payload := payload; m_fds := fds |}, rest).
Proof.
  intros Hr Hf Hp. pose proof (zlen_nonneg payload) as Hp0. pose proof (zlen_nonneg rest) as Hr0.
  set (fl := Z.lor (Z.ldiff flags flagVersion) 1). pose proof (flags_range flags Hf) as Hfl.
  set (h := le_encode 4 request ++ le_encode 4 fl ++ le_encode 4 (zlen payload)).
  assert (Hh : zlen h = 12) by (unfold h; by rewrite !zlen_app, !zlen_le_encode).
  assert (Hs : send request flags payload ++ rest = h ++ payload ++ rest).
  { unfold send, h, fl. rewrite u32_id by lia. by rewrite <- !app_assoc. }
  rewrite Hs. unfold recv. rewrite !zlen_app, Hh.
  destruct (Z.eqb_spec (12 + (zlen payload + zlen rest)) 0); [lia|].
  destruct (Z.ltb_spec (12 + (zlen payload + zlen rest)) 12); [lia|].
  assert (Hhdr : zslice (h ++ payload ++ rest) 0 12 = h).
  { unfold zslice. rewrite drop_0, Z.sub_0_r. rewrite take_app_length'; [done|]. unfold zlen in Hh. lia. }
  rewrite Hhdr.
  assert (E4 : le_at 4 h 4 = fl) by (apply le_at_app; [by rewrite zlen_le_encode..|by apply le_decode_encode4]).
  assert (E0 : le_at 4 h 0 = request) by (apply (le_at_app 4 []); [done|by rewrite zlen_le_encode|by apply le_decode_encode4]).
  assert (E8 : le_at 4 h 8 = zlen payload).
  { unfold h. rewrite app_assoc, <- (app_nil_r (le_encode 4 (zlen payload))).
    apply le_at_app; [by rewrite zlen_app, !zlen_le_encode|by rewrite zlen_le_encode|apply le_decode_encode4; lia]. }
  rewrite E4, E0, E8. unfold fl at 1. rewrite version_one. simpl negb. cbv iota.
  destruct (Z.ltb_spec 8192 (zlen payload)); [lia|].
  destruct (Z.ltb_spec (12 + (zlen payload + zlen rest)) (12 + zlen payload)); [lia|].
  do 3 f_equal.
  - f_equal. unfold zslice. replace (12 + zlen payload - 12) with (zlen payload) by lia.
    replace (Z.to_nat 12) with (length h) by (unfold zlen in Hh; lia). rewrite drop_app_length.
    unfold zlen. rewrite Nat2Z.id. by rewrite take_app_length.
  - rewrite app_assoc. apply drop_app_length'. rewrite length_app. unfold zlen in *. lia.
Qed.
