(* ===== verification/VuSession.v ===== *)
(** * The vhost-user session (internal/vhost/vu/server.go)

    One frontend connection: the control loop that handles messages, and the pump
    that pops requests, runs them without the lock and publishes completions.
    The two threads interleave at their critical sections; [sess_step] is that
    interleaving. *)

From S2P Require Import Prelude Bytes VuMem VuRing VuQueue VuBlk VuBlkSpec VuProto.

(** ** State *)

(** Where the pump goroutine is: not started, waiting for a kick, in phase 2 of a
    batch (requests left, completions so far), or gone. *)
Inductive pump_state : Type :=
| PumpOff
| PumpWait
| PumpBatch (todo : list elem) (completed : list (elem * Z))
| PumpGone.

Record session : Type := {
  ss_mem : memTable;
  ss_vq : vring;
  ss_proto : Z;
  ss_status : Z;
  ss_closed : bool;
  ss_pump : pump_state;
  ss_busy : Z;
}.

Definition newSession : session :=
  {| ss_mem := []; ss_vq := vring0; ss_proto := 0; ss_status := 0; ss_closed := false; ss_pump := PumpOff; ss_busy := 0 |}.

Definition set_mem (s : session) (mt : memTable) : session :=
  {| ss_mem := mt; ss_vq := ss_vq s; ss_proto := ss_proto s; ss_status := ss_status s; ss_closed := ss_closed s;
     ss_pump := ss_pump s; ss_busy := ss_busy s |}.
Definition set_vq (s : session) (v : vring) : session :=
  {| ss_mem := ss_mem s; ss_vq := v; ss_proto := ss_proto s; ss_status := ss_status s; ss_closed := ss_closed s;
     ss_pump := ss_pump s; ss_busy := ss_busy s |}.
Definition set_proto (s : session) (p : Z) : session :=
  {| ss_mem := ss_mem s; ss_vq := ss_vq s; ss_proto := p; ss_status := ss_status s; ss_closed := ss_closed s;
     ss_pump := ss_pump s; ss_busy := ss_busy s |}.
Definition set_status (s : session) (x : Z) : session :=
  {| ss_mem := ss_mem s; ss_vq := ss_vq s; ss_proto := ss_proto s; ss_status := x; ss_closed := ss_closed s;
     ss_pump := ss_pump s; ss_busy := ss_busy s |}.
Definition set_closed (s : session) : session :=
  {| ss_mem := ss_mem s; ss_vq := ss_vq s; ss_proto := ss_proto s; ss_status := ss_status s; ss_closed := true;
     ss_pump := ss_pump s; ss_busy := ss_busy s |}.
Definition set_pump (s : session) (p : pump_state) (busy : Z) : session :=
  {| ss_mem := ss_mem s; ss_vq := ss_vq s; ss_proto := ss_proto s; ss_status := ss_status s; ss_closed := ss_closed s;
     ss_pump := p; ss_busy := busy |}.

(** The vring fields SET_VRING_* assign. *)
Definition set_num (v : vring) (n : Z) : vring :=
  {| v_num := n; v_desc := v_desc v; v_avail := v_avail v; v_used := v_used v; v_lastAvail := v_lastAvail v;
     v_usedIdx := v_usedIdx v; v_kick := v_kick v; v_call := v_call v; v_err := v_err v; v_enabled := v_enabled v |}.
Definition set_enabled (v : vring) (b : bool) : vring :=
  {| v_num := v_num v; v_desc := v_desc v; v_avail := v_avail v; v_used := v_used v; v_lastAvail := v_lastAvail v;
     v_usedIdx := v_usedIdx v; v_kick := v_kick v; v_call := v_call v; v_err := v_err v; v_enabled := b |}.

(** Which eventfd a SET_VRING_KICK/CALL/ERR message is about. *)
Inductive vring_file : Type := FKick | FCall | FErr.
Definition get_file (v : vring) (k : vring_file) : option Z :=
  match k with FKick => v_kick v | FCall => v_call v | FErr => v_err v end.
Definition set_file (v : vring) (k : vring_file) (o : option Z) : vring :=
  {| v_num := v_num v; v_desc := v_desc v; v_avail := v_avail v; v_used := v_used v; v_lastAvail := v_lastAvail v;
     v_usedIdx := v_usedIdx v;
     v_kick := match k with FKick => o | _ => v_kick v end;
     v_call := match k with FCall => o | _ => v_call v end;
     v_err := match k with FErr => o | _ => v_err v end;
     v_enabled := v_enabled v |}.

(** ** The control channel *)

Section Control.
Context `{Host}.

(** [maybeStartPump]: once, when the queue is enabled and has a kick fd. *)
Definition maybeStartPump (ss : session) : session :=
  if ss_closed ss || negb (v_enabled (ss_vq ss)) || negb (bool_decide (is_Some (v_kick (ss_vq ss)))) then ss
  else match ss_pump ss with PumpOff => set_pump ss PumpWait (ss_busy ss) | _ => ss end.

Definition close_opt (o : option Z) (s : sys) : sys := match o with Some fd => close_fd s fd | None => s end.

Definition add_fd (s : sys) (fd : Z) : sys := set_fds s (sy_fds s ∪ {[fd]}).

Definition setVringFile (m : msg) (k : vring_file) : method (session * sys) vu_err unit := λ '(ss, s),
  let u := msg_u64 m in
  let fds := m_fds m in
  let cur := get_file (ss_vq ss) k in
  if has_flag u vringNoFD then
    ((set_vq ss (set_file (ss_vq ss) k None), closeFds fds (close_opt cur s)), Ok tt) else
  match fds with
  | [] => ((ss, s), Err VNoFd)
  | fd :: _ =>
      match k_dup fd (sy_fds s) with
      | None => ((ss, closeFds fds s), Err VDup)
      | Some nfd =>
          let s := close_opt cur (add_fd s nfd) in
          let ss := set_vq ss (set_file (ss_vq ss) k (Some nfd)) in
          let ss := match k with FKick => maybeStartPump ss | _ => ss end in
          ((ss, closeFds fds s), Ok tt)
      end
  end.

(** [handle]: [Some p] is a reply with payload [p].  Writing the reply to the
    socket is taken to succeed.  The wait of SET_MEM_TABLE for the pump is the
    guard of the step that runs this handler. *)
Definition handle (d : BlkDev) (m : msg) : method (session * sys) vu_err (option (list Z)) := λ '(ss, s),
  let req := m_request m in
  if req =? reqGetFeatures then ((ss, s), Ok (Some (le_encode 8 (features d))))
  else if req =? reqSetFeatures then ((ss, s), Ok None)
  else if (req =? reqSetOwner) || (req =? reqResetOwner) || (req =? reqSetLogFd) then ((ss, s), Ok None)
  else if req =? reqGetProtocolFeatures then ((ss, s), Ok (Some (le_encode 8 ourProtocolFeatures)))
  else if req =? reqSetProtocolFeatures then ((set_proto ss (Z.land (msg_u64 m) ourProtocolFeatures), s), Ok None)
  else if req =? reqGetQueueNum then ((ss, s), Ok (Some (le_encode 8 1)))
  else if req =? reqSetMemTable then
    let '((mt, s), r) := setMemTable (m_payload m) (m_fds m) (ss_mem ss, s) in
    ((set_mem ss mt, s), match r with Ok _ => Ok None | Err e => Err e end)
  else if req =? reqSetVringNum then
    let '(idx, num) := vringState m in
    if negb (idx =? 0) then ((ss, s), Err VQueueIndex)
    else if (num =? 0) || (32768 <? num) || negb (Z.land num (num - 1) =? 0) then ((ss, s), Err VBadNum)
    else ((set_vq ss (set_num (ss_vq ss) num), s), Ok None)
  else if req =? reqSetVringAddr then
    let a := msg_vringAddr m in
    if negb (a_index a =? 0) then ((ss, s), Err VQueueIndex) else
    let '(v, r) := setup (ss_mem ss) a (ss_vq ss) in
    ((set_vq ss v, s), match r with Ok _ => Ok None | Err e => Err e end)
  else if req =? reqSetVringBase then
    let '(idx, base) := vringState m in
    if negb (idx =? 0) then ((ss, s), Err VQueueIndex)
    else ((set_vq ss (set_lastAvail (ss_vq ss) (Z.land base 0xffff)), s), Ok None)
  else if req =? reqGetVringBase then
    ((ss, s), Ok (Some (le_encode 4 0 ++ le_encode 4 (Z.land (v_lastAvail (ss_vq ss)) 0xffff))))
  else if req =? reqSetVringKick then
    let '(st, r) := setVringFile m FKick (ss, s) in (st, match r with Ok _ => Ok None | Err e => Err e end)
  else if req =? reqSetVringCall then
    let '(st, r) := setVringFile m FCall (ss, s) in (st, match r with Ok _ => Ok None | Err e => Err e end)
  else if req =? reqSetVringErr then
    let '(st, r) := setVringFile m FErr (ss, s) in (st, match r with Ok _ => Ok None | Err e => Err e end)
  else if req =? reqSetVringEnable then
    let '(idx, num) := vringState m in
    if negb (idx =? 0) then ((ss, s), Err VQueueIndex) else
    let ss := set_vq ss (set_enabled (ss_vq ss) (negb (num =? 0))) in
    ((if negb (num =? 0) then maybeStartPump ss else ss, s), Ok None)
  else if req =? reqSetVringEndian then ((ss, s), Ok None)
  else if req =? reqGetConfig then
    if zlen (m_payload m) <? 12 then ((ss, s), Err VShortConfig) else
    match config d (le_at 4 (m_payload m) 0) (le_at 4 (m_payload m) 4) with
    | Err e => ((ss, s), Err e)
    | Ok data => ((ss, s), Ok (Some (zslice (m_payload m) 0 12 ++ data)))
    end
  else if req =? reqSetConfig then ((ss, s), Ok None)
  else if req =? reqGetStatus then ((ss, s), Ok (Some (le_encode 8 (ss_status ss))))
  else if req =? reqSetStatus then ((set_status ss (msg_u64 m), s), Ok None)
  else if req =? reqGetSharedObject then ((ss, s), Err VNoSharedObject)
  else ((ss, s), Err VUnknownRequest).

(** The messages whose descriptors the handler takes over. *)
Definition takes_fds (req : Z) : bool :=
  (req =? reqSetMemTable) || (req =? reqSetVringKick) || (req =? reqSetVringCall) || (req =? reqSetVringErr).

(** One round of [run]: the bytes sent back, and whether the loop goes on. *)
Definition run_message (d : BlkDev) (m : msg) (st : session * sys) : (session * sys) * (list Z * bool) :=
  let '((ss, s), r) := handle d m st in
  let s := if takes_fds (m_request m) then s else closeFds (m_fds m) s in
  let out :=
    match r with
    | Ok (Some p) => reply m p
    | _ =>
        if has_flag (ss_proto ss) (Z.shiftl 1 protoFReplyAck) && has_flag (m_flags m) flagNeedReply
        then reply m (le_encode 8 (match r with Err _ => 1 | Ok _ => 0 end)) else []
    end in
  ((ss, s), (out, negb (match r with Err _ => true | Ok _ => false end && (m_request m =? reqSetMemTable)))).

(** ** The pump *)

Definition pumpMaxBatch : Z := 128.

(** The loop of [popBatch]; [n] more elements fit. *)
Fixpoint pop_loop (n : nat) (mt : memTable) (batch : list elem) : method (vring * sys) vu_err (list elem) := λ vs,
  match n with
  | O => (vs, Ok batch)
  | S n =>
      match pop mt vs with
      | (vs, Ok None) => (vs, Ok batch)
      | (vs, Ok (Some e)) =>
          match translateSG mt e with
          | Ok e => pop_loop n mt (batch ++ [e]) vs
          | Err VPanic => (vs, Err VPanic)
          | Err _ => (vs, Ok batch)
          end
      | (vs, Err e) =>
          (* an error of the code's own is logged and ends the batch; a crash is not an error value *)
          match e with VPanic | VFault | VFuel => (vs, Err e) | _ => (vs, Ok batch) end
      end
  end.

Definition popBatch : method (session * sys) vu_err (list elem) := λ '(ss, s),
  if ss_closed ss then ((ss, s), Ok []) else
  match pop_loop (Z.to_nat pumpMaxBatch) (ss_mem ss) [] (ss_vq ss, s) with
  | ((v, s), Err e) => ((set_vq ss v, s), Err e)
  | ((v, s), Ok batch) =>
      let ss := set_vq ss v in
      ((if zlen batch =? 0 then ss else set_pump ss (ss_pump ss) (ss_busy ss + 1), s), Ok batch)
  end.

(** Phase 3 of [runBatch]: push the completions, then interrupt the guest. *)
Fixpoint push_all (done : list (elem * Z)) : method (vring * sys) vu_err unit := λ vs,
  match done with
  | [] => (vs, Ok tt)
  | (e, usedLen) :: done =>
      match push e usedLen vs with
      | (vs, Ok _) => push_all done vs
      | (vs, Err err) => (vs, Err err)
      end
  end.

Definition publishBatch (done : list (elem * Z)) : method (session * sys) vu_err unit := λ '(ss, s),
  let ss := set_pump ss (ss_pump ss) (ss_busy ss - 1) in
  if ss_closed ss then ((set_pump ss PumpGone (ss_busy ss), s), Ok tt) else
  match push_all done (ss_vq ss, s) with
  | ((v, s), Err e) => ((set_vq ss v, s), Err e)
  | ((v, s), Ok _) =>
      match notify v s with
      | (s, Err e) => ((set_vq ss v, s), Err e)
      | (s, Ok _) => ((set_pump (set_vq ss v) PumpWait (ss_busy ss), s), Ok tt)
      end
  end.

(** [close], after the pump is gone: unmap, then close the eventfds. *)
Definition close_session (ss : session) (s : sys) : session * sys :=
  let s := close_table (ss_mem ss) s in
  let s := close_opt (v_err (ss_vq ss)) (close_opt (v_call (ss_vq ss)) (close_opt (v_kick (ss_vq ss)) s)) in
  (set_mem ss [], s).
End Control.

(** ** The interleaving *)

(** The program's state: a session, the process, the storage, and whether [close]
    has finished. *)
Record sstate (B : Type) : Type := SState { st_ss : session; st_sys : sys; st_be : B; st_torn : bool }.
Arguments SState {B} _ _ _ _.
Arguments st_ss {B} _. Arguments st_sys {B} _. Arguments st_be {B} _. Arguments st_torn {B} _.

Section Steps.
Context `{Host} {B : Type} `{BackendOk B} (d : BlkDev) (stale : Z → Z) (late : bool).

(** Receiving a message installs its descriptors. *)
Definition recv_fds (fds : list Z) (s : sys) : sys := set_fds s (sy_fds s ∪ list_to_set fds).

(** The steps of the two threads.  [late]: the control thread may still handle a
    message it had received when another goroutine closed the session.  A memory
    table waits for the pump to be idle; its regions are assumed to lie inside the
    files the frontend passes. *)
Inductive sess_step : sstate B → sstate B → Prop :=
| step_msg ss s be torn m ss' s' out go :
    late = true ∨ ss_closed ss = false →
    (m_request m = reqSetMemTable → ss_busy ss = 0 ∧ announced (sy_objs s) (m_payload m) (m_fds m)) →
    Forall is_byte (m_payload m) → NoDup (m_fds m) → (∀ fd, fd ∈ m_fds m → 0 ≤ fd ∧ (fd ∉ sy_fds s)) →
    run_message d m (ss, recv_fds (m_fds m) s) = ((ss', s'), (out, go)) →
    sess_step (SState ss s be torn) (SState (if go then ss' else set_closed ss') s' be torn)
| step_close ss s be torn :
    sess_step (SState ss s be torn) (SState (set_closed ss) s be torn)
| step_pop ss s be ss' s' batch :
    ss_pump ss = PumpWait → popBatch (ss, s) = ((ss', s'), Ok batch) →
    sess_step (SState ss s be false)
      (SState (if zlen batch =? 0 then ss' else set_pump ss' (PumpBatch batch []) (ss_busy ss')) s' be false)
| step_process ss s be e todo completed be' s' r :
    ss_pump ss = PumpBatch (e :: todo) completed → room be e →
    process d stale e (be, s) = ((be', s'), r) →
    sess_step (SState ss s be false)
      (SState (set_pump ss (PumpBatch todo (match r with Ok used => completed ++ [(e, used)] | Err _ => completed end))
                 (ss_busy ss)) s' be' false)
| step_publish ss s be completed ss' s' :
    ss_pump ss = PumpBatch [] completed → publishBatch completed (ss, s) = ((ss', s'), Ok tt) →
    sess_step (SState ss s be false) (SState ss' s' be false)
| step_exit ss s be :
    ss_pump ss = PumpWait → ss_closed ss = true ∨ v_kick (ss_vq ss) = None →
    sess_step (SState ss s be false) (SState (set_pump ss PumpGone (ss_busy ss)) s be false)
| step_teardown ss s be ss' s' :
    ss_closed ss = true → ss_pump ss = PumpOff ∨ ss_pump ss = PumpGone →
    close_session ss s = (ss', s') →
    sess_step (SState ss s be false) (SState ss' s' be true).
End Steps.
