(* ===== verification/VuSessionSpec.v ===== *)
(** * The session invariant

    Reachable states of the control/pump interleaving: requests in flight always
    refer to mapped memory, and a session that was torn down holds nothing. *)

From S2P Require Import Prelude Bytes VuMem VuRing VuQueue VuBlk VuBlkSpec VuProto VuSession.

(** ** Popping from a ring in any state

    The rings may be bound to the wrong place; what a [pop] that returns delivers
    is nevertheless well-formed. *)

(** Every live mapping is of a memory object of bytes. *)
Definition maps_bytes (s : sys) : Prop :=
  ∀ m mp, sy_maps s !! m = Some mp → ∃ f, sy_objs s !! mp_obj mp = Some f ∧ file_bytes f.

Lemma maps_bytes_same s s' : same_maps s s' → maps_bytes s → maps_bytes s'.
Proof.
  intros [(Hm & _) Ho] Hb m mp. rewrite Hm. intros (f & Hf & Hfb)%Hb.
  destruct (Ho _ _ Hf) as (f' & ? & _ & ?). exists f'. auto.
Qed.

Lemma holds_maps_bytes base extra mt s : holds base extra mt s → maps_bytes s.
Proof.
  intros Hh m mp Hm. assert (Hin : m ∈ map region_map mt) by (apply (hd_maps _ _ _ _ Hh); by eexists).
  apply list_elem_of_In, in_map_iff in Hin as (r & <- & Hr).
  pose proof (hd_table _ _ _ _ Hh) as Ht. unfold table_ok in Ht. rewrite Forall_forall in Ht.
  destruct (ro_mapped _ _ (Ht r Hr)) as (_ & _ & mp' & f & Hmp & Hf & _ & _ & _ & Hb).
  unfold region_map in Hm. simplify_eq. by exists f.
Qed.

(** If [m] returns a value, it satisfies [Q]. *)
Definition run_part {A} (s : sys) (m : method sys vu_err A) (Q : A → Prop) : Prop :=
  same_maps s (m s).1 ∧ ∀ a, (m s).2 = Ok a → Q a.

Lemma run_part_bind {A C} s (m : method sys vu_err A) (k : A → method sys vu_err C) Q R :
  run_part s m Q → (∀ a s', same_maps s s' → Q a → run_part s' (k a) R) → run_part s (gbind m k) R.
Proof.
  unfold run_part, gbind. intros [Hs Hm] Hk. destruct (m s) as [s1 [a|e]]; [|by split]. simpl in *.
  destruct (Hk a s1 Hs (Hm a eq_refl)) as [Hs2 Hr]. split; [by etrans|done].
Qed.
Lemma run_part_ret {A} s (a : A) (Q : A → Prop) : Q a → run_part s (gret a) Q.
Proof. intros ?. split; [done|]. by intros ? [= <-]. Qed.
Lemma run_part_fail {A} s e (Q : A → Prop) : run_part s (gfail e) Q.
Proof. by split. Qed.
Lemma run_part_lift {A} s (r : result vu_err A) (Q : A → Prop) : (∀ a, r = Ok a → Q a) → run_part s (glift r) Q.
Proof. by split. Qed.

Section Partial.
Context `{HostOk}.

Lemma load_bytes s sl b : maps_bytes s → 0 ≤ sl_len sl → load s sl = Ok b → Forall is_byte b ∧ zlen b = sl_len sl.
Proof.
  intros Hb Hl. unfold load. destruct (Z.eqb_spec (sl_len sl) 0) as [->|]; [by intros [= <-]|].
  destruct (sy_maps s !! sl_map sl) as [mp|] eqn:Em; [|done]. destruct (Hb _ _ Em) as (f & -> & Hf).
  case_if; [|done]. intros [= <-]. split; [by apply fread_bytes|by apply zlen_fread].
Qed.

Lemma run_part_rd s n sl i : maps_bytes s → 0 ≤ n → run_part s (rd n sl i) (λ v, 0 ≤ v < 256 ^ n).
Proof.
  intros Hb Hn. unfold rd. case_if; [|apply run_part_fail].
  eapply (run_part_bind _ _ _ (λ b, Forall is_byte b ∧ zlen b = n)).
  - split; [apply turn_same|]. intros b Hl. eapply load_bytes in Hl; [done| |done].
    by eapply maps_bytes_same; [apply turn_same|].
  - intros b s' _ [Hbb <-]. apply run_part_ret. by apply le_decode_range.
Qed.

Lemma run_part_addDesc s d raw :
  maps_bytes s → descs_ok raw →
  run_part s (addDesc d raw) (λ raw', descs_ok raw' ∧ zlen raw' = zlen raw + 1 ∧ raw' ≠ []).
Proof.
  intros Hb Hraw. unfold addDesc.
  eapply run_part_bind; [by apply run_part_rd|]. intros addr s1 E1 Ha. pose proof (maps_bytes_same _ _ E1 Hb) as Hb1.
  eapply run_part_bind; [by apply run_part_rd|]. intros len s2 E2 Hlen. pose proof (maps_bytes_same _ _ E2 Hb1) as Hb2.
  eapply run_part_bind; [by apply run_part_rd|]. intros flags s3 E3 _.
  destruct (Z.eqb_spec len 0); [apply run_part_fail|]. apply run_part_ret. cbv beta in *. split_and!.
  - apply Forall_app. split; [done|]. apply Forall_singleton. simpl. lia.
  - rewrite zlen_app. done.
  - by destruct raw.
Qed.

Lemma run_part_walkTable n : ∀ s i tbl raw,
  maps_bytes s → descs_ok raw →
  run_part s (walkTable n i tbl raw) (λ raw', descs_ok raw' ∧ raw' ≠ [] ∧ zlen raw' ≤ zlen raw + Z.of_nat n).
Proof.
  induction n as [|n IH]; intros s i tbl raw Hb Hraw; cbn [walkTable]; [apply run_part_fail|].
  eapply (run_part_bind _ _ _ (λ _, True)); [by apply run_part_lift|]. intros d s1 E1 _.
  pose proof (maps_bytes_same _ _ E1 Hb) as Hb1.
  eapply run_part_bind; [by apply run_part_addDesc|]. intros raw' s2 E2 (Hraw' & Hz & Hne).
  pose proof (maps_bytes_same _ _ E2 Hb1) as Hb2.
  eapply run_part_bind; [by apply run_part_rd|]. intros flags s3 E3 _. pose proof (maps_bytes_same _ _ E3 Hb2) as Hb3.
  case_if; [|apply run_part_ret; split_and!; try done; lia].
  destruct (IH s3 (i + 1) tbl raw' Hb3 Hraw') as [Hs Hr]. split; [done|]. intros a Ha.
  destruct (Hr a Ha) as (? & ? & ?). split_and!; try done. lia.
Qed.

Lemma run_part_walk_loop fuel : ∀ s v mt idx seen raw,
  maps_bytes s → descs_ok raw → 
  run_part s (walk_loop fuel v mt idx seen raw)
    (λ raw', descs_ok raw' ∧ raw' ≠ [] ∧ zlen raw' ≤ zlen raw + Z.of_nat fuel + 2 ^ 28).
Proof.
  induction fuel as [|fuel IH]; intros s v mt idx seen raw Hb Hraw; cbn [walk_loop]; [apply run_part_fail|].
  case_if; [apply run_part_fail|].
  eapply (run_part_bind _ _ _ (λ _, True)); [by apply run_part_lift|]. intros d s1 E1 _.
  pose proof (maps_bytes_same _ _ E1 Hb) as Hb1.
  eapply run_part_bind; [by apply run_part_rd|]. intros flags s2 E2 _. pose proof (maps_bytes_same _ _ E2 Hb1) as Hb2.
  case_if.
  - eapply run_part_bind; [by apply run_part_rd|]. intros taddr s3 E3 _. pose proof (maps_bytes_same _ _ E3 Hb2) as Hb3.
    eapply run_part_bind; [by apply run_part_rd|]. intros tlen s4 E4 Htl. pose proof (maps_bytes_same _ _ E4 Hb3) as Hb4.
    case_if; [apply run_part_fail|]. case_if; [apply run_part_fail|].
    eapply (run_part_bind _ _ _ (λ _, True)); [by apply run_part_lift|]. intros tbl s5 E5 _.
    pose proof (maps_bytes_same _ _ E5 Hb4) as Hb5. cbv beta in Htl.
    destruct (run_part_walkTable (Z.to_nat (tlen / 16)) s5 0 tbl raw Hb5 Hraw) as [Hs Hr]. split; [done|].
    intros a Ha. destruct (Hr a Ha) as (? & ? & Hz). split_and!; try done.
    assert (tlen / 16 < 2 ^ 28) by (apply Z.div_lt_upper_bound; lia). pose proof (Z.div_pos tlen 16 ltac:(lia) ltac:(lia)). lia.
  - eapply run_part_bind; [by apply run_part_addDesc|]. intros raw' s3 E3 (Hraw' & Hz & Hne).
    pose proof (maps_bytes_same _ _ E3 Hb2) as Hb3.
    case_if; [|apply run_part_ret; split_and!; try done; lia].
    eapply run_part_bind; [by apply run_part_rd|]. intros next s4 E4 _. pose proof (maps_bytes_same _ _ E4 Hb3) as Hb4.
    destruct (IH s4 v mt next (seen + 1) raw' Hb4 Hraw') as [Hs Hr]. split; [done|].
    intros a Ha. destruct (Hr a Ha) as (? & ? & ?). split_and!; try done. lia.
Qed.

(** An element ready for the device. *)
Definition elem_good (s : sys) (e : elem) : Prop := elem_ok s e ∧ sgLen (e_outSG e ++ e_inSG e) < 2 ^ 62.

Lemma elem_good_same s s' e : same_maps s s' → elem_good s e → elem_good s' e.
Proof. intros Hs [He Hl]. split; [by eapply same_maps_Forall|done]. Qed.

Lemma sgLen_bound s l :
  Forall (λ sl, mapped s sl ∧ 0 < sl_len sl < 2 ^ 32) l → Forall (mapped s) l ∧ sgLen l ≤ zlen l * 2 ^ 32.
Proof.
  induction 1 as [|sl l [Hm Hl] _ [IH1 IH2]]; [done|]. split; [by constructor|]. rewrite sgLen_cons, zlen_cons. lia.
Qed.

Lemma pop_partial v mt s v' s' r :
  maps_bytes s → 0 ≤ v_num v ≤ 32768 → pop mt (v, s) = ((v', s'), r) →
  same_maps s s' ∧ (∃ i, v' = set_lastAvail v i) ∧
  ∀ e, r = Ok (Some e) → e_outSG e = [] ∧ e_inSG e = [] ∧ descs_ok (e_raw e) ∧ zlen (e_raw e) ≤ 2 ^ 29.
Proof.
  intros Hb Hn. assert (Hsame : v = set_lastAvail v (v_lastAvail v)) by (by destruct v). unfold pop.
  destruct (v_desc v); [|intros [= <- <- <-]; split_and!; eauto; done].
  assert (Hav : run_part s (availIdx v) (λ _, True)).
  { unfold availIdx. eapply run_part_bind; [by apply run_part_rd|]. intros. by apply run_part_ret. }
  destruct Hav as [Hs1 _]. destruct (availIdx v s) as [s1 [av|e]]; simpl in Hs1; [|intros [= <- <- <-]; split_and!; eauto; done].
  case_if; [intros [= <- <- <-]; split_and!; eauto; done|].
  case_if; [intros [= <- <- <-]; split_and!; eauto; done|].
  pose proof (maps_bytes_same _ _ Hs1 Hb) as Hb1.
  destruct (run_part_rd s1 2 (slice_of (v_avail v)) (4 + u16 (v_lastAvail v) mod v_num v * 2) Hb1) as [Hs2 _]; [lia|].
  destruct (rd 2 _ _ s1) as [s2 [head|e]]; simpl in Hs2; [|intros [= <- <- <-]; split_and!; eauto; [by etrans|done]].
  pose proof (maps_bytes_same _ _ Hs2 Hb1) as Hb2. set (v1 := set_lastAvail v _).
  destruct (run_part_walk_loop (walk_fuel v1) s2 v1 mt head 0 [] Hb2 ltac:(constructor)) as [Hs3 Hr3]. unfold walkChain, gbind.
  destruct (walk_loop (walk_fuel v1) v1 mt head 0 [] s2) as [s3 [raw|e]]; simpl in Hs3, Hr3.
  2:{ intros [= <- <- <-]. split_and!; [by do 2 (etrans; [eassumption|])|by eexists|done]. }
  destruct (Hr3 raw eq_refl) as (Hd & Hne & Hz). assert (Hs13 : same_maps s s3) by (by do 2 (etrans; [eassumption|])).
  change (zlen []) with 0 in Hz. case_if; intros [= <- <- <-]; (split_and!; [done|by eexists|]); [done|].
  intros e [= <-]. split_and!; try done. simpl. unfold walk_fuel, v1 in Hz. simpl in Hz. lia.
Qed.

Lemma pop_loop_partial n : ∀ mt batch v s v' s' r,
  maps_bytes s → table_ok s mt → 0 ≤ v_num v ≤ 32768 → Forall (elem_good s) batch →
  pop_loop n mt batch (v, s) = ((v', s'), r) →
  same_maps s s' ∧ (∃ i, v' = set_lastAvail v i) ∧ ∀ out, r = Ok out → Forall (elem_good s') out.
Proof.
  induction n as [|n IH]; intros mt batch v s v' s' r Hb Ht Hn Hg; cbn [pop_loop].
  { intros [= <- <- <-]. split_and!; [done|exists (v_lastAvail v); by destruct v|by intros ? [= <-]]. }
  destruct (pop mt (v, s)) as [[v1 s1] res] eqn:Ep. destruct (pop_partial _ _ _ _ _ _ Hb Hn Ep) as (Hs1 & [i Hv1] & He).
  assert (Hg1 : Forall (elem_good s1) batch) by (eapply Forall_impl; [|exact Hg]; intros; by eapply elem_good_same).
  assert (Hdone : same_maps s s1 ∧ (∃ i, v1 = set_lastAvail v i) ∧ ∀ out, Ok (E:=vu_err) batch = Ok out → Forall (elem_good s1) out)
    by (split_and!; [done|by eexists|by intros ? [= <-]]).
  destruct res as [[e|]|e].
  - destruct (He e eq_refl) as (Ho & Hi & Hd & Hz). pose proof (table_same _ _ _ Hs1 Ht) as Ht1.
    pose proof (translateSG_ok s1 mt e Ht1 Hd Ho Hi) as Htr.
    destruct (translateSG mt e) as [e'|err]; [|destruct Htr as [-> | ->]; by intros [= <- <- <-]].
    destruct Htr as (_ & _ & Hsl & Hlen). destruct (sgLen_bound _ _ Hsl) as [Hm Hbnd]. intros Hrec.
    apply IH in Hrec as (Hs2 & [j Hv2] & Hout); [|by eapply maps_bytes_same|done|by rewrite Hv1|].
    + split_and!; [by etrans|exists j; by rewrite Hv2, Hv1|done].
    + apply Forall_app. split; [done|]. apply Forall_singleton. split; [done|]. unfold zlen in *. rewrite Hlen in Hbnd. lia.
  - by intros [= <- <- <-].
  - assert (∀ v2 s2 r, (v1, s1, Err (A:=list elem) e) = (v2, s2, r) → same_maps s s2 ∧ (∃ i, v2 = set_lastAvail v i) ∧
      ∀ out, r = Ok out → Forall (elem_good s2) out) as Hcrash.
    { intros v2 s2 r2 [= <- <- <-]. split_and!; [done|by eexists|done]. }
    destruct e; try (by intros [= <- <- <-]); by apply Hcrash.
Qed.
End Partial.

(** ** Publishing keeps the mappings *)

Section Publish.
Context `{HostOk}.

Lemma store_same s sl d s' : Forall is_byte d → store s sl d = Ok s' → same_maps s s'.
Proof.
  intros Hd. unfold store. destruct (Z.eqb_spec (zlen d) 0); [by intros [= <-]|].
  destruct (sy_maps s !! sl_map sl) as [mp|]; [|done]. destruct (sy_objs s !! mp_obj mp) as [f|] eqn:Ef; [|done].
  case_if; [|done]. bsimp. intros [= <-]. split; [done|]. simpl. intros o g Hg.
  destruct (decide (mp_obj mp = o)) as [<-|]; [|rewrite lookup_insert_ne by done; by exists g].
  rewrite lookup_insert_eq. eexists. split; [done|]. simplify_eq. rewrite fsize_fwrite.
  split; [case_ifs; lia|]. intros. by apply fwrite_bytes.
Qed.

Lemma st_same s sl d : Forall is_byte d → same_maps s (st sl d s).1.
Proof.
  intros Hd. unfold st. destruct (store (turn s) sl d) as [s'|] eqn:E; [|apply turn_same].
  etrans; [apply turn_same|by eapply store_same].
Qed.

Lemma wr_same n sl i v s : same_maps s (wr n sl i v s).1.
Proof. unfold wr. case_if; [|done]. apply st_same, le_encode_bytes. Qed.

Lemma push_same e usedLen v s v' s' r :
  push e usedLen (v, s) = ((v', s'), r) → same_maps s s' ∧ ∃ i, v' = set_usedIdx v i.
Proof.
  assert (Hsame : v = set_usedIdx v (v_usedIdx v)) by (by destruct v). unfold push.
  case_if; [intros [= <- <- <-]; split; [done|eauto]|].
  pose proof (wr_same 4 (slice_of (v_used v)) (4 + v_usedIdx v mod v_num v * 8) (e_head e) s) as H1.
  destruct (wr 4 _ _ (e_head e) s) as [s1 [[]|err]]; simpl in H1; [|intros [= <- <- <-]; split; [done|eauto]].
  pose proof (wr_same 4 (slice_of (v_used v)) (4 + v_usedIdx v mod v_num v * 8 + 4) usedLen s1) as H2.
  destruct (wr 4 _ _ usedLen s1) as [s2 [[]|err]]; simpl in H2; [|intros [= <- <- <-]; split; [by etrans|eauto]].
  case_if; [intros [= <- <- <-]; split; [by etrans|by eexists]|].
  unfold publish. destruct (load (turn s2) _) as [b|err].
  - set (d := le_encode 4 _). destruct (store (turn s2) (slice_of (v_used v)) d) as [s3|err] eqn:Es; intros [= <- <- <-];
      (split; [|by eexists]); etrans; [exact H1| |exact H1|]; etrans; [exact H2| |exact H2|];
      etrans; [apply turn_same|eapply store_same; [apply le_encode_bytes|exact Es]|apply turn_same|reflexivity].
  - intros [= <- <- <-]. split; [|by eexists]. etrans; [exact H1|]. etrans; [exact H2|apply turn_same].
Qed.

Lemma push_all_same done : ∀ v s v' s' r,
  push_all done (v, s) = ((v', s'), r) → same_maps s s' ∧ ∃ i, v' = set_usedIdx v i.
Proof.
  induction done as [|[e u] l IH]; intros v s v' s' r; cbn [push_all].
  { intros [= <- <- <-]. split; [done|]. exists (v_usedIdx v). by destruct v. }
  destruct (push e u (v, s)) as [[v1 s1] [[]|err]] eqn:Ep; destruct (push_same _ _ _ _ _ _ _ Ep) as [Hs [i ->]].
  - intros (Hs' & j & ->)%IH. split; [by etrans|by exists j].
  - intros [= <- <- <-]. split; [done|eauto].
Qed.

Lemma notify_same v s s' r : notify v s = (s', r) → same_maps s s'.
Proof.
  unfold notify, gbind. assert (Hrd : same_maps s (rd 2 (slice_of (v_avail v)) 0 s).1).
  { unfold rd. case_if; [|done]. unfold gbind, ld. destruct (load _ _); apply turn_same. }
  destruct (rd 2 (slice_of (v_avail v)) 0 s) as [s1 [flags|e]]; simpl in Hrd; [|by intros [= <- <-]].
  case_if; [by intros [= <- <-]|]. destruct (v_call v); by intros [= <- <-].
Qed.
End Publish.

(** ** Descriptors of a session *)

Definition opt_list (o : option Z) : list Z := match o with Some x => [x] | None => [] end.
Definition ev_fds (v : vring) : list Z := opt_list (v_kick v) ++ opt_list (v_call v) ++ opt_list (v_err v).

Lemma holds_perm base l l' mt s : l ≡ₚ l' → holds base l mt s → holds base l' mt s.
Proof.
  intros Hp [Hf Hm Hmn Hn Hnn Hnd Ht]. split; try done.
  - rewrite Hf. apply set_eq. intros x. rewrite !elem_of_union, !elem_of_list_to_set, !elem_of_app, Hp. done.
  - intros fd Hin. apply Hnn. by rewrite Hp.
  - by rewrite <- Hp.
Qed.

Lemma holds_closeFds_app base l extra mt s : holds base (l ++ extra) mt s → holds base extra mt (closeFds l s).
Proof.
  revert s. induction l as [|fd l IH]; intros s Hs; [done|]. simpl.
  destruct (hd_nonneg _ _ _ _ Hs fd) as [Hfd _]; [set_solver|].
  destruct (Z.leb_spec 0 fd); [|lia]. by apply IH, holds_close_fd.
Qed.

Lemma holds_close_opt base o extra mt s : holds base (opt_list o ++ extra) mt s → holds base extra mt (close_opt o s).
Proof. destruct o; [|done]. apply holds_close_fd. Qed.

Lemma holds_add base fd extra mt s :
  holds base extra mt s → 0 ≤ fd → fd ∉ sy_fds s → holds base (fd :: extra) mt (add_fd s fd).
Proof.
  intros [Hf Hm Hmn Hn Hnn Hnd Ht] Hfd Hnew. rewrite Hf in Hnew.
  split; simpl; try done; [set_solver| | |by apply table_fds].
  - intros x. rewrite elem_of_app, elem_of_cons. intros [Hx|[->|Hx]]; [apply Hnn; set_solver|set_solver|apply Hnn; set_solver].
  - rewrite <- Permutation_middle. apply list.NoDup_cons. split; [set_solver|done].
Qed.

Lemma holds_recv base fds extra mt s :
  holds base extra mt s → NoDup fds → (∀ fd, fd ∈ fds → 0 ≤ fd ∧ (fd ∉ sy_fds s)) →
  holds base (fds ++ extra) mt (recv_fds fds s).
Proof.
  intros [Hf Hm Hmn Hn Hnn Hnd Ht] Hd Hnew. rewrite Hf in Hnew. split; simpl; try done; [set_solver| | |by apply table_fds].
  - intros x. rewrite !elem_of_app. intros [Hx|[Hx|Hx]]; [apply Hnn; set_solver| |apply Hnn; set_solver].
    destruct (Hnew x Hx). set_solver.
  - rewrite (Permutation_app_comm fds), app_assoc. apply list.NoDup_app. split_and!; [done| |done].
    intros x Hx Hin. destruct (Hnew x Hin) as [_ Hn']. set_solver.
Qed.

Lemma holds_shift base ev fds mt s : holds base (fds ++ ev) mt s → holds (base ∪ list_to_set ev) fds mt s.
Proof.
  intros [Hf Hm Hmn Hn Hnn Hnd Ht]. rewrite app_assoc in Hnd. apply list.NoDup_app in Hnd as (Hnd & Hdis & _).
  split; try done.
  - rewrite Hf. set_solver.
  - intros fd Hin. destruct (Hnn fd) as [? ?]; [set_solver|]. split; [done|]. specialize (Hdis fd Hin). set_solver.
Qed.

Lemma holds_unshift base ev mt s :
  holds (base ∪ list_to_set ev) [] mt s → NoDup ev → (∀ fd, fd ∈ ev → 0 ≤ fd ∧ (fd ∉ base)) → holds base ev mt s.
Proof.
  intros [Hf Hm Hmn Hn Hnn Hnd Ht] Hev Hevn. rewrite app_nil_r in *. split; try done.
  - rewrite Hf. set_solver.
  - intros fd. rewrite elem_of_app. intros [Hin|Hin]; [|by apply Hevn]. destruct (Hnn fd Hin). set_solver.
  - apply list.NoDup_app. split_and!; [done| |done]. intros x Hx. destruct (Hnn x Hx). set_solver.
Qed.

(** ** The handlers *)

Lemma closeFds_frame l s :
  sy_objs (closeFds l s) = sy_objs s ∧ sy_maps (closeFds l s) = sy_maps s ∧ sy_next (closeFds l s) = sy_next s.
Proof. revert s. induction l as [|fd l IH]; intros s; [done|]. simpl. destruct (IH (if 0 <=? fd then close_fd s fd else s)) as (-> & -> & ->). by case_if. Qed.

Section Handlers.
Context `{HostOk}.

Lemma map_regions_objs n : ∀ i payload fds mt s, sy_objs (map_regions n i payload fds (mt, s)).1.2 = sy_objs s.
Proof.
  induction n as [|n IH]; intros i payload fds mt s; cbn [map_regions]; [apply closeFds_frame|].
  destruct fds as [|fd fds]; [done|]. case_if.
  - cbn [fst snd]. destruct (closeFds_frame (fd :: fds) (close_table mt s)) as [-> _]. apply close_table_objs.
  - unfold Mmap. destruct (k_mmap _ _ _); [by rewrite IH|].
    cbn [fst snd]. destruct (closeFds_frame (fd :: fds) (close_table mt s)) as [-> _]. apply close_table_objs.
Qed.

Lemma setMemTable_objs payload fds mt s : sy_objs (setMemTable payload fds (mt, s)).1.2 = sy_objs s.
Proof.
  unfold setMemTable. repeat (case_if; [apply closeFds_frame|]). rewrite map_regions_objs. apply close_table_objs.
Qed.

(** What every handler leaves alone. *)
Record handler_frame (ss : session) (s : sys) (ss' : session) (s' : sys) : Prop := {
  hf_objs : sy_objs s' = sy_objs s;
  hf_closed : ss_closed ss' = ss_closed ss;
  hf_busy : ss_busy ss' = ss_busy ss;
  hf_pump : ss_pump ss' = ss_pump ss ∨ (ss_closed ss = false ∧ ss_pump ss = PumpOff ∧ ss_pump ss' = PumpWait);
  hf_num : 0 ≤ v_num (ss_vq ss) ≤ 32768 → 0 ≤ v_num (ss_vq ss') ≤ 32768;
}.

Lemma handler_frame_refl ss s : handler_frame ss s ss s.
Proof. by split; auto. Qed.

Lemma maybeStartPump_frame ss : 
  ss_closed (maybeStartPump ss) = ss_closed ss ∧ ss_busy (maybeStartPump ss) = ss_busy ss ∧
  ss_mem (maybeStartPump ss) = ss_mem ss ∧ ss_vq (maybeStartPump ss) = ss_vq ss ∧
  (ss_pump (maybeStartPump ss) = ss_pump ss ∨
   ss_closed ss = false ∧ ss_pump ss = PumpOff ∧ ss_pump (maybeStartPump ss) = PumpWait).
Proof.
  unfold maybeStartPump. destruct (ss_closed ss) eqn:Ec; simpl; [by split_and!; auto|].
  case_if; [by split_and!; auto|]. destruct (ss_pump ss) eqn:Ep; split_and!; auto.
Qed.

Lemma close_opt_objs o s : sy_objs (close_opt o s) = sy_objs s.
Proof. by destruct o. Qed.

Lemma setVringFile_frame m k ss s ss' s' r :
  setVringFile m k (ss, s) = ((ss', s'), r) → handler_frame ss s ss' s' ∧ ss_mem ss' = ss_mem ss ∧ sy_maps s' = sy_maps s.
Proof.
  unfold setVringFile. case_if.
  - intros [= <- <- _]. destruct (closeFds_frame (m_fds m) (close_opt (get_file (ss_vq ss) k) s)) as (Ho & Hm & _).
    rewrite Hm. split_and!; [split; auto; by rewrite Ho, close_opt_objs|done|by destruct (get_file _ _)].
  - destruct (m_fds m) as [|fd fds]; [intros [= <- <- _]; split_and!; try done; apply handler_frame_refl|].
    destruct (k_dup fd (sy_fds s)) as [nfd|]; intros [= <- <- _].
    + match goal with |- context [closeFds ?l ?s0] => destruct (closeFds_frame l s0) as (Ho & Hm & _) end.
      rewrite Hm. destruct (maybeStartPump_frame (set_vq ss (set_file (ss_vq ss) k (Some nfd)))) as (H1 & H2 & H3 & H4 & H5).
      split_and!; [split| |].
      * rewrite Ho. case_if; by destruct (get_file _ _).
      * by destruct k.
      * by destruct k.
      * destruct k; auto.
      * destruct k; rewrite ?H4; done.
      * by destruct k.
      * case_if; by destruct (get_file _ _).
    + destruct (closeFds_frame (fd :: fds) s) as (Ho & Hm & _). split_and!; [split; auto|done|done].
Qed.

(** The handlers that take no descriptors. *)
Lemma handle_plain d m ss s ss' s' r :
  takes_fds (m_request m) = false → Forall is_byte (m_payload m) → handle d m (ss, s) = ((ss', s'), r) →
  handler_frame ss s ss' s' ∧ s' = s ∧ ss_mem ss' = ss_mem ss ∧ ev_fds (ss_vq ss') = ev_fds (ss_vq ss).
Proof.
  unfold takes_fds. intros Ht Hpl. apply orb_false_iff in Ht as [Ht H4]. apply orb_false_iff in Ht as [Ht H3].
  apply orb_false_iff in Ht as [H1 H2]. unfold handle. rewrite H1, H2, H3, H4.
  assert (Hid : ∀ r0, (ss, s, r0) = (ss', s', r) →
    handler_frame ss s ss' s' ∧ s' = s ∧ ss_mem ss' = ss_mem ss ∧ ev_fds (ss_vq ss') = ev_fds (ss_vq ss)).
  { intros r0 [= <- <- _]. split_and!; try done. apply handler_frame_refl. }
  repeat (case_if; [by apply Hid|]).
  case_if; [intros [= <- <- _]; split_and!; try done; split; auto|].
  case_if; [by apply Hid|].
  case_if.
  { unfold vringState. case_if.
    - simpl. by apply Hid.
    - case_if; [by apply Hid|]. case_if; [by apply Hid|]. intros [= <- <- _]. split_and!; try done. split; auto.
      intros _. simpl. apply orb_false_iff in Heqb8 as [Hb8 _]. apply orb_false_iff in Hb8 as [_ Hb8]. bsimp.
      pose proof (le_at_range 4 (m_payload m) 4 Hpl ltac:(lia) ltac:(lia) ltac:(lia)). lia. }
  case_if.
  { case_if; [by apply Hid|]. destruct (setup _ _ _) as [v r1] eqn:Es. intros [= <- <- _].
    assert (ev_fds v = ev_fds (ss_vq ss) ∧ v_num v = v_num (ss_vq ss)) as [He Hn].
    { unfold setup in Es. repeat case_match; simplify_eq; done. }
    split_and!; try done. split; auto. simpl. by rewrite Hn. }
  case_if.
  { unfold vringState. destruct (if zlen (m_payload m) <? 8 then _ else _) as [idx base]. case_if; [by apply Hid|].
    intros [= <- <- _]. split_and!; try done. split; auto. }
  case_if; [by apply Hid|].
  case_if.
  { unfold vringState. destruct (if zlen (m_payload m) <? 8 then _ else _) as [idx num]. case_if; [by apply Hid|].
    intros [= <- <- _].
    destruct (maybeStartPump_frame (set_vq ss (set_enabled (ss_vq ss) (negb (num =? 0))))) as (M1 & M2 & M3 & M4 & M5).
    destruct (negb (num =? 0)) eqn:En; split_and!; try done; try (by split; auto).
    - split; try done. by rewrite M4.
    - by rewrite M4. }
  repeat (case_if; [by apply Hid|]).
  case_if.
  { case_if; [by apply Hid|]. destruct (config _ _ _); by apply Hid. }
  repeat (case_if; [by apply Hid|]).
  case_if; [intros [= <- <- _]; split_and!; try done; split; auto|].
  case_if; by apply Hid.
Qed.
End Handlers.

(** ** The invariant *)

Definition in_flight (ss : session) : list elem := match ss_pump ss with PumpBatch todo _ => todo | _ => [] end.
Definition busy_of (p : pump_state) : Z := match p with PumpBatch _ _ => 1 | _ => 0 end.
Definition pump_dead (ss : session) : Prop := ss_pump ss = PumpOff ∨ ss_pump ss = PumpGone.

Section Invariant.
Context `{HostOk} {B : Type} `{BackendOk B} (d : BlkDev) (stale : Z → Z) (late : bool) (base : gset Z).

Record sinv (st : sstate B) : Prop := {
  si_busy : ss_busy (st_ss st) = busy_of (ss_pump (st_ss st));
  si_num : 0 ≤ v_num (ss_vq (st_ss st)) ≤ 32768;
  si_batch : Forall (elem_good (st_sys st)) (in_flight (st_ss st));
  si_dead : st_torn st = true → ss_closed (st_ss st) = true ∧ pump_dead (st_ss st);
  si_holds : st_torn st = false → holds base (ev_fds (ss_vq (st_ss st))) (ss_mem (st_ss st)) (st_sys st);
  si_backed : backed (sy_objs (st_sys st));
  si_be : be_inv (st_be st);
  si_released : st_torn st = true → late = false → sy_fds (st_sys st) = base ∧ sy_maps (st_sys st) = ∅;
}.

Lemma backed_same s s' : same_maps s s' → backed (sy_objs s) → backed (sy_objs s').
Proof.
  intros [_ Ho] Hb fd off len o Hk. destruct (Hb _ _ _ _ Hk) as (f & Hf & Hby).
  destruct (Ho _ _ Hf) as (f' & ? & _ & ?). exists f'. auto.
Qed.

Lemma holds_same b0 extra mt s s' : same_maps s s' → holds b0 extra mt s → holds b0 extra mt s'.
Proof.
  intros Hs [Hf Hm Hmn Hn Hnn Hnd Ht]. pose proof Hs as [(Em & Ef & En) _].
  split; rewrite ?Em, ?Ef, ?En; try done. by eapply table_same.
Qed.

(** Memory kept its mappings and its objects: in-flight elements stay valid. *)
Lemma batch_frame s s' l :
  sy_maps s' = sy_maps s → sy_objs s' = sy_objs s → Forall (elem_good s) l → Forall (elem_good s') l.
Proof.
  intros Hm Ho. apply Forall_impl. intros e [He Hl]. split; [|done]. unfold elem_ok in *.
  eapply Forall_impl; [|exact He]. intros sl Hsl. apply (mapped_other s); [done|done|by rewrite Hm].
Qed.

Lemma setMemTable_session payload fds ev mt s mt' s' r :
  Forall is_byte payload → holds base (fds ++ ev) mt s → backed (sy_objs s) → announced (sy_objs s) payload fds →
  setMemTable payload fds (mt, s) = ((mt', s'), r) → holds base ev mt' s'.
Proof.
  intros Hp Hh Hb Ha Hrun.
  assert (Hev : NoDup ev ∧ ∀ fd, fd ∈ ev → 0 ≤ fd ∧ (fd ∉ base)).
  { split; [|intros fd Hfd; apply (hd_nonneg _ _ _ _ Hh); set_solver].
    pose proof (hd_nodup _ _ _ _ Hh) as Hd. apply list.NoDup_app in Hd as (_ & _ & Hd). by apply list.NoDup_app in Hd as (_ & _ & ?). }
  apply holds_shift in Hh. destruct (setMemTable_holds payload fds _ mt s Hp Hh Hb Ha) as (mt1 & s1 & r1 & Hrun' & Hh' & _).
  rewrite Hrun in Hrun'. simplify_eq. destruct Hev. by apply holds_unshift.
Qed.

Lemma setVringFile_holds m k ss s ss' s' r :
  holds base (m_fds m ++ ev_fds (ss_vq ss)) (ss_mem ss) s → setVringFile m k (ss, s) = ((ss', s'), r) →
  holds base (ev_fds (ss_vq ss')) (ss_mem ss') s'.
Proof.
  intros Hh. unfold setVringFile. set (cur := get_file (ss_vq ss) k).
  assert (∃ rest, ev_fds (ss_vq ss) ≡ₚ opt_list cur ++ rest ∧
    ∀ o, ev_fds (set_file (ss_vq ss) k o) ≡ₚ opt_list o ++ rest) as (rest & Hcur & Hset).
  { unfold ev_fds, cur. destruct k; simpl.
    - eexists. split; [done|]. done.
    - eexists (opt_list (v_kick _) ++ opt_list (v_err _)). split; intros; apply Permutation_app_swap_app.
    - eexists (opt_list (v_kick _) ++ opt_list (v_call _)). split; intros; rewrite app_assoc; apply Permutation_app_comm. }
  case_if.
  - intros [= <- <- _]. simpl. apply (holds_perm base rest); [by rewrite Hset|].
    apply holds_closeFds_app, holds_close_opt. eapply holds_perm; [|exact Hh]. rewrite Hcur. apply Permutation_app_swap_app.
  - destruct (m_fds m) as [|fd fds] eqn:Ef; [by intros [= <- <- _]|].
    destruct (k_dup fd (sy_fds s)) as [nfd|] eqn:Ed.
    + destruct (dup_fresh _ _ _ Ed) as [Hnew Hge]. intros [= <- <- _].
      assert (ss_vq (match k with FKick => maybeStartPump (set_vq ss (set_file (ss_vq ss) k (Some nfd)))
        | _ => set_vq ss (set_file (ss_vq ss) k (Some nfd)) end) = set_file (ss_vq ss) k (Some nfd) ∧
        ss_mem (match k with FKick => maybeStartPump (set_vq ss (set_file (ss_vq ss) k (Some nfd)))
        | _ => set_vq ss (set_file (ss_vq ss) k (Some nfd)) end) = ss_mem ss) as [-> ->].
      { destruct (maybeStartPump_frame (set_vq ss (set_file (ss_vq ss) k (Some nfd)))) as (_ & _ & H3 & H4 & _). by destruct k. }
      apply (holds_perm base (nfd :: rest)); [by rewrite Hset|]. apply (holds_closeFds_app _ (fd :: fds)), holds_close_opt.
      eapply holds_perm; [|apply holds_add; [exact Hh|done|done]]. rewrite Hcur.
      by rewrite Permutation_app_swap_app, !Permutation_middle, <- Permutation_middle, Permutation_middle.
    + intros [= <- <- _]. by apply (holds_closeFds_app _ (fd :: fds)).
Qed.

Lemma handle_memtable m ss s :
  m_request m = reqSetMemTable →
  handle d m (ss, s) =
    let '((mt, s), r) := setMemTable (m_payload m) (m_fds m) (ss_mem ss, s) in
    ((set_mem ss mt, s), match r with Ok _ => Ok None | Err e => Err e end).
Proof. intros E. unfold handle. rewrite E. reflexivity. Qed.

Lemma handle_vring_file m ss s k :
  m_request m = match k with FKick => reqSetVringKick | FCall => reqSetVringCall | FErr => reqSetVringErr end →
  handle d m (ss, s) =
    let '(st, r) := setVringFile m k (ss, s) in (st, match r with Ok _ => Ok None | Err e => Err e end).
Proof. intros E. unfold handle. rewrite E. by destruct k. Qed.

(** One message, handled: what it leaves alone, and what it owns afterwards. *)
Lemma run_message_ok m ss s ss' s' out go :
  Forall is_byte (m_payload m) → backed (sy_objs s) →
  (m_request m = reqSetMemTable → announced (sy_objs s) (m_payload m) (m_fds m)) → run_message d m (ss, s) = ((ss', s'), (out, go)) →
  handler_frame ss s ss' s' ∧ (m_request m ≠ reqSetMemTable → sy_maps s' = sy_maps s) ∧
  (holds base (m_fds m ++ ev_fds (ss_vq ss)) (ss_mem ss) s → holds base (ev_fds (ss_vq ss')) (ss_mem ss') s').
Proof.
  intros Hp Hb Ha. unfold run_message. destruct (handle d m (ss, s)) as [[ss1 s1] r] eqn:Eh. intros [= <- <- _ _].
  destruct (takes_fds (m_request m)) eqn:Et.
  2:{ destruct (handle_plain _ _ _ _ _ _ _ Et Hp Eh) as ([F1 F2 F3 F4 F5] & -> & Hm & He).
      destruct (closeFds_frame (m_fds m) s) as (Ho & Hma & _). split_and!; [split; try done; by rewrite Ho|by rewrite Hma|].
      intros Hh. rewrite Hm, He. by apply holds_closeFds_app. }
  unfold takes_fds in Et. destruct (Z.eqb_spec (m_request m) reqSetMemTable) as [Er|Er].
  - rewrite (handle_memtable m ss s Er) in Eh. pose proof (setMemTable_objs (m_payload m) (m_fds m) (ss_mem ss) s) as Ho.
    destruct (setMemTable (m_payload m) (m_fds m) (ss_mem ss, s)) as [[mt' s2] r2] eqn:Es.
    simpl in Ho. injection Eh as <- <- _. split_and!; [split; auto|done|].
    intros Hh. eapply setMemTable_session; eauto.
  - assert (∃ k r2, setVringFile m k (ss, s) = ((ss1, s1), r2)) as (k & r2 & Hv).
    { assert (∃ k, m_request m = match k with FKick => reqSetVringKick | FCall => reqSetVringCall | FErr => reqSetVringErr end) as [k Hk].
      { destruct (Z.eqb_spec (m_request m) reqSetVringKick); [by exists FKick|].
        destruct (Z.eqb_spec (m_request m) reqSetVringCall); [by exists FCall|].
        destruct (Z.eqb_spec (m_request m) reqSetVringErr); [by exists FErr|done]. }
      rewrite (handle_vring_file m ss s k Hk) in Eh. destruct (setVringFile m k (ss, s)) as [st2 r2] eqn:Ev.
      exists k, r2. injection Eh as -> _. done. }
    destruct (setVringFile_frame _ _ _ _ _ _ _ Hv) as (Hf & Hm & Hma). split_and!; [done|done|].
    intros Hh. by eapply setVringFile_holds.
Qed.

Lemma sinv_step st st' : sinv st → sess_step d stale late st st' → sinv st'.
Proof.
  intros [Ibusy Inum Ibatch Idead Iholds Iback Ibe Irel] Hstep. destruct Hstep as
    [ss s be torn m ss' s' out go Hl Hmem Hpl Hnd Hfr Hrun|ss s be torn|ss s be ss' s' batch Hp Hpop|
     ss s be e todo completed be' s' r Hp Hroom Hproc|ss s be completed ss' s' Hp Hpub|ss s be Hp Hc|ss s be ss' s' Hc Hp Hcl]; cbn [st_ss st_sys st_be st_torn] in *.
  - destruct (run_message_ok m ss (recv_fds (m_fds m) s) ss' s' out go Hpl Iback (λ E, proj2 (Hmem E)) Hrun) as ([F1 F2 F3 F4 F5] & Hmaps & Hh).
    assert (Hpump : ss_pump ss' = ss_pump ss ∨ ss_closed ss = false ∧ ss_pump ss = PumpOff ∧ ss_pump ss' = PumpWait) by done.
    assert (Hfl : in_flight ss' = in_flight ss) by (unfold in_flight; destruct Hpump as [->|(_ & -> & ->)]; done).
    assert (sinv (SState ss' s' be torn)) as [J1 J2 J3 J4 J5 J6 J7 J8].
    { split; simpl; try done.
      - rewrite F3, Ibusy. destruct Hpump as [->|(_ & -> & ->)]; done.
      - by apply F5.
      - rewrite Hfl. destruct (decide (m_request m = reqSetMemTable)) as [Er|Er].
        + destruct (Hmem Er) as [Hbusy _]. unfold in_flight. rewrite Hbusy in Ibusy. by destruct (ss_pump ss).
        + eapply batch_frame; [by apply Hmaps|exact F1|done].
      - intros Ht. destruct (Idead Ht) as [Hc Hd]. rewrite F2. split; [done|]. unfold pump_dead in *.
        destruct Hpump as [->|(Hc' & _)]; [done|congruence].
      - intros Ht. apply Hh. by apply holds_recv; [apply Iholds|..].
      - by rewrite F1.
      - intros Ht Hla. destruct (Idead Ht) as [Hc _]. destruct Hl as [Hl|Hl]; congruence. }
    destruct go; split; simpl in *; auto. intros Ht. destruct (J4 Ht). done.
  - split; simpl; auto. intros Ht. destruct (Idead Ht). done.
  - unfold popBatch in Hpop. destruct (ss_closed ss).
    { injection Hpop as <- <- <-. by split. }
    specialize (Iholds eq_refl). destruct (pop_loop _ _ _ _) as [[v1 s1] [b|e]] eqn:El; [|done]. injection Hpop as <- <- <-.
    destruct (pop_loop_partial _ _ _ _ _ _ _ _ (holds_maps_bytes _ _ _ _ Iholds) (hd_table _ _ _ _ Iholds) Inum ltac:(constructor) El)
      as (Hs & [i ->] & Hg). specialize (Hg b eq_refl).
    assert (holds base (ev_fds (ss_vq ss)) (ss_mem ss) s1) by (by eapply holds_same).
    rewrite Hp in *. destruct (zlen b =? 0); split; simpl; try done; try (by eapply backed_same).
    + by rewrite Hp.
    + unfold in_flight. simpl. by rewrite Hp.
    + by rewrite Ibusy.
  - unfold in_flight in Ibatch. rewrite Hp in *. inversion Ibatch as [|? ? [He Hlen] Htodo]; subst.
    destruct (process_safe d stale e be s Ibe He Hlen Hroom) as (be1 & s1 & r1 & Hrun & Hbe & Hs & _).
    rewrite Hproc in Hrun. simplify_eq. specialize (Iholds eq_refl). split; simpl; try done.
    + unfold in_flight. simpl. eapply Forall_impl; [|exact Htodo]. intros. by eapply elem_good_same.
    + intros _. by eapply holds_same.
    + by eapply backed_same.
  - unfold publishBatch in Hpub. rewrite Hp in *. specialize (Iholds eq_refl). simpl in Hpub. rewrite Ibusy in *.
    destruct (ss_closed ss); [injection Hpub as <- <-; by split|].
    destruct (push_all completed (ss_vq ss, s)) as [[v1 s1] [[]|e]] eqn:Ea; [|done].
    destruct (push_all_same _ _ _ _ _ _ Ea) as [Hs1 [i ->]].
    destruct (notify (set_usedIdx (ss_vq ss) i) s1) as [s2 [[]|e]] eqn:En; [|done]. injection Hpub as <- <-.
    apply notify_same in En. assert (Hs2 : same_maps s s2) by (by etrans).
    split; simpl; try done; [intros _; by eapply holds_same|by eapply backed_same].
  - rewrite Hp in *. split; simpl; try done.
  - specialize (Iholds eq_refl). unfold close_session in Hcl. injection Hcl as <- <-.
    assert (Hh : holds base [] [] (close_opt (v_err (ss_vq ss)) (close_opt (v_call (ss_vq ss)) (close_opt (v_kick (ss_vq ss)) (close_table (ss_mem ss) s))))).
    { apply holds_close_opt. rewrite app_nil_r. do 2 apply holds_close_opt. by apply holds_close_table. }
    split; simpl; try done.
    + unfold in_flight. simpl. by destruct Hp as [-> | ->].
    + by rewrite !close_opt_objs, close_table_objs.
    + intros _ _. split; [rewrite (hd_fds _ _ _ _ Hh); set_solver|].
      apply map_empty. intros m. destruct (sy_maps _ !! m) eqn:E; [|done].
      exfalso. apply (not_elem_of_nil (A:=Z) m). apply (hd_maps _ _ _ _ Hh). by eexists.
Qed.
End Invariant.

(** ** Draining the avail ring in order *)

(** The methods of the pop path only read. *)
Definition reads {A} (m : method sys vu_err A) : Prop := ∀ s, same_mem s (m s).1.

Lemma reads_bind {A C} (m : method sys vu_err A) (k : A → method sys vu_err C) :
  reads m → (∀ a, reads (k a)) → reads (gbind m k).
Proof.
  intros Hm Hk s. unfold gbind. specialize (Hm s). destruct (m s) as [s1 [a|e]]; [|done]. simpl in *.
  etrans; [done|apply Hk].
Qed.

Section Drain.
Context `{HostOk} (Q : quiet).

Lemma reads_rd n sl i : reads (rd n sl i).
Proof.
  intros s. unfold rd. case_if; [|done]. unfold gbind, ld. destruct (load _ _); simpl; apply (turn_quiet Q).
Qed.

Lemma reads_addDesc d raw : reads (addDesc d raw).
Proof. unfold addDesc. repeat (apply reads_bind; [apply reads_rd|intros ?]). by case_if. Qed.

Lemma reads_walkTable n : ∀ i tbl raw, reads (walkTable n i tbl raw).
Proof.
  induction n as [|n IH]; intros i tbl raw; cbn [walkTable]; [done|].
  apply reads_bind; [done|intros d]. apply reads_bind; [apply reads_addDesc|intros raw'].
  apply reads_bind; [apply reads_rd|intros f]. case_if; [apply IH|done].
Qed.

Lemma reads_walk_loop fuel : ∀ v mt idx seen raw, reads (walk_loop fuel v mt idx seen raw).
Proof.
  induction fuel as [|fuel IH]; intros v mt idx seen raw; cbn [walk_loop]; [done|]. case_if; [done|].
  apply reads_bind; [done|intros d]. apply reads_bind; [apply reads_rd|intros f]. case_if.
  - do 2 (apply reads_bind; [apply reads_rd|intros ?]). repeat (case_if; [done|]).
    apply reads_bind; [done|intros tbl]. apply reads_walkTable.
  - apply reads_bind; [apply reads_addDesc|intros raw']. case_if; [|done].
    apply reads_bind; [apply reads_rd|intros nx]. apply IH.
Qed.

Lemma reads_walkChain v mt head : reads (walkChain v mt head).
Proof. unfold walkChain. apply reads_bind; [apply reads_walk_loop|intros raw]. by case_if. Qed.

(** The head index the guest published [k] requests after the next one. *)
Definition avail_entry (s : sys) (v : vring) (k : Z) : Z :=
  peek s 2 (slice_of (v_avail v)) (4 + u16 (v_lastAvail v + k) mod v_num v * 2).
(** The index the guest published. *)
Definition avail_idx (s : sys) (v : vring) : Z := u16 (Z.shiftr (peek s 4 (slice_of (v_avail v)) 0) 16).

#[local] Instance avail_entry_proper : Proper (same_mem ==> eq ==> eq ==> eq) avail_entry.
Proof. intros s s' Hs v ? <- k ? <-. unfold avail_entry. by rewrite Hs. Qed.
#[local] Instance avail_idx_proper : Proper (same_mem ==> eq ==> eq) avail_idx.
Proof. intros s s' Hs v ? <-. unfold avail_idx. by rewrite Hs. Qed.

Lemma pop_quiet v mt s v' s' r :
  ring_ok s v → table_ok s mt → pop mt (v, s) = ((v', s'), r) →
  same_mem s s' ∧
  (r = Ok None ∧ v' = v ∧ avail_idx s v = v_lastAvail v ∨
   v' = set_lastAvail v (u16 (v_lastAvail v + 1)) ∧
   match r with Ok (Some e) => e_head e = avail_entry s v 0 | Ok None => False | Err e => ¬ crash e end).
Proof.
  intros Hv Hmt Hp. pose proof (pop_safe v s mt Hv Hmt) as (i & s1 & r1 & Hrun & _ & _ & Hr1). rewrite Hp in Hrun. simplify_eq.
  destruct (rk_desc _ _ Hv) as (dt & Hdt & _). destruct (rk_avail _ _ Hv) as (av & Hav & Hma & Hla).
  pose proof (rk_num _ _ Hv) as Hn. pose proof (rk_last _ _ Hv) as Hlast.
  unfold pop, availIdx in Hp. rewrite Hdt in Hp.
  assert (Hmav : mapped s (slice_of (v_avail v)) ∧ sl_len (slice_of (v_avail v)) = 4 + v_num v * 2) by (by rewrite (slice_of_some _ _ Hav)).
  destruct Hmav as [Hm Hl]. pose proof (turn_quiet Q s) as T1.
  rewrite (gbind_run _ _ _ _ _ (rd_quiet Q 4 _ 0 s Hm ltac:(lia) ltac:(lia) ltac:(lia))) in Hp.
  cbv beta iota delta [gret] in Hp.
  fold (avail_idx s v) in Hp. rewrite (u16_id (v_lastAvail v)) in Hp by lia.
  destruct (Z.eqb_spec (avail_idx s v) (v_lastAvail v)) as [Heq|Hne].
  { injection Hp as Hv' <- <-. split; [done|]. left. split_and!; done. }
  destruct (Z.eqb_spec (v_num v) 0); [lia|].
  pose proof (Z.mod_pos_bound (v_lastAvail v) (v_num v) ltac:(lia)) as Hmod.
  assert (Hm1 : mapped (turn s) (slice_of (v_avail v))) by (eapply mapped_same; [apply turn_same|done]).
  rewrite (rd_quiet Q 2 _ _ (turn s) Hm1) in Hp by lia.
  assert (Hpk : peek (turn s) 2 (slice_of (v_avail v)) (4 + v_lastAvail v mod v_num v * 2) = avail_entry s v 0).
  { rewrite <- T1. unfold avail_entry. by rewrite Z.add_0_r, (u16_id (v_lastAvail v)) by lia. }
  rewrite Hpk in Hp. set (v1 := set_lastAvail v (u16 (v_lastAvail v + 1))) in *.
  pose proof (reads_walkChain v1 mt (avail_entry s v 0) (turn (turn s))) as T3. pose proof (turn_quiet Q (turn s)) as T2.
  assert (Hhd : ∀ s2 e, walkChain v1 mt (avail_entry s v 0) (turn (turn s)) = (s2, Ok e) → e_head e = avail_entry s v 0).
  { intros s2 e. unfold walkChain, gbind. destruct (walk_loop _ _ _ _ _ _ _) as [s3 [raw|]]; [|done].
    case_if; [done|]. by intros [= _ <-]. }
  destruct (walkChain v1 mt (avail_entry s v 0) (turn (turn s))) as [s3 [e|e]] eqn:Ew; injection Hp as Hv' <- <-; simpl in T3.
  - split; [etrans; [exact T1|etrans; [exact T2|exact T3]]|]. right. split; [unfold v1; by rewrite Hv'|]. by eapply Hhd.
  - split; [etrans; [exact T1|etrans; [exact T2|exact T3]]|]. right. split; [unfold v1; by rewrite Hv'|done].
Qed.

Lemma ring_ok_mem s s' v : same_mem s s' → ring_ok s v → ring_ok s' v.
Proof. intros Hs. by apply ring_ok_same, same_mem_maps. Qed.

Lemma u16_add a b : u16 (u16 a + b) = u16 (a + b).
Proof. unfold u16. by rewrite Zplus_mod_idemp_l. Qed.

Lemma pop_loop_drains n : ∀ mt batch v s,
  ring_ok s v → table_ok s mt →
  ∃ k out s', pop_loop n mt batch (v, s) = ((set_lastAvail v (u16 (v_lastAvail v + k)), s'), Ok (batch ++ out)) ∧
    same_mem s s' ∧ map e_head out = map (avail_entry s v) (seqZ 0 (zlen out)) ∧
    (k = zlen out ∧ (length out = n ∨ avail_idx s v = u16 (v_lastAvail v + k)) ∨
     k = zlen out + 1 ∧ (length out < n)%nat).
Proof.
  induction n as [|n IH]; intros mt batch v s Hv Hmt; cbn [pop_loop]; pose proof (rk_last _ _ Hv) as Hl.
  { exists 0, [], s. rewrite app_nil_r, Z.add_0_r, u16_id by lia. split; [by destruct v|]. split_and!; try done. left. auto. }
  pose proof (pop_safe v s mt Hv Hmt) as (i & s1 & r & Hp & Hsm & Hi & Hr). rewrite Hp.
  destruct (pop_quiet _ _ _ _ _ _ Hv Hmt Hp) as [Hs Hcase].
  assert (Hstop : ∀ k, set_lastAvail v i = set_lastAvail v (u16 (v_lastAvail v + k)) →
    k = 0 ∧ avail_idx s v = v_lastAvail v ∨ k = 1 →
    ∃ k out s', (set_lastAvail v i, s1, Ok (E:=vu_err) batch) = ((set_lastAvail v (u16 (v_lastAvail v + k)), s'), Ok (batch ++ out)) ∧
    same_mem s s' ∧ map e_head out = map (avail_entry s v) (seqZ 0 (zlen out)) ∧
    (k = zlen out ∧ (length out = S n ∨ avail_idx s v = u16 (v_lastAvail v + k)) ∨
     k = zlen out + 1 ∧ (length out < S n)%nat)).
  { intros k Hk Hc. exists k, [], s1. rewrite Hk, app_nil_r. split; [done|]. split; [done|]. split; [done|].
    destruct Hc as [[-> Ha]| ->]; [left|right; split; [done|simpl; lia]]. split; [done|right].
    by rewrite Z.add_0_r, u16_id by lia. }
  destruct r as [[e|]|e].
  - destruct Hcase as [(? & _)|(Hv1 & Hh)]; [done|]. destruct Hr as (_ & _ & Ho & Hin & Hd & _).
    assert (Hmt1 : table_ok s1 mt) by (by eapply table_same).
    pose proof (translateSG_ok s1 mt e Hmt1 Hd Ho Hin) as Htr.
    destruct (translateSG mt e) as [e'|err].
    2:{ destruct Htr as [-> | ->]; apply (Hstop 1); auto. }
    destruct Htr as (Hhe & _). rewrite Hv1.
    destruct (IH mt (batch ++ [e']) (set_lastAvail v (u16 (v_lastAvail v + 1))) s1) as (k & out & s2 & Hrec & Hs2 & Hmap & Hk); [|done|].
    { apply ring_ok_last; [by eapply ring_ok_mem|apply Z.mod_pos_bound; lia]. }
    exists (k + 1), (e' :: out), s2. rewrite Hrec, <- app_assoc. simpl. rewrite u16_add.
    split; [do 3 f_equal; f_equal; lia|]. split; [by etrans|].
    assert (Hent : ∀ j, avail_entry s1 (set_lastAvail v (u16 (v_lastAvail v + 1))) j = avail_entry s v (1 + j)).
    { intros j. rewrite <- Hs. unfold avail_entry. simpl. rewrite u16_add. do 4 f_equal. f_equal. lia. }
    assert (Hidx : avail_idx s1 (set_lastAvail v (u16 (v_lastAvail v + 1))) = avail_idx s v) by (by rewrite <- Hs).
    split.
    + rewrite zlen_cons, Hhe, Hh, Hmap. pose proof (zlen_nonneg out).
      rewrite (seqZ_cons 0 (1 + zlen out)) by lia. cbn [map]. f_equal.
      replace (Z.pred (1 + zlen out)) with (zlen out) by lia. change (Z.succ 0) with (1 + 0).
      rewrite <- fmap_add_seqZ. unfold fmap, list_fmap. etrans; [|symmetry; apply map_map]. apply map_ext. intros j. by rewrite Hent.
    + rewrite Hidx in Hk. simpl in Hk. rewrite u16_add, zlen_cons in *. simpl.
      replace (v_lastAvail v + (k + 1)) with (v_lastAvail v + 1 + k) by lia.
      destruct Hk as [[-> [Hk|Hk]]|[-> Hk]]; [left|left|right]; (split; [lia|]); auto; lia.
  - destruct Hcase as [(_ & Hvv & Ha)|(_ & [])]. apply (Hstop 0); [rewrite Z.add_0_r, u16_id by lia; rewrite Hvv; by destruct v|auto].
  - destruct Hcase as [(? & _)|(Hv1 & He)]; [done|]. destruct e; try (apply (Hstop 1); [done|by auto]); exfalso; apply He; unfold crash; auto.
Qed.
End Drain.
