(* ===== verification/VuDemo.v ===== *)
(** * A concrete host and session

    A host whose kernel maps one memory object and whose guest is at rest, a
    guest memory with one read request in its queue, and an executable scheduler
    that runs the session's steps, on which the properties of the vhost-user
    backend are instantiated. *)

From S2P Require Import Prelude Bytes.
From S2P Require Import VuMem VuRing VuQueue VuBlk VuBlkSpec VuBackends VuProto VuSession VuSessionSpec.

(** ** The host *)

#[global] Instance demo_host : Host := {|
  k_mmap _ off len := if (0 <? len) && (0 <=? off) then Some 0 else None;
  k_dup fd open := if (0 <=? fd) && negb (bool_decide (100 + fd ∈ open)) then Some (100 + fd) else None;
  guest _ objs := objs;
|}.

#[global] Instance demo_host_ok : HostOk.
Proof.
  split; simpl.
  - intros fd off len o. destruct (Z.ltb_spec 0 len), (Z.leb_spec 0 off); by simpl.
  - intros fd open nfd. destruct (Z.leb_spec 0 fd); simpl; [|done]. case_bool_decide; simpl; [done|].
    intros [= <-]. split; [done|lia].
  - intros t objs o f Hf. by exists f.
Qed.

Lemma demo_quiet : quiet.
Proof. done. Qed.

(** ** Guest memory: three descriptors (header, data, status) in the queue *)

Definition demo_desc (addr len flags next : Z) : list Z :=
  le_encode 8 addr ++ le_encode 4 len ++ le_encode 2 flags ++ le_encode 2 next.

Definition demo_mem : file :=
  let f := fwrite (File ∅ 8192) 0 (demo_desc 0x1300 16 1 1 ++ demo_desc 0x1400 512 3 2 ++ demo_desc 0x1600 1 2 0) in
  let f := fwrite f 0x100 (le_encode 2 0 ++ le_encode 2 1 ++ le_encode 2 0) in
  fwrite f 0x300 (le_encode 4 blkTIn ++ le_encode 4 0 ++ le_encode 8 1).

Lemma demo_mem_bytes : file_bytes demo_mem.
Proof.
  unfold demo_mem, demo_desc. repeat apply fwrite_bytes; rewrite ?Forall_app; repeat split; try apply le_encode_bytes; done.
Qed.

Definition demo_objs : gmap Z file := {[ 0 := demo_mem ]}.

Lemma demo_backed : backed demo_objs.
Proof.
  intros fd off len o. simpl. case_if; [|done]. intros [= <-]. exists demo_mem. split; [done|apply demo_mem_bytes].
Qed.

(** ** The disk *)

Definition demo_disk : rawWritable := {| rw_f := fwrite (File ∅ 4096) 512 [9; 8; 7]; rw_size := 4096; rw_io := [] |}.

Lemma demo_disk_ok : be_inv demo_disk.
Proof. split; [done|]. split; [done|]. by apply fwrite_bytes; [|repeat constructor]. Qed.

Definition demo_dev : BlkDev := NewBlkDev demo_disk false.
Definition no_stale (_ : Z) : Z := 0xAA.

(** ** Messages *)

Definition demo_msg (req : Z) (payload fds : list Z) : msg :=
  {| m_request := req; m_flags := 1; m_payload := payload; m_fds := fds |}.
Definition demo_table (fd : Z) : msg :=
  demo_msg reqSetMemTable (le_encode 4 1 ++ le_encode 4 0 ++ le_encode 8 0x1000 ++ le_encode 8 0x2000 ++ le_encode 8 0 ++ le_encode 8 0) [fd].
Definition demo_num (n : Z) : msg := demo_msg reqSetVringNum (le_encode 4 0 ++ le_encode 4 n) [].
Definition demo_addr (avail : Z) : msg :=
  demo_msg reqSetVringAddr (le_encode 4 0 ++ le_encode 4 0 ++ le_encode 8 0x1000 ++ le_encode 8 0x1200 ++ le_encode 8 avail ++ le_encode 8 0) [].
Definition demo_kick (fd : Z) : msg := demo_msg reqSetVringKick (le_encode 8 0) [fd].
Definition demo_nokick : msg := demo_msg reqSetVringKick (le_encode 8 vringNoFD) [].
Definition demo_enable : msg := demo_msg reqSetVringEnable (le_encode 4 0 ++ le_encode 4 1) [].

(** ** A scheduler *)

Inductive event : Type := EvMsg (m : msg) | EvClose | EvPop | EvProcess | EvPublish | EvExit | EvTeardown.

#[global] Instance is_byte_dec b : Decision (is_byte b).
Proof. unfold is_byte. apply _. Defined.

Section Scheduler.
Context (late : bool).

Definition run_event (ev : event) (st : sstate rawWritable) : option (sstate rawWritable) :=
  let '(SState ss s be torn) := st in
  match ev with
  | EvMsg m =>
      if decide ((late = true ∨ ss_closed ss = false) ∧ (m_request m = reqSetMemTable → ss_busy ss = 0 ∧ announced (sy_objs s) (m_payload m) (m_fds m)) ∧
                 Forall is_byte (m_payload m) ∧ NoDup (m_fds m) ∧
                 Forall (λ fd, 0 ≤ fd ∧ (fd ∉ sy_fds s)) (m_fds m))
      then let '((ss', s'), (_, go)) := run_message demo_dev m (ss, recv_fds (m_fds m) s) in
           Some (SState (if go then ss' else set_closed ss') s' be torn)
      else None
  | EvClose => Some (SState (set_closed ss) s be torn)
  | EvPop =>
      match torn, ss_pump ss, popBatch (ss, s) with
      | false, PumpWait, ((ss', s'), Ok batch) =>
          Some (SState (if zlen batch =? 0 then ss' else set_pump ss' (PumpBatch batch []) (ss_busy ss')) s' be false)
      | _, _, _ => None
      end
  | EvProcess =>
      match torn, ss_pump ss with
      | false, PumpBatch (e :: todo) completed =>
          let '((be', s'), r) := process demo_dev no_stale e (be, s) in
          Some (SState (set_pump ss (PumpBatch todo (match r with Ok used => completed ++ [(e, used)] | Err _ => completed end))
                         (ss_busy ss)) s' be' false)
      | _, _ => None
      end
  | EvPublish =>
      match torn, ss_pump ss with
      | false, PumpBatch [] completed =>
          match publishBatch completed (ss, s) with
          | ((ss', s'), Ok _) => Some (SState ss' s' be false)
          | _ => None
          end
      | _, _ => None
      end
  | EvExit =>
      match torn, ss_pump ss with
      | false, PumpWait =>
          if decide (ss_closed ss = true ∨ v_kick (ss_vq ss) = None)
          then Some (SState (set_pump ss PumpGone (ss_busy ss)) s be false) else None
      | _, _ => None
      end
  | EvTeardown =>
      match torn, ss_closed ss, ss_pump ss with
      | false, true, (PumpOff | PumpGone) => let '(ss', s') := close_session ss s in Some (SState ss' s' be true)
      | _, _, _ => None
      end
  end.

Definition run_events (evs : list event) (st : sstate rawWritable) : option (sstate rawWritable) :=
  fold_left (λ o ev, o ≫= run_event ev) evs (Some st).

Lemma run_event_step ev st st' : run_event ev st = Some st' → sess_step demo_dev no_stale late st st'.
Proof.
  destruct st as [ss s be torn], ev; cbn [run_event].
  - destruct (decide _) as [(? & ? & ? & ? & Hf)|]; [|done].
    destruct (run_message _ _ _) as [[ss' s'] [out go]] eqn:E. intros [= <-]. eapply step_msg; eauto.
    by apply list.Forall_forall.
  - intros [= <-]. constructor.
  - destruct torn, (ss_pump ss) eqn:?, (popBatch (ss, s)) as [[ss' s'] []] eqn:?; try done.
    intros [= <-]. by eapply step_pop.
  - destruct torn, (ss_pump ss) as [| |[|e todo] completed|] eqn:?; try done.
    destruct (process _ _ _ _) as [[be' s'] r] eqn:?. intros [= <-]. by eapply step_process.
  - destruct torn, (ss_pump ss) as [| |[|e todo] completed|] eqn:?; try done.
    destruct (publishBatch _ _) as [[ss' s'] [[]|]] eqn:?; [|done]. intros [= <-]. by eapply step_publish.
  - destruct torn, (ss_pump ss) eqn:?; try done. destruct (decide _); [|done]. intros [= <-]. by apply step_exit.
  - destruct torn, (ss_closed ss) eqn:?, (ss_pump ss) eqn:?; try done;
      (destruct (close_session ss s) as [ss' s'] eqn:?; intros [= <-]; eapply step_teardown; eauto).
Qed.

Lemma run_events_none evs : fold_left (λ o ev, o ≫= run_event ev) evs None = None.
Proof. by induction evs. Qed.

Lemma run_events_rtc evs st st' : run_events evs st = Some st' → rtc (sess_step demo_dev no_stale late) st st'.
Proof.
  revert st. induction evs as [|ev evs IH]; intros st; unfold run_events; cbn [fold_left]; [by intros [= <-]; constructor|].
  cbn [mbind option_bind]. destruct (run_event ev st) as [st1|] eqn:E; [|by rewrite run_events_none].
  intros Hr. eapply rtc_l; [exact (run_event_step _ _ _ E)|by apply IH].
Qed.

(** The state a run that is not stuck ends in. *)
Definition final (evs : list event) (st : sstate rawWritable) : sstate rawWritable := default st (run_events evs st).

Lemma final_rtc evs st :
  bool_decide (is_Some (run_events evs st)) = true → rtc (sess_step demo_dev no_stale late) st (final evs st).
Proof.
  unfold final. intros H. apply (run_events_rtc evs). destruct (run_events evs st) as [st'|]; [done|].
  by apply bool_decide_eq_true_1, is_Some_None in H.
Qed.
End Scheduler.

(** A session set up by its frontend, with one request waiting. *)
Definition demo_setup : list event :=
  map EvMsg [demo_table 5; demo_num 4; demo_addr 0x1100; demo_kick 6; demo_enable].

(** ** The state it leads to *)

Definition demo_slice (off len : Z) : slice := {| sl_map := 0; sl_off := off; sl_len := len; sl_cap := 8192 - off |}.
Definition demo_sys : sys :=
  {| sy_objs := demo_objs; sy_maps := {[ 0 := {| mp_obj := 0; mp_off := 0; mp_len := 8192 |} ]}; sy_next := 1;
     sy_fds := {[ 1; 5; 106 ]}; sy_signals := []; sy_time := 0 |}.
Definition demo_regions : memTable := [{| r_gpa := 0x1000; r_size := 0x2000; r_data := demo_slice 0 8192; r_fd := 5 |}].
Definition demo_ring : vring :=
  {| v_num := 4; v_desc := Some (demo_slice 0 64); v_avail := Some (demo_slice 256 12); v_used := Some (demo_slice 512 36);
     v_lastAvail := 0; v_usedIdx := 0; v_kick := Some 106; v_call := None; v_err := None; v_enabled := true |}.
Definition demo_elem : elem :=
  {| e_head := 0; e_outSG := [demo_slice 768 16]; e_inSG := [demo_slice 1024 512; demo_slice 1536 1]; e_raw := [] |}.

Lemma demo_mapped off len : 0 ≤ off → 0 ≤ len → off + len ≤ 8192 → mapped demo_sys (demo_slice off len).
Proof.
  intros. split_and!; simpl; try lia. exists {| mp_obj := 0; mp_off := 0; mp_len := 8192 |}, demo_mem.
  split_and!; simpl; try done; try lia; apply demo_mem_bytes.
Qed.

Lemma demo_table_ok : table_ok demo_sys demo_regions.
Proof. apply Forall_singleton. split; try done. by apply demo_mapped. Qed.

Lemma demo_ring_ok : ring_ok demo_sys demo_ring.
Proof.
  split; simpl; try lia; (eexists; split; [done|]); (split; [by apply demo_mapped|done]).
Qed.

Lemma demo_elem_ok : elem_ok demo_sys demo_elem.
Proof. repeat apply Forall_cons; try apply Forall_nil; by apply demo_mapped. Qed.

Lemma demo_pairwise : pairwise demo_sys (e_inSG demo_elem).
Proof. split; [|by repeat constructor]. apply Forall_singleton. right. left. by vm_compute. Qed.
