(* ===== verification/VuClaims.v ===== *)
(** * Properties of the vhost-user backend

    The statements of record about [internal/vhost/vu], with a concrete host and
    session on which their hypotheses are met, and runs that exhibit what a
    frontend can do to a session whose rings it has not kept bound. *)

From S2P Require Import Prelude Bytes Qcow2Layout Qcow2Image Qcow2Write Qcow2WriteAt Qcow2Create.
From S2P Require Import VuMem VuRing VuQueue VuBlk VuBlkSpec VuBackends VuProto VuSession VuSessionSpec VuDemo.

(** ** Memory *)

(** Address translation is exact and overflow-safe: for a well-formed table,
    [translate] succeeds precisely when the guest range lies inside one mapped
    region, and then returns the slice of that region's mapping at that offset,
    valid over its whole capacity; otherwise it reports a wrap-around of the
    64-bit address or an address outside the table. *)
Theorem translate_spec s mt gpa size :
  table_ok s mt → 0 ≤ gpa < 2 ^ 64 → 0 ≤ size →
  match translate mt gpa size with
  | Ok sl => mapped s sl ∧ sl_len sl = size ∧
             ∃ r, r ∈ mt ∧ in_region gpa size r ∧ sl_map sl = sl_map (r_data r) ∧ sl_off sl = gpa - r_gpa r
  | Err e => (e = VRangeWraps ∧ 2 ^ 64 ≤ gpa + size) ∨ (e = VOutside ∧ Forall (λ r, ¬ in_region gpa size r) mt)
  end.
Proof. apply translate_exact. Qed.

(** SET_MEM_TABLE neither leaks nor double-frees: starting from a process that
    owns exactly [base], the table's regions and the received descriptors (whose
    regions lie inside the files they name), on every path - malformed payloads and failing mappings included - it ends
    owning exactly [base] and the regions of the resulting table.  On success the
    table holds the regions the payload describes; on an error it is the old
    table or empty. *)
Theorem setMemTable_owns `{HostOk} payload fds base mt s :
  Forall is_byte payload → holds base fds mt s → backed (sy_objs s) → announced (sy_objs s) payload fds →
  ∃ mt' s' r, setMemTable payload fds (mt, s) = ((mt', s'), r) ∧ holds base [] mt' s' ∧
    match r with
    | Ok _ => zlen mt' = le_at 4 payload 0 ∧ map r_fd mt' = take (length mt') fds ∧
              ∀ k r, mt' !! k = Some r → described payload (Z.of_nat k) r
    | Err e => (mt' = mt ∨ mt' = []) ∧ ¬ crash e
    end.
Proof. apply setMemTable_holds. Qed.

(** ** Queues *)

(** C21. Descriptor chains are walked exactly and the walk ends: on a configured ring
    over a well-formed memory table, with the guest at rest, [walkChain] always
    returns - its loop guard fires before the [2*num + 2] rounds the loop is given
    run out, and no index is out of range - and it returns an element precisely for
    the chains the specification describes (direct descriptors, or an indirect table
    last) that visit at most [2*num + 1] table entries, with the chain's descriptors
    in order.  Every other head - a loop, a bad index, a zero length, a bad indirect
    table - gets one of the code's own errors. *)
Theorem walkChain_exact `{HostOk} (Q : quiet) s v mt head :
  ring_ok s v → table_ok s mt → 0 ≤ head →
  ∃ s' r, walkChain v mt head s = (s', r) ∧ safe r ∧
    ∀ e, r = Ok e ↔
      ∃ m ds, chain s v mt head m ds ∧ m ≤ v_num v * 2 + 1 ∧
              e = {| e_head := head; e_outSG := []; e_inSG := []; e_raw := ds |}.
Proof.
  intros Hv Hmt Hh. destruct (run_safe_walkChain s v mt head Hv Hmt Hh) as [_ Hsafe].
  pose proof (λ e, walkChain_chain Q s v mt head e Hv Hmt Hh) as Hex.
  destruct (walkChain v mt head s) as [s' r]. exists s', r. split; [done|]. split; [by destruct r|].
  intros e. rewrite <- Hex. split; [intros ->; by exists s'|]. by intros [? [= _ ->]].
Qed.

(** A descriptor that names itself as its successor is refused by the loop guard. *)
Definition looping_sys : sys :=
  with_objs demo_sys {[ 0 := fwrite demo_mem 0 (demo_desc 0x1300 16 1 0) ]}.

Theorem loop_refused : (walkChain demo_ring demo_regions 0 looping_sys).2 = Err VChainLoop.
Proof. vm_compute. reflexivity. Qed.

(** A hostile guest cannot crash the pop path: whatever the guest writes into
    descriptors, rings and indirect tables, before or between the reads, [pop]
    and [translateSG] terminate without an out-of-range index or a fault, keep
    the mappings, and deliver only slices that are mapped. *)
Theorem pop_robust `{HostOk} v s mt :
  ring_ok s v → table_ok s mt →
  ∃ i s' r, pop mt (v, s) = ((set_lastAvail v i, s'), r) ∧ same_maps s s' ∧ safe r ∧
    ∀ e, r = Ok (Some e) → safe (translateSG mt e) ∧
      ∀ e', translateSG mt e = Ok e' → elem_ok s' e'.
Proof.
  intros Hv Hmt. destruct (pop_safe v s mt Hv Hmt) as (i & s' & r & Hp & Hs & _ & Hr).
  exists i, s', r. split; [done|]. split; [done|]. split; [by destruct r as [[]|]|].
  intros e ->. destruct Hr as (_ & _ & Ho & Hi & Hd & _).
  pose proof (translateSG_ok s' mt e ltac:(by eapply table_same) Hd Ho Hi) as Ht.
  destruct (translateSG mt e) as [e1|err]; simpl.
  - split; [done|]. intros e' [= <-]. destruct Ht as (_ & _ & Ht & _). by destruct (sgLen_bound _ _ Ht).
  - split; [|done]. destruct Ht as [-> | ->]; by intros [|[|]].
Qed.

(** A completion is published exactly: [push] writes the element's head and
    length into the used-ring slot, then the incremented 16-bit index beside the
    flags the guest reads, and changes no other byte of guest memory. *)
Theorem push_publishes `{HostOk} (Q : quiet) v s e usedLen :
  ring_ok s v →
  ∃ s', push e usedLen (v, s) = ((set_usedIdx v (u32 (v_usedIdx v + 1)), s'), Ok tt) ∧ same_maps s s' ∧
    ∀ o j, gbyte s' o j = completion s v e usedLen o j.
Proof. by apply push_quiet. Qed.

(** Requests are taken in order and none is taken twice: with the rings bound
    and the guest at rest, one batch consists of the head indices the guest
    published from the last consumed one on, across the 16-bit wrap-around; it
    ends because 128 requests were taken, because the published index was
    reached, or because the request after the batch was malformed - and that
    request is consumed and dropped. *)
Theorem popBatch_in_order `{HostOk} (Q : quiet) mt v s :
  ring_ok s v → table_ok s mt →
  ∃ k out s', pop_loop (Z.to_nat pumpMaxBatch) mt [] (v, s) = ((set_lastAvail v (u16 (v_lastAvail v + k)), s'), Ok out) ∧
    same_mem s s' ∧ map e_head out = map (avail_entry s v) (seqZ 0 (zlen out)) ∧
    (k = zlen out ∧ (zlen out = pumpMaxBatch ∨ avail_idx s v = u16 (v_lastAvail v + k)) ∨
     k = zlen out + 1 ∧ zlen out < pumpMaxBatch).
Proof.
  intros Hv Hmt. destruct (pop_loop_drains Q (Z.to_nat pumpMaxBatch) mt [] v s Hv Hmt) as (k & out & s' & Hr & Hs & Hm & Hk).
  exists k, out, s'. split_and!; try done. unfold zlen, pumpMaxBatch in *.
  destruct Hk as [[-> [Hk|Hk]]|[-> Hk]]; [left; split; [done|left; lia]|left; split; [done|by right]|right; lia].
Qed.

(** ** The device *)

(** The bounce-buffer pool is sound: a request of any size gets a buffer of
    that length - within the pooled range one of the smallest power-of-two bucket
    that fits, never a smaller recycled one - and both operations keep every
    bucket's buffers at the bucket's capacity. *)
Theorem bufPool_sound n cap ps :
  pools_ok ps → 0 ≤ n →
  pools_ok (putBuf cap ps) ∧
  ∃ ps' c, getBuf n ps = (ps', Ok (n, c)) ∧ pools_ok ps' ∧ n ≤ c ∧
    (n ≤ 65536 → c = Z.shiftl bufPoolMinSize (bufBucket n) ∧
                 (0 < bufBucket n → Z.shiftl bufPoolMinSize (bufBucket n - 1) < n)).
Proof.
  intros Hp Hn. split; [by apply putBuf_ok|]. destruct (getBuf_ok n ps Hp Hn) as (ps' & c & ? & ? & ? & Hc).
  exists ps', c. split_and!; try done. intros Hle. split; [by apply Hc|]. by apply bufBucket_spec.
Qed.

(** No request can crash the device or reach past the disk: on an element whose
    slices are mapped, whatever the guest writes meanwhile, [process] returns,
    keeps the mappings and the backend's invariant, fails only for a missing or
    short header, and on a read-only device leaves every byte of the disk. *)
Theorem process_robust `{HostOk} {B : Type} `{BackendOk B} d stale e (be : B) s :
  be_inv be → elem_ok s e → sgLen (e_outSG e ++ e_inSG e) < 2 ^ 62 → room be e →
  ∃ be' s' r, process d stale e (be, s) = ((be', s'), r) ∧ be_inv be' ∧ same_maps s s' ∧
    be_Size be' = be_Size be ∧ (d_ro d = true → ∀ i, 0 ≤ i < be_Size be → be_byte be' i = be_byte be i) ∧
    match r with
    | Ok _ => True
    | Err err => err = VMissingHeaders ∨ err = VShortOutHdr ∨ err = VShortInHdr
    end.
Proof. apply process_safe. Qed.

(** C15. The device refines an array of sectors: for a well-formed element and any
    backend that meets the storage interface, [process] performs exactly the step
    of the abstract block device for the decoded request - reads deliver the disk
    bytes to the data buffers, writes store the gathered data (never what a
    recycled bounce buffer held) and only that, out-of-range or read-only
    requests touch nothing; an in-range read reports success exactly when the
    backend's read succeeded, and a failed one delivers nothing - stores the status
    byte, reports the used length and changes no other guest memory. *)
Theorem process_refines `{HostOk} {B : Type} `{BackendOk B} (Q : quiet) d stale e out dataOut dataIn sb (be : B) s :
  e_outSG e = out :: dataOut → e_inSG e = dataIn ++ [sb] →
  be_inv be → elem_ok s e → pairwise s (e_inSG e) → 16 ≤ sl_len out → 1 ≤ sl_len sb →
  sgLen (e_outSG e ++ e_inSG e) < 2 ^ 62 → room be e →
  ∃ be' s' status used, process d stale e (be, s) = ((be', s'), Ok used) ∧
    gbyte s' (origin s sb).1 (origin s sb).2 = status ∧
    served d be s (request_of s (peek s 4 out 0) (peek s 8 out 8) dataIn dataOut) (e_inSG e) be' s' status used.
Proof. by apply process_served. Qed.

(** ** The session *)

(** The wire format round-trips: a message sent with any request, flags and
    payload within the protocol's bounds is received as itself, with the protocol
    version set to 1, and the bytes that follow it are left for the next one. *)
Theorem send_recv request flags payload rest fds :
  0 ≤ request < 2 ^ 32 → 0 ≤ flags < 2 ^ 32 → zlen payload ≤ 8192 →
  recv (send request flags payload ++ rest) fds false =
  Ok ({| m_request := request; m_flags := Z.lor (Z.ldiff flags flagVersion) 1; m_payload := payload; m_fds := fds |}, rest).
Proof. apply recv_send. Qed.

(** The initial state of a session in a process that owns [base]. *)
Definition start {B} (base : gset Z) (objs : gmap Z file) (be : B) : sstate B :=
  SState newSession {| sy_objs := objs; sy_maps := ∅; sy_next := 0; sy_fds := base; sy_signals := []; sy_time := 0 |} be false.

Lemma start_inv `{HostOk} {B : Type} `{BackendOk B} late base objs (be : B) :
  backed objs → be_inv be → sinv late base (start base objs be).
Proof.
  intros Hb Hbe. split; simpl; try done.
  intros _. split; simpl; try (by constructor).
  - set_solver.
  - intros m. rewrite lookup_empty. split; [by intros [? ?]|by intros ?%not_elem_of_nil].
  - by intros m ?%not_elem_of_nil.
  - by intros m ?%not_elem_of_nil.
Qed.

Lemma reachable_inv `{HostOk} {B : Type} `{BackendOk B} d stale late base (st st' : sstate B) :
  rtc (sess_step d stale late) st st' → sinv late base st → sinv late base st'.
Proof. induction 1 as [|st1 st2 st3 Hs _ IH]; [done|]. intros Hi. by eapply IH, sinv_step. Qed.

(** C4. No use after unmap.  The frontend is assumed to announce only regions that
    lie inside the files it passes and the guest not to truncate them
    ([announced], [guest_sizes]; the backend checks neither, see
    [short_file_faults]); a batch is assumed to fit the host's storage ([room]).
    Then in every state the control thread and the pump can reach by interleaving
    their critical sections - memory tables replaced, rings reconfigured, the
    session closed while requests run without the lock - the request being
    processed refers only to memory that is still mapped, so [process] returns
    without a fault, a panic or running out of fuel. *)
Theorem in_flight_safe `{HostOk} {B : Type} `{BackendOk B} d stale late base objs (be0 : B) st e todo completed :
  backed objs → be_inv be0 → rtc (sess_step d stale late) (start base objs be0) st →
  ss_pump (st_ss st) = PumpBatch (e :: todo) completed → room (st_be st) e →
  safe (process d stale e (st_be st, st_sys st)).2.
Proof.
  intros Hb Hbe Hr Hp Hroom. destruct (reachable_inv _ _ _ base _ _ Hr (start_inv late base objs be0 Hb Hbe)) as [_ _ Hbt _ _ _ Hbe' _].
  unfold in_flight in Hbt. rewrite Hp in Hbt. apply Forall_inv in Hbt as [He Hl].
  destruct (process_safe d stale e _ _ Hbe' He Hl Hroom) as (be' & s' & r & -> & _ & _ & _ & _ & Hres). simpl.
  destruct r as [|err]; [done|]. destruct Hres as [-> |[-> | ->]]; by intros [|[|]].
Qed.

(** C19. A closed session holds nothing: once the session has been torn down,
    provided no message is handled after it was closed ([late = false]; see
    [late_message_leaks]) and the frontend announced only memory its files hold,
    the process owns exactly the descriptors it owned before the session and no
    mapping is left, whatever else the frontend sent and however the pump was
    interrupted. *)
Theorem teardown_releases `{HostOk} {B : Type} `{BackendOk B} d stale base objs (be0 : B) st :
  backed objs → be_inv be0 → rtc (sess_step d stale false) (start base objs be0) st → st_torn st = true →
  sy_fds (st_sys st) = base ∧ sy_maps (st_sys st) = ∅.
Proof.
  intros Hb Hbe Hr Ht. destruct (reachable_inv _ _ _ base _ _ Hr (start_inv false base objs be0 Hb Hbe)) as [_ _ _ _ _ _ _ Hrel].
  by apply Hrel.
Qed.

(** ** Instances *)

Lemma translate_spec_witness :
  translate demo_regions 0x1300 16 = Ok (demo_slice 768 16) ∧ mapped demo_sys (demo_slice 768 16).
Proof.
  split; [reflexivity|].
  destruct (translate_spec demo_sys demo_regions 0x1300 16 demo_table_ok ltac:(lia) ltac:(lia)) as [Hm _]. exact Hm.
Defined.

Lemma holds_none objs : holds {[1]} [5] [] {| sy_objs := objs; sy_maps := ∅; sy_next := 0; sy_fds := {[1; 5]}; sy_signals := []; sy_time := 0 |}.
Proof.
  split; simpl; try (by constructor).
  - intros m. rewrite lookup_empty. split; [by intros [? ?]|by intros ?%not_elem_of_nil].
  - by intros m ?%not_elem_of_nil.
  - intros fd ->%list_elem_of_singleton. split; [lia|]. set_solver.
  - apply NoDup_singleton.
Qed.

Lemma setMemTable_owns_witness :
  ∃ mt' s' r, setMemTable (m_payload (demo_table 5)) [5]
     ([], {| sy_objs := demo_objs; sy_maps := ∅; sy_next := 0; sy_fds := {[1; 5]}; sy_signals := []; sy_time := 0 |}) = ((mt', s'), r) ∧
    holds {[1]} [] mt' s'.
Proof.
  destruct (setMemTable_owns (m_payload (demo_table 5)) [5] {[1]} [] _ ltac:(by vm_compute; repeat constructor) (holds_none demo_objs) demo_backed eq_refl)
    as (mt' & s' & r & H1 & H2 & _). by exists mt', s', r.
Defined.

Lemma walkChain_exact_witness :
  ∃ m ds, chain demo_sys demo_ring demo_regions 0 m ds ∧ m ≤ 9 ∧ zlen ds = 3.
Proof.
  assert (match (walkChain demo_ring demo_regions 0 demo_sys).2 with Ok e => zlen (e_raw e) | Err _ => 0 end = 3) as Hl by (by vm_compute).
  destruct (walkChain_exact demo_quiet demo_sys demo_ring demo_regions 0 demo_ring_ok demo_table_ok ltac:(lia))
    as (s' & r & Hw & _ & Hex). rewrite Hw in Hl. simpl in Hl. clear Hw. destruct r as [e|err]; [|discriminate Hl].
  destruct (proj1 (Hex e) eq_refl) as (m & ds & ? & ? & ->). exists m, ds. split_and!; [assumption|assumption|exact Hl].
Defined.

Lemma pop_robust_witness :
  ∃ i s' r, pop demo_regions (demo_ring, demo_sys) = ((set_lastAvail demo_ring i, s'), r) ∧ safe r.
Proof.
  destruct (pop_robust demo_ring demo_sys demo_regions demo_ring_ok demo_table_ok) as (i & s' & r & ? & ? & ? & _).
  exists i, s', r. by split.
Defined.

Lemma push_publishes_witness :
  ∃ s', push demo_elem 513 (demo_ring, demo_sys) = ((set_usedIdx demo_ring 1, s'), Ok tt) ∧ gbyte s' 0 514 = 1.
Proof.
  destruct (push_publishes demo_quiet demo_ring demo_sys demo_elem 513 demo_ring_ok) as (s' & ? & _ & Hb).
  exists s'. split; [assumption|]. rewrite Hb. by vm_compute.
Defined.

Lemma popBatch_in_order_witness :
  ∃ k out s', pop_loop 128 demo_regions [] (demo_ring, demo_sys) = ((set_lastAvail demo_ring (u16 (0 + k)), s'), Ok out) ∧
    map e_head out = map (avail_entry demo_sys demo_ring) (seqZ 0 (zlen out)).
Proof.
  destruct (popBatch_in_order demo_quiet demo_regions demo_ring demo_sys demo_ring_ok demo_table_ok)
    as (k & out & s' & H1 & _ & H2 & _). exists k, out, s'. split; assumption.
Defined.

Lemma bufPool_sound_witness :
  pools_ok (putBuf 8192 (replicate 8 [])) ∧ ∃ ps' c, getBuf 5000 (replicate 8 []) = (ps', Ok (5000, c)) ∧ pools_ok ps'.
Proof.
  destruct (bufPool_sound 5000 8192 (replicate 8 [])) as (? & ps' & c & ? & ? & _); [|lia|split; [done|by exists ps', c]].
  split; [done|]. intros b _. rewrite zget_replicate. constructor.
Defined.

Lemma process_robust_witness :
  ∃ be' s' r, process demo_dev no_stale demo_elem (demo_disk, demo_sys) = ((be', s'), r) ∧ be_inv be' ∧ same_maps demo_sys s'.
Proof.
  destruct (process_robust demo_dev no_stale demo_elem demo_disk demo_sys demo_disk_ok demo_elem_ok)
    as (be' & s' & r & ? & ? & ? & _); [by vm_compute|done|exists be', s', r; split_and!; assumption].
Defined.

Lemma process_refines_witness :
  ∃ be' s' status used, process demo_dev no_stale demo_elem (demo_disk, demo_sys) = ((be', s'), Ok used) ∧
    served demo_dev demo_disk demo_sys
      (request_of demo_sys (peek demo_sys 4 (demo_slice 768 16) 0) (peek demo_sys 8 (demo_slice 768 16) 8) [demo_slice 1024 512] [])
      (e_inSG demo_elem) be' s' status used.
Proof.
  destruct (process_refines demo_quiet demo_dev no_stale demo_elem (demo_slice 768 16) [] [demo_slice 1024 512] (demo_slice 1536 1)
              demo_disk demo_sys eq_refl eq_refl demo_disk_ok demo_elem_ok demo_pairwise)
    as (be' & s' & status & used & ? & _ & ?); [by vm_compute..|done|]. exists be', s', status, used. split; assumption.
Defined.

Lemma send_recv_witness :
  recv (send reqSetVringNum 1 [0; 0; 0; 0; 4; 0; 0; 0] ++ [99]) [] false =
  Ok ({| m_request := reqSetVringNum; m_flags := 1; m_payload := [0; 0; 0; 0; 4; 0; 0; 0]; m_fds := [] |}, [99]).
Proof. apply (send_recv reqSetVringNum 1 [0; 0; 0; 0; 4; 0; 0; 0] [99] []); by vm_compute. Defined.

Definition demo_start : sstate rawWritable := start {[1]} demo_objs demo_disk.

Definition demo_closing : list event := demo_setup ++ [EvPop; EvClose].

(** The session is closed while a popped request waits to be processed. *)
Lemma in_flight_safe_witness :
  let st := final false demo_closing demo_start in
  ss_closed (st_ss st) = true ∧ safe (process demo_dev no_stale demo_elem (st_be st, st_sys st)).2.
Proof.
  intros st. split; [vm_compute; reflexivity|].
  apply (in_flight_safe demo_dev no_stale false {[1]} demo_objs demo_disk st demo_elem [] [] demo_backed demo_disk_ok).
  - apply final_rtc. vm_compute. reflexivity.
  - vm_compute. reflexivity.
  - exact I.
Defined.

Definition demo_whole : list event := demo_setup ++ [EvPop; EvProcess; EvPublish; EvClose; EvExit; EvTeardown].

Lemma teardown_releases_witness :
  let st := final false demo_whole demo_start in
  sy_fds (st_sys st) = {[1]} ∧ sy_maps (st_sys st) = ∅.
Proof.
  intros st. apply (teardown_releases demo_dev no_stale {[1]} demo_objs demo_disk st demo_backed demo_disk_ok).
  - apply final_rtc. vm_compute. reflexivity.
  - vm_compute. reflexivity.
Defined.

(** ** Runs a frontend can provoke

    The ring caches slices of guest memory from SET_VRING_ADDR on; nothing rebinds
    or clears them when a later message changes what they were derived from. *)

Definition pop_result (evs : list event) : option vu_err :=
  let st := final true evs demo_start in
  match (popBatch (st_ss st, st_sys st)).2 with Ok _ => None | Err e => Some e end.

Definition is_run (evs : list event) : bool := bool_decide (is_Some (run_events true evs demo_start)).

(** A second SET_MEM_TABLE unmaps the memory the rings still point into: the next
    kick makes the pump read an address that is no longer mapped. *)
Theorem stale_ring_faults :
  is_run (demo_setup ++ [EvMsg (demo_table 7)]) = true ∧
  pop_result (demo_setup ++ [EvMsg (demo_table 7)]) = Some VFault.
Proof. split; vm_compute; reflexivity. Qed.

(** SET_VRING_ADDR with a good descriptor table and a bad avail address reports an
    error but leaves the descriptor table set and the avail ring nil: [pop], which
    tests only the descriptor table, indexes the nil ring. *)
Theorem half_bound_ring_panics :
  let evs := map EvMsg [demo_table 5; demo_num 4; demo_addr 0x10000; demo_kick 6; demo_enable] in
  is_run evs = true ∧ pop_result evs = Some VPanic.
Proof. split; vm_compute; reflexivity. Qed.

(** [mmap] grants a mapping that reaches past the end of the file and nothing
    compares the announced size with the file's: a table of 16 KiB over an 8 KiB file
    is accepted, the address translates, and the access faults. *)
Definition long_table (fd : Z) : msg :=
  demo_msg reqSetMemTable (le_encode 4 1 ++ le_encode 4 0 ++ le_encode 8 0x1000 ++ le_encode 8 0x4000 ++ le_encode 8 0 ++ le_encode 8 0) [fd].

Theorem short_file_faults :
  match setMemTable (m_payload (long_table 5)) [5] ([], st_sys demo_start) with
  | ((mt, s), Ok _) =>
      match translate mt 0x4000 16 with Ok sl => load s sl = Err VFault | Err _ => False end
  | _ => False
  end.
Proof. vm_compute. reflexivity. Qed.

(** A descriptor handed over to a session that has already been torn down is
    never closed: the run loop may still handle the message it had read. *)
Theorem late_message_leaks :
  let evs := [EvClose; EvTeardown; EvMsg (demo_table 5)] in
  let st := final true evs demo_start in
  is_run evs = true ∧ st_torn st = true ∧ bool_decide (5 ∈ sy_fds (st_sys st)) = true ∧ size (sy_maps (st_sys st)) = 1%nat.
Proof. split_and!; vm_compute; reflexivity. Qed.

(** A frontend that withdraws the kick descriptor and later sends a new one gets
    no service: the pump ended with the first and is started only once. *)
Theorem pump_never_restarts :
  let evs := demo_setup ++ [EvMsg demo_nokick; EvExit; EvMsg (demo_kick 7); EvMsg demo_enable] in
  let ss := st_ss (final true evs demo_start) in
  is_run evs = true ∧ ss_closed ss = false ∧ v_enabled (ss_vq ss) = true ∧
  bool_decide (is_Some (v_kick (ss_vq ss))) = true ∧ ss_pump ss = PumpGone.
Proof. split_and!; vm_compute; reflexivity. Qed.
