(* ===== verification/FsJson.v ===== *)
(** * Atomic JSON files (internal/fsjson/fsjson.go)

    The store behind the pool and the approval tickets.  A value of type [A]
    stands for its JSON encoding; the file operations are the environment's. *)

From S2P Require Import Prelude.

(** The operation of [Write] that fails, if one does. *)
Inductive io_step : Type :=
| SCreate | SEncode | SSync | SClose | SRename | SDirOpen | SDirSync | SDirClose.

Inductive fs_err : Type :=
| FsErr (at_step : io_step)
| ErrDurability (at_step : io_step).

(** A directory with the target file and the temporary files beside it. *)
Record store (A : Type) : Type := Store { st_target : option A; st_temps : list (option A) }.
Arguments Store {A} _ _.
Arguments st_target {A} _. Arguments st_temps {A} _.

Section Write.
Context {A : Type}.

Definition fails (fail : option io_step) (k : io_step) : bool :=
  match fail, k with
  | Some SCreate, SCreate | Some SEncode, SEncode | Some SSync, SSync | Some SClose, SClose
  | Some SRename, SRename | Some SDirOpen, SDirOpen | Some SDirSync, SDirSync | Some SDirClose, SDirClose => true
  | _, _ => false
  end.

(** [os.CreateTemp], [os.Remove] of the newest temporary file, the encoder's
    output reaching it, and [os.Rename] over the target. *)
Definition create_temp (s : store A) : store A := Store (st_target s) (None :: st_temps s).
Definition remove_temp (s : store A) : store A := Store (st_target s) (tail (st_temps s)).
Definition fill_temp (v : A) (s : store A) : store A := Store (st_target s) (Some v :: tail (st_temps s)).
Definition rename (s : store A) : store A :=
  Store (match st_temps s with Some v :: _ => Some v | _ => st_target s end) (tail (st_temps s)).

Definition Write (fail : option io_step) (v : A) (s : store A) : store A * option fs_err :=
  if fails fail SCreate then (s, Some (FsErr SCreate)) else
  let s := create_temp s in
  if fails fail SEncode then (remove_temp s, Some (FsErr SEncode)) else
  let s := fill_temp v s in
  if fails fail SSync then (remove_temp s, Some (FsErr SSync)) else
  if fails fail SClose then (remove_temp s, Some (FsErr SClose)) else
  if fails fail SRename then (remove_temp s, Some (FsErr SRename)) else
  let s := rename s in
  if fails fail SDirOpen then (s, Some (ErrDurability SDirOpen)) else
  if fails fail SDirSync then (s, Some (ErrDurability SDirSync)) else
  if fails fail SDirClose then (s, Some (ErrDurability SDirClose)) else
  (s, None).

(** Whether the write reached the rename. *)
Definition committed (fail : option io_step) : bool :=
  match fail with
  | Some (SCreate | SEncode | SSync | SClose | SRename) => false
  | _ => true
  end.

(** Whether the caller is told so. *)
Definition acknowledged (fail : option io_step) : bool := match fail with None => true | Some _ => false end.

Lemma Write_spec fail v s :
  (Write fail v s).1 = (if committed fail then Store (Some v) (st_temps s) else s) ∧
  match (Write fail v s).2 with
  | None => fail = None
  | Some (FsErr _) => committed fail = false
  | Some (ErrDurability _) => committed fail = true ∧ fail ≠ None
  end.
Proof. by destruct s, fail as [[]|]. Qed.
End Write.

(** Writes are all or nothing: whichever operation fails, the target holds
    either its previous contents or the complete new value, no temporary file is
    left behind, and the error tells which: an ordinary error means the old
    contents, success or a durability error means the new ones. *)
Theorem Write_atomic {A} fail (v : A) s :
  let (s', e) := Write fail v s in
  st_temps s' = st_temps s ∧
  match e with
  | None | Some (ErrDurability _) => st_target s' = Some v
  | Some (FsErr _) => st_target s' = st_target s
  end.
Proof. by destruct s, fail as [[]|]. Qed.
