(* ===== verification/Pool.v ===== *)
(** * The warm pool and the tenant quotas (internal/pool)

    [manager.go] and [persist.go].  The manager's mutex delimits the critical
    sections; [Factory], [Destroyer] and the store's failures belong to the
    environment, so each section takes as arguments the clock readings and
    outcomes it meets ([w] is the operation of the store's write that fails). *)

From stdpp Require Import pretty.
From S2P Require Import Prelude FsJson.

(** ** Data *)

Inductive SandboxState : Type :=
| SandboxReady | SandboxClaimed | SandboxPaused | SandboxWarming | SandboxDestroying.
#[global] Instance SandboxState_eq_dec : EqDecision SandboxState.
Proof. solve_decision. Defined.

Record Template : Type := { t_Name : string; t_BaseImage : string; t_Kernel : string; t_Memory : string; t_CPU : Z }.

(** Times are nanoseconds from Go's zero time. *)
Definition hour : Z := 3600 * 1000000000.

Record Sandbox : Type := {
  sb_ID : string; sb_Template : string; sb_State : SandboxState; sb_TaskID : string; sb_Tenant : string;
  sb_CPU : Z; sb_MemMB : Z; sb_CreatedAt : Z; sb_ClaimedAt : Z; sb_ReservedMemMB : Z;
}.

Record Quota : Type := { MaxConcurrent : Z; MaxCPU : Z; MaxMemoryMB : Z; MaxTasksPerHour : Z }.

Definition DefaultQuota : Quota :=
  {| MaxConcurrent := 4; MaxCPU := 4; MaxMemoryMB := 4096; MaxTasksPerHour := 20 |}.

Inductive pool_err : Type :=
| ErrQuotaExceeded | ErrNoCapacity | ErrSandboxNotFound | ErrBadState
| EBadMemory | EPersist (e : fs_err) | EUnknownSandbox | EDestroy | EEmptyPath | EMkdir | EAlreadyEnabled | EReadStore.

(** [poolFile]; SavedAt, which nothing reads, is left out. *)
Record poolFile : Type := { pf_Pool : list Sandbox; pf_Quotas : gmap string Quota; pf_Capacity : Z }.

Record Manager : Type := {
  m_pool : list Sandbox;
  m_capacity : Z;
  m_quotas : gmap string Quota;
  m_running : gmap string Z;
  m_cpu : gmap string Z;
  m_memMB : gmap string Z;
  m_hourly : gmap string (list Z);
  m_pendingCleanups : gmap string string;
  m_persists : bool;           (* persistPath is set *)
  m_sweeping : bool;           (* cleanupSweeping *)
  m_Factory : bool;            (* the callbacks are set *)
  m_Destroyer : bool;
  m_store : FsJson.store poolFile;  (* the store file *)
}.

Definition NewManager (capacity : Z) (factory destroyer : bool) (disk : FsJson.store poolFile) : Manager :=
  {| m_pool := []; m_capacity := capacity; m_quotas := ∅; m_running := ∅; m_cpu := ∅; m_memMB := ∅; m_hourly := ∅;
     m_pendingCleanups := ∅; m_persists := false; m_sweeping := false;
     m_Factory := factory; m_Destroyer := destroyer; m_store := disk |}.

(** Assignments to the receiver's fields. *)
Definition set_pool (m : Manager) (p : list Sandbox) : Manager :=
  {| m_pool := p; m_capacity := m_capacity m; m_quotas := m_quotas m; m_running := m_running m; m_cpu := m_cpu m;
     m_memMB := m_memMB m; m_hourly := m_hourly m; m_pendingCleanups := m_pendingCleanups m;
     m_persists := m_persists m; m_sweeping := m_sweeping m; m_Factory := m_Factory m;
     m_Destroyer := m_Destroyer m; m_store := m_store m |}.
Definition set_quotas (m : Manager) (q : gmap string Quota) : Manager :=
  {| m_pool := m_pool m; m_capacity := m_capacity m; m_quotas := q; m_running := m_running m; m_cpu := m_cpu m;
     m_memMB := m_memMB m; m_hourly := m_hourly m; m_pendingCleanups := m_pendingCleanups m;
     m_persists := m_persists m; m_sweeping := m_sweeping m; m_Factory := m_Factory m;
     m_Destroyer := m_Destroyer m; m_store := m_store m |}.
Definition set_counters (m : Manager) (r c mm : gmap string Z) : Manager :=
  {| m_pool := m_pool m; m_capacity := m_capacity m; m_quotas := m_quotas m; m_running := r; m_cpu := c;
     m_memMB := mm; m_hourly := m_hourly m; m_pendingCleanups := m_pendingCleanups m;
     m_persists := m_persists m; m_sweeping := m_sweeping m; m_Factory := m_Factory m;
     m_Destroyer := m_Destroyer m; m_store := m_store m |}.
Definition set_memMB (m : Manager) (mm : gmap string Z) : Manager := set_counters m (m_running m) (m_cpu m) mm.
Definition set_hourly (m : Manager) (h : gmap string (list Z)) : Manager :=
  {| m_pool := m_pool m; m_capacity := m_capacity m; m_quotas := m_quotas m; m_running := m_running m; m_cpu := m_cpu m;
     m_memMB := m_memMB m; m_hourly := h; m_pendingCleanups := m_pendingCleanups m;
     m_persists := m_persists m; m_sweeping := m_sweeping m; m_Factory := m_Factory m;
     m_Destroyer := m_Destroyer m; m_store := m_store m |}.
Definition set_cleanups (m : Manager) (c : gmap string string) (sweeping : bool) : Manager :=
  {| m_pool := m_pool m; m_capacity := m_capacity m; m_quotas := m_quotas m; m_running := m_running m; m_cpu := m_cpu m;
     m_memMB := m_memMB m; m_hourly := m_hourly m; m_pendingCleanups := c;
     m_persists := m_persists m; m_sweeping := sweeping; m_Factory := m_Factory m;
     m_Destroyer := m_Destroyer m; m_store := m_store m |}.
Definition set_store (m : Manager) (persists : bool) (disk : FsJson.store poolFile) : Manager :=
  {| m_pool := m_pool m; m_capacity := m_capacity m; m_quotas := m_quotas m; m_running := m_running m; m_cpu := m_cpu m;
     m_memMB := m_memMB m; m_hourly := m_hourly m; m_pendingCleanups := m_pendingCleanups m;
     m_persists := persists; m_sweeping := m_sweeping m; m_Factory := m_Factory m;
     m_Destroyer := m_Destroyer m; m_store := disk |}.
Definition set_capacity (m : Manager) (c : Z) : Manager :=
  {| m_pool := m_pool m; m_capacity := c; m_quotas := m_quotas m; m_running := m_running m; m_cpu := m_cpu m;
     m_memMB := m_memMB m; m_hourly := m_hourly m; m_pendingCleanups := m_pendingCleanups m;
     m_persists := m_persists m; m_sweeping := m_sweeping m; m_Factory := m_Factory m;
     m_Destroyer := m_Destroyer m; m_store := m_store m |}.

(** A missing key of a Go map reads as the zero value. *)
Definition cnt (c : gmap string Z) (k : string) : Z := default 0 (c !! k).
Definition starts (h : gmap string (list Z)) (k : string) : list Z := default [] (h !! k).
Definition quota_of (q : gmap string Quota) (k : string) : Quota := default DefaultQuota (q !! k).

(** ** Memory sizes *)

Definition digit (c : Ascii.ascii) : option Z :=
  let n := Z.of_N (Ascii.N_of_ascii c) in
  if (48 <=? n) && (n <=? 57) then Some (n - 48) else None.

(** The digits of the prefix, and the rest of the string. *)
Fixpoint split_digits (s : string) : list Z * string :=
  match s with
  | EmptyString => ([], EmptyString)
  | String c s' =>
      match digit c with
      | Some d => let (ds, r) := split_digits s' in (d :: ds, r)
      | None => ([], s)
      end
  end.

Definition decimal (ds : list Z) : Z := fold_left (λ v d, v * 10 + d) ds 0.

Definition eqs (s t : string) : bool := bool_decide (s = t).

Definition parseMemMB (s : string) : result pool_err Z :=
  let (ds, unit) := split_digits s in
  if zlen ds =? 0 then Err EBadMemory else      (* covers the empty string *)
  let v := decimal ds in
  if MaxInt64 <? v then Err EBadMemory else     (* strconv.ParseInt out of range *)
  if bool_decide (unit ∈ ["K"; "k"; "KB"; "kb"]%string) then
    Ok (v / 1024 + (if v mod 1024 =? 0 then 0 else 1))
  else if bool_decide (unit ∈ ["M"; "m"; "MB"; "mb"]%string) then Ok v
  else if bool_decide (unit ∈ ["G"; "g"; "GB"; "gb"]%string) then
    if MaxInt64 / 1024 <? v then Err EBadMemory else Ok (v * 1024)
  else Err EBadMemory.

(** ** Accounting *)

Definition pruneHourlyLocked (m : Manager) (tenant : string) (now : Z) : Manager :=
  set_hourly m (<[tenant := filter (λ t, now - hour < t) (starts (m_hourly m) tenant)]> (m_hourly m)).

Definition memExceeded (limit used want : Z) : bool := int64 (limit - used) <? want.

(** [m.c[t] += x]. *)
Definition add_to (c : gmap string Z) (t : string) (x : Z) : gmap string Z := <[t := int64 (cnt c t + x)]> c.

Definition accountClaim (m : Manager) (tenant : string) (cpu memMB now : Z) : Manager :=
  set_hourly
    (set_counters m (add_to (m_running m) tenant 1) (add_to (m_cpu m) tenant cpu) (add_to (m_memMB m) tenant memMB))
    (<[tenant := starts (m_hourly m) tenant ++ [now]]> (m_hourly m)).

(** [m.c[t] -= x; if m.c[t] < 0 { m.c[t] = 0 }] *)
Definition sub_clamp (c : gmap string Z) (t : string) (x : Z) : gmap string Z :=
  let v := int64 (cnt c t - x) in <[t := if v <? 0 then 0 else v]> c.

Definition dec_running (r : gmap string Z) (t : string) : gmap string Z :=
  if 0 <? cnt r t then <[t := cnt r t - 1]> r else r.

Definition releaseQuotaLocked (m : Manager) (s : Sandbox) : Manager :=
  let t := sb_Tenant s in
  if eqs t "" then m else
  set_counters m (dec_running (m_running m) t) (sub_clamp (m_cpu m) t (sb_CPU s)) (sub_clamp (m_memMB m) t (sb_MemMB s)).

(** Remove the last occurrence. *)
Fixpoint remove_last (at_ : Z) (hs : list Z) : list Z :=
  match hs with
  | [] => []
  | h :: hs' =>
      if (h =? at_) && negb (existsb (λ x, x =? at_) hs') then hs' else h :: remove_last at_ hs'
  end.

Definition rollbackClaimLocked (m : Manager) (tenant : string) (cpu memMB at_ : Z) : Manager :=
  if eqs tenant "" then m else
  let m := set_counters m (dec_running (m_running m) tenant) (sub_clamp (m_cpu m) tenant cpu) (sub_clamp (m_memMB m) tenant memMB) in
  let hs := starts (m_hourly m) tenant in
  if existsb (λ x, x =? at_) hs then set_hourly m (<[tenant := remove_last at_ hs]> (m_hourly m)) else m.

Definition rollbackReleaseLocked (m : Manager) (tenant : string) (cpu memMB : Z) : Manager :=
  if eqs tenant "" then m else
  set_counters m (add_to (m_running m) tenant 1) (add_to (m_cpu m) tenant cpu) (add_to (m_memMB m) tenant memMB).

(** ** The store *)

Definition file_of (m : Manager) : poolFile :=
  {| pf_Pool := m_pool m; pf_Quotas := m_quotas m; pf_Capacity := m_capacity m |}.

Definition persistLocked (w : option io_step) (m : Manager) : Manager * option fs_err :=
  if m_persists m then let (st, e) := Write w (file_of m) (m_store m) in (set_store m true st, e)
  else (m, None).

(** ** Quotas *)

Definition SetQuota (w : option io_step) (tenant : string) (q : Quota) : method Manager pool_err unit := λ m,
  let prev := m_quotas m !! tenant in
  match persistLocked w (set_quotas m (<[tenant := q]> (m_quotas m))) with
  | (m, None) => (m, Ok tt)
  | (m, Some e) =>
      (set_quotas m (match prev with Some p => <[tenant := p]> (m_quotas m) | None => delete tenant (m_quotas m) end),
       Err (EPersist e))
  end.

(** ** Teardown of rejected sandboxes *)

Definition queueCleanupLocked (m : Manager) (id reason : string) : Manager :=
  set_cleanups m (<[id := reason]> (m_pendingCleanups m)) (m_sweeping m).

(** [destroy]; [ok] is the destroyer's outcome. *)
Definition destroy (ok : bool) (id reason : string) (m : Manager) : Manager :=
  if negb (m_Destroyer m) then m else if ok then m else queueCleanupLocked m id reason.

(** The sections of [RetryCleanups]: [None] when another sweep is running. *)
Definition sweep_begin (m : Manager) : option (Manager * list string) :=
  if m_sweeping m then None
  else Some (set_cleanups m (m_pendingCleanups m) true, (map_to_list (m_pendingCleanups m)).*1).
Definition sweep_one (ok : bool) (id : string) (m : Manager) : Manager :=
  if ok then set_cleanups m (delete id (m_pendingCleanups m)) (m_sweeping m) else m.
Definition sweep_end (m : Manager) : Manager := set_cleanups m (m_pendingCleanups m) false.

Definition RetryCleanups (destroyed : string → bool) (m : Manager) : Manager :=
  match sweep_begin m with
  | None => m
  | Some (m, ids) =>
      if negb (m_Destroyer m) then sweep_end m
      else sweep_end (fold_left (λ m id, sweep_one (destroyed id) id m) ids m)
  end.

Definition PendingCleanups (m : Manager) : Z := Z.of_nat (size (m_pendingCleanups m)).

(** ** Warming *)

Definition at_capacity (m : Manager) : bool := m_capacity m <=? zlen (m_pool m).

Definition unix_epoch : Z := 62135596800 * 1000000000.
Definition warm_id (tmpl : Template) (now : Z) : string :=
  ("warm-" ++ t_Name tmpl ++ "-" ++ pretty (now - unix_epoch))%string.

(** The second section of a round: keep the new sandbox, or give the reason why it
    must be destroyed. *)
Definition warm_commit (w : option io_step) (now : Z) (tmpl : Template) (id : string) (m : Manager)
    : Manager * option string :=
  if at_capacity m then (m, Some "warm capacity recheck") else
  let sb := {| sb_ID := id; sb_Template := t_Name tmpl; sb_State := SandboxReady; sb_TaskID := ""; sb_Tenant := "";
               sb_CPU := 0; sb_MemMB := 0; sb_CreatedAt := now; sb_ClaimedAt := 0; sb_ReservedMemMB := 0 |} in
  match persistLocked w (set_pool m (m_pool m ++ [sb])) with
  | (m, None) => (m, None)
  | (m, Some _) => (set_pool m (take (length (m_pool m) - 1) (m_pool m)), Some "warm persist failed")
  end.

(** What one round of the loop meets. *)
Record warm_env : Type := {
  we_id : option string;       (* the factory's result; [None] is an error *)
  we_now : Z; we_now' : Z;     (* the clock, for the default id and for CreatedAt *)
  we_w : option io_step; we_destroyed : bool;
}.

Fixpoint Warm (tmpl : Template) (rounds : list warm_env) (created : Z) (m : Manager) : Manager * Z :=
  match rounds with
  | [] => (m, created)
  | e :: rounds =>
      if at_capacity m then (m, created) else
      match (if m_Factory m then we_id e else Some (warm_id tmpl (we_now e))) with
      | None => Warm tmpl rounds created m
      | Some id =>
          match warm_commit (we_w e) (we_now' e) tmpl id m with
          | (m, Some reason) => (destroy (we_destroyed e) id reason m, created)
          | (m, None) => Warm tmpl rounds (created + 1) m
          end
      end
  end.

(** ** Claims *)

(** A decision; of a note that quotes an error only the prefix is kept. *)
Record decisionLog : Type := { dl_allow : bool; dl_tenant : string; dl_note : string }.
Definition deny (tenant note : string) : list decisionLog := [{| dl_allow := false; dl_tenant := tenant; dl_note := note |}].
Definition allow (tenant note : string) : list decisionLog := [{| dl_allow := true; dl_tenant := tenant; dl_note := note |}].

(** How phase 1 ends: with a result and the decision logged, or by going on to the
    factory. *)
Inductive claim_out : Type :=
| ClaimDone (r : result pool_err string) (logs : list decisionLog)
| ClaimCreate (wantMB : Z).

Definition claimed (sb : Sandbox) (task tenant : string) (cpu memMB now : Z) : Sandbox :=
  {| sb_ID := sb_ID sb; sb_Template := sb_Template sb; sb_State := SandboxClaimed; sb_TaskID := task; sb_Tenant := tenant;
     sb_CPU := cpu; sb_MemMB := memMB; sb_CreatedAt := sb_CreatedAt sb; sb_ClaimedAt := now; sb_ReservedMemMB := 0 |}.

Definition readied (sb : Sandbox) : Sandbox :=
  {| sb_ID := sb_ID sb; sb_Template := sb_Template sb; sb_State := SandboxReady; sb_TaskID := ""; sb_Tenant := "";
     sb_CPU := 0; sb_MemMB := 0; sb_CreatedAt := sb_CreatedAt sb; sb_ClaimedAt := 0; sb_ReservedMemMB := 0 |}.

Definition find_ready (name : string) (p : list Sandbox) : option (nat * Sandbox) :=
  list_find (λ s, sb_State s = SandboxReady ∧ sb_Template s = name) p.

(** Phase 1, under the lock. *)
Definition claim_check (w : option io_step) (now : Z) (tenant : string) (tmpl : Template) (task : string) (m : Manager)
    : Manager * claim_out :=
  let q := quota_of (m_quotas m) tenant in
  let m := match m_quotas m !! tenant with Some _ => m | None => set_quotas m (<[tenant := q]> (m_quotas m)) end in
  let m := pruneHourlyLocked m tenant now in
  match parseMemMB (t_Memory tmpl) with
  | Err e => (m, ClaimDone (Err e) (deny tenant "bad template memory"))
  | Ok wantMB =>
      if MaxTasksPerHour q <=? zlen (starts (m_hourly m) tenant) then
        (m, ClaimDone (Err ErrQuotaExceeded) (deny tenant "hourly task rate")) else
      if MaxConcurrent q <=? cnt (m_running m) tenant then
        (m, ClaimDone (Err ErrQuotaExceeded) (deny tenant "concurrency")) else
      if MaxCPU q <? int64 (cnt (m_cpu m) tenant + t_CPU tmpl) then
        (m, ClaimDone (Err ErrQuotaExceeded) (deny tenant "cpu")) else
      if memExceeded (MaxMemoryMB q) (cnt (m_memMB m) tenant) wantMB then
        (m, ClaimDone (Err ErrQuotaExceeded) (deny tenant "memory")) else
      match find_ready (t_Name tmpl) (m_pool m) with
      | Some (i, sb) =>
          let m := set_pool m (<[i := claimed sb task tenant (t_CPU tmpl) wantMB now]> (m_pool m)) in
          match persistLocked w (accountClaim m tenant (t_CPU tmpl) wantMB now) with
          | (m, None) => (m, ClaimDone (Ok (sb_ID sb)) (allow tenant "claimed-warm"))
          | (m, Some e) =>
              let m := rollbackClaimLocked m tenant (t_CPU tmpl) wantMB now in
              (set_pool m (<[i := readied sb]> (m_pool m)),
               ClaimDone (Err (EPersist e)) (deny tenant "claimed-warm persist failed"))
          end
      | None =>
          if at_capacity m || negb (m_Factory m) then (m, ClaimDone (Err ErrNoCapacity) (deny tenant "no capacity"))
          else (m, ClaimCreate wantMB)
      end
  end.

(** Phase 3, under the lock again, with the sandbox [id] the factory built: the result, the
    reason to destroy the sandbox if it is not kept, and the decision logged. *)
Definition claim_commit (w : option io_step) (now : Z) (tenant : string) (tmpl : Template) (task : string) (wantMB : Z)
    (id : string) (m : Manager)
    : Manager * (result pool_err string * option string * list decisionLog) :=
  let q := quota_of (m_quotas m) tenant in
  if at_capacity m then
    (m, (Err ErrNoCapacity, Some "capacity race after factory", deny tenant "no capacity after race")) else
  let m := pruneHourlyLocked m tenant now in
  if MaxTasksPerHour q <=? zlen (starts (m_hourly m) tenant) then
    (m, (Err ErrQuotaExceeded, Some "hourly quota recheck after factory", deny tenant "hourly task rate after factory")) else
  if (MaxConcurrent q <=? cnt (m_running m) tenant) || (MaxCPU q <? int64 (cnt (m_cpu m) tenant + t_CPU tmpl)) ||
     memExceeded (MaxMemoryMB q) (cnt (m_memMB m) tenant) wantMB then
    (m, (Err ErrQuotaExceeded, Some "quota recheck after factory", deny tenant "quota changed after factory")) else
  let sb := {| sb_ID := id; sb_Template := t_Name tmpl; sb_State := SandboxClaimed; sb_TaskID := task; sb_Tenant := tenant;
               sb_CPU := t_CPU tmpl; sb_MemMB := wantMB; sb_CreatedAt := now; sb_ClaimedAt := now; sb_ReservedMemMB := 0 |} in
  match persistLocked w (accountClaim (set_pool m (m_pool m ++ [sb])) tenant (t_CPU tmpl) wantMB now) with
  | (m, None) => (m, (Ok id, None, allow tenant "created-on-demand"))
  | (m, Some e) =>
      let m := set_pool m (take (length (m_pool m) - 1) (m_pool m)) in
      (rollbackClaimLocked m tenant (t_CPU tmpl) wantMB now,
       (Err (EPersist e), Some "claim persist failed", deny tenant "created-on-demand persist failed"))
  end.

(** What a whole claim meets when no other goroutine runs in between; [Claim] then
    appends the decisions to the audit ledger. *)
Record claim_env : Type := {
  ce_now : Z; ce_w : option io_step;
  ce_id : option string;       (* the factory's result *)
  ce_now' : Z; ce_w' : option io_step; ce_destroyed : bool;
}.

Definition claim (e : claim_env) (tenant : string) (tmpl : Template) (task : string) (m : Manager)
    : Manager * (result pool_err string * list decisionLog) :=
  match claim_check (ce_w e) (ce_now e) tenant tmpl task m with
  | (m, ClaimDone r logs) => (m, (r, logs))
  | (m, ClaimCreate wantMB) =>
      match ce_id e with
      | None => (m, (Err ErrNoCapacity, deny tenant "factory failed"))
      | Some id =>
          match claim_commit (ce_w' e) (ce_now' e) tenant tmpl task wantMB id m with
          | (m, (r, reject, logs)) =>
              (match reject with Some reason => destroy (ce_destroyed e) id reason m | None => m end, (r, logs))
          end
      end
  end.

(** ** Release, suspend, resume *)

Definition find_id (id : string) (p : list Sandbox) : option (nat * Sandbox) := list_find (λ s, sb_ID s = id) p.

(** The section of [Release]; [Ok true] asks for the destroyer. *)
Definition release_locked (w : option io_step) (id : string) (recycle : bool) : method Manager pool_err bool := λ m,
  match find_id id (m_pool m) with
  | None => (m, Err EUnknownSandbox)
  | Some (i, s) =>
      let m := releaseQuotaLocked m s in
      if recycle then
        match persistLocked w (set_pool m (<[i := readied s]> (m_pool m))) with
        | (m, None) => (m, Ok false)
        | (m, Some e) =>
            let m := set_pool m (<[i := s]> (m_pool m)) in
            (rollbackReleaseLocked m (sb_Tenant s) (sb_CPU s) (sb_MemMB s), Err (EPersist e))
        end
      else
        match persistLocked w (set_pool m (take i (m_pool m) ++ drop (S i) (m_pool m))) with
        | (m, None) => (m, Ok true)
        | (m, Some e) =>
            let m := set_pool m (take i (m_pool m) ++ s :: drop i (m_pool m)) in
            (rollbackReleaseLocked m (sb_Tenant s) (sb_CPU s) (sb_MemMB s), Err (EPersist e))
        end
  end.

Definition Release (w : option io_step) (destroyed : bool) (id : string) (recycle : bool) : method Manager pool_err unit := λ m,
  match release_locked w id recycle m with
  | (m, Err e) => (m, Err e)
  | (m, Ok tear_down) => (m, if tear_down && m_Destroyer m && negb destroyed then Err EDestroy else Ok tt)
  end.

Definition suspended (s : Sandbox) : Sandbox :=
  {| sb_ID := sb_ID s; sb_Template := sb_Template s; sb_State := SandboxPaused; sb_TaskID := sb_TaskID s;
     sb_Tenant := sb_Tenant s; sb_CPU := sb_CPU s; sb_MemMB := 0; sb_CreatedAt := sb_CreatedAt s;
     sb_ClaimedAt := sb_ClaimedAt s; sb_ReservedMemMB := sb_MemMB s |}.
Definition resumed (s : Sandbox) : Sandbox :=
  {| sb_ID := sb_ID s; sb_Template := sb_Template s; sb_State := SandboxClaimed; sb_TaskID := sb_TaskID s;
     sb_Tenant := sb_Tenant s; sb_CPU := sb_CPU s; sb_MemMB := sb_ReservedMemMB s; sb_CreatedAt := sb_CreatedAt s;
     sb_ClaimedAt := sb_ClaimedAt s; sb_ReservedMemMB := 0 |}.

Definition Suspend (w : option io_step) (id : string) : method Manager pool_err unit := λ m,
  match find_id id (m_pool m) with
  | None => (m, Err ErrSandboxNotFound)
  | Some (i, s) =>
      match sb_State s with
      | SandboxPaused => (m, Ok tt)
      | SandboxClaimed =>
          let t := sb_Tenant s in
          let m := set_pool m (<[i := suspended s]> (m_pool m)) in
          let m := if eqs t "" then m else set_memMB m (sub_clamp (m_memMB m) t (sb_MemMB s)) in
          match persistLocked w m with
          | (m, None) => (m, Ok tt)
          | (m, Some e) =>
              let m := set_pool m (<[i := s]> (m_pool m)) in
              (if eqs t "" then m else set_memMB m (add_to (m_memMB m) t (sb_MemMB s)), Err (EPersist e))
          end
      | _ => (m, Err ErrBadState)
      end
  end.

Definition Resume (w : option io_step) (id : string) : method Manager pool_err unit := λ m,
  match find_id id (m_pool m) with
  | None => (m, Err ErrSandboxNotFound)
  | Some (i, s) =>
      if bool_decide (sb_State s ≠ SandboxPaused) then (m, Err ErrBadState) else
      let want := sb_ReservedMemMB s in
      let t := sb_Tenant s in
      if negb (eqs t "") && (0 <? want) && memExceeded (MaxMemoryMB (quota_of (m_quotas m) t)) (cnt (m_memMB m) t) want
      then (m, Err ErrQuotaExceeded) else
      let m := set_pool m (<[i := resumed s]> (m_pool m)) in
      let m := if eqs t "" then m else set_memMB m (add_to (m_memMB m) t want) in
      match persistLocked w m with
      | (m, None) => (m, Ok tt)
      | (m, Some e) =>
          let m := set_pool m (<[i := s]> (m_pool m)) in
          (if eqs t "" then m else set_memMB m (sub_clamp (m_memMB m) t want), Err (EPersist e))
      end
  end.

Definition sandboxIDForTask (task : string) (m : Manager) : option string :=
  if eqs task "" then None else (λ x, sb_ID x.2) <$> list_find (λ s, sb_TaskID s = task) (m_pool m).

(** The lookup and the mutation are two sections; here they run back to back. *)
Definition SuspendByTask (w : option io_step) (task : string) : method Manager pool_err bool := λ m,
  match sandboxIDForTask task m with
  | None => (m, Ok false)
  | Some id => match Suspend w id m with (m, Ok _) => (m, Ok true) | (m, Err e) => (m, Err e) end
  end.
Definition ResumeByTask (w : option io_step) (task : string) : method Manager pool_err bool := λ m,
  match sandboxIDForTask task m with
  | None => (m, Ok false)
  | Some id => match Resume w id m with (m, Ok _) => (m, Ok true) | (m, Err e) => (m, Err e) end
  end.

Definition Stats (m : Manager) : Z * Z * Z :=
  (zlen (filter (λ s, sb_State s = SandboxReady) (m_pool m)),
   zlen (filter (λ s, sb_State s = SandboxClaimed) (m_pool m)), zlen (m_pool m)).

(** ** Restart *)

(** What [os.ReadFile] and [json.Unmarshal] find at the path. *)
Inductive read_outcome : Type := RdMissing | RdEmpty | RdCorrupt | RdError | RdFile (pf : poolFile).

(** One round of the loop that rebuilds the live counters. *)
Definition rebuild (m : Manager) (s : Sandbox) : Manager :=
  let t := sb_Tenant s in
  if eqs t "" then m else
  match sb_State s with
  | SandboxClaimed =>
      set_hourly (set_counters m (add_to (m_running m) t 1) (add_to (m_cpu m) t (sb_CPU s)) (add_to (m_memMB m) t (sb_MemMB s)))
        (<[t := starts (m_hourly m) t ++ [sb_ClaimedAt s]]> (m_hourly m))
  | SandboxPaused =>
      set_hourly (set_counters m (add_to (m_running m) t 1) (add_to (m_cpu m) t (sb_CPU s)) (m_memMB m))
        (<[t := starts (m_hourly m) t ++ [sb_ClaimedAt s]]> (m_hourly m))
  | _ => m
  end.

Definition load_file (pf : poolFile) (m : Manager) : Manager :=
  let m := set_pool m (m_pool m ++ pf_Pool pf) in
  let m := set_quotas m (pf_Quotas pf ∪ m_quotas m) in
  let m := if 0 <? pf_Capacity pf then set_capacity m (pf_Capacity pf) else m in
  fold_left rebuild (m_pool m) m.

(** [restoreLocked] of the snapshot of [m0]. *)
Definition restoreLocked (m0 m : Manager) : Manager :=
  set_capacity
    (set_hourly
       (set_counters (set_quotas (set_pool m (take (length (m_pool m0)) (m_pool m))) (m_quotas m0))
          (m_running m0) (m_cpu m0) (m_memMB m0))
       (m_hourly m0))
    (m_capacity m0).

Definition EnablePersistence (w : option io_step) (mkdir : bool) (path : string) (rd : read_outcome)
    : method Manager pool_err unit := λ m,
  if eqs path "" then (m, Err EEmptyPath) else
  if negb mkdir then (m, Err EMkdir) else
  if m_persists m then (m, Err EAlreadyEnabled) else
  let m0 := m in
  let m := set_store m true (m_store m) in
  let finish m :=
    match persistLocked w m with
    | (m, None) => (m, Ok tt)
    | (m, Some e) => let m := restoreLocked m0 m in (set_store m false (m_store m), Err (EPersist e))
    end in
  match rd with
  | RdError => (set_store m false (m_store m), Err EReadStore)
  | RdMissing | RdEmpty => finish m
  | RdCorrupt => finish (set_store m true (FsJson.Store None (st_temps (m_store m))))
  | RdFile pf => finish (load_file pf m)
  end.
