(* ===== verification/PoolSpec.v ===== *)
(** * The pool's invariant

    The live counters are charges against what the pool holds; every critical
    section keeps them so, and one that fails leaves the manager as it was. *)

From S2P Require Import Prelude FsJson Pool.

(** ** Charges *)

Definition of_tenant (t : string) (f : Sandbox → Z) (s : Sandbox) : Z := if eqs (sb_Tenant s) t then f s else 0.
Definition charge (f : Sandbox → Z) (t : string) (p : list Sandbox) : Z := zsum (of_tenant t f) p.
Definition one (_ : Sandbox) : Z := 1.

(** ** Counters *)

Lemma eqs_spec s t : eqs s t = true ↔ s = t.
Proof. unfold eqs. by rewrite bool_decide_eq_true. Qed.

Lemma eqs_refl s : eqs s s = true.
Proof. by apply eqs_spec. Qed.
Lemma eqs_ne s t : s ≠ t → eqs s t = false.
Proof. intros. unfold eqs. by rewrite bool_decide_eq_false. Qed.

Lemma cnt_insert c t v t' : cnt (<[t := v]> c) t' = if eqs t t' then v else cnt c t'.
Proof.
  unfold cnt, eqs. case_bool_decide as H; [by rewrite H, lookup_insert_eq|by rewrite lookup_insert_ne].
Qed.

Lemma cnt_add_to c t x t' :
  -2^63 ≤ cnt c t + x < 2^63 → cnt (add_to c t x) t' = cnt c t' + if eqs t t' then x else 0.
Proof.
  intros. unfold add_to. rewrite cnt_insert, int64_small by lia. unfold eqs. case_bool_decide as Hq; [rewrite <- Hq|]; lia.
Qed.

Lemma cnt_sub_clamp c t x t' :
  0 ≤ x ≤ cnt c t → cnt c t < 2^63 → cnt (sub_clamp c t x) t' = cnt c t' - if eqs t t' then x else 0.
Proof.
  intros. unfold sub_clamp. rewrite cnt_insert, int64_small by lia.
  destruct (Z.ltb_spec (cnt c t - x) 0); [lia|]. unfold eqs. case_bool_decide as Hq; [rewrite <- Hq|]; lia.
Qed.

Lemma cnt_dec_running c t t' : 0 < cnt c t → cnt (dec_running c t) t' = cnt c t' - if eqs t t' then 1 else 0.
Proof.
  intros. unfold dec_running. destruct (Z.ltb_spec 0 (cnt c t)); [|lia]. rewrite cnt_insert.
  unfold eqs. case_bool_decide as Hq; [rewrite <- Hq|]; lia.
Qed.

Lemma charge_insert f t p i s s' :
  p !! i = Some s → charge f t (<[i := s']> p) = charge f t p - of_tenant t f s + of_tenant t f s'.
Proof. apply zsum_insert. Qed.
Lemma charge_app f t p s : charge f t (p ++ [s]) = charge f t p + of_tenant t f s.
Proof. unfold charge. by rewrite zsum_app, zsum_single. Qed.
Lemma charge_cut f t p i s : p !! i = Some s → charge f t (take i p ++ drop (S i) p) = charge f t p - of_tenant t f s.
Proof. apply zsum_cut. Qed.

(** ** The invariant *)

(** A sandbox is ready and unattached, claimed by a tenant, or paused with its
    memory set aside. *)
Record sandbox_ok (s : Sandbox) : Prop := {
  so_cpu : 0 ≤ sb_CPU s;
  so_mem : 0 ≤ sb_MemMB s;
  so_res : 0 ≤ sb_ReservedMemMB s < 2 ^ 63;
  so_state :
    match sb_State s with
    | SandboxReady => s = readied s
    | SandboxClaimed => sb_Tenant s ≠ ""%string ∧ sb_ReservedMemMB s = 0
    | SandboxPaused => sb_Tenant s ≠ ""%string ∧ sb_MemMB s = 0
    | _ => False
    end;
}.

(** Quotas as the API accepts them, with a margin that keeps CPU sums in range. *)
Definition quota_ok (q : Quota) : Prop :=
  0 ≤ MaxConcurrent q < 2 ^ 63 ∧ 0 ≤ MaxCPU q < 2 ^ 62 ∧ 0 ≤ MaxMemoryMB q < 2 ^ 63.

Record minv (m : Manager) : Prop := {
  mi_ok : Forall sandbox_ok (m_pool m);
  mi_run : ∀ t, t ≠ ""%string → cnt (m_running m) t = charge one t (m_pool m) ∧ charge one t (m_pool m) < 2 ^ 63;
  mi_cpu : ∀ t, t ≠ ""%string → cnt (m_cpu m) t = charge sb_CPU t (m_pool m) ∧ charge sb_CPU t (m_pool m) < 2 ^ 62;
  mi_mem : ∀ t, t ≠ ""%string → cnt (m_memMB m) t = charge sb_MemMB t (m_pool m) ∧ charge sb_MemMB t (m_pool m) < 2 ^ 63;
  mi_quota : ∀ t, quota_ok (quota_of (m_quotas m) t);
  mi_cap : zlen (m_pool m) ≤ m_capacity m;
}.

(** Two managers that behave the same: absent map entries read as their default. *)
Record same (m m' : Manager) : Prop := {
  sm_pool : m_pool m' = m_pool m;
  sm_cap : m_capacity m' = m_capacity m;
  sm_quota : ∀ t, quota_of (m_quotas m') t = quota_of (m_quotas m) t;
  sm_run : ∀ t, cnt (m_running m') t = cnt (m_running m) t;
  sm_cpu : ∀ t, cnt (m_cpu m') t = cnt (m_cpu m) t;
  sm_mem : ∀ t, cnt (m_memMB m') t = cnt (m_memMB m) t;
  sm_hourly : ∀ t, starts (m_hourly m') t = starts (m_hourly m) t;
  sm_pending : m_pendingCleanups m' = m_pendingCleanups m;
  sm_flags : m_persists m' = m_persists m ∧ m_sweeping m' = m_sweeping m ∧ m_Factory m' = m_Factory m ∧ m_Destroyer m' = m_Destroyer m;
}.

#[global] Instance same_equiv : Equivalence same.
Proof.
  split.
  - by split.
  - intros m m' []. split; intros; naive_solver.
  - intros m1 m2 m3 [] []. split; intros; naive_solver congruence.
Qed.

Lemma of_tenant_nonneg t f p : Forall (λ s, 0 ≤ f s) p → Forall (λ s, 0 ≤ of_tenant t f s) p.
Proof. apply Forall_impl. intros s Hs. unfold of_tenant. case_if; lia. Qed.

Lemma charge_nonneg f t p : Forall (λ s, 0 ≤ f s) p → 0 ≤ charge f t p.
Proof. intros. by apply zsum_nonneg, of_tenant_nonneg. Qed.

Lemma charge_elem f p i s : Forall (λ s, 0 ≤ f s) p → p !! i = Some s → f s ≤ charge f (sb_Tenant s) p.
Proof.
  intros Hf Hi. pose proof (zsum_elem _ p i s (of_tenant_nonneg (sb_Tenant s) f p Hf) Hi) as H.
  unfold of_tenant in H at 1. by rewrite eqs_refl in H.
Qed.

Lemma minv_nonneg m : minv m →
  Forall (λ s, 0 ≤ one s) (m_pool m) ∧ Forall (λ s, 0 ≤ sb_CPU s) (m_pool m) ∧ Forall (λ s, 0 ≤ sb_MemMB s) (m_pool m).
Proof.
  intros [Hok _ _ _ _ _]. split_and!; (eapply Forall_impl; [|exact Hok]); intros s []; unfold one; lia.
Qed.

(** What a sandbox holds is part of its tenant's counters. *)
Lemma minv_held m i s : minv m → m_pool m !! i = Some s → sb_Tenant s ≠ ""%string →
  0 < cnt (m_running m) (sb_Tenant s) < 2 ^ 63 ∧
  0 ≤ sb_CPU s ≤ cnt (m_cpu m) (sb_Tenant s) ∧ cnt (m_cpu m) (sb_Tenant s) < 2 ^ 62 ∧
  0 ≤ sb_MemMB s ≤ cnt (m_memMB m) (sb_Tenant s) ∧ cnt (m_memMB m) (sb_Tenant s) < 2 ^ 63.
Proof.
  intros Hi Hs Ht. destruct (minv_nonneg m Hi) as (H1 & H2 & H3). destruct Hi as [Hok Hr Hc Hm _ _].
  destruct (Hr _ Ht) as [-> ?], (Hc _ Ht) as [-> ?], (Hm _ Ht) as [-> ?].
  pose proof (charge_elem one _ _ _ H1 Hs) as E1. pose proof (charge_elem sb_CPU _ _ _ H2 Hs) as E2.
  pose proof (charge_elem sb_MemMB _ _ _ H3 Hs) as E3. pose proof (Forall_lookup_1 _ _ _ _ Hok Hs) as [? ? ? _].
  change (one s) with 1 in E1. split_and!; lia || done.
Qed.

Lemma minv_counters m t : minv m → t ≠ ""%string →
  0 ≤ cnt (m_running m) t < 2 ^ 63 ∧ 0 ≤ cnt (m_cpu m) t < 2 ^ 62 ∧ 0 ≤ cnt (m_memMB m) t < 2 ^ 63.
Proof.
  intros Hi Ht. destruct (minv_nonneg m Hi) as (H1 & H2 & H3). destruct Hi as [_ Hr Hc Hm _ _].
  destruct (Hr _ Ht) as [-> ?], (Hc _ Ht) as [-> ?], (Hm _ Ht) as [-> ?].
  pose proof (charge_nonneg one t _ H1). pose proof (charge_nonneg sb_CPU t _ H2). pose proof (charge_nonneg sb_MemMB t _ H3). lia.
Qed.

Lemma minv_same m m' : same m m' → minv m → minv m'.
Proof.
  intros [Hp Hc Hq Hr Hcpu Hm _ _ _] [H1 H2 H3 H4 H5 H6].
  split; rewrite ?Hp, ?Hc; try done; intros t; rewrite ?Hr, ?Hcpu, ?Hm, ?Hq; auto.
Qed.

(** ** The store's part *)

(** The manager after an attempt to persist: only the store differs. *)
Definition stored (w : option io_step) (m : Manager) : Manager :=
  set_store m (m_persists m)
    (if m_persists m && committed w then FsJson.Store (Some (file_of m)) (st_temps (m_store m)) else m_store m).

Lemma persist_spec w m :
  ∃ e, persistLocked w m = (stored w m, e) ∧ (e = None ↔ m_persists m = false ∨ w = None).
Proof.
  unfold persistLocked, stored. destruct (m_persists m) eqn:Hp; simpl.
  - destruct (Write_spec w (file_of m) (m_store m)) as [E1 E2]. destruct (Write w _ _) as [st' e]. simpl in *. subst st'.
    exists e. split; [by destruct (committed w)|]. destruct e as [[]|]; naive_solver.
  - exists None. split; [|tauto]. destruct m; simpl in *. by subst.
Qed.

Lemma same_stored w m : same m (stored w m).
Proof. by split. Qed.

(** ** Claims *)

Lemma remove_last_snoc t l : remove_last t (l ++ [t]) = l.
Proof.
  induction l as [|h l IH]; simpl; [by rewrite Z.eqb_refl|]. rewrite existsb_app. simpl.
  rewrite Z.eqb_refl, orb_true_r. simpl. by rewrite andb_false_r, IH.
Qed.

Lemma starts_insert h t l t' : starts (<[t := l]> h) t' = if eqs t t' then l else starts h t'.
Proof.
  unfold starts, eqs. case_bool_decide as H; [by rewrite H, lookup_insert_eq|by rewrite lookup_insert_ne].
Qed.

Lemma quota_insert q t v t' : quota_of (<[t := v]> q) t' = if eqs t t' then v else quota_of q t'.
Proof.
  unfold quota_of, eqs. case_bool_decide as H; [by rewrite H, lookup_insert_eq|by rewrite lookup_insert_ne].
Qed.

(** The tests a claim passes. *)
Definition within (m : Manager) (tenant : string) (cpu mem : Z) : Prop :=
  let q := quota_of (m_quotas m) tenant in
  cnt (m_running m) tenant < MaxConcurrent q ∧ int64 (cnt (m_cpu m) tenant + cpu) ≤ MaxCPU q ∧
  memExceeded (MaxMemoryMB q) (cnt (m_memMB m) tenant) mem = false.

Lemma within_spec m tenant cpu mem :
  minv m → tenant ≠ ""%string → 0 ≤ cpu < 2 ^ 62 → within m tenant cpu mem →
  let q := quota_of (m_quotas m) tenant in
  cnt (m_running m) tenant + 1 ≤ MaxConcurrent q ∧ cnt (m_cpu m) tenant + cpu ≤ MaxCPU q ∧
  cnt (m_memMB m) tenant + mem ≤ MaxMemoryMB q.
Proof.
  intros Hi Ht Hcpu (H1 & H2 & H3). destruct (minv_counters m tenant Hi Ht) as (? & ? & ?).
  destruct (mi_quota m Hi tenant) as (? & ? & ?). rewrite int64_small in H2 by lia.
  unfold memExceeded in H3. rewrite int64_small in H3 by lia. bsimp. simpl. lia.
Qed.

(** Accounting for one more sandbox of [tenant] in the pool. *)
Lemma account_minv m p' s now :
  minv m → within m (sb_Tenant s) (sb_CPU s) (sb_MemMB s) → sb_Tenant s ≠ ""%string → 0 ≤ sb_CPU s < 2 ^ 62 →
  0 ≤ sb_MemMB s → Forall sandbox_ok p' → zlen p' ≤ m_capacity m →
  (∀ f t, t ≠ ""%string → charge f t p' = charge f t (m_pool m) + of_tenant t f s) →
  minv (accountClaim (set_pool m p') (sb_Tenant s) (sb_CPU s) (sb_MemMB s) now).
Proof.
  intros Hi Hw Ht Hcpu Hmem Hok Hcap Hch. destruct (within_spec _ _ _ _ Hi Ht Hcpu Hw) as (W1 & W2 & W3).
  destruct (minv_counters m _ Hi Ht) as (? & ? & ?). destruct (mi_quota m Hi (sb_Tenant s)) as (? & ? & ?).
  pose proof Hi as [_ Hr Hc Hm Hq _].
  split; simpl; try done; intros t Htt; rewrite cnt_add_to by lia; rewrite (Hch _ t Htt); unfold of_tenant; try change (one s) with 1.
  - destruct (Hr t Htt). destruct (eqs (sb_Tenant s) t) eqn:E; [apply eqs_spec in E; subst t|]; lia.
  - destruct (Hc t Htt). destruct (eqs (sb_Tenant s) t) eqn:E; [apply eqs_spec in E; subst t|]; lia.
  - destruct (Hm t Htt). destruct (eqs (sb_Tenant s) t) eqn:E; [apply eqs_spec in E; subst t|]; lia.
Qed.

Lemma same_set_pool m p m' : same (set_pool m p) m' → same m (set_pool m' (m_pool m)).
Proof. intros []. by split. Qed.

(** [rollbackClaimLocked] undoes [accountClaim]. *)
Lemma rollback_account m m' tenant cpu mem now :
  tenant ≠ ""%string → 0 ≤ cnt (m_running m) tenant < 2 ^ 63 - 1 →
  0 ≤ cpu → 0 ≤ cnt (m_cpu m) tenant < 2 ^ 63 - cpu → 0 ≤ mem → 0 ≤ cnt (m_memMB m) tenant < 2 ^ 63 - mem →
  same (accountClaim m tenant cpu mem now) m' → same m (rollbackClaimLocked m' tenant cpu mem now).
Proof.
  intros Ht Hr Hcpu Hc Hmem Hm [Sp Sc Sq Sr Scpu Sm Sh Sn Sf].
  assert (∀ t, cnt (m_running m') t = cnt (m_running m) t + if eqs tenant t then 1 else 0) as Hr'
    by (intros t; rewrite Sr; apply cnt_add_to; lia).
  assert (∀ t, cnt (m_cpu m') t = cnt (m_cpu m) t + if eqs tenant t then cpu else 0) as Hc'
    by (intros t; rewrite Scpu; apply cnt_add_to; lia).
  assert (∀ t, cnt (m_memMB m') t = cnt (m_memMB m) t + if eqs tenant t then mem else 0) as Hm'
    by (intros t; rewrite Sm; apply cnt_add_to; lia).
  assert (∀ t, starts (m_hourly m') t = if eqs tenant t then starts (m_hourly m) tenant ++ [now] else starts (m_hourly m) t) as Hh'
    by (intros t; rewrite Sh; apply starts_insert).
  pose proof (Hr' tenant) as Er. pose proof (Hc' tenant) as Ec. pose proof (Hm' tenant) as Em. pose proof (Hh' tenant) as Eh.
  rewrite eqs_refl in Er, Ec, Em, Eh. unfold rollbackClaimLocked. rewrite (eqs_ne tenant) by done. simpl.
  rewrite Eh, existsb_app. simpl. rewrite Z.eqb_refl, orb_true_r, remove_last_snoc.
  split; simpl; try done; intros t.
  - rewrite cnt_dec_running, Hr' by lia. lia.
  - rewrite cnt_sub_clamp, Hc' by lia. lia.
  - rewrite cnt_sub_clamp, Hm' by lia. lia.
  - rewrite starts_insert, Hh'. unfold eqs. case_bool_decide as E; [by rewrite E|done].
Qed.

(** ** Releases *)

Lemma release_minv m s p' :
  minv m → (∃ i, m_pool m !! i = Some s) → Forall sandbox_ok p' → zlen p' ≤ m_capacity m →
  (∀ f t, t ≠ ""%string → charge f t p' = charge f t (m_pool m) - of_tenant t f s) →
  minv (set_pool (releaseQuotaLocked m s) p').
Proof.
  intros Hi [i Hs] Hok Hcap Hch. pose proof Hi as [_ Hr Hc Hm Hq _]. destruct (minv_nonneg m Hi) as (N1 & N2 & N3).
  pose proof (Forall_lookup_1 _ _ _ _ (mi_ok m Hi) Hs) as [Pc Pm _ _].
  unfold releaseQuotaLocked. destruct (eqs (sb_Tenant s) "") eqn:E.
  - apply eqs_spec in E.
    assert (∀ f t, t ≠ ""%string → charge f t p' = charge f t (m_pool m)) as Hch'.
    { intros f t Ht. rewrite Hch by done. unfold of_tenant. rewrite E, eqs_ne by done. lia. }
    split; simpl; try done; intros t Ht; rewrite Hch'; auto.
  - assert (sb_Tenant s ≠ ""%string) as Hne by (intros Eq; by rewrite Eq in E).
    destruct (minv_held m i s Hi Hs Hne) as (? & ? & ? & ? & ?).
    split; simpl; try done; intros t Htt; rewrite ?cnt_dec_running, ?cnt_sub_clamp by lia;
      rewrite (Hch _ t Htt); unfold of_tenant; try change (one s) with 1; [destruct (Hr t Htt)|destruct (Hc t Htt)|destruct (Hm t Htt)];
      destruct (eqs (sb_Tenant s) t); lia.
Qed.

(** [rollbackReleaseLocked] undoes [releaseQuotaLocked]. *)
Lemma rollback_release m m' i s :
  minv m → m_pool m !! i = Some s → same (releaseQuotaLocked m s) m' →
  same m (rollbackReleaseLocked m' (sb_Tenant s) (sb_CPU s) (sb_MemMB s)).
Proof.
  intros Hi Hs Hsame. unfold rollbackReleaseLocked. unfold releaseQuotaLocked in Hsame.
  destruct (eqs (sb_Tenant s) "") eqn:E; [done|].
  assert (sb_Tenant s ≠ ""%string) as Hne by (intros Eq; by rewrite Eq in E).
  destruct (minv_held m i s Hi Hs Hne) as (? & ? & ? & ? & ?). destruct Hsame as [Sp Sc Sq Sr Scpu Sm Sh Sn Sf].
  assert (∀ t, cnt (m_running m') t = cnt (m_running m) t - if eqs (sb_Tenant s) t then 1 else 0) as Hr'
    by (intros t; rewrite Sr; apply cnt_dec_running; lia).
  assert (∀ t, cnt (m_cpu m') t = cnt (m_cpu m) t - if eqs (sb_Tenant s) t then sb_CPU s else 0) as Hc'
    by (intros t; rewrite Scpu; apply cnt_sub_clamp; lia).
  assert (∀ t, cnt (m_memMB m') t = cnt (m_memMB m) t - if eqs (sb_Tenant s) t then sb_MemMB s else 0) as Hm'
    by (intros t; rewrite Sm; apply cnt_sub_clamp; lia).
  pose proof (Hr' (sb_Tenant s)) as Er. pose proof (Hc' (sb_Tenant s)) as Ec. pose proof (Hm' (sb_Tenant s)) as Em.
  rewrite eqs_refl in Er, Ec, Em.
  split; simpl; try done; intros t; rewrite cnt_add_to, ?Hr', ?Hc', ?Hm' by lia; lia.
Qed.

(** ** Memory sizes *)

Lemma digit_range c d : digit c = Some d → 0 ≤ d ≤ 9.
Proof. unfold digit. case_if; [|done]. intros [= <-]. bsimp. lia. Qed.

Lemma split_digits_range s : Forall (λ d, 0 ≤ d ≤ 9) (split_digits s).1.
Proof.
  induction s as [|c s IH]; simpl; [constructor|]. destruct (digit c) as [d|] eqn:E; [|constructor].
  destruct (split_digits s) as [ds r]. simpl in *. constructor; [by eapply digit_range|done].
Qed.

Lemma decimal_nonneg ds v : Forall (λ d, 0 ≤ d ≤ 9) ds → 0 ≤ v → 0 ≤ fold_left (λ v d, v * 10 + d) ds v.
Proof. intros H. revert v. induction H as [|d ds Hd _ IH]; intros v Hv; simpl; [done|]. apply IH. lia. Qed.

Lemma parseMemMB_range s v : parseMemMB s = Ok v → 0 ≤ v < 2 ^ 63.
Proof.
  unfold parseMemMB. pose proof (split_digits_range s) as Hd. destruct (split_digits s) as [ds u]. simpl in Hd.
  pose proof (decimal_nonneg ds 0 Hd ltac:(lia)) as Hv. change (fold_left _ ds 0) with (decimal ds) in Hv.
  case_if; [done|]. destruct (Z.ltb_spec MaxInt64 (decimal ds)) as [?|Hle]; [done|]. unfold MaxInt64 in *.
  pose proof (Z.div_pos (decimal ds) 1024 Hv ltac:(lia)). pose proof (Z.div_le_upper_bound (decimal ds) 1024 (2 ^ 53)).
  case_if; [intros [= <-]; case_if; lia|]. case_if; [intros [= <-]; lia|]. case_if; [|done].
  destruct (Z.ltb_spec ((2 ^ 63 - 1) / 1024) (decimal ds)) as [?|Hg]; [done|]. intros [= <-].
  pose proof (Z.mul_div_le (2 ^ 63 - 1) 1024 ltac:(lia)). lia.
Qed.

(** ** Critical sections *)

Inductive section : Type :=
| SecSetQuota (w : option io_step) (tenant : string) (q : Quota)
| SecCheck (w : option io_step) (now : Z) (tenant : string) (tmpl : Template) (task : string)
| SecCommit (w : option io_step) (now : Z) (tenant : string) (tmpl : Template) (task : string) (wantMB : Z) (id : string)
| SecWarm (w : option io_step) (now : Z) (tmpl : Template) (id : string)
| SecRelease (w : option io_step) (id : string) (recycle : bool)
| SecSuspend (w : option io_step) (id : string)
| SecResume (w : option io_step) (id : string)
| SecQueue (id reason : string)
| SecSweepBegin | SecSweepOne (ok : bool) (id : string) | SecSweepEnd.

(** What a section asks of its caller: a named tenant, quotas and CPU counts in
    range, and a memory size that [parseMemMB] returned. *)
Definition sec_ok (sec : section) : Prop :=
  match sec with
  | SecSetQuota _ _ q => quota_ok q
  | SecCheck _ _ tenant tmpl _ => tenant ≠ ""%string ∧ 0 ≤ t_CPU tmpl < 2 ^ 62
  | SecCommit _ _ tenant tmpl _ wantMB _ => tenant ≠ ""%string ∧ 0 ≤ t_CPU tmpl < 2 ^ 62 ∧ parseMemMB (t_Memory tmpl) = Ok wantMB
  | _ => True
  end.

(** Running a section: the manager, and the error it ends with, if any. *)
Definition err_of {A} (r : result pool_err A) : option pool_err := match r with Ok _ => None | Err e => Some e end.

Definition exec (sec : section) (m : Manager) : Manager * option pool_err :=
  match sec with
  | SecSetQuota w tenant q => let (m, r) := SetQuota w tenant q m in (m, err_of r)
  | SecCheck w now tenant tmpl task =>
      match claim_check w now tenant tmpl task m with
      | (m, ClaimDone r _) => (m, err_of r)
      | (m, ClaimCreate _) => (m, None)
      end
  | SecCommit w now tenant tmpl task wantMB id =>
      let '(m, (r, _, _)) := claim_commit w now tenant tmpl task wantMB id m in (m, err_of r)
  | SecWarm w now tmpl id =>
      let (m, r) := warm_commit w now tmpl id m in (m, match r with None => None | Some _ => Some ErrNoCapacity end)
  | SecRelease w id recycle => let (m, r) := release_locked w id recycle m in (m, err_of r)
  | SecSuspend w id => let (m, r) := Suspend w id m in (m, err_of r)
  | SecResume w id => let (m, r) := Resume w id m in (m, err_of r)
  | SecQueue id reason => (queueCleanupLocked m id reason, None)
  | SecSweepBegin => match sweep_begin m with Some (m, _) => (m, None) | None => (m, None) end
  | SecSweepOne ok id => (sweep_one ok id m, None)
  | SecSweepEnd => (sweep_end m, None)
  end.

(** [m'] is [m] again; a claim may have dropped start times that were too old. *)
Definition undone (sec : section) (m m' : Manager) : Prop :=
  match sec with
  | SecCheck _ now tenant _ _ | SecCommit _ now tenant _ _ _ _ => same m m' ∨ same (pruneHourlyLocked m tenant now) m'
  | _ => same m m'
  end.

Definition good (sec : section) (m : Manager) : Prop :=
  minv (exec sec m).1 ∧ ∀ e, (exec sec m).2 = Some e → undone sec m (exec sec m).1.

Lemma good_fail sec m m' e : minv m → exec sec m = (m', Some e) → undone sec m m' → minv m' → good sec m.
Proof. unfold good. intros Hi -> Hu Hm. by split. Qed.
Lemma good_ok sec m m' : exec sec m = (m', None) → minv m' → good sec m.
Proof. unfold good. by intros ->. Qed.

(** Split the attempt to persist. *)
Ltac persist w m :=
  let e := fresh "e" in let He := fresh "He" in let Hd := fresh "Hd" in
  destruct (persist_spec w m) as (e & He & Hd); rewrite He; destruct e as [e|].

Lemma minv_stored w m : minv m → minv (stored w m).
Proof. apply minv_same, same_stored. Qed.

Lemma SetQuota_good w tenant q m : minv m → quota_ok q → good (SecSetQuota w tenant q) m.
Proof.
  intros Hi Hq. unfold good. simpl. unfold SetQuota. persist w (set_quotas m (<[tenant := q]> (m_quotas m))); simpl.
  - assert (same m (set_quotas (stored w (set_quotas m (<[tenant := q]> (m_quotas m))))
      match m_quotas m !! tenant with Some p => <[tenant := p]> (<[tenant := q]> (m_quotas m)) | None => delete tenant (<[tenant := q]> (m_quotas m)) end)) as Hs.
    { split; simpl; try done. intros t. unfold quota_of. destruct (m_quotas m !! tenant) eqn:E.
      - rewrite insert_insert_eq. by rewrite insert_id.
      - by rewrite delete_insert_id. }
    split; [by eapply minv_same|done].
  - split; [|done]. apply minv_stored. destruct Hi as [H1 H2 H3 H4 H5 H6]. split; try done. simpl. intros t.
    rewrite quota_insert. by case_if.
Qed.

Lemma minv_prune m tenant now : minv m → minv (pruneHourlyLocked m tenant now).
Proof. intros []. by split. Qed.

Lemma prune_same m m' tenant now : same m m' → same (pruneHourlyLocked m tenant now) (pruneHourlyLocked m' tenant now).
Proof.
  intros []. split; simpl; try done. intros t. rewrite !starts_insert. case_if; [|done]. f_equal. done.
Qed.

Lemma installed_same m tenant :
  same m (match m_quotas m !! tenant with Some _ => m | None => set_quotas m (<[tenant := quota_of (m_quotas m) tenant]> (m_quotas m)) end).
Proof.
  destruct (m_quotas m !! tenant) eqn:E; [done|]. split; simpl; try done. intros t. rewrite quota_insert.
  destruct (eqs tenant t) eqn:Et; [|done]. apply eqs_spec in Et. by subst.
Qed.

Lemma claimed_ok sb task tenant cpu mem now : tenant ≠ ""%string → 0 ≤ cpu → 0 ≤ mem → sandbox_ok (claimed sb task tenant cpu mem now).
Proof. by split. Qed.

Lemma pool_insert_ok p i s : Forall sandbox_ok p → sandbox_ok s → Forall sandbox_ok (<[i := s]> p).
Proof. intros. by apply Forall_insert. Qed.

Lemma zlen_insert {A} (p : list A) i x : zlen (<[i := x]> p) = zlen p.
Proof. unfold zlen. by rewrite length_insert. Qed.

Lemma ready_uncharged s f t : sandbox_ok s → sb_State s = SandboxReady → t ≠ ""%string → of_tenant t f s = 0.
Proof.
  intros [_ _ _ H] Hs Ht. rewrite Hs in H. unfold of_tenant. rewrite H. simpl. by rewrite eqs_ne.
Qed.

(** Handing the ready sandbox at [i] to a tenant, or failing to record that. *)
Lemma claim_warm w now tenant tmpl task wantMB m i sb :
  minv m → tenant ≠ ""%string → 0 ≤ t_CPU tmpl < 2 ^ 62 → 0 ≤ wantMB → within m tenant (t_CPU tmpl) wantMB →
  m_pool m !! i = Some sb → sb_State sb = SandboxReady →
  let m1 := accountClaim (set_pool m (<[i := claimed sb task tenant (t_CPU tmpl) wantMB now]> (m_pool m))) tenant (t_CPU tmpl) wantMB now in
  let m2 := rollbackClaimLocked (stored w m1) tenant (t_CPU tmpl) wantMB now in
  minv m1 ∧ same m (set_pool m2 (<[i := readied sb]> (m_pool m2))).
Proof.
  intros Hi Ht Hcpu Hmem Hw Hs Hready. pose proof (mi_ok m Hi) as Hok. pose proof (Forall_lookup_1 _ _ _ _ Hok Hs) as Hsb.
  destruct (minv_counters m tenant Hi Ht) as (? & ? & ?). destruct (mi_quota m Hi tenant) as (? & ? & ?).
  destruct (within_spec m tenant (t_CPU tmpl) wantMB Hi Ht Hcpu Hw) as (? & ? & ?).
  intros m1 m2. split.
  - apply (account_minv m _ (claimed sb task tenant (t_CPU tmpl) wantMB now)); simpl; try done.
    + apply pool_insert_ok; [done|]. apply claimed_ok; done || lia.
    + rewrite zlen_insert. apply Hi.
    + intros f t Htt. rewrite (charge_insert _ _ _ _ _ _ Hs), (ready_uncharged sb) by done. lia.
  - assert (same (set_pool m (<[i := claimed sb task tenant (t_CPU tmpl) wantMB now]> (m_pool m))) m2) as Hm2
      by (apply rollback_account; simpl; try done; lia).
    replace (<[i := readied sb]> (m_pool m2)) with (m_pool m); [by eapply same_set_pool|].
    rewrite (sm_pool _ _ Hm2). simpl. rewrite list_insert_insert_eq. symmetry. apply list_insert_id.
    destruct Hsb as [_ _ _ Hst]. rewrite Hready in Hst. by rewrite <- Hst.
Qed.

Lemma claim_check_good w now tenant tmpl task m :
  minv m → tenant ≠ ""%string → 0 ≤ t_CPU tmpl < 2 ^ 62 → good (SecCheck w now tenant tmpl task) m.
Proof.
  intros Hi Ht Hcpu. unfold good. cbn [exec]. unfold claim_check.
  pose proof (installed_same m tenant) as Hin.
  set (mq := match m_quotas m !! tenant with Some _ => m | None => _ end) in *.
  pose proof (prune_same _ _ tenant now Hin) as Hp. set (mp := pruneHourlyLocked mq tenant now) in *.
  assert (minv mp) as Hmp by (eapply minv_same; [exact Hp|by apply minv_prune]).
  assert (∀ r : result pool_err string, minv mp ∧ (∀ e, err_of r = Some e → undone (SecCheck w now tenant tmpl task) m mp)) as Hdone
    by (split; [done|intros; by right]).
  destruct (parseMemMB (t_Memory tmpl)) as [wantMB|e] eqn:Hmem; [|exact (Hdone (Err _))].
  case_if; [exact (Hdone (Err _))|]. case_if; [exact (Hdone (Err _))|]. case_if; [exact (Hdone (Err _))|].
  case_if; [exact (Hdone (Err _))|]. bsimp.
  assert (within mp tenant (t_CPU tmpl) wantMB) as Hw.
  { unfold within. rewrite (sm_quota _ _ Hp). split_and!; [|done|done]. done. }
  destruct (find_ready (t_Name tmpl) (m_pool mp)) as [[i sb]|] eqn:Hf.
  - apply list_find_Some in Hf as (Hs & [Hst _] & _). destruct (parseMemMB_range _ _ Hmem).
    destruct (claim_warm w now tenant tmpl task wantMB mp i sb) as [H1 H2]; try done.
    persist w (accountClaim (set_pool mp (<[i := claimed sb task tenant (t_CPU tmpl) wantMB now]> (m_pool mp))) tenant (t_CPU tmpl) wantMB now); simpl.
    + split; [by eapply minv_same|]. intros _ _. right. by etrans.
    + split; [by apply minv_stored|done].
  - case_if; [exact (Hdone (Err _))|]. by split.
Qed.

Lemma take_snoc {A} (p : list A) x : take (length (p ++ [x]) - 1) (p ++ [x]) = p.
Proof. rewrite length_app. simpl. rewrite Nat.add_sub. by rewrite take_app_length. Qed.

Lemma pool_snoc_ok p s : Forall sandbox_ok p → sandbox_ok s → Forall sandbox_ok (p ++ [s]).
Proof. intros. apply Forall_app. by split; [|apply Forall_singleton]. Qed.

Lemma claim_commit_good w now tenant tmpl task wantMB id m :
  minv m → tenant ≠ ""%string → 0 ≤ t_CPU tmpl < 2 ^ 62 → 0 ≤ wantMB → good (SecCommit w now tenant tmpl task wantMB id) m.
Proof.
  intros Hi Ht Hcpu Hmem. unfold good. cbn [exec]. unfold claim_commit.
  destruct (at_capacity m) eqn:Hcap; [by split; [|left]|].
  pose proof (minv_prune m tenant now Hi) as Hmp. set (mp := pruneHourlyLocked m tenant now) in *.
  case_if; [by split; [|right]|]. case_if; [by split; [|right]|]. bsimp.
  assert (within mp tenant (t_CPU tmpl) wantMB) as Hw by done.
  destruct (minv_counters mp tenant Hmp Ht) as (? & ? & ?). destruct (mi_quota mp Hmp tenant) as (? & ? & ?).
  destruct (within_spec mp tenant (t_CPU tmpl) wantMB Hmp Ht Hcpu Hw) as (? & ? & ?).
  match goal with |- context [m_pool mp ++ [?s]] => set (sb := s) end.
  assert (minv (accountClaim (set_pool mp (m_pool mp ++ [sb])) tenant (t_CPU tmpl) wantMB now)) as Hacc.
  { apply (account_minv mp _ sb); simpl; try done.
    - apply pool_snoc_ok; [apply Hi|by split; simpl; try lia].
    - unfold at_capacity, zlen in *. rewrite length_app. simpl. lia.
    - intros f t _. apply charge_app. }
  persist w (accountClaim (set_pool mp (m_pool mp ++ [sb])) tenant (t_CPU tmpl) wantMB now); simpl.
  - assert (same mp (rollbackClaimLocked
      (set_pool (stored w (accountClaim (set_pool mp (m_pool mp ++ [sb])) tenant (t_CPU tmpl) wantMB now)) (m_pool m)) tenant (t_CPU tmpl) wantMB now)) as Hs
      by (apply rollback_account; try lia; [done|by split]).
    change (m_pool mp) with (m_pool m) in *. rewrite take_snoc. split; [by eapply minv_same|]. intros _ _. by right.
  - split; [by apply minv_stored|done].
Qed.

Lemma warm_commit_good w now tmpl id m : minv m → good (SecWarm w now tmpl id) m.
Proof.
  intros Hi. unfold good. cbn [exec]. unfold warm_commit. destruct (at_capacity m) eqn:Hcap; [by split|].
  match goal with |- context [m_pool m ++ [?s]] => set (sb := s) end.
  assert (sandbox_ok sb) as Hsb by (by split; simpl; try lia).
  persist w (set_pool m (m_pool m ++ [sb])); simpl.
  - rewrite take_snoc. assert (same m (set_pool (stored w (set_pool m (m_pool m ++ [sb]))) (m_pool m))) as Hs by (by split).
    split; [by eapply minv_same|done].
  - split; [|done]. apply minv_stored. destruct Hi as [H1 H2 H3 H4 H5 H6].
    assert (∀ f t, t ≠ ""%string → charge f t (m_pool m ++ [sb]) = charge f t (m_pool m)) as Hch.
    { intros f t Ht. rewrite charge_app, (ready_uncharged sb) by done. lia. }
    split; simpl; try done; [by apply pool_snoc_ok|intros t Ht; rewrite Hch by done; auto..|].
    unfold at_capacity, zlen in *. rewrite length_app. bsimp. simpl. lia.
Qed.

Lemma readied_ok s : sandbox_ok (readied s).
Proof. by split. Qed.

Lemma readied_uncharged s f t : t ≠ ""%string → of_tenant t f (readied s) = 0.
Proof. intros. unfold of_tenant. simpl. by rewrite eqs_ne. Qed.

Lemma Forall_cut {A} (P : A → Prop) (p : list A) i : Forall P p → Forall P (take i p ++ drop (S i) p).
Proof. intros. apply Forall_app. split; [by apply Forall_take|by apply Forall_drop]. Qed.

Lemma uncut {A} (p : list A) i s :
  p !! i = Some s → let q := take i p ++ drop (S i) p in take i q ++ s :: drop i q = p.
Proof.
  intros Hs q. subst q. assert (i < length p)%nat by (by eapply lookup_lt_Some).
  assert (i = length (take i p)) as Hl by (rewrite length_take; lia).
  rewrite Hl at 1 4. rewrite take_app_length, drop_app_length. by apply take_drop_middle.
Qed.

Lemma releaseQuota_pool m s : m_pool (releaseQuotaLocked m s) = m_pool m.
Proof. unfold releaseQuotaLocked. by case_if. Qed.

Lemma release_good w id recycle m : minv m → good (SecRelease w id recycle) m.
Proof.
  intros Hi. unfold good. cbn [exec]. unfold release_locked. destruct (find_id id (m_pool m)) as [[i s]|] eqn:Hf; [|by split].
  apply list_find_Some in Hf as (Hs & _ & _). rewrite (releaseQuota_pool m s).
  assert (∀ p' m', same (set_pool (releaseQuotaLocked m s) p') m' →
    same m (rollbackReleaseLocked (set_pool m' (m_pool m)) (sb_Tenant s) (sb_CPU s) (sb_MemMB s))) as Hback.
  { intros p' m' Hm'. eapply rollback_release; [done..|]. rewrite <- (releaseQuota_pool m s). by eapply same_set_pool. }
  destruct recycle.
  - persist w (set_pool (releaseQuotaLocked m s) (<[i := readied s]> (m_pool m))); simpl.
    + rewrite list_insert_insert_eq, (list_insert_id _ _ _ Hs).
      pose proof (Hback (<[i := readied s]> (m_pool m)) _ (same_stored w _)) as Hb. split; [by eapply minv_same|done].
    + split; [|done]. apply minv_stored, release_minv; [done|by exists i| | |].
      * apply pool_insert_ok; [apply Hi|apply readied_ok].
      * rewrite zlen_insert. apply Hi.
      * intros f t Ht. rewrite (charge_insert _ _ _ _ _ _ Hs), readied_uncharged by done. lia.
  - persist w (set_pool (releaseQuotaLocked m s) (take i (m_pool m) ++ drop (S i) (m_pool m))); simpl.
    + rewrite (uncut _ _ _ Hs). pose proof (Hback (take i (m_pool m) ++ drop (S i) (m_pool m)) _ (same_stored w _)) as Hb.
      split; [by eapply minv_same|done].
    + split; [|done]. apply minv_stored, release_minv; [done|by exists i| | |].
      * apply Forall_cut, Hi.
      * etrans; [|apply Hi]. unfold zlen. rewrite length_app, length_take, length_drop. lia.
      * intros f t Ht. by apply charge_cut.
Qed.

(** Moving a sandbox's memory reservation in or out of the tenant's counter. *)
Lemma move_mem m i s s' mm :
  minv m → m_pool m !! i = Some s → sandbox_ok s' → sb_Tenant s' = sb_Tenant s → sb_CPU s' = sb_CPU s →
  (∀ t, cnt mm t = cnt (m_memMB m) t + if eqs (sb_Tenant s) t then sb_MemMB s' - sb_MemMB s else 0) →
  (∀ t, t ≠ ""%string → cnt mm t < 2 ^ 63) →
  minv (set_memMB (set_pool m (<[i := s']> (m_pool m))) mm).
Proof.
  intros [H1 H2 H3 H4 H5 H6] Hs Hok Et Ec Hmm Hb.
  split; simpl; try done; [by apply pool_insert_ok|..|by rewrite zlen_insert]; intros t Ht;
    rewrite (charge_insert _ _ _ _ _ _ Hs); unfold of_tenant; rewrite Et, ?Ec.
  - destruct (H2 t Ht). change (one s') with (one s). lia.
  - destruct (H3 t Ht). lia.
  - destruct (H4 t Ht). specialize (Hb t Ht). rewrite Hmm in *. case_if; lia.
Qed.

Lemma held_tenant m i s : minv m → m_pool m !! i = Some s → sb_State s = SandboxClaimed ∨ sb_State s = SandboxPaused →
  sb_Tenant s ≠ ""%string.
Proof.
  intros Hi Hs Hst. pose proof (Forall_lookup_1 _ _ _ _ (mi_ok m Hi) Hs) as [_ _ _ H]. destruct Hst as [E|E]; rewrite E in H; tauto.
Qed.

(** The two directions of a failed move. *)
Lemma sub_add_same m w i s s' t x :
  m_pool m !! i = Some s → 0 ≤ x ≤ cnt (m_memMB m) t → cnt (m_memMB m) t < 2 ^ 63 →
  let m1 := set_memMB (set_pool m (<[i := s']> (m_pool m))) (sub_clamp (m_memMB m) t x) in
  let m2 := set_pool (stored w m1) (<[i := s]> (<[i := s']> (m_pool m))) in
  same m (set_memMB m2 (add_to (m_memMB m2) t x)).
Proof.
  intros Hs Hx Hb m1 m2. subst m1 m2. rewrite list_insert_insert_eq, (list_insert_id _ _ _ Hs).
  split; simpl; try done. intros t'.
  rewrite cnt_add_to; [|rewrite cnt_sub_clamp by lia; rewrite eqs_refl; lia]. rewrite cnt_sub_clamp by lia. lia.
Qed.

Lemma add_sub_same m w i s s' t x :
  m_pool m !! i = Some s → 0 ≤ x → 0 ≤ cnt (m_memMB m) t → cnt (m_memMB m) t + x < 2 ^ 63 →
  let m1 := set_memMB (set_pool m (<[i := s']> (m_pool m))) (add_to (m_memMB m) t x) in
  let m2 := set_pool (stored w m1) (<[i := s]> (<[i := s']> (m_pool m))) in
  same m (set_memMB m2 (sub_clamp (m_memMB m2) t x)).
Proof.
  intros Hs Hx H0 Hb m1 m2. subst m1 m2. rewrite list_insert_insert_eq, (list_insert_id _ _ _ Hs).
  assert (∀ t', cnt (add_to (m_memMB m) t x) t' = cnt (m_memMB m) t' + if eqs t t' then x else 0) as Ha
    by (intros; apply cnt_add_to; lia).
  split; simpl; try done. intros t'. rewrite cnt_sub_clamp, Ha by (rewrite ?Ha, eqs_refl; lia). lia.
Qed.

Lemma suspend_good w id m : minv m → good (SecSuspend w id) m.
Proof.
  intros Hi. unfold good. cbn [exec]. unfold Suspend. destruct (find_id id (m_pool m)) as [[i s]|] eqn:Hf; [|by split].
  apply list_find_Some in Hf as (Hs & _ & _). destruct (sb_State s) eqn:Hst; try (by split).
  pose proof (held_tenant m i s Hi Hs (or_introl Hst)) as Ht. rewrite (eqs_ne _ _ Ht).
  destruct (minv_held m i s Hi Hs Ht) as (? & ? & ? & ? & ?).
  pose proof (Forall_lookup_1 _ _ _ _ (mi_ok m Hi) Hs) as [Pc _ _ _].
  change (m_memMB (set_pool m (<[i := suspended s]> (m_pool m)))) with (m_memMB m).
  persist w (set_memMB (set_pool m (<[i := suspended s]> (m_pool m))) (sub_clamp (m_memMB m) (sb_Tenant s) (sb_MemMB s))); simpl.
  - pose proof (sub_add_same m w i s (suspended s) (sb_Tenant s) (sb_MemMB s) Hs ltac:(lia) ltac:(lia)) as Hb.
    split; [by eapply minv_same|done].
  - split; [|done]. apply minv_stored, (move_mem m i s (suspended s)); try done; [by split; simpl; try lia| |].
    + intros t. rewrite cnt_sub_clamp by lia. simpl. case_if; lia.
    + intros t Htt. destruct (minv_counters m t Hi Htt) as (_ & _ & ?). rewrite cnt_sub_clamp by lia. case_if; lia.
Qed.

Lemma resume_good w id m : minv m → good (SecResume w id) m.
Proof.
  intros Hi. unfold good. cbn [exec]. unfold Resume. destruct (find_id id (m_pool m)) as [[i s]|] eqn:Hf; [|by split].
  apply list_find_Some in Hf as (Hs & _ & _). case_bool_decide as Hst; [by split|].
  pose proof (held_tenant m i s Hi Hs (or_intror Hst)) as Ht. rewrite (eqs_ne _ _ Ht). cbn [negb andb].
  case_if; [by split|]. set (x := sb_ReservedMemMB s) in *.
  destruct (minv_counters m (sb_Tenant s) Hi Ht) as (_ & _ & ?).
  pose proof (Forall_lookup_1 _ _ _ _ (mi_ok m Hi) Hs) as [Pc _ Pr Pst]. rewrite Hst in Pst. destruct Pst as [_ Hmem0].
  assert (cnt (m_memMB m) (sb_Tenant s) + x < 2 ^ 63) as Hx.
  { destruct (Z.ltb_spec 0 x); [|lia]. cbn [andb] in *. destruct (mi_quota m Hi (sb_Tenant s)) as (_ & _ & ?).
    unfold memExceeded in *. rewrite int64_small in * by lia. bsimp. lia. }
  change (m_memMB (set_pool m (<[i := resumed s]> (m_pool m)))) with (m_memMB m).
  persist w (set_memMB (set_pool m (<[i := resumed s]> (m_pool m))) (add_to (m_memMB m) (sb_Tenant s) x)); simpl.
  - pose proof (add_sub_same m w i s (resumed s) (sb_Tenant s) x Hs ltac:(lia) ltac:(lia) Hx) as Hb.
    split; [by eapply minv_same|done].
  - split; [|done]. apply minv_stored, (move_mem m i s (resumed s)); try done; [by split; simpl; try lia| |].
    + intros t. rewrite cnt_add_to by lia. simpl. rewrite Hmem0. fold x. case_if; lia.
    + intros t Htt. destruct (minv_counters m t Hi Htt) as (_ & _ & ?). rewrite cnt_add_to by lia.
      destruct (eqs (sb_Tenant s) t) eqn:E; [apply eqs_spec in E; subst t|]; lia.
Qed.

(** Every section keeps the invariant, and one that fails undoes what it did. *)
Lemma exec_good sec m : minv m → sec_ok sec → good sec m.
Proof.
  intros Hi Hok. destruct sec; simpl in Hok.
  - by apply SetQuota_good.
  - destruct Hok. by apply claim_check_good.
  - destruct Hok as (? & ? & ?%parseMemMB_range). apply claim_commit_good; done || lia.
  - by apply warm_commit_good.
  - by apply release_good.
  - by apply suspend_good.
  - by apply resume_good.
  - split; [|done]. destruct Hi. by split.
  - unfold good. simpl. unfold sweep_begin. destruct (m_sweeping m); simpl; (split; [|done]); destruct Hi; by split.
  - split; [|done]. simpl. unfold sweep_one. destruct ok; [|done]. destruct Hi. by split.
  - split; [|done]. destruct Hi. by split.
Qed.
