(* ===== verification/PoolClaims.v ===== *)
(** * Properties of the pool

    Accounting, quotas, failure atomicity and restart, over any order of the
    manager's critical sections. *)

From S2P Require Import Prelude FsJson Pool PoolSpec.

(** ** The store mirrors the manager *)

Definition mirrors (pf : poolFile) (m : Manager) : Prop :=
  pf_Pool pf = m_pool m ∧ pf_Capacity pf = m_capacity m ∧ ∀ t, quota_of (pf_Quotas pf) t = quota_of (m_quotas m) t.

Definition mirrored (m : Manager) : Prop :=
  m_persists m = true → ∃ pf, st_target (m_store m) = Some pf ∧ mirrors pf m.

(** The write of the section, if it attempts one. *)
Definition sec_write (sec : section) : option io_step :=
  match sec with
  | SecSetQuota w _ _ | SecCheck w _ _ _ _ | SecCommit w _ _ _ _ _ _ | SecWarm w _ _ _
  | SecRelease w _ _ | SecSuspend w _ | SecResume w _ => w
  | _ => None
  end.

(** A write whose error means what callers take it to mean: nothing was written. *)
Definition honest (w : option io_step) : Prop := w = None ∨ committed w = false.

(** What a section does to the store. *)
Definition files (m m' : Manager) (e : option pool_err) : Prop :=
  match e with
  | Some _ => m_store m' = m_store m
  | None => (∃ m1, m' = stored None m1 ∧ m_persists m1 = m_persists m) ∨
            m_store m' = m_store m ∧ m_pool m' = m_pool m ∧ m_capacity m' = m_capacity m ∧ m_persists m' = m_persists m ∧
            ∀ t, quota_of (m_quotas m') t = quota_of (m_quotas m) t
  end.

Lemma files_ok w m m1 : honest w → m_persists m1 = m_persists m → m_store m1 = m_store m →
  (@None fs_err = None ↔ m_persists m1 = false ∨ w = None) → files m (stored w m1) None.
Proof.
  intros Hw Hp Hs [H _]. destruct (H eq_refl) as [Hf|Hn].
  - left. exists m1. split; [|done]. unfold stored. by rewrite Hf.
  - left. exists m1. by rewrite Hn.
Qed.

Lemma stored_failed w m (e : fs_err) : honest w → (Some e = None ↔ m_persists m = false ∨ w = None) → m_store (stored w m) = m_store m.
Proof.
  intros [-> |Hw] [_ H]; [by discriminate H; right|]. unfold stored. simpl. by rewrite Hw, andb_false_r.
Qed.

Lemma rollbackClaim_store m t c mm now : m_store (rollbackClaimLocked m t c mm now) = m_store m.
Proof. unfold rollbackClaimLocked. case_if; [done|]. by case_if. Qed.
Lemma rollbackRelease_store m t c mm : m_store (rollbackReleaseLocked m t c mm) = m_store m.
Proof. unfold rollbackReleaseLocked. by case_if. Qed.
Lemma releaseQuota_store m s : m_store (releaseQuotaLocked m s) = m_store m ∧ m_persists (releaseQuotaLocked m s) = m_persists m.
Proof. unfold releaseQuotaLocked. by case_if. Qed.

Ltac filed w m :=
  let e := fresh "e" in let He := fresh "He" in let Hd := fresh "Hd" in
  destruct (persist_spec w m) as (e & He & Hd); rewrite He; destruct e as [e|].

Lemma exec_files sec m : honest (sec_write sec) → files m (exec sec m).1 (exec sec m).2.
Proof.
  intros Hw. destruct sec; simpl in Hw; cbn [exec].
  - unfold SetQuota. filed w (set_quotas m (<[tenant := q]> (m_quotas m))); [|by eapply files_ok].
    exact (stored_failed _ _ _ Hw Hd).
  - unfold claim_check. pose proof (installed_same m tenant) as Hin.
    set (mq := match m_quotas m !! tenant with Some _ => m | None => _ end) in *.
    assert (m_store mq = m_store m) as Hst by (subst mq; by destruct (m_quotas m !! tenant)).
    set (mp := pruneHourlyLocked mq tenant now).
    destruct (parseMemMB _); [|done]. do 4 (case_if; [done|]). destruct (find_ready _ _) as [[i sb]|].
    + match goal with |- context [persistLocked w ?x] => filed w x end; simpl.
      * rewrite rollbackClaim_store. etrans; [exact (stored_failed _ _ _ Hw Hd)|done].
      * eapply files_ok; [done|apply Hin|done|done].
    + case_if; [done|]. right. split_and!; [done|apply Hin..|apply Hin].
  - unfold claim_commit. do 3 (case_if; [done|]).
    match goal with |- context [persistLocked w ?x] => filed w x end; simpl.
    + rewrite rollbackClaim_store. exact (stored_failed _ _ _ Hw Hd).
    + by eapply files_ok.
  - unfold warm_commit. case_if; [done|]. match goal with |- context [persistLocked w ?x] => filed w x end; simpl.
    + exact (stored_failed _ _ _ Hw Hd).
    + by eapply files_ok.
  - unfold release_locked. destruct (find_id _ _) as [[i s]|]; [|done]. destruct (releaseQuota_store m s) as [E1 E2].
    destruct recycle; (match goal with |- context [persistLocked w ?x] => filed w x end; simpl;
      [rewrite rollbackRelease_store; simpl; etrans; [exact (stored_failed _ _ _ Hw Hd)|done]|by eapply files_ok]).
  - unfold Suspend. destruct (find_id _ _) as [[i s]|]; [|done]. destruct (sb_State s); try done; [|by right].
    destruct (eqs (sb_Tenant s) ""); (match goal with |- context [persistLocked w ?x] => filed w x end; simpl;
      [exact (stored_failed _ _ _ Hw Hd)|by eapply files_ok]).
  - unfold Resume. destruct (find_id _ _) as [[i s]|]; [|done]. case_if; [done|]. case_if; [done|].
    destruct (eqs (sb_Tenant s) ""); (match goal with |- context [persistLocked w ?x] => filed w x end; simpl;
      [exact (stored_failed _ _ _ Hw Hd)|by eapply files_ok]).
  - by right.
  - unfold sweep_begin. destruct (m_sweeping m); by right.
  - unfold sweep_one. destruct ok; by right.
  - by right.
Qed.

Lemma undone_mirror sec m m' pf : undone sec m m' → mirrors pf m → mirrors pf m' ∧ m_persists m' = m_persists m.
Proof.
  assert (∀ m0, m_pool m0 = m_pool m → m_capacity m0 = m_capacity m → m_quotas m0 = m_quotas m → m_persists m0 = m_persists m →
    same m0 m' → mirrors pf m → mirrors pf m' ∧ m_persists m' = m_persists m) as Hgen.
  { intros m0 E1 E2 E3 E4 [Sp Sc Sq _ _ _ _ _ (Sf & _)] (M1 & M2 & M3). unfold mirrors.
    rewrite Sp, Sc, Sf, E1, E2, E4. split; [|done]. split_and!; try done. intros t. by rewrite Sq, E3. }
  destruct sec; simpl; intros Hu; try (by apply (Hgen m)); (destruct Hu as [Hu|Hu]; [by apply (Hgen m)|]);
    by apply (λ E1 E2 E3 E4, Hgen _ E1 E2 E3 E4 Hu).
Qed.

Lemma mirrored_exec sec m : minv m → sec_ok sec → honest (sec_write sec) → mirrored m → mirrored (exec sec m).1.
Proof.
  intros Hi Hok Hw Hm. pose proof (exec_files sec m Hw) as Hf. destruct (exec_good sec m Hi Hok) as [_ Hu].
  destruct (exec sec m) as [m' [e|]]; simpl in *.
  - intros Hp. specialize (Hu e eq_refl). rewrite Hf.
    assert (m_persists m = true) as Hp'.
    { destruct sec; simpl in Hu; try (by rewrite (proj1 (sm_flags _ _ Hu)) in Hp);
        (destruct Hu as [Hu|Hu]; by rewrite (proj1 (sm_flags _ _ Hu)) in Hp). }
    destruct (Hm Hp') as (pf & Ht & Hmir). exists pf. split; [done|]. by eapply undone_mirror.
  - intros Hp. destruct Hf as [(m1 & -> & Hp1)|(Hs & E1 & E2 & E3 & E4)].
    + exists (file_of m1). unfold stored in *. simpl in *. rewrite Hp. by split.
    + rewrite E3 in Hp. destruct (Hm Hp) as (pf & Ht & M1 & M2 & M3). exists pf. rewrite Hs. split; [done|].
      unfold mirrors. rewrite E1, E2. split_and!; try done. intros t. by rewrite E4.
Qed.

(** ** Runs *)

(** The manager's goroutines take turns at its critical sections, in any order. *)
Definition durable_step (m m' : Manager) : Prop := ∃ sec, sec_ok sec ∧ honest (sec_write sec) ∧ m' = (exec sec m).1.

Lemma new_minv cap f d st : 0 ≤ cap → minv (NewManager cap f d st).
Proof. intros. split; simpl; try done; by intros t. Qed.

Lemma durable_minv m m' : rtc durable_step m m' → minv m → mirrored m → minv m' ∧ mirrored m'.
Proof.
  induction 1 as [|m1 m2 m3 (sec & Hok & Hw & ->) _ IH]; [done|]. intros Hi Hm. apply IH.
  - by apply exec_good.
  - by apply mirrored_exec.
Qed.

Lemma durable_persists m m' : rtc durable_step m m' → minv m → m_persists m = true → m_persists m' = true.
Proof.
  induction 1 as [|m1 m2 m3 (sec & Hok & Hw & ->) _ IH]; [done|]. intros Hi Hp. apply IH; [by apply exec_good|].
  pose proof (exec_files sec m1 Hw) as Hf. destruct (exec_good sec m1 Hi Hok) as [_ Hu].
  destruct (exec sec m1) as [m' [e|]]; simpl in *.
  - specialize (Hu e eq_refl).
    destruct sec; simpl in Hu; try (by rewrite (proj1 (sm_flags _ _ Hu)));
      (destruct Hu as [Hu|Hu]; by rewrite (proj1 (sm_flags _ _ Hu))).
  - destruct Hf as [(m1' & -> & Hp1)|(_ & _ & _ & E3 & _)]; [|by rewrite E3]. simpl. by rewrite Hp1.
Qed.

(** ** Restart *)

Definition totals_ok (m : Manager) (p : list Sandbox) : Prop :=
  ∀ t, t ≠ ""%string →
    0 ≤ cnt (m_running m) t ∧ 0 ≤ cnt (m_cpu m) t ∧ 0 ≤ cnt (m_memMB m) t ∧
    cnt (m_running m) t + charge one t p < 2 ^ 63 ∧ cnt (m_cpu m) t + charge sb_CPU t p < 2 ^ 63 ∧
    cnt (m_memMB m) t + charge sb_MemMB t p < 2 ^ 63.

Lemma charge_cons f t s p : charge f t (s :: p) = of_tenant t f s + charge f t p.
Proof. done. Qed.

(** One round charges the tenant with what the sandbox holds. *)
Lemma rebuild_one m s p :
  sandbox_ok s → Forall sandbox_ok p → totals_ok m (s :: p) →
  (∀ t, t ≠ ""%string → cnt (m_running (rebuild m s)) t = cnt (m_running m) t + of_tenant t one s ∧
     cnt (m_cpu (rebuild m s)) t = cnt (m_cpu m) t + of_tenant t sb_CPU s ∧
     cnt (m_memMB (rebuild m s)) t = cnt (m_memMB m) t + of_tenant t sb_MemMB s).
Proof.
  intros Hs Hp Htot t Ht. pose proof Hs as [Hc Hm _ Hst]. unfold rebuild.
  destruct (eqs (sb_Tenant s) "") eqn:E.
  - apply eqs_spec in E. unfold of_tenant. rewrite E, eqs_ne by done. lia.
  - assert (sb_Tenant s ≠ ""%string) as Hne by (intros Eq; by rewrite Eq in E).
    assert (0 ≤ charge one (sb_Tenant s) p) by (apply charge_nonneg; eapply Forall_impl; [|exact Hp]; done).
    assert (0 ≤ charge sb_CPU (sb_Tenant s) p) by (apply charge_nonneg; eapply Forall_impl; [|exact Hp]; by intros ? []).
    assert (0 ≤ charge sb_MemMB (sb_Tenant s) p) by (apply charge_nonneg; eapply Forall_impl; [|exact Hp]; by intros ? []).
    destruct (Htot _ Hne) as (? & ? & ? & T1 & T2 & T3). rewrite charge_cons in T1, T2, T3. unfold of_tenant in *.
    rewrite eqs_refl in T1, T2, T3. change (one s) with 1 in *.
    destruct (sb_State s) eqn:Es; try done; simpl.
    + rewrite Hst in E. done.
    + rewrite !cnt_add_to by lia. done.
    + rewrite !cnt_add_to by lia. destruct Hst as [_ ->]. by case_if; rewrite ?Z.add_0_r.
Qed.

Lemma rebuild_fields m s :
  m_pool (rebuild m s) = m_pool m ∧ m_capacity (rebuild m s) = m_capacity m ∧ m_quotas (rebuild m s) = m_quotas m ∧
  m_persists (rebuild m s) = m_persists m ∧ m_store (rebuild m s) = m_store m.
Proof. unfold rebuild. case_if; [done|]. by destruct (sb_State s). Qed.

Lemma rebuild_all p m :
  Forall sandbox_ok p → totals_ok m p →
  let m' := fold_left rebuild p m in
  (m_pool m' = m_pool m ∧ m_capacity m' = m_capacity m ∧ m_quotas m' = m_quotas m ∧ m_persists m' = m_persists m ∧ m_store m' = m_store m) ∧
  ∀ t, t ≠ ""%string → cnt (m_running m') t = cnt (m_running m) t + charge one t p ∧
     cnt (m_cpu m') t = cnt (m_cpu m) t + charge sb_CPU t p ∧ cnt (m_memMB m') t = cnt (m_memMB m) t + charge sb_MemMB t p.
Proof.
  revert m. induction p as [|s p IH]; intros m Hok Htot; cbn [fold_left].
  - split; [done|]. intros t _. unfold charge. rewrite !zsum_nil. lia.
  - apply Forall_cons_1 in Hok as [Hs Hp]. pose proof (rebuild_one m s p Hs Hp Htot) as H1.
    destruct (IH (rebuild m s) Hp) as [Hf Hc].
    + intros t Ht. destruct (H1 t Ht) as (-> & -> & ->). destruct (Htot t Ht) as (? & ? & ? & T1 & T2 & T3).
      rewrite charge_cons in T1, T2, T3. destruct Hs as [Pc Pm _ _]. unfold of_tenant in *. change (one s) with 1 in *. case_if; lia.
    + destruct (rebuild_fields m s) as (E1 & E2 & E3 & E4 & E5). split; [by rewrite <- E1, <- E2, <- E3, <- E4, <- E5|].
      intros t Ht. destruct (Hc t Ht) as (-> & -> & ->). destruct (H1 t Ht) as (-> & -> & ->). rewrite !charge_cons. lia.
Qed.

Lemma load_restores cap f d st m pf :
  minv m → mirrors pf m → 0 < m_capacity m →
  let m' := load_file pf (set_store (NewManager cap f d st) true st) in
  m_pool m' = m_pool m ∧ m_capacity m' = m_capacity m ∧ (∀ t, quota_of (m_quotas m') t = quota_of (m_quotas m) t) ∧
  m_persists m' = true ∧ m_store m' = st ∧
  ∀ t, t ≠ ""%string → cnt (m_running m') t = cnt (m_running m) t ∧ cnt (m_cpu m') t = cnt (m_cpu m) t ∧
                       cnt (m_memMB m') t = cnt (m_memMB m) t.
Proof.
  intros Hi (M1 & M2 & M3) Hcap. unfold load_file. rewrite M1, M2. destruct (Z.ltb_spec 0 (m_capacity m)); [|lia]. simpl.
  match goal with |- context [fold_left rebuild _ ?x] => destruct (rebuild_all (m_pool m) x) as [(E1 & E2 & E3 & E4 & E5) Hc] end.
  - apply Hi.
  - intros t Ht. simpl. unfold cnt. rewrite lookup_empty. simpl. destruct (mi_run m Hi t Ht), (mi_cpu m Hi t Ht), (mi_mem m Hi t Ht). lia.
  - rewrite E1, E2, E3, E4, E5. simpl. split_and!; try done.
    + intros t. by rewrite <- M3, (right_id_L ∅ (∪)).
    + intros t Ht. destruct (Hc t Ht) as (-> & -> & ->). simpl. unfold cnt at 1 3 5. rewrite lookup_empty. simpl.
      destruct (mi_run m Hi t Ht) as [-> _], (mi_cpu m Hi t Ht) as [-> _], (mi_mem m Hi t Ht) as [-> _]. done.
Qed.

Lemma minv_enabled cap f d st b st' : 0 ≤ cap → minv (set_store (NewManager cap f d st) b st').
Proof. intros Hc. destruct (new_minv cap f d st Hc). by split. Qed.

(** The managers a process can have: new ones, with or without a store, those
    that load what another left in its store, and what their critical sections,
    in any order, make of them. *)
Inductive reachable : Manager → Prop :=
| re_new cap f d st : 0 ≤ cap → reachable (NewManager cap f d st)
| re_enable cap f d st w mkdir path rd :
    0 ≤ cap → (∀ pf, rd ≠ RdFile pf) → reachable (EnablePersistence w mkdir path rd (NewManager cap f d st)).1
| re_restart m pf cap f d st w mkdir path :
    reachable m → mirrors pf m → 0 < m_capacity m → 0 ≤ cap →
    reachable (EnablePersistence w mkdir path (RdFile pf) (NewManager cap f d st)).1
| re_step m sec : reachable m → sec_ok sec → reachable (exec sec m).1.

Lemma enable_minv w mkdir path rd cap f d st :
  0 ≤ cap →
  (∀ pf, rd = RdFile pf → minv (load_file pf (set_store (NewManager cap f d st) true st))) →
  minv (EnablePersistence w mkdir path rd (NewManager cap f d st)).1.
Proof.
  intros Hc Hl. unfold EnablePersistence. case_if; [by apply new_minv|]. case_if; [by apply new_minv|]. simpl.
  assert (∀ m, minv m → minv (match persistLocked w m with
    | (m, None) => (m, Ok tt)
    | (m, Some e) => (set_store (restoreLocked (NewManager cap f d st) m) false (m_store (restoreLocked (NewManager cap f d st) m)), Err (EPersist e))
    end).1) as Hfin.
  { intros m Hm. persist w m; simpl; [|by apply minv_stored]. destruct (new_minv cap f d st Hc). by split. }
  destruct rd; [by apply Hfin, minv_enabled..| |].
  - by apply minv_enabled.
  - apply Hfin. by apply Hl.
Qed.

Lemma reachable_minv m : reachable m → minv m.
Proof.
  induction 1 as [|cap f d st w mkdir path rd Hc Hrd|m pf cap f d st w mkdir path _ IH Hm Hcap Hc|m sec _ IH Hok].
  - by apply new_minv.
  - apply enable_minv; [done|]. intros pf ->. by destruct (Hrd pf).
  - apply enable_minv; [done|]. intros pf' [= <-].
    destruct (load_restores cap f d st m pf IH Hm Hcap) as (L1 & L2 & L3 & _ & _ & L6).
    destruct IH as [H1 H2 H3 H4 H5 H6].
    split; rewrite ?L1, ?L2; try done; intros t; try intros Ht; [destruct (L6 t Ht) as (E1 & E2 & E3); rewrite ?E1, ?E2, ?E3; by auto..|].
    rewrite L3. apply H5.
  - by apply exec_good.
Qed.

(** ** The properties *)

(** C6. The counters are exact: for a tenant with a name, whatever claims, releases,
    suspensions and failed writes interleave, the tenant's concurrency, CPU and
    memory counters equal what its sandboxes in the pool hold, and the pool stays
    within its capacity.  Templates ask for fewer than 2^62 CPUs, quotas are in
    range, and persistence is enabled on fresh managers only ([reachable], [sec_ok];
    see [unnamed_tenant_locked_out] and [enabling_late_charges_twice]). *)
Theorem counters_exact m t :
  reachable m → t ≠ ""%string →
  cnt (m_running m) t = charge one t (m_pool m) ∧ cnt (m_cpu m) t = charge sb_CPU t (m_pool m) ∧
  cnt (m_memMB m) t = charge sb_MemMB t (m_pool m) ∧ zlen (m_pool m) ≤ m_capacity m.
Proof.
  intros Hr Ht. apply reachable_minv in Hr as [_ H1 H2 H3 _ H4].
  split_and!; [by apply H1|by apply H2|by apply H3|done].
Qed.





(** C22. A critical section that fails leaves no trace in memory: in every reachable
    state, a section of a claim, warm-up, release, suspension, resumption or quota
    change whose arguments are in range and that reports an error - the store
    refusing the write included - leaves a manager that behaves as before it
    started: same pool, limits, counters and cleanup queue, where a claim may only
    have dropped start times older than an hour.  What reached the store (see
    [durability_error_diverges]) and what the other sections of a call do - a
    destroyer that fails after the release was committed, a cleanup queued for a
    refused sandbox - is not covered. *)
Theorem failure_undone m sec m' e :
  reachable m → sec_ok sec → exec sec m = (m', Some e) → undone sec m m'.
Proof.
  intros Hr Hok He. destruct (exec_good sec m (reachable_minv m Hr) Hok) as [_ Hu]. rewrite He in Hu. by eapply Hu.
Qed.

(** A restart restores the pool: with persistence enabled and writes that fail
    cleanly, a process that loads the store after any run has the same pool,
    capacity and quotas, and rebuilds the tenants' counters to the values the
    manager had when it stopped - paused sandboxes charged for CPU but not for
    memory. *)
Theorem restart_restores cap f d st0 path m0 m cap' :
  0 < cap → path ≠ ""%string → EnablePersistence None true path RdMissing (NewManager cap f d st0) = (m0, Ok tt) →
  rtc durable_step m0 m → 0 < m_capacity m →
  ∃ pf m', st_target (m_store m) = Some pf ∧
    EnablePersistence None true path (RdFile pf) (NewManager cap' f d (m_store m)) = (m', Ok tt) ∧
    m_pool m' = m_pool m ∧ m_capacity m' = m_capacity m ∧ (∀ t, quota_of (m_quotas m') t = quota_of (m_quotas m) t) ∧
    ∀ t, t ≠ ""%string → cnt (m_running m') t = cnt (m_running m) t ∧ cnt (m_cpu m') t = cnt (m_cpu m) t ∧
                         cnt (m_memMB m') t = cnt (m_memMB m) t.
Proof.
  intros Hc Hpath H0 Hr Hcap. unfold EnablePersistence in H0. rewrite (eqs_ne _ _ Hpath) in H0. simpl in H0.
  injection H0 as <-.
  match type of Hr with rtc _ ?x _ => assert (minv x) as Hi0 by (destruct (new_minv cap f d st0 ltac:(lia)); by split) end.
  destruct (durable_minv _ _ Hr Hi0) as [Hi Hm]; [intros _; eexists; by split|].
  destruct (Hm (durable_persists _ _ Hr Hi0 eq_refl)) as (pf & Ht & Hmir).
  destruct (load_restores cap' f d (m_store m) m pf Hi Hmir Hcap) as (L1 & L2 & L3 & L4 & L5 & L6).
  exists pf, (stored None (load_file pf (set_store (NewManager cap' f d (m_store m)) true (m_store m)))).
  split; [done|]. split; [|done]. unfold EnablePersistence. rewrite (eqs_ne _ _ Hpath). cbn [negb m_persists NewManager].
  destruct (persist_spec None (load_file pf (set_store (NewManager cap' f d (m_store m)) true (m_store m)))) as (e & He & Hd).
  change (m_store (NewManager cap' f d (m_store m))) with (m_store m). rewrite He.
  by replace e with (@None fs_err) by (symmetry; apply Hd; by right).
Qed.

(** The reference for memory sizes: kilobytes per unit, rounded up to megabytes. *)
Definition unit_kb (u : string) : option Z :=
  if bool_decide (u ∈ ["K"; "k"; "KB"; "kb"]%string) then Some 1
  else if bool_decide (u ∈ ["M"; "m"; "MB"; "mb"]%string) then Some 1024
  else if bool_decide (u ∈ ["G"; "g"; "GB"; "gb"]%string) then Some (1024 * 1024)
  else None.

Definition ceil_div (a b : Z) : Z := (a + (b - 1)) / b.

Lemma ceil_div_quot a b : 0 < b → ceil_div a b = a / b + if a mod b =? 0 then 0 else 1.
Proof.
  intros Hb. unfold ceil_div. pose proof (Z.div_mod a b ltac:(lia)). pose proof (Z.mod_pos_bound a b Hb).
  destruct (Z.eqb_spec (a mod b) 0).
  - symmetry. apply (Z.div_unique _ _ _ (b - 1)); lia.
  - symmetry. apply (Z.div_unique _ _ _ (a mod b - 1)); lia.
Qed.

Lemma ceil_div_exact a b : 0 < b → ceil_div (a * b) b = a.
Proof. intros. rewrite ceil_div_quot, Z.mod_mul, Z.div_mul by lia. simpl. lia. Qed.

(** Template memory is charged exactly: a size is accepted only as decimal
    digits followed by one of the twelve unit spellings, with the value and the
    result within 64 bits, and then counts as its kilobytes rounded up to whole
    megabytes - never as less than it asks for, and never wrapped negative. *)
Theorem parseMemMB_exact s v :
  parseMemMB s = Ok v ↔
  ∃ ds u k, split_digits s = (ds, u) ∧ ds ≠ [] ∧ unit_kb u = Some k ∧ decimal ds ≤ MaxInt64 ∧
            v = ceil_div (decimal ds * k) 1024 ∧ v ≤ MaxInt64.
Proof.
  assert (parseMemMB s = Ok v → v ≤ MaxInt64) as Hmax by (intros ?%parseMemMB_range; unfold MaxInt64; lia).
  revert Hmax. unfold parseMemMB, unit_kb.
  destruct (split_digits s) as [ds u]. assert (zlen ds =? 0 = false ↔ ds ≠ []) as Hz by (destruct ds; split; by try lia).
  assert (∀ n, ceil_div (n * (1024 * 1024)) 1024 = n * 1024) as HG by (intros; rewrite Z.mul_assoc; by apply ceil_div_exact).
  assert (∀ n, ceil_div (n * 1) 1024 = n / 1024 + if n mod 1024 =? 0 then 0 else 1) as HK
    by (intros n; rewrite Z.mul_1_r; by apply ceil_div_quot).
  assert (∀ n, ceil_div (n * 1024) 1024 = n) as HM by (intros; by apply ceil_div_exact).
  pose proof (Z.div_mod MaxInt64 1024 ltac:(lia)). pose proof (Z.mod_pos_bound MaxInt64 1024 ltac:(lia)).
  intros Hmax. split.
  - intros Hp. specialize (Hmax Hp). destruct (zlen ds =? 0); [done|]. pose proof (proj1 Hz eq_refl).
    destruct (Z.ltb_spec MaxInt64 (decimal ds)); [done|]. exists ds, u.
    case_bool_decide; [exists 1; injection Hp as <-; by rewrite HK|]. case_bool_decide; [exists 1024; injection Hp as <-; by rewrite HM|].
    case_bool_decide; [|done]. exists (1024 * 1024). case_if; [done|]. injection Hp as <-. by rewrite HG.
  - intros (ds' & u' & k & [= <- <-] & Hne & Hk & Hle & -> & Hle'). apply Hz in Hne. rewrite Hne.
    destruct (Z.ltb_spec MaxInt64 (decimal ds)); [lia|].
    repeat (case_bool_decide; [injection Hk as <-; rewrite ?HK, ?HM, ?HG in *; try done|]); try done.
    destruct (Z.ltb_spec (MaxInt64 / 1024) (decimal ds)); [lia|done].
Qed.

(** ** Instances *)

Definition runs (secs : list section) (m : Manager) : Manager := fold_left (λ m sec, (exec sec m).1) secs m.

Lemma runs_reachable secs m : reachable m → Forall sec_ok secs → reachable (runs secs m).
Proof.
  intros Hr H. revert m Hr. induction H as [|sec secs Hok _ IH]; intros m Hr; [done|]. by apply IH, re_step.
Qed.

Lemma runs_durable secs m : Forall sec_ok secs → Forall (λ sec, honest (sec_write sec)) secs → rtc durable_step m (runs secs m).
Proof.
  intros H. revert m. induction H as [|sec secs Hok _ IH]; intros m Hh; [constructor|].
  apply Forall_cons_1 in Hh as [? ?]. eapply rtc_l; [by exists sec|by apply IH].
Qed.

Definition demo_tmpl : Template := {| t_Name := "py"; t_BaseImage := "base"; t_Kernel := "vmlinux"; t_Memory := "512M"; t_CPU := 1 |}.
Definition demo_new : Manager := NewManager 4 true true (FsJson.Store None []).

Definition demo_stored : Manager := (EnablePersistence None true "pool.json" RdMissing demo_new).1.

(** Two warm sandboxes, one claimed and suspended, one claim that the store
    refused, and one sandbox built on demand. *)
Definition demo_run : list section :=
  [SecWarm None 10 demo_tmpl "w1"; SecWarm None 11 demo_tmpl "w2";
   SecCheck None 20 "acme" demo_tmpl "task1"; SecCheck (Some SSync) 21 "acme" demo_tmpl "task2";
   SecSuspend None "w1"; SecCommit None 30 "acme" demo_tmpl "task3" 512 "d1"].

Lemma demo_run_ok : Forall sec_ok demo_run.
Proof. unfold demo_run. repeat (apply Forall_cons; [by vm_compute|]). apply Forall_nil. Qed.

Lemma demo_reachable : reachable (runs demo_run demo_stored).
Proof. apply runs_reachable; [by apply re_enable|apply demo_run_ok]. Qed.

Lemma counters_exact_witness :
  let m := runs demo_run demo_stored in
  cnt (m_running m) "acme" = charge one "acme" (m_pool m) ∧ cnt (m_running m) "acme" = 2 ∧ cnt (m_memMB m) "acme" = 512.
Proof.
  intros m. split_and!; [|vm_compute; reflexivity..].
  apply (counters_exact m "acme" demo_reachable). done.
Defined.


Lemma failure_undone_witness :
  let m := runs demo_run demo_stored in
  ∃ m' e, exec (SecResume None "w2") m = (m', Some e) ∧ same m m'.
Proof.
  intros m. exists m, ErrBadState. assert (exec (SecResume None "w2") m = (m, Some ErrBadState)) as H by (vm_compute; reflexivity).
  split; [exact H|].
  apply (failure_undone m (SecResume None "w2") m ErrBadState demo_reachable); [exact I|exact H].
Defined.

Lemma restart_restores_witness :
  let m := runs demo_run demo_stored in
  ∃ pf m', st_target (m_store m) = Some pf ∧
    EnablePersistence None true "pool.json" (RdFile pf) (NewManager 1 true true (m_store m)) = (m', Ok tt) ∧ m_pool m' = m_pool m.
Proof.
  intros m.
  destruct (restart_restores 4 true true (FsJson.Store None []) "pool.json" demo_stored m 1) as (pf & m' & H1 & H2 & H3 & _).
  - lia.
  - done.
  - vm_compute. reflexivity.
  - apply runs_durable; [apply demo_run_ok|].
    unfold demo_run. repeat (apply Forall_cons; [first [by left|by right]|]). apply Forall_nil.
  - vm_compute. reflexivity.
  - exists pf, m'. split_and!; assumption.
Defined.

(** ** Where the bookkeeping gives way *)

(** The CPU check adds before it compares, unlike the memory check: a template
    whose CPU count wraps the sum is admitted past a quota of four CPUs. *)
Theorem cpu_sum_wraps :
  let huge := {| t_Name := "py"; t_BaseImage := ""; t_Kernel := ""; t_Memory := "1M"; t_CPU := 2 ^ 63 - 1 |} in
  let m := runs [SecWarm None 1 demo_tmpl "w1"; SecWarm None 1 demo_tmpl "w2"; SecCheck None 2 "acme" demo_tmpl "t1"] demo_new in
  MaxCPU (quota_of (m_quotas m) "acme") = 4 ∧
  match (claim_check None 3 "acme" huge "t2" m).2 with ClaimDone (Ok id) _ => id | _ => ""%string end = "w2"%string.
Proof. split; vm_compute; reflexivity. Qed.

(** Claims by the tenant named "" are counted but their releases are not: after
    four rounds of claim and release the empty pool refuses the tenant. *)
Theorem unnamed_tenant_locked_out :
  let round := [SecCheck None 2 "" demo_tmpl "t"; SecRelease None "w1" true] in
  let m := runs (SecWarm None 1 demo_tmpl "w1" :: round ++ round ++ round ++ round) demo_new in
  charge one "" (filter (λ s, sb_State s = SandboxClaimed) (m_pool m)) = 0 ∧
  match (claim_check None 3 "" demo_tmpl "t" m).2 with ClaimDone (Err e) _ => Some e | _ => None end = Some ErrQuotaExceeded.
Proof. split; vm_compute; reflexivity. Qed.

(** A write that reached the disk but whose directory sync failed is treated as a
    failure: the sandbox is dropped and destroyed, and the store lists it. *)
Theorem durability_error_diverges :
  let m := runs [SecWarm (Some SDirSync) 1 demo_tmpl "w1"] demo_stored in
  m_pool m = [] ∧ (map sb_ID ∘ pf_Pool) <$> st_target (m_store m) = Some ["w1"%string].
Proof. split; vm_compute; reflexivity. Qed.

(** Claims made before persistence is enabled are charged a second time by the
    loop that rebuilds the counters, which walks the whole pool. *)
Theorem enabling_late_charges_twice :
  let m := runs [SecWarm None 1 demo_tmpl "w1"; SecCheck None 2 "acme" demo_tmpl "t"] demo_new in
  let pf := {| pf_Pool := []; pf_Quotas := ∅; pf_Capacity := 0 |} in
  let m' := (EnablePersistence None true "pool.json" (RdFile pf) m).1 in
  m_pool m' = m_pool m ∧ cnt (m_running m) "acme" = 1 ∧ cnt (m_running m') "acme" = 2.
Proof. split_and!; vm_compute; reflexivity. Qed.
