(* ===== verification/Approval.v ===== *)
(** * Approval tickets (internal/approval)

    [manager.go] and [store.go]: the ticket store behind the human-in-the-loop
    gate.  Clock readings, random identifiers, write failures and the order in
    which Go walks the ticket map are arguments of the operations. *)

From S2P Require Import Prelude FsJson.

(** Parameters of an action, and their canonical encoding ([json.Marshal] of a
    decoded JSON object; [None] is an encoding error). *)
Class Json := { params : Type; Marshal : params → option string }.

(** ** Data *)

Inductive State : Type := StatePending | StateApproved | StateRejected | StateExpired.
#[global] Instance State_eq_dec : EqDecision State.
Proof. solve_decision. Defined.

Inductive app_err : Type :=
| ErrInvalidDeadline | ErrNotFound | ErrAlreadyDecided | ErrAlreadyPending | ErrExpired
| ERandom | EPersist (e : fs_err) | EMkdir | EReadStore.

Section Tickets.
Context `{Json}.

(** Times are nanoseconds from Go's zero time. *)
Record Ticket : Type := {
  k_ID : string; k_TaskID : string; k_Target : string; k_Tool : string; k_Params : params;
  k_Evidence : string; k_Why : string; k_Rollback : string;
  k_CreatedAt : Z; k_Deadline : Z;
  k_State : State; k_DecidedBy : string; k_DecidedAt : Z;
  k_Consumed : bool; k_EditedBy : string; k_EditedAt : option Z;
  k_CreatedBy : string; k_CreatedByKeyFp : string;
}.

(** The fields the operations assign. *)
Definition new_ticket (t : Ticket) (id : string) (created deadline : Z) : Ticket :=
  {| k_ID := id; k_TaskID := k_TaskID t; k_Target := k_Target t; k_Tool := k_Tool t; k_Params := k_Params t;
     k_Evidence := k_Evidence t; k_Why := k_Why t; k_Rollback := k_Rollback t; k_CreatedAt := created; k_Deadline := deadline;
     k_State := StatePending; k_DecidedBy := k_DecidedBy t; k_DecidedAt := k_DecidedAt t; k_Consumed := k_Consumed t;
     k_EditedBy := k_EditedBy t; k_EditedAt := k_EditedAt t; k_CreatedBy := k_CreatedBy t; k_CreatedByKeyFp := k_CreatedByKeyFp t |}.
Definition set_state (t : Ticket) (s : State) (by_ : string) (at_ : Z) : Ticket :=
  {| k_ID := k_ID t; k_TaskID := k_TaskID t; k_Target := k_Target t; k_Tool := k_Tool t; k_Params := k_Params t;
     k_Evidence := k_Evidence t; k_Why := k_Why t; k_Rollback := k_Rollback t; k_CreatedAt := k_CreatedAt t; k_Deadline := k_Deadline t;
     k_State := s; k_DecidedBy := by_; k_DecidedAt := at_; k_Consumed := k_Consumed t;
     k_EditedBy := k_EditedBy t; k_EditedAt := k_EditedAt t; k_CreatedBy := k_CreatedBy t; k_CreatedByKeyFp := k_CreatedByKeyFp t |}.
Definition expire (t : Ticket) : Ticket := set_state t StateExpired (k_DecidedBy t) (k_DecidedAt t).
Definition set_consumed (t : Ticket) (b : bool) : Ticket :=
  {| k_ID := k_ID t; k_TaskID := k_TaskID t; k_Target := k_Target t; k_Tool := k_Tool t; k_Params := k_Params t;
     k_Evidence := k_Evidence t; k_Why := k_Why t; k_Rollback := k_Rollback t; k_CreatedAt := k_CreatedAt t; k_Deadline := k_Deadline t;
     k_State := k_State t; k_DecidedBy := k_DecidedBy t; k_DecidedAt := k_DecidedAt t; k_Consumed := b;
     k_EditedBy := k_EditedBy t; k_EditedAt := k_EditedAt t; k_CreatedBy := k_CreatedBy t; k_CreatedByKeyFp := k_CreatedByKeyFp t |}.
Definition edited (t : Ticket) (p : option params) (reason by_ : string) (now : Z) : Ticket :=
  {| k_ID := k_ID t; k_TaskID := k_TaskID t; k_Target := k_Target t; k_Tool := k_Tool t; k_Params := default (k_Params t) p;
     k_Evidence := k_Evidence t; k_Why := k_Why t;
     k_Rollback := if bool_decide (reason = ""%string) then k_Rollback t else reason;
     k_CreatedAt := k_CreatedAt t; k_Deadline := k_Deadline t;
     k_State := k_State t; k_DecidedBy := k_DecidedBy t; k_DecidedAt := k_DecidedAt t; k_Consumed := k_Consumed t;
     k_EditedBy := by_; k_EditedAt := Some now; k_CreatedBy := k_CreatedBy t; k_CreatedByKeyFp := k_CreatedByKeyFp t |}.

(** The store file lists the tickets; it is read back into a map by ID. *)
Record Manager : Type := {
  g_tickets : gmap string Ticket;
  g_persists : bool;                       (* persistPath is set *)
  g_store : FsJson.store (list Ticket);
}.

Definition NewManager (disk : FsJson.store (list Ticket)) : Manager :=
  {| g_tickets := ∅; g_persists := false; g_store := disk |}.

Definition set_tickets (m : Manager) (ts : gmap string Ticket) : Manager :=
  {| g_tickets := ts; g_persists := g_persists m; g_store := g_store m |}.
Definition put (m : Manager) (id : string) (t : Ticket) : Manager := set_tickets m (<[id := t]> (g_tickets m)).

Definition sameParams (a b : params) : bool :=
  match Marshal a, Marshal b with
  | Some x, Some y => bool_decide (x = y)
  | _, _ => false
  end.

Definition persistLocked (w : option io_step) (m : Manager) : Manager * option fs_err :=
  if g_persists m then
    let (st, e) := Write w (map snd (map_to_list (g_tickets m))) (g_store m) in
    ({| g_tickets := g_tickets m; g_persists := true; g_store := st |}, e)
  else (m, None).

(** ** Operations *)

Definition minute : Z := 60 * 1000000000.
Definition hour : Z := 60 * minute.

(** Zero times stand for times the caller left unset. *)
Definition Create (w : option io_step) (now : Z) (rand : option string) (t : Ticket) : method Manager app_err string := λ m,
  let created := if k_CreatedAt t =? 0 then now else k_CreatedAt t in
  let zero := k_Deadline t =? 0 in
  if negb zero && ((k_Deadline t <? now) || (now + hour <? k_Deadline t)) then (m, Err ErrInvalidDeadline) else
  let deadline := if zero then now + 5 * minute else k_Deadline t in
  if existsb (λ x, bool_decide (k_TaskID x.2 = k_TaskID t) && bool_decide (k_Tool x.2 = k_Tool t) &&
                   bool_decide (k_State x.2 = StatePending) && sameParams (k_Params x.2) (k_Params t))
       (map_to_list (g_tickets m)) then (m, Err ErrAlreadyPending) else
  match rand with
  | None => (m, Err ERandom)
  | Some id =>
      match persistLocked w (put m id (new_ticket t id created deadline)) with
      | (m, Some e) => (m, Err (EPersist e))
      | (m, None) => (m, Ok id)
      end
  end.

(** [now] is the reading the deadline is checked against, [now'] the one recorded. *)
Definition Decide (w : option io_step) (now now' : Z) (id : string) (approved : bool) (by_ : string) : method Manager app_err unit := λ m,
  match g_tickets m !! id with
  | None => (m, Err ErrNotFound)
  | Some t =>
      if bool_decide (k_State t ≠ StatePending) then (m, Err ErrAlreadyDecided) else
      if k_Deadline t <? now then (put m id (expire t), Err ErrExpired) else
      match persistLocked w (put m id (set_state t (if approved then StateApproved else StateRejected) by_ now')) with
      | (m, Some e) => (m, Err (EPersist e))
      | (m, None) => (m, Ok tt)
      end
  end.

Definition Get (id : string) (m : Manager) : result app_err Ticket :=
  match g_tickets m !! id with None => Err ErrNotFound | Some t => Ok t end.

(** Whether a walk over the tickets finds [t] past its deadline; [now] is the clock
    reading made for each. *)
Definition overdue (now : string → Z) (id : string) (t : Ticket) : bool :=
  bool_decide (k_State t = StatePending) && (k_Deadline t <? now id).

(** [Pending] expires overdue tickets of the tasks it lists on the way. *)
Definition Pending (now : string → Z) (task : string) (m : Manager) : Manager * list Ticket :=
  let mine t := bool_decide (task = ""%string) || bool_decide (k_TaskID t = task) in
  (set_tickets m (map_imap (λ id t, Some (if mine t && overdue now id t then expire t else t)) (g_tickets m)),
   map snd (filter (λ x, k_State x.2 = StatePending ∧ mine x.2 = true ∧ overdue now x.1 x.2 = false) (map_to_list (g_tickets m)))).

Definition IsApproved (task tool : string) (p : params) (m : Manager) : bool :=
  existsb (λ x, bool_decide (k_TaskID x.2 = task) && bool_decide (k_Tool x.2 = tool) &&
                bool_decide (k_State x.2 = StateApproved) && sameParams (k_Params x.2) p) (map_to_list (g_tickets m)).

(** What [os.ReadFile] and [json.Unmarshal] find at the path. *)
Inductive read_outcome : Type := RdMissing | RdEmpty | RdCorrupt | RdError | RdFile (ts : list Ticket).

Definition load_tickets (ts : list Ticket) (m : gmap string Ticket) : gmap string Ticket :=
  fold_left (λ m t, <[k_ID t := t]> m) ts m.

Definition EnablePersistence (w : option io_step) (mkdir : bool) (path : string) (rd : read_outcome)
    : method Manager app_err unit := λ m,
  let enabled := negb (bool_decide (path = ""%string)) in
  let m := {| g_tickets := g_tickets m; g_persists := enabled; g_store := g_store m |} in
  if negb enabled then (m, Ok tt) else
  if negb mkdir then (m, Err EMkdir) else
  let finish m := match persistLocked w m with (m, None) => (m, Ok tt) | (m, Some e) => (m, Err (EPersist e)) end in
  match rd with
  | RdMissing | RdEmpty => finish m
  | RdCorrupt => finish {| g_tickets := g_tickets m; g_persists := true; g_store := FsJson.Store None (st_temps (g_store m)) |}
  | RdFile ts => finish (set_tickets m (load_tickets ts (g_tickets m)))
  | RdError => (m, Err EReadStore)
  end.

(** [Edit] persists without looking at the outcome. *)
Definition Edit (w : option io_step) (now : Z) (id : string) (p : option params) (reason by_ : string) : method Manager app_err Ticket := λ m,
  match g_tickets m !! id with
  | None => (m, Err ErrNotFound)
  | Some t =>
      if bool_decide (k_State t ≠ StatePending) then (m, Err ErrAlreadyDecided) else
      let t := edited t p reason by_ now in
      let (m, _) := persistLocked w (put m id t) in (m, Ok t)
  end.

(** The test of [ApprovedFor] and [ClaimFor]. *)
Definition claimable (task tool : string) (p : params) (t : Ticket) : bool :=
  bool_decide (k_TaskID t = task) && bool_decide (k_Tool t = tool) && bool_decide (k_State t = StateApproved) &&
  negb (k_Consumed t) && sameParams (k_Params t) p.

(** The first ticket of the walk [order] that passes. *)
Definition first_claimable (order : list string) (task tool : string) (p : params) (m : Manager) : option (string * Ticket) :=
  head (omap (λ id, match g_tickets m !! id with
                    | Some t => if claimable task tool p t then Some (id, t) else None
                    | None => None
                    end) order).

Definition ApprovedFor (order : list string) (task tool : string) (p : params) (m : Manager) : option string :=
  (λ x, k_ID x.2) <$> first_claimable order task tool p m.

Definition ClaimFor (w : option io_step) (order : list string) (task tool : string) (p : params) (m : Manager)
    : Manager * option string :=
  match first_claimable order task tool p m with
  | None => (m, None)
  | Some (id, t) =>
      match persistLocked w (put m id (set_consumed t true)) with
      | (m, None) => (m, Some (k_ID t))
      | (m, Some _) => (put m id (set_consumed t false), None)
      end
  end.

Definition MarkConsumed (w : option io_step) (id : string) (m : Manager) : Manager :=
  match g_tickets m !! id with
  | Some t =>
      if bool_decide (k_State t = StateApproved) then
        match persistLocked w (put m id (set_consumed t true)) with
        | (m, None) => m
        | (m, Some _) => put m id (set_consumed t (k_Consumed t))
        end
      else (persistLocked w m).1
  | None => (persistLocked w m).1
  end.

Definition ExpirePending (w : option io_step) (now : string → Z) (m : Manager) : Manager * Z :=
  let n := zlen (filter (λ x, overdue now x.1 x.2 = true) (map_to_list (g_tickets m))) in
  let m := set_tickets m (map_imap (λ id t, Some (if overdue now id t then expire t else t)) (g_tickets m)) in
  (if 0 <? n then (persistLocked w m).1 else m, n).
End Tickets.
