(* ===== verification/ApprovalSpec.v ===== *)
(** * What an approval means

    Every operation of the ticket store, restarts included, as a step over the
    store and the history of decisions and claims. *)

From S2P Require Import Prelude FsJson Approval.

Section Spec.
Context `{Json}.

(** ** Operations *)

Inductive aop : Type :=
| OpCreate (w : option io_step) (now : Z) (rand : option string) (t : Ticket)
| OpDecide (w : option io_step) (now now' : Z) (id : string) (approved : bool) (by_ : string)
| OpPending (now : string → Z) (task : string)
| OpEdit (w : option io_step) (now : Z) (id : string) (p : option params) (reason by_ : string)
| OpClaim (w : option io_step) (order : list string) (task tool : string) (p : params)
| OpMark (w : option io_step) (id : string)
| OpExpire (w : option io_step) (now : string → Z)
| OpRestart (w : option io_step) (mkdir : bool) (path : string) (rd : read_outcome).

Definition run_aop (op : aop) (m : Manager) : Manager :=
  match op with
  | OpCreate w now rand t => (Create w now rand t m).1
  | OpDecide w now now' id approved by_ => (Decide w now now' id approved by_ m).1
  | OpPending now task => (Pending now task m).1
  | OpEdit w now id p reason by_ => (Edit w now id p reason by_ m).1
  | OpClaim w order task tool p => (ClaimFor w order task tool p m).1
  | OpMark w id => MarkConsumed w id m
  | OpExpire w now => (ExpirePending w now m).1
  | OpRestart w mkdir path rd => (EnablePersistence w mkdir path rd (NewManager (g_store m))).1
  end.

(** ** Tickets advance, and nothing else *)

(** [t'] is the next stage of [t]: identity, action and deadline are fixed; only a
    pending ticket is edited or decided; of a decided one only the consumption of
    an approval changes. *)
Record advances (t t' : Ticket) : Prop := {
  ad_bound : k_ID t' = k_ID t ∧ k_TaskID t' = k_TaskID t ∧ k_Target t' = k_Target t ∧ k_Tool t' = k_Tool t ∧
             k_CreatedAt t' = k_CreatedAt t ∧ k_Deadline t' = k_Deadline t ∧ k_CreatedBy t' = k_CreatedBy t;
  ad_decided : k_State t ≠ StatePending → t' = set_consumed t (k_Consumed t');
  ad_consumed : k_Consumed t = true → k_Consumed t' = true;
  ad_once : k_Consumed t' ≠ k_Consumed t → k_State t = StateApproved;
}.

Lemma advances_refl t : advances t t.
Proof. split; try done. by destruct t. Qed.

Lemma consumed_id t : set_consumed t (k_Consumed t) = t.
Proof. by destruct t. Qed.

(** All tickets of [m] are still there in [m'], perhaps advanced. *)
Definition advanced (m m' : Manager) : Prop :=
  ∀ id t, g_tickets m !! id = Some t → ∃ t', g_tickets m' !! id = Some t' ∧ advances t t'.

Lemma advanced_refl m : advanced m m.
Proof. intros id t Ht. exists t. split; [done|apply advances_refl]. Qed.

Lemma persist_tickets w m : g_tickets (persistLocked w m).1 = g_tickets m ∧ g_persists (persistLocked w m).1 = g_persists m.
Proof. unfold persistLocked. destruct (g_persists m) eqn:E; [|done]. by destruct (Write w _ _). Qed.

Lemma advanced_put m m' id t t' :
  g_tickets m !! id = Some t → advances t t' → g_tickets m' = <[id := t']> (g_tickets m) → advanced m m'.
Proof.
  intros Ht Ha Hm id' x Hx. rewrite Hm. destruct (decide (id = id')) as [<-|Hne].
  - rewrite lookup_insert_eq. simplify_eq. by exists t'.
  - rewrite lookup_insert_ne by done. exists x. split; [done|apply advances_refl].
Qed.

Lemma advanced_new m m' id t :
  g_tickets m !! id = None → g_tickets m' = <[id := t]> (g_tickets m) → advanced m m'.
Proof.
  intros Hn Hm id' x Hx. rewrite Hm, lookup_insert_ne by congruence. exists x. split; [done|apply advances_refl].
Qed.

Lemma advanced_imap m m' (f : string → Ticket → Ticket) :
  (∀ id t, advances t (f id t)) → g_tickets m' = map_imap (λ id t, Some (f id t)) (g_tickets m) → advanced m m'.
Proof.
  intros Hf Hm id t Ht. rewrite Hm, map_lookup_imap, Ht. simpl. by exists (f id t).
Qed.

Lemma advanced_eq m m1 m2 : g_tickets m2 = g_tickets m1 → advanced m m1 → advanced m m2.
Proof. intros E Ha id t Ht. rewrite E. by apply Ha. Qed.

Lemma expire_advances now id t : overdue now id t = true → advances t (expire t).
Proof. intros [Hp%bool_decide_eq_true_1 _]%andb_true_iff. by split. Qed.

Lemma consume_advances t : k_State t = StateApproved → advances t (set_consumed t true).
Proof. by split. Qed.

(** Whether the ticket the walk finds is claimable. *)
Lemma first_claimable_some order task tool p m id t :
  first_claimable order task tool p m = Some (id, t) → g_tickets m !! id = Some t ∧ claimable task tool p t = true.
Proof.
  unfold first_claimable. induction order as [|i order IH]; [done|]. simpl.
  destruct (g_tickets m !! i) as [x|] eqn:E; [|done]. destruct (claimable task tool p x) eqn:Ec; [|done].
  simpl. by intros [= <- <-].
Qed.

Lemma claimable_spec task tool p t :
  claimable task tool p t = true →
  k_TaskID t = task ∧ k_Tool t = tool ∧ k_State t = StateApproved ∧ k_Consumed t = false ∧ sameParams (k_Params t) p = true.
Proof. unfold claimable. intros Hc. bsimp. rewrite !bool_decide_eq_true in *. done. Qed.

(** [Create] as one write of a new ticket, or nothing. *)
Lemma Create_cases w now rand t m :
  (∃ e, Create w now rand t m = (m, Err e)) ∨
  ∃ id created deadline, rand = Some id ∧ now ≤ deadline ≤ now + hour ∧ (k_Deadline t ≠ 0 → deadline = k_Deadline t) ∧
    g_tickets (Create w now rand t m).1 = <[id := new_ticket t id created deadline]> (g_tickets m) ∧
    (Create w now rand t m).1 = (persistLocked w (put m id (new_ticket t id created deadline))).1 ∧
    (∀ id' x, g_tickets m !! id' = Some x → k_State x = StatePending → k_TaskID x = k_TaskID t → k_Tool x = k_Tool t →
       sameParams (k_Params x) (k_Params t) = false) ∧
    ((Create w now rand t m).2 = Ok id ∨ ∃ e, (Create w now rand t m).2 = Err (EPersist e)).
Proof.
  unfold Create. case_if; [left; by eexists|]. destruct (existsb _ _) eqn:Hex; [left; by eexists|].
  destruct rand as [id|]; [|left; by eexists]. right.
  set (created := if k_CreatedAt t =? 0 then now else k_CreatedAt t).
  set (deadline := if k_Deadline t =? 0 then now + 5 * minute else k_Deadline t).
  exists id, created, deadline.
  destruct (persist_tickets w (put m id (new_ticket t id created deadline))) as [Et _].
  destruct (persistLocked w (put m id (new_ticket t id created deadline))) as [m' e] eqn:E. simpl in Et.
  split; [done|]. split.
  { subst deadline. unfold hour, minute in *. destruct (k_Deadline t =? 0) eqn:Hz; simpl in *; bsimp; lia. }
  split. { subst deadline. intros Hz. by destruct (Z.eqb_spec (k_Deadline t) 0). }
  split; [by destruct e|]. split; [by destruct e|]. split; [|destruct e; eauto].
  intros id' x Hx Hst Ht Hto. destruct (sameParams (k_Params x) (k_Params t)) eqn:Es; [|done].
  rewrite <- Hex. symmetry. apply existsb_exists. exists (id', x). split; [by apply list_elem_of_In, elem_of_map_to_list|].
  simpl. by rewrite Hst, Ht, Hto, Es, !bool_decide_eq_true_2.
Qed.

Lemma run_advances op m :
  (∀ w mkdir path rd, op ≠ OpRestart w mkdir path rd) →
  (∀ w now id t, op = OpCreate w now (Some id) t → g_tickets m !! id = None) →
  advanced m (run_aop op m).
Proof.
  intros Hr Hfresh. destruct op; simpl.
  - destruct (Create_cases w now rand t m) as [[e ->]|(id & c & d & -> & _ & _ & Hm & _)]; [apply advanced_refl|].
    eapply advanced_new; [by eapply Hfresh|exact Hm].
  - unfold Decide. destruct (g_tickets m !! id) as [t|] eqn:Ht; [|apply advanced_refl].
    case_bool_decide as Hst; [apply advanced_refl|].
    case_if; [by apply (advanced_put _ _ id t (expire t)); [|split|]|].
    set (t' := set_state t _ by_ now'). destruct (persist_tickets w (put m id t')) as [Et _].
    apply (advanced_put _ _ id t t'); [done|by split|]. destruct (persistLocked w (put m id t')) as [m' []]; exact Et.
  - eapply advanced_imap; [|done]. intros id t. simpl. destruct (_ && _) eqn:E; [|apply advances_refl].
    apply andb_true_iff in E as [_ E]. by eapply expire_advances.
  - unfold Edit. destruct (g_tickets m !! id) as [t|] eqn:Ht; [|apply advanced_refl].
    case_bool_decide as Hst; [apply advanced_refl|]. destruct (persist_tickets w (put m id (edited t p reason by_ now))) as [Et _].
    apply (advanced_put _ _ id t (edited t p reason by_ now)); [done|by split|].
    by destruct (persistLocked w _) as [m' e].
  - unfold ClaimFor. destruct (first_claimable order task tool p m) as [[id t]|] eqn:Hf; [|apply advanced_refl].
    apply first_claimable_some in Hf as (Ht & (_ & _ & Hst & Hc & _)%claimable_spec).
    destruct (persist_tickets w (put m id (set_consumed t true))) as [Et _].
    destruct (persistLocked w _) as [m' [e|]]; simpl in *.
    + apply (advanced_put _ _ id t t); [done|apply advances_refl|]. simpl. rewrite Et. simpl.
      rewrite insert_insert_eq, <- Hc. by rewrite consumed_id.
    + by apply (advanced_put _ _ id t (set_consumed t true)); [|apply consume_advances|].
  - unfold MarkConsumed. destruct (g_tickets m !! id) as [t|] eqn:Ht;
      [|eapply advanced_eq; [apply persist_tickets|apply advanced_refl]].
    case_bool_decide as Hst; [|eapply advanced_eq; [apply persist_tickets|apply advanced_refl]].
    destruct (persist_tickets w (put m id (set_consumed t true))) as [Et _].
    destruct (persistLocked w _) as [m' [e|]]; simpl in *.
    + apply (advanced_put _ _ id t t); [done|apply advances_refl|]. simpl. rewrite Et. simpl.
      by rewrite insert_insert_eq, consumed_id.
    + by apply (advanced_put _ _ id t (set_consumed t true)); [|apply consume_advances|].
  - unfold ExpirePending. simpl. set (m1 := set_tickets m _).
    assert (advanced m m1) as H1.
    { eapply advanced_imap; [|done]. intros id t. simpl. destruct (overdue now id t) eqn:E; [by eapply expire_advances|apply advances_refl]. }
    case_if; [|done]. eapply advanced_eq; [apply persist_tickets|done].
  - by destruct (Hr w mkdir path rd).
Qed.

(** ** History *)

(** The ticket a human approved, as it was then, and when. *)
Record approval : Type := { ap_ticket : Ticket; ap_at : Z }.

Record world : Type := {
  wd_m : Manager;
  wd_approvals : list approval;   (* decisions to approve, in time *)
  wd_claimed : list string;       (* identifiers [ClaimFor] returned *)
  wd_used : gset string;          (* identifiers ever drawn *)
}.

(** The decision an operation amounts to: [Decide] approving a pending ticket
    before its deadline. *)
Definition approves (op : aop) (m : Manager) : list approval :=
  match op with
  | OpDecide _ now _ id true _ =>
      match g_tickets m !! id with
      | Some t => if bool_decide (k_State t = StatePending) && (now <=? k_Deadline t) then [{| ap_ticket := t; ap_at := now |}] else []
      | None => []
      end
  | _ => []
  end.
Definition claims (op : aop) (m : Manager) : list string :=
  match op with
  | OpClaim w order task tool p => match (ClaimFor w order task tool p m).2 with Some id => [id] | None => [] end
  | _ => []
  end.
Definition draws (op : aop) : list string :=
  match op with OpCreate _ _ (Some id) _ => [id] | _ => [] end.

Definition wrun (op : aop) (w : world) : world :=
  {| wd_m := run_aop op (wd_m w); wd_approvals := wd_approvals w ++ approves op (wd_m w);
     wd_claimed := wd_claimed w ++ claims op (wd_m w); wd_used := wd_used w ∪ list_to_set (draws op) |}.

(** Random identifiers do not repeat, and a restart reads back what the store
    holds, if it reads anything. *)
Definition op_ok (op : aop) (w : world) : Prop :=
  match op with
  | OpCreate _ _ (Some id) _ => id ∉ wd_used w
  | OpRestart _ _ _ (RdFile ts) => st_target (g_store (wd_m w)) = Some ts
  | _ => True
  end.

Definition wstep (w w' : world) : Prop := ∃ op, op_ok op w ∧ w' = wrun op w.

(** An empty store, and no history. *)
Definition w0 : world :=
  {| wd_m := NewManager (FsJson.Store None []); wd_approvals := []; wd_claimed := []; wd_used := ∅ |}.

(** ** The invariant *)

(** The ticket was approved: task, tool and parameters are those decided on. *)
Definition approved_in (A : list approval) (t : Ticket) : Prop :=
  ∃ a, a ∈ A ∧ k_ID (ap_ticket a) = k_ID t ∧ k_TaskID (ap_ticket a) = k_TaskID t ∧ k_Tool (ap_ticket a) = k_Tool t ∧
       k_Params (ap_ticket a) = k_Params t ∧ ap_at a ≤ k_Deadline (ap_ticket a).

Record tok (A : list approval) (C : list string) (U : gset string) (t : Ticket) : Prop := {
  to_used : k_ID t ∈ U;
  to_approved : k_State t = StateApproved → approved_in A t;
  to_claimed : k_ID t ∈ C → k_Consumed t = true ∧ k_State t = StateApproved;
}.

Record winv (m : Manager) (A : list approval) (C : list string) (U : gset string) : Prop := {
  wi_tickets : ∀ id t, g_tickets m !! id = Some t → k_ID t = id ∧ tok A C U t;
  wi_store : ∀ ts, st_target (g_store m) = Some ts → Forall (tok A C U) ts;
  wi_once : NoDup C ∧ ∀ id, id ∈ C → id ∈ U;
  wi_detached : g_persists m = false → ∀ ts, st_target (g_store m) = Some ts → Forall (λ t, g_tickets m !! k_ID t = None) ts;
}.

Lemma tok_mono A A' C U U' t : (∀ a, a ∈ A → a ∈ A') → U ⊆ U' → tok A C U t → tok A' C U' t.
Proof.
  intros HA HU [H1 H2 H3]. split; [set_solver| |done]. intros Hst. destruct (H2 Hst) as (a & Ha & Hr). exists a. split; [by apply HA|done].
Qed.

Lemma winv_mono m A A' C U U' : (∀ a, a ∈ A → a ∈ A') → U ⊆ U' → winv m A C U → winv m A' C U'.
Proof.
  intros HA HU [H1 H2 [H3 H3'] H4]. split; [| | |done].
  - intros id t Ht. destruct (H1 id t Ht). split; [done|by eapply tok_mono].
  - intros ts Hts. eapply Forall_impl; [|by apply H2]. intros t. by apply tok_mono.
  - split; [done|]. intros id Hid. by apply HU, H3'.
Qed.

Lemma map_tickets_tok m A C U : winv m A C U → Forall (tok A C U) (map snd (map_to_list (g_tickets m))).
Proof.
  intros [H1 _ _ _]. apply list.Forall_forall. intros t ([id x] & -> & Hx)%list_elem_of_fmap.
  apply elem_of_map_to_list in Hx. simpl. by apply (H1 id).
Qed.

(** Persisting, whatever its outcome, keeps the invariant. *)
Lemma persist_winv w m A C U : winv m A C U → winv (persistLocked w m).1 A C U.
Proof.
  intros Hi. unfold persistLocked. destruct (g_persists m) eqn:Hp; [|done].
  pose proof (map_tickets_tok m A C U Hi) as Hall. destruct Hi as [H1 H2 H3 H4].
  destruct (Write_spec w (map snd (map_to_list (g_tickets m))) (g_store m)) as [E _].
  destruct (Write w _ _) as [st e]. simpl in E. subst st. split; simpl; try done.
  intros ts. destruct (committed w); simpl; [by intros [= <-]|apply H2].
Qed.

(** Replacing or adding a ticket. *)
Lemma put_winv m A C U id t :
  winv m A C U → k_ID t = id → tok A C U t → (is_Some (g_tickets m !! id) ∨ ∀ ts, st_target (g_store m) = Some ts → Forall (λ x, k_ID x ≠ id) ts) →
  winv (put m id t) A C U.
Proof.
  intros [H1 H2 H3 H4] Hid Ht Hs. split; simpl; [|done|done|].
  - intros id' t'. destruct (decide (id = id')) as [<-|Hne]; [rewrite lookup_insert_eq; by intros [= <-]|].
    rewrite lookup_insert_ne by done. apply H1.
  - intros Hp ts Hts. specialize (H4 Hp ts Hts). rewrite list.Forall_forall in *. intros x Hx.
    assert (k_ID x ≠ id).
    { destruct Hs as [[y Hy]|Hs]; [intros <-; by rewrite (H4 x Hx) in Hy|]. specialize (Hs ts Hts). rewrite list.Forall_forall in Hs. by apply Hs. }
    rewrite lookup_insert_ne by done. by apply H4.
Qed.

Lemma put_persist_winv w m A C U id t :
  winv m A C U → k_ID t = id → tok A C U t → (is_Some (g_tickets m !! id) ∨ ∀ ts, st_target (g_store m) = Some ts → Forall (λ x, k_ID x ≠ id) ts) →
  winv (persistLocked w (put m id t)).1 A C U.
Proof. intros. by apply persist_winv, put_winv. Qed.

(** A ticket that is not approved was not claimed; nor was one that is unconsumed. *)
Lemma tok_pending A C U t t' :
  tok A C U t → k_State t = StatePending → k_ID t' = k_ID t → k_State t' ≠ StateApproved → tok A C U t'.
Proof.
  intros [H1 _ H3] Hp Hid Hn. split; [by rewrite Hid|done|]. rewrite Hid. intros Hc. destruct (H3 Hc). congruence.
Qed.

Lemma tok_consumed A C U t : tok A C U t → k_State t = StateApproved → tok A C U (set_consumed t true).
Proof. intros [H1 H2 H3] Hst. by split. Qed.

Lemma imap_winv m A C U (f : string → Ticket → Ticket) :
  (∀ id t, tok A C U t → k_ID (f id t) = k_ID t ∧ tok A C U (f id t)) → winv m A C U →
  winv (set_tickets m (map_imap (λ id t, Some (f id t)) (g_tickets m))) A C U.
Proof.
  intros Hf [H1 H2 H3 H4]. split; simpl; [|done|done|].
  - intros id t. rewrite map_lookup_imap. destruct (g_tickets m !! id) as [x|] eqn:E; [|done]. intros [= <-].
    destruct (H1 id x E) as [<- Hx]. by apply Hf.
  - intros Hp ts Hts. eapply Forall_impl; [|by apply H4]. intros t Ht. simpl. by rewrite map_lookup_imap, Ht.
Qed.

Lemma overdue_tok A C U now id t : overdue now id t = true → tok A C U t → tok A C U (expire t).
Proof. intros [Hp%bool_decide_eq_true_1 _]%andb_true_iff Ht. by eapply tok_pending. Qed.

Lemma load_winv A C U ts (g : gmap string Ticket) :
  Forall (tok A C U) ts → (∀ id t, g !! id = Some t → k_ID t = id ∧ tok A C U t) →
  ∀ id t, load_tickets ts g !! id = Some t → k_ID t = id ∧ tok A C U t.
Proof.
  intros Hts. revert g. induction Hts as [|t ts Ht _ IH]; intros g Hg; [done|]. apply IH. intros id x.
  destruct (decide (k_ID t = id)) as [<-|Hne]; [rewrite lookup_insert_eq; by intros [= <-]|].
  rewrite lookup_insert_ne by done. apply Hg.
Qed.

Lemma persist_ok_store w m m' : persistLocked w m = (m', None) → g_persists m = true →
  st_target (g_store m') = Some (map snd (map_to_list (g_tickets m))).
Proof.
  unfold persistLocked. intros E Hp. rewrite Hp in E.
  pose proof (Write_spec w (map snd (map_to_list (g_tickets m))) (g_store m)) as [E1 E2].
  destruct (Write w _ _) as [st e]. injection E as <- ->. simpl in *. subst w. by rewrite E1.
Qed.

(** A granted claim: the ticket joins the claimed ones. *)
Lemma claim_winv w m m' A C U id t :
  winv m A C U → g_tickets m !! id = Some t → k_State t = StateApproved → k_Consumed t = false →
  persistLocked w (put m id (set_consumed t true)) = (m', None) → winv m' A (C ++ [k_ID t]) U.
Proof.
  intros Hi Ht Hst Hc Hp. destruct (wi_tickets _ _ _ _ Hi id t Ht) as [Hid Htok].
  assert (winv m' A C U) as Hm'.
  { change m' with (m', @None fs_err).1. rewrite <- Hp. apply put_persist_winv; [done|done|by apply tok_consumed|left; by eauto]. }
  assert (k_ID t ∉ C) as Hnc by (intros HC; destruct (to_claimed _ _ _ _ Htok HC); congruence).
  assert (∀ x, tok A C U x → (k_ID x = k_ID t → k_Consumed x = true ∧ k_State x = StateApproved) → tok A (C ++ [k_ID t]) U x) as Hext.
  { intros x [X1 X2 X3] Hx. split; [done|done|]. intros [?|?%list_elem_of_singleton]%elem_of_app; auto. }
  destruct (persist_tickets w (put m id (set_consumed t true))) as [Et Ep]. rewrite Hp in Et, Ep. simpl in Et, Ep.
  assert (∀ id' x, g_tickets m' !! id' = Some x → k_ID x = id' ∧ tok A (C ++ [k_ID t]) U x) as Htk.
  { intros id' x Hx. destruct (wi_tickets _ _ _ _ Hm' id' x Hx) as [Hix Hxt]. split; [done|]. apply Hext; [done|].
    intros E. rewrite Et, <- Hix, E, Hid, lookup_insert_eq in Hx. by injection Hx as <-. }
  split; [done| | |].
  - intros ts Hts. destruct (g_persists m) eqn:Hps.
    + rewrite (persist_ok_store _ _ _ Hp Hps) in Hts. injection Hts as <-. apply list.Forall_forall.
      intros x ([i y] & -> & Hy)%list_elem_of_fmap. apply elem_of_map_to_list in Hy. simpl in Hy. rewrite <- Et in Hy. by apply (Htk i).
    + pose proof (wi_store _ _ _ _ Hm' ts Hts) as Hs. pose proof (wi_detached _ _ _ _ Hm' ltac:(by rewrite Ep) ts Hts) as Hd.
      rewrite list.Forall_forall in *. intros x Hx. apply Hext; [by apply Hs|]. intros E. specialize (Hd x Hx).
      by rewrite Et, E, Hid, lookup_insert_eq in Hd.
  - destruct (wi_once _ _ _ _ Hi) as [Hn Hu]. split.
    + apply list.NoDup_app. split_and!; [done| |apply NoDup_singleton]. by intros x Hx ->%list_elem_of_singleton.
    + intros x [?|Hx%list_elem_of_singleton]%elem_of_app; [by apply Hu|rewrite Hx; apply Htok].
  - intros Hps ts Hts. apply (wi_detached _ _ _ _ Hm'); done.
Qed.

Lemma new_winv A C U st persists :
  (∀ ts, st_target st = Some ts → Forall (tok A C U) ts) → NoDup C → (∀ id, id ∈ C → id ∈ U) →
  winv {| g_tickets := ∅; g_persists := persists; g_store := st |} A C U.
Proof.
  intros Hst Hn Hu. split; simpl; try done. intros _ ts _. by apply list.Forall_forall.
Qed.

Lemma restart_winv w mkdir path rd m A C U :
  winv m A C U → (∀ ts, rd = RdFile ts → st_target (g_store m) = Some ts) →
  winv (EnablePersistence w mkdir path rd (NewManager (g_store m))).1 A C U.
Proof.
  intros [_ H2 [H3 H3'] _] Hrd. unfold EnablePersistence. simpl.
  assert (∀ st b, (∀ ts, st_target st = Some ts → Forall (tok A C U) ts) → winv {| g_tickets := ∅; g_persists := b; g_store := st |} A C U) as Hnew
    by (intros; by apply new_winv).
  assert (∀ m, winv m A C U → winv (match persistLocked w m with (m, None) => (m, Ok tt) | (m, Some e) => (m, Err (EPersist e)) end).1 A C U) as Hfin.
  { intros m1 Hm1. pose proof (persist_winv w m1 A C U Hm1). by destruct (persistLocked w m1) as [? []]. }
  case_if; [by apply Hnew|]. case_if; [by apply Hnew|]. destruct rd as [| | | |ts]; [by apply Hfin, Hnew|by apply Hfin, Hnew|by apply Hfin, Hnew| |].
  - by apply Hnew.
  - apply Hfin. split; simpl; [|done|done|].
    + apply load_winv; [by apply H2, Hrd|]. intros id t. by rewrite lookup_empty.
    + intros Hb. by rewrite Hb in *.
Qed.

Lemma create_winv w now id t m A C U :
  winv m A C U → id ∉ U → winv (Create w now (Some id) t m).1 A C (U ∪ {[id]}).
Proof.
  intros Hi Hid. pose proof (winv_mono m A A C U (U ∪ {[id]}) ltac:(done) ltac:(set_solver) Hi) as Hi'.
  destruct (Create_cases w now (Some id) t m) as [[e ->]|(id' & c & d & [= <-] & _ & _ & _ & -> & _)]; [done|].
  apply put_persist_winv; [done|done| |].
  - split; simpl; [set_solver|done|]. intros HC. exfalso. by apply Hid, (proj2 (wi_once _ _ _ _ Hi)).
  - right. intros ts Hts. eapply Forall_impl; [|by apply (wi_store _ _ _ _ Hi)]. intros x [Hx _ _] Heq. by rewrite Heq in Hx.
Qed.

Lemma decide_winv w now now' id approved by_ m A C U :
  winv m A C U → winv (Decide w now now' id approved by_ m).1 (A ++ approves (OpDecide w now now' id approved by_) m) C U.
Proof.
  intros Hi. assert (∀ A', winv m (A ++ A') C U) as HA by (intros; eapply winv_mono; [|done|done]; intros; apply elem_of_app; by left).
  unfold Decide, approves. destruct (g_tickets m !! id) as [t|] eqn:Ht; [|by destruct approved; apply HA].
  destruct (wi_tickets _ _ _ _ Hi id t Ht) as [Hid Htok].
  case_bool_decide as Hst; [by destruct approved; apply HA|].
  assert (k_State t = StatePending) as Hp by (by destruct (k_State t)).
  destruct (Z.ltb_spec (k_Deadline t) now) as [Hd|Hd].
  - simpl. apply put_winv; [by destruct approved; apply HA|done| |left; by eauto].
    eapply tok_pending; [|done|done|done]. eapply tok_mono; [|done|exact Htok]. destruct approved; intros; apply elem_of_app; by left.
  - rewrite (bool_decide_eq_true_2 _ Hp). simpl. destruct (Z.leb_spec now (k_Deadline t)); [|lia].
    set (t' := set_state t _ by_ now').
    assert (winv (persistLocked w (put m id t')).1 (A ++ (if approved then [{| ap_ticket := t; ap_at := now |}] else [])) C U) as Hw.
    { apply put_persist_winv; [by apply HA|done| |left; by eauto]. subst t'. destruct approved.
      - split; simpl; [apply Htok| |].
        + intros _. eexists. split; [apply elem_of_app; right; by apply list_elem_of_singleton|]. done.
        + intros HC. destruct (to_claimed _ _ _ _ Htok HC). congruence.
      - rewrite app_nil_r. by eapply tok_pending. }
    destruct (persistLocked w (put m id t')) as [m' []]; by destruct approved.
Qed.

Lemma run_winv op w : op_ok op w → winv (wd_m w) (wd_approvals w) (wd_claimed w) (wd_used w) →
  winv (wd_m (wrun op w)) (wd_approvals (wrun op w)) (wd_claimed (wrun op w)) (wd_used (wrun op w)).
Proof.
  destruct w as [m A C U]. intros Hok Hi. destruct op; simpl in *; rewrite ?app_nil_r, ?(right_id_L ∅ (∪)).
  - destruct rand as [id|]; simpl; [rewrite (right_id_L ∅ (∪)); by apply create_winv|]. rewrite (right_id_L ∅ (∪)).
    by destruct (Create_cases w now None t m) as [[e ->]|(? & ? & ? & [=] & _)].
  - by apply decide_winv.
  - apply imap_winv; [|done]. intros id t Ht. simpl. destruct (_ && _) eqn:E; [|done].
    apply andb_true_iff in E as [_ E]. split; [done|by eapply overdue_tok].
  - unfold Edit. destruct (g_tickets m !! id) as [t|] eqn:Ht; [|done]. case_bool_decide as Hst; [done|].
    destruct (wi_tickets _ _ _ _ Hi id t Ht) as [Hid Htok]. assert (k_State t = StatePending) as Hp by (by destruct (k_State t)).
    assert (winv (persistLocked w (put m id (edited t p reason by_ now))).1 A C U) as Hw.
    { apply put_persist_winv; [done|done| |left; by eauto]. eapply tok_pending; [done..|]. simpl. by rewrite Hp. }
    by destruct (persistLocked w _) as [m' e].
  - unfold ClaimFor. destruct (first_claimable order task tool p m) as [[id t]|] eqn:Hf; [|by rewrite app_nil_r].
    apply first_claimable_some in Hf as (Ht & (_ & _ & Hst & Hc & _)%claimable_spec).
    destruct (wi_tickets _ _ _ _ Hi id t Ht) as [Hid Htok].
    destruct (persistLocked w (put m id (set_consumed t true))) as [m' [e|]] eqn:Hp; simpl; [|by eapply claim_winv].
    rewrite app_nil_r. destruct (persist_tickets w (put m id (set_consumed t true))) as [Et _]. rewrite Hp in Et. simpl in Et.
    assert (winv m' A C U) as Hm'.
    { change m' with (m', Some e).1. rewrite <- Hp. apply put_persist_winv; [done|done|by apply tok_consumed|left; by eauto]. }
    apply put_winv; [done|done|by rewrite <- Hc, consumed_id|]. left. rewrite Et, lookup_insert_eq. by eauto.
  - unfold MarkConsumed. destruct (g_tickets m !! id) as [t|] eqn:Ht; [|by apply persist_winv].
    case_bool_decide as Hst; [|by apply persist_winv]. destruct (wi_tickets _ _ _ _ Hi id t Ht) as [Hid Htok].
    assert (winv (persistLocked w (put m id (set_consumed t true))).1 A C U) as Hm'
      by (apply put_persist_winv; [done|done|by apply tok_consumed|left; by eauto]).
    destruct (persist_tickets w (put m id (set_consumed t true))) as [Et _].
    destruct (persistLocked w _) as [m' [e|]]; simpl in *; [|done].
    apply put_winv; [done|done|by rewrite consumed_id|]. left. rewrite Et, lookup_insert_eq. by eauto.
  - unfold ExpirePending. simpl. set (m1 := set_tickets m _). assert (winv m1 A C U) as H1.
    { apply imap_winv; [|done]. intros id t Ht. simpl. destruct (overdue now id t) eqn:E; [|done]. split; [done|by eapply overdue_tok]. }
    case_if; [by apply persist_winv|done].
  - apply restart_winv; [done|]. by intros ts ->.
Qed.

Lemma reachable_winv w : rtc wstep w0 w → winv (wd_m w) (wd_approvals w) (wd_claimed w) (wd_used w).
Proof.
  intros Hr. remember w0 as w1 eqn:E. assert (winv (wd_m w1) (wd_approvals w1) (wd_claimed w1) (wd_used w1)) as Hi.
  { subst w1. apply new_winv; simpl; [done|constructor|]. by intros id ?%not_elem_of_nil. }
  clear E. induction Hr as [|w1 w2 w3 (op & Hok & ->) _ IH]; [done|]. by apply IH, run_winv.
Qed.

(** A claim is granted only on a recorded approval of the same action. *)
Lemma claim_approved m A C U wr order task tool p id :
  winv m A C U → (ClaimFor wr order task tool p m).2 = Some id →
  ∃ a, a ∈ A ∧ k_ID (ap_ticket a) = id ∧ k_TaskID (ap_ticket a) = task ∧ k_Tool (ap_ticket a) = tool ∧
       sameParams (k_Params (ap_ticket a)) p = true ∧ ap_at a ≤ k_Deadline (ap_ticket a).
Proof.
  intros Hr Hc. unfold ClaimFor in Hc.
  destruct (first_claimable order task tool p m) as [[i t]|] eqn:Hf; [|done].
  apply first_claimable_some in Hf as (Ht & (E1 & E2 & Hst & _ & Hs)%claimable_spec).
  destruct (persistLocked wr _) as [m' [e|]]; [done|]. injection Hc as <-.
  destruct (wi_tickets _ _ _ _ Hr i t Ht) as [_ Htok]. destruct (to_approved _ _ _ _ Htok Hst) as (a & Ha & A1 & A2 & A3 & A4 & A5).
  exists a. by rewrite A2, A3, A4.
Qed.
End Spec.
