(* ===== verification/ApprovalClaims.v ===== *)
(** * Properties of the approval gate *)

From S2P Require Import Prelude FsJson Approval ApprovalSpec.

Section Claims.
Context `{Json}.

(** C2. An approval unlocks one execution: over any sequence of operations -
    restarts that reload the store and writes that fail at any point included -
    [ClaimFor] never returns the same ticket twice. *)
Theorem claims_once w : rtc wstep w0 w → NoDup (wd_claimed w).
Proof. intros Hr%reachable_winv. apply Hr. Qed.

(** C17. No execution without a human decision on that very action: when [ClaimFor]
    grants a ticket for a task, tool and parameters, someone approved it before
    its deadline, when it named the same task and tool and carried parameters
    with the same encoding; editing or restarting in between does not change what
    was approved. *)
Theorem claim_was_approved w wr order task tool p id :
  rtc wstep w0 w → (ClaimFor wr order task tool p (wd_m w)).2 = Some id →
  ∃ a, a ∈ wd_approvals w ∧ k_ID (ap_ticket a) = id ∧ k_TaskID (ap_ticket a) = task ∧ k_Tool (ap_ticket a) = tool ∧
       sameParams (k_Params (ap_ticket a)) p = true ∧ ap_at a ≤ k_Deadline (ap_ticket a).
Proof.
  intros Hr%reachable_winv. by eapply claim_approved.
Qed.

(** C31. Tickets only advance: an operation other than a restart keeps every ticket
    with its id, task, target, tool, creator, creation time and deadline; a pending
    one may be decided, expire or have its parameters edited; a decided or expired
    ticket is immutable but for the one change from unconsumed to consumed, which
    only an approved ticket makes and which is never undone.  (A restart goes back
    to what was saved, so it may undo a decision whose save failed, see
    [refused_decision_counts].) *)
Theorem tickets_advance w op :
  rtc wstep w0 w → op_ok op w → (∀ wr mkdir path rd, op ≠ OpRestart wr mkdir path rd) → advanced (wd_m w) (run_aop op (wd_m w)).
Proof.
  intros Hr%reachable_winv Hok Hn. apply run_advances; [done|]. intros wr now id t ->. simpl in Hok.
  destruct (g_tickets (wd_m w) !! id) as [x|] eqn:Hx; [|done].
  destruct (wi_tickets _ _ _ _ Hr id x Hx) as [<- Hxt]. by destruct Hok, Hxt.
Qed.

(** New tickets are bounded and distinct: a created ticket is pending, carries
    the caller's action, and expires no later than an hour after the manager's
    clock - whatever creation time the caller claimed - and no other pending
    ticket asks for the same action; the other tickets are untouched. *)
Theorem Create_bounded w now id t m m' :
  Create w now (Some id) t m = (m', Ok id) →
  (∃ k, g_tickets m' !! id = Some k ∧ k_State k = StatePending ∧ k_ID k = id ∧ k_TaskID k = k_TaskID t ∧ k_Tool k = k_Tool t ∧
        k_Params k = k_Params t ∧ now ≤ k_Deadline k ≤ now + hour) ∧
  (∀ id' x, g_tickets m !! id' = Some x → k_State x = StatePending → k_TaskID x = k_TaskID t → k_Tool x = k_Tool t →
     sameParams (k_Params x) (k_Params t) = false) ∧
  ∀ id', id' ≠ id → g_tickets m' !! id' = g_tickets m !! id'.
Proof.
  intros E. destruct (Create_cases w now (Some id) t m) as [[e Hc]|(i & c & d & [= <-] & Hd & _ & Hm & _ & Hdup & _)]; [congruence|].
  rewrite E in Hm. simpl in Hm. rewrite Hm. split; [|split; [done|]].
  - eexists. by rewrite lookup_insert_eq.
  - intros id' Hne. by rewrite lookup_insert_ne.
Qed.
End Claims.

(** ** Instances *)

#[global] Instance demo_json : Json := {| params := string; Marshal p := Some p |}.

Definition demo_ticket : Ticket :=
  {| k_ID := ""; k_TaskID := "task"; k_Target := "prod"; k_Tool := "deploy"; k_Params := "{}"; k_Evidence := ""; k_Why := "";
     k_Rollback := ""; k_CreatedAt := 0; k_Deadline := 0; k_State := StatePending; k_DecidedBy := ""; k_DecidedAt := 0;
     k_Consumed := false; k_EditedBy := ""; k_EditedAt := None; k_CreatedBy := "agent"; k_CreatedByKeyFp := "" |}.

Definition wruns (ops : list aop) (w : world) : world := fold_left (λ w op, wrun op w) ops w.

(** The side conditions of a run, decided. *)
Fixpoint ok_run (ops : list aop) (w : world) : bool :=
  match ops with
  | [] => true
  | op :: ops =>
      match op with
      | OpCreate _ _ (Some id) _ => bool_decide (id ∉ wd_used w)
      | OpRestart _ _ _ (RdFile _) => false
      | _ => true
      end && ok_run ops (wrun op w)
  end.

Lemma wruns_rtc ops w : ok_run ops w = true → rtc wstep w (wruns ops w).
Proof.
  revert w. induction ops as [|op ops IH]; intros w; [constructor|]. cbn [ok_run]. intros [Hok Hr]%andb_true_iff.
  eapply rtc_l; [|exact (IH (wrun op w) Hr)]. exists op. split; [|done].
  destruct op as [? ? [id|] ?| | | | | | |? ? ? []]; try done. by apply bool_decide_eq_true_1 in Hok.
Qed.

(** A ticket is created, approved and claimed with the store on; a second claim
    finds nothing. *)
Definition demo_ops : list aop :=
  [OpRestart None true "approvals.json" RdMissing; OpCreate None 1000 (Some "k1") demo_ticket;
   OpDecide None 2000 2001 "k1" true "alice"; OpClaim None ["k1"] "task" "deploy" "{}";
   OpClaim None ["k1"] "task" "deploy" "{}"].
Definition demo_world : world := wruns demo_ops w0.

Lemma demo_reached : rtc wstep w0 demo_world.
Proof. apply wruns_rtc. vm_compute. reflexivity. Qed.

Lemma claims_once_witness : wd_claimed demo_world = ["k1"%string] ∧ NoDup (wd_claimed demo_world).
Proof. split; [vm_compute; reflexivity|]. apply (claims_once demo_world demo_reached). Defined.

Lemma claim_was_approved_witness :
  let w := wruns (take 3 demo_ops) w0 in
  ∃ a, a ∈ wd_approvals w ∧ k_ID (ap_ticket a) = "k1"%string ∧ ap_at a ≤ k_Deadline (ap_ticket a).
Proof.
  intros w. assert (rtc wstep w0 w) as Hr by (apply wruns_rtc; vm_compute; reflexivity).
  destruct (claim_was_approved w None ["k1"%string] "task" "deploy" "{}"%string "k1" Hr) as (a & H1 & H2 & _ & _ & _ & H3);
    [vm_compute; reflexivity|]. exists a. by split_and!.
Defined.

Lemma tickets_advance_witness : advanced (wd_m demo_world) (run_aop (OpEdit None 5 "k1" None "" "bob") (wd_m demo_world)).
Proof. apply (tickets_advance demo_world (OpEdit None 5 "k1" None "" "bob") demo_reached); [exact I|discriminate]. Defined.

Lemma Create_bounded_witness :
  let m := NewManager (FsJson.Store None []) in
  ∃ k, g_tickets (Create None 1000 (Some "k1") demo_ticket m).1 !! "k1"%string = Some k ∧ k_Deadline k ≤ 1000 + hour.
Proof.
  intros m. destruct (Create_bounded None 1000 "k1" demo_ticket m (Create None 1000 (Some "k1") demo_ticket m).1) as [(k & H1 & H2) _];
    [vm_compute; reflexivity|]. exists k. split; [exact H1|]. apply H2.
Defined.

(** ** Where memory and store part *)

Definition demo_on : Manager := wd_m (wruns [OpRestart None true "approvals.json" RdMissing] w0).

(** A creation the store refuses reports an error, yet the ticket stays pending:
    the caller's retry is turned away as a duplicate. *)
Theorem refused_creation_stays :
  let (m, r) := Create (Some SSync) 1000 (Some "k1") demo_ticket demo_on in
  r = Err (EPersist (FsErr SSync)) ∧ k_State <$> g_tickets m !! "k1"%string = Some StatePending ∧
  (Create None 1000 (Some "k2") demo_ticket m).2 = Err ErrAlreadyPending.
Proof. vm_compute. repeat split. Qed.

(** A decision the store refuses reports an error, yet it takes effect: the next
    claim is granted on it. *)
Theorem refused_decision_counts :
  let m := (Create None 1000 (Some "k1") demo_ticket demo_on).1 in
  let (m, r) := Decide (Some SSync) 2000 2001 "k1" true "alice" m in
  r = Err (EPersist (FsErr SSync)) ∧ (ClaimFor None ["k1"%string] "task" "deploy" "{}"%string m).2 = Some "k1"%string.
Proof. vm_compute. repeat split. Qed.

(** Refusing an unreadable store leaves it enabled: the next operation replaces
    the tickets it holds. *)
Theorem unreadable_store_replaced :
  let disk := FsJson.Store (Some [demo_ticket]) [] in
  let (m, r) := EnablePersistence None true "approvals.json" RdError (NewManager disk) in
  r = Err EReadStore ∧ map k_ID <$> st_target (g_store (Create None 1000 (Some "k1") demo_ticket m).1) = Some ["k1"%string].
Proof. vm_compute. repeat split. Qed.
