(* ===== verification/UidAlloc.v ===== *)
(** * Host uid ranges (internal/uidalloc)

    The table that gives each container its own 65536-wide uid range, kept in a
    file that every process of the host shares. *)

From S2P Require Import Prelude.

Definition RangeSize : Z := 65536.
Definition FirstBase : Z := 100000.
Definition maxBase : Z := 2 ^ 32 - RangeSize.

(** [idRe]: one or more letters, digits, underscores and dashes. *)
Definition id_char (c : Ascii.ascii) : bool :=
  let n := Z.of_N (Ascii.N_of_ascii c) in
  (97 <=? n) && (n <=? 122) || (65 <=? n) && (n <=? 90) || (48 <=? n) && (n <=? 57) || (n =? 95) || (n =? 45).
Definition valid_id (s : string) : bool :=
  match s with EmptyString => false | _ => forallb id_char (String.list_ascii_of_string s) end.

(** [diskState]: container ID to range base. *)
Abbreviation diskState := (gmap string Z).

(** The table file: absent, of size zero, not decodable, or a table. *)
Inductive disk : Type := DMissing | DEmpty | DCorrupt | DTable (st : diskState).

Inductive uid_err : Type := EInvalidID | EExhausted | ECorrupt | EIO.

(** The system calls of an operation that fail. *)
Inductive write_fault : Type :=
| FTruncate                  (* nothing happened *)
| FWrite (some : bool)       (* after the truncation: some bytes, or none, were written *)
| FSync.
Record env : Type := { ev_mkdir : bool; ev_open : bool; ev_lock : bool; ev_stat : bool; ev_write : option write_fault }.
Definition calm : env := {| ev_mkdir := true; ev_open := true; ev_lock := true; ev_stat := true; ev_write := None |}.

Definition lowestFree (alloc : diskState) : result uid_err Z :=
  let used : gset Z := map_img alloc in
  match first_free (S (size used)) FirstBase RangeSize maxBase (λ b, bool_decide (u32 b ∈ used)) with
  | Some b => Ok (u32 b)
  | None => Err EExhausted
  end.

Definition decode (e : env) (d : disk) : result uid_err diskState :=
  if negb (ev_stat e) then Err EIO else
  match d with
  | DMissing | DEmpty => Ok ∅
  | DCorrupt => Err ECorrupt
  | DTable st => Ok st
  end.

(** Truncate, write, sync: the file is replaced in place. *)
Definition write (e : env) (st : diskState) (d : disk) : disk * option uid_err :=
  match ev_write e with
  | None => (DTable st, None)
  | Some FTruncate => (d, Some EIO)
  | Some (FWrite false) => (DEmpty, Some EIO)
  | Some (FWrite true) => (DCorrupt, Some EIO)
  | Some FSync => (DTable st, Some EIO)
  end.

Definition mutate {A} (e : env) (fn : diskState → result uid_err (diskState * A)) : method disk uid_err A := λ d,
  if negb (ev_mkdir e) then (d, Err EIO) else
  if negb (ev_open e) then (d, Err EIO) else
  let d := match d with DMissing => DEmpty | d => d end in   (* O_CREATE *)
  if negb (ev_lock e) then (d, Err EIO) else
  match decode e d with
  | Err x => (d, Err x)
  | Ok st =>
      match fn st with
      | Err x => (d, Err x)
      | Ok (st, a) =>
          match write e st d with
          | (d, None) => (d, Ok a)
          | (d, Some x) => (d, Err x)
          end
      end
  end.

Definition Allocate (e : env) (id : string) : method disk uid_err Z := λ d,
  if negb (valid_id id) then (d, Err EInvalidID) else
  mutate e (λ st,
    match st !! id with
    | Some b => Ok (st, b)
    | None => let* b := lowestFree st in Ok (<[id := b]> st, b)
    end) d.

Definition Lookup (e : env) (id : string) (d : disk) : result uid_err (option Z) :=
  if negb (valid_id id) then Err EInvalidID else
  match d with
  | DMissing => Ok None
  | _ =>
      if negb (ev_open e) then Err EIO else if negb (ev_lock e) then Err EIO else
      let* st := decode e d in Ok (st !! id)
  end.

Definition Release (e : env) (id : string) : method disk uid_err unit :=
  mutate e (λ st, Ok (delete id st, tt)).

Definition Prune (e : env) (keep : string → bool) : method disk uid_err Z :=
  mutate e (λ st, Ok (filter (λ x, keep x.1 = true) st, Z.of_nat (size (filter (λ x, keep x.1 = false) st)))).

(** ** The invariant *)

Definition on_grid (b : Z) : Prop := ∃ k : nat, b = FirstBase + Z.of_nat k * RangeSize ∧ b ≤ maxBase.

Definition table_ok (st : diskState) : Prop :=
  (∀ id b, st !! id = Some b → on_grid b) ∧ (∀ id id' b, st !! id = Some b → st !! id' = Some b → id = id').

(** The uids of two containers. *)
Definition disjoint_ranges (b b' : Z) : Prop := b + RangeSize ≤ b' ∨ b' + RangeSize ≤ b.

Definition disk_ok (d : disk) : Prop := match d with DTable st => table_ok st | _ => True end.

Lemma on_grid_range b : on_grid b → FirstBase ≤ b ∧ b + RangeSize ≤ 2 ^ 32 ∧ u32 b = b.
Proof.
  intros (k & -> & Hb). unfold maxBase, FirstBase, RangeSize in *. split; [lia|]. split; [lia|]. apply u32_id. lia.
Qed.

Lemma grid_disjoint b b' : on_grid b → on_grid b' → b ≠ b' → disjoint_ranges b b'.
Proof. intros (k & -> & _) (k' & -> & _) Hne. unfold disjoint_ranges, RangeSize in *. lia. Qed.

(** The lowest free slot, or proof that there is none. *)
Lemma lowestFree_spec st :
  table_ok st →
  match lowestFree st with
  | Ok b => on_grid b ∧ (∀ id, st !! id ≠ Some b) ∧ ∀ b', on_grid b' → b' < b → ∃ id, st !! id = Some b'
  | Err e => e = EExhausted ∧ ∀ b, on_grid b → ∃ id, st !! id = Some b
  end.
Proof.
  intros [Hg _]. unfold lowestFree. set (used := map_img st : gset Z).
  assert (∀ x, bool_decide (u32 x ∈ used) = true → on_grid x → ∃ id, st !! id = Some x) as Hin.
  { intros x Hx%bool_decide_eq_true_1 (_ & _ & Hu)%on_grid_range. rewrite Hu in Hx. by apply elem_of_map_img in Hx. }
  destruct (first_free _ _ _ _ _) as [b|] eqn:E.
  - apply first_free_some in E as (k & Hb & Hl & Hf & Hlow).
    assert (on_grid b) as Hgb by (by exists k). destruct (on_grid_range b Hgb) as (_ & _ & Hu). rewrite Hu.
    split; [done|]. split.
    + intros id Hid. apply bool_decide_eq_false_1 in Hf. apply Hf. rewrite Hu. apply elem_of_map_img. by exists id.
    + intros b' Hg' Hlt. destruct Hg' as (k' & -> & Hl'). apply Hin; [|by exists k']. apply Hlow. unfold RangeSize in *. nia.
  - split; [done|]. intros b (k & -> & Hl). apply Hin; [|by exists k].
    refine (first_free_full RangeSize maxBase _ used FirstBase _ _ E k Hl); [done|].
    intros x Hx Hu%bool_decide_eq_true_1. rewrite u32_id in Hu by (unfold maxBase, FirstBase, RangeSize in *; lia). done.
Qed.

Lemma table_insert st id b : table_ok st → st !! id = None → on_grid b → (∀ id', st !! id' ≠ Some b) → table_ok (<[id := b]> st).
Proof.
  intros [H1 H2] Hn Hb Hfree. split.
  - intros id' b'. destruct (decide (id = id')) as [<-|]; [rewrite lookup_insert_eq; by intros [= <-]|].
    rewrite lookup_insert_ne by done. apply H1.
  - intros i j b'. rewrite !lookup_insert. repeat case_decide; naive_solver.
Qed.

Lemma table_sub st st' : st' ⊆ st → table_ok st → table_ok st'.
Proof. intros Hs [H1 H2]. split; intros; eauto using lookup_weaken. Qed.

(** A mutation keeps the file good when its function keeps the table good. *)
Lemma mutate_ok {A} e (fn : diskState → result uid_err (diskState * A)) d :
  (∀ st st' a, table_ok st → fn st = Ok (st', a) → table_ok st') → disk_ok d → disk_ok (mutate e fn d).1.
Proof.
  intros Hfn Hd. unfold mutate. case_if; [done|]. case_if; [done|].
  set (d1 := match d with DMissing => DEmpty | _ => _ end). assert (disk_ok d1) as Hd1 by (by destruct d).
  case_if; [done|]. assert (∀ st, decode e d1 = Ok st → table_ok st) as Hdec.
  { intros st. unfold decode. case_if; [done|]. destruct d1; try done; intros [= <-]; try done; split; intros; by rewrite lookup_empty in *. }
  destruct (decode e d1) as [st|]; [|done]. destruct (fn st) as [[st' a]|] eqn:E; [|done].
  pose proof (Hfn _ _ _ (Hdec _ eq_refl) E). unfold write. by destruct (ev_write e) as [[|[]|]|].
Qed.

Lemma Allocate_ok e id d : disk_ok d → disk_ok (Allocate e id d).1.
Proof.
  intros Hd. unfold Allocate. case_if; [done|]. apply mutate_ok; [|done]. intros st st' a Hst.
  destruct (st !! id) eqn:E; [by intros [= <- <-]|]. pose proof (lowestFree_spec st Hst) as Hl.
  destruct (lowestFree st) as [b|]; [|done]. simpl. intros [= <- <-]. destruct Hl as (? & ? & _). by apply table_insert.
Qed.

Lemma Release_ok e id d : disk_ok d → disk_ok (Release e id d).1.
Proof.
  apply mutate_ok. intros st st' a Hst [= <- _]. eapply table_sub; [|done]. apply delete_subseteq.
Qed.

Lemma Prune_ok e keep d : disk_ok d → disk_ok (Prune e keep d).1.
Proof.
  apply mutate_ok. intros st st' a Hst [= <- _]. eapply table_sub; [|done]. apply map_filter_subseteq.
Qed.

(** ** Properties *)

(** The processes of a host take turns at the file. *)
Inductive uid_step : disk → disk → Prop :=
| us_allocate e id d : uid_step d (Allocate e id d).1
| us_release e id d : uid_step d (Release e id d).1
| us_prune e keep d : uid_step d (Prune e keep d).1.

Lemma uid_step_ok d d' : rtc uid_step d d' → disk_ok d → disk_ok d'.
Proof.
  induction 1 as [|d1 d2 d3 Hs _ IH]; [done|]. intros Hd. apply IH.
  destruct Hs; [by apply Allocate_ok|by apply Release_ok|by apply Prune_ok].
Qed.

(** C25. Two containers of a table never share a host uid: in any table that
    processes sharing the file can produce from a missing one, whatever calls
    failed, each container's range lies between 100000 and the end of the 32-bit uid
    space, and the ranges of two containers are disjoint.  (A table that is lost is
    forgotten, ranges in use included, see [lost_table_reuses_range].) *)
Theorem ranges_disjoint st id id' b b' :
  rtc uid_step DMissing (DTable st) → st !! id = Some b → st !! id' = Some b' → id ≠ id' →
  FirstBase ≤ b ∧ b + RangeSize ≤ 2 ^ 32 ∧ disjoint_ranges b b'.
Proof.
  intros Hr Hb Hb' Hne. destruct (uid_step_ok _ _ Hr I) as [H1 H2].
  destruct (on_grid_range b (H1 _ _ Hb)) as (? & ? & _). split_and!; try done.
  apply grid_disjoint; [by eapply H1..|]. intros ->. by apply Hne, (H2 id id' b').
Qed.

(** Allocation is exact: on a good file and with no failing call, a container
    that has a range gets it again and nothing changes; one that has none gets
    the lowest free range, recorded beside the others; and the only refusals are
    an invalid identifier and a space with every range taken. *)
Theorem Allocate_exact id st :
  table_ok st →
  match Allocate calm id (DTable st) with
  | (d', Ok b) =>
      valid_id id = true ∧
      (st !! id = Some b ∧ d' = DTable st ∨
       st !! id = None ∧ d' = DTable (<[id := b]> st) ∧ on_grid b ∧ (∀ id', st !! id' ≠ Some b) ∧
       ∀ b', on_grid b' → b' < b → ∃ id', st !! id' = Some b')
  | (d', Err EInvalidID) => d' = DTable st ∧ valid_id id = false
  | (d', Err e) => d' = DTable st ∧ e = EExhausted ∧ st !! id = None ∧ ∀ b, on_grid b → ∃ id', st !! id' = Some b
  end.
Proof.
  intros Hst. unfold Allocate. destruct (valid_id id); [|done]. simpl. unfold mutate. simpl.
  destruct (st !! id) as [b|] eqn:E; [by split; [|left]|]. pose proof (lowestFree_spec st Hst) as Hl.
  destruct (lowestFree st) as [b|e]; simpl; [|by destruct Hl as [-> ?]]. destruct Hl as (? & ? & ?). split; [done|]. by right.
Qed.

Lemma ranges_disjoint_witness : disjoint_ranges 100000 165536.
Proof.
  destruct (ranges_disjoint (<["b"%string := 165536]> {[ "a"%string := 100000 ]}) "a" "b" 100000 165536) as (_ & _ & Hd); try done.
  eapply rtc_l; [apply (us_allocate calm "a")|]. eapply rtc_l; [apply (us_allocate calm "b")|].
  replace (Allocate calm "b" (Allocate calm "a" DMissing).1).1 with (DTable (<["b"%string := 165536]> {[ "a"%string := 100000 ]}));
    [apply rtc_refl|vm_compute; reflexivity].
Defined.

Lemma Allocate_exact_witness :
  let st : diskState := {[ "a"%string := 100000 ]} in
  (Allocate calm "c" (DTable st)).2 = Ok 165536 ∧ on_grid 165536 ∧ st !! "a"%string ≠ Some 165536.
Proof.
  intros st. assert (table_ok st) as Hok.
  { split; [intros i b [<- <-]%lookup_singleton_Some; by exists O|].
    by intros i j b [<- <-]%lookup_singleton_Some [<- _]%lookup_singleton_Some. }
  pose proof (Allocate_exact "c" st Hok) as Ha.
  assert (Allocate calm "c" (DTable st) = (DTable (<["c"%string := 165536]> st), Ok 165536)) as E by (vm_compute; reflexivity).
  rewrite E in Ha |- *. destruct Ha as [_ [[Hc _]|(_ & _ & Hg & Hfree & _)]]; [by vm_compute in Hc|]. by split_and!.
Defined.

(** A write that fails after the truncation leaves an empty file, which the next
    process takes for a table with no allocations: it hands the first container's
    range to another. *)
Theorem lost_table_reuses_range :
  let d1 := (Allocate calm "a" DMissing).1 in
  let d2 := (Release {| ev_mkdir := true; ev_open := true; ev_lock := true; ev_stat := true; ev_write := Some (FWrite false) |} "zzz" d1).1 in
  (Allocate calm "a" DMissing).2 = Ok 100000 ∧ (Allocate calm "b" d2).2 = Ok 100000.
Proof. split; vm_compute; reflexivity. Qed.
