(* ===== verification/Ipam.v ===== *)
(** * Guest addresses and network policy (internal/network)

    [ipam.go], the allocator of guest addresses on a bridge subnet, and the
    range checks of [policy.go].  Addresses are 32-bit integers in host order. *)

From S2P Require Import Prelude.

(** ** IPv4 blocks *)

(** [^uint32(0) << (32 - ones)]. *)
Definition mask_of (ones : Z) : Z := u32 (Z.shiftl (2 ^ 32 - 1) (32 - ones)).

(** [net.IPNet] of an IPv4 block: the network address and the prefix length. *)
Record IPNet : Type := { n_IP : Z; n_Ones : Z }.

Definition Contains (n : IPNet) (ip : Z) : bool := Z.land ip (mask_of (n_Ones n)) =? n_IP n.

(** [net.ParseCIDR] of an address and a prefix length. *)
Definition ParseCIDR (ip ones : Z) : Z * IPNet := (ip, {| n_IP := Z.land ip (mask_of ones); n_Ones := ones |}).

Definition block_ok (n : IPNet) : Prop :=
  0 ≤ n_Ones n ≤ 32 ∧ 0 ≤ n_IP n < 2 ^ 32 ∧ n_IP n mod 2 ^ (32 - n_Ones n) = 0.

(** The addresses of a block are an aligned power-of-two interval. *)
Lemma mask_land ip ones : 0 ≤ ones ≤ 32 → 0 ≤ ip < 2 ^ 32 → Z.land ip (mask_of ones) = ip - ip mod 2 ^ (32 - ones).
Proof.
  intros Ho Hip. set (k := 32 - ones). assert (0 ≤ k ≤ 32) by lia.
  transitivity (Z.shiftl (Z.shiftr ip k) k).
  - unfold mask_of, u32. fold k. rewrite <- (Z.land_ones _ 32) by lia. change (2 ^ 32 - 1) with (Z.ones 32).
    apply Z.bits_inj'. intros i Hi. rewrite !Z.land_spec, !Z.shiftl_spec by lia.
    destruct (Z.ltb_spec i k).
    + rewrite (Z.testbit_neg_r _ (i - k)), (Z.testbit_neg_r (Z.shiftr ip k)) by lia. by rewrite andb_false_r.
    + rewrite Z.shiftr_spec by lia. replace (i - k + k) with i by lia. destruct (Z.ltb_spec i 32).
      * rewrite !Z.ones_spec_low by lia. by rewrite andb_true_r.
      * replace (Z.testbit ip i) with false; [done|]. symmetry. rewrite <- (Z.mod_small ip (2 ^ 32)) by lia.
        by apply Z.mod_pow2_bits_high.
  - rewrite Z.shiftl_mul_pow2, Z.shiftr_div_pow2 by lia. pose proof (Z.div_mod ip (2 ^ k) ltac:(lia)). lia.
Qed.

Lemma Contains_spec n ip : block_ok n → 0 ≤ ip < 2 ^ 32 →
  Contains n ip = true ↔ n_IP n ≤ ip < n_IP n + 2 ^ (32 - n_Ones n).
Proof.
  intros (Ho & Hn & Ha) Hip. unfold Contains. rewrite Z.eqb_eq, mask_land by done.
  set (s := 2 ^ (32 - n_Ones n)) in *. assert (0 < s) by (apply Z.pow_pos_nonneg; lia).
  pose proof (Z.mod_pos_bound ip s ltac:(lia)). pose proof (Z.div_mod ip s ltac:(lia)). pose proof (Z.div_mod (n_IP n) s ltac:(lia)).
  split; [lia|]. intros Hr. assert (ip / s = n_IP n / s) by (apply Z.le_antisymm; [apply Z.lt_succ_r, Z.div_lt_upper_bound; lia|apply Z.div_le_mono; lia]).
  lia.
Qed.

Lemma ParseCIDR_ok ip ones : 0 ≤ ones ≤ 32 → 0 ≤ ip < 2 ^ 32 → block_ok (ParseCIDR ip ones).2.
Proof.
  intros Ho Hip. unfold block_ok. simpl. rewrite mask_land by done. set (s := 2 ^ (32 - ones)) in *.
  assert (0 < s) by (apply Z.pow_pos_nonneg; lia). pose proof (Z.mod_pos_bound ip s ltac:(lia)). pose proof (Z.mod_le ip s ltac:(lia) ltac:(lia)).
  split; [done|]. split; [lia|]. pose proof (Z.div_mod ip s ltac:(lia)).
  replace (ip - ip mod s) with (ip / s * s) by lia. apply Z.mod_mul. lia.
Qed.

(** ** Overlap of blocks (policy.go) *)

Definition cidrsOverlap (a b : IPNet) : bool := Contains a (n_IP b) || Contains b (n_IP a).

Definition alwaysDeniedCIDRs : list IPNet :=
  [{| n_IP := 10 * 2 ^ 24; n_Ones := 8 |};
   {| n_IP := 127 * 2 ^ 24; n_Ones := 8 |};
   {| n_IP := 169 * 2 ^ 24 + 254 * 2 ^ 16; n_Ones := 16 |};
   {| n_IP := 172 * 2 ^ 24 + 16 * 2 ^ 16; n_Ones := 12 |};
   {| n_IP := 192 * 2 ^ 24 + 168 * 2 ^ 16; n_Ones := 16 |}].

(** The range check of [IsAlwaysDenied] on a parsed entry. *)
Definition IsAlwaysDenied (entry : IPNet) : bool := existsb (cidrsOverlap entry) alwaysDeniedCIDRs.

Definition in_block (n : IPNet) (ip : Z) : Prop := 0 ≤ ip < 2 ^ 32 ∧ Contains n ip = true.

(** Aligned blocks are nested or disjoint: testing the two network addresses is
    enough. *)
Lemma cidrsOverlap_spec a b : block_ok a → block_ok b →
  cidrsOverlap a b = true ↔ ∃ ip, in_block a ip ∧ in_block b ip.
Proof.
  intros Ha Hb. pose proof Ha as (Oa & Ra & Aa). pose proof Hb as (Ob & Rb & Ab). unfold cidrsOverlap, in_block.
  rewrite orb_true_iff, !Contains_spec by done.
  set (x := 2 ^ (32 - n_Ones a)) in *. set (y := 2 ^ (32 - n_Ones b)) in *.
  assert (0 < x) by (apply Z.pow_pos_nonneg; lia). assert (0 < y) by (apply Z.pow_pos_nonneg; lia).
  split.
  - intros [Hc|Hc]; [exists (n_IP b)|exists (n_IP a)]; rewrite !Contains_spec by done; fold x y; lia.
  - intros (ip & [Hip Hca] & [_ Hcb]). rewrite Contains_spec in Hca, Hcb by done. fold x in Hca. fold y in Hcb.
    destruct (Z.le_ge_cases (n_IP a) (n_IP b)); [left|right]; lia.
Qed.

(** ** The address allocator (ipam.go) *)

Definition guestIPStartHost : Z := 100.

Record IPAM : Type := {
  i_subnet : IPNet;
  i_gateway : Z; i_base : Z; i_bcast : Z;
  i_byTask : gmap string Z;
  i_taken : gmap Z string;
}.

Inductive ip_err : Type :=
| EBadCIDR | ENotIPv4 | EBadPrefix | EExhausted | EBadGuestIP | EOutsideSubnet | EGateway | ENetworkAddr | ESwitch | ETaken.

(** [DefaultBridgeCIDR]: 10.0.0.1/24. *)
Definition DefaultBridgeCIDR : Z * Z := (10 * 2 ^ 24 + 1, 24).

(** A gateway as [net.ParseCIDR] reads it: unset, malformed, not IPv4, or an
    address with a prefix length. *)
Inductive cidr_text : Type := CIDREmpty | CIDRBad | CIDRv6 | CIDRv4 (ip ones : Z).

Definition NewIPAM (g : cidr_text) : result ip_err IPAM :=
  let g := match g with CIDREmpty => CIDRv4 DefaultBridgeCIDR.1 DefaultBridgeCIDR.2 | g => g end in
  match g with
  | CIDRv4 ip ones =>
      let (gw, ipnet) := ParseCIDR ip ones in
      if (ones <? 8) || (30 <? ones) then Err EBadPrefix else
      let mask := mask_of ones in
      Ok {| i_subnet := ipnet; i_gateway := gw; i_base := n_IP ipnet;
            i_bcast := Z.lor (n_IP ipnet) (2 ^ 32 - 1 - mask); i_byTask := ∅; i_taken := ∅ |}
  | CIDRv6 => Err ENotIPv4
  | _ => Err EBadCIDR
  end.

Definition set_alloc (a : IPAM) (by_ : gmap string Z) (taken : gmap Z string) : IPAM :=
  {| i_subnet := i_subnet a; i_gateway := i_gateway a; i_base := i_base a; i_bcast := i_bcast a; i_byTask := by_; i_taken := taken |}.

(** The loop over host addresses: the gateway and the taken ones are skipped; the
    rounds are bounded by how many there are. *)
Definition skipped (a : IPAM) (host : Z) : bool := (host =? i_gateway a) || bool_decide (is_Some (i_taken a !! host)).
Definition first_host (a : IPAM) : option Z :=
  first_free (S (size ({[ i_gateway a ]} ∪ dom (i_taken a) : gset Z))) (u32 (i_base a + guestIPStartHost)) 1 (i_bcast a - 1) (skipped a).

Definition Allocate (task : string) : method IPAM ip_err Z := λ a,
  match i_byTask a !! task with
  | Some cur => (a, Ok cur)
  | None =>
      match first_host a with
      | Some host => (set_alloc a (<[task := host]> (i_byTask a)) (<[host := task]> (i_taken a)), Ok host)
      | None => (a, Err EExhausted)
      end
  end.

(** [ip]: the address [net.ParseIP] reads, if it is IPv4. *)
Definition AllocateGuest (task : string) (ip : option Z) : method IPAM ip_err Z := λ a,
  match ip with
  | None => (a, Err EBadGuestIP)
  | Some host =>
      if negb (Contains (i_subnet a) host) then (a, Err EOutsideSubnet) else
      if host =? i_gateway a then (a, Err EGateway) else
      if (host =? i_base a) || (host =? i_bcast a) then (a, Err ENetworkAddr) else
      match i_byTask a !! task with
      | Some cur => if cur =? host then (a, Ok cur) else (a, Err ESwitch)
      | None =>
          match i_taken a !! host with
          | Some _ => (a, Err ETaken)
          | None => (set_alloc a (<[task := host]> (i_byTask a)) (<[host := task]> (i_taken a)), Ok host)
          end
      end
  end.

Definition Release (task : string) (a : IPAM) : IPAM :=
  match i_byTask a !! task with
  | Some cur => set_alloc a (delete task (i_byTask a)) (delete cur (i_taken a))
  | None => a
  end.

(** The process-wide allocators, one per subnet. *)
Abbreviation ipam_registry := (gmap (Z * Z) IPAM).
Definition SharedIPAM (g : cidr_text) : method ipam_registry ip_err (Z * Z) := λ r,
  match NewIPAM g with
  | Err e => (r, Err e)
  | Ok a =>
      let key := (n_IP (i_subnet a), n_Ones (i_subnet a)) in
      match r !! key with
      | Some _ => (r, Ok key)
      | None => (<[key := a]> r, Ok key)
      end
  end.

(** ** The invariant *)

(** A guest address: in the subnet, and none of the reserved ones. *)
Definition usable (a : IPAM) (host : Z) : Prop := i_base a < host < i_bcast a ∧ host ≠ i_gateway a.

Record ipam_ok (a : IPAM) : Prop := {
  ip_block : block_ok (i_subnet a) ∧ 8 ≤ n_Ones (i_subnet a) ≤ 30;
  ip_base : i_base a = n_IP (i_subnet a);
  ip_bcast : i_bcast a = i_base a + 2 ^ (32 - n_Ones (i_subnet a)) - 1;
  ip_inverse : ∀ task host, i_byTask a !! task = Some host ↔ i_taken a !! host = Some task;
  ip_usable : ∀ task host, i_byTask a !! task = Some host → usable a host;
}.

(** Auto-allocation starts inside the address space. *)
Definition low_enough (a : IPAM) : Prop := i_base a + guestIPStartHost < 2 ^ 32.

Lemma bcast_spec base ones : block_ok {| n_IP := base; n_Ones := ones |} →
  Z.lor base (2 ^ 32 - 1 - mask_of ones) = base + 2 ^ (32 - ones) - 1.
Proof.
  intros (Ho & Hb & Ha). simpl in *. set (k := 32 - ones) in *.
  assert (2 ^ 32 - 1 - mask_of ones = Z.ones k) as ->.
  { pose proof (mask_land (2 ^ 32 - 1) ones Ho ltac:(lia)) as E. fold k in E.
    assert (0 ≤ mask_of ones < 2 ^ 32) by apply u32_range.
    change (2 ^ 32 - 1) with (Z.ones 32) in E at 1. rewrite Z.land_comm, Z.land_ones, Z.mod_small in E by lia. rewrite E.
    assert (0 < 2 ^ k) by (apply Z.pow_pos_nonneg; lia).
    assert ((2 ^ 32 - 1) mod 2 ^ k = 2 ^ k - 1) as ->; [|rewrite Z.ones_equiv; lia].
    symmetry. apply (Z.mod_unique _ _ (2 ^ (32 - k) - 1)); [lia|].
    pose proof (Z.pow_add_r 2 (32 - k) k ltac:(lia) ltac:(lia)) as Ep. replace (32 - k + k) with 32 in Ep by lia. nia. }
  assert (Z.land base (Z.ones k) = 0) as Hz by (by rewrite Z.land_ones by lia).
  rewrite <- Z.lxor_lor, <- Z.add_nocarry_lxor, Z.ones_equiv by done. lia.
Qed.

Lemma NewIPAM_ok g a : (∀ ip ones, g = CIDRv4 ip ones → 0 ≤ ip < 2 ^ 32) → NewIPAM g = Ok a → ipam_ok a.
Proof.
  intros Hg. unfold NewIPAM.
  assert (∀ ip ones, 0 ≤ ip < 2 ^ 32 →
    (let (gw, ipnet) := ParseCIDR ip ones in if (ones <? 8) || (30 <? ones) then Err EBadPrefix else
      Ok {| i_subnet := ipnet; i_gateway := gw; i_base := n_IP ipnet; i_bcast := Z.lor (n_IP ipnet) (2 ^ 32 - 1 - mask_of ones);
            i_byTask := ∅; i_taken := ∅ |}) = Ok a → ipam_ok a) as Hv4.
  { intros ip ones Hip. unfold ParseCIDR. case_if; [done|]. bsimp. intros [= <-].
    pose proof (ParseCIDR_ok ip ones ltac:(lia) Hip) as Hb. simpl in Hb.
    split; simpl; try done. by apply bcast_spec. }
  destruct g as [| | |ip ones]; try done; [by apply Hv4|]. apply Hv4. by eapply Hg.
Qed.

(** A new pair in both maps. *)
Lemma pair_ok a task host :
  ipam_ok a → i_byTask a !! task = None → i_taken a !! host = None → usable a host →
  ipam_ok (set_alloc a (<[task := host]> (i_byTask a)) (<[host := task]> (i_taken a))).
Proof.
  intros [H1 H2 H3 H4 H5] Ht Hh Hu. split; simpl; try done.
  - intros t h. destruct (decide (t = task)) as [->|Hne], (decide (h = host)) as [->|Hne'].
    + by rewrite !lookup_insert_eq.
    + rewrite lookup_insert_eq, lookup_insert_ne by done. rewrite <- H4, Ht. split; congruence.
    + rewrite lookup_insert_ne, lookup_insert_eq by done. rewrite H4, Hh. split; congruence.
    + rewrite !lookup_insert_ne by done. apply H4.
  - intros t h. destruct (decide (t = task)) as [->|Hne]; [rewrite lookup_insert_eq; by intros [= <-]|].
    rewrite lookup_insert_ne by done. apply H5.
Qed.

Lemma ipam_Release_ok task a : ipam_ok a → ipam_ok (Release task a).
Proof.
  intros [H1 H2 H3 H4 H5]. unfold Release. destruct (i_byTask a !! task) as [cur|] eqn:E; [|done].
  split; simpl; try done.
  - intros t h. rewrite !lookup_delete_Some, H4. pose proof (proj1 (H4 _ _) E) as E'.
    split; intros [Hn Hh]; (split; [|done]); intros ->; [congruence|]. apply H4 in Hh. congruence.
  - intros t h [_ Hh]%lookup_delete_Some. by eapply H5.
Qed.

Lemma contains_usable a host :
  ipam_ok a → 0 ≤ host < 2 ^ 32 → Contains (i_subnet a) host = true → host ≠ i_gateway a → host ≠ i_base a → host ≠ i_bcast a →
  usable a host.
Proof.
  intros [[Hb _] Hba Hbc _ _] Hr Hc Hg H1 H2. apply Contains_spec in Hc; [|done..]. split; [|done]. lia.
Qed.

Lemma AllocateGuest_ok task ip a : ipam_ok a → (∀ h, ip = Some h → 0 ≤ h < 2 ^ 32) → ipam_ok (AllocateGuest task ip a).1.
Proof.
  intros Hi Hr. unfold AllocateGuest. destruct ip as [host|]; [|done].
  destruct (Contains (i_subnet a) host) eqn:Hc; simpl; [|done]. do 2 (case_if; [done|]). bsimp.
  destruct (i_byTask a !! task) as [cur|] eqn:E; [by case_if|]. destruct (i_taken a !! host) eqn:Et; [done|]. simpl.
  apply pair_ok; try done. apply contains_usable; auto.
Qed.

Lemma Allocate_spec task a :
  ipam_ok a → low_enough a →
  match Allocate task a with
  | (a', Ok host) =>
      usable a host ∧
      (i_byTask a !! task = Some host ∧ a' = a ∨
       i_byTask a !! task = None ∧ i_taken a !! host = None ∧ i_base a + guestIPStartHost ≤ host ∧
       a' = set_alloc a (<[task := host]> (i_byTask a)) (<[host := task]> (i_taken a)))
  | (a', Err e) =>
      a' = a ∧ e = EExhausted ∧ i_byTask a !! task = None ∧
      ∀ host, usable a host → i_base a + guestIPStartHost ≤ host → is_Some (i_taken a !! host)
  end.
Proof.
  intros Hi Hlow. unfold Allocate. destruct (i_byTask a !! task) as [cur|] eqn:E; [split; [by eapply Hi|by left]|].
  pose proof Hi as [([Ho [Hr _]] & _) Hba _ _ _]. unfold low_enough, guestIPStartHost in *.
  assert (u32 (i_base a + 100) = i_base a + 100) as Hu by (apply u32_id; lia).
  unfold first_host, guestIPStartHost. rewrite Hu. destruct (first_free _ _ _ _ _) as [host|] eqn:Hf.
  - apply first_free_some in Hf as (k & Hh & Hl & Hs & _). unfold skipped in Hs. bsimp.
    match goal with H : bool_decide _ = false |- _ => apply bool_decide_eq_false_1, eq_None_not_Some in H end.
    split; [split; [lia|done]|]. right. split_and!; try done. lia.
  - split_and!; try done. intros host [[H1 H2] Hg] Hlo.
    pose proof (first_free_full 1 (i_bcast a - 1) (skipped a) ({[ i_gateway a ]} ∪ dom (i_taken a)) (i_base a + 100) ltac:(lia)) as Hfull.
    specialize (Hfull ltac:(intros x _ Hx; unfold skipped in Hx; apply orb_true_iff in Hx as [Hx|Hx]; bsimp;
      [set_solver|apply bool_decide_eq_true_1, elem_of_dom in Hx; set_solver]) Hf (Z.to_nat (host - (i_base a + 100)))).
    replace (i_base a + 100 + Z.of_nat (Z.to_nat (host - (i_base a + 100))) * 1) with host in Hfull by lia.
    specialize (Hfull ltac:(lia)). unfold skipped in Hfull. apply orb_true_iff in Hfull as [Hx|Hx]; bsimp; [done|].
    by apply bool_decide_eq_true_1 in Hx.
Qed.

Lemma ipam_Allocate_ok task a : ipam_ok a → low_enough a → ipam_ok (Allocate task a).1.
Proof.
  intros Hi Hl. pose proof (Allocate_spec task a Hi Hl) as Hs. destruct (Allocate task a) as [a' [host|e]]; simpl.
  - destruct Hs as (Hu & [[_ ->]|(Ht & Hh & _ & ->)]); [done|by apply pair_ok].
  - by destruct Hs as [-> _].
Qed.

(** ** Properties *)

Inductive ipam_step : IPAM → IPAM → Prop :=
| is_allocate task a : ipam_step a (Allocate task a).1
| is_guest task ip a : (∀ h, ip = Some h → 0 ≤ h < 2 ^ 32) → ipam_step a (AllocateGuest task ip a).1
| is_release task a : ipam_step a (Release task a).

Lemma step_fixed a a' : ipam_step a a' →
  i_base a' = i_base a ∧ i_bcast a' = i_bcast a ∧ i_gateway a' = i_gateway a ∧ i_subnet a' = i_subnet a.
Proof.
  intros [task b|task ip b _|task b].
  - unfold Allocate. destruct (i_byTask b !! task); [done|]. by destruct (first_host b).
  - unfold AllocateGuest. destruct ip as [h|]; [|done]. do 3 (case_if; [done|]).
    destruct (i_byTask b !! task); [by case_if|]. by destruct (i_taken b !! h).
  - unfold Release. by destruct (i_byTask b !! task).
Qed.

Lemma steps_ok a a' : rtc ipam_step a a' → ipam_ok a → low_enough a → ipam_ok a' ∧ low_enough a'.
Proof.
  induction 1 as [|a1 a2 a3 Hs _ IH]; [done|]. intros Hi Hl. apply IH.
  - destruct Hs; [by apply ipam_Allocate_ok|by apply AllocateGuest_ok|by apply ipam_Release_ok].
  - unfold low_enough in *. by destruct (step_fixed _ _ Hs) as [-> _].
Qed.

(** Guest addresses are unique and usable: on an allocator for any accepted
    gateway whose subnet does not end the address space, after any sequence of
    automatic and pinned allocations and releases, the address a task holds lies
    in the subnet, is neither the network, the broadcast nor the gateway address,
    and is held by no other task. *)
Theorem guest_addresses_unique g a0 a task task' host host' :
  (∀ ip ones, g = CIDRv4 ip ones → 0 ≤ ip < 2 ^ 32) → NewIPAM g = Ok a0 → low_enough a0 → rtc ipam_step a0 a →
  i_byTask a !! task = Some host → i_byTask a !! task' = Some host' → task ≠ task' →
  Contains (i_subnet a) host = true ∧ host ≠ i_base a ∧ host ≠ i_bcast a ∧ host ≠ i_gateway a ∧ host ≠ host'.
Proof.
  intros Hg Hn Hl Hr Ht Ht' Hne. destruct (steps_ok _ _ Hr (NewIPAM_ok g a0 Hg Hn) Hl) as [Hi _].
  destruct (ip_usable a Hi task host Ht) as [[H1 H2] H3]. pose proof Hi as [[Hb _] Hba Hbc Hinv _].
  split_and!; try lia; try done.
  - apply Contains_spec; [done| |lia]. destruct Hb as (Ho & ? & Ha).
    assert (n_IP (i_subnet a) + 2 ^ (32 - n_Ones (i_subnet a)) ≤ 2 ^ 32); [|lia].
    set (s := 2 ^ (32 - n_Ones (i_subnet a))) in *. assert (0 < s) by (apply Z.pow_pos_nonneg; lia).
    assert (2 ^ 32 = 2 ^ n_Ones (i_subnet a) * s) as E by (unfold s; rewrite <- Z.pow_add_r by lia; f_equal; lia).
    pose proof (Z.div_mod (n_IP (i_subnet a)) s ltac:(lia)). assert (n_IP (i_subnet a) / s < 2 ^ n_Ones (i_subnet a)) by (apply Z.div_lt_upper_bound; lia).
    nia.
  - intros <-. apply Hinv in Ht, Ht'. congruence.
Qed.

(** The deny check is exact: an allow entry - a block or a single address -
    is reported as denied precisely when some address of it lies in an
    always-denied range, also when the entry contains the whole range. *)
Theorem IsAlwaysDenied_exact entry :
  block_ok entry →
  IsAlwaysDenied entry = true ↔ ∃ d ip, d ∈ alwaysDeniedCIDRs ∧ in_block entry ip ∧ in_block d ip.
Proof.
  intros He. assert (Forall block_ok alwaysDeniedCIDRs) as Hd by (repeat constructor; by vm_compute).
  unfold IsAlwaysDenied. rewrite existsb_exists. split.
  - intros (d & Hin & Ho). apply list_elem_of_In in Hin. rewrite list.Forall_forall in Hd.
    apply cidrsOverlap_spec in Ho as (ip & H1 & H2); [|done|by apply Hd]. by exists d, ip.
  - intros (d & ip & Hin & H1 & H2). exists d. split; [by apply list_elem_of_In|]. rewrite list.Forall_forall in Hd.
    apply cidrsOverlap_spec; [done|by apply Hd|]. by exists ip.
Qed.

(** ** Instances *)

Definition demo_gw : cidr_text := CIDRv4 (10 * 2 ^ 24 + 1) 24.
Definition demo_ipam : IPAM := match NewIPAM demo_gw with Ok a => a | Err _ => set_alloc (Build_IPAM {| n_IP := 0; n_Ones := 0 |} 0 0 0 ∅ ∅) ∅ ∅ end.
Definition demo_two : IPAM := (AllocateGuest "b" (Some (10 * 2 ^ 24 + 7)) (Allocate "a" demo_ipam).1).1.

Lemma guest_addresses_unique_witness :
  i_byTask demo_two !! "a"%string = Some (10 * 2 ^ 24 + 100) ∧ Contains (i_subnet demo_two) (10 * 2 ^ 24 + 100) = true.
Proof.
  split; [vm_compute; reflexivity|].
  apply (guest_addresses_unique demo_gw demo_ipam demo_two "a" "b" (10 * 2 ^ 24 + 100) (10 * 2 ^ 24 + 7)).
  - intros ip ones [= <- <-]. lia.
  - vm_compute. reflexivity.
  - vm_compute. reflexivity.
  - eapply rtc_l; [apply (is_allocate "a")|]. eapply rtc_l; [|apply rtc_refl]. apply is_guest. intros h [= <-]. lia.
  - vm_compute. reflexivity.
  - vm_compute. reflexivity.
  - discriminate.
Defined.

Lemma IsAlwaysDenied_exact_witness :
  ∃ d ip, d ∈ alwaysDeniedCIDRs ∧ in_block {| n_IP := 8 * 2 ^ 24; n_Ones := 5 |} ip ∧ in_block d ip.
Proof.
  apply (IsAlwaysDenied_exact {| n_IP := 8 * 2 ^ 24; n_Ones := 5 |}); [|vm_compute; reflexivity].
  split_and!; vm_compute; try reflexivity; discriminate.
Defined.

(** ** Subnets the allocator accepts but cannot serve *)

(** Automatic addresses start at offset 100: a /26 gateway, which is accepted, has
    none from the start. *)
Theorem small_subnet_exhausted :
  match NewIPAM (CIDRv4 (10 * 2 ^ 24 + 1) 26) with Ok a => Some (Allocate "t" a).2 | Err _ => None end = Some (Err EExhausted).
Proof. vm_compute. reflexivity. Qed.

(** At the end of the address space the start wraps around: the guest is given
    0.0.0.96, far outside its subnet 255.255.255.252/30. *)
Theorem last_subnet_wraps :
  match NewIPAM (CIDRv4 (2 ^ 32 - 3) 30) with
  | Ok a => match (Allocate "t" a).2 with Ok h => Some (h, Contains (i_subnet a) h) | Err _ => None end
  | Err _ => None
  end = Some (96, false).
Proof. vm_compute. reflexivity. Qed.

(** Two gateways on one subnet share the first one's allocator: the second gateway
    address is handed to a guest. *)
Theorem second_gateway_unprotected :
  let r := (SharedIPAM (CIDRv4 (10 * 2 ^ 24 + 1) 24) ∅).1 in
  let (r, k) := SharedIPAM (CIDRv4 (10 * 2 ^ 24 + 100) 24) r in
  match k with
  | Ok k => match r !! k with Some a => Some (Allocate "t" a).2 | None => None end
  | Err _ => None
  end = Some (Ok (10 * 2 ^ 24 + 100)).
Proof. vm_compute. reflexivity. Qed.
