(* ===== verification/Sha256.v ===== *)
(** * The digest of the audit ledger

    SHA-256 as [crypto/sha256] computes it, and [hex.EncodeToString] of it.  The
    definition is executable, so the chains of concrete ledgers can be computed;
    what the ledger's theorems use of it is that a digest is 64 characters
    without blanks.  Nothing is assumed about collisions: the theorems produce
    them. *)

From S2P Require Import Prelude.

(** ** Words *)

Definition rotr (n x : Z) : Z := Z.lor (Z.shiftr x n) (u32 (Z.shiftl x (32 - n))).

Definition big_sigma0 (x : Z) : Z := Z.lxor (Z.lxor (rotr 2 x) (rotr 13 x)) (rotr 22 x).
Definition big_sigma1 (x : Z) : Z := Z.lxor (Z.lxor (rotr 6 x) (rotr 11 x)) (rotr 25 x).
Definition small_sigma0 (x : Z) : Z := Z.lxor (Z.lxor (rotr 7 x) (rotr 18 x)) (Z.shiftr x 3).
Definition small_sigma1 (x : Z) : Z := Z.lxor (Z.lxor (rotr 17 x) (rotr 19 x)) (Z.shiftr x 10).

Definition choose (x y z : Z) : Z := Z.lxor (Z.land x y) (Z.land (Z.lxor x (2^32 - 1)) z).
Definition majority (x y z : Z) : Z := Z.lxor (Z.lxor (Z.land x y) (Z.land x z)) (Z.land y z).

(** ** Constants: the fractional bits of roots of the first primes *)

Fixpoint cube_root (fuel : nat) (lo hi n : Z) : Z :=
  match fuel with
  | O => lo
  | S f => let mid := (lo + hi + 1) / 2 in
           if mid * mid * mid <=? n then cube_root f mid hi n else cube_root f lo (mid - 1) n
  end.

Definition primes64 : list Z :=
  filter (λ p, forallb (λ d, negb (p mod d =? 0)) (filter (λ d, d * d ≤ p) (seqZ 2 20)) = true) (seqZ 2 310).

Definition round_constants : list Z :=
  Eval vm_compute in (λ p, cube_root 80 0 (2^40) (p * 2^96) mod 2^32) <$> primes64.

Definition initial_state : list Z :=
  Eval vm_compute in (λ p, Z.sqrt (p * 2^64) mod 2^32) <$> take 8 primes64.

(** ** Padding and blocks *)

Definition bytes_of (s : string) : list Z := (λ a, Z.of_nat (Ascii.nat_of_ascii a)) <$> String.list_ascii_of_string s.

Definition be64_bytes (n : Z) : list Z := (λ i, Z.shiftr n (8 * (7 - i)) mod 256) <$> seqZ 0 8.

Definition pad (m : list Z) : list Z :=
  let n := Z.of_nat (length m) in
  m ++ [128] ++ replicate (Z.to_nat ((55 - n) mod 64)) 0 ++ be64_bytes (8 * n).

Fixpoint words (l : list Z) : list Z :=
  match l with
  | a :: b :: c :: d :: l' => (((a * 256 + b) * 256 + c) * 256 + d) :: words l'
  | _ => []
  end.

Fixpoint blocks (fuel : nat) (l : list Z) : list (list Z) :=
  match fuel, l with
  | S f, _ :: _ => take 16 l :: blocks f (drop 16 l)
  | _, _ => []
  end.

(** ** Compression *)

(** The schedule is kept newest word first. *)
Fixpoint schedule (n : nat) (w : list Z) : list Z :=
  match n with
  | O => w
  | S n' =>
      schedule n'
        (u32 (small_sigma1 (nth 1 w 0) + nth 6 w 0 + small_sigma0 (nth 14 w 0) + nth 15 w 0) :: w)
  end.

Definition sha_round (st : list Z) (kw : Z * Z) : list Z :=
  match st with
  | [a; b; c; d; e; f; g; h] =>
      let t1 := h + big_sigma1 e + choose e f g + kw.1 + kw.2 in
      let t2 := big_sigma0 a + majority a b c in
      [u32 (t1 + t2); a; b; c; u32 (d + t1); e; f; g]
  | _ => st
  end.

Definition compress (st block : list Z) : list Z :=
  let w := reverse (schedule 48 (reverse block)) in
  zip_with (λ x y, u32 (x + y)) st (fold_left sha_round (zip round_constants w) st).

Definition sha256 (s : string) : list Z :=
  let ws := words (pad (bytes_of s)) in
  fold_left compress (blocks (length ws) ws) initial_state.

(** ** Hexadecimal *)

Definition hex_digit (n : Z) : Ascii.ascii :=
  nth (Z.to_nat (n mod 16)) (String.list_ascii_of_string "0123456789abcdef") Ascii.zero.

Definition hex_word (w : Z) : list Ascii.ascii := (λ i, hex_digit (Z.shiftr w (4 * (7 - i)))) <$> seqZ 0 8.

Definition digest (s : string) : string := String.string_of_list_ascii (mjoin (hex_word <$> sha256 s)).

(** The standard's vectors. *)
Example digest_abc :
  digest "abc" = "ba7816bf8f01cfea414140de5dae2223b00361a396177a9cb410ff61f20015ad"%string.
Proof. vm_compute. reflexivity. Qed.

Example digest_two_blocks :
  digest "abcdbcdecdefdefgefghfghighijhijkijkljklmklmnlmnomnopnopq"
  = "248d6a61d20638b8e5c026930c3e6039a33ce45964ff2167f6ecedd419db06c1"%string.
Proof. vm_compute. reflexivity. Qed.

(** ** The shape of a digest *)

Lemma length_compress st block : length st = 8%nat → length (compress st block) = 8%nat.
Proof.
  intros H. unfold compress. rewrite length_zip_with, H.
  assert (∀ l st0, length st0 = 8%nat → length (fold_left sha_round l st0) = 8%nat) as E.
  { induction l as [|kw l IH]; intros st0 H0; simpl; [done|]. apply IH.
    do 9 (destruct st0 as [|? st0]; try done). }
  rewrite (E _ st H). lia.
Qed.

Lemma length_sha256 s : length (sha256 s) = 8%nat.
Proof.
  unfold sha256. generalize (blocks (length (words (pad (bytes_of s)))) (words (pad (bytes_of s)))).
  assert (length initial_state = 8%nat) as H by reflexivity. revert H. generalize initial_state.
  intros st H l. revert st H. induction l as [|b l IH]; intros st H; simpl; [done|].
  apply IH, length_compress, H.
Qed.

Definition hexadecimal (s : string) : Prop :=
  Forall (λ a, a ∈ String.list_ascii_of_string "0123456789abcdef") (String.list_ascii_of_string s).

Lemma hex_digit_in n : hex_digit n ∈ String.list_ascii_of_string "0123456789abcdef".
Proof.
  unfold hex_digit.
  assert (Z.to_nat (n mod 16) < 16)%nat as H by (pose proof (Z.mod_pos_bound n 16); lia).
  revert H. generalize (Z.to_nat (n mod 16)). intros k H.
  apply list_elem_of_In, nth_In. simpl. lia.
Qed.

Lemma digest_hex s : hexadecimal (digest s).
Proof.
  unfold hexadecimal, digest. rewrite String.list_ascii_of_string_of_list_ascii.
  apply list.Forall_forall. intros a Ha%list_elem_of_join. destruct Ha as (l & Ha & Hl).
  apply list_elem_of_fmap in Hl as (w & -> & _). apply list_elem_of_fmap in Ha as (i & -> & _).
  apply hex_digit_in.
Qed.

Lemma digest_nonempty s : digest s ≠ ""%string.
Proof.
  unfold digest. pose proof (length_sha256 s) as H. destruct (sha256 s) as [|w l]; [done|].
  rewrite fmap_cons. simpl. discriminate.
Qed.
