(* ===== verification/Json.v ===== *)
(** * Go values as JSON text

    What [encoding/json] does with the values the audit records carry: the text
    [Marshal] writes, and the value [Decode] gives back for it.  Decoding into an
    [interface{}] is not the inverse of encoding: integers come back as
    [float64], and a byte that is not UTF-8 comes back as U+FFFD. *)

From stdpp Require Import pretty.
From S2P Require Import Prelude.

(** ** UTF-8 (unicode/utf8) *)

Definition code (c : Ascii.ascii) : Z := Z.of_N (Ascii.N_of_ascii c).

Definition within (lo hi : Z) (c : Ascii.ascii) : bool := (lo <=? code c) && (code c <=? hi).

Definition low6 (c : Ascii.ascii) : Z := code c - 128.

(** The ranges of the second byte after each first byte ([utf8.acceptRanges]). *)
Definition second_ok3 (b0 : Z) (c1 : Ascii.ascii) : bool :=
  if b0 =? 0xE0 then within 0xA0 0xBF c1
  else if b0 =? 0xED then within 0x80 0x9F c1
  else within 0x80 0xBF c1.

Definition second_ok4 (b0 : Z) (c1 : Ascii.ascii) : bool :=
  if b0 =? 0xF0 then within 0x90 0xBF c1
  else if b0 =? 0xF4 then within 0x80 0x8F c1
  else within 0x80 0xBF c1.

(** One rune with its text: [None] is a byte that starts no valid sequence. *)
Definition chunk : Type := option Z * string.

Definition next2 (c0 : Ascii.ascii) (s1 : string) : option (chunk * string) :=
  match s1 with
  | String c1 s2 =>
      if within 0xC2 0xDF c0 && within 0x80 0xBF c1 then
        Some ((Some ((code c0 - 0xC0) * 64 + low6 c1), String c0 (String c1 EmptyString)), s2)
      else None
  | _ => None
  end.

Definition next3 (c0 : Ascii.ascii) (s1 : string) : option (chunk * string) :=
  match s1 with
  | String c1 (String c2 s3) =>
      if within 0xE0 0xEF c0 && second_ok3 (code c0) c1 && within 0x80 0xBF c2 then
        Some ((Some (((code c0 - 0xE0) * 64 + low6 c1) * 64 + low6 c2),
               String c0 (String c1 (String c2 EmptyString))), s3)
      else None
  | _ => None
  end.

Definition next4 (c0 : Ascii.ascii) (s1 : string) : option (chunk * string) :=
  match s1 with
  | String c1 (String c2 (String c3 s4)) =>
      if within 0xF0 0xF4 c0 && second_ok4 (code c0) c1 && within 0x80 0xBF c2 && within 0x80 0xBF c3 then
        Some ((Some ((((code c0 - 0xF0) * 64 + low6 c1) * 64 + low6 c2) * 64 + low6 c3),
               String c0 (String c1 (String c2 (String c3 EmptyString)))), s4)
      else None
  | _ => None
  end.

Definition next_rune (c0 : Ascii.ascii) (s1 : string) : chunk * string :=
  if code c0 <? 0x80 then ((Some (code c0), String c0 EmptyString), s1)
  else default ((None, String c0 EmptyString), s1)
         (match next2 c0 s1 with Some r => Some r | None =>
          match next3 c0 s1 with Some r => Some r | None => next4 c0 s1 end end).

Fixpoint runes_fuel (fuel : nat) (s : string) : list chunk :=
  match fuel, s with
  | S f, String c0 s1 => let (ch, rest) := next_rune c0 s1 in ch :: runes_fuel f rest
  | _, _ => []
  end.

Definition runes (s : string) : list chunk := runes_fuel (String.length s) s.

(** The rune a [range] loop sees. *)
Definition rune_of (ch : chunk) : Z := default 0xFFFD ch.1.

Definition ascii_chunk (a : Ascii.ascii) : chunk := (Some (code a), String a EmptyString).

Definition text (l : list chunk) : string := foldr (λ ch t, ch.2 ++ t)%string EmptyString l.

(** [utf8.ValidString]. *)
Definition valid (s : string) : bool := forallb (λ ch, bool_decide (is_Some ch.1)) (runes s).

(** U+FFFD. *)
Definition replacement : string :=
  String (Ascii.ascii_of_nat 0xEF) (String (Ascii.ascii_of_nat 0xBF) (String (Ascii.ascii_of_nat 0xBD) EmptyString)).

(** What a string is after its JSON encoding is decoded. *)
Definition coerce (s : string) : string :=
  text ((λ ch, match ch.1 with Some _ => ch | None => (None, replacement) end) <$> runes s).

(** ** Strings as JSON text *)

Definition hex4 (n : Z) : string :=
  String.string_of_list_ascii
    ((λ i, nth (Z.to_nat (Z.shiftr n (4 * (3 - i)) mod 16)) (String.list_ascii_of_string "0123456789abcdef") Ascii.zero)
       <$> seqZ 0 4).

Definition backslash (s : string) : string := String (Ascii.ascii_of_nat 92) s.

(** [html] is [SetEscapeHTML]: true in [Marshal], false in the ledger's encoder. *)
Definition quote_rune (html : bool) (ch : chunk) : string :=
  match ch.1 with
  | None => backslash "ufffd"
  | Some r =>
      if (r =? 34) || (r =? 92) then backslash ch.2
      else if r =? 8 then backslash "b"
      else if r =? 12 then backslash "f"
      else if r =? 10 then backslash "n"
      else if r =? 13 then backslash "r"
      else if r =? 9 then backslash "t"
      else if (r <? 32) || (html && ((r =? 60) || (r =? 62) || (r =? 38))) then backslash ("u" ++ hex4 r)
      else if (r =? 0x2028) || (r =? 0x2029) then backslash ("u" ++ hex4 r)
      else ch.2
  end.

Definition dquote : string := String (Ascii.ascii_of_nat 34) EmptyString.

Definition quote (html : bool) (s : string) : string :=
  (dquote ++ foldr (λ ch t, quote_rune html ch ++ t) EmptyString (runes s) ++ dquote)%string.

(** ** Numbers

    A number decoded into an [interface{}] is a [float64]. *)

Definition round64 (z : Z) : Z :=
  if Z.abs z <=? 2^53 then z
  else let p := 2^(Z.log2 (Z.abs z) - 52) in
       let q := Z.abs z / p in let r := Z.abs z mod p in
       let q' := if (p <? 2 * r) || ((2 * r =? p) && Z.odd q) then q + 1 else q in
       Z.sgn z * (q' * p).

Fixpoint shortest_loop (fuel : nat) (f lo hi : Z) (incl : bool) (p : Z) : Z :=
  match fuel with
  | O => f
  | S fuel' =>
      let ok x := if incl then (lo <=? 4 * x) && (4 * x <=? hi) else (lo <? 4 * x) && (4 * x <? hi) in
      let down := f / p * p in
      let up := down + p in
      if ok down && ok up then
        if (2 * (f - down) <? p) || ((2 * (f - down) =? p) && Z.even (f / p)) then down else up
      else if ok down then down
      else if ok up then up
      else shortest_loop fuel' f lo hi incl (p / 10)
  end.

(** The shortest decimal that reads back as the integral [float64] [f > 2^53]
    ([strconv] with precision -1). *)
Definition shortest (f : Z) : Z :=
  let ulp := 2^(Z.log2 f - 52) in
  let m := f / ulp in
  let hi := 4 * f + 2 * ulp in
  let lo := 4 * f - (if m =? 2^52 then ulp else 2 * ulp) in
  shortest_loop 25 f lo hi (Z.even m) (10^24).

Definition ftoa (f : Z) : string :=
  if Z.abs f <=? 2^53 then pretty f else pretty (Z.sgn f * shortest (Z.abs f)).

(** ** Values

    The dynamic types the audit records' [Params] have.  A [float64] is given by
    its shortest text; a map is its entries in the order of the keys, each once. *)

Inductive value : Type :=
| VNil
| VBool (b : bool)
| VInt (z : Z)                                (* int, int64 *)
| VFloat (t : string)                         (* float64 *)
| VStr (s : string)
| VStrs (l : list string)                     (* []string *)
| VList (l : list value)                      (* []interface{} *)
| VStrMap (m : list (string * string))        (* map[string]string *)
| VMap (m : list (string * value)).           (* map[string]interface{} *)

Definition commas (l : list string) : string := String.concat "," l.

(** [json.Marshal]. *)
Fixpoint marshal (html : bool) (v : value) : string :=
  match v with
  | VNil => "null"
  | VBool b => if b then "true" else "false"
  | VInt z => pretty z
  | VFloat t => t
  | VStr s => quote html s
  | VStrs l => "[" ++ commas (quote html <$> l) ++ "]"
  | VList l => "[" ++ commas (marshal html <$> l) ++ "]"
  | VStrMap m => "{" ++ commas ((λ kv, quote html kv.1 ++ ":" ++ quote html kv.2) <$> m) ++ "}"
  | VMap m => "{" ++ commas ((λ kv, quote html kv.1 ++ ":" ++ marshal html kv.2) <$> m) ++ "}"
  end%string.

(** Assignment to a map key. *)
Fixpoint kv_insert {A} (k : string) (v : A) (m : list (string * A)) : list (string * A) :=
  match m with
  | [] => [(k, v)]
  | kv :: m' =>
      match String.compare k kv.1 with
      | Lt => (k, v) :: m
      | Eq => (k, v) :: m'
      | Gt => kv :: kv_insert k v m'
      end
  end.

Definition kv_of_list {A} (l : list (string * A)) : list (string * A) :=
  fold_left (λ m kv, kv_insert kv.1 kv.2 m) l [].

(** The value [Decode] builds from the text of [v]. *)
Fixpoint decoded (v : value) : value :=
  match v with
  | VNil => VNil
  | VBool b => VBool b
  | VInt z => VFloat (ftoa (round64 z))
  | VFloat t => VFloat t
  | VStr s => VStr (coerce s)
  | VStrs l => VList ((λ s, VStr (coerce s)) <$> l)
  | VList l => VList (decoded <$> l)
  | VStrMap m => VMap (kv_of_list ((λ kv, (coerce kv.1, VStr (coerce kv.2))) <$> m))
  | VMap m => VMap (kv_of_list ((λ kv, (coerce kv.1, decoded kv.2)) <$> m))
  end.

(** ** Decoding a string *)

Lemma next_rune_split c s ch rest : next_rune c s = (ch, rest) → (ch.2 ++ rest)%string = String c s.
Proof.
  unfold next_rune, next2, next3, next4. repeat case_match; intros; simplify_eq/=; done.
Qed.

Lemma next_rune_length c s ch rest :
  next_rune c s = (ch, rest) → (String.length rest ≤ String.length s)%nat.
Proof.
  unfold next_rune, next2, next3, next4. repeat case_match; intros; simplify_eq/=; lia.
Qed.

Lemma runes_text fuel s : (String.length s ≤ fuel)%nat → text (runes_fuel fuel s) = s.
Proof.
  revert s. induction fuel as [|f IH]; intros [|c s] H; simpl in *; [done|lia|done|].
  destruct (next_rune c s) as [ch rest] eqn:E. simpl.
  rewrite IH by (apply next_rune_length in E; lia). by apply next_rune_split.
Qed.

Lemma coerce_valid s : valid s = true → coerce s = s.
Proof.
  intros H. unfold coerce. rewrite <- (runes_text (String.length s) s) at 2 by lia. f_equal.
  unfold valid in H.
  assert (∀ l, forallb (λ ch : chunk, bool_decide (is_Some ch.1)) l = true →
               (λ ch : chunk, match ch.1 with Some _ => ch | None => (None, replacement) end) <$> l = l) as E.
  { induction l as [|[[r|] t] l IH]; intros Hl; [done| |done]. rewrite fmap_cons, IH by exact Hl. done. }
  by apply E.
Qed.

(** ASCII text is valid. *)
Definition ascii_text (s : string) : Prop := Forall (λ a, code a < 0x80) (String.list_ascii_of_string s).

Lemma valid_fuel_ascii fuel s :
  ascii_text s → forallb (λ ch : chunk, bool_decide (is_Some ch.1)) (runes_fuel fuel s) = true.
Proof.
  revert s. induction fuel as [|f IH]; intros [|c s] H; simpl; try done.
  apply list.Forall_cons in H as [Hc H]. unfold next_rune. rewrite (proj2 (Z.ltb_lt _ _) Hc). simpl.
  apply IH, H.
Qed.

Lemma valid_ascii s : ascii_text s → valid s = true.
Proof. apply valid_fuel_ascii. Qed.

(** ** Well-formed values *)

Fixpoint keys_sorted (l : list string) : bool :=
  match l with
  | [] => true
  | k :: l' => forallb (λ k', match String.compare k k' with Lt => true | _ => false end) l' && keys_sorted l'
  end.

(** What survives the trip through JSON: UTF-8 strings, and integers a
    [float64] holds exactly. *)
Fixpoint wf_value (v : value) : bool :=
  match v with
  | VNil | VBool _ | VFloat _ => true
  | VInt z => Z.abs z <=? 2^53
  | VStr s => valid s
  | VStrs l => forallb valid l
  | VList l => forallb wf_value l
  | VStrMap m => keys_sorted m.*1 && forallb (λ kv, valid kv.1 && valid kv.2) m
  | VMap m => keys_sorted m.*1 && forallb (λ kv, valid kv.1 && wf_value kv.2) m
  end.

(** Induction through the containers. *)
Lemma value_rect' (P : value → Prop) :
  P VNil → (∀ b, P (VBool b)) → (∀ z, P (VInt z)) → (∀ t, P (VFloat t)) → (∀ s, P (VStr s)) →
  (∀ l, P (VStrs l)) → (∀ l, Forall P l → P (VList l)) → (∀ m, P (VStrMap m)) →
  (∀ m, Forall (λ kv, P kv.2) m → P (VMap m)) → ∀ v, P v.
Proof.
  intros H1 H2 H3 H4 H5 H6 H7 H8 H9. fix IH 1. intros [|b|z|t|s|l|l|m|m].
  - exact H1.
  - apply H2.
  - apply H3.
  - apply H4.
  - apply H5.
  - apply H6.
  - apply H7. induction l as [|v l IHl]; constructor; [apply IH|exact IHl].
  - apply H8.
  - apply H9. induction m as [|kv m IHm]; constructor; [apply IH|exact IHm].
Qed.

Lemma kv_insert_last {A} k (v : A) m :
  Forall (λ kv, String.compare kv.1 k = Lt) m → kv_insert k v m = m ++ [(k, v)].
Proof.
  induction 1 as [|kv m Hkv _ IH]; [done|]. simpl.
  rewrite String.compare_antisym, Hkv. simpl. by rewrite IH.
Qed.

Lemma keys_sorted_app l l' :
  keys_sorted (l ++ l') = true → ∀ k k', k ∈ l → k' ∈ l' → String.compare k k' = Lt.
Proof.
  induction l as [|h l IH]; simpl; intros H k k' Hk Hk'; [by apply elem_of_nil in Hk|].
  apply andb_prop in H as [H Hs]. apply elem_of_cons in Hk as [->|Hk].
  - rewrite forallb_app in H. apply andb_prop in H as [_ H].
    rewrite forallb_forall in H. specialize (H k'). rewrite <- list_elem_of_In in H.
    specialize (H Hk'). by destruct (String.compare h k').
  - by eapply IH.
Qed.

Lemma kv_of_list_sorted {A} (l : list (string * A)) : keys_sorted l.*1 = true → kv_of_list l = l.
Proof.
  unfold kv_of_list. change l with ([] ++ l) at 1 3.
  generalize (@nil (string * A)) as acc. induction l as [|[k v] l IH]; intros acc Hs; simpl.
  - by rewrite app_nil_r.
  - rewrite kv_insert_last.
    + rewrite (cons_middle (k, v) acc l), app_assoc. apply IH. by rewrite <- app_assoc.
    + apply list.Forall_forall. intros kv Hkv. rewrite fmap_app in Hs.
      eapply keys_sorted_app; [exact Hs|by apply list_elem_of_fmap_2|simpl; left].
Qed.

(** Reading a well-formed value back and encoding it again gives the same text. *)
Lemma forallb_cons_inv {A} (f : A → bool) x l : forallb f (x :: l) = true → f x = true ∧ forallb f l = true.
Proof. apply andb_prop. Qed.

Lemma ftoa_round64 z : Z.abs z ≤ 2^53 → ftoa (round64 z) = pretty z.
Proof. intros H. unfold round64, ftoa. by rewrite !(proj2 (Z.leb_le _ _) H). Qed.

Lemma decoded_keys {A B} (f : A → B) (g : A → bool) (m : list (string * A)) :
  keys_sorted m.*1 && forallb (λ kv, valid kv.1 && g kv.2) m = true →
  kv_of_list ((λ kv, (coerce kv.1, f kv.2)) <$> m) = prod_map id f <$> m.
Proof.
  intros [Hs Hv]%andb_prop.
  assert ((λ kv : string * A, (coerce kv.1, f kv.2)) <$> m = prod_map id f <$> m) as ->.
  { clear Hs. induction m as [|[k x] m IH]; [done|]. apply forallb_cons_inv in Hv as [[Hk _]%andb_prop Hv].
    rewrite !fmap_cons, IH by done. simpl in *. by rewrite coerce_valid. }
  apply kv_of_list_sorted. rewrite <- list_fmap_compose. exact Hs.
Qed.

Lemma marshal_decoded html v : wf_value v = true → marshal html (decoded v) = marshal html v.
Proof.
  induction v as [|b|z|t|s|l|l IH|m|m IH] using value_rect'; simpl; intros Hv; try done.
  - apply ftoa_round64. by apply Z.leb_le.
  - by rewrite coerce_valid.
  - do 3 f_equal. induction l as [|s l IHl]; [done|]. apply forallb_cons_inv in Hv as [Hs Hv].
    rewrite !fmap_cons. simpl. by rewrite coerce_valid, IHl.
  - do 3 f_equal. induction IH as [|v l Hv1 _ IHl]; [done|]. apply forallb_cons_inv in Hv as [Hs Hv].
    rewrite !fmap_cons. by rewrite Hv1, IHl.
  - do 3 f_equal. rewrite (decoded_keys (λ s, VStr (coerce s)) valid) by done. rewrite <- list_fmap_compose.
    apply andb_prop in Hv as [_ Hv]. induction m as [|[k s] m IHm]; [done|].
    apply forallb_cons_inv in Hv as [[Hk Hs]%andb_prop Hv]. rewrite !fmap_cons, IHm by done. simpl in *.
    by rewrite coerce_valid.
  - do 3 f_equal. rewrite (decoded_keys decoded wf_value) by done. rewrite <- list_fmap_compose.
    apply andb_prop in Hv as [_ Hv]. induction IH as [|[k w] m Hw _ IHm]; [done|].
    apply forallb_cons_inv in Hv as [[Hk Hs]%andb_prop Hv]. rewrite !fmap_cons, IHm by done. simpl in *.
    by rewrite Hw.
Qed.
