(* ===== verification/Strconv.v ===== *)
(** * Numbers, fields and durations as text

    [strings.Fields], [strings.TrimSpace], [strconv.ParseInt], [strconv.FormatInt] (stdpp's [pretty] on integers) and
    [time.ParseDuration], with the floating-point arithmetic the latter does on a
    fraction. *)

From stdpp Require Import pretty.
From S2P Require Import Prelude Json.

(** ** Spaces *)

(** [strings.Fields] on the runes [unicode.IsSpace] accepts. *)
Definition is_space (r : Z) : bool :=
  ((9 <=? r) && (r <=? 13)) || (r =? 32) || (r =? 0x85) || (r =? 0xA0) || (r =? 0x1680) ||
  ((0x2000 <=? r) && (r <=? 0x200a)) || (r =? 0x2028) || (r =? 0x2029) || (r =? 0x202f) || (r =? 0x205f) || (r =? 0x3000).

Fixpoint fields_of (l : list chunk) (cur : string) : list string :=
  match l with
  | [] => if bool_decide (cur = EmptyString) then [] else [cur]
  | ch :: l' =>
      if is_space (rune_of ch)
      then (if bool_decide (cur = EmptyString) then [] else [cur]) ++ fields_of l' EmptyString
      else fields_of l' (cur ++ ch.2)%string
  end.

Definition Fields (s : string) : list string := fields_of (runes s) EmptyString.

(** [strings.TrimSpace]. *)
Fixpoint drop_space (l : list chunk) : list chunk :=
  match l with ch :: l' => if is_space (rune_of ch) then drop_space l' else l | [] => [] end.

Definition TrimSpace (s : string) : string := text (reverse (drop_space (reverse (drop_space (runes s))))).

(** ** Integers *)

(** [strconv.ParseInt] in base 10, 64 bits. *)
Fixpoint parse_digits (v : Z) (l : list Ascii.ascii) : option Z :=
  match l with
  | [] => Some v
  | a :: l' => if (48 <=? code a) && (code a <=? 57) then parse_digits (v * 10 + (code a - 48)) l' else None
  end.

Definition ParseInt (s : string) : option Z :=
  let '(neg, ds) :=
    match String.list_ascii_of_string s with
    | a :: l => if code a =? 45 then (true, l) else if code a =? 43 then (false, l) else (false, a :: l)
    | [] => (false, [])
    end in
  match ds with
  | [] => None
  | _ => v ← parse_digits 0 ds;
         let z := if neg : bool then - v else v in
         if (- 2^63 <=? z) && (z <? 2^63) then Some z else None
  end.

(** ** Durations (time.ParseDuration)

    In nanoseconds.  A fraction is scaled in [float64]: a positive one is a pair
    of a 53-bit integer and a power of two. *)

Definition float64 : Type := Z * Z.

(** The nearest [float64] to [n/d], ties to even. *)
Definition fl_round (n d : Z) : float64 :=
  if n =? 0 then (0, 0) else
  let e0 := Z.log2 n - Z.log2 d - 52 in
  let scaled e := if 0 <=? e then (n, d * 2^e) else (n * 2^(-e), d) in
  let e := let '(a, b) := scaled e0 in if a / b <? 2^52 then e0 - 1 else e0 in
  let '(a, b) := scaled e in
  let q := a / b in
  let r := 2 * (a mod b) in
  ((if (b <? r) || ((b =? r) && Z.odd q) then q + 1 else q), e).

Definition fl_of (z : Z) : float64 := fl_round z 1.
Definition fl_mul (x y : float64) : float64 :=
  let '(m, e) := x in let '(n, f) := y in
  if 0 <=? e + f then fl_round (m * n * 2^(e + f)) 1 else fl_round (m * n) (2^(-(e + f))).
Definition fl_div (x y : float64) : float64 :=
  let '(m, e) := x in let '(n, f) := y in
  if 0 <=? e - f then fl_round (m * 2^(e - f)) n else fl_round m (n * 2^(-(e - f))).
(** [uint64(x)] truncates. *)
Definition fl_trunc (x : float64) : Z := let '(m, e) := x in if 0 <=? e then m * 2^e else m / 2^(-e).

Definition is_digit (a : Ascii.ascii) : bool := (48 <=? code a) && (code a <=? 57).

(** The leading digits; none if they exceed 2^63. *)
Fixpoint leadingInt (x : Z) (l : list Ascii.ascii) : option (Z * list Ascii.ascii) :=
  match l with
  | a :: l' =>
      if is_digit a then
        if 2^63 / 10 <? x then None else
        let x := x * 10 + (code a - 48) in if 2^63 <? x then None else leadingInt x l'
      else Some (x, l)
  | [] => Some (x, [])
  end.

(** The digits of a fraction and their scale; past the capacity they are skipped. *)
Fixpoint leadingFraction (x : Z) (scale : float64) (overflow : bool) (l : list Ascii.ascii) :
    Z * float64 * list Ascii.ascii :=
  match l with
  | a :: l' =>
      if is_digit a then
        if overflow then leadingFraction x scale true l'
        else if MaxInt64 / 10 <? x then leadingFraction x scale true l'
        else let y := x * 10 + (code a - 48) in
             if 2^63 <? y then leadingFraction x scale true l'
             else leadingFraction y (fl_mul scale (fl_of 10)) false l'
      else (x, scale, l)
  | [] => (x, scale, [])
  end.

(** The unit runs up to the next dot or digit. *)
Fixpoint take_unit (l : list Ascii.ascii) : list Ascii.ascii * list Ascii.ascii :=
  match l with
  | a :: l' => if (code a =? 46) || is_digit a then ([], l) else let '(u, r) := take_unit l' in (a :: u, r)
  | [] => ([], [])
  end.

Definition byte (z : Z) : Ascii.ascii := Ascii.ascii_of_nat (Z.to_nat z).

(** Micro may be written with U+00B5 or U+03BC. *)
Definition unit_ns (u : string) : option Z :=
  if bool_decide (u = "ns"%string) then Some 1
  else if bool_decide (u = "us"%string) then Some (10^3)
  else if bool_decide (u = String (byte 0xC2) (String (byte 0xB5) "s")) then Some (10^3)
  else if bool_decide (u = String (byte 0xCE) (String (byte 0xBC) "s")) then Some (10^3)
  else if bool_decide (u = "ms"%string) then Some (10^6)
  else if bool_decide (u = "s"%string) then Some (10^9)
  else if bool_decide (u = "m"%string) then Some (60 * 10^9)
  else if bool_decide (u = "h"%string) then Some (3600 * 10^9)
  else None.

(** One number with its unit: the duration so far and the rest of the text. *)
Definition duration_part (d : Z) (l : list Ascii.ascii) : option (Z * list Ascii.ascii) :=
  match l with
  | a :: _ =>
      if negb ((code a =? 46) || is_digit a) then None else
      '(v, l1) ← leadingInt 0 l;
      let pre := negb (length l1 =? length l)%nat in
      let '(f, scale, l2, post) :=
        match l1 with
        | b :: l1' =>
            if code b =? 46 then
              let '(f, scale, l2) := leadingFraction 0 (fl_of 1) false l1' in
              (f, scale, l2, negb (length l2 =? length l1')%nat)
            else (0, fl_of 1, l1, false)
        | [] => (0, fl_of 1, l1, false)
        end in
      if negb pre && negb post then None else
      let '(u, l3) := take_unit l2 in
      unit ← unit_ns (String.string_of_list_ascii u);
      if 2^63 / unit <? v then None else
      let v := v * unit in
      let v := if 0 <? f then v + fl_trunc (fl_mul (fl_of f) (fl_div (fl_of unit) scale)) else v in
      if (0 <? f) && (2^63 <? v) then None else
      let d := u64 (d + v) in if 2^63 <? d then None else Some (d, l3)
  | [] => None
  end.

(** [fuel]: each part takes at least one character. *)
Fixpoint duration_parts (fuel : nat) (d : Z) (l : list Ascii.ascii) : option Z :=
  match l, fuel with
  | [], _ => Some d
  | _, O => None
  | _, S fuel' => '(d, l) ← duration_part d l; duration_parts fuel' d l
  end.

Definition ParseDuration (s : string) : option Z :=
  let l := String.list_ascii_of_string s in
  let '(neg, l) :=
    match l with
    | a :: l' => if (code a =? 45) || (code a =? 43) then (code a =? 45, l') else (false, l)
    | [] => (false, l)
    end in
  match l with
  | [] => None
  | [a] => if code a =? 48 then Some 0 else None      (* a bare 0 *)
  | _ =>
      d ← duration_parts (length l) 0 l;
      if neg : bool then Some (- d) else if MaxInt64 <? d then None else Some d
  end.

(** ** Decimal text *)

Definition digit_char (a : Ascii.ascii) : bool := (48 <=? code a) && (code a <=? 57).

Lemma pretty_char x : digit_char (pretty_N_char (x mod 10)) = true ∧ code (pretty_N_char (x mod 10)) - 48 = Z.of_N (x mod 10).
Proof.
  assert (x mod 10 < 10)%N as H by (apply N.mod_lt; lia). revert H. generalize (x mod 10)%N as d. intros d H.
  assert (d = 0 ∨ d = 1 ∨ d = 2 ∨ d = 3 ∨ d = 4 ∨ d = 5 ∨ d = 6 ∨ d = 7 ∨ d = 8 ∨ d = 9)%N as Hd by lia.
  repeat destruct Hd as [->|Hd]; try (by split; vm_compute). subst d. by split; vm_compute.
Qed.

Definition digits_text (s : string) : Prop := Forall (λ a, digit_char a = true) (String.list_ascii_of_string s).

Lemma pretty_N_go_digits x s : digits_text s → digits_text (pretty_N_go x s).
Proof.
  revert s. induction (N.lt_wf_0 x) as [x _ IH]. intros s Hs. destruct (decide (0 < x)%N) as [Hx|Hx].
  - rewrite pretty_N_go_step by lia. apply IH; [apply N.div_lt; lia|]. constructor; [apply pretty_char|done].
  - replace x with 0%N by lia. by rewrite pretty_N_go_0.
Qed.

Lemma pretty_N_digits (x : N) : digits_text (pretty x).
Proof.
  unfold pretty, pretty_N. destruct (decide (x = 0%N)); [by repeat constructor|].
  apply pretty_N_go_digits. constructor.
Qed.

Lemma parse_pretty_go x s :
  parse_digits 0 (String.list_ascii_of_string (pretty_N_go x s)) = parse_digits (Z.of_N x) (String.list_ascii_of_string s).
Proof.
  revert s. induction (N.lt_wf_0 x) as [x _ IH]. intros s. destruct (decide (0 < x)%N) as [Hx|Hx].
  - rewrite pretty_N_go_step by lia. rewrite IH by (apply N.div_lt; lia).
    destruct (pretty_char x) as [Hd Hc]. simpl. unfold digit_char in Hd. rewrite Hd, Hc. f_equal.
    pose proof (N.div_mod x 10). lia.
  - replace x with 0%N by lia. by rewrite pretty_N_go_0.
Qed.

Lemma parse_pretty (x : N) : parse_digits 0 (String.list_ascii_of_string (pretty x)) = Some (Z.of_N x).
Proof.
  unfold pretty, pretty_N. destruct (decide (x = 0%N)) as [->|]; [done|]. by rewrite parse_pretty_go.
Qed.

Lemma pretty_Z_nonneg z : 0 ≤ z → pretty z = pretty (Z.to_N z).
Proof. intros H. destruct z; [done|done|lia]. Qed.

Lemma digits_ascii s : digits_text s → ascii_text s.
Proof.
  intros H. eapply list.Forall_impl; [exact H|]. intros a Ha. unfold digit_char in Ha. lia.
Qed.

Lemma pretty_N_nonempty (x : N) : pretty x ≠ EmptyString.
Proof.
  intros H. pose proof (parse_pretty x) as Hp. rewrite H in Hp. simpl in Hp. injection Hp as Hx.
  destruct x; [discriminate H|lia].
Qed.

Lemma ParseInt_pretty z : 0 ≤ z < 2^63 → ParseInt (pretty z) = Some z.
Proof.
  intros Hz. rewrite pretty_Z_nonneg by lia. unfold ParseInt.
  pose proof (pretty_N_digits (Z.to_N z)) as Hd. pose proof (parse_pretty (Z.to_N z)) as Hp.
  destruct (String.list_ascii_of_string (pretty (Z.to_N z))) as [|a l] eqn:E.
  - exfalso. apply (pretty_N_nonempty (Z.to_N z)). by destruct (pretty (Z.to_N z)).
  - unfold digits_text in Hd. rewrite E in Hd. apply list.Forall_cons in Hd as [Ha _]. unfold digit_char in Ha.
    rewrite (proj2 (Z.eqb_neq (code a) 45)), (proj2 (Z.eqb_neq (code a) 43)) by lia.
    rewrite Hp. simpl. rewrite Z2N.id by lia.
    by rewrite (proj2 (Z.leb_le _ _)), (proj2 (Z.ltb_lt _ _)) by lia.
Qed.


Lemma ParseInt_neg z : 0 < z ≤ 2^63 → ParseInt (pretty (- z)) = Some (- z).
Proof.
  intros Hz. unfold ParseInt. destruct z as [|p|p]; [lia| |lia]. change (pretty (- Z.pos p)) with (String (Ascii.ascii_of_nat 45) (pretty (N.pos p))).
  cbn [String.list_ascii_of_string]. change (code (Ascii.ascii_of_nat 45) =? 45) with true. cbn match.
  pose proof (parse_pretty (N.pos p)) as Hp.
  destruct (String.list_ascii_of_string (pretty (N.pos p))) as [|a l] eqn:E.
  - exfalso. apply (pretty_N_nonempty (N.pos p)). by destruct (pretty (N.pos p)).
  - rewrite Hp. simpl. by rewrite (proj2 (Z.leb_le _ _)), (proj2 (Z.ltb_lt _ _)) by lia.
Qed.

(** What [FormatInt] writes, [ParseInt] reads. *)
Lemma ParseInt_FormatInt z : - 2^63 ≤ z < 2^63 → ParseInt (pretty z) = Some z.
Proof.
  intros Hz. destruct (Z.ltb_spec z 0); [|by apply ParseInt_pretty; lia].
  replace z with (- (- z)) by lia. apply ParseInt_neg. lia.
Qed.

Lemma ParseInt_range s z : ParseInt s = Some z → - 2^63 ≤ z < 2^63.
Proof.
  unfold ParseInt. set (p := match String.list_ascii_of_string s with a :: l => _ | [] => _ end). destruct p as [neg ds].
  destruct ds as [|a ds]; [done|]. destruct (parse_digits 0 (a :: ds)) as [w|]; cbn [mbind option_bind]; [|done].
  destruct (_ && _) eqn:E; [|done]. intros [= <-]. bsimp. lia.
Qed.

(** ** Words *)

Lemma runes_ascii s : ascii_text s → runes s = ascii_chunk <$> String.list_ascii_of_string s.
Proof.
  intros H. unfold runes. replace (String.length s) with (length (String.list_ascii_of_string s)).
  2: { clear H. induction s; simpl; auto. }
  revert H. unfold ascii_text. induction s as [|c s IH]; [done|]. simpl. intros [Hc Hs]%list.Forall_cons.
  unfold next_rune. rewrite (proj2 (Z.ltb_lt _ _) Hc). by rewrite IH.
Qed.

Definition word_text (s : string) : Prop :=
  Forall (λ a, code a < 0x80 ∧ is_space (code a) = false) (String.list_ascii_of_string s).

Lemma word_text_ascii s : word_text s → ascii_text s.
Proof. intros H. eapply list.Forall_impl; [exact H|]. by intros a [? _]. Qed.

Lemma digits_word s : digits_text s → word_text s.
Proof.
  intros H. eapply list.Forall_impl; [exact H|]. intros a Ha. unfold digit_char in Ha. unfold is_space. split; [lia|].
  repeat (rewrite orb_false_iff; split); lia.
Qed.

Lemma drop_space_word l : Forall (λ ch, is_space (rune_of ch) = false) l → drop_space l = l.
Proof. destruct 1 as [|ch l Hc _]; [done|]. simpl. by rewrite Hc. Qed.

Lemma TrimSpace_word s : word_text s → TrimSpace s = s.
Proof.
  intros Hw. unfold TrimSpace.
  assert (Forall (λ ch, is_space (rune_of ch) = false) (runes s)) as Hr.
  { rewrite runes_ascii by by apply word_text_ascii. apply Forall_fmap. eapply list.Forall_impl; [exact Hw|]. by intros a [_ Ha]. }
  rewrite (drop_space_word (runes s)) by done. rewrite drop_space_word by by apply Forall_reverse.
  rewrite reverse_involutive. by apply runes_text.
Qed.

(** What durations look like. *)
Example durations :
  ParseDuration <$> ["90s"; "1h30m"; "1.5h"; "-2ms"; "0"; "0.1ns"; ""; "5"; "3 s"; "9223372036854775808ns"]%string =
  [Some 90000000000; Some 5400000000000; Some 5400000000000; Some (-2000000); Some 0; Some 0; None; None; None; None].
Proof. vm_compute. reflexivity. Qed.
