(* ===== verification/Redact.v ===== *)
(** * Redaction of secrets (internal/audit/redact.go)

    Every record is scrubbed before it is hashed and written.  [RedactSecrets]
    rewrites six regular expressions one after the other; [ScrubValue] drops
    secret-named keys and scrubs the strings that remain.  The regular
    expressions run on runes, as [regexp] does: a byte that is not UTF-8 is the
    rune U+FFFD. *)

From S2P Require Import Prelude Json.

(** ** Regular expressions (regexp, leftmost-first)

    The constructs the six patterns use.  A class is a set of runes. *)

Definition class : Type := Z → bool.

Inductive regex : Type :=
| RClass (c : class)
| RSeq (a b : regex)
| ROr (a b : regex)
| RTimes (n : nat) (c : class)        (* c{n} *)
| RAtLeast (n : nat) (c : class).     (* c{n,}, greedy *)

(** The longest prefix in a class. *)
Fixpoint run_of (c : class) (s : list chunk) : nat :=
  match s with
  | ch :: s' => if c (rune_of ch) then S (run_of c s') else O
  | [] => O
  end.

(** The lengths of the prefixes that match, in the order of preference. *)
Fixpoint matches (r : regex) (s : list chunk) : list nat :=
  match r with
  | RClass c => if (1 <=? run_of c s)%nat then [1%nat] else []
  | RSeq a b => i ← matches a s; (λ j, i + j)%nat <$> matches b (drop i s)
  | ROr a b => matches a s ++ matches b s
  | RTimes n c => if (n <=? run_of c s)%nat then [n] else []
  | RAtLeast n c => reverse (seq n (S (run_of c s) - n))
  end.

(** A pattern: an optional ASCII word boundary, the part the replacement keeps
    ("${1}", if any) and the rest. *)
Record pattern := Pattern { p_bound : bool; p_keep : option regex; p_rest : regex }.

Definition between (lo hi : Z) : class := λ r, (lo <=? r) && (r <=? hi).
Definition either (c d : class) : class := λ r, c r || d r.
Definition oneof (l : string) : class := λ r, existsb (λ a, code a =? r) (String.list_ascii_of_string l).

Definition word_rune (r : Z) : bool :=
  between 48 57 r || between 65 90 r || between 97 122 r || (r =? 95).

Definition word_at (s : list chunk) : bool := match s with ch :: _ => word_rune (rune_of ch) | [] => false end.

(** The length of the kept part and of the whole match at this position. *)
Definition match_at (p : pattern) (prev : bool) (s : list chunk) : option (nat * nat) :=
  if p_bound p && Bool.eqb prev (word_at s) then None
  else match p_keep p with
       | None => (λ n, (O, n)) <$> head (matches (p_rest p) s)
       | Some k => head (i ← matches k s; (λ j, (i, i + j)%nat) <$> matches (p_rest p) (drop i s))
       end.

Definition RedactedPlaceholder : string := "[REDACTED]".

(** [ReplaceAllString]; [prev] tells whether the rune before is a word rune. *)
Fixpoint replace (p : pattern) (fuel : nat) (prev : bool) (s : list chunk) : list chunk :=
  match fuel, s with
  | S f, ch :: s' =>
      match match_at p prev s with
      | Some (k, S n) =>
          take k s ++ runes RedactedPlaceholder ++ replace p f (word_at (drop n s)) (drop (S n) s)
      | _ => ch :: replace p f (word_rune (rune_of ch)) s'
      end
  | _, _ => []
  end.

Definition ReplaceAllString (p : pattern) (s : string) : string :=
  text (replace p (length (runes s)) false (runes s)).

(** ** The patterns *)

(** A letter under [(?i)]: U+017F folds to s, U+212A to k. *)
Definition fold_is (c : Z) : class :=
  λ r, (r =? c) || (between 97 122 c && ((r =? c - 32) || ((c =? 115) && (r =? 0x17F)) || ((c =? 107) && (r =? 0x212A)))).

Fixpoint word_ci (w : list Ascii.ascii) (last : regex) : regex :=
  match w with
  | [] => last
  | a :: w' => RSeq (RClass (fold_is (code a))) (word_ci w' last)
  end.

Fixpoint word (w : list Ascii.ascii) (last : regex) : regex :=
  match w with
  | [] => last
  | a :: w' => RSeq (RClass (λ r, r =? code a)) (word w' last)
  end.

Fixpoint words_ci (w : string) (ws : list string) (last : regex) : regex :=
  match ws with
  | [] => word_ci (String.list_ascii_of_string w) last
  | w' :: ws' => ROr (word_ci (String.list_ascii_of_string w) last) (words_ci w' ws' last)
  end.

Definition lower : class := between 97 122.
Definition upper : class := between 65 90.
Definition digits : class := between 48 57.
Definition alnum : class := either (either upper lower) digits.
Definition blank : class := λ r, (r =? 9) || (r =? 10) || (r =? 12) || (r =? 13) || (r =? 32).   (* \s *)

(** Neither blank nor an ampersand, a quote of either kind or an angle bracket. *)
Definition value_rune : class :=
  λ r, negb (blank r || (r =? 38) || (r =? 34) || (r =? 39) || (r =? 60) || (r =? 62)).

(** [A-Za-z0-9\-._~+] under [(?i)]. *)
Definition bearer_rune : class :=
  either alnum (λ r, oneof "-._~+" r || (r =? 0x17F) || (r =? 0x212A)).

Definition chars (s : string) : list Ascii.ascii := String.list_ascii_of_string s.

Definition github_token : pattern :=
  Pattern false None (word (chars "gh") (RSeq (RClass (oneof "pousr")) (word (chars "_") (RAtLeast 36 alnum)))).

Definition aws_key : pattern :=
  Pattern false None (word (chars "AKIA") (RTimes 16 (either digits upper))).

Definition slack_token : pattern :=
  Pattern false None
    (word (chars "xox") (RSeq (RClass (oneof "baprs")) (word (chars "-") (RAtLeast 10 (either alnum (oneof "-")))))).

Definition bearer : pattern :=
  Pattern false None (word_ci (chars "bearer") (RSeq (RAtLeast 1 blank) (RAtLeast 20 bearer_rune))).

Definition equals : regex := RClass (λ r, r =? 61).

Definition query_credential : pattern :=
  Pattern false
    (Some (RSeq (RClass (oneof "?&"))
       (words_ci "token" ["sig"; "signature"; "api_key"; "apikey"; "access_token"; "secret"; "password"; "key"; "auth"]%string equals)))
    (RAtLeast 1 value_rune).

Definition assignment : pattern :=
  Pattern true
    (Some (words_ci "token" ["secret"; "password"; "passwd"; "api_key"; "apikey"; "access_token"; "credential"; "cookie"]%string equals))
    (RAtLeast 4 value_rune).

Definition secretRedactionPatterns : list pattern :=
  [github_token; aws_key; slack_token; bearer; query_credential; assignment].

Definition RedactSecrets (s : string) : string :=
  fold_left (λ s p, ReplaceAllString p s) secretRedactionPatterns s.

(** ** Keys *)

Definition secretKeyDenylist : list string :=
  ["token"; "secret"; "password"; "passwd"; "key"; "credential"; "cookie"; "auth"]%string.

(** [strings.ToLower], as far as a comparison with ASCII words can tell: the two
    runes outside ASCII with an ASCII lower case are U+212A and U+0130; all
    others stay outside ASCII. *)
Definition lower_rune (ch : chunk) : string :=
  if upper (rune_of ch) then String (Ascii.ascii_of_nat (Z.to_nat (rune_of ch + 32))) EmptyString
  else if rune_of ch =? 0x212A then "k"
  else if rune_of ch =? 0x130 then "i"
  else ch.2.

Definition ToLower (s : string) : string := foldr (λ ch t, lower_rune ch ++ t)%string EmptyString (runes s).

(** [strings.Contains]. *)
Fixpoint Contains (s sub : string) : bool :=
  String.prefix sub s || match s with EmptyString => false | String _ s' => Contains s' sub end.

Definition IsSafeSummaryKey (k : string) : bool :=
  negb (existsb (Contains (ToLower k)) secretKeyDenylist).

(** ** Values *)

Fixpoint ScrubValue (v : value) : value :=
  match v with
  | VMap m =>
      VMap (omap (λ kv, if IsSafeSummaryKey kv.1 then Some (kv.1, ScrubValue kv.2) else None) m)
  | VStrMap m =>
      VMap (omap (λ kv, if IsSafeSummaryKey kv.1 then Some (kv.1, VStr (RedactSecrets kv.2)) else None) m)
  | VList l => VList (ScrubValue <$> l)
  | VStrs l => VList ((λ s, VStr (RedactSecrets s)) <$> l)
  | VStr s => VStr (RedactSecrets s)
  | _ => v
  end.
