(* ===== verification/RedactSpec.v ===== *)
(** * What redaction guarantees

    The matcher decides the language of a pattern; a replacement leaves no match
    of its own pattern behind and creates none of another, because the marker's
    brackets belong to no token.  So no GitHub, AWS, Slack or bearer credential
    survives [RedactSecrets], whatever bytes it is given. *)

From S2P Require Import Prelude Json Redact.

(** ** The language of a regular expression *)

Fixpoint lang (r : regex) (w : list chunk) : Prop :=
  match r with
  | RClass c => length w = 1%nat ∧ Forall (λ ch, c (rune_of ch) = true) w
  | RSeq a b => ∃ u v, w = u ++ v ∧ lang a u ∧ lang b v
  | ROr a b => lang a w ∨ lang b w
  | RTimes n c => length w = n ∧ Forall (λ ch, c (rune_of ch) = true) w
  | RAtLeast n c => (n ≤ length w)%nat ∧ Forall (λ ch, c (rune_of ch) = true) w
  end.

Lemma run_of_spec c s n :
  (n ≤ run_of c s)%nat ↔ (n ≤ length s)%nat ∧ Forall (λ ch, c (rune_of ch) = true) (take n s).
Proof.
  revert n. induction s as [|ch s IH]; intros [|n]; simpl.
  - split; [intros _; split; [lia|constructor]|lia].
  - split; [lia|intros [? _]; lia].
  - split; [intros _; split; [lia|constructor]|lia].
  - rewrite list.Forall_cons. destruct (c (rune_of ch)) eqn:E.
    + specialize (IH n). split.
      * intros H. assert (n ≤ run_of c s)%nat as [? ?]%IH by lia. repeat split; [lia|done].
      * intros (? & _ & ?). assert (n ≤ run_of c s)%nat by (apply IH; split; [lia|done]). lia.
    + split; [lia|intros (_ & ? & _); congruence].
Qed.

Lemma take_factor {A} (s : list A) i j :
  (i + j ≤ length s)%nat → take (i + j) s = take i s ++ take j (drop i s).
Proof. intros _. by rewrite take_take_drop. Qed.

(** The matcher finds exactly the prefixes in the language. *)
Lemma matches_lang r s n : n ∈ matches r s ↔ (n ≤ length s)%nat ∧ lang r (take n s).
Proof.
  revert s n. induction r as [c|a IHa b IHb|a IHa b IHb|m c|m c]; intros s n; cbn [matches lang].
  - destruct (1 <=? run_of c s)%nat eqn:E.
    + apply Nat.leb_le, run_of_spec in E as [Hl Hc]. rewrite list_elem_of_singleton. split.
      * intros ->. rewrite length_take. repeat split; [lia|lia|done].
      * intros [H [H' _]]. rewrite length_take in H'. lia.
    + apply Nat.leb_gt in E. split; [intros []%elem_of_nil|]. intros [H [H' Hc]]. rewrite length_take in H'.
      replace n with 1%nat in * by lia. assert (1 ≤ run_of c s)%nat by (apply run_of_spec; split; [lia|done]). lia.
  - rewrite list_elem_of_bind. split.
    + intros (i & Hn & [Hi Ha]%IHa). apply list_elem_of_fmap in Hn as (j & -> & [Hj Hb]%IHb).
      rewrite length_drop in Hj. split; [lia|]. exists (take i s), (take j (drop i s)).
      split; [apply take_factor; lia|done].
    + intros (Hn & u & v & Huv & Hu & Hv). pose proof (f_equal length Huv) as Hlen.
      rewrite length_take, length_app in Hlen. exists (length u).
      assert (s = u ++ v ++ drop n s) as Hs by (rewrite app_assoc, <- Huv; by rewrite take_drop).
      split.
      * apply list_elem_of_fmap. exists (length v). split; [lia|]. apply IHb.
        rewrite Hs, drop_app_length, take_app_length. split; [rewrite length_app; lia|done].
      * apply IHa. rewrite Hs, take_app_length. split; [rewrite length_app; lia|done].
  - rewrite elem_of_app, IHa, IHb. tauto.
  - destruct (m <=? run_of c s)%nat eqn:E.
    + apply Nat.leb_le, run_of_spec in E as [Hl Hc]. rewrite list_elem_of_singleton. split.
      * intros ->. rewrite length_take. repeat split; [lia|lia|done].
      * intros [H [H' _]]. rewrite length_take in H'. lia.
    + apply Nat.leb_gt in E. split; [intros []%elem_of_nil|]. intros [H [H' Hc]]. rewrite length_take in H'.
      replace n with m in * by lia. assert (m ≤ run_of c s)%nat by (apply run_of_spec; split; [lia|done]). lia.
  - rewrite elem_of_reverse, elem_of_seq. split.
    + intros H. assert (n ≤ run_of c s)%nat as [Hl Hc]%run_of_spec by lia.
      rewrite length_take. repeat split; [lia|lia|done].
    + intros [H [H' Hc]]. rewrite length_take in H'.
      assert (n ≤ run_of c s)%nat by (apply run_of_spec; split; [lia|done]). lia.
Qed.

(** ** Factors *)

Definition factor {A} (w s : list A) : Prop := ∃ a b, s = a ++ w ++ b.

Definition clean (r : regex) (s : list chunk) : Prop := ∀ w, factor w s → ¬ lang r w.

Lemma factor_cons {A} (w : list A) x s : factor w (x :: s) → w `prefix_of` (x :: s) ∨ factor w s.
Proof.
  intros ([|y a] & b & H); simpl in H; [left; by exists b|]. right. injection H as -> ->. by exists a, b.
Qed.

Lemma prefix_separator {A} (P : A → Prop) (w x y : list A) e :
  Forall P w → ¬ P e → w `prefix_of` x ++ e :: y → w `prefix_of` x.
Proof.
  intros HP He. revert w HP. induction x as [|z x IH]; intros [|h w] HP [b Hb]; simpl in *.
  - by exists [].
  - injection Hb as -> _. by apply list.Forall_cons in HP as [? _].
  - by exists (z :: x).
  - injection Hb as -> Hb. apply list.Forall_cons in HP as [_ HP].
    destruct (IH w HP) as [b' ->]; [by exists b|by exists b'].
Qed.

Lemma factor_separator {A} (P : A → Prop) (w x y : list A) e :
  Forall P w → ¬ P e → factor w (x ++ e :: y) → factor w x ∨ factor w y.
Proof.
  intros HP He. induction x as [|h x IH]; simpl; intros Hf.
  - apply factor_cons in Hf as [Hp|Hf]; [|by right].
    apply (prefix_separator P w [] y e) in Hp as [b Hb]; [|done..]. left. exists [], b. done.
  - apply factor_cons in Hf as [Hp|Hf].
    + left. apply (prefix_separator P w (h :: x) y e) in Hp as [b Hb]; [|done..]. by exists [], b.
    + destruct (IH Hf) as [(a & b & ->)|?]; [left; by exists (h :: a), b|by right].
Qed.

(** ** Replacement *)

Definition bracket (ch : chunk) : bool := (rune_of ch =? 91) || (rune_of ch =? 93).
Definition plain (ch : chunk) : Prop := bracket ch = false.

(** No class of the expression contains a bracket. *)
Fixpoint no_brackets (r : regex) : bool :=
  match r with
  | RClass c | RTimes _ c | RAtLeast _ c => negb (c 91) && negb (c 93)
  | RSeq a b | ROr a b => no_brackets a && no_brackets b
  end.

Lemma class_plain (c : class) w :
  negb (c 91) && negb (c 93) = true → Forall (λ ch, c (rune_of ch) = true) w → Forall plain w.
Proof.
  intros [H1%negb_true_iff H2%negb_true_iff]%andb_prop Hw. eapply list.Forall_impl; [exact Hw|].
  simpl. intros ch Hch.
  unfold plain, bracket. destruct (Z.eqb_spec (rune_of ch) 91) as [E|]; [congruence|].
  destruct (Z.eqb_spec (rune_of ch) 93) as [E|]; [congruence|done].
Qed.

Lemma lang_plain r w : no_brackets r = true → lang r w → Forall plain w.
Proof.
  revert w. induction r as [c|a IHa b IHb|a IHa b IHb|m c|m c]; intros w Hr; cbn [lang no_brackets] in *.
  - intros [_ H]. by eapply class_plain.
  - apply andb_prop in Hr as [Ha Hb]. intros (u & v & -> & Hu & Hv). apply Forall_app. auto.
  - apply andb_prop in Hr as [Ha Hb]. intros [?|?]; auto.
  - intros [_ H]. by eapply class_plain.
  - intros [_ H]. by eapply class_plain.
Qed.

Definition marker : list chunk := ascii_chunk <$> chars "REDACTED".
Definition left_bracket : chunk := ascii_chunk (Ascii.ascii_of_nat 91).
Definition right_bracket : chunk := ascii_chunk (Ascii.ascii_of_nat 93).

Lemma placeholder_runes : runes RedactedPlaceholder = left_bracket :: marker ++ [right_bracket].
Proof. vm_compute. reflexivity. Qed.

Lemma not_plain_left : ¬ plain left_bracket.
Proof. discriminate. Qed.
Lemma not_plain_right : ¬ plain right_bracket.
Proof. discriminate. Qed.
#[export] Hint Resolve not_plain_left not_plain_right : core.

Lemma marker_shape (x y : list chunk) :
  x ++ runes RedactedPlaceholder ++ y = x ++ left_bracket :: marker ++ right_bracket :: y.
Proof. by rewrite placeholder_runes, <- app_comm_cons, <- app_assoc. Qed.

Lemma replace_prefix p fuel prev s w :
  Forall plain w → w `prefix_of` replace p fuel prev s → w `prefix_of` s.
Proof.
  revert prev s w. induction fuel as [|f IH]; intros prev [|ch s] w Hw; cbn [replace]; try done.
  { intros Hp. apply prefix_nil_inv in Hp as ->. apply prefix_nil. }
  destruct (match_at p prev (ch :: s)) as [[k [|n]]|].
  2: { rewrite marker_shape. intros Hp%(prefix_separator plain); [|done..].
       destruct Hp as [b Hb]. exists (b ++ drop k (ch :: s)). by rewrite app_assoc, <- Hb, take_drop. }
  all: destruct w as [|h w]; [intros _; apply prefix_nil|]; intros Hp; apply prefix_cons_inv_1 in Hp as Hh;
    apply prefix_cons_inv_2 in Hp; subst h; apply list.Forall_cons in Hw as [_ Hw]; apply prefix_cons; eauto.
Qed.

Lemma replace_prefix_cons p fuel prev ch s w :
  w `prefix_of` ch :: replace p fuel prev s → Forall plain w → w `prefix_of` ch :: s.
Proof.
  intros Hp Hw. destruct w as [|h w]; [apply prefix_nil|].
  apply prefix_cons_inv_1 in Hp as Hh. apply prefix_cons_inv_2 in Hp. subst h.
  apply list.Forall_cons in Hw as [_ Hw]. apply prefix_cons. by eapply replace_prefix.
Qed.

(** A replacement makes no new word without brackets, apart from the marker's. *)
Lemma replace_factor p fuel prev s w :
  Forall plain w → factor w (replace p fuel prev s) → factor w s ∨ factor w marker.
Proof.
  intros Hw. assert (∀ (l l' : list chunk), factor w l' → factor w (l ++ l')) as Happ.
  { intros l l' (a & b & ->). exists (l ++ a), b. by rewrite app_assoc. }
  revert prev s. induction fuel as [|f IH]; intros prev [|ch s] Hf; cbn [replace] in Hf; [by left| |by left|].
  { left. destruct Hf as (a & b & Hn). symmetry in Hn. apply app_eq_nil in Hn as [-> Hn].
    apply app_eq_nil in Hn as [-> _]. by exists [], (ch :: s). }
  destruct (match_at p prev (ch :: s)) as [[k [|n]]|].
  2: { rewrite marker_shape in Hf. apply (factor_separator plain) in Hf as [(a & b & Hk)|Hf]; [| |done..].
       - left. exists a, (b ++ drop k (ch :: s)). rewrite <- (take_drop k (ch :: s)) at 1. rewrite Hk.
         by rewrite <- !app_assoc.
       - apply (factor_separator plain) in Hf as [Hf|Hf]; [by right| |done..].
         apply IH in Hf as [Hf|Hf]; [left|by right]. rewrite <- (take_drop (S n) (ch :: s)). by apply Happ. }
  all: apply factor_cons in Hf as [Hf|Hf];
    [left; apply (replace_prefix_cons) in Hf as [b ->]; [by exists [], b|done]
    |apply IH in Hf as [Hf|Hf]; [left; by apply (Happ [ch])|by right]].
Qed.

(** A replacement leaves no match of its own pattern. *)
Lemma replace_clean p fuel prev s :
  p_bound p = false → p_keep p = None → no_brackets (p_rest p) = true → ¬ lang (p_rest p) [] →
  clean (p_rest p) marker → (length s ≤ fuel)%nat → clean (p_rest p) (replace p fuel prev s).
Proof.
  intros Hb Hk Hn He Hm. revert prev s. induction fuel as [|f IH]; intros prev [|ch s] Hlen w Hf Hw;
    cbn [replace] in Hf; simpl in Hlen; [|lia| |].
  1,2: destruct Hf as (a & b & Hnil); symmetry in Hnil; apply app_eq_nil in Hnil as [_ Hnil];
    apply app_eq_nil in Hnil as [-> _]; done.
  pose proof (lang_plain _ _ Hn Hw) as Hp.
  destruct (match_at p prev (ch :: s)) as [[k [|n]]|] eqn:Em.
  2: { rewrite marker_shape in Hf. unfold match_at in Em. rewrite Hb, Hk in Em. simpl in Em.
       apply fmap_Some in Em as (? & _ & [= -> <-]). cbn [take app] in Hf.
       apply (factor_separator plain _ []) in Hf as [(a & b & Hnil)|Hf]; [| |done..].
       { symmetry in Hnil. apply app_eq_nil in Hnil as [_ Hnil]. apply app_eq_nil in Hnil as [-> _]. done. }
       apply (factor_separator plain) in Hf as [Hf|Hf]; [by apply (Hm w)| |done..].
       refine (IH _ _ _ w Hf Hw); rewrite length_drop; simpl; lia. }
  all: apply factor_cons in Hf as [Hf|Hf]; [|exact (IH _ s ltac:(lia) w Hf Hw)].
  all: apply replace_prefix_cons in Hf as [b Hb']; [|done]; unfold match_at in Em; rewrite Hb, Hk in Em; simpl in Em.
  all: assert (length w ∈ matches (p_rest p) (ch :: s)) as Hin by
    (apply matches_lang; rewrite Hb', take_app_length, length_app; split; [lia|done]).
  - apply fmap_Some in Em as (n & Hhd & [= -> <-]).
    assert (0%nat ∈ matches (p_rest p) (ch :: s)) as [_ H0]%matches_lang; [|done].
    destruct (matches (p_rest p) (ch :: s)); [done|]. injection Hhd as ->. left.
  - destruct (matches (p_rest p) (ch :: s)); [by apply elem_of_nil in Hin|done].
Qed.

(** ** Decoding what a replacement wrote

    [ReplaceAllString] returns a string, which the next pattern decodes again.  A
    replacement never joins bytes into a new rune: it cuts before a bracket, and
    a bracket completes no sequence. *)

Fixpoint decodes (l : list chunk) : Prop :=
  match l with
  | [] => True
  | ch :: l' =>
      (∃ c t, (ch.2 ++ text l')%string = String c t ∧ next_rune c t = (ch, text l')) ∧ decodes l'
  end.

Lemma decodes_runes_fuel fuel s : (String.length s ≤ fuel)%nat → decodes (runes_fuel fuel s).
Proof.
  revert s. induction fuel as [|f IH]; intros [|c s] H; simpl in *; [done|lia|done|].
  destruct (next_rune c s) as [ch rest] eqn:E. pose proof (next_rune_length _ _ _ _ E). simpl.
  rewrite runes_text by lia. split; [|apply IH; lia]. exists c, s. split; [by apply next_rune_split|done].
Qed.

Lemma runes_decodes fuel l : decodes l → (String.length (text l) ≤ fuel)%nat → runes_fuel fuel (text l) = l.
Proof.
  revert fuel. induction l as [|ch l IH]; intros fuel Hd Hf; [by destruct fuel|].
  destruct Hd as [(c & t & Ht & Hn) Hd].
  assert (text (ch :: l) = String c t) as E by exact Ht. rewrite E in *. destruct fuel as [|f]; simpl in Hf; [lia|].
  cbn [runes_fuel]. rewrite Hn. f_equal. apply IH; [done|]. apply next_rune_length in Hn. lia.
Qed.

Definition open_bracket (w : string) : string := String (Ascii.ascii_of_nat 91) w.

Definition cut (t t' : string) : Prop :=
  t' = t ∨ ∃ u v w, t = (u ++ v)%string ∧ t' = (u ++ open_bracket w)%string.

Lemma append_String x (a b : string) : (String x a ++ b)%string = String x (a ++ b).
Proof. reflexivity. Qed.

Lemma append_Empty (b : string) : (EmptyString ++ b)%string = b.
Proof. reflexivity. Qed.

Lemma string_app_assoc (a b c : string) : ((a ++ b) ++ c)%string = (a ++ (b ++ c))%string.
Proof. induction a as [|x a IH]; [done|]. by rewrite !append_String, IH. Qed.

Lemma cut_app a t t' : cut t t' → cut (a ++ t) (a ++ t').
Proof.
  intros [->|(u & v & w & -> & ->)]; [by left|]. right. exists (a ++ u)%string, v, w.
  by rewrite !string_app_assoc.
Qed.

Lemma text_app l l' : text (l ++ l') = (text l ++ text l')%string.
Proof. induction l as [|ch l IH]; simpl; [done|]. by rewrite IH, string_app_assoc. Qed.

Lemma next_rune_none_cut c u v w :
  (next_rune c (u ++ v)).1.1 = None →
  next_rune c (u ++ open_bracket w) = ((None, String c EmptyString), (u ++ open_bracket w)%string).
Proof.
  assert (∀ lo hi, 128 ≤ lo → within lo hi (Ascii.ascii_of_nat 91) = false) as Hb.
  { intros lo hi Hlo. unfold within. change (code (Ascii.ascii_of_nat 91)) with 91.
    by rewrite (proj2 (Z.leb_gt lo 91)) by lia. }
  assert (∀ b, second_ok3 b (Ascii.ascii_of_nat 91) = false) as H3.
  { intros b. unfold second_ok3. rewrite !Hb by lia. by repeat case_match. }
  assert (∀ b, second_ok4 b (Ascii.ascii_of_nat 91) = false) as H4.
  { intros b. unfold second_ok4. rewrite !Hb by lia. by repeat case_match. }
  unfold next_rune, open_bracket. destruct (code c <? 0x80); [done|].
  destruct u as [|c1 [|c2 [|c3 u]]]; rewrite ?append_String, ?append_Empty; cbn [next2 next3 next4];
    rewrite ?Hb, ?H3, ?H4, ?andb_false_r by lia; simpl.
  - intros _. destruct w as [|? [|? ?]]; done.
  - intros Hx. destruct v as [|? [|? ?]], w as [|? ?]; rewrite ?andb_false_r; simpl in *; repeat case_match; by simplify_eq/=.
  - intros Hx. destruct v as [|? ?]; simpl in *; repeat case_match; by simplify_eq/=.
  - intros Hx. simpl in *. repeat case_match; by simplify_eq/=.
Qed.

Lemma next_rune_some c t r x rest rest' :
  next_rune c t = ((Some r, x), rest) →
  ∃ t', (x ++ rest')%string = String c t' ∧ next_rune c t' = ((Some r, x), rest').
Proof.
  unfold next_rune, next2, next3, next4. intros Hn.
  destruct (code c <? 0x80); [by simplify_eq/=; exists rest'|].
  destruct t as [|c1 [|c2 [|c3 t]]]; simpl in Hn; repeat case_match; simplify_eq/=;
    eexists; (split; [reflexivity|]); rewrite ?append_String, ?append_Empty; simpl;
    repeat (match goal with H : _ && _ = _ |- _ => rewrite H; clear H end; simpl); done.
Qed.

Lemma next_rune_none c t x rest : next_rune c t = ((None, x), rest) → x = String c EmptyString ∧ rest = t.
Proof. unfold next_rune, next2, next3, next4. intros Hn. repeat case_match; by simplify_eq/=. Qed.

Lemma next_rune_cut c t ch rest rest' :
  next_rune c t = (ch, rest) → cut rest rest' →
  ∃ t', (ch.2 ++ rest')%string = String c t' ∧ next_rune c t' = (ch, rest').
Proof.
  destruct ch as [[r|] x]; intros Hn Hc; [by eapply next_rune_some|].
  pose proof (next_rune_none _ _ _ _ Hn) as [-> ->]. exists rest'. split; [done|].
  destruct Hc as [->|(u & v & w & -> & ->)]; [done|]. apply (next_rune_none_cut c u v w). by rewrite Hn.
Qed.

Lemma decodes_cons ch l l' : decodes (ch :: l) → cut (text l) (text l') → decodes l' → decodes (ch :: l').
Proof.
  intros [(c & t & _ & Hn) _] Hc Hl. split; [|done].
  destruct (next_rune_cut c t ch _ _ Hn Hc) as (t' & ? & ?). by exists c, t'.
Qed.

Lemma decodes_app a b x w : decodes (a ++ b) → text x = open_bracket w → decodes x → decodes (a ++ x).
Proof.
  intros Hd Hx Hdx. induction a as [|ch a IH]; [done|]. simpl in *. apply (decodes_cons ch (a ++ b)).
  - exact Hd.
  - right. exists (text a), (text b), w. by rewrite !text_app, Hx.
  - apply IH, Hd.
Qed.

Lemma decodes_drop n l : decodes l → decodes (drop n l).
Proof. revert l. induction n as [|n IH]; intros [|ch l] H; try done. apply IH, H. Qed.

Lemma decodes_ascii l l' : Forall (λ a, code a < 0x80) l → decodes l' → decodes ((ascii_chunk <$> l) ++ l').
Proof.
  induction 1 as [|a l Ha _ IH]; [done|]. intros Hl. simpl. split; [|by apply IH].
  eexists a, _. split; [reflexivity|]. unfold next_rune. by rewrite (proj2 (Z.ltb_lt _ _) Ha).
Qed.

Lemma decodes_placeholder l : decodes l → decodes (runes RedactedPlaceholder ++ l).
Proof.
  intros Hl. change (runes RedactedPlaceholder) with (ascii_chunk <$> chars RedactedPlaceholder).
  apply decodes_ascii; [|done]. vm_compute. repeat constructor.
Qed.

Lemma decodes_replace p fuel prev s :
  decodes s → (length s ≤ fuel)%nat →
  decodes (replace p fuel prev s) ∧ cut (text s) (text (replace p fuel prev s)).
Proof.
  revert prev s. induction fuel as [|f IH]; intros prev [|ch s] Hd Hlen; cbn [replace]; simpl in Hlen;
    [split; [done|by left]|lia|split; [done|by left]|].
  destruct (match_at p prev (ch :: s)) as [[k [|n]]|].
  2: { destruct (IH (word_at (drop n (ch :: s))) (drop (S n) (ch :: s))) as [Hd' _];
         [by apply decodes_drop|rewrite length_drop; simpl; lia|].
       set (out := replace _ _ _ _) in *.
       assert (text (runes RedactedPlaceholder ++ out) = open_bracket ("REDACTED]" ++ text out)) as Ht.
       { rewrite text_app. reflexivity. }
       split.
       - eapply decodes_app; [by rewrite take_drop|exact Ht|by apply decodes_placeholder].
       - right. eexists (text (take k (ch :: s))), (text (drop k (ch :: s))), _. split.
         + by rewrite <- text_app, take_drop.
         + rewrite text_app, Ht. reflexivity. }
  all: destruct (IH (word_rune (rune_of ch)) s) as [Hd' Hc]; [apply Hd|lia|]; split;
    [by eapply decodes_cons|]; simpl; by apply cut_app.
Qed.

(** A replacement's result decodes to what the matcher built. *)
Lemma ReplaceAllString_runes p s :
  runes (ReplaceAllString p s) = replace p (length (runes s)) false (runes s).
Proof.
  unfold ReplaceAllString. apply runes_decodes; [|lia]. apply decodes_replace; [|lia].
  by apply decodes_runes_fuel.
Qed.

(** ** No credential survives *)

Definition token_patterns : list pattern := [github_token; aws_key; slack_token; bearer].

Lemma clean_later p r s :
  no_brackets r = true → clean r marker → clean r (runes s) → clean r (runes (ReplaceAllString p s)).
Proof.
  intros Hb Hm Hc w Hf Hw. rewrite ReplaceAllString_runes in Hf.
  apply replace_factor in Hf as [Hf|Hf]; [by apply (Hc w)|by apply (Hm w)|by eapply lang_plain].
Qed.

Definition no_match (r : regex) (s : list chunk) : bool :=
  forallb (λ n, bool_decide (matches r (drop n s) = [])) (seq 0 (S (length s))).

Lemma no_match_clean r s : no_match r s = true ↔ clean r s.
Proof.
  unfold no_match. rewrite forallb_forall. split.
  - intros H w (a & b & ->) Hw.
    assert (In (length a) (seq 0 (S (length (a ++ w ++ b))))) as Hin.
    { apply in_seq. rewrite length_app. lia. }
    specialize (H _ Hin). rewrite bool_decide_eq_true, drop_app_length in H.
    assert (length w ∈ matches r (w ++ b)) as Hm.
    { apply matches_lang. rewrite take_app_length, length_app. split; [lia|done]. }
    rewrite H in Hm. by apply elem_of_nil in Hm.
  - intros H n _. rewrite bool_decide_eq_true. destruct (matches r (drop n s)) as [|k l] eqn:E; [done|]. exfalso.
    assert (k ∈ matches r (drop n s)) as [_ Hk]%matches_lang by (rewrite E; left).
    apply (H (take k (drop n s))); [|done]. exists (take n s), (drop k (drop n s)). by rewrite !take_drop.
Qed.

(** What makes a pattern removable: no brackets in it, no empty match, none in
    the marker itself. *)
Definition removable (p : pattern) : bool :=
  negb (p_bound p) && negb (bool_decide (is_Some (p_keep p))) &&
  no_brackets (p_rest p) && bool_decide (matches (p_rest p) [] = []) && no_match (p_rest p) marker.

Lemma removable_spec p :
  removable p = true →
  p_bound p = false ∧ p_keep p = None ∧ no_brackets (p_rest p) = true ∧ ¬ lang (p_rest p) [] ∧ clean (p_rest p) marker.
Proof.
  unfold removable. rewrite !andb_true_iff, !negb_true_iff, bool_decide_eq_false, bool_decide_eq_true, no_match_clean.
  intros ((((Hb & Hk) & Hn) & Hm) & Hc). repeat split; try done.
  - destruct (p_keep p); [exfalso; apply Hk; eauto|done].
  - intros Hl. assert (0%nat ∈ matches (p_rest p) []) as H by (apply matches_lang; by split).
    rewrite Hm in H. by apply elem_of_nil in H.
Qed.

Lemma clean_own p s : removable p = true → clean (p_rest p) (runes (ReplaceAllString p s)).
Proof.
  intros (Hb & Hk & Hn & He & Hm)%removable_spec. rewrite ReplaceAllString_runes. by apply replace_clean.
Qed.

(** Replacing a list of patterns in turn removes each removable one. *)
Lemma clean_fold l s p :
  p ∈ l → removable p = true → clean (p_rest p) (runes (fold_left (λ s p, ReplaceAllString p s) l s)).
Proof.
  intros Hp Hr. pose proof (removable_spec p Hr) as (_ & _ & Hn & _ & Hm).
  assert (∀ l s, clean (p_rest p) (runes s) → clean (p_rest p) (runes (fold_left (λ s p, ReplaceAllString p s) l s))) as Hkeep.
  { intros l'. induction l' as [|q l' IH]; intros s' Hs; simpl; [done|]. by apply IH, clean_later. }
  revert s. induction Hp as [p l|p q l Hp IH]; intros s; simpl; [by apply Hkeep, clean_own|by apply IH].
Qed.

(** Text free of the four credential shapes. *)
Definition token_free (s : string) : bool := forallb (λ p, no_match (p_rest p) (runes s)) token_patterns.

Lemma RedactSecrets_token_free s : token_free (RedactSecrets s) = true.
Proof.
  unfold token_free. apply forallb_forall. intros p Hp%list_elem_of_In. apply no_match_clean, clean_fold.
  - unfold token_patterns in Hp. unfold secretRedactionPatterns. set_solver.
  - assert (forallb removable token_patterns = true) as H by (vm_compute; reflexivity).
    rewrite forallb_forall in H. by apply H, list_elem_of_In.
Qed.

#[local] Arguments token_free : simpl never.
#[local] Arguments RedactSecrets : simpl never.
#[local] Arguments IsSafeSummaryKey : simpl never.
#[local] Arguments valid : simpl never.

(** ** Values *)

(** Every key is safe and every string free of credentials. *)
Fixpoint scrubbed (v : value) : bool :=
  match v with
  | VNil | VBool _ | VInt _ | VFloat _ => true
  | VStr s => token_free s
  | VStrs l => forallb token_free l
  | VList l => forallb scrubbed l
  | VStrMap m => forallb (λ kv, IsSafeSummaryKey kv.1 && token_free kv.2) m
  | VMap m => forallb (λ kv, IsSafeSummaryKey kv.1 && scrubbed kv.2) m
  end.

Lemma ScrubValue_scrubbed v : scrubbed (ScrubValue v) = true.
Proof.
  induction v as [|b|z|t|s|l|l IH|m|m IH] using value_rect'; cbn [ScrubValue scrubbed]; try reflexivity.
  - apply RedactSecrets_token_free.
  - induction l as [|s l IHl]; [reflexivity|]. rewrite fmap_cons. cbn [forallb scrubbed].
    by rewrite RedactSecrets_token_free.
  - induction IH as [|v l Hv _ IHl]; [reflexivity|]. rewrite fmap_cons. cbn [forallb scrubbed]. by rewrite Hv.
  - induction m as [|[k s] m IHm]; [reflexivity|]. cbn [omap list_omap fst snd].
    destruct (IsSafeSummaryKey k) eqn:E; cbn [forallb scrubbed fst snd]; [|exact IHm].
    by rewrite E, RedactSecrets_token_free.
  - induction IH as [|[k v] m Hv _ IHm]; [reflexivity|]. cbn [omap list_omap fst snd] in *.
    destruct (IsSafeSummaryKey k) eqn:E; cbn [forallb scrubbed fst snd]; [|exact IHm]. by rewrite E, Hv.
Qed.

(** Scrubbing keeps a value well formed. *)
Lemma replace_valid p fuel prev s :
  Forall (λ ch : chunk, is_Some ch.1) s → Forall (λ ch : chunk, is_Some ch.1) (replace p fuel prev s).
Proof.
  revert prev s. induction fuel as [|f IH]; intros prev [|ch s] H; cbn [replace]; try constructor.
  apply list.Forall_cons in H as Hs. destruct Hs as [Hch Hs].
  destruct (match_at p prev (ch :: s)) as [[k [|n]]|]; [by constructor; auto| |by constructor; auto].
  rewrite !Forall_app. repeat split.
  - by apply Forall_take.
  - vm_compute. repeat (constructor; [eexists; reflexivity|]). constructor.
  - apply IH. by apply Forall_drop.
Qed.

Lemma valid_Forall s : valid s = true ↔ Forall (λ ch : chunk, is_Some ch.1) (runes s).
Proof.
  unfold valid. rewrite forallb_forall, list.Forall_forall.
  split; intros H ch Hin; specialize (H ch); rewrite <- ?list_elem_of_In in *.
  - exact (bool_decide_eq_true_1 _ (H Hin)).
  - exact (bool_decide_eq_true_2 _ (H Hin)).
Qed.

Lemma RedactSecrets_valid s : valid s = true → valid (RedactSecrets s) = true.
Proof.
  unfold RedactSecrets. generalize secretRedactionPatterns. intros l. revert s.
  induction l as [|p l IH]; intros s Hs; simpl; [done|]. apply IH. apply valid_Forall.
  rewrite ReplaceAllString_runes. by apply replace_valid, valid_Forall.
Qed.

Lemma keys_sorted_omap {A B} (f : string * A → option (string * B)) m :
  (∀ kv kv', f kv = Some kv' → kv'.1 = kv.1) → keys_sorted m.*1 = true → keys_sorted (omap f m).*1 = true.
Proof.
  intros Hf. induction m as [|kv m IH]; [done|]. rewrite fmap_cons. intros [Hlt Hs]%andb_prop.
  change (omap f (kv :: m)) with (match f kv with Some y => y :: omap f m | None => omap f m end).
  destruct (f kv) as [kv'|] eqn:E; [|by apply IH]. rewrite fmap_cons. apply andb_true_intro. split; [|by apply IH].
  rewrite forallb_forall in Hlt. apply forallb_forall. intros k Hk. apply list_elem_of_In in Hk.
  apply list_elem_of_fmap in Hk as (kv2 & -> & Hin). apply list_elem_of_omap in Hin as (kv1 & Hin & E1).
  rewrite (Hf _ _ E), (Hf _ _ E1). apply Hlt, list_elem_of_In, list_elem_of_fmap. by exists kv1.
Qed.

Lemma scrub_map_wf {A} (f : A → value) (g : A → bool) (m : list (string * A)) :
  Forall (λ kv, g kv.2 = true → wf_value (f kv.2) = true) m →
  keys_sorted m.*1 && forallb (λ kv, valid kv.1 && g kv.2) m = true →
  wf_value (VMap (omap (λ kv, if IsSafeSummaryKey kv.1 then Some (kv.1, f kv.2) else None) m)) = true.
Proof.
  intros Hf [Hs Hv]%andb_prop. cbn [wf_value]. apply andb_true_intro. split.
  - apply keys_sorted_omap; [|exact Hs]. intros kv kv'. destruct (IsSafeSummaryKey kv.1); intros H; by simplify_eq/=.
  - clear Hs. induction Hf as [|[k x] m Hx _ IHm]; [reflexivity|].
    apply forallb_cons_inv in Hv as [[Hk Hg]%andb_prop Hv]. cbn [omap list_omap fst snd] in *.
    destruct (IsSafeSummaryKey k); cbn [forallb fst snd]; [|by apply IHm]. by rewrite Hk, Hx, IHm.
Qed.

Lemma ScrubValue_wf v : wf_value v = true → wf_value (ScrubValue v) = true.
Proof.
  induction v as [|b|z|t|s|l|l IH|m|m IH] using value_rect'; intros Hv; try exact Hv.
  - by apply RedactSecrets_valid.
  - cbn [ScrubValue wf_value] in *. induction l as [|s l IHl]; [reflexivity|].
    apply forallb_cons_inv in Hv as [Hs Hv]. rewrite fmap_cons. cbn [forallb wf_value].
    by rewrite RedactSecrets_valid, IHl.
  - cbn [ScrubValue wf_value] in *. induction IH as [|v l Hw _ IHl]; [reflexivity|].
    apply forallb_cons_inv in Hv as [Hs Hv]. rewrite fmap_cons. cbn [forallb]. by rewrite Hw, IHl.
  - apply (scrub_map_wf (λ s, VStr (RedactSecrets s)) valid); [|exact Hv].
    apply Forall_true. intros kv. apply RedactSecrets_valid.
  - by apply (scrub_map_wf ScrubValue wf_value).
Qed.
