(* ===== verification/AuditLedger.v ===== *)
(** * The audit ledger (internal/audit/ledger.go, signing.go)

    One task's directory holds the ledger - a file of JSON records, each carrying
    the digest of itself and of the one before - and the head watermark.  Several
    [Ledger] handles, in one process or many, append to the same file under its
    lock and flush watermarks on their own.  Clock readings, I/O failures and
    whether signing is armed are arguments of the operations. *)

From stdpp Require Import pretty.
From S2P Require Import Prelude Json Strconv Redact Sha256.

(** ** Records *)

Record record := mkRecord {
  r_Seq : Z;
  r_At : string;            (* UTC, RFC3339 with nanoseconds *)
  r_Task : string;
  r_Tenant : string;
  r_Phase : string;
  r_Subject : string;
  r_Action : string;
  r_Params : value;
  r_Decision : string;
  r_Reason : string;
  r_PrevHash : string;
  r_ThisHash : string;
  r_Sig : string
}.

Definition zero_time : string := "0001-01-01T00:00:00Z".

(** A new record as a caller builds it: the remaining fields are [Append]'s. *)
Definition draft (tenant phase subject action : string) (params : value) (decision reason : string) : record :=
  mkRecord 0 zero_time "" tenant phase subject action params decision reason "" "" "".

(** *** The digest *)

Definition frame (label b : string) : string :=
  (label ++ "=" ++ pretty (N.of_nat (String.length b)) ++ ":" ++ b)%string.

Definition preimage (r : record) (prev : string) : string :=
  (frame "prev" prev ++ frame "seq" (pretty (r_Seq r)) ++ frame "at" (r_At r) ++ frame "task" (r_Task r) ++
   frame "tenant" (r_Tenant r) ++ frame "phase" (r_Phase r) ++ frame "subject" (r_Subject r) ++
   frame "action" (r_Action r) ++ frame "params" (marshal true (r_Params r)) ++
   frame "decision" (r_Decision r) ++ frame "reason" (r_Reason r))%string.

Definition hashRecord (r : record) (prev : string) : string := digest (preimage r prev).

(** *** The line written, and what decoding it gives *)

Definition member (name val : string) : string := (quote false name ++ ":" ++ val)%string.
Definition strm (name s : string) : list string := [member name (quote false s)].
Definition omitempty (name s : string) : list string := if bool_decide (s = EmptyString) then [] else strm name s.

Definition newline : string := String (Ascii.ascii_of_nat 10) EmptyString.

Definition encode (r : record) : string :=
  ("{" ++ commas
     ([member "seq" (pretty (r_Seq r))] ++ strm "at" (r_At r) ++ strm "task" (r_Task r) ++
      omitempty "tenant" (r_Tenant r) ++ strm "phase" (r_Phase r) ++ strm "subject" (r_Subject r) ++
      strm "action" (r_Action r) ++
      match r_Params r with VNil => [] | v => [member "params" (marshal false v)] end ++
      strm "decision" (r_Decision r) ++ omitempty "reason" (r_Reason r) ++
      strm "prev_hash" (r_PrevHash r) ++ strm "hash" (r_ThisHash r) ++ omitempty "sig" (r_Sig r))
   ++ "}" ++ newline)%string.

Definition decoded_record (r : record) : record :=
  mkRecord (r_Seq r) (coerce (r_At r)) (coerce (r_Task r)) (coerce (r_Tenant r)) (coerce (r_Phase r))
    (coerce (r_Subject r)) (coerce (r_Action r)) (decoded (r_Params r)) (coerce (r_Decision r))
    (coerce (r_Reason r)) (coerce (r_PrevHash r)) (coerce (r_ThisHash r)) (coerce (r_Sig r)).

(** *** Redaction (redact.go, RedactRecord) *)

Definition RedactRecord (r : record) : record :=
  mkRecord (r_Seq r) (r_At r) (r_Task r) (r_Tenant r) (r_Phase r) (RedactSecrets (r_Subject r))
    (RedactSecrets (r_Action r)) (ScrubValue (r_Params r)) (r_Decision r) (RedactSecrets (r_Reason r))
    (r_PrevHash r) (r_ThisHash r) (r_Sig r).

(** ** Signatures (signing.go)

    The ed25519 key of the audit root.  [ed_check h sig] is the base64 decoding of
    [sig], its length test and [ed25519.Verify]. *)

Class SigningKey := { ed_sign : string → string; ed_check : string → string → bool }.

(** What is relied on: the key's own signatures verify, and base64 is ASCII. *)
Class SigningKeyOk `{SigningKey} := {
  ed_sign_ok h : ed_check h (ed_sign h) = true;
  ed_sign_ascii h : ascii_text (ed_sign h)
}.

(** [armed]: [SignerForRoot] returned a signer. *)
Definition Sign `{SigningKey} (armed : bool) (h : string) : string := if armed then ed_sign h else EmptyString.

Definition Signer_Verify `{SigningKey} (armed : bool) (h sig : string) : bool :=
  if negb armed || bool_decide (sig = EmptyString) then bool_decide (sig = EmptyString)
  else ed_check h sig.

(** ** Files

    A row is one decodable record with the bytes it occupies; [lf_torn] counts the
    bytes of a record that was cut off and not rolled back. *)

Record row := Row { row_len : Z; row_rec : record }.
Record ledger_file := LFile { lf_rows : list row; lf_torn : Z }.

Definition rows_size (l : list row) : Z := zsum row_len l.
Definition lf_size (f : ledger_file) : Z := rows_size (lf_rows f) + lf_torn f.

Definition line_row (r : record) : row := Row (Z.of_nat (String.length (encode r))) (decoded_record r).

(** The file after [k] bytes of a record's line, of which a write takes no more than
    there are: without its newline the record already decodes. *)
Definition tear (f : ledger_file) (k : Z) (r : record) : ledger_file :=
  let k := Z.min k (row_len (line_row r)) in
  if k <=? 0 then f
  else if row_len (line_row r) - 1 <=? k then LFile (lf_rows f ++ [Row k (decoded_record r)]) (lf_torn f)
  else LFile (lf_rows f) (lf_torn f + k).

(** ** Handles *)

Record Ledger := mkLedger {
  l_task : string;
  l_lastHash : string;
  l_seq : Z;
  l_readOffset : Z;
  l_redactor : bool;            (* DefaultRedactor, or nil *)
  l_f : bool;                   (* the append descriptor is open *)
  l_headPending : string;
  l_headDirty : bool;
  l_flushes : list string;      (* watermarks a flush took and has not written *)
  l_closing : option string;    (* the watermark [Close] took and has not written *)
  l_closed : bool
}.

Definition set_tail (l : Ledger) (h : string) (seq off : Z) : Ledger :=
  mkLedger (l_task l) h seq off (l_redactor l) (l_f l) (l_headPending l) (l_headDirty l) (l_flushes l) (l_closing l) (l_closed l).
Definition set_f (l : Ledger) (b : bool) : Ledger :=
  mkLedger (l_task l) (l_lastHash l) (l_seq l) (l_readOffset l) (l_redactor l) b (l_headPending l) (l_headDirty l)
    (l_flushes l) (l_closing l) (l_closed l).
Definition set_head (l : Ledger) (pending : string) (dirty : bool) (flushes : list string) : Ledger :=
  mkLedger (l_task l) (l_lastHash l) (l_seq l) (l_readOffset l) (l_redactor l) (l_f l) pending dirty flushes
    (l_closing l) (l_closed l).
Definition set_closed (l : Ledger) (closing : option string) : Ledger :=
  mkLedger (l_task l) (l_lastHash l) (l_seq l) (l_readOffset l) (l_redactor l) false (l_headPending l) false
    (l_flushes l) closing true.

Definition set_closing (l : Ledger) (closing : option string) : Ledger :=
  mkLedger (l_task l) (l_lastHash l) (l_seq l) (l_readOffset l) (l_redactor l) (l_f l) (l_headPending l) (l_headDirty l)
    (l_flushes l) closing (l_closed l).

Inductive audit_err :=
| EInvalidTask | EIO | EDecode | ELock | EEncode | EStat
| EWrite (rollback_failed : bool)
| EPrevMismatch (seq : Z) | ETampered (seq : Z) | EBadSignature (seq : Z)
| ETruncated (seq : Z) | EHeadMismatch (seq : Z).

(** *** Reading the tail *)

Definition scan_tail (rows : list row) (h : string) (seq : Z) : string * Z :=
  fold_left (λ _ w, (r_ThisHash (row_rec w), r_Seq (row_rec w))) rows (h, seq).

(** The system call that fails while the tail is read. *)
Inductive tail_fault := TNone | TStat | TOpen | TSeek | TFstat.

Definition loadTail (t : tail_fault) (file : option ledger_file) (l : Ledger) : Ledger * option audit_err :=
  let l0 := set_tail l "" 0 0 in
  match t, file with
  | TOpen, _ => (l0, Some EIO)
  | _, None => (l0, None)
  | _, Some f =>
      let '(h, seq) := scan_tail (lf_rows f) "" 0 in
      let l1 := set_tail l h seq 0 in
      if 0 <? lf_torn f then (l1, Some EDecode)
      else match t with
           | TFstat => (l1, Some EIO)
           | _ => (set_tail l h seq (lf_size f), None)
           end
  end.

(** The records from a byte offset on; an offset inside a record does not decode. *)
Fixpoint rows_from (off : Z) (rows : list row) : option (list row) :=
  if off =? 0 then Some rows
  else match rows with
       | [] => None
       | w :: rows' => if off <? row_len w then None else rows_from (off - row_len w) rows'
       end.

(** Decoding resumed at the offset already covered. *)
Definition resumeTail (t : tail_fault) (f : ledger_file) (l : Ledger) : Ledger * option audit_err :=
  match t with
  | TOpen | TSeek => (l, Some EIO)
  | _ =>
      match rows_from (l_readOffset l) (lf_rows f) with
      | None => (l, Some EDecode)
      | Some rows =>
          let '(h, seq) := scan_tail rows (l_lastHash l) (l_seq l) in
          let l1 := set_tail l h seq (l_readOffset l) in
          if 0 <? lf_torn f then (l1, Some EDecode)
          else match t with
               | TFstat => (l1, Some EIO)
               | _ => (set_tail l h seq (lf_size f), None)
               end
      end
  end.

Definition refreshTailLocked (t : tail_fault) (file : option ledger_file) (l : Ledger) : Ledger * option audit_err :=
  match t, file with
  | TStat, _ => (l, Some EIO)
  | _, None => (set_tail l "" 0 0, None)
  | _, Some f =>
      if lf_size f <? l_readOffset l then loadTail t file l
      else if lf_size f =? l_readOffset l then (l, None)
      else resumeTail t f l
  end.

(** *** Opening *)

(** [^[a-zA-Z0-9_-]{1,128}$]: Go's [$] is the end of the text. *)
Definition task_char (a : Ascii.ascii) : bool :=
  let c := code a in
  ((97 <=? c) && (c <=? 122)) || ((65 <=? c) && (c <=? 90)) || ((48 <=? c) && (c <=? 57)) || (c =? 95) || (c =? 45).

Definition taskIDRegex (task : string) : bool :=
  let n := Z.of_nat (String.length task) in
  (1 <=? n) && (n <=? 128) && forallb task_char (String.list_ascii_of_string task).

(** [mkdir_ok]: [os.MkdirAll] succeeded. *)
Definition Open (mkdir_ok : bool) (t : tail_fault) (task : string) (redactor : bool) (file : option ledger_file) :
  result audit_err Ledger :=
  if negb (taskIDRegex task) then Err EInvalidTask
  else if negb mkdir_ok then Err EIO
  else match loadTail t file (mkLedger task "" 0 0 redactor false "" false [] None false) with
       | (l, None) => Ok l
       | (_, Some e) => Err e
       end.

(** *** Appending *)

(** The system call of [Append] that fails.  [AFWrite k trunc] writes [k] bytes
    and then fails to truncate if [trunc]. *)
Inductive append_fault :=
| AFNone | AFOpen | AFLock | AFTail (t : tail_fault) | AFEncode | AFStat
| AFWrite (k : Z) (truncate_fails : bool).

Definition tail_part (a : append_fault) : tail_fault := match a with AFTail t => t | _ => TNone end.

Definition head_text (seq : Z) (hash : string) : string := (pretty seq ++ " " ++ hash ++ newline)%string.

(** The record as it is written: numbered, redacted, dated, chained, signed. *)
Definition seal `{SigningKey} (armed redact : bool) (now : string) (l : Ledger) (seq : Z) (r : record) : record :=
  let r1 := mkRecord seq (r_At r) (l_task l) (r_Tenant r) (r_Phase r) (r_Subject r) (r_Action r) (r_Params r)
              (r_Decision r) (r_Reason r) (r_PrevHash r) (r_ThisHash r) (r_Sig r) in
  let r2 := if redact then RedactRecord r1 else r1 in
  let at_ := if bool_decide (r_At r2 = zero_time) then now else r_At r2 in
  let r3 := mkRecord (r_Seq r2) at_ (r_Task r2) (r_Tenant r2) (r_Phase r2) (r_Subject r2) (r_Action r2)
              (r_Params r2) (r_Decision r2) (r_Reason r2) (l_lastHash l) (r_ThisHash r2) (r_Sig r2) in
  let h := hashRecord r3 (l_lastHash l) in
  mkRecord (r_Seq r3) (r_At r3) (r_Task r3) (r_Tenant r3) (r_Phase r3) (r_Subject r3) (r_Action r3)
    (r_Params r3) (r_Decision r3) (r_Reason r3) (r_PrevHash r3) h (if armed then Sign armed h else r_Sig r3).

(** The write and its rollback, once the tail is fresh; [l]'s [seq] has been
    incremented already and is unwound on failure. *)
Definition append_write `{SigningKey} (armed redact : bool) (now : string) (a : append_fault) (l : Ledger)
    (f : ledger_file) (r : record) : Ledger * ledger_file * result audit_err unit :=
  let seq := int64 (l_seq l + 1) in
  let r' := seal armed redact now l seq r in
  let len := row_len (line_row r') in
  match a with
  | AFEncode => (l, f, Err EEncode)
  | AFStat => (l, f, Err EStat)
  | AFWrite k true => (l, tear f k r', Err (EWrite true))
  | AFWrite k false => (l, f, Err (EWrite false))
  | _ =>
      let l1 := set_tail l (r_ThisHash r') seq (l_readOffset l + len) in
      (set_head l1 (head_text (r_Seq r') (r_ThisHash r')) true (l_flushes l1),
       LFile (lf_rows f ++ [line_row r']) (lf_torn f), Ok tt)
  end.

(** [enabled] is the process-wide redaction switch. *)
Definition Append `{SigningKey} (armed enabled : bool) (now : string) (a : append_fault) (l : Ledger)
    (file : option ledger_file) (r : record) : Ledger * option ledger_file * result audit_err unit :=
  match a, l_f l with
  | AFOpen, false => (l, file, Err EIO)
  | _, _ =>
      let file1 := if l_f l then file else Some (default (LFile [] 0) file) in
      let l1 := set_f l true in
      match a with
      | AFLock => (l1, file1, Err ELock)
      | _ =>
          match refreshTailLocked (tail_part a) file1 l1 with
          | (l2, Some e) => (l2, file1, Err e)
          | (l2, None) =>
              (* a descriptor whose path is gone still takes the write *)
              let '(l3, f', res) :=
                append_write armed (l_redactor l2 && enabled) now a l2 (default (LFile [] 0) file1) r in
              (l3, (λ _, f') <$> file1, res)
          end
      end
  end.

(** *** The watermark *)

(** How [writeHeadAtomic] ends: done; failed before the rename; the directory is
    gone; failed to sync the directory after the rename. *)
Inductive head_fault := HNone | HBefore | HGone | HAfter.

Definition writeHeadAtomic (hf : head_fault) (text : string) (head : option string) : option string * bool :=
  match hf with
  | HNone => (Some text, true)
  | HBefore | HGone => (head, false)
  | HAfter => (Some text, false)
  end.

(** [flushHead], up to the release of the lock: the watermark is taken. *)
Definition flush_begin (l : Ledger) : Ledger :=
  if l_headDirty l then set_head l (l_headPending l) false (l_flushes l ++ [l_headPending l]) else l.

(** [flushHead], the write of watermark number [i] of the handle. *)
Definition flush_end (hf : head_fault) (i : nat) (l : Ledger) (head : option string) : Ledger * option string :=
  match l_flushes l !! i with
  | None => (l, head)
  | Some text =>
      let '(head', ok) := writeHeadAtomic hf text head in
      let dirty := match hf with HNone | HGone => l_headDirty l | _ => true end in
      (set_head l (l_headPending l) dirty (delete i (l_flushes l)), head')
  end.

(** [Close], up to the release of the lock: the pending watermark is taken and the
    descriptor given up. *)
Definition close_begin (l : Ledger) : Ledger :=
  set_closed l (if l_headDirty l && negb (bool_decide (l_headPending l = EmptyString))
                then Some (l_headPending l) else None).

Definition close_end (hf : head_fault) (l : Ledger) (head : option string) : Ledger * option string * bool :=
  match l_closing l with
  | None => (l, head, true)
  | Some text => let '(head', ok) := writeHeadAtomic hf text head in (set_closing l None, head', ok)
  end.

Definition Close (hf : head_fault) (l : Ledger) (head : option string) : Ledger * option string * bool :=
  close_end hf (close_begin l) head.

Definition readHead (head : option string) : option (Z * string) :=
  data ← head;
  match Fields data with
  | [a; b] => s ← ParseInt a; if s <? 0 then None else Some (s, b)
  | _ => None
  end.

(** *** Verification *)

Fixpoint verify_rows `{SigningKey} (armed : bool) (rows : list row) (prev : string) (count : Z) :
  string * Z * option audit_err :=
  match rows with
  | [] => (prev, count, None)
  | w :: rows' =>
      let r := row_rec w in
      if negb (bool_decide (r_PrevHash r = prev)) then (prev, count, Some (EPrevMismatch (r_Seq r)))
      else if negb (bool_decide (r_ThisHash r = hashRecord r prev)) then (prev, count, Some (ETampered (r_Seq r)))
      else if armed && negb (Signer_Verify armed (r_ThisHash r) (r_Sig r)) then (prev, count, Some (EBadSignature (r_Seq r)))
      else verify_rows armed rows' (r_ThisHash r) (count + 1)
  end.

Definition Verify `{SigningKey} (armed : bool) (file : option ledger_file) (head : option string) : Z * option audit_err :=
  match file with
  | None => (0, None)
  | Some f =>
      match verify_rows armed (lf_rows f) EmptyString 0 with
      | (_, count, Some e) => (count, Some e)
      | (prev, count, None) =>
          if 0 <? lf_torn f then (count, Some EDecode)
          else match readHead head with
               | Some (seq, hash) =>
                   if count <? seq then (count, Some (ETruncated seq))
                   else if (count =? seq) && negb (bool_decide (prev = hash)) then (count, Some (EHeadMismatch seq))
                   else (count, None)
               | None => (count, None)
               end
      end
  end.

Definition ReadAll (file : option ledger_file) : result audit_err (list record) :=
  match file with
  | None => Ok []
  | Some f => if 0 <? lf_torn f then Err EDecode else Ok (row_rec <$> lf_rows f)
  end.
