(* ===== verification/AuditSpec.v ===== *)
(** * What the ledger's chain means

    The framing of the digest is injective, so two chains that end in the same
    digest have the same content or exhibit a SHA-256 collision; [Verify] accepts
    exactly the chains; and the text of a watermark reads back as it was. *)

From stdpp Require Import pretty.
From S2P Require Import Prelude Json Strconv Redact RedactSpec Sha256 AuditLedger.

(** ** Frames *)

Lemma digits_colon d d' x y :
  digits_text d → digits_text d' → (d ++ ":" ++ x)%string = (d' ++ ":" ++ y)%string → d = d' ∧ x = y.
Proof.
  unfold digits_text. revert d'. induction d as [|a d IH]; intros [|a' d'] Hd Hd' H; simpl in Hd, Hd';
    rewrite ?append_String, ?append_Empty in H.
  - by injection H as ->.
  - injection H as <- _. by apply list.Forall_cons in Hd' as [? _].
  - injection H as -> _. by apply list.Forall_cons in Hd as [? _].
  - injection H as -> H. apply list.Forall_cons in Hd as [_ Hd]. apply list.Forall_cons in Hd' as [_ Hd'].
    destruct (IH d' Hd Hd' H) as [-> ->]. done.
Qed.

Lemma app_same_length (b b' x y : string) :
  String.length b = String.length b' → (b ++ x)%string = (b' ++ y)%string → b = b' ∧ x = y.
Proof.
  revert b'. induction b as [|a b IH]; intros [|a' b'] Hl H; simpl in Hl; try lia.
  - done.
  - rewrite !append_String in H. injection H as -> H. destruct (IH b' ltac:(lia) H) as [-> ->]. done.
Qed.

Lemma frame_inj label b b' x y :
  (frame label b ++ x)%string = (frame label b' ++ y)%string → b = b' ∧ x = y.
Proof.
  unfold frame. rewrite !string_app_assoc. intros H.
  apply (inj (String.append label)) in H. apply (inj (String.append "=")) in H.
  apply digits_colon in H as [Hlen H]; [|apply pretty_N_digits..].
  apply (inj pretty) in Hlen. by apply app_same_length in H; [|lia].
Qed.

(** What the digest covers. *)
Definition content (r : record) :=
  (r_Seq r, r_At r, r_Task r, r_Tenant r, r_Phase r, r_Subject r, r_Action r, marshal true (r_Params r),
   r_Decision r, r_Reason r).

Lemma string_app_empty (s : string) : (s ++ EmptyString)%string = s.
Proof. induction s as [|a s IH]; [done|]. by rewrite append_String, IH. Qed.

Lemma frame_inj_last label b b' : frame label b = frame label b' → b = b'.
Proof.
  intros H. rewrite <- (string_app_empty (frame label b)), <- (string_app_empty (frame label b')) in H.
  by apply frame_inj in H as [? _].
Qed.

Lemma preimage_inj r r' prev prev' : preimage r prev = preimage r' prev' → prev = prev' ∧ content r = content r'.
Proof.
  unfold preimage, content. intros H.
  apply frame_inj in H as [-> H]. apply frame_inj in H as [Hseq H]. apply (inj pretty) in Hseq.
  do 8 (apply frame_inj in H as [? H]). apply frame_inj_last in H. split; [done|]. congruence.
Qed.

(** ** Chains *)

Fixpoint chained (prev : string) (l : list record) : Prop :=
  match l with
  | [] => True
  | r :: l' => r_PrevHash r = prev ∧ r_ThisHash r = hashRecord r prev ∧ chained (r_ThisHash r) l'
  end.

Definition last_hash (prev : string) (l : list record) : string := default prev (r_ThisHash <$> list.last l).

(** The strings that were hashed. *)
Definition preimages (l : list record) : list string := (λ r, preimage r (r_PrevHash r)) <$> l.

Lemma last_hash_snoc prev l r : last_hash prev (l ++ [r]) = r_ThisHash r.
Proof. unfold last_hash. by rewrite last_snoc. Qed.

Lemma last_hash_cons prev r l : last_hash prev (r :: l) = last_hash (r_ThisHash r) l.
Proof. unfold last_hash. rewrite last_cons. by destruct (list.last l). Qed.

Lemma chained_app prev l l' : chained prev (l ++ l') ↔ chained prev l ∧ chained (last_hash prev l) l'.
Proof.
  revert prev. induction l as [|r l IH]; intros prev; [simpl; tauto|].
  rewrite last_hash_cons. simpl. rewrite IH. tauto.
Qed.

Lemma chained_snoc prev l r :
  chained prev (l ++ [r]) ↔
  chained prev l ∧ r_PrevHash r = last_hash prev l ∧ r_ThisHash r = hashRecord r (last_hash prev l).
Proof. rewrite chained_app. simpl. tauto. Qed.

Lemma hashRecord_nonempty r prev : hashRecord r prev ≠ EmptyString.
Proof. apply digest_nonempty. Qed.

Lemma chained_end_nonempty l r : chained EmptyString (l ++ [r]) → r_ThisHash r ≠ EmptyString.
Proof. rewrite chained_snoc. intros (_ & _ & ->). apply hashRecord_nonempty. Qed.

(** Two chains that end in the same digest agree, or they contain two different
    strings with one digest. *)
Definition collision_in (l l' : list record) : Prop :=
  ∃ x y, x ∈ preimages l ∧ y ∈ preimages l' ∧ x ≠ y ∧ digest x = digest y.

Lemma collision_in_app l l' r r' : collision_in l l' → collision_in (l ++ [r]) (l' ++ [r']).
Proof.
  intros (x & y & Hx & Hy & H). exists x, y. unfold preimages in *. rewrite !fmap_app, !elem_of_app. auto.
Qed.

Lemma chains_agree l l' :
  chained EmptyString l → chained EmptyString l' → last_hash EmptyString l = last_hash EmptyString l' →
  content <$> l = content <$> l' ∧ r_ThisHash <$> l = r_ThisHash <$> l' ∨ collision_in l l'.
Proof.
  revert l'. induction l as [|r l IH] using rev_ind; intros l' Hc Hc' Hh.
  - destruct l' as [|r' l' _] using rev_ind; [by left|]. rewrite last_hash_snoc in Hh.
    apply chained_end_nonempty in Hc'. done.
  - destruct l' as [|r' l' _] using rev_ind.
    { rewrite last_hash_snoc in Hh. apply chained_end_nonempty in Hc. done. }
    rewrite !last_hash_snoc in Hh. apply chained_snoc in Hc as (Hc & Hp & Ht). apply chained_snoc in Hc' as (Hc' & Hp' & Ht').
    destruct (decide (preimage r (r_PrevHash r) = preimage r' (r_PrevHash r'))) as [E|E].
    + apply preimage_inj in E as [Eprev Econt]. destruct (IH l' Hc Hc') as [[H1 H2]|H]; [congruence| |].
      * left. rewrite !fmap_app, H1, H2. simpl. by rewrite Econt, Hh.
      * right. by apply collision_in_app.
    + right. exists (preimage r (r_PrevHash r)), (preimage r' (r_PrevHash r')). unfold preimages.
      rewrite !fmap_app, !elem_of_app. repeat split; [right; left|right; left|done|].
      unfold hashRecord in Ht, Ht'. congruence.
Qed.

(** ** What [Verify] accepts *)

Definition signed `{SigningKey} (armed : bool) (r : record) : Prop :=
  armed = true → Signer_Verify armed (r_ThisHash r) (r_Sig r) = true.

Lemma verify_rows_ok `{SigningKey} armed rows prev count :
  chained prev (row_rec <$> rows) → Forall (λ w, signed armed (row_rec w)) rows →
  verify_rows armed rows prev count = (last_hash prev (row_rec <$> rows), count + zlen rows, None).
Proof.
  revert prev count. induction rows as [|w rows IH]; intros prev count Hc Hs; cbn [verify_rows].
  - unfold zlen. simpl. by rewrite Z.add_0_r.
  - rewrite fmap_cons in Hc. destruct Hc as (Hp & Ht & Hc). apply list.Forall_cons in Hs as [Hw Hs].
    rewrite !bool_decide_eq_true_2 by done. cbn [negb].
    assert (armed && negb (Signer_Verify armed (r_ThisHash (row_rec w)) (r_Sig (row_rec w))) = false) as ->.
    { unfold signed in Hw. destruct armed; [|done]. by rewrite Hw. }
    rewrite IH by done. rewrite fmap_cons, last_hash_cons. unfold zlen. rewrite length_cons. f_equal. f_equal. lia.
Qed.

Lemma verify_rows_inv `{SigningKey} armed rows prev count h n :
  verify_rows armed rows prev count = (h, n, None) →
  chained prev (row_rec <$> rows) ∧ Forall (λ w, signed armed (row_rec w)) rows ∧
  h = last_hash prev (row_rec <$> rows) ∧ n = count + zlen rows.
Proof.
  revert prev count. induction rows as [|w rows IH]; intros prev count Hv; simpl in Hv.
  - injection Hv as <- <-. unfold zlen. simpl. repeat split; [constructor|lia].
  - destruct (bool_decide_reflect (r_PrevHash (row_rec w) = prev)) as [Hp|]; simpl in Hv; [|discriminate].
    destruct (bool_decide_reflect (r_ThisHash (row_rec w) = hashRecord (row_rec w) prev)) as [Ht|]; simpl in Hv; [|discriminate].
    destruct (armed && _) eqn:Es; simpl in Hv; [discriminate|].
    apply IH in Hv as (Hc & Hs & -> & ->). rewrite fmap_cons, last_hash_cons. unfold zlen in *. simpl. repeat split; try done.
    + constructor; [|done]. intros ->. simpl in Es. by apply negb_false_iff in Es.
    + lia.
Qed.

(** ** The watermark's text *)

Lemma fields_of_word s rest cur :
  word_text s →
  fields_of ((ascii_chunk <$> String.list_ascii_of_string s) ++ rest) cur = fields_of rest (cur ++ s)%string.
Proof.
  unfold word_text. revert cur. induction s as [|a s IH]; intros cur Hs; simpl.
  - by rewrite string_app_empty.
  - apply list.Forall_cons in Hs as [[_ Ha] Hs]. unfold rune_of. simpl. rewrite Ha, IH by done.
    by rewrite string_app_assoc.
Qed.

Lemma list_ascii_app s t :
  String.list_ascii_of_string (s ++ t) = String.list_ascii_of_string s ++ String.list_ascii_of_string t.
Proof. induction s as [|a s IH]; [done|]. rewrite append_String. simpl. by rewrite IH. Qed.

Lemma hexadecimal_word s : hexadecimal s → word_text s.
Proof.
  intros H. eapply list.Forall_impl; [exact H|]. intros a Ha. simpl in Ha.
  assert (forallb (λ a, (code a <? 0x80) && negb (is_space (code a))) (String.list_ascii_of_string "0123456789abcdef") = true)
    as Hall by (vm_compute; reflexivity).
  rewrite forallb_forall in Hall. apply list_elem_of_In, Hall in Ha. apply andb_prop in Ha as [H1 H2%negb_true_iff].
  split; [lia|done].
Qed.

Lemma readHead_text seq hash :
  0 ≤ seq < 2^63 → word_text hash → hash ≠ EmptyString → readHead (Some (head_text seq hash)) = Some (seq, hash).
Proof.
  intros Hseq Hw Hne. unfold readHead. simpl.
  assert (word_text (pretty seq)) as Hp by (rewrite pretty_Z_nonneg by lia; apply digits_word, pretty_N_digits).
  assert (pretty seq ≠ EmptyString) as Hpe by (rewrite pretty_Z_nonneg by lia; apply pretty_N_nonempty).
  assert (Fields (head_text seq hash) = [pretty seq; hash]) as ->.
  { unfold Fields, head_text. rewrite runes_ascii.
    2: { unfold ascii_text. rewrite !list_ascii_app. rewrite !Forall_app.
         split; [by apply word_text_ascii|]. split; [by repeat constructor|].
         split; [by apply word_text_ascii|by repeat constructor]. }
    rewrite !list_ascii_app, !fmap_app, fields_of_word by done.
    rewrite append_Empty. change (ascii_chunk <$> String.list_ascii_of_string " ") with [ascii_chunk (Ascii.ascii_of_nat 32)].
    simpl. rewrite bool_decide_eq_false_2 by done. rewrite fields_of_word by done.
    change (ascii_chunk <$> String.list_ascii_of_string newline) with [ascii_chunk (Ascii.ascii_of_nat 10)].
    simpl. rewrite append_Empty, bool_decide_eq_false_2 by done. done. }
  rewrite ParseInt_pretty by done. simpl. by rewrite (proj2 (Z.ltb_ge seq 0)) by lia.
Qed.
