(* ===== verification/AuditRun.v ===== *)
(** * Handles sharing a ledger

    Any number of [Ledger] handles open the same task's directory, append, flush
    their watermarks and close, in any order and with any failures.  The chain on
    disk stays a chain numbered from one, every watermark ever written names a
    record of it, and each handle either knows the tail or knows it must read
    on. *)

From stdpp Require Import pretty.
From S2P Require Import Prelude Json Strconv Redact RedactSpec Sha256 AuditLedger AuditSpec.

Record world := mkWorld {
  w_file : option ledger_file;
  w_head : option string;
  w_handles : gmap nat Ledger
}.

Definition empty_world : world := mkWorld None None ∅.

Inductive event :=
| EvOpen (h : nat) (mkdir_ok : bool) (t : tail_fault) (redactor : bool)
| EvAppend (h : nat) (armed enabled : bool) (now : string) (a : append_fault) (r : record)
| EvFlushBegin (h : nat)
| EvFlushEnd (h : nat) (hf : head_fault) (i : nat)
| EvCloseBegin (h : nat)
| EvCloseEnd (h : nat) (hf : head_fault).

Section Run.
Context `{SigningKey}.

(** One event in the directory of [task]. *)
Definition exec (task : string) (ev : event) (w : world) : world :=
  match ev with
  | EvOpen h mk t red =>
      match Open mk t task red (w_file w) with
      | Ok l => mkWorld (w_file w) (w_head w) (<[h := l]> (w_handles w))
      | Err _ => w
      end
  | EvAppend h armed enabled now a r =>
      match w_handles w !! h with
      | None => w
      | Some l =>
          let '(l', file', _) := Append armed enabled now a l (w_file w) r in
          mkWorld file' (w_head w) (<[h := l']> (w_handles w))
      end
  | EvFlushBegin h =>
      match w_handles w !! h with
      | None => w
      | Some l => mkWorld (w_file w) (w_head w) (<[h := flush_begin l]> (w_handles w))
      end
  | EvFlushEnd h hf i =>
      match w_handles w !! h with
      | None => w
      | Some l => let '(l', head') := flush_end hf i l (w_head w) in
                  mkWorld (w_file w) head' (<[h := l']> (w_handles w))
      end
  | EvCloseBegin h =>
      match w_handles w !! h with
      | None => w
      | Some l => mkWorld (w_file w) (w_head w) (<[h := close_begin l]> (w_handles w))
      end
  | EvCloseEnd h hf =>
      match w_handles w !! h with
      | None => w
      | Some l => let '(l', head', _) := close_end hf l (w_head w) in
                  mkWorld (w_file w) head' (<[h := l']> (w_handles w))
      end
  end.

Definition run (task : string) (evs : list event) : world := fold_left (λ w ev, exec task ev w) evs empty_world.

(** What callers hand to [Append]: text in UTF-8, integers a [float64] holds, no
    signature of their own. *)
Definition wf_draft (now : string) (r : record) : bool :=
  valid now && valid (r_At r) && valid (r_Tenant r) && valid (r_Phase r) && valid (r_Subject r) &&
  valid (r_Action r) && wf_value (r_Params r) && valid (r_Decision r) && valid (r_Reason r) &&
  bool_decide (r_Sig r = EmptyString).

Definition wf_event (ev : event) : bool :=
  match ev with EvAppend _ _ _ now _ r => wf_draft now r | _ => true end.

(** ** Invariant *)

Definition recs (f : ledger_file) : list record := row_rec <$> lf_rows f.

Definition sig_ok (r : record) : Prop := r_Sig r = EmptyString ∨ ed_check (r_ThisHash r) (r_Sig r) = true.

Record file_ok (f : ledger_file) : Prop := {
  fo_chain : chained EmptyString (recs f);
  fo_seq : ∀ i r, recs f !! i = Some r → r_Seq r = int64 (Z.of_nat i + 1);
  fo_len : Forall (λ w, 0 < row_len w) (lf_rows f);
  fo_torn : 0 ≤ lf_torn f;
  fo_sig : Forall sig_ok (recs f)
}.

(** A watermark that names a record of the file. *)
Definition mark (f : ledger_file) (text : string) : Prop :=
  ∃ i r, recs f !! i = Some r ∧ text = head_text (r_Seq r) (r_ThisHash r).

Definition fresh (f : ledger_file) (l : Ledger) : Prop :=
  l_lastHash l = last_hash EmptyString (recs f) ∧ l_seq l = int64 (zlen (lf_rows f)).

Definition tail_ok (f : ledger_file) (l : Ledger) : Prop :=
  ∃ k, (k ≤ length (lf_rows f))%nat ∧ l_readOffset l = rows_size (take k (lf_rows f)) ∧
       (k = length (lf_rows f) → fresh f l).

Record handle_ok (f : ledger_file) (l : Ledger) : Prop := {
  ho_tail : tail_ok f l;
  ho_task : valid (l_task l) = true;
  ho_pending : mark f (l_headPending l) ∨ l_headDirty l = false ∧ l_flushes l = [];
  ho_flushes : Forall (mark f) (l_flushes l);
  ho_closing : ∀ t, l_closing l = Some t → mark f t
}.

Definition the_file (w : world) : ledger_file := default (LFile [] 0) (w_file w).

Record winv (w : world) : Prop := {
  wi_file : file_ok (the_file w);
  wi_head : ∀ t, w_head w = Some t → mark (the_file w) t;
  wi_handles : map_Forall (λ _, handle_ok (the_file w)) (w_handles w);
  wi_open : ∀ h l, w_handles w !! h = Some l → l_f l = true → is_Some (w_file w)
}.

Lemma int64_add_l a b : int64 (int64 a + b) = int64 (a + b).
Proof.
  unfold int64. assert (((if a mod 2^64 <? 2^63 then a mod 2^64 else a mod 2^64 - 2^64) + b) mod 2^64 = (a + b) mod 2^64) as E.
  { destruct (a mod 2^64 <? 2^63).
    - by rewrite Z.add_mod_idemp_l.
    - replace (a mod 2^64 - 2^64 + b) with (a mod 2^64 + b + (-1) * 2^64) by lia.
      by rewrite Z_mod_plus_full, Z.add_mod_idemp_l. }
  by rewrite E.
Qed.

(** ** Growing files *)

Definition grows (f f' : ledger_file) : Prop := lf_rows f `prefix_of` lf_rows f'.

Lemma grows_refl f : grows f f.
Proof. exists []. by rewrite app_nil_r. Qed.

Lemma mark_grows f f' t : grows f f' → mark f t → mark f' t.
Proof.
  intros [ext Hext] (i & r & Hi & ->). exists i, r. split; [|done]. unfold recs in *. rewrite Hext, fmap_app.
  by apply lookup_app_l_Some.
Qed.

Lemma tail_ok_grows f f' l : grows f f' → tail_ok f l → tail_ok f' l.
Proof.
  intros [ext Hext] (k & Hk & Hoff & Hfresh). exists k. rewrite Hext, length_app. split; [lia|]. split.
  - by rewrite take_app_le by lia.
  - intros E. assert (length ext = 0%nat) as ->%length_zero_iff_nil by lia. rewrite app_nil_r in Hext.
    assert (fresh f l) as [? ?] by (apply Hfresh; simpl in E; lia).
    unfold fresh, recs in *. by rewrite Hext.
Qed.

Lemma handle_ok_grows f f' l : grows f f' → handle_ok f l → handle_ok f' l.
Proof.
  intros Hg [Ht Hv Hp Hf Hc]. split.
  - by eapply tail_ok_grows.
  - done.
  - destruct Hp; [left; by eapply mark_grows|by right].
  - eapply list.Forall_impl; [exact Hf|]. intros t. by apply mark_grows.
  - intros t H1. by eapply mark_grows, Hc.
Qed.

(** ** Reading the tail *)

Lemma rows_size_nonneg l : Forall (λ w, 0 < row_len w) l → 0 ≤ rows_size l.
Proof. unfold rows_size. induction 1 as [|w l Hw _ IH]; [done|]. rewrite zsum_cons. lia. Qed.

Lemma rows_size_pos l : Forall (λ w, 0 < row_len w) l → l ≠ [] → 0 < rows_size l.
Proof.
  intros Hl Hne. destruct l as [|w l]; [done|]. apply list.Forall_cons in Hl as [Hw Hl].
  unfold rows_size. rewrite zsum_cons.
  pose proof (rows_size_nonneg l Hl). unfold rows_size in *. lia.
Qed.

Lemma rows_size_split k l : rows_size l = rows_size (take k l) + rows_size (drop k l).
Proof. unfold rows_size. rewrite <- (take_drop k l) at 1. apply zsum_app. Qed.

Lemma rows_from_aligned k l :
  Forall (λ w, 0 < row_len w) l → (k ≤ length l)%nat → rows_from (rows_size (take k l)) l = Some (drop k l).
Proof.
  revert k. induction l as [|w l IH]; intros [|k] Hl Hk; simpl in Hk; try lia; try reflexivity.
  apply list.Forall_cons in Hl as [Hw Hl]. cbn [rows_from take drop]. unfold rows_size. rewrite zsum_cons.
  pose proof (rows_size_nonneg (take k l) (Forall_take _ k l Hl)) as Hn. unfold rows_size in Hn.
  rewrite (proj2 (Z.eqb_neq _ _)) by lia. rewrite (proj2 (Z.ltb_ge _ _)) by lia.
  replace (row_len w + zsum row_len (take k l) - row_len w) with (rows_size (take k l)) by (unfold rows_size; lia).
  apply IH; [done|lia].
Qed.

Lemma scan_tail_last rows h s :
  scan_tail rows h s = (last_hash h (row_rec <$> rows), default s ((λ w, r_Seq (row_rec w)) <$> list.last rows)).
Proof.
  unfold scan_tail. revert h s. induction rows as [|w rows IH]; intros h s; [done|]. cbn [fold_left].
  rewrite IH, fmap_cons, last_hash_cons, last_cons. by destruct (list.last rows).
Qed.

Lemma last_hash_drop k f h :
  (k < length (lf_rows f))%nat → last_hash h (row_rec <$> drop k (lf_rows f)) = last_hash EmptyString (recs f).
Proof.
  intros Hk. unfold last_hash, recs. rewrite <- (take_drop k (lf_rows f)) at 2. rewrite fmap_app, last_app.
  rewrite !fmap_last. destruct (list.last (drop k (lf_rows f))) as [w|] eqn:E; [done|].
  apply last_None in E. apply (f_equal length) in E. rewrite length_drop in E. simpl in E. lia.
Qed.

Lemma last_of_drop {A} k (l : list A) : (k < length l)%nat → list.last (drop k l) = list.last l.
Proof.
  intros Hk. rewrite <- (take_drop k l) at 2. rewrite last_app.
  destruct (list.last (drop k l)) eqn:E; [done|]. apply last_None in E.
  apply (f_equal length) in E. rewrite length_drop in E. simpl in E. lia.
Qed.

Lemma last_seq_drop k f s :
  file_ok f → (k < length (lf_rows f))%nat →
  default s ((λ w, r_Seq (row_rec w)) <$> list.last (drop k (lf_rows f))) = int64 (zlen (lf_rows f)).
Proof.
  intros Hf Hk. rewrite last_of_drop by done.
  destruct (list.last (lf_rows f)) as [w|] eqn:E.
  - rewrite last_lookup in E. simpl. assert (recs f !! pred (length (lf_rows f)) = Some (row_rec w)) as Hr.
    { unfold recs. rewrite list_lookup_fmap, E. done. }
    rewrite (fo_seq f Hf _ _ Hr). unfold zlen. f_equal. lia.
  - apply last_None in E. rewrite E in Hk. simpl in Hk. lia.
Qed.

(** The tail after a refresh: up to date when it succeeds, still sound when it fails. *)
Definition refreshed (f : ledger_file) (l : Ledger) (res : Ledger * option audit_err) : Prop :=
  (∃ h s o, res.1 = set_tail l h s o) ∧ tail_ok f res.1 ∧
  (res.2 = None → fresh f res.1 ∧ l_readOffset res.1 = rows_size (lf_rows f) ∧ lf_torn f = 0).

Lemma set_tail_id l : ∃ h s o, l = set_tail l h s o.
Proof. exists (l_lastHash l), (l_seq l), (l_readOffset l). by destruct l. Qed.

Lemma refreshed_err f l e : tail_ok f l → refreshed f l (l, Some e).
Proof. intros Ht. split; [apply set_tail_id|]. split; [done|]. intros [=]. Qed.

Lemma tail_at_end f l o : fresh f l → l_readOffset l = o → o = rows_size (lf_rows f) → tail_ok f l.
Proof.
  intros Hfr Ho ->. exists (length (lf_rows f)). rewrite firstn_all. done.
Qed.

Lemma resume_ok t f l :
  file_ok f → tail_ok f l → rows_size (lf_rows f) + lf_torn f ≠ l_readOffset l → refreshed f l (resumeTail t f l).
Proof.
  intros Hf (k & Hk & Hoff & Hfresh) Hne. pose proof (fo_len f Hf) as Hlen. pose proof (fo_torn f Hf) as Htorn.
  assert (tail_ok f l) as Htail by (by exists k).
  unfold resumeTail. rewrite Hoff, rows_from_aligned, scan_tail_last by done. rewrite <- Hoff.
  set (h := last_hash _ _). set (s := default _ _).
  assert ((k < length (lf_rows f))%nat → fresh f (set_tail l h s (lf_size f))) as Hnew.
  { intros Hlt. split; simpl; [by apply last_hash_drop|by apply last_seq_drop]. }
  assert (k = length (lf_rows f) → h = l_lastHash l ∧ s = l_seq l ∧ 0 < lf_torn f) as Hold.
  { intros ->. subst h s. rewrite skipn_all. rewrite firstn_all in Hoff. repeat split. lia. }
  assert (tail_ok f (set_tail l h s (l_readOffset l))) as Hkeep.
  { exists k. split; [done|]. split; [done|]. intros Heq. destruct (Hold Heq) as (-> & -> & _). by apply Hfresh. }
  assert (lf_torn f = 0 → refreshed f l (set_tail l h s (lf_size f), None)) as Hdone.
  { intros H0. assert (k < length (lf_rows f))%nat as Hlt.
    { destruct (decide (k = length (lf_rows f))) as [Heq|]; [|lia]. destruct (Hold Heq) as (_ & _ & ?). lia. }
    assert (lf_size f = rows_size (lf_rows f)) as Hsz by (unfold lf_size; lia).
    split; [by eauto|]. split; [|by auto]. eapply tail_at_end; [by apply Hnew|reflexivity|done]. }
  assert (∀ e, refreshed f l (set_tail l h s (l_readOffset l), Some e)) as Herr.
  { intros e. split; [by eauto|]. split; [done|]. intros [=]. }
  destruct (Z.ltb_spec 0 (lf_torn f)); destruct t; try (by apply refreshed_err); try (by apply Herr); apply Hdone; lia.
Qed.

Lemma refresh_ok t f l : file_ok f → tail_ok f l → refreshed f l (refreshTailLocked t (Some f) l).
Proof.
  intros Hf Htail. pose proof Htail as (k & Hk & Hoff & Hfresh).
  pose proof (fo_len f Hf) as Hlen. pose proof (fo_torn f Hf) as Htorn.
  pose proof (rows_size_split k (lf_rows f)) as Hsplit.
  pose proof (rows_size_nonneg _ (Forall_drop _ k _ Hlen)) as Hdrop.
  assert (refreshed f l (if lf_size f <? l_readOffset l then loadTail t (Some f) l
      else if lf_size f =? l_readOffset l then (l, None) else resumeTail t f l)) as Hmain.
  { unfold lf_size. rewrite (proj2 (Z.ltb_ge _ (l_readOffset l))) by lia.
    destruct (Z.eqb_spec (rows_size (lf_rows f) + lf_torn f) (l_readOffset l)) as [E|E]; [|by apply resume_ok].
    split; [apply set_tail_id|]. split; [done|]. intros _.
    assert (k = length (lf_rows f)) as Hkn.
    { destruct (decide (k = length (lf_rows f))) as [|Hne]; [done|].
      assert (0 < rows_size (drop k (lf_rows f))); [|lia]. apply rows_size_pos; [by apply Forall_drop|].
      intros Hn. apply (f_equal length) in Hn. rewrite length_drop in Hn. simpl in Hn. lia. }
    split; [by apply Hfresh|]. split; [|lia]. simpl. by rewrite Hoff, Hkn, firstn_all. }
  destruct t; try exact Hmain. by apply refreshed_err.
Qed.

Lemma load_ok t f l l' :
  file_ok f → loadTail t (Some f) l = (l', None) →
  (∃ h s o, l' = set_tail l h s o) ∧ tail_ok f l'.
Proof.
  intros Hf. pose proof (fo_torn f Hf) as Htorn. unfold loadTail. rewrite scan_tail_last.
  assert (fresh f (set_tail l (last_hash EmptyString (recs f))
            (default 0 ((λ w, r_Seq (row_rec w)) <$> list.last (lf_rows f))) (lf_size f))) as Hfr.
  { split; [done|]. simpl. destruct (decide (lf_rows f = [])) as [E|E]; [by rewrite E|].
    apply (last_seq_drop 0); [done|]. destruct (lf_rows f); [done|simpl; lia]. }
  destruct (Z.ltb_spec 0 (lf_torn f)); destruct t; intros Hl; simplify_eq; (split; [by eauto|]);
    (eapply tail_at_end; [exact Hfr|reflexivity|simpl; unfold lf_size; lia]).
Qed.

(** ** The record that is written *)

Lemma hashRecord_content r r' prev : content r = content r' → hashRecord r prev = hashRecord r' prev.
Proof.
  intros [= H1 H2 H3 H4 H5 H6 H7 H8 H9 H10]. unfold hashRecord, preimage. congruence.
Qed.

Record wf_record (r : record) : Prop := {
  wr_text : Forall (λ s, valid s = true)
    [r_At r; r_Task r; r_Tenant r; r_Phase r; r_Subject r; r_Action r; r_Decision r; r_Reason r;
     r_PrevHash r; r_ThisHash r; r_Sig r];
  wr_params : wf_value (r_Params r) = true
}.

(** A well-formed record reads back with the content that was hashed. *)
Lemma decoded_record_same r :
  wf_record r →
  content (decoded_record r) = content r ∧ r_PrevHash (decoded_record r) = r_PrevHash r ∧
  r_ThisHash (decoded_record r) = r_ThisHash r ∧ r_Sig (decoded_record r) = r_Sig r.
Proof.
  intros [Ht Hp]. rewrite !list.Forall_cons in Ht. destruct Ht as (?&?&?&?&?&?&?&?&?&?&?&_).
  unfold content, decoded_record. simpl. rewrite !coerce_valid, marshal_decoded by done. done.
Qed.

Lemma hashRecord_valid r prev : valid (hashRecord r prev) = true.
Proof. apply valid_ascii, word_text_ascii, hexadecimal_word, digest_hex. Qed.

Lemma last_hash_valid l : chained EmptyString l → valid (last_hash EmptyString l) = true.
Proof.
  destruct l as [|r l _] using rev_ind; [done|]. rewrite last_hash_snoc, chained_snoc. intros (_ & _ & ->).
  apply hashRecord_valid.
Qed.

Lemma wf_draft_inv now r :
  wf_draft now r = true →
  valid now = true ∧ valid (r_At r) = true ∧ valid (r_Tenant r) = true ∧ valid (r_Phase r) = true ∧
  valid (r_Subject r) = true ∧ valid (r_Action r) = true ∧ wf_value (r_Params r) = true ∧
  valid (r_Decision r) = true ∧ valid (r_Reason r) = true ∧ r_Sig r = EmptyString.
Proof. unfold wf_draft. rewrite !andb_true_iff, bool_decide_eq_true. tauto. Qed.

Lemma seal_fields armed redact now l seq r :
  let r' := seal armed redact now l seq r in
  r_Seq r' = seq ∧ r_Task r' = l_task l ∧ r_PrevHash r' = l_lastHash l ∧
  r_ThisHash r' = hashRecord r' (l_lastHash l) ∧
  r_Sig r' = (if armed then ed_sign (r_ThisHash r') else r_Sig r).
Proof. unfold seal. destruct redact, armed; repeat split. Qed.

Context `{!SigningKeyOk}.

Lemma seal_wf armed redact now l seq r :
  wf_draft now r = true → valid (l_task l) = true → valid (l_lastHash l) = true →
  wf_record (seal armed redact now l seq r).
Proof.
  intros (Hn & Hat & Hte & Hph & Hsu & Hac & Hpa & Hde & Hre & Hsig)%wf_draft_inv Htask Hlast.
  pose proof (seal_fields armed redact now l seq r) as (_ & Et & Ep & Eh & Es). split.
  - rewrite !list.Forall_cons. rewrite Et, Ep, Es, Eh. repeat split; try done; try apply hashRecord_valid.
    + unfold seal. destruct redact; simpl; by case_bool_decide.
    + unfold seal. by destruct redact.
    + unfold seal. by destruct redact.
    + unfold seal. destruct redact; simpl; [by apply RedactSecrets_valid|done].
    + unfold seal. destruct redact; simpl; [by apply RedactSecrets_valid|done].
    + unfold seal. by destruct redact.
    + unfold seal. destruct redact; simpl; [by apply RedactSecrets_valid|done].
    + destruct armed; [apply valid_ascii, ed_sign_ascii|by rewrite Hsig].
  - unfold seal. destruct redact; simpl; [by apply ScrubValue_wf|done].
Qed.

(** The row it becomes extends the chain. *)
Lemma seal_extends armed redact now f l r k :
  file_ok f → fresh f l → valid (l_task l) = true → wf_draft now r = true → 0 < k →
  let r' := seal armed redact now l (int64 (l_seq l + 1)) r in
  file_ok (LFile (lf_rows f ++ [Row k (decoded_record r')]) (lf_torn f)).
Proof.
  intros Hf [Hlast Hseq] Htask Hd Hk r'. destruct Hf as [Hc Hs Hl Ht Hg].
  assert (valid (l_lastHash l) = true) as Hv by (rewrite Hlast; by apply last_hash_valid).
  pose proof (seal_wf armed redact now l (int64 (l_seq l + 1)) r Hd Htask Hv) as Hwf.
  pose proof (seal_fields armed redact now l (int64 (l_seq l + 1)) r) as (Es & _ & Ep & Eh & Eg).
  pose proof (decoded_record_same _ Hwf) as (Dc & Dp & Dh & Dg). fold r' in Es, Ep, Eh, Eg, Dc, Dp, Dh, Dg.
  assert (recs (LFile (lf_rows f ++ [Row k (decoded_record r')]) (lf_torn f)) = recs f ++ [decoded_record r']) as Er.
  { unfold recs. cbn [lf_rows]. by rewrite fmap_app. }
  split; rewrite ?Er; cbn [lf_rows lf_torn].
  - apply chained_snoc. split; [done|]. rewrite <- Hlast. split; [congruence|].
    rewrite Dh, Eh. symmetry. by apply hashRecord_content.
  - intros i x Hx. apply lookup_app_Some in Hx as [Hx|[Hge Hx]]; [by apply Hs|].
    unfold recs in Hx, Hge. rewrite length_fmap in *.
    apply list_lookup_singleton_Some in Hx as [Hi <-]. change (r_Seq (decoded_record r')) with (r_Seq r').
    rewrite Es, Hseq. unfold zlen. rewrite int64_add_l. f_equal. lia.
  - apply Forall_app. split; [done|]. by repeat constructor.
  - done.
  - apply Forall_app. split; [done|]. constructor; [|constructor]. unfold sig_ok. rewrite Dg, Dh, Eg.
    destruct armed; [right; apply ed_sign_ok|left; by apply wf_draft_inv in Hd as (?&?&?&?&?&?&?&?&?&?)].
Qed.

(** ** Appending *)

Lemma encode_length r : 0 < row_len (line_row r).
Proof.
  unfold line_row, encode. cbn [row_len]. rewrite append_String. cbn [String.length]. lia.
Qed.

Lemma set_tail_handle f l h s o :
  handle_ok f l → tail_ok f (set_tail l h s o) → handle_ok f (set_tail l h s o).
Proof. intros [_ Hv Hp Hf Hc] Ht. by split. Qed.

Definition grown (f : ledger_file) (l : Ledger) (res : Ledger * ledger_file * result audit_err unit) : Prop :=
  let '(l', f', _) := res in file_ok f' ∧ grows f f' ∧ handle_ok f' l' ∧ l_f l' = l_f l ∧ l_redactor l' = l_redactor l.

Lemma grown_same f l l' e :
  file_ok f → handle_ok f l' → l_f l' = l_f l → l_redactor l' = l_redactor l → grown f l (l', f, Err e).
Proof. intros Hf Hh Hl Hr. split; [done|]. split; [apply grows_refl|done]. Qed.

Lemma tear_ok armed redact now f l r k :
  file_ok f → handle_ok f l → fresh f l → wf_draft now r = true →
  let f' := tear f k (seal armed redact now l (int64 (l_seq l + 1)) r) in
  file_ok f' ∧ grows f f'.
Proof.
  intros Hf Hh Hfr Hd f'. subst f'. unfold tear. cbv zeta.
  destruct (Z.leb_spec (Z.min k (row_len (line_row (seal armed redact now l (int64 (l_seq l + 1)) r)))) 0); [split; [done|apply grows_refl]|].
  destruct (_ <=? _).
  - split; [|by eexists]. apply seal_extends; try done. apply (ho_task f l Hh).
  - split; [|by exists []; rewrite app_nil_r]. destruct Hf as [Hc Hs Hl Ht Hg]. split; try done. simpl. lia.
Qed.

Lemma append_write_ok armed redact now a f l r :
  file_ok f → handle_ok f l → fresh f l → l_readOffset l = rows_size (lf_rows f) → wf_draft now r = true →
  grown f l (append_write armed redact now a l f r).
Proof.
  intros Hf Hh Hfr Hoff Hd. unfold append_write. cbv zeta.
  set (r' := seal armed redact now l (int64 (l_seq l + 1)) r).
  set (f' := LFile (lf_rows f ++ [line_row r']) (lf_torn f)).
  assert (grown f l
    (set_head (set_tail l (r_ThisHash r') (int64 (l_seq l + 1)) (l_readOffset l + row_len (line_row r')))
       (head_text (r_Seq r') (r_ThisHash r')) true
       (l_flushes (set_tail l (r_ThisHash r') (int64 (l_seq l + 1)) (l_readOffset l + row_len (line_row r')))),
     f', Ok tt)) as Hok.
  { pose proof (ho_task f l Hh) as Htask.
    assert (file_ok f') as Hf' by (apply seal_extends; try done; apply encode_length).
    assert (grows f f') as Hg by (by eexists).
    assert (valid (l_lastHash l) = true) as Hv by (rewrite (proj1 Hfr); by apply last_hash_valid, fo_chain).
    pose proof (decoded_record_same r' (seal_wf armed redact now l (int64 (l_seq l + 1)) r Hd Htask Hv)) as (_ & _ & Dh & _).
    assert (recs f' = recs f ++ [decoded_record r']) as Er by (unfold recs; cbn [lf_rows f']; by rewrite fmap_app).
    assert (r_Seq r' = int64 (l_seq l + 1)) as Es by (by apply seal_fields).
    assert (mark f' (head_text (r_Seq r') (r_ThisHash r'))) as Hm.
    { exists (length (recs f)), (decoded_record r'). rewrite Er, Dh. split; [by apply list_lookup_middle|done]. }
    pose proof (handle_ok_grows f f' l Hg Hh) as [_ _ _ Hfl Hcl].
    split; [done|]. split; [done|]. split; [|done]. split; simpl; try done; [|by left].
    eapply (tail_at_end _ _ (rows_size (lf_rows f'))); [|simpl|done].
    - split; simpl; [by rewrite Er, last_hash_snoc, Dh|]. rewrite (proj2 Hfr), int64_add_l. f_equal. unfold zlen.
      cbn [lf_rows f']. rewrite length_app. simpl. lia.
    - rewrite Hoff. unfold rows_size. cbn [lf_rows f']. by rewrite zsum_app, zsum_single. }
  destruct a as [| | |t| | |k trunc]; try exact Hok; try (by apply grown_same). destruct trunc; [|by apply grown_same].
  destruct (tear_ok armed redact now f l r k Hf Hh Hfr Hd) as [Hf' Hg].
  split; [done|]. split; [done|]. split; [by eapply handle_ok_grows|done].
Qed.

(** The file [Append] works on, created when the descriptor is opened. *)
Lemma opened_file l (file : option ledger_file) :
  (l_f l = true → is_Some file) →
  (if l_f l then file else Some (default (LFile [] 0) file)) = Some (default (LFile [] 0) file).
Proof. intros Ho. destruct (l_f l); [|done]. by destruct Ho as [g ->]. Qed.

Lemma append_ok armed enabled now a l file r :
  file_ok (default (LFile [] 0) file) → handle_ok (default (LFile [] 0) file) l → (l_f l = true → is_Some file) →
  wf_draft now r = true →
  let '(l', file', _) := Append armed enabled now a l file r in
  file_ok (default (LFile [] 0) file') ∧ grows (default (LFile [] 0) file) (default (LFile [] 0) file') ∧
  handle_ok (default (LFile [] 0) file') l' ∧ (is_Some file → is_Some file') ∧ (l_f l' = true → is_Some file') ∧
  l_redactor l' = l_redactor l.
Proof.
  intros Hf Hh Hopen Hd. set (f := default (LFile [] 0) file) in *.
  pose proof (grows_refl f) as Hrefl.
  pose proof (opened_file l file Hopen) as Hfile1. fold f in Hfile1.
  assert (handle_ok f (set_f l true)) as Hh1 by (destruct Hh as [Ht Hv Hp Hfl Hc]; by split).
  unfold Append. fold f. rewrite Hfile1.
  assert (∀ e0, let '(l', file', _) := (set_f l true, Some f, @Err audit_err unit e0) in
    file_ok (default (LFile [] 0) file') ∧ grows f (default (LFile [] 0) file') ∧
    handle_ok (default (LFile [] 0) file') l' ∧ (is_Some file → is_Some file') ∧ (l_f l' = true → is_Some file') ∧
    l_redactor l' = l_redactor l) as Hlock.
  { intros e0. by eauto 10. }
  assert (let '(l', file', _) :=
    match refreshTailLocked (tail_part a) (Some f) (set_f l true) with
    | (l2, Some e) => (l2, Some f, Err e)
    | (l2, None) =>
        let '(l3, f', res) := append_write armed (l_redactor l2 && enabled) now a l2 (default (LFile [] 0) (Some f)) r in
        (l3, (λ _, f') <$> Some f, res)
    end in
    file_ok (default (LFile [] 0) file') ∧ grows f (default (LFile [] 0) file') ∧
    handle_ok (default (LFile [] 0) file') l' ∧ (is_Some file → is_Some file') ∧ (l_f l' = true → is_Some file') ∧
    l_redactor l' = l_redactor l) as Hmain.
  { pose proof (refresh_ok (tail_part a) f (set_f l true) Hf (ho_tail _ _ Hh1)) as ((h & s & o & El) & Ht & Hfr).
    destruct (refreshTailLocked _ _ _) as [l2 [e|]]; simpl in El, Ht, Hfr; subst l2.
    - simpl. split; [done|]. split; [done|]. split; [by apply set_tail_handle|]. by eauto.
    - destruct (Hfr eq_refl) as (Hfresh & Hoff & _).
      pose proof (append_write_ok armed (l_redactor (set_tail (set_f l true) h s o) && enabled) now a f
        (set_tail (set_f l true) h s o) r Hf (set_tail_handle _ _ _ _ _ Hh1 Ht) Hfresh Hoff Hd) as Hg.
      cbn [default from_option id]. destruct (append_write _ _ _ _ _ _ _) as [[l3 f'] res]. destruct Hg as (? & ? & ? & ? & Hred).
      simpl. by eauto 12. }
  destruct a; [exact Hmain| |exact (Hlock ELock)|exact Hmain..]. destruct (l_f l) eqn:El; [exact Hmain|].
  split; [done|]. split; [done|]. split; [done|]. split; [done|]. split; [congruence|done].
Qed.

(** What [Append] did to the records, by its result. *)
Definition commits (armed redact : bool) (now : string) (f : ledger_file) (l : Ledger) (r : record)
    (f' : ledger_file) (res : result audit_err unit) : Prop :=
  let r' := seal armed redact now (set_tail l (last_hash EmptyString (recs f)) 0 0) (int64 (zlen (lf_rows f) + 1)) r in
  match res with
  | Ok _ => f' = LFile (lf_rows f ++ [line_row r']) 0
  | Err (EWrite true) => ∃ k, f' = tear f k r'
  | Err _ => f' = f
  end.

Lemma append_write_commits armed redact now a f l l0 r :
  file_ok f → handle_ok f l → fresh f l → lf_torn f = 0 → wf_draft now r = true → l_task l = l_task l0 →
  let '(_, f', res) := append_write armed redact now a l f r in commits armed redact now f l0 r f' res.
Proof.
  intros Hf Hh [Hlast Hseq] Ht Hd Htask.
  assert (seal armed redact now l (int64 (l_seq l + 1)) r =
          seal armed redact now (set_tail l0 (last_hash EmptyString (recs f)) 0 0) (int64 (zlen (lf_rows f) + 1)) r) as Es.
  { rewrite Hseq, int64_add_l. unfold seal, set_tail. cbn [l_task l_lastHash]. by rewrite Hlast, Htask. }
  unfold append_write. cbv zeta. destruct a as [| | |t| | |k []]; cbn [commits]; rewrite ?Es, ?Ht; try done. by exists k.
Qed.

Lemma append_commits_file armed enabled now a l file r :
  file_ok (default (LFile [] 0) file) → handle_ok (default (LFile [] 0) file) l → (l_f l = true → is_Some file) →
  wf_draft now r = true →
  let '(_, file', res) := Append armed enabled now a l file r in
  commits armed (l_redactor l && enabled) now (default (LFile [] 0) file) l r (default (LFile [] 0) file') res.
Proof.
  intros Hf Hh Hopen Hd. set (f := default (LFile [] 0) file) in *.
  pose proof (opened_file l file Hopen) as Hfile1. fold f in Hfile1.
  assert (handle_ok f (set_f l true)) as Hh1 by (destruct Hh as [Ht Hv Hp Hfl Hc]; by split).
  unfold Append. fold f. rewrite Hfile1.
  assert (let '(_, file', res) :=
    match refreshTailLocked (tail_part a) (Some f) (set_f l true) with
    | (l2, Some e) => (l2, Some f, Err e)
    | (l2, None) =>
        let '(l3, f', res) := append_write armed (l_redactor l2 && enabled) now a l2 (default (LFile [] 0) (Some f)) r in
        (l3, (λ _, f') <$> Some f, res)
    end in commits armed (l_redactor l && enabled) now f l r (default (LFile [] 0) file') res) as Hmain.
  { pose proof (refresh_ok (tail_part a) f (set_f l true) Hf (ho_tail _ _ Hh1)) as ((h & s & o & El) & Ht & Hfr).
    destruct (refreshTailLocked _ _ _) as [l2 [e|]]; simpl in El, Ht, Hfr; subst l2.
    - cbn [commits default from_option id]. destruct e as [| | | | | |[]| | | | |]; try done. exists 0.
      unfold tear. cbv zeta. by rewrite Z.min_l by (apply Z.lt_le_incl, encode_length).
    - destruct (Hfr eq_refl) as (Hfresh & Hoff & Htz).
      pose proof (append_write_commits armed (l_redactor (set_tail (set_f l true) h s o) && enabled) now a f
        (set_tail (set_f l true) h s o) l r Hf (set_tail_handle _ _ _ _ _ Hh1 Ht) Hfresh Htz Hd eq_refl) as Hg.
      cbn [default from_option id]. destruct (append_write _ _ _ _ _ _ _) as [[l3 f'] res]. exact Hg. }
  destruct a; [exact Hmain| |reflexivity|exact Hmain..]. destruct (l_f l) eqn:El; [exact Hmain|reflexivity].
Qed.

(** Without a fault and without a torn tail, [Append] succeeds. *)
Lemma append_succeeds armed enabled now l file r :
  file_ok (default (LFile [] 0) file) → handle_ok (default (LFile [] 0) file) l → (l_f l = true → is_Some file) →
  lf_torn (default (LFile [] 0) file) = 0 → (Append armed enabled now AFNone l file r).2 = Ok tt.
Proof.
  intros Hf Hh Hopen Htz. set (f := default (LFile [] 0) file) in *.
  pose proof (opened_file l file Hopen) as Hfile1. fold f in Hfile1.
  unfold Append. fold f. rewrite Hfile1.
  destruct Hh as [(k & Hk & Hoff & Hfr) _ _ _ _].
  assert ((refreshTailLocked TNone (Some f) (set_f l true)).2 = None) as Hr.
  { unfold refreshTailLocked. change (l_readOffset (set_f l true)) with (l_readOffset l).
    pose proof (rows_size_split k (lf_rows f)). pose proof (rows_size_nonneg _ (Forall_drop _ k _ (fo_len f Hf))).
    unfold lf_size. rewrite (proj2 (Z.ltb_ge _ (l_readOffset l))) by lia. destruct (_ =? _); [done|].
    unfold resumeTail. change (l_readOffset (set_f l true)) with (l_readOffset l).
    rewrite Hoff, rows_from_aligned by (apply fo_len || done; done). destruct (scan_tail _ _ _). rewrite Htz. done. }
  cbn [tail_part]. destruct (refreshTailLocked TNone (Some f) (set_f l true)) as [l2 [e|]]; [done|]. done.
Qed.

(** ** Every event keeps the invariant *)

Lemma taskIDRegex_valid task : taskIDRegex task = true → valid task = true.
Proof.
  unfold taskIDRegex. rewrite !andb_true_iff. intros [_ Hc]. apply valid_ascii. unfold ascii_text.
  apply list.Forall_forall. intros a Ha. rewrite forallb_forall in Hc. apply list_elem_of_In, Hc in Ha.
  unfold task_char in Ha. lia.
Qed.

Lemma winv_insert w file' head' h l' :
  winv w → grows (the_file w) (default (LFile [] 0) file') → file_ok (default (LFile [] 0) file') →
  (∀ t, head' = Some t → mark (default (LFile [] 0) file') t) →
  handle_ok (default (LFile [] 0) file') l' → (is_Some (w_file w) → is_Some file') → (l_f l' = true → is_Some file') →
  winv (mkWorld file' head' (<[h := l']> (w_handles w))).
Proof.
  intros [Hf Hh Hl Ho] Hg Hf' Hh' Hl' Hs Ho'. split; cbn [the_file w_file w_head w_handles]; try done.
  - unfold the_file. cbn [w_file]. apply map_Forall_insert_2; [done|]. intros i l Hi.
    by eapply handle_ok_grows, Hl.
  - intros i l. rewrite lookup_insert_Some. intros [[<- <-]|[_ Hi]] Hlf; [by apply Ho'|]. by eapply Hs, Ho.
Qed.

Lemma winv_handle w head' h l l' :
  winv w → w_handles w !! h = Some l → handle_ok (the_file w) l' → (l_f l' = true → l_f l = true) →
  (∀ t, head' = Some t → mark (the_file w) t) →
  winv (mkWorld (w_file w) head' (<[h := l']> (w_handles w))).
Proof.
  intros Hw Hl Hl' Hlf Hh'. pose proof Hw as [Hf _ _ Ho]. apply winv_insert; try done; [apply grows_refl|].
  intros H1. by eapply Ho, Hlf.
Qed.

Lemma writeHead_mark f hf text head head' ok :
  mark f text → (∀ t, head = Some t → mark f t) → writeHeadAtomic hf text head = (head', ok) →
  ∀ t, head' = Some t → mark f t.
Proof. unfold writeHeadAtomic. intros Hm Hh Hw t Ht. destruct hf; simplify_eq; auto. Qed.

Lemma flush_end_ok f hf i l head :
  handle_ok f l → (∀ t, head = Some t → mark f t) →
  let '(l', head') := flush_end hf i l head in
  handle_ok f l' ∧ l_f l' = l_f l ∧ ∀ t, head' = Some t → mark f t.
Proof.
  intros Hh Hhead. unfold flush_end. destruct (l_flushes l !! i) as [text|] eqn:E; [|done].
  assert (mark f text) as Hm by (eapply (Forall_lookup_1 _ _ i); [apply (ho_flushes f l Hh)|done]).
  destruct (writeHeadAtomic hf text head) as [head' ok] eqn:Ew.
  split; [|split; [done|by eapply writeHead_mark]]. destruct Hh as [Ht Hv Hp Hfl Hc]. split; simpl; try done.
  - destruct Hp as [Hp|[_ Hp]]; [by left|]. by rewrite Hp in E.
  - by apply Forall_delete.
Qed.

Lemma flush_begin_ok f l : handle_ok f l → handle_ok f (flush_begin l).
Proof.
  intros Hh. unfold flush_begin. destruct (l_headDirty l) eqn:E; [|done].
  destruct Hh as [Ht Hv [Hp|[Hp _]] Hfl Hc]; [|congruence]. split; simpl; try done; [by left|].
  apply Forall_app. split; [done|]. by repeat constructor.
Qed.

Lemma close_begin_ok f l : handle_ok f l → handle_ok f (close_begin l).
Proof.
  intros [Ht Hv Hp Hfl Hc]. split; simpl; try done; [destruct Hp as [Hp|[_ ?]]; [by left|by right]|].
  intros t. destruct (l_headDirty l); simpl; [|done]. case_bool_decide; simpl; [done|].
  intros [= <-]. by destruct Hp as [Hp|[? _]].
Qed.

Lemma close_end_ok f hf l head :
  handle_ok f l → (∀ t, head = Some t → mark f t) →
  let '(l', head', _) := close_end hf l head in
  handle_ok f l' ∧ l_f l' = l_f l ∧ ∀ t, head' = Some t → mark f t.
Proof.
  intros Hh Hhead. unfold close_end. destruct (l_closing l) as [text|] eqn:E; [|done].
  pose proof (ho_closing f l Hh text E) as Hm.
  destruct (writeHeadAtomic hf text head) as [head' ok] eqn:Ew.
  split; [|split; [done|by eapply writeHead_mark]].
  destruct Hh as [Ht Hv Hp Hfl Hc]. by split.
Qed.

Lemma open_ok mk t task red file l :
  file_ok (default (LFile [] 0) file) → Open mk t task red file = Ok l →
  handle_ok (default (LFile [] 0) file) l ∧ l_f l = false.
Proof.
  intros Hf. unfold Open. destruct (taskIDRegex task) eqn:Et; simpl; [|done]. destruct mk; simpl; [|done].
  pose proof (taskIDRegex_valid _ Et) as Hv. set (l0 := mkLedger _ _ _ _ _ _ _ _ _ _ _).
  assert (∀ h s o, tail_ok (default (LFile [] 0) file) (set_tail l0 h s o) →
    handle_ok (default (LFile [] 0) file) (set_tail l0 h s o)) as Hnew.
  { intros h s o Ht. split; [done|done|by right|constructor|done]. }
  destruct (loadTail t file l0) as [l' [e|]] eqn:El; [done|]. intros [= <-]. destruct file as [f|].
  - apply load_ok in El as [(h & s & o & ->) Ht]; [|done]. split; [by apply Hnew|done].
  - assert (l' = set_tail l0 "" 0 0) as -> by (destruct t; by injection El as <-).
    split; [|done]. apply Hnew. exists 0%nat. by split.
Qed.

Lemma exec_inv task ev w : winv w → wf_event ev = true → winv (exec task ev w).
Proof.
  intros Hw Hev. pose proof Hw as [Hf Hhd Hl Ho]. destruct ev as [h mk t red|h ar en now a r|h|h hf i|h|h hf]; simpl.
  - destruct (Open mk t task red (w_file w)) as [l|e] eqn:E; [|done]. apply open_ok in E as [Hh Hlf]; [|done].
    apply winv_insert; try done; [apply grows_refl|congruence].
  - destruct (w_handles w !! h) as [l|] eqn:E; [|done].
    pose proof (append_ok ar en now a l (w_file w) r Hf (Hl _ _ E) (Ho _ _ E) Hev) as Ha.
    destruct (Append _ _ _ _ _ _ _) as [[l' file'] res]. destruct Ha as (Hf' & Hg & Hl' & Hs & Hlf & _).
    apply winv_insert; try done. intros t Ht. by eapply mark_grows, Hhd.
  - destruct (w_handles w !! h) as [l|] eqn:E; [|done]. eapply winv_handle; try done.
    + apply flush_begin_ok, (Hl _ _ E).
    + unfold flush_begin. by destruct (l_headDirty l).
  - destruct (w_handles w !! h) as [l|] eqn:E; [|done].
    pose proof (flush_end_ok (the_file w) hf i l (w_head w) (Hl _ _ E) Hhd) as Hfe.
    destruct (flush_end hf i l (w_head w)) as [l' head']. destruct Hfe as (Hl' & Hlf & Hh').
    eapply winv_handle; try done. congruence.
  - destruct (w_handles w !! h) as [l|] eqn:E; [|done]. eapply winv_handle; try done.
    apply close_begin_ok, (Hl _ _ E).
  - destruct (w_handles w !! h) as [l|] eqn:E; [|done].
    pose proof (close_end_ok (the_file w) hf l (w_head w) (Hl _ _ E) Hhd) as Hce.
    destruct (close_end hf l (w_head w)) as [[l' head'] ok]. destruct Hce as (Hl' & Hlf & Hh').
    eapply winv_handle; try done. congruence.
Qed.

Lemma winv_empty : winv empty_world.
Proof.
  split; try done.
Qed.

Lemma run_inv task evs : forallb wf_event evs = true → winv (run task evs).
Proof.
  unfold run. generalize winv_empty. generalize empty_world. induction evs as [|ev evs IH]; intros w Hw He; [done|].
  apply forallb_cons_inv in He as [Hev He]. simpl. apply IH; [by apply exec_inv|done].
Qed.

(** ** Verification of what a run leaves *)

Lemma file_ok_signed armed f : file_ok f → Forall (λ w, signed armed (row_rec w)) (lf_rows f).
Proof.
  intros Hf. pose proof (fo_sig f Hf) as Hs. unfold recs in Hs. rewrite Forall_fmap in Hs.
  eapply list.Forall_impl; [exact Hs|]. intros w [Hw|Hw] ->; unfold Signer_Verify; simpl in *.
  - by rewrite Hw.
  - case_bool_decide; [done|exact Hw].
Qed.

Lemma chained_prefix_hash f i r :
  file_ok f → recs f !! i = Some r → word_text (r_ThisHash r) ∧ r_ThisHash r ≠ EmptyString.
Proof.
  intros Hf Hi. pose proof (fo_chain f Hf) as Hc. rewrite <- (take_drop_middle _ _ _ Hi) in Hc.
  apply chained_app in Hc as [_ (_ & -> & _)]. split; [apply hexadecimal_word, digest_hex|apply hashRecord_nonempty].
Qed.

Lemma verify_file_ok armed f head :
  file_ok f → lf_torn f = 0 → (∀ t, head = Some t → mark f t) → zlen (lf_rows f) < 2^63 →
  Verify armed (Some f) head = (zlen (lf_rows f), None).
Proof.
  intros Hf Ht Hh Hn. unfold Verify.
  rewrite verify_rows_ok by (apply fo_chain || apply file_ok_signed; done). rewrite Ht. change (0 <? 0) with false. cbv iota.
  rewrite Z.add_0_l. destruct head as [t|]; [|done].
  destruct (Hh t eq_refl) as (i & r & Hi & ->). destruct (chained_prefix_hash f i r Hf Hi) as [Hw Hne].
  assert (i < length (lf_rows f))%nat as Hlt.
  { apply lookup_lt_Some in Hi. unfold recs in Hi. by rewrite length_fmap in Hi. }
  unfold zlen in *. rewrite (fo_seq f Hf i r Hi), int64_small by lia.
  rewrite readHead_text by (done || lia).
  rewrite (proj2 (Z.ltb_ge _ _)) by lia. destruct (Z.eqb_spec (Z.of_nat (length (lf_rows f))) (Z.of_nat i + 1)) as [E|]; [|reflexivity].
  simpl. rewrite bool_decide_eq_true_2; [done|]. change (row_rec <$> lf_rows f) with (recs f).
  unfold last_hash. rewrite last_lookup. unfold recs at 1. rewrite length_fmap.
  replace (pred (length (lf_rows f))) with i by lia. by rewrite Hi.
Qed.

End Run.
