(* ===== verification/Policy.v ===== *)
(** * The tool gateway (internal/policy)

    [gateway.go] and the executors of [executor.go].  The gateway decides a tool
    call by its rules, asks for an approval ticket where a rule says so, runs the
    host-side executor, scrubs what goes back to the agent and records the
    decision.  Its hooks and its ledger act on the rest of the system, so the
    gateway is stated over any state [W] they act on. *)

From stdpp Require Import pretty.
From S2P Require Import Prelude Json Strconv Redact AuditLedger.

(** ** Data *)

(** [Action] is a string type: rules may carry other values than these. *)
Definition Action : Type := string.
Definition ActionAllow : Action := "allow".
Definition ActionConstrain : Action := "constrain".
Definition ActionApprove : Action := "approve".
Definition ActionDeny : Action := "deny".

(** [Args] and [Result] are maps that may be nil. *)
Record ToolRequest := mkRequest { q_Name : string; q_Args : option (list (string * value)); q_Effect : string }.

Record ToolResponse := mkResponse {
  p_OK : bool; p_Summary : string; p_Result : option (list (string * value)); p_Reason : string
}.

Definition no_response : ToolResponse := mkResponse false "" None "".

(** A map as a value: nil encodes as null. *)
Definition args_value (a : option (list (string * value))) : value :=
  match a with Some kvs => VMap kvs | None => VNil end.

(** [ScrubValue] of a possibly nil map gives a map. *)
Definition scrub_map (m : list (string * value)) : list (string * value) :=
  match ScrubValue (VMap m) with VMap m' => m' | _ => [] end.

Inductive policy_err := ErrDenied | ErrApprovalRequired | EExecutor (text : string).

Record Rule := mkRule { u_Name : string; u_Action : Action; u_Effect : string; u_Reason : string }.

(** ** Rules *)

Definition catch_all : Rule := mkRule "*" ActionDeny "" "no matching allow rule".

Definition compile_catch_all (rules : list Rule) : list Rule :=
  if existsb (λ r, bool_decide (u_Name r = "*"%string)) rules then rules else rules ++ [catch_all].

(** A specification's rules: name, action, effect, reason. *)
Definition CompileRules (raw : list (string * string * string * string)) : list Rule :=
  (λ '(name, action, effect, reason),
     let act := ToLower action in
     mkRule name (if bool_decide (act = EmptyString) then ActionDeny else act) effect reason) <$> raw.

Definition rule_applies (r : Rule) (req : ToolRequest) : bool :=
  (bool_decide (u_Name r = q_Name req) || bool_decide (u_Name r = "*"%string)) &&
  (bool_decide (u_Effect r = EmptyString) || bool_decide (u_Effect r = q_Effect req)).

(** The loop over the rules, with its [continue]. *)
Fixpoint decide_loop (rules : list Rule) (req : ToolRequest) : Action * Rule :=
  match rules with
  | [] => (ActionDeny, mkRule "*" ActionDeny "" "")
  | r :: rules' =>
      if bool_decide (u_Name r = q_Name req) || bool_decide (u_Name r = "*"%string) then
        if negb (bool_decide (u_Effect r = EmptyString)) && negb (bool_decide (u_Effect r = q_Effect req))
        then decide_loop rules' req
        else (u_Action r, r)
      else decide_loop rules' req
  end.

(** ** Responses *)

Definition sanitize (p : ToolResponse) : ToolResponse :=
  mkResponse (p_OK p) (RedactSecrets (p_Summary p)) (scrub_map <$> p_Result p) (RedactSecrets (p_Reason p)).

Definition is_action (a b : Action) : bool := bool_decide (a = b).

Section Gateway.
Context {W : Type}.

(** A hook may be nil.  The executor's error is its text. *)
Record Gateway := mkGateway {
  gw_rules : list Rule;
  gw_ledger : option (record → W → W);
  gw_executor : option (ToolRequest → W → W * result string ToolResponse);
  gw_approvalCheck : option (ToolRequest → W → W * option string);
  gw_onApproved : option (string → W → W)
}.

Definition NewGateway (rules : list Rule) (ledger : option (record → W → W)) : Gateway :=
  mkGateway (compile_catch_all rules) ledger None None None.

(** [if x == nil && y != nil { x = y }]. *)
Definition fill {A} (x y : option A) : option A := match x with None => y | Some _ => x end.

Definition SetRuntimeOnce (g : Gateway) ex chk on : Gateway :=
  mkGateway (gw_rules g) (gw_ledger g) (fill (gw_executor g) ex) (fill (gw_approvalCheck g) chk)
    (fill (gw_onApproved g) on).

Definition Decide (g : Gateway) (req : ToolRequest) : Action * Rule := decide_loop (gw_rules g) req.

(** *** The audit record of a decision *)

Definition decision_record (req : ToolRequest) (dec reason : string) : record :=
  draft "" "execution" "agent" ("tool:" ++ q_Name req)
    (VMap (scrub_map (default [] (q_Args req)))) dec (RedactSecrets reason).

Definition audit (g : Gateway) (req : ToolRequest) (dec reason : string) (w : W) : W :=
  match gw_ledger g with
  | None => w
  | Some append => append (decision_record req dec reason) w
  end.

(** *** Execute *)

Definition run_executor (g : Gateway) (req : ToolRequest) (err_prefix : string)
    (done_ : option (string * string)) (ex : ToolRequest → W → W * result string ToolResponse) (w : W) :
    W * (ToolResponse * option policy_err) :=
  match ex req w with
  | (w, Err e) => (audit g req "deny" (err_prefix ++ e) w, (no_response, Some (EExecutor e)))
  | (w, Ok resp) =>
      (match done_ with Some (dec, reason) => audit g req dec reason w | None => w end, (sanitize resp, None))
  end.

Definition execute_approve (g : Gateway) (req : ToolRequest) (rule : Rule) (w : W) : W * (ToolResponse * option policy_err) :=
  let required w :=
    (audit g req "approve" ("approval required: " ++ u_Reason rule) w,
     (mkResponse false "" None "approval required", Some ErrApprovalRequired)) in
  match gw_approvalCheck g with
  | None => required w
  | Some check =>
      match check req w with
      | (w, None) => required w
      | (w, Some ticket) =>
          let w := match gw_onApproved g with Some on => on ticket w | None => w end in
          let w := audit g req "allow" ("unlocked by approved ticket " ++ ticket) w in
          match gw_executor g with
          | None =>
              (w, (mkResponse true (q_Name req ++ ": simulated (no executor), unlocked by ticket " ++ ticket) None "", None))
          | Some ex => run_executor g req "executor error (approved): " None ex w
          end
      end
  end.

Definition execute_permitted (g : Gateway) (req : ToolRequest) (act : Action) (w : W) : W * (ToolResponse * option policy_err) :=
  let dec := if is_action act ActionConstrain then "constrain"%string else "allow"%string in
  match gw_executor g with
  | None => (audit g req dec ("dry-run " ++ act) w, (mkResponse true (q_Name req ++ ": simulated (no executor)") None "", None))
  | Some ex => run_executor g req "executor error: " (Some (dec, ("executed " ++ act)%string)) ex w
  end.

Definition Execute (g : Gateway) (req : ToolRequest) (w : W) : W * (ToolResponse * option policy_err) :=
  let '(act, rule) := Decide g req in
  if is_action act ActionDeny then
    (audit g req "deny" ("denied by rule: " ++ u_Reason rule) w,
     (mkResponse false "" None ("denied: " ++ u_Reason rule), Some ErrDenied))
  else if is_action act ActionApprove then execute_approve g req rule w
  else if is_action act ActionAllow || is_action act ActionConstrain then execute_permitted g req act w
  else (w, (no_response, Some ErrDenied)).

End Gateway.
Arguments Gateway : clear implicits.

(** ** Executors (executor.go)

    [ConsoleExecutor] runs a command in the guest's console; the session is the
    guest's ([session]: what the lookup and the command return). *)

Record console_result := mkConsole { c_Stdout : string; c_ExitCode : Z; c_DurationMs : Z }.

(** [s[:n]], in bytes. *)
Definition take_bytes (n : nat) (s : string) : string := String.substring 0 n s.

(** U+2026. *)
Definition ellipsis : string :=
  String (Ascii.ascii_of_nat 0xE2) (String (Ascii.ascii_of_nat 0x80) (String (Ascii.ascii_of_nat 0xA6) EmptyString)).

(** [req.Args["cmd"].(string)], empty when it is absent or not a string. *)
Definition command (req : ToolRequest) : string :=
  let cmd := match list_find (λ kv, kv.1 = "cmd"%string) (default [] (q_Args req)) with
             | Some (_, (_, VStr s)) => s
             | _ => EmptyString
             end in
  if bool_decide (cmd = EmptyString) then q_Name req else cmd.

Definition ConsoleExecutor (session : result string (string → result string console_result)) (req : ToolRequest) :
    result string ToolResponse :=
  match session with
  | Err e => Err ("policy: console executor: " ++ e)%string
  | Ok exec =>
      match exec (command req) with
      | Err e => Err e
      | Ok res =>
          let s := TrimSpace (c_Stdout res) in
          let summary := if (400 <? String.length s)%nat then (take_bytes 400 s ++ ellipsis)%string else s in
          Ok (mkResponse (c_ExitCode res =? 0) summary
               (Some [("duration_ms", VInt (c_DurationMs res)); ("exit_code", VInt (c_ExitCode res));
                      ("guest_attested", VBool true); ("output_bytes", VInt (Z.of_nat (String.length (c_Stdout res))));
                      ("simulated", VBool false)]%string) "")
      end
  end.

Definition SimExecutor (req : ToolRequest) : result string ToolResponse :=
  Ok (mkResponse true (q_Name req ++ ": simulated execution (PVM_EXEC_SIM)")
       (Some [("exit_code", VInt 0); ("simulated", VBool true)]%string) "").
