(* ===== verification/PolicySpec.v ===== *)
(** * The gateway over the approval store

    The runtime [internal/api/exec_runtime.go] wires into a gateway: claims go to
    the approval manager, executions to the host, decisions to the ledger.  The
    system's history - approvals, claims, executions, audit records - under any
    order of ticket operations and tool calls. *)

From S2P Require Import Prelude FsJson Json Redact RedactSpec AuditLedger Approval ApprovalSpec Policy.

(** ** Decisions *)

(** The reference: the first rule that names the tool and covers the effect. *)
Definition first_rule (rules : list Rule) (req : ToolRequest) : option Rule :=
  head (filter (λ r, rule_applies r req = true) rules).

Lemma decide_loop_first rules req :
  decide_loop rules req =
  match first_rule rules req with Some r => (u_Action r, r) | None => (ActionDeny, mkRule "*" ActionDeny "" "") end.
Proof.
  unfold first_rule. induction rules as [|r rules IH]; [done|]. cbn [decide_loop].
  destruct (rule_applies r req) eqn:E.
  - rewrite filter_cons_True by done. simpl. unfold rule_applies in E. apply andb_prop in E as [-> E].
    rewrite <- negb_orb, E. done.
  - rewrite filter_cons_False by (rewrite E; discriminate). rewrite IH. unfold rule_applies in E. apply andb_false_iff in E as [->|E]; [done|].
    rewrite <- negb_orb, E. cbn [negb]. by destruct (bool_decide (u_Name r = q_Name req) || _).
Qed.

(** ** The wired system *)

(** Parameters of tickets are the gateway's arguments. *)
#[global] Instance args_json : Approval.Json := {| params := value; Marshal v := Some (marshal true v) |}.

Record system := mkSystem {
  s_app : ApprovalSpec.world;
  s_unlocked : option string;                      (* the ticket [onApproved] was told of *)
  s_execs : list (ToolRequest * option string);    (* executions, with the ticket behind each *)
  s_log : list record
}.

Definition s0 : system := mkSystem w0 None [] [].

(** The environment of one call: the store write that fails, the walk over the
    tickets, the executor's outcome. *)
Record call_env := { ce_write : option io_step; ce_order : list string; ce_out : result string ToolResponse }.

Section Wiring.
Context (task : string) (rules : list Rule).

Definition claim_op (e : call_env) (req : ToolRequest) : aop :=
  OpClaim (ce_write e) (ce_order e) task (q_Name req) (args_value (q_Args req)).

(** [ensureGatewayRuntime]'s three hooks. *)
Definition claim_hook (e : call_env) (req : ToolRequest) (s : system) : system * option string :=
  (mkSystem (wrun (claim_op e req) (s_app s)) (s_unlocked s) (s_execs s) (s_log s),
   (ClaimFor (ce_write e) (ce_order e) task (q_Name req) (args_value (q_Args req)) (wd_m (s_app s))).2).

Definition approved_hook (ticket : string) (s : system) : system :=
  mkSystem (s_app s) (Some ticket) (s_execs s) (s_log s).

Definition executor_hook (e : call_env) (req : ToolRequest) (s : system) : system * result string ToolResponse :=
  (mkSystem (s_app s) None (s_execs s ++ [(req, s_unlocked s)]) (s_log s), ce_out e).

Definition log_append (r : record) (s : system) : system :=
  mkSystem (s_app s) (s_unlocked s) (s_execs s) (s_log s ++ [r]).

Definition wired (e : call_env) : Gateway system :=
  SetRuntimeOnce (NewGateway rules (Some log_append)) (Some (executor_hook e)) (Some (claim_hook e)) (Some approved_hook).

Definition call (e : call_env) (req : ToolRequest) (s : system) : system * (ToolResponse * option policy_err) :=
  Execute (wired e) req s.

Inductive sys_step (s : system) : system → Prop :=
| SysTicket op : op_ok op (s_app s) → sys_step s (mkSystem (wrun op (s_app s)) (s_unlocked s) (s_execs s) (s_log s))
| SysCall e req : sys_step s (call e req s).1.

(** ** Invariant *)

Definition verdict (req : ToolRequest) : Action := (decide_loop (compile_catch_all rules) req).1.

(** Why an execution happened. *)
Definition justified (A : list approval) (x : ToolRequest * option string) : Prop :=
  match x.2 with
  | None => verdict x.1 = ActionAllow ∨ verdict x.1 = ActionConstrain
  | Some id =>
      verdict x.1 = ActionApprove ∧
      ∃ a, a ∈ A ∧ k_ID (ap_ticket a) = id ∧ k_TaskID (ap_ticket a) = task ∧ k_Tool (ap_ticket a) = q_Name x.1 ∧
           sameParams (k_Params (ap_ticket a)) (args_value (q_Args x.1)) = true ∧ ap_at a ≤ k_Deadline (ap_ticket a)
  end.

Definition tickets_used (s : system) : list string := omap snd (s_execs s).

Record sinv (s : system) : Prop := {
  si_app : winv (wd_m (s_app s)) (wd_approvals (s_app s)) (wd_claimed (s_app s)) (wd_used (s_app s));
  si_idle : s_unlocked s = None;
  si_just : Forall (justified (wd_approvals (s_app s))) (s_execs s);
  si_used : tickets_used s `sublist_of` wd_claimed (s_app s)
}.

Lemma justified_mono A A' x : (∀ a, a ∈ A → a ∈ A') → justified A x → justified A' x.
Proof.
  intros Hsub. unfold justified. destruct x.2; [|done]. intros (Hv & a & Ha & Hr). split; [done|]. exists a. auto.
Qed.

Lemma ticket_sinv op s :
  op_ok op (s_app s) → sinv s → sinv (mkSystem (wrun op (s_app s)) (s_unlocked s) (s_execs s) (s_log s)).
Proof.
  intros Hok [Ha Hi Hj Hu]. split; cbn [s_app s_unlocked s_execs]; try done.
  - by apply run_winv.
  - eapply list.Forall_impl; [exact Hj|]. intros x. apply justified_mono. intros a. simpl. set_solver.
  - simpl. by apply sublist_inserts_r.
Qed.

Lemma log_sinv r s : sinv s → sinv (log_append r s).
Proof. intros [Ha Hi Hj Hu]. by split. Qed.

Lemma exec_sinv e req s id :
  winv (wd_m (s_app s)) (wd_approvals (s_app s)) (wd_claimed (s_app s)) (wd_used (s_app s)) →
  s_unlocked s = id → Forall (justified (wd_approvals (s_app s))) (s_execs s) →
  justified (wd_approvals (s_app s)) (req, id) →
  (tickets_used s ++ option_list id) `sublist_of` wd_claimed (s_app s) →
  sinv (executor_hook e req s).1.
Proof.
  intros Ha <- Hj Hx Hu. split; simpl; try done.
  - apply Forall_app. split; [done|]. by repeat constructor.
  - unfold tickets_used in *. simpl. rewrite omap_app. by destruct (s_unlocked s).
Qed.

Lemma run_executor_sinv (g : Gateway system) req pre d e s :
  gw_ledger g = Some log_append → sinv (executor_hook e req s).1 →
  sinv (run_executor g req pre d (executor_hook e) s).1.
Proof.
  intros Hg Hx. unfold run_executor, audit. rewrite Hg. destruct (executor_hook e req s) as [s2 [p|err]]; simpl in *.
  - destruct d as [[dec reason]|]; [by apply log_sinv|done].
  - by apply log_sinv.
Qed.

Lemma call_sinv e req s : sinv s → sinv (call e req s).1.
Proof.
  intros Hs. unfold call, Execute. change (Decide (wired e) req) with (decide_loop (compile_catch_all rules) req).
  destruct (decide_loop (compile_catch_all rules) req) as [act rule] eqn:Ed.
  assert (verdict req = act) as Hv by (unfold verdict; by rewrite Ed).
  unfold is_action. destruct (bool_decide_reflect (act = ActionDeny)); [by apply log_sinv|].
  destruct (bool_decide_reflect (act = ActionApprove)) as [->|].
  - unfold execute_approve, wired. cbn [gw_approvalCheck SetRuntimeOnce NewGateway fill claim_hook].
    pose proof (ticket_sinv (claim_op e req) s I Hs) as Hs1.
    destruct (ClaimFor _ _ _ _ _ (wd_m (s_app s))).2 as [id|] eqn:Ec; [|by apply log_sinv].
    pose proof (claim_approved _ _ _ _ _ _ _ _ _ _ (si_app s Hs) Ec) as (a & Ha & Hr).
    unfold audit. cbn [gw_onApproved gw_executor gw_ledger SetRuntimeOnce NewGateway fill].
    match goal with |- sinv (run_executor _ _ _ _ _ ?x).1 => set (s1 := x) end.
    apply run_executor_sinv; [done|]. destruct Hs1 as [Hi1 _ Hj1 _]. apply (exec_sinv e req s1 (Some id)); try done.
    + split; [done|]. exists a. split; [|done]. subst s1. simpl. set_solver.
    + subst s1. simpl. rewrite Ec. apply sublist_app; [apply (si_used s Hs)|done].
  - destruct (_ || _) eqn:Eo; [|done]. unfold execute_permitted, wired.
    cbn [gw_executor SetRuntimeOnce NewGateway fill]. apply run_executor_sinv; [done|].
    destruct Hs as [Hi1 Hu1 Hj1 Hs1]. apply (exec_sinv e req s None); try done.
    + unfold justified. simpl. rewrite Hv. apply orb_prop in Eo as [Eo|Eo]; apply bool_decide_eq_true_1 in Eo; auto.
    + simpl. by rewrite app_nil_r.
Qed.

Lemma reachable_sinv s : rtc sys_step s0 s → sinv s.
Proof.
  assert (sinv s0) as H0.
  { split; simpl; [|done|constructor|done]. apply new_winv; simpl; [done|constructor|]. by intros id ?%not_elem_of_nil. }
  intros Hr. revert H0. induction Hr as [|s1 s2 s3 Hstep _ IH]; [done|]. intros H1. apply IH.
  destruct Hstep as [op Hok|e req]; [by apply ticket_sinv|by apply call_sinv].
Qed.
End Wiring.

Lemma first_rule_lookup rules req r :
  first_rule rules req = Some r →
  ∃ i, rules !! i = Some r ∧ rule_applies r req = true ∧
       ∀ j r', (j < i)%nat → rules !! j = Some r' → rule_applies r' req = false.
Proof.
  unfold first_rule. induction rules as [|h rules IH]; [done|]. destruct (rule_applies h req) eqn:E.
  - rewrite filter_cons_True by done. intros [= <-]. exists 0%nat. repeat split; [done|]. lia.
  - rewrite filter_cons_False by (rewrite E; discriminate). intros (i & Hi & Ha & Hb)%IH. exists (S i). repeat split; [done..|].
    intros [|j] r' Hj Hr'; simpl in Hr'; [congruence|]. apply (Hb j r'); [lia|done].
Qed.

Lemma sanitize_scrubbed p :
  token_free (p_Summary (sanitize p)) = true ∧ token_free (p_Reason (sanitize p)) = true ∧
  scrubbed (VMap (default [] (p_Result (sanitize p)))) = true.
Proof.
  unfold sanitize. cbn [p_Summary p_Reason p_Result]. split; [apply RedactSecrets_token_free|].
  split; [apply RedactSecrets_token_free|]. destruct (p_Result p) as [m|]; [|done]. exact (ScrubValue_scrubbed (VMap m)).
Qed.
