(* ===== verification/PolicyClaims.v ===== *)
(** * Properties of the tool gateway *)

From S2P Require Import Prelude FsJson Json Redact RedactSpec AuditLedger Approval ApprovalSpec Policy PolicySpec.

(** C7. No dangerous execution without its own approval.  Whatever the order of
    ticket operations, restarts, failing store writes and tool calls: every
    execution the gateway ran was permitted by a rule outright, or its rule
    demands approval and it used a ticket that someone approved before its
    deadline for the same task, tool and arguments; and no ticket was used for two
    executions. *)
Theorem executions_justified task rules s :
  rtc (sys_step task rules) s0 s →
  Forall (justified task rules (wd_approvals (s_app s))) (s_execs s) ∧ NoDup (tickets_used s).
Proof.
  intros Hr%reachable_sinv. split; [apply Hr|].
  eapply sublist_NoDup; [apply (wi_once _ _ _ _ (si_app _ _ _ Hr))|apply Hr].
Qed.

(** Default deny.  The gateway's decision is that of the first rule that names
    the tool (or is the wildcard) and is unscoped or scoped to the very effect; a
    decision other than deny always comes from a rule the caller wrote, and a
    request without an effect is never covered by a scoped rule. *)
Theorem Decide_explicit {W} (rules : list Rule) (ledger : option (record → W → W)) req :
  Decide (NewGateway rules ledger) req =
    match first_rule (compile_catch_all rules) req with
    | Some r => (u_Action r, r)
    | None => (ActionDeny, mkRule "*" ActionDeny "" "")
    end ∧
  ((Decide (NewGateway rules ledger) req).1 ≠ ActionDeny →
   ∃ i r, rules !! i = Some r ∧ Decide (NewGateway rules ledger) req = (u_Action r, r) ∧
     (u_Name r = q_Name req ∨ u_Name r = "*"%string) ∧ (u_Effect r = EmptyString ∨ u_Effect r = q_Effect req) ∧
     ∀ j r', (j < i)%nat → rules !! j = Some r' → rule_applies r' req = false).
Proof.
  assert (Decide (NewGateway rules ledger) req = match first_rule (compile_catch_all rules) req with
    | Some r => (u_Action r, r) | None => (ActionDeny, mkRule "*" ActionDeny "" "") end) as HD by apply decide_loop_first.
  split; [done|]. rewrite HD. intros Hne. destruct (first_rule (compile_catch_all rules) req) as [r|] eqn:Hf; [|done].
  destruct (first_rule_lookup _ _ _ Hf) as (i & Hi & Ha & Hbefore). exists i, r.
  assert (rules !! i = Some r) as Hir.
  { unfold compile_catch_all in Hi. destruct (existsb _ rules); [done|].
    apply lookup_app_Some in Hi as [?|[_ Hi]]; [done|]. apply list_lookup_singleton_Some in Hi as [_ <-]. done. }
  split; [done|]. split; [done|]. unfold rule_applies in Ha. rewrite andb_true_iff, !orb_true_iff, !bool_decide_eq_true in Ha.
  destruct Ha as [Hn He]. split; [done|]. split; [done|]. intros j r' Hj Hr'. apply (Hbefore j r' Hj).
  unfold compile_catch_all. destruct (existsb _ rules); [done|]. by apply lookup_app_l_Some.
Qed.

(** The agent sees only a scrubbed observation.  When a call runs an executor and
    succeeds, neither the summary nor the reason it returns contains one of the
    four credential shapes, and the result map has no secret-named key and no such
    string at any depth, whatever the executor returned. *)
Theorem observation_scrubbed {W} (g : Gateway W) req w w' resp :
  is_Some (gw_executor g) → Execute g req w = (w', (resp, None)) →
  token_free (p_Summary resp) = true ∧ token_free (p_Reason resp) = true ∧
  scrubbed (VMap (default [] (p_Result resp))) = true.
Proof.
  intros [ex Hex] H.
  assert (∃ p, resp = sanitize p) as [p ->]; [|by apply sanitize_scrubbed].
  assert (∀ pre d w0, run_executor g req pre d ex w0 = (w', (resp, None)) → ∃ p, resp = sanitize p) as Hrun.
  { intros pre d w0. unfold run_executor. destruct (ex req w0) as [w1 [p|e]]; intros E; simplify_eq. by exists p. }
  unfold Execute in H. destruct (Decide g req) as [act rule]. repeat case_match; simplify_eq.
  - unfold execute_approve in H. rewrite Hex in H. destruct (gw_approvalCheck g) as [chk|]; [|done].
    destruct (chk req w) as [w1 [t|]]; [|done]. by apply Hrun in H.
  - unfold execute_permitted in H. rewrite Hex in H. by apply Hrun in H.
Qed.

(** Every decision leaves evidence.  A call whose verdict is one of the four
    actions appends at least one record to the ledger; each names the tool, and its
    reason and parameters are scrubbed already before the ledger scrubs again. *)
Theorem every_call_recorded task rules e req s :
  verdict rules req ∈ [ActionAllow; ActionConstrain; ActionApprove; ActionDeny] →
  ∃ l, l ≠ [] ∧ s_log (call task rules e req s).1 = s_log s ++ l ∧
       Forall (λ r, r_Action r = ("tool:" ++ q_Name req)%string ∧ token_free (r_Reason r) = true ∧
                    scrubbed (r_Params r) = true) l.
Proof.
  intros Hv. match goal with |- ∃ l, _ ∧ _ ∧ Forall ?Q l => set (P := Q) end.
  assert (∀ dec reason, P (decision_record req dec reason)) as HP.
  { intros dec reason. split; [done|]. split; [apply RedactSecrets_token_free|].
    exact (ScrubValue_scrubbed (VMap (default [] (q_Args req)))). }
  assert (∀ dec reason s', s_log s' = s_log s → ∃ l, l ≠ [] ∧
    s_log (log_append (decision_record req dec reason) s') = s_log s ++ l ∧ Forall P l) as Hone.
  { intros dec reason s' Hs'. exists [decision_record req dec reason]. simpl. rewrite Hs'.
    split; [done|]. split; [done|]. apply list.Forall_singleton, HP. }
  unfold call, Execute. change (Decide (wired task rules e) req) with (decide_loop (compile_catch_all rules) req).
  unfold verdict in Hv. destruct (decide_loop (compile_catch_all rules) req) as [act rule]. simpl in Hv. unfold is_action.
  destruct (bool_decide_reflect (act = ActionDeny)); [by apply Hone|].
  destruct (bool_decide_reflect (act = ActionApprove)).
  - unfold execute_approve, wired, audit. cbn [gw_approvalCheck gw_onApproved gw_executor gw_ledger SetRuntimeOnce NewGateway fill claim_hook].
    destruct (ClaimFor _ _ _ _ _ (wd_m (s_app s))).2 as [id|]; [|by apply Hone].
    unfold run_executor, audit. cbn [gw_ledger executor_hook]. destruct (ce_out e) as [p|err]; [by apply Hone|].
    simpl. rewrite <- app_assoc. eexists. split; [|split; [reflexivity|]]; [done|].
    apply list.Forall_cons. split; [apply HP|]. apply list.Forall_singleton, HP.
  - destruct (_ || _) eqn:Eo.
    + unfold execute_permitted, wired, run_executor, audit. cbn [gw_executor gw_ledger SetRuntimeOnce NewGateway fill executor_hook].
      destruct (ce_out e) as [p|err]; by apply Hone.
    + apply orb_false_iff in Eo as [E1%bool_decide_eq_false_1 E2%bool_decide_eq_false_1]. set_solver.
Qed.

(** ** Instances *)

Definition rules : list Rule :=
  [mkRule "read" ActionAllow "" ""; mkRule "deploy" ActionApprove "" "production"; mkRule "shell" ActionConstrain "write" ""].

Definition req (name effect : string) : ToolRequest := mkRequest name (Some [("target", VStr "prod")]%string) effect.

Definition ticket : Ticket :=
  {| k_ID := ""; k_TaskID := "t1"; k_Target := "prod"; k_Tool := "deploy"; k_Params := (VMap [("target", VStr "prod")]%string : params);
     k_Evidence := ""; k_Why := ""; k_Rollback := ""; k_CreatedAt := 0; k_Deadline := 0; k_State := StatePending;
     k_DecidedBy := ""; k_DecidedAt := 0; k_Consumed := false; k_EditedBy := ""; k_EditedAt := None;
     k_CreatedBy := "agent"; k_CreatedByKeyFp := "" |}.

Definition env : call_env := {| ce_write := None; ce_order := ["k1"%string]; ce_out := SimExecutor (req "deploy" "") |}.

Definition ticket_op (op : aop) (s : system) : system := mkSystem (wrun op (s_app s)) (s_unlocked s) (s_execs s) (s_log s).

(** A deployment is refused, approved, executed once, and refused again. *)
Definition s1 : system := ticket_op (OpCreate None 1000 (Some "k1"%string) ticket) (call "t1" rules env (req "deploy" "") s0).1.
Definition s2 : system := ticket_op (OpDecide None 2000 2001 "k1" true "alice") s1.
Definition s3 : system := (call "t1" rules env (req "deploy" "") s2).1.
Definition s4 : system := (call "t1" rules env (req "deploy" "") s3).1.

Lemma s4_reached : rtc (sys_step "t1" rules) s0 s4.
Proof.
  eapply rtc_l; [exact (SysCall "t1" rules s0 env (req "deploy" ""))|].
  eapply rtc_l; [refine (SysTicket "t1" rules _ (OpCreate None 1000 (Some "k1"%string) ticket) _); cbn [op_ok];
    refine (bool_decide_eq_true_1 (_ ∉ (_ : gset string)) _); vm_compute; reflexivity|].
  eapply rtc_l; [exact (SysTicket "t1" rules s1 (OpDecide None 2000 2001 "k1" true "alice") I)|].
  eapply rtc_l; [exact (SysCall "t1" rules s2 env (req "deploy" ""))|].
  apply rtc_once. exact (SysCall "t1" rules s3 env (req "deploy" "")).
Qed.

Lemma executions_justified_witness :
  s_execs s4 = [(req "deploy" "", Some "k1"%string)] ∧ NoDup (tickets_used s4).
Proof. split; [vm_compute; reflexivity|]. apply (executions_justified "t1" rules s4 s4_reached). Defined.

Lemma Decide_explicit_witness :
  (Decide (W:=unit) (NewGateway rules None) (req "shell" "")).1 = ActionDeny ∧
  ∃ i r, rules !! i = Some r ∧ u_Name r = "shell"%string ∧
    Decide (W:=unit) (NewGateway rules None) (req "shell" "write") = (u_Action r, r).
Proof.
  split; [vm_compute; reflexivity|].
  destruct (Decide_explicit (W:=unit) rules None (req "shell" "write")) as [_ H].
  destruct H as (i & r & Hi & Hd & Hn & _); [vm_compute; discriminate|]. exists i, r. split; [exact Hi|]. split; [|exact Hd].
  revert Hd. vm_compute. by intros [= _ <-].
Defined.

(** An executor that echoes a bearer token. *)
Definition leaky_gateway : Gateway unit :=
  SetRuntimeOnce (NewGateway rules None)
    (Some (λ _ w, (w, Ok (mkResponse true "Bearer abcdefghijklmnopqrstuvwx" (Some [("auth", VStr "x"); ("n", VInt 1)]%string) ""))))
    None None.

Lemma observation_scrubbed_witness :
  let '(_, (resp, err)) := Execute leaky_gateway (req "read" "") tt in
  err = None ∧ p_Summary resp = "[REDACTED]"%string ∧ token_free (p_Summary resp) = true.
Proof.
  assert (Execute leaky_gateway (req "read" "") tt
    = (tt, (mkResponse true "[REDACTED]" (Some [("n", VInt 1)]%string) "", None))) as E by (vm_compute; reflexivity).
  pose proof (observation_scrubbed leaky_gateway (req "read" "") tt tt _ (ex_intro _ _ eq_refl) E) as H.
  rewrite E. split; [reflexivity|]. split; [reflexivity|]. apply H.
Defined.

Lemma every_call_recorded_witness :
  ∃ l, l ≠ [] ∧ s_log s3 = s_log s2 ++ l ∧ Forall (λ r, r_Action r = "tool:deploy"%string) l.
Proof.
  destruct (every_call_recorded "t1" rules env (req "deploy" "") s2) as (l & H1 & H2 & H3).
  - replace (verdict rules (req "deploy" "")) with ActionApprove by (vm_compute; reflexivity). set_solver.
  - exists l. split; [exact H1|]. split; [exact H2|]. eapply list.Forall_impl; [exact H3|]. by intros r [? _].
Defined.

(** ** Where the gateway falls short *)

(** A rule with any other action denies the call without a record. *)
Theorem unknown_action_unrecorded :
  let rules := CompileRules [("deploy", "Permit", "", "")]%string in
  let r := call "t1" rules env (req "deploy" "") s0 in
  r.2.2 = Some ErrDenied ∧ s_log r.1 = [].
Proof. vm_compute. split; reflexivity. Qed.

(** A scoped wildcard rule suppresses the catch-all without covering every call:
    the code after the loop, marked unreachable, is what denies. *)
Theorem scoped_wildcard_falls_through :
  first_rule (compile_catch_all [mkRule "*" ActionAllow "read" ""]) (req "deploy" "write") = None.
Proof. vm_compute. reflexivity. Qed.

(** [ConsoleExecutor] cuts the output at 400 bytes before anything is redacted: a
    token that crosses the cut reaches the agent but for its last character. *)
Theorem truncated_token_leaks :
  let token := ("ghp_" ++ String.string_of_list_ascii (replicate 36 (Ascii.ascii_of_nat 65)))%string in
  let out := (String.string_of_list_ascii (replicate 360 (Ascii.ascii_of_nat 45)) ++ "." ++ token)%string in
  match ConsoleExecutor (Ok (λ _, Ok (mkConsole out 0 1))) (req "read" "") with
  | Ok resp => p_Summary (sanitize resp) = (take_bytes 400 out ++ ellipsis)%string ∧
               Contains (p_Summary (sanitize resp)) (take_bytes 39 token) = true
  | Err _ => False
  end.
Proof. vm_compute. split; reflexivity. Qed.
