(* ===== verification/TaskState.v ===== *)
(** * Task states (internal/state/manager.go)

    The life-cycle state machine of a task, its persisted record and the cached
    listing.  Times are integers, zero for Go's zero time. *)

From S2P Require Import Prelude Json.

(** ** The state machine *)

Inductive Status : Type :=
| StatusPending | StatusProvisioning | StatusReady | StatusRunning | StatusSuspended | StatusResuming
| StatusReview | StatusCompleted | StatusFailed | StatusQuarantined | StatusDestroy | StatusStopped | StatusExited.

#[global] Instance Status_eq_dec : EqDecision Status.
Proof. solve_decision. Defined.

Definition Terminal (s : Status) : bool :=
  match s with StatusDestroy | StatusStopped | StatusExited => true | _ => false end.

Inductive Actor : Type := ActorAgent | ActorController | ActorHuman | ActorSystem.

Definition allowed (s : Status) : list Status :=
  match s with
  | StatusPending => [StatusProvisioning; StatusDestroy; StatusFailed; StatusQuarantined]
  | StatusProvisioning => [StatusReady; StatusFailed; StatusQuarantined; StatusDestroy]
  | StatusReady => [StatusRunning; StatusSuspended; StatusFailed; StatusQuarantined; StatusDestroy]
  | StatusRunning => [StatusSuspended; StatusReview; StatusFailed; StatusQuarantined; StatusDestroy]
  | StatusSuspended => [StatusResuming; StatusReview; StatusFailed; StatusQuarantined; StatusDestroy]
  | StatusResuming => [StatusRunning; StatusFailed; StatusQuarantined; StatusDestroy]
  | StatusReview => [StatusCompleted; StatusFailed; StatusQuarantined; StatusDestroy]
  | StatusFailed => [StatusProvisioning; StatusQuarantined; StatusDestroy]
  | StatusQuarantined => [StatusFailed; StatusDestroy]
  | StatusCompleted => [StatusDestroy]
  | StatusDestroy | StatusStopped | StatusExited => []
  end.

Definition canTransition (from to : Status) : bool :=
  bool_decide (from = to) || existsb (λ t, bool_decide (t = to)) (allowed from).

Record TransitionRec := mkTransition {
  tr_From : Status; tr_To : Status; tr_Actor : Actor; tr_Reason : string; tr_At : Z
}.

Record ContainerState := mkState {
  st_ID : string; st_Name : string; st_Tenant : string; st_Caller : string;
  st_Status : Status; st_PID : Z; st_StartedAt : Z; st_EndedAt : Z; st_SpecFP : string;
  st_Metadata : gmap string string;
  st_IdleTimeout : string; st_AutoResume : bool; st_MCP : string;
  st_Transitions : list TransitionRec; st_Retries : Z; st_Deadline : Z;
  st_NetworkTap : string; st_Bridge : string; st_GatewayIP : string
}.

Definition set_status (s : ContainerState) (to : Status) (ended : Z) (trs : list TransitionRec) : ContainerState :=
  mkState (st_ID s) (st_Name s) (st_Tenant s) (st_Caller s) to (st_PID s) (st_StartedAt s) ended (st_SpecFP s)
    (st_Metadata s) (st_IdleTimeout s) (st_AutoResume s) (st_MCP s) trs (st_Retries s) (st_Deadline s)
    (st_NetworkTap s) (st_Bridge s) (st_GatewayIP s).

Definition set_meta (s : ContainerState) (m : gmap string string) : ContainerState :=
  mkState (st_ID s) (st_Name s) (st_Tenant s) (st_Caller s) (st_Status s) (st_PID s) (st_StartedAt s) (st_EndedAt s)
    (st_SpecFP s) m (st_IdleTimeout s) (st_AutoResume s) (st_MCP s) (st_Transitions s) (st_Retries s) (st_Deadline s)
    (st_NetworkTap s) (st_Bridge s) (st_GatewayIP s).

Definition set_pid (s : ContainerState) (pid : Z) : ContainerState :=
  mkState (st_ID s) (st_Name s) (st_Tenant s) (st_Caller s) (st_Status s) pid (st_StartedAt s) (st_EndedAt s)
    (st_SpecFP s) (st_Metadata s) (st_IdleTimeout s) (st_AutoResume s) (st_MCP s) (st_Transitions s) (st_Retries s)
    (st_Deadline s) (st_NetworkTap s) (st_Bridge s) (st_GatewayIP s).

Inductive state_err := ErrTerminal | ErrInvalidTransition | EInvalidID | EStateIO | ENoState | ECorrupt.

(** Whether reaching [to] ends the task. *)
Definition ends (to : Status) : bool :=
  match to with StatusDestroy | StatusStopped | StatusExited | StatusCompleted => true | _ => false end.

(** [now] is recorded with the transition, [now'] as the end time. *)
Definition Transition (now now' : Z) (to : Status) (actor : Actor) (reason : string) :
    method ContainerState state_err unit := λ s,
  if Terminal (st_Status s) then (s, Err ErrTerminal)
  else if negb (canTransition (st_Status s) to) then (s, Err ErrInvalidTransition)
  else
    let ended := if ends to && (st_EndedAt s =? 0) then now' else st_EndedAt s in
    (set_status s to ended (st_Transitions s ++ [mkTransition (st_Status s) to actor reason now]), Ok tt).

(** ** Persistence

    One task's directory: [state.json] with its modification time and the state it
    parses to, if it does, and the number of temporary files left behind. *)

Record task_dir := mkDir { td_state : option (Z * option ContainerState); td_temps : Z }.

(** The operation of [SaveState] that fails. *)
Inductive save_fault := SvMkdir | SvTemp | SvEncode | SvSync | SvRename.

Definition id_char (a : Ascii.ascii) : bool :=
  let c := code a in
  ((97 <=? c) && (c <=? 122)) || ((65 <=? c) && (c <=? 90)) || ((48 <=? c) && (c <=? 57)) || (c =? 95) || (c =? 45).

(** [^[a-zA-Z0-9_-]+$]. *)
Definition idRe (id : string) : bool :=
  negb (bool_decide (id = EmptyString)) && forallb id_char (String.list_ascii_of_string id).

(** All tasks, with [ListAll]'s cache. *)
Record state_root := mkRoot {
  sr_dirs : gmap string task_dir;
  sr_cache : gmap string (Z * ContainerState)
}.

Definition dir_of (r : state_root) (id : string) : task_dir := default (mkDir None 0) (sr_dirs r !! id).
Definition put_dir (r : state_root) (id : string) (d : task_dir) : state_root :=
  mkRoot (<[id := d]> (sr_dirs r)) (sr_cache r).

Definition invalidateListCache (id : string) (r : state_root) : state_root := mkRoot (sr_dirs r) (delete id (sr_cache r)).

(** [mtime] is the time the file system gives the renamed file. *)
Definition SaveState (fault : option save_fault) (mtime : Z) (id : string) (st : ContainerState) :
    method state_root state_err unit := λ r,
  if negb (idRe id) then (r, Err EInvalidID)
  else
    let d := dir_of r id in
    match fault with
    | Some SvMkdir => (r, Err EStateIO)
    | Some SvTemp | Some SvEncode | Some SvSync => (put_dir r id d, Err EStateIO)
    | Some SvRename => (put_dir r id (mkDir (td_state d) (td_temps d + 1)), Err EStateIO)
    | None => (invalidateListCache id (put_dir r id (mkDir (Some (mtime, Some st)) (td_temps d))), Ok tt)
    end.

Definition LoadState (id : string) (r : state_root) : result state_err ContainerState :=
  if negb (idRe id) then Err EInvalidID
  else match td_state (dir_of r id) with
       | Some (_, Some st) => Ok st
       | Some (_, None) => Err ECorrupt
       | None => Err ENoState
       end.

(** *** The cached listing *)

(** One directory: its cached state if the file is as old as the cache says, else
    the file's.  A cache entry whose file cannot be loaded is dropped. *)
Definition list_one (name : string) (acc : gmap string (Z * ContainerState) * list ContainerState * bool)
    (r : state_root) : gmap string (Z * ContainerState) * list ContainerState * bool :=
  let '(cache, out, changed) := acc in
  match td_state (dir_of r name) with
  | None => acc                              (* no state.json *)
  | Some (mtime, _) =>
      match cache !! name with
      | Some (m, st) => if m =? mtime then (cache, out ++ [st], changed)
                        else match LoadState name r with
                             | Ok st => (<[name := (mtime, st)]> cache, out ++ [st], true)
                             | Err _ => (delete name cache, out, true)
                             end
      | None => match LoadState name r with
                | Ok st => (<[name := (mtime, st)]> cache, out ++ [st], true)
                | Err _ => (cache, out, changed)
                end
      end
  end.

(** [dirs] is what [os.ReadDir] returns: the directories in its order, or an error.
    The returned states are values: a caller that changes one in place changes the
    cached one too. *)
Definition ListAll (dirs : option (list string)) : method state_root state_err (list ContainerState) := λ r,
  match dirs with
  | None => (r, Err EStateIO)
  | Some order =>
      let '(cache, out, changed) := fold_left (λ acc name, list_one name acc r) order (sr_cache r, [], false) in
      let live := filter (λ kv, is_Some (td_state (dir_of r kv.1)) ∧ kv.1 ∈ order) cache in
      (mkRoot (sr_dirs r) (if changed then live else cache), Ok out)
  end.

(** ** The history of a task *)

(** The recorded transitions form a path from [s0] to the current status along the
    edges of the table. *)
Fixpoint walk (from : Status) (l : list TransitionRec) (to : Status) : Prop :=
  match l with
  | [] => from = to
  | t :: l' => tr_From t = from ∧ canTransition from (tr_To t) = true ∧ Terminal from = false ∧ walk (tr_To t) l' to
  end.

Lemma walk_snoc from l t :
  walk from (l ++ [t]) (tr_To t) ↔
  walk from l (tr_From t) ∧ canTransition (tr_From t) (tr_To t) = true ∧ Terminal (tr_From t) = false.
Proof.
  revert from. induction l as [|x l IH]; intros from; simpl.
  - split; [intros (<- & ? & ? & _); by split_and!|intros (-> & ? & ?); by split_and!].
  - rewrite IH. tauto.
Qed.

Record history_ok (s0 : Status) (s : ContainerState) : Prop := {
  hs_walk : walk s0 (st_Transitions s) (st_Status s);
  hs_ended : st_EndedAt s = 0 → Forall (λ t, ends (tr_To t) = false) (st_Transitions s)
}.

(** A call of [Transition]. *)
Record tcall := mkCall { tc_now : Z; tc_now' : Z; tc_to : Status; tc_actor : Actor; tc_reason : string }.

Definition do_call (s : ContainerState) (c : tcall) : ContainerState :=
  (Transition (tc_now c) (tc_now' c) (tc_to c) (tc_actor c) (tc_reason c) s).1.

Lemma transition_history s0 s c : tc_now' c ≠ 0 → history_ok s0 s → history_ok s0 (do_call s c).
Proof.
  intros Hn [Hp He]. unfold do_call, Transition. destruct (Terminal (st_Status s)) eqn:Et; [done|].
  destruct (canTransition (st_Status s) (tc_to c)) eqn:Ec; [|done]. simpl. split.
  - change (tc_to c) with (tr_To (mkTransition (st_Status s) (tc_to c) (tc_actor c) (tc_reason c) (tc_now c))) at 2.
    by apply walk_snoc.
  - simpl. destruct (ends (tc_to c)) eqn:Ee; simpl.
    + destruct (Z.eqb_spec (st_EndedAt s) 0); [done|]. intros Hz. done.
    + intros Hz. apply Forall_app. split; [by apply He|]. by repeat constructor.
Qed.

(** A task's history is a walk through the state machine.  Whatever transitions
    are attempted, in whatever order, the recorded ones form an unbroken path from
    the first status to the current one along allowed edges, never leaving a
    terminal status, and the end time is set as soon as the task first completes
    or ends. *)
Theorem history_is_path s cs :
  st_Transitions s = [] → Forall (λ c, tc_now' c ≠ 0) cs →
  history_ok (st_Status s) (fold_left do_call cs s).
Proof.
  intros Ht Hc. assert (history_ok (st_Status s) s) as Hs by (split; rewrite Ht; [done|constructor]).
  revert Hs. generalize (st_Status s) as s0. intros s0. clear Ht.
  revert s. induction Hc as [|c cs Hn _ IH]; intros s Hs; [done|]. simpl. by apply IH, transition_history.
Qed.

Definition blank_state (s : Status) : ContainerState := mkState "t1" "" "" "" s 0 0 0 "" ∅ "" false "" [] 0 0 "" "" "".

Lemma history_is_path_witness :
  st_Status (fold_left do_call
    [mkCall 1 1 StatusRunning ActorSystem ""; mkCall 2 2 StatusCompleted ActorAgent ""; mkCall 3 3 StatusDestroy ActorHuman "";
     mkCall 4 4 StatusRunning ActorAgent ""] (blank_state StatusReady)) = StatusDestroy ∧
  history_ok StatusReady (fold_left do_call
    [mkCall 1 1 StatusRunning ActorSystem ""; mkCall 2 2 StatusCompleted ActorAgent ""; mkCall 3 3 StatusDestroy ActorHuman "";
     mkCall 4 4 StatusRunning ActorAgent ""] (blank_state StatusReady)).
Proof.
  split; [vm_compute; reflexivity|]. apply (history_is_path (blank_state StatusReady)); [reflexivity|]. by repeat constructor.
Defined.

(** ** The cached listing *)

(** An entry as old as the file holds the file's state. *)
Definition coherent (r : state_root) : Prop :=
  ∀ name m st st', sr_cache r !! name = Some (m, st) → td_state (dir_of r name) = Some (m, st') → st' = Some st.

Definition loaded (r : state_root) (name : string) : option ContainerState :=
  match LoadState name r with Ok st => Some st | Err _ => None end.

(** Entries are only made for names [LoadState] accepts. *)
Definition cache_names (c : gmap string (Z * ContainerState)) : Prop := map_Forall (λ name _, idRe name = true) c.

Definition cache_ok (r : state_root) : Prop := coherent r ∧ cache_names (sr_cache r).

Lemma loaded_dir r name st :
  LoadState name r = Ok st → ∃ m, td_state (dir_of r name) = Some (m, Some st) ∧ idRe name = true.
Proof.
  unfold LoadState. destruct (idRe name); simpl; [|done].
  destruct (td_state (dir_of r name)) as [[m [st'|]]|]; [|done..]. intros [= <-]. by exists m.
Qed.

Lemma cache_ok_insert dirs cache name m st :
  cache_ok (mkRoot dirs cache) → LoadState name (mkRoot dirs cache) = Ok st →
  (∀ m', td_state (dir_of (mkRoot dirs cache) name) = Some (m', Some st) → m' = m) →
  cache_ok (mkRoot dirs (<[name := (m, st)]> cache)).
Proof.
  intros [Hc Hn] Hl Hm. apply loaded_dir in Hl as (m' & Hd & Hid). apply Hm in Hd as Hmm. subst m'.
  split; [|by apply map_Forall_insert_2].
  intros n mt s s' Hlk Hs'. cbn in Hlk. change (td_state (dir_of (mkRoot dirs cache) n) = Some (mt, s')) in Hs'.
  apply lookup_insert_Some in Hlk as [[<- [= <- <-]]|[_ Hlk]]; [congruence|by apply (Hc n mt)].
Qed.

Lemma cache_ok_sub dirs cache cache' : cache' ⊆ cache → cache_ok (mkRoot dirs cache) → cache_ok (mkRoot dirs cache').
Proof.
  intros Hs [Hc Hn]. split.
  - intros name m st st' Hlk Hd. apply (Hc name m); [by apply (lookup_weaken _ _ _ _ Hlk)|done].
  - intros name x Hlk. apply (Hn name x). by apply (lookup_weaken _ _ _ _ Hlk).
Qed.

Lemma list_one_ok name cache out ch dirs r0 cache' out' ch' :
  let r := mkRoot dirs r0 in
  cache_ok (mkRoot dirs cache) → list_one name (cache, out, ch) r = (cache', out', ch') →
  cache_ok (mkRoot dirs cache') ∧ out' = out ++ option_list (loaded r name).
Proof.
  intros r Hok. unfold list_one, loaded. change (LoadState name r) with (LoadState name (mkRoot dirs cache)).
  change (dir_of r name) with (dir_of (mkRoot dirs cache) name).
  destruct (td_state (dir_of (mkRoot dirs cache) name)) as [[mtime st0]|] eqn:Ed.
  2: { intros [= <- <- <-]. unfold LoadState. rewrite Ed. split; [done|]. destruct (idRe name); simpl; by rewrite app_nil_r. }
  assert (∀ st, LoadState name (mkRoot dirs cache) = Ok st → cache_ok (mkRoot dirs (<[name := (mtime, st)]> cache))) as Hins.
  { intros st Hl. apply cache_ok_insert; [done..|]. intros m' Hd. congruence. }
  destruct (cache !! name) as [[m st]|] eqn:Ec.
  - destruct (Z.eqb_spec m mtime) as [->|].
    + intros [= <- <- <-]. split; [done|]. destruct Hok as [Hc Hn].
      pose proof (map_Forall_lookup_1 _ _ _ _ Hn Ec) as Hid. pose proof (Hc _ _ _ _ Ec Ed) as ->.
      simpl in Hid. unfold LoadState. by rewrite Hid, Ed.
    + destruct (LoadState name _) eqn:El; intros [= <- <- <-]; simpl; [split; [by apply Hins|done]|].
      rewrite app_nil_r. split; [|done]. by eapply cache_ok_sub; [apply delete_subseteq|].
  - destruct (LoadState name _) eqn:El; intros [= <- <- <-]; simpl; [split; [by apply Hins|done]|].
    by rewrite app_nil_r.
Qed.

Lemma list_fold_ok order cache out ch dirs r0 cache' out' ch' :
  let r := mkRoot dirs r0 in
  cache_ok (mkRoot dirs cache) →
  fold_left (λ acc name, list_one name acc r) order (cache, out, ch) = (cache', out', ch') →
  cache_ok (mkRoot dirs cache') ∧ out' = out ++ omap (loaded r) order.
Proof.
  intros r. revert cache out ch. induction order as [|name order IH]; intros cache out ch Hc; cbn [fold_left].
  - intros [= <- <- <-]. simpl. by rewrite app_nil_r.
  - destruct (list_one name (cache, out, ch) r) as [[c1 o1] ch1] eqn:E.
    apply list_one_ok in E as (Hc1 & ->); [|done]. intros H. apply IH in H as (? & ->); [|done].
    split; [done|]. rewrite <- app_assoc. f_equal. subst r. simpl. by destruct (loaded _ name).
Qed.

Lemma ListAll_ok dirs r : cache_ok r →
  cache_ok (ListAll dirs r).1 ∧ (ListAll dirs r).2 = match dirs with Some order => Ok (omap (loaded r) order) | None => Err EStateIO end.
Proof.
  intros Hok. destruct dirs as [order|]; [|done]. destruct r as [ds c0]. unfold ListAll. cbn [sr_dirs sr_cache].
  destruct (fold_left _ order _) as [[cache out] ch] eqn:E. apply list_fold_ok in E as (Hc & ->); [|done].
  split; [|done]. destruct ch; [|done]. by eapply cache_ok_sub; [apply map_filter_subseteq|].
Qed.

(** What happens to the root: states are saved and listed, and other programs - and
    the container manager removing a task - change or delete files, giving a
    changed file a new modification time. *)
Inductive root_op :=
| OpSave (fault : option save_fault) (mtime : Z) (id : string) (st : ContainerState)
| OpList (dirs : option (list string))
| OpExternal (id : string) (file : option (Z * option ContainerState)).

Definition external (id : string) (file : option (Z * option ContainerState)) (r : state_root) : state_root :=
  match file, sr_cache r !! id with
  | Some (m, _), Some (m', _) => if m =? m' then r else put_dir r id (mkDir file (td_temps (dir_of r id)))
  | _, _ => put_dir r id (mkDir file (td_temps (dir_of r id)))
  end.

Definition do_op (r : state_root) (op : root_op) : state_root :=
  match op with
  | OpSave fault mtime id st => (SaveState fault mtime id st r).1
  | OpList dirs => (ListAll dirs r).1
  | OpExternal id file => external id file r
  end.

Lemma cache_ok_put r id d :
  cache_ok r → (∀ m st st', sr_cache r !! id = Some (m, st) → td_state d = Some (m, st') → st' = Some st) →
  cache_ok (put_dir r id d).
Proof.
  intros [Hc Hn] Hd. split; [|done]. intros name m st st' Hlk Hs. simpl in Hlk. unfold dir_of, put_dir in Hs. simpl in Hs.
  destruct (decide (name = id)) as [->|Hne].
  - rewrite lookup_insert_eq in Hs. by eapply Hd.
  - rewrite lookup_insert_ne in Hs by done. by apply (Hc name m).
Qed.

Lemma save_ok fault mtime id st r : cache_ok r → cache_ok (SaveState fault mtime id st r).1.
Proof.
  intros Hok. unfold SaveState. destruct (negb (idRe id)); [done|].
  assert (∀ n, cache_ok (put_dir r id (mkDir (td_state (dir_of r id)) n))) as H1.
  { intros n. apply cache_ok_put; [done|]. intros m s s'. apply Hok. }
  assert (cache_ok (put_dir r id (dir_of r id))) as H2 by (specialize (H1 (td_temps (dir_of r id))); by destruct (dir_of r id)).
  destruct fault as [[]|]; [done|exact H2..|apply H1|].
  split; [|by apply map_Forall_delete, Hok].
  intros name m s s' Hlk Hs. simpl in Hlk. apply lookup_delete_Some in Hlk as [Hne Hlk].
  unfold dir_of in Hs. simpl in Hs. rewrite lookup_insert_ne in Hs by done. by apply (proj1 Hok name m).
Qed.

Lemma external_ok id file r : cache_ok r → cache_ok (external id file r).
Proof.
  intros Hok. unfold external. destruct file as [[m f]|]; [|by apply cache_ok_put].
  destruct (sr_cache r !! id) as [[m' st]|] eqn:Ec; [|by apply cache_ok_put; [|congruence]].
  destruct (Z.eqb_spec m m'); [done|]. apply cache_ok_put; [done|]. intros m0 s s' Hl [= -> ->]. congruence.
Qed.

Lemma ops_ok ops r : cache_ok r → cache_ok (fold_left do_op ops r).
Proof.
  revert r. induction ops as [|op ops IH]; intros r Hok; [done|]. apply IH.
  destruct op; simpl; [by apply save_ok|by apply ListAll_ok|by apply external_ok].
Qed.

(** The cache never shows.  After any saves - failing ones included, with file
    times as coarse as the file system likes - listings, removals and outside
    changes that give a file a new time, a listing returns for every directory
    exactly what loading its file returns, and skips those that do not load. *)
Theorem ListAll_exact ops order :
  let r := fold_left do_op ops (mkRoot ∅ ∅) in (ListAll (Some order) r).2 = Ok (omap (loaded r) order).
Proof. intros r. apply (ListAll_ok (Some order)). by apply ops_ok. Qed.

(** ** Where the code departs from its comments *)

(** Quarantine is said to be reachable from every status that is not terminal. *)
Theorem completed_not_quarantinable :
  Terminal StatusCompleted = false ∧ canTransition StatusCompleted StatusQuarantined = false ∧
  (Transition 1 1 StatusQuarantined ActorController "" (blank_state StatusCompleted)).2 = Err ErrInvalidTransition.
Proof. vm_compute. repeat split. Qed.

(** Repeating a transition is said to be a no-op; it adds a row, and after the end it fails. *)
Theorem repeated_transition_recorded :
  length (st_Transitions (Transition 1 1 StatusRunning ActorSystem "" (blank_state StatusRunning)).1) = 1%nat ∧
  (Transition 1 1 StatusDestroy ActorSystem "" (blank_state StatusDestroy)).2 = Err ErrTerminal.
Proof. vm_compute. split; reflexivity. Qed.

(** A failed rename leaves its temporary file behind. *)
Theorem failed_rename_leaves_temp :
  td_temps (dir_of (SaveState (Some SvRename) 1 "t1" (blank_state StatusRunning) (mkRoot ∅ ∅)).1 "t1") = 1.
Proof. vm_compute. reflexivity. Qed.
