(* ===== verification/Pid.v ===== *)
(** * The identity of a process (internal/state/pid.go)

    A process number can be reused; together with the start time the kernel
    reports in [/proc/<pid>/stat] it names one process.  [procs] is what those
    files hold. *)

From stdpp Require Import pretty.
From S2P Require Import Prelude Json Strconv RedactSpec AuditSpec TaskState.

Notation proc_table := (gmap Z string).

(** The text after the last [')']. *)
Fixpoint after_paren (s : string) : option string :=
  match s with
  | EmptyString => None
  | String a s' =>
      match after_paren s' with
      | Some r => Some r
      | None => if code a =? 41 then Some s' else None
      end
  end.

(** [s[i+2:]] skips the space after the parenthesis. *)
Definition stat_start (s : string) : option string :=
  match after_paren s with
  | Some (String _ rest) => let fields := Fields rest in if (length fields <? 20)%nat then None else fields !! 19%nat
  | _ => None
  end.

Definition ProcStartTime (procs : proc_table) (pid : Z) : option string := s ← procs !! pid; stat_start s.

Definition MetaPIDStart : string := "pid_start".

(** [m[k]] of a Go map of strings. *)
Definition meta (st : ContainerState) (k : string) : string := default EmptyString (st_Metadata st !! k).

Definition StampPID (procs : proc_table) (st : ContainerState) (pid : Z) : ContainerState :=
  let st := set_pid st pid in
  set_meta st (match ProcStartTime procs pid with
               | Some start => <[MetaPIDStart := start]> (st_Metadata st)
               | None => delete MetaPIDStart (st_Metadata st)
               end).

Definition PIDIdentityOK (procs : proc_table) (st : ContainerState) : bool :=
  if st_PID st <=? 0 then false else
  match ProcStartTime procs (st_PID st) with
  | None => false
  | Some live =>
      let recorded := meta st MetaPIDStart in
      if bool_decide (recorded = EmptyString) then true else bool_decide (recorded = live)
  end.

(** ** The start time is found *)

Definition no_paren (s : string) : Prop := Forall (λ a, code a ≠ 41) (String.list_ascii_of_string s).

Lemma after_paren_none s : no_paren s → after_paren s = None.
Proof.
  unfold no_paren. induction s as [|a s IH]; [done|]. simpl. intros [Ha Hs]%list.Forall_cons.
  rewrite IH by done. by rewrite (proj2 (Z.eqb_neq _ _) Ha).
Qed.

Lemma after_paren_last s t : no_paren t → after_paren (s ++ ")" ++ t)%string = Some t.
Proof.
  intros Ht. induction s as [|a s IH].
  - rewrite append_Empty. change (")" ++ t)%string with (String (Ascii.ascii_of_nat 41) t).
    cbn [after_paren]. by rewrite after_paren_none.
  - rewrite append_String. cbn [after_paren]. by rewrite IH.
Qed.

Definition stat_field (s : string) : Prop := word_text s ∧ s ≠ EmptyString ∧ no_paren s.

Lemma word_runes s : word_text s → runes s = ascii_chunk <$> String.list_ascii_of_string s.
Proof. intros H. by apply runes_ascii, word_text_ascii. Qed.

(** The fields of a line of words. *)
Definition line (fs : list string) : string := String.concat " " fs.

Lemma line_cons f f' fs : line (f :: f' :: fs) = (f ++ " " ++ line (f' :: fs))%string.
Proof. done. Qed.

Lemma line_ascii fs : Forall word_text fs → ascii_text (line fs).
Proof.
  induction 1 as [|f fs Hf Hfs IH]; [constructor|]. destruct fs as [|f' fs]; [by apply word_text_ascii|].
  rewrite line_cons. unfold ascii_text. rewrite !list_ascii_app, !Forall_app.
  split; [by apply word_text_ascii|]. split; [by repeat constructor|done].
Qed.

Lemma line_no_paren fs : Forall no_paren fs → no_paren (line fs).
Proof.
  induction 1 as [|f fs Hf Hfs IH]; [constructor|]. destruct fs as [|f' fs]; [done|].
  rewrite line_cons. unfold no_paren. rewrite !list_ascii_app, !Forall_app. split; [done|]. split; [by repeat constructor|done].
Qed.

Lemma Fields_line fs : Forall word_text fs → Forall (λ f, f ≠ EmptyString) fs → Fields (line fs) = fs.
Proof.
  intros Hw Hn. unfold Fields. rewrite runes_ascii by by apply line_ascii.
  induction fs as [|f fs IH]; [done|]. apply list.Forall_cons in Hw as [Hf Hw]. apply list.Forall_cons in Hn as [Hfn Hn].
  destruct fs as [|f' fs].
  - change (line [f]) with f. rewrite <- (app_nil_r (_ <$> _)), fields_of_word by done.
    rewrite append_Empty. simpl. by rewrite bool_decide_eq_false_2.
  - rewrite line_cons, !list_ascii_app, !fmap_app, fields_of_word by done. rewrite append_Empty.
    change (ascii_chunk <$> String.list_ascii_of_string " ") with [ascii_chunk (Ascii.ascii_of_nat 32)].
    simpl. rewrite bool_decide_eq_false_2 by done. simpl. f_equal. apply IH; done.
Qed.

(** The start time of a process is found whatever its name is.  In a line of
    [/proc/<pid>/stat] - the number, the name in parentheses, then the fields from
    the third on - the start time read is the twenty-second field, even when the
    name holds parentheses and spaces that imitate other fields. *)
Theorem stat_start_exact pid comm fs :
  Forall stat_field fs → (20 ≤ length fs)%nat →
  stat_start (pid ++ " (" ++ comm ++ ") " ++ line fs)%string = fs !! 19%nat.
Proof.
  intros Hf Hl. unfold stat_start.
  assert ((pid ++ " (" ++ comm ++ ") " ++ line fs)%string = ((pid ++ " (" ++ comm) ++ ")" ++ (" " ++ line fs))%string) as ->
    by (rewrite !string_app_assoc; done).
  assert (no_paren (line fs)) as Hp by (apply line_no_paren; eapply list.Forall_impl; [exact Hf|]; by intros f (?&?&?)).
  rewrite after_paren_last.
  2: { unfold no_paren. rewrite list_ascii_app. apply Forall_app. split; [by repeat constructor|done]. }
  change (" " ++ line fs)%string with (String (Ascii.ascii_of_nat 32) (line fs)). cbn iota.
  rewrite Fields_line.
  - by rewrite (proj2 (Nat.ltb_ge _ _) Hl).
  - eapply list.Forall_impl; [exact Hf|]. by intros f (?&?&?).
  - eapply list.Forall_impl; [exact Hf|]. by intros f (?&?&?).
Qed.

Definition demo_fields : list string :=
  ["S"; "1"; "42"; "42"; "0"; "-1"; "4194304"; "1"; "0"; "0"; "0"; "1"; "2"; "0"; "0"; "20"; "0"; "1"; "0"; "8807"; "0"]%string.

Lemma stat_start_exact_witness : stat_start ("42" ++ " (" ++ "uml) S 9 (x" ++ ") " ++ line demo_fields)%string = Some "8807"%string.
Proof.
  apply (stat_start_exact "42" "uml) S 9 (x" demo_fields).
  - repeat (constructor; [split; [repeat constructor|split; [done|repeat constructor; done]]|]). constructor.
  - vm_compute. lia.
Defined.
