(* ===== verification/Cgroup.v ===== *)
(** * Control groups (internal/cgroup/manager.go)

    The limits of a container as the files of its cgroup: one record of file
    contents per container, and the [cgroup.subtree_control] of the levels above.
    Reads and writes may fail; a cgroup that does not exist is the one error the
    callers tell apart. *)

From stdpp Require Import pretty.
From S2P Require Import Prelude Json Strconv Paths TaskState.

Record cgroup := mkCgroup {
  g_procs : string; g_memory_max : string; g_memory_current : string; g_cpu_max : string; g_freeze : string
}.

(** What the kernel puts in a new cgroup. *)
Definition new_cgroup : cgroup := mkCgroup "" "max" "0" "max 100000" "0".

Record cgfs := mkCgfs {
  f_groups : gmap string cgroup;
  f_controllers : option string;        (* /sys/fs/cgroup/cgroup.controllers *)
  f_subtree : gmap path string          (* directory -> its cgroup.subtree_control *)
}.

Inductive cg_err := CgInvalidID | CgNotExist | CgIO | CgParse | CgControllers | CgLimit.

Definition isNotExist (e : cg_err) : bool := match e with CgNotExist => true | _ => false end.

Definition set_group (id : string) (g : cgroup) (fs : cgfs) : cgfs :=
  mkCgfs (<[id := g]> (f_groups fs)) (f_controllers fs) (f_subtree fs).

Definition with_freeze (g : cgroup) (v : string) : cgroup :=
  mkCgroup (g_procs g) (g_memory_max g) (g_memory_current g) (g_cpu_max g) v.
Definition with_max (g : cgroup) (v : string) : cgroup :=
  mkCgroup (g_procs g) v (g_memory_current g) (g_cpu_max g) (g_freeze g).
Definition with_cpu (g : cgroup) (v : string) : cgroup :=
  mkCgroup (g_procs g) (g_memory_max g) (g_memory_current g) v (g_freeze g).
Definition with_procs (g : cgroup) (v : string) : cgroup :=
  mkCgroup v (g_memory_max g) (g_memory_current g) (g_cpu_max g) (g_freeze g).

(** ** One file of a container's cgroup

    [fault]: the system call fails for another reason than a missing file. *)

Definition read_file (fault : bool) (id : string) (file : cgroup → string) : method cgfs cg_err string := λ fs,
  (fs, if negb (idRe id) then Err CgInvalidID
       else match f_groups fs !! id with
            | None => Err CgNotExist
            | Some g => if fault then Err CgIO else Ok (file g)
            end).

Definition write_file (fault : bool) (id : string) (update : cgroup → cgroup) : method cgfs cg_err unit := λ fs,
  if negb (idRe id) then (fs, Err CgInvalidID)
  else match f_groups fs !! id with
       | None => (fs, Err CgNotExist)
       | Some g => if fault then (fs, Err CgIO) else (set_group id (update g) fs, Ok tt)
       end.

Definition Freeze (fault : bool) (id : string) : method cgfs cg_err unit := write_file fault id (λ g, with_freeze g "1").
Definition Thaw (fault : bool) (id : string) : method cgfs cg_err unit := write_file fault id (λ g, with_freeze g "0").

(** *** Memory *)

Definition MemoryUnlimited : Z := -1.

Definition parseMemoryLimit (s : string) : result cg_err Z :=
  if bool_decide (s = "max"%string) then Ok MemoryUnlimited
  else match ParseInt s with
       | Some v => if v <? 0 then Err CgParse else Ok v
       | None => Err CgParse
       end.

Definition MemoryMax (fault : bool) (id : string) : method cgfs cg_err Z :=
  do* raw <- read_file fault id g_memory_max; glift (parseMemoryLimit (TrimSpace raw)).

Definition MemoryCurrent (fault : bool) (id : string) : method cgfs cg_err Z :=
  do* raw <- read_file fault id g_memory_current;
  glift (match ParseInt (TrimSpace raw) with Some v => Ok v | None => Err CgParse end).

Definition SetMemoryMax (fault : bool) (id : string) (bytes : Z) : method cgfs cg_err unit :=
  write_file fault id (λ g, with_max g (if bytes <? 0 then "max" else pretty bytes)).

(** ** Setting a container up *)

Definition str (s : string) : path := code <$> String.list_ascii_of_string s.
Definition v2_root : path := str "/sys/fs/cgroup".

(** The order of the levels the loop writes: the root, then each component of
    the path below it. *)
Fixpoint levels (cur : path) (names : list path) : list path :=
  match names with
  | [] => [cur]
  | name :: names' => cur :: levels (Join cur name) names'
  end.

(** The writes stop at the first level that refuses. *)
Fixpoint enable_levels (writable : path → bool) (val : string) (l : list path) : method cgfs cg_err unit := λ fs,
  match l with
  | [] => (fs, Ok tt)
  | d :: l' =>
      if writable d then enable_levels writable val l' (mkCgfs (f_groups fs) (f_controllers fs) (<[d := val]> (f_subtree fs)))
      else (fs, Err CgControllers)
  end.

(** [strings.Contains]. *)
Definition Contains (s sub : string) : bool := match String.index 0 sub s with Some _ => true | None => false end.

Definition wanted (wantMemory wantCPU : bool) (avail : string) : list string :=
  (if wantMemory && Contains avail "memory" then ["+memory"%string] else []) ++
  (if wantCPU && Contains avail "cpu" then ["+cpu"%string] else []).

Definition enableControllers (cwd root : path) (writable : path → bool) (wantMemory wantCPU : bool) : method cgfs cg_err unit := λ fs,
  if negb wantMemory && negb wantCPU then (fs, Ok tt) else
  match Rel v2_root (Abs cwd root) with
  | None => (fs, Ok tt)
  | Some rel =>
      if bool_decide (take 2 rel = dotdot) then (fs, Ok tt) else
      let names := if bool_decide (rel = dot) then [] else split_slash rel in
      match f_controllers fs with
      | None => (fs, Err CgControllers)
      | Some avail =>
          match wanted wantMemory wantCPU avail with
          | [] => (fs, Ok tt)
          | l => enable_levels writable (String.concat " " l) (levels v2_root names) fs
          end
      end
  end.

(** Which system call of [Setup] fails. *)
Inductive setup_step := StMkdir | StProcs | StMemory | StCPU.
#[global] Instance setup_step_eq_dec : EqDecision setup_step.
Proof. solve_decision. Defined.

Definition fails (fault : option setup_step) (s : setup_step) : bool := bool_decide (fault = Some s).

Definition Setup (cwd root : path) (writable : path → bool) (fault : option setup_step)
    (id : string) (pid memory cpu : Z) : method cgfs cg_err unit := λ fs,
  if negb (idRe id) then (fs, Err CgInvalidID) else
  if fails fault StMkdir then (fs, Err CgIO) else
  (do* _ <- gput (set_group id (default new_cgroup (f_groups fs !! id)));
   do* _ <- enableControllers cwd root writable (0 <? memory) (0 <? cpu);
   do* _ <- write_file (fails fault StProcs) id (λ g, with_procs g (pretty pid));
   do* _ <- (if 0 <? memory then write_file (fails fault StMemory) id (λ g, with_max g (pretty memory)) else gret tt);
   if 0 <? cpu then
     if 1024 <? cpu then gfail CgLimit
     else write_file (fails fault StCPU) id (λ g, with_cpu g (pretty (cpu * 100000) +:+ " 100000"))
   else gret tt) fs.

(** ** Lemmas *)

Lemma write_file_ok fault id f fs fs' :
  write_file fault id f fs = (fs', Ok tt) →
  ∃ g, idRe id = true ∧ f_groups fs !! id = Some g ∧ fs' = set_group id (f g) fs.
Proof.
  unfold write_file. destruct (idRe id); simpl; [|done]. destruct (f_groups fs !! id) as [g|]; [|done].
  destruct fault; [done|]. intros [= <-]. eauto.
Qed.

Lemma write_file_err fault id f fs fs' e : write_file fault id f fs = (fs', Err e) → fs' = fs.
Proof.
  unfold write_file. destruct (negb (idRe id)); [by intros [= <-]|]. destruct (f_groups fs !! id); [|by intros [= <-]].
  destruct fault; by intros [= <-].
Qed.

Lemma set_group_twice id g g' fs : set_group id g (set_group id g' fs) = set_group id g fs.
Proof. unfold set_group. simpl. by rewrite insert_insert_eq. Qed.

Lemma set_group_same id g fs : f_groups fs !! id = Some g → set_group id g fs = fs.
Proof. intros H. unfold set_group. rewrite insert_id by done. by destruct fs. Qed.

(** A limit written is the limit read: any negative value as no limit. *)
Lemma limit_text bytes :
  - 2^63 ≤ bytes < 2^63 →
  parseMemoryLimit (TrimSpace (if bytes <? 0 then "max" else pretty bytes)) = Ok (if bytes <? 0 then MemoryUnlimited else bytes).
Proof.
  intros Hb. destruct (Z.ltb_spec bytes 0) as [Hn|Hn]; [by vm_compute|].
  assert (digits_text (pretty bytes)) as Hd by (rewrite pretty_Z_nonneg by lia; apply pretty_N_digits).
  rewrite TrimSpace_word by by apply digits_word. unfold parseMemoryLimit.
  rewrite bool_decide_eq_false_2.
  2: { intros E. rewrite E in Hd. unfold digits_text in Hd. simpl in Hd. apply list.Forall_cons in Hd as [Hm _]. by vm_compute in Hm. }
  rewrite ParseInt_FormatInt by done. by rewrite (proj2 (Z.ltb_ge _ _)) by lia.
Qed.

Lemma parseMemoryLimit_range s v : parseMemoryLimit s = Ok v → v = MemoryUnlimited ∨ 0 ≤ v < 2^63.
Proof.
  unfold parseMemoryLimit. case_bool_decide; [intros [= <-]; by left|].
  destruct (ParseInt s) as [z|] eqn:E; [|done]. destruct (Z.ltb_spec z 0); [done|]. intros [= <-]. right.
  apply ParseInt_range in E. lia.
Qed.

(** Enabling controllers leaves the containers' files alone. *)
Lemma enable_levels_groups writable val l fs : f_groups (enable_levels writable val l fs).1 = f_groups fs.
Proof. revert fs. induction l as [|d l IH]; intros fs; simpl; [done|]. destruct (writable d); [by rewrite IH|done]. Qed.

Lemma enableControllers_groups cwd root writable wm wc fs :
  f_groups (enableControllers cwd root writable wm wc fs).1 = f_groups fs.
Proof.
  unfold enableControllers. destruct (negb wm && negb wc); [done|]. destruct (Rel _ _); [|done].
  case_bool_decide; [done|]. destruct (f_controllers fs); [|done]. destruct (wanted _ _ _); [done|apply enable_levels_groups].
Qed.
