(* ===== verification/Lifecycle.v ===== *)
(** * Pausing and resuming tasks (internal/lifecycle)

    [autopause.go], [deeppause.go], [balloon.go] and [quota.go].  A task's idle
    timer freezes it or, in deep mode, checkpoints and kills it; resuming undoes
    that.  The state is the manager's maps, the persisted task states, the
    cgroups, the process table with the checkpoint images, and whatever the
    quota hooks act on.  A call that may fail takes what fails as an argument;
    one time [now] stands for the times an operation reads.

    The callback of a timer runs concurrently with the API.  Only the manager's
    maps are shared with [Arm], [Reset], [Disarm] and [SetDeepPause], and only
    under its lock, so their interference is a list of such calls between two of
    the callback's critical sections. *)

From stdpp Require Import pretty.
From S2P Require Import Prelude Json Strconv TaskState Pid Cgroup.

(** ** The manager *)

Record Manager := mkManager {
  m_timers : gmap string (Z * Z);       (* task -> delay and generation of its callback *)
  m_gens : gmap string Z;
  m_epochs : gmap string Z;
  m_deepTasks : gset string;
  m_nextGen : Z
}.

Definition New : Manager := mkManager ∅ ∅ ∅ ∅ 0.

Definition epoch_of (m : Manager) (task : string) : Z := default 0 (m_epochs m !! task).

Definition armLocked (task : string) (d : Z) (m : Manager) : Manager :=
  let epochs := <[task := u64 (epoch_of m task + 1)]> (m_epochs m) in
  let timers := delete task (m_timers m) in
  let gens := delete task (m_gens m) in
  if d <=? 0 then mkManager timers gens epochs (m_deepTasks m) (m_nextGen m)
  else let gen := u64 (m_nextGen m + 1) in
       mkManager (<[task := (d, gen)]> timers) (<[task := gen]> gens) epochs (m_deepTasks m) gen.

Definition Arm (task : string) (d : Z) (m : Manager) : Manager := armLocked task d m.
Definition Reset (task : string) (d : Z) (m : Manager) : Manager := Arm task d m.

Definition Disarm (task : string) (m : Manager) : Manager :=
  mkManager (delete task (m_timers m)) (delete task (m_gens m)) (<[task := u64 (epoch_of m task + 1)]> (m_epochs m))
    (m_deepTasks m) (m_nextGen m).

Definition SetDeepPause (task : string) (deep : bool) (m : Manager) : Manager :=
  mkManager (m_timers m) (m_gens m) (m_epochs m)
    (if deep then {[task]} ∪ m_deepTasks m else m_deepTasks m ∖ {[task]}) (m_nextGen m).

Definition deepPauseWanted (task : string) (m : Manager) : bool := bool_decide (task ∈ m_deepTasks m).

(** The first critical section of [pause]: the callback of generation [gen] claims
    its schedule, and takes the epoch. *)
Definition claim (task : string) (gen : Z) (m : Manager) : option (Manager * Z) :=
  match m_gens m !! task with
  | Some cur =>
      if cur =? gen then
        Some (mkManager (delete task (m_timers m)) (delete task (m_gens m)) (m_epochs m) (m_deepTasks m) (m_nextGen m),
              epoch_of m task)
      else None
  | None => None
  end.

Definition epochCurrent (task : string) (epoch : Z) (m : Manager) : bool := epoch_of m task =? epoch.

Definition pauseRetryDelay : Z := 30 * 10^9.

Definition rearmRetry (task : string) (epoch : Z) (m : Manager) : Manager :=
  if epochCurrent task epoch m then armLocked task pauseRetryDelay m else m.

(** A call of the API on the manager. *)
Inductive mop := MArm (task : string) (d : Z) | MDisarm (task : string) | MSetDeep (task : string) (deep : bool).

Definition do_mop (m : Manager) (op : mop) : Manager :=
  match op with
  | MArm task d => Arm task d m
  | MDisarm task => Disarm task m
  | MSetDeep task deep => SetDeepPause task deep m
  end.
Definition do_mops (ops : list mop) (m : Manager) : Manager := fold_left do_mop ops m.

(** ** The quota seam (quota.go) *)

(** [Q] is what the hooks act on, [F] what of a call fails. *)
Class QuotaHooks (Q F E : Type) := {
  SuspendByTask : F → string → method Q E bool;
  ResumeByTask : F → string → method Q E bool
}.

(** ** The world the manager acts on *)

Inductive lc_err (E : Type) :=
| LState (e : state_err) | LCg (e : cg_err) | LQuota (e : E)
| LNotRunning | LNoPID | LNoCRIU | LIdentity | LDump | LKill | LNotDeep | LNoImages | LRestore.
Arguments LState {E} _. Arguments LCg {E} _. Arguments LQuota {E} _. Arguments LNotRunning {E}. Arguments LNoPID {E}.
Arguments LNoCRIU {E}. Arguments LIdentity {E}. Arguments LDump {E}. Arguments LKill {E}. Arguments LNotDeep {E}.
Arguments LNoImages {E}. Arguments LRestore {E}.

Record world (Q : Type) := mkWorld {
  w_mgr : Manager; w_root : state_root; w_cg : cgfs; w_procs : proc_table; w_images : gset string;
  w_quota : option Q                    (* None: no hooks installed *)
}.
Arguments mkWorld {Q} _ _ _ _ _ _. Arguments w_mgr {Q} _. Arguments w_root {Q} _. Arguments w_cg {Q} _.
Arguments w_procs {Q} _. Arguments w_images {Q} _. Arguments w_quota {Q} _.

(** [m1], and on its error [h]. *)
Definition gtry {S E A B} (m1 : method S E A) (h : E → method S E B) (k : A → method S E B) : method S E B := λ s,
  match m1 s with (s', Ok a) => k a s' | (s', Err e) => h e s' end.

Section Lifecycle.
Context {Q F E : Type} `{QuotaHooks Q F E}.

Definition set_mgr (m : Manager) (w : world Q) : world Q := mkWorld m (w_root w) (w_cg w) (w_procs w) (w_images w) (w_quota w).
Definition set_root (r : state_root) (w : world Q) : world Q := mkWorld (w_mgr w) r (w_cg w) (w_procs w) (w_images w) (w_quota w).
Definition set_cg (c : cgfs) (w : world Q) : world Q := mkWorld (w_mgr w) (w_root w) c (w_procs w) (w_images w) (w_quota w).
Definition set_procs (p : proc_table) (w : world Q) : world Q := mkWorld (w_mgr w) (w_root w) (w_cg w) p (w_images w) (w_quota w).
Definition set_images (i : gset string) (w : world Q) : world Q := mkWorld (w_mgr w) (w_root w) (w_cg w) (w_procs w) i (w_quota w).
Definition set_quota (q : option Q) (w : world Q) : world Q := mkWorld (w_mgr w) (w_root w) (w_cg w) (w_procs w) (w_images w) q.

Definition call := method (world Q) (lc_err E).

Definition on_mgr (f : Manager → Manager) (w : world Q) : world Q := set_mgr (f (w_mgr w)) w.
Definition interfere (ops : list mop) (w : world Q) : world Q := on_mgr (do_mops ops) w.

Definition cg_call {A} (m : method cgfs cg_err A) : call A := λ w,
  match m (w_cg w) with (c, Ok a) => (set_cg c w, Ok a) | (c, Err e) => (set_cg c w, Err (LCg e)) end.
Definition load (task : string) : call ContainerState := λ w,
  (w, match LoadState task (w_root w) with Ok st => Ok st | Err e => Err (LState e) end).
Definition saveState (fault : option save_fault) (now : Z) (task : string) (st : ContainerState) : call unit := λ w,
  match SaveState fault now task st (w_root w) with (r, Ok _) => (set_root r w, Ok tt) | (r, Err e) => (set_root r w, Err (LState e)) end.
(** [st.Transition] on the local copy [st]. *)
Definition transition (now : Z) (to : Status) (actor : Actor) (reason : string) (st : ContainerState) : call ContainerState := λ w,
  match Transition now now to actor reason st with (st', Ok _) => (w, Ok st') | (_, Err e) => (w, Err (LState e)) end.
Definition best_effort {A} (m : call A) : call unit := λ w, ((m w).1, Ok tt).
Definition missing (e : lc_err E) : bool := match e with LCg e => isNotExist e | _ => false end.

(** *** quota.go *)

Definition releaseQuota (fq : F) (task : string) : call unit := λ w,
  match w_quota w with
  | None => (w, Ok tt)
  | Some q => (set_quota (Some (SuspendByTask fq task q).1) w, Ok tt)
  end.

Definition reserveQuota (fq : F) (task : string) : call unit := λ w,
  match w_quota w with
  | None => (w, Ok tt)
  | Some q => match ResumeByTask fq task q with
              | (q', Ok _) => (set_quota (Some q') w, Ok tt)
              | (q', Err e) => (set_quota (Some q') w, Err (LQuota e))
              end
  end.

(** *** balloon.go *)

Definition pauseMemoryMaxKey : string := "pause_memory_max".

Record balloon_faults := mkBalloonFaults { bf_max : bool; bf_current : bool; bf_set : bool; bf_save : option save_fault; bf_undo : bool }.
Definition no_balloon_faults : balloon_faults := mkBalloonFaults false false false None false.

Definition BalloonPause (f : balloon_faults) (now : Z) (task : string) : call unit :=
  do* st <- load task;
  if bool_decide (st_Status st ≠ StatusSuspended) then gret tt else
  if bool_decide (is_Some (st_Metadata st !! pauseMemoryMaxKey)) then gret tt else
  do* orig <- cg_call (MemoryMax (bf_max f) task);
  do* cur <- cg_call (MemoryCurrent (bf_current f) task);
  if cur <=? 0 then gret tt else
  let target := if negb (orig =? MemoryUnlimited) && (orig <? cur) then orig else cur in
  do* _ <- cg_call (SetMemoryMax (bf_set f) task target);
  gtry (saveState (bf_save f) now task (set_meta st (<[pauseMemoryMaxKey := pretty orig]> (st_Metadata st))))
    (λ e, do* _ <- best_effort (cg_call (SetMemoryMax (bf_undo f) task orig)); gfail e)
    gret.

Definition RestorePauseBalloon (fault : bool) (task : string) (st : ContainerState) : call ContainerState :=
  match st_Metadata st !! pauseMemoryMaxKey with
  | None => gret st
  | Some raw =>
      let st := set_meta st (delete pauseMemoryMaxKey (st_Metadata st)) in
      match ParseInt raw with
      | None => gret st
      | Some orig => do* _ <- best_effort (cg_call (SetMemoryMax fault task orig)); gret st
      end
  end.

(** *** Resuming (autopause.go) *)

Definition thawBestEffort (fault : bool) (task : string) : call unit := best_effort (cg_call (Thaw fault task)).
Definition refreezeBestEffort (fault : bool) (task : string) : call unit := best_effort (cg_call (Freeze fault task)).

Record resume_faults := mkResumeFaults {
  rf_reserve : F; rf_release : F; rf_limit : bool; rf_thaw : bool;
  rf_save_resuming : option save_fault; rf_save_running : option save_fault; rf_save_back : option save_fault;
  rf_refreeze : bool
}.

Definition Resume (f : resume_faults) (now : Z) (task : string) : call unit :=
  do* st <- load task;
  if bool_decide (st_Status st ≠ StatusSuspended) then gfail (LState ErrInvalidTransition) else
  do* _ <- reserveQuota (rf_reserve f) task;
  do* st <- RestorePauseBalloon (rf_limit f) task st;
  let release (e : lc_err E) : call unit := do* _ <- releaseQuota (rf_release f) task; gfail e in
  let resumed : call unit :=
    gtry (transition now StatusResuming ActorController "auto-resume" st) release (λ st,
    gtry (saveState (rf_save_resuming f) now task st)
      (λ e, do* _ <- refreezeBestEffort (rf_refreeze f) task; release e) (λ _,
    gtry (transition now StatusRunning ActorController "resumed" st) release (λ st,
    gtry (saveState (rf_save_running f) now task st)
      (λ e,
         do* _ <- best_effort (do* st <- transition now StatusSuspended ActorSystem "resume rollback: persist failed" st;
                               saveState (rf_save_back f) now task st);
         do* _ <- refreezeBestEffort (rf_refreeze f) task;
         release e) (λ _,
    gput (λ w, match ParseDuration (st_IdleTimeout st) with
               | Some d => if 0 <? d then on_mgr (Arm task d) w else w
               | None => w
               end))))) in
  gtry (cg_call (Thaw (rf_thaw f) task)) (λ e, if missing e then resumed else release e) (λ _, resumed).

(** *** Deep pause (deeppause.go)

    CRIU: a successful dump that does not leave the task running stops it; a
    successful restore starts a process and returns its number. *)

Record deep_faults := mkDeepFaults {
  df_criu : bool;                     (* the binary is found *)
  df_freeze : bool; df_thaw : bool; df_dump : bool;
  df_save : option save_fault; df_save_back : option save_fault;
  df_kill : bool; df_kill_again : bool;
  df_release : F
}.

Definition containers : string := "/var/lib/uml-container/containers".
Definition mem_dir (task : string) : string := containers +:+ "/" +:+ task +:+ "/deeppause/criu".

Definition DumpMemory (fails : bool) (pid : Z) (dir : string) : call unit := λ w,
  let w := set_images ({[dir]} ∪ w_images w) w in
  if fails then (w, Err LDump) else (set_procs (delete pid (w_procs w)) w, Ok tt).

(** [SIGKILL]: false on an error other than a process that does not exist. *)
Definition kill (fails : bool) (pid : Z) (w : world Q) : world Q * bool :=
  match w_procs w !! pid with
  | None => (w, true)
  | Some _ => if fails then (w, false) else (set_procs (delete pid (w_procs w)) w, true)
  end.

Definition deep_meta (dir : string) (st : ContainerState) : ContainerState :=
  set_meta st (<["pause_memory" := dir]> (<["pause_mode" := "deep"]> (st_Metadata st)))%string.
Definition shallow_meta (st : ContainerState) : ContainerState :=
  set_meta st (delete "pause_memory" (delete "pause_mode" (st_Metadata st)))%string.

Definition deep_kill (f : deep_faults) (now : Z) (task : string) (st : ContainerState) : call unit := λ w,
  let '(w, killed) := kill (df_kill f) (st_PID st) w in
  let '(w, killed) := if killed then (w, true) else kill (df_kill_again f) (st_PID st) w in
  if killed then
    (do* _ <- gput (on_mgr (Disarm task)); releaseQuota (df_release f) task) w
  else
    gtry (do* st <- transition now StatusResuming ActorSystem "deep pause kill failed: rolling back" (shallow_meta st);
          do* st <- transition now StatusRunning ActorSystem "deep pause kill failed: rolled back" st;
          saveState (df_save_back f) now task st)
      (λ _, gfail LKill)
      (λ _, do* _ <- thawBestEffort (df_thaw f) task; gfail LKill) w.

Definition DeepPause (f : deep_faults) (now : Z) (task : string) : call unit :=
  do* st <- load task;
  if bool_decide (st_Status st ≠ StatusRunning) then gfail LNotRunning else
  if st_PID st <=? 0 then gfail LNoPID else
  if negb (df_criu f) then gfail LNoCRIU else
  do* procs <- ggets w_procs;
  if negb (PIDIdentityOK procs st) then gfail LIdentity else
  let thaw (e : lc_err E) : call unit := do* _ <- thawBestEffort (df_thaw f) task; gfail e in
  let frozen : call unit :=
    if negb (idRe task) then thaw (LState EInvalidID) else
    gtry (DumpMemory (df_dump f) (st_PID st) (mem_dir task)) thaw (λ _,
    gtry (transition now StatusSuspended ActorSystem "deep pause: memory checkpointed, process killed" (deep_meta (mem_dir task) st))
      thaw (λ st,
    gtry (saveState (df_save f) now task st) thaw (λ _, deep_kill f now task st))) in
  gtry (cg_call (Freeze (df_freeze f) task)) (λ e, if missing e then frozen else gfail e) (λ _, frozen).

Record deep_resume_faults := mkDeepResumeFaults {
  dr_reserve : F; dr_release : F;
  dr_restore : option (Z * string);     (* the restored process and its stat line; None: the restore fails *)
  dr_error : string;                    (* the text of that failure *)
  dr_save : option save_fault
}.

Definition RestoreMemory (f : deep_resume_faults) : call Z := λ w,
  match dr_restore f with
  | Some (pid, stat) => if 0 <? pid then (set_procs (<[pid := stat]> (w_procs w)) w, Ok pid) else (w, Err LRestore)
  | None => (w, Err LRestore)
  end.

Definition IsDeepPaused (task : string) (w : world Q) : bool :=
  match LoadState task (w_root w) with
  | Ok st => bool_decide (st_Status st = StatusSuspended) && bool_decide (meta st "pause_mode" = "deep"%string)
  | Err _ => false
  end.

Definition DeepResume (f : deep_resume_faults) (now : Z) (task : string) : call unit :=
  do* st <- load task;
  if bool_decide (st_Status st ≠ StatusSuspended) || bool_decide (meta st "pause_mode" ≠ "deep"%string) then gfail LNotDeep else
  let dir := meta st "pause_memory" in
  if bool_decide (dir = EmptyString) then gfail LNoImages else
  do* images <- ggets w_images;
  if bool_decide (dir ∉ images) then gfail LNoImages else
  do* _ <- reserveQuota (dr_reserve f) task;
  let release (e : lc_err E) : call unit := do* _ <- releaseQuota (dr_release f) task; gfail e in
  gtry (transition now StatusResuming ActorSystem "deep resume" st) release (λ st,
  gtry (RestoreMemory f)
    (λ e,
       do* _ <- releaseQuota (dr_release f) task;
       let st := (Transition now now StatusSuspended ActorSystem ("deep resume failed: " +:+ dr_error f) st).1 in
       do* _ <- best_effort (saveState (dr_save f) now task st); gfail e) (λ pid,
  do* procs <- ggets w_procs;
  let st := StampPID procs (shallow_meta st) pid in
  gtry (transition now StatusRunning ActorSystem "deep resume complete" st) release (λ st,
  saveState (dr_save f) now task st))).

(** *** Autopause *)

Record pause_faults := mkPauseFaults {
  pf_freeze : bool; pf_thaw : bool; pf_save : option save_fault; pf_save_back : option save_fault;
  pf_balloon : balloon_faults; pf_release : F; pf_deep : deep_faults
}.

(** Calls on the manager while the callback looks the task up, freezes it, and
    saves its state. *)
Record pause_env := mkPauseEnv { pe_load : list mop; pe_freeze : list mop; pe_save : list mop }.

Definition abortPause (f : pause_faults) (task : string) (epoch : Z) : call unit :=
  do* _ <- thawBestEffort (pf_thaw f) task; gput (on_mgr (rearmRetry task epoch)).

Definition rollback_reason : string := "autopause rollback: schedule replaced during commit".

Definition commitPause (f : pause_faults) (env : pause_env) (now : Z) (task : string) (epoch : Z) (st : ContainerState) : call unit :=
  do* current <- ggets (λ w, epochCurrent task epoch (w_mgr w));
  if negb current then thawBestEffort (pf_thaw f) task else
  gtry (transition now StatusSuspended ActorSystem "idle timeout" st) (λ _, abortPause f task epoch) (λ st,
  gtry (do* _ <- gput (interfere (pe_save env)); saveState (pf_save f) now task st) (λ _, abortPause f task epoch) (λ _,
  do* current <- ggets (λ w, epochCurrent task epoch (w_mgr w));
  if negb current then
    do* _ <- best_effort (do* st <- transition now StatusResuming ActorSystem rollback_reason st;
                          do* st <- transition now StatusRunning ActorSystem rollback_reason st;
                          saveState (pf_save_back f) now task st);
    thawBestEffort (pf_thaw f) task
  else
    do* _ <- best_effort (BalloonPause (pf_balloon f) now task);
    releaseQuota (pf_release f) task)).

Definition shallow_pause (f : pause_faults) (env : pause_env) (now : Z) (task : string) (epoch : Z) (st : ContainerState) : call unit :=
  do* _ <- gput (interfere (pe_freeze env));
  gtry (cg_call (Freeze (pf_freeze f) task))
    (λ e, if missing e then commitPause f env now task epoch st else gput (on_mgr (rearmRetry task epoch)))
    (λ _, commitPause f env now task epoch st).

Definition pause_claimed (f : pause_faults) (env : pause_env) (now : Z) (task : string) (epoch : Z) : call unit :=
  gtry (load task) (λ _, gret tt) (λ st,
  if bool_decide (st_Status st ≠ StatusRunning) then gret tt else
  do* _ <- gput (interfere (pe_load env));
  do* deep <- ggets (λ w, deepPauseWanted task (w_mgr w));
  if deep : bool then gtry (DeepPause (pf_deep f) now task) (λ _, shallow_pause f env now task epoch st) gret
  else shallow_pause f env now task epoch st).

Definition pause (f : pause_faults) (env : pause_env) (now : Z) (task : string) (gen : Z) : call unit := λ w,
  match claim task gen (w_mgr w) with
  | None => (w, Ok tt)
  | Some (m, epoch) => pause_claimed f env now task epoch (set_mgr m w)
  end.
End Lifecycle.
