(* ===== verification/LifecycleSpec.v ===== *)
(** * What the lifecycle manager's calls do

    Each call on the world touches one part of it; the lemmas here say which and
    how, and what the cancel epoch detects. *)

From stdpp Require Import pretty.
From S2P Require Import Prelude Json Strconv TaskState Pid Cgroup Lifecycle.

(** ** The manager's schedule *)

Definition touches (task : string) (op : mop) : bool :=
  match op with MArm t _ | MDisarm t => bool_decide (t = task) | MSetDeep _ _ => false end.

Definition touched (task : string) (ops : list mop) : Z := zlen (filter (λ op, touches task op = true) ops).

(** Epochs and generations are 64-bit counters; generations are handed out in order. *)
Record mgr_ok (m : Manager) : Prop := {
  mk_epochs : ∀ task, 0 ≤ epoch_of m task < 2^64;
  mk_next : 0 ≤ m_nextGen m < 2^64;
  mk_gens : map_Forall (λ _ g, 0 < g ≤ m_nextGen m) (m_gens m)
}.

Lemma New_ok : mgr_ok New.
Proof. split; [intros task; unfold epoch_of; simpl; rewrite lookup_empty; simpl; lia|simpl; lia|apply map_Forall_empty]. Qed.

Lemma epoch_insert m task task' e timers gens deep next :
  epoch_of (mkManager timers gens (<[task := e]> (m_epochs m)) deep next) task' = if bool_decide (task = task') then e else epoch_of m task'.
Proof.
  unfold epoch_of. simpl. case_bool_decide as Hq; [by rewrite Hq, lookup_insert_eq|by rewrite lookup_insert_ne].
Qed.

Lemma epoch_arm task task' d m :
  epoch_of (Arm task d m) task' = if bool_decide (task = task') then u64 (epoch_of m task + 1) else epoch_of m task'.
Proof. unfold Arm, armLocked. destruct (d <=? 0); apply epoch_insert. Qed.

Lemma epoch_op op m task :
  epoch_of (do_mop m op) task = if touches task op then u64 (epoch_of m task + 1) else epoch_of m task.
Proof.
  destruct op as [t d|t|t b]; simpl; [rewrite epoch_arm|unfold Disarm; rewrite epoch_insert|done];
    case_bool_decide as Hq; by rewrite ?Hq.
Qed.

Lemma epoch_ops ops m task : 0 ≤ epoch_of m task < 2^64 → epoch_of (do_mops ops m) task = u64 (epoch_of m task + touched task ops).
Proof.
  revert m. induction ops as [|op ops IH]; intros m Hr; unfold touched; simpl.
  - change (zlen _) with 0. rewrite u64_id; lia.
  - change (do_mops (op :: ops) m) with (do_mops ops (do_mop m op)). rewrite IH.
    2: { rewrite epoch_op. destruct (touches task op); [apply u64_range|done]. }
    rewrite epoch_op. unfold touched. rewrite filter_cons. destruct (touches task op) eqn:Et.
    + rewrite decide_True by done. rewrite zlen_cons. unfold u64. rewrite Zplus_mod_idemp_l. f_equal. lia.
    + by rewrite decide_False.
Qed.

(** The epoch tells whether the schedule was touched. *)
Lemma epochCurrent_ops ops m task :
  mgr_ok m → zlen ops < 2^64 → epochCurrent task (epoch_of m task) (do_mops ops m) = (touched task ops =? 0).
Proof.
  intros [He _ _] Hl. specialize (He task). unfold epochCurrent. rewrite epoch_ops by done.
  assert (0 ≤ touched task ops ≤ zlen ops) as Ht.
  { split; [apply zlen_nonneg|]. unfold touched, zlen. pose proof (length_filter (λ op, touches task op = true) ops). lia. }
  unfold u64. set (e := epoch_of m task) in *. set (n := touched task ops) in *. clearbody e n.
  destruct (Z.eqb_spec n 0) as [->|Hn]; [rewrite Z.add_0_r, Z.mod_small by lia; lia|].
  apply Z.eqb_neq. intros Hq. destruct (Z.ltb_spec (e + n) (2^64)).
  - rewrite Z.mod_small in Hq; lia.
  - rewrite <- (Z.mod_add (e + n) (-1)) in Hq by lia. rewrite Z.mod_small in Hq; lia.
Qed.

Lemma touched_app task ops ops' : touched task (ops ++ ops') = touched task ops + touched task ops'.
Proof. unfold touched. by rewrite list.filter_app, zlen_app. Qed.

Lemma touched_nonneg task ops : 0 ≤ touched task ops.
Proof. apply zlen_nonneg. Qed.

Lemma do_mops_app ops ops' m : do_mops (ops ++ ops') m = do_mops ops' (do_mops ops m).
Proof. apply fold_left_app. Qed.

Lemma claim_epoch task gen m m' epoch : claim task gen m = Some (m', epoch) → mgr_ok m → mgr_ok m' ∧ epoch = epoch_of m' task.
Proof.
  unfold claim. destruct (m_gens m !! task) as [g|]; [|done]. destruct (g =? gen); [|done]. intros [= <- <-] [He Hn Hg].
  split; [|done]. split; [done..|]. by apply map_Forall_delete.
Qed.

(** *** Generations

    Everything that changes the manager: API calls, and the claims and retries of
    callbacks. *)

Inductive mstep := SOp (op : mop) | SClaim (task : string) (gen : Z) | SRetry (task : string) (epoch : Z).

Definition do_mstep (m : Manager) (s : mstep) : Manager :=
  match s with
  | SOp op => do_mop m op
  | SClaim task gen => match claim task gen m with Some (m', _) => m' | None => m end
  | SRetry task epoch => rearmRetry task epoch m
  end.

Lemma arm_gens task d m :
  m_nextGen m < 2^64 - 1 → mgr_ok m →
  mgr_ok (Arm task d m) ∧ m_nextGen m ≤ m_nextGen (Arm task d m) ≤ m_nextGen m + 1 ∧
  (∀ t g, m_gens (Arm task d m) !! t = Some g → m_gens m !! t = Some g ∧ t ≠ task ∨ t = task ∧ g = m_nextGen m + 1).
Proof.
  intros Hlt [He Hn Hg]. split_and!.
  - assert (∀ t, 0 ≤ epoch_of (Arm task d m) t < 2^64) as He' by (intros t; rewrite epoch_arm; case_bool_decide; [apply u64_range|done]).
    split; [done|..]; unfold Arm, armLocked; destruct (d <=? 0); simpl; rewrite ?u64_id by lia; try lia.
    + by apply map_Forall_delete.
    + apply map_Forall_insert_2; [lia|]. eapply map_Forall_impl; [by apply map_Forall_delete|]. simpl. lia.
  - unfold Arm, armLocked. destruct (d <=? 0); simpl; rewrite ?u64_id; lia.
  - unfold Arm, armLocked. destruct (d <=? 0); simpl; rewrite ?u64_id; lia.
  - intros t g. unfold Arm, armLocked. destruct (d <=? 0); simpl.
    + intros [Hne Hl]%lookup_delete_Some. left. by split.
    + intros [[<- <-]|[Hne Hl]]%lookup_insert_Some; [right; by rewrite u64_id by lia|].
      apply lookup_delete_Some in Hl as [_ Hl]. left. by split.
Qed.

(** A generation once handed out and no longer live never becomes live again. *)
Definition dead (task : string) (gen : Z) (m : Manager) : Prop := gen ≤ m_nextGen m ∧ m_gens m !! task ≠ Some gen.

Lemma mstep_ok s m :
  m_nextGen m < 2^64 - 1 → mgr_ok m →
  mgr_ok (do_mstep m s) ∧ m_nextGen m ≤ m_nextGen (do_mstep m s) ≤ m_nextGen m + 1 ∧
  ∀ task gen, dead task gen m → dead task gen (do_mstep m s).
Proof.
  intros Hlt Hok.
  assert (∀ t d, mgr_ok (Arm t d m) ∧ m_nextGen m ≤ m_nextGen (Arm t d m) ≤ m_nextGen m + 1 ∧
    ∀ task gen, dead task gen m → dead task gen (Arm t d m)) as Harm.
  { intros t d. destruct (arm_gens t d m Hlt Hok) as (? & ? & Hg). split; [done|]. split; [lia|].
    intros task gen [Hle Hne]. split; [lia|]. intros Hl. apply Hg in Hl as [[Hl _]|[_ ->]]; [done|lia]. }
  destruct s as [[t d|t|t b]|t g|t e]; simpl.
  - apply Harm.
  - destruct Hok as [He Hn Hg]. split_and!; simpl; [split|lia|lia|]; simpl.
    + intros t'. unfold Disarm. rewrite epoch_insert. case_bool_decide; [apply u64_range|done].
    + done.
    + by apply map_Forall_delete.
    + intros task gen [Hle Hne]. split; [done|]. simpl. intros [_ Hl]%lookup_delete_Some. done.
  - destruct Hok as [He Hn Hg]. split_and!; [by split|simpl; lia|simpl; lia|done].
  - destruct (claim t g m) as [[m' e]|] eqn:Ec; [|split_and!; [done|lia|lia|done]].
    pose proof (claim_epoch _ _ _ _ _ Ec Hok) as [Hok' _]. unfold claim in Ec.
    destruct (m_gens m !! t); [|done]. destruct (_ =? g); [|done]. injection Ec as <- <-. split_and!; [done|simpl; lia|simpl; lia|].
    intros task gen [Hle Hne]. split; [done|]. simpl. intros [_ Hl]%lookup_delete_Some. done.
  - unfold rearmRetry. destruct (epochCurrent t e m); [apply Harm|]. split_and!; [done|lia|lia|done].
Qed.

Lemma msteps_ok ss m :
  m_nextGen m + zlen ss < 2^64 → mgr_ok m →
  let m' := fold_left do_mstep ss m in
  mgr_ok m' ∧ m_nextGen m ≤ m_nextGen m' ≤ m_nextGen m + zlen ss ∧ ∀ task gen, dead task gen m → dead task gen m'.
Proof.
  revert m. induction ss as [|s ss IH]; intros m Hl Hok; simpl.
  - rewrite zlen_nil. split_and!; [done|lia|lia|done].
  - rewrite zlen_cons in *. pose proof (zlen_nonneg ss). destruct (mstep_ok s m ltac:(lia) Hok) as (H1 & H2 & H3).
    destruct (IH (do_mstep m s) ltac:(lia) H1) as (H4 & H5 & H6). split_and!; [done|lia|lia|]. auto.
Qed.

Lemma touch_kills op m task : touches task op = true → m_nextGen m < 2^64 - 1 → mgr_ok m →
  ∀ gen, gen ≤ m_nextGen m → dead task gen (do_mop m op).
Proof.
  intros Ht Hlt Hok gen Hle. destruct (mstep_ok (SOp op) m Hlt Hok) as (_ & Hn & _). split; [simpl in Hn; lia|].
  destruct op as [t d|t|t b]; simpl in *; [|..]; try done; apply bool_decide_eq_true in Ht; subst t.
  - intros Hl. apply (arm_gens task d m Hlt Hok) in Hl as [[_ ?]|[_ ->]]; [done|lia].
  - intros [? _]%lookup_delete_Some. done.
Qed.

Lemma do_mops_gens ops m task : touched task ops = 0 → m_gens m !! task = None → m_gens (do_mops ops m) !! task = None.
Proof.
  revert m. induction ops as [|op ops IH]; intros m Ht Hn; [done|]. change (op :: ops) with ([op] ++ ops) in *.
  rewrite touched_app in Ht. pose proof (touched_nonneg task [op]). pose proof (touched_nonneg task ops).
  rewrite do_mops_app. apply IH; [lia|]. assert (touches task op = false) as Hop.
  { destruct (touches task op) eqn:E; [|done]. exfalso. unfold touched in *. rewrite filter_cons, E in Ht.
    rewrite decide_True in Ht by done. rewrite zlen_cons in Ht. pose proof (zlen_nonneg (filter (λ op, touches task op = true) (@nil mop))).
    lia. }
  destruct op as [t d|t|t b]; simpl in *; [|rewrite lookup_delete_None; by right|done].
  apply bool_decide_eq_false in Hop. unfold Arm, armLocked. destruct (d <=? 0); simpl.
  - rewrite lookup_delete_None. by right.
  - rewrite lookup_insert_ne, lookup_delete_ne by done. done.
Qed.

(** ** Saved states *)

Lemma loaded_root r c task : loaded (mkRoot (sr_dirs r) c) task = loaded r task.
Proof. done. Qed.

Lemma loaded_put r id d task :
  loaded (put_dir r id d) task =
    if bool_decide (id = task) then (if idRe task then '(_, st) ← td_state d; st else None) else loaded r task.
Proof.
  unfold loaded, LoadState, dir_of, put_dir. simpl. case_bool_decide as Hq.
  - subst id. rewrite lookup_insert_eq. simpl. destruct (idRe task); simpl; [|done].
    by destruct (td_state d) as [[? [?|]]|].
  - rewrite lookup_insert_ne by done. done.
Qed.

Lemma loaded_at r task : idRe task = true → loaded r task = '(_, st) ← td_state (dir_of r task); st.
Proof. intros H. unfold loaded, LoadState. rewrite H. simpl. by destruct (td_state (dir_of r task)) as [[? [?|]]|]. Qed.

(** A save that succeeds is what is loaded next; one that fails changes nothing. *)
Lemma save_loaded fault now id st r r' res :
  SaveState fault now id st r = (r', res) → idRe id = true →
  match fault with
  | None => res = Ok tt ∧ ∀ task, loaded r' task = if bool_decide (id = task) then Some st else loaded r task
  | Some _ => res = Err EStateIO ∧ ∀ task, loaded r' task = loaded r task
  end.
Proof.
  unfold SaveState. intros Hs Hid. rewrite Hid in Hs. simpl in Hs.
  assert (∀ n task, loaded (put_dir r id (mkDir (td_state (dir_of r id)) n)) task = loaded r task) as Hput.
  { intros n task. rewrite loaded_put. case_bool_decide as Hq; [|done]. subst. rewrite Hid. by rewrite loaded_at. }
  assert (put_dir r id (dir_of r id) = put_dir r id (mkDir (td_state (dir_of r id)) (td_temps (dir_of r id)))) as Hd
    by by destruct (dir_of r id).
  destruct fault as [[]|]; injection Hs as <- <-; (split; [done|]); intros task; try done; rewrite ?Hd; [apply Hput..|].
  unfold invalidateListCache. rewrite loaded_root, loaded_put. case_bool_decide as Hq; [by rewrite <- Hq, Hid|done].
Qed.

(** ** The world *)

Section World.
Context {Q F E : Type} `{QuotaHooks Q F E}.
Implicit Types (w : world Q).

Definition status_of w (task : string) : option Status := st_Status <$> loaded (w_root w) task.
Definition freezer w (task : string) : option string := g_freeze <$> f_groups (w_cg w) !! task.

Lemma load_run w task st : loaded (w_root w) task = Some st → load (E:=E) task w = (w, Ok st).
Proof. unfold loaded, load. destruct (LoadState task (w_root w)); [by intros [= ->]|done]. Qed.

Lemma save_run fault now task st w :
  idRe task = true →
  ∃ r', saveState (E:=E) fault now task st w = (set_root r' w, if fault then Err (LState EStateIO) else Ok tt) ∧
    ∀ t, loaded r' t = if bool_decide (task = t) && negb (bool_decide (is_Some fault)) then Some st else loaded (w_root w) t.
Proof.
  intros Hid. unfold saveState. destruct (SaveState fault now task st (w_root w)) as [r' res] eqn:Es.
  apply save_loaded in Es; [|done]. exists r'. destruct fault as [ft|]; destruct Es as [-> Hl]; split; try done.
  - intros t. rewrite (bool_decide_eq_true_2 (is_Some (Some ft))) by eauto. by rewrite andb_false_r.
  - intros t. rewrite (bool_decide_eq_false_2 (is_Some None)) by by intros [? ?]. by rewrite andb_true_r.
Qed.

Lemma transition_run now to actor reason st w :
  Terminal (st_Status st) = false → canTransition (st_Status st) to = true →
  ∃ st', transition (E:=E) now to actor reason st w = (w, Ok st') ∧ st_Status st' = to ∧
    st_Metadata st' = st_Metadata st ∧ st_IdleTimeout st' = st_IdleTimeout st ∧ st_PID st' = st_PID st.
Proof. intros Ht Hc. unfold transition, Transition. rewrite Ht, Hc. simpl. by eexists. Qed.

Lemma write_run fault task upd w g :
  idRe task = true → f_groups (w_cg w) !! task = Some g →
  cg_call (E:=E) (write_file fault task upd) w =
    if fault then (w, Err (LCg CgIO)) else (set_cg (set_group task (upd g) (w_cg w)) w, Ok tt).
Proof.
  intros Hid Hg. unfold cg_call, write_file. rewrite Hid, Hg. simpl. destruct fault; [|done]. by destruct w.
Qed.

Lemma thaw_run fault task w g :
  idRe task = true → f_groups (w_cg w) !! task = Some g →
  thawBestEffort (E:=E) fault task w = (if fault then w else set_cg (set_group task (with_freeze g "0") (w_cg w)) w, Ok tt).
Proof.
  intros Hid Hg. unfold thawBestEffort, best_effort, Thaw. rewrite (write_run fault task _ w g) by done. by destruct fault.
Qed.

Lemma freezer_set task g c w : freezer (set_cg (set_group task g c) w) task = Some (g_freeze g).
Proof. unfold freezer. simpl. by rewrite lookup_insert_eq. Qed.

(** Ballooning changes a limit and a marker. *)
Record same_but_limit (task : string) w w' : Prop := {
  sl_mgr : w_mgr w' = w_mgr w; sl_quota : w_quota w' = w_quota w; sl_procs : w_procs w' = w_procs w;
  sl_status : status_of w' task = status_of w task; sl_freezer : freezer w' task = freezer w task
}.

Lemma balloon_frame f now task w : idRe task = true → same_but_limit task w (BalloonPause (E:=E) f now task w).1.
Proof.
  intros Hid. assert (∀ w0, same_but_limit task w0 w0) as Hr by done.
  unfold BalloonPause, gbind at 1. destruct (load task w) as [w1 [st|e]] eqn:El; [|unfold load in El; injection El as <- _; done].
  assert (w1 = w ∧ loaded (w_root w) task = Some st) as [-> Hst].
  { unfold load in El. injection El as <- El. split; [done|]. unfold loaded. destruct (LoadState task (w_root w)); [by injection El as ->|done]. }
  case_bool_decide; [done|]. case_bool_decide; [done|].
  destruct (f_groups (w_cg w) !! task) as [g|] eqn:Hg.
  2: { unfold gbind at 1, cg_call at 1, MemoryMax, gbind, read_file. rewrite Hid, Hg. simpl. by destruct w. }
  unfold gbind at 1, cg_call at 1, MemoryMax. unfold gbind at 1, read_file. rewrite Hid, Hg. simpl.
  assert (set_cg (w_cg w) w = w) as Hw by by destruct w.
  destruct (bf_max f); simpl; rewrite ?Hw; [done|]. destruct (parseMemoryLimit _) as [orig|]; simpl; rewrite ?Hw; [|done].
  unfold gbind at 1, cg_call at 1, MemoryCurrent. unfold gbind at 1, read_file. rewrite Hid, Hg. simpl.
  destruct (bf_current f); simpl; rewrite ?Hw; [done|]. destruct (ParseInt _) as [cur|]; simpl; rewrite ?Hw; [|done].
  destruct (cur <=? 0); [done|].
  match goal with |- context [SetMemoryMax (bf_set f) task ?t] => set (target := t) end. unfold gbind at 1, SetMemoryMax at 1. rewrite (write_run _ task _ w g) by done.
  destruct (bf_set f); [done|]. set (w2 := set_cg _ w). unfold gtry.
  set (st' := set_meta st _). destruct (save_run (bf_save f) now task st' w2 Hid) as (r' & -> & Hl).
  destruct (bf_save f) as [ft|].
  - unfold gbind, best_effort, SetMemoryMax. rewrite (write_run _ task _ (set_root r' w2) (with_max g (if target <? 0 then "max" else pretty target)))
      by (try done; simpl; by rewrite lookup_insert_eq).
    destruct (bf_undo f); simpl; split; try done; unfold status_of, freezer; simpl; rewrite ?Hl, ?andb_false_r, ?lookup_insert_eq, ?Hg; done.
  - simpl. split; try done; unfold status_of, freezer; simpl.
    + rewrite Hl, bool_decide_eq_true_2 by done. rewrite Hst. done.
    + by rewrite lookup_insert_eq, Hg.
Qed.
End World.
