(* ===== verification/LifecycleClaims.v ===== *)
(** * Properties of pausing and resuming *)

From stdpp Require Import pretty.
From S2P Require Import Prelude Json Strconv TaskState Pid Cgroup Lifecycle LifecycleSpec.

Section Claims.
Context {Q F E : Type} `{QuotaHooks Q F E}.
Implicit Types (w : world Q).

(** ** How an autopause ends

    [m] is the manager after the callback claimed its schedule, [ops] the calls
    that reached it since. *)

Definition release (fq : F) (task : string) (q : option Q) : option Q := (λ q, (SuspendByTask fq task q).1) <$> q.

Inductive pause_end (f : pause_faults (F:=F)) (task : string) (m : Manager) (ops : list mop) w w' : Prop :=
| PauseCommitted :
    touched task ops = 0 → status_of w' task = Some StatusSuspended → freezer w' task = Some "1"%string →
    w_mgr w' = do_mops ops m → w_quota w' = release (pf_release f) task (w_quota w) → pause_end f task m ops w w'
| PauseKept :
    status_of w' task = Some StatusRunning → (pf_thaw f = false → freezer w' task = Some "0"%string) →
    w_mgr w' = (if touched task ops =? 0 then Arm task pauseRetryDelay (do_mops ops m) else do_mops ops m) →
    w_quota w' = w_quota w → pause_end f task m ops w w'
| PauseStranded :
    0 < touched task ops → pf_save_back f ≠ None → status_of w' task = Some StatusSuspended →
    (pf_thaw f = false → freezer w' task = Some "0"%string) →
    w_mgr w' = do_mops ops m → w_quota w' = w_quota w → pause_end f task m ops w w'.

Lemma kept_thawed f task m ops w w1 g :
  idRe task = true → f_groups (w_cg w1) !! task = Some g → status_of w1 task = Some StatusRunning →
  w_mgr w1 = (if touched task ops =? 0 then Arm task pauseRetryDelay (do_mops ops m) else do_mops ops m) → w_quota w1 = w_quota w →
  pause_end f task m ops w (thawBestEffort (E:=E) (pf_thaw f) task w1).1.
Proof.
  intros Hid Hg Hs Hm Hq. rewrite (thaw_run _ _ _ g) by done. destruct (pf_thaw f) eqn:Et; simpl.
  - apply PauseKept; try done. by rewrite Et.
  - apply PauseKept; try done. intros _. apply freezer_set.
Qed.

Lemma abort_kept f task m ops w w1 g :
  idRe task = true → f_groups (w_cg w1) !! task = Some g → status_of w1 task = Some StatusRunning →
  mgr_ok m → zlen ops < 2^64 → w_mgr w1 = do_mops ops m → w_quota w1 = w_quota w →
  pause_end f task m ops w (abortPause (E:=E) f task (epoch_of m task) w1).1.
Proof.
  intros Hid Hg Hs Hok Hl Hm Hq. unfold abortPause, gbind. rewrite (thaw_run _ _ _ g) by done.
  assert (rearmRetry task (epoch_of m task) (do_mops ops m) =
    if touched task ops =? 0 then Arm task pauseRetryDelay (do_mops ops m) else do_mops ops m) as Hr.
  { unfold rearmRetry. by rewrite epochCurrent_ops. }
  apply PauseKept; destruct (pf_thaw f) eqn:Et; simpl; rewrite ?Hm; try done.
  intros _. apply freezer_set.
Qed.

Lemma commit_end f env now task m ops w w1 st g :
  idRe task = true → f_groups (w_cg w1) !! task = Some g → g_freeze g = "1"%string →
  loaded (w_root w1) task = Some st → st_Status st = StatusRunning →
  mgr_ok m → zlen ops + zlen (pe_save env) < 2^64 → w_mgr w1 = do_mops ops m → w_quota w1 = w_quota w →
  ∃ ops', (ops' = ops ∨ ops' = ops ++ pe_save env) ∧
    pause_end f task m ops' w (commitPause f env now task (epoch_of m task) st w1).1.
Proof.
  intros Hid Hg Hfz Hst Hrun Hok Hl Hm Hq. pose proof (zlen_nonneg (pe_save env)). unfold commitPause, gbind at 1. cbn [ggets].
  rewrite Hm, epochCurrent_ops by (done || lia).
  destruct (Z.eqb_spec (touched task ops) 0) as [Ht|Ht]; simpl.
  2: { exists ops. split; [by left|]. apply (kept_thawed f task m ops w w1 g); try done.
       - unfold status_of. by rewrite Hst, <- Hrun.
       - by rewrite (proj2 (Z.eqb_neq _ _) Ht). }
  exists (ops ++ pe_save env). split; [by right|]. unfold gtry at 1.
  destruct (transition_run (E:=E) now StatusSuspended ActorSystem "idle timeout" st w1) as (st1 & -> & Hs1 & _);
    [by rewrite Hrun..|].
  unfold gtry at 1. unfold gbind at 1. cbn [gput].
  set (w2 := interfere (pe_save env) w1).
  assert (w_mgr w2 = do_mops (ops ++ pe_save env) m) as Hm2 by (simpl; by rewrite Hm, do_mops_app).
  assert (zlen (ops ++ pe_save env) < 2^64) as Hl2 by (rewrite zlen_app; lia).
  destruct (save_run (E:=E) (pf_save f) now task st1 w2 Hid) as (r & -> & Hr).
  destruct (pf_save f) as [ft|]; simpl in Hr.
  { apply (abort_kept f task m _ w _ g); try done. unfold status_of. simpl. rewrite Hr, andb_false_r. simpl. by rewrite Hst, <- Hrun. }
  unfold gbind at 1. cbn [ggets]. change (w_mgr (set_root r w2)) with (w_mgr w2). rewrite Hm2, epochCurrent_ops by done.
  assert (loaded r task = Some st1) as Hr1 by (rewrite Hr, bool_decide_eq_true_2 by done; done).
  destruct (Z.eqb_spec (touched task (ops ++ pe_save env)) 0) as [Ht2|Ht2]; cbn [negb].
  - unfold gbind, best_effort at 1. set (w3 := set_root r w2).
    destruct (balloon_frame (E:=E) (pf_balloon f) now task w3 Hid) as [B1 B2 _ B4 B5].
    set (w4 := (BalloonPause (pf_balloon f) now task w3).1) in *.
    assert (status_of w4 task = Some StatusSuspended) as Hs4 by (rewrite B4; unfold status_of; simpl; by rewrite Hr1, <- Hs1).
    assert (freezer w4 task = Some "1"%string) as Hf4 by (rewrite B5; unfold freezer; simpl; by rewrite Hg, <- Hfz).
    assert (w_quota w4 = w_quota w) as Hq4 by (rewrite B2; done).
    assert (w_mgr w4 = do_mops (ops ++ pe_save env) m) as Hm4 by (rewrite B1; done).
    unfold releaseQuota. destruct (w_quota w4) as [q|] eqn:Eq; (apply PauseCommitted; simpl; try done);
      rewrite ?Eq, <- Hq4; done.
  - pose proof (touched_nonneg task (ops ++ pe_save env)).
    unfold gbind at 1, best_effort at 1.
    assert (∀ now r st, st_Status st = StatusSuspended → ∃ st3, st_Status st3 = StatusRunning ∧
      (do* st' <- transition (E:=E) now StatusResuming ActorSystem rollback_reason st;
       do* st'' <- transition now StatusRunning ActorSystem rollback_reason st'; saveState (pf_save_back f) now task st'') (set_root r w2)
      = saveState (pf_save_back f) now task st3 (set_root r w2)) as Hback.
    { intros now' r' st' Hs'. unfold gbind.
      destruct (transition_run (E:=E) now' StatusResuming ActorSystem rollback_reason st' (set_root r' w2)) as (st2 & -> & Hs2 & _); [by rewrite Hs'..|].
      destruct (transition_run (E:=E) now' StatusRunning ActorSystem rollback_reason st2 (set_root r' w2)) as (st3 & -> & Hs3 & _); [by rewrite Hs2..|].
      by exists st3. }
    destruct (Hback now r st1 Hs1) as (st3 & Hs3 & ->).
    destruct (save_run (E:=E) (pf_save_back f) now task st3 (set_root r w2) Hid) as (r2 & -> & Hr2). cbn [fst].
    destruct (pf_save_back f) as [ft|] eqn:Eb; simpl in Hr2.
    + rewrite (thaw_run _ _ _ g) by done. apply PauseStranded; try lia; rewrite ?Eb; try done;
        destruct (pf_thaw f); simpl; try done.
      * unfold status_of; simpl. by rewrite Hr2, andb_false_r, Hr1, <- Hs1.
      * unfold status_of; simpl. by rewrite Hr2, andb_false_r, Hr1, <- Hs1.
      * intros _. apply freezer_set.
    + apply (kept_thawed f task m _ w _ g); try done.
      * unfold status_of; simpl. rewrite Hr2, bool_decide_eq_true_2 by done. simpl. by rewrite Hs3.
      * by rewrite (proj2 (Z.eqb_neq _ _) Ht2).
Qed.

(** C3. A shallow autopause never leaves a task in between.  A callback that claimed
    its schedule, for a running task with a live cgroup and no deep pause
    configured, ends in one of three ways, whatever fewer than 2^64 calls interleave
    while it looks the task up, freezes it and saves it, and whatever of it fails.
    Suspended: saved as such, frozen, its quota handed to the release call - and no
    call touched its schedule.  Running: saved as such, thawed unless the thaw
    failed, its quota held, and its schedule is the one the interleaved calls left,
    or a retry if there were none.  Or, only if calls interleaved and saving the
    rollback failed too, saved as suspended, its quota held, and thawed unless the
    thaw failed.  (Nothing interleaves after the second look at the epoch; the deep
    path is different, see [deep_pause_ignores_reset] and
    [unsaved_deep_pause_loses_task].) *)
Theorem pause_outcome f env now task gen w m epoch st :
  claim task gen (w_mgr w) = Some (m, epoch) → mgr_ok (w_mgr w) →
  idRe task = true → loaded (w_root w) task = Some st → st_Status st = StatusRunning → freezer w task = Some "0"%string →
  deepPauseWanted task (do_mops (pe_load env) m) = false →
  zlen (pe_load env ++ pe_freeze env ++ pe_save env) < 2^64 →
  ∃ ops, (ops = pe_load env ++ pe_freeze env ∨ ops = pe_load env ++ pe_freeze env ++ pe_save env) ∧
    pause_end f task m ops w (pause f env now task gen w).1.
Proof.
  intros Hc Hok Hid Hst Hrun Hfz Hdeep Hl. destruct (claim_epoch _ _ _ _ _ Hc Hok) as [Hok' ->].
  unfold pause. rewrite Hc. unfold pause_claimed, gtry at 1. rewrite (load_run _ _ st) by done. rewrite bool_decide_eq_false_2 by (intros Hn; by apply Hn).
  unfold gbind at 1. cbn [gput]. unfold gbind at 1. cbn [ggets]. change (w_mgr (interfere _ (set_mgr m w))) with (do_mops (pe_load env) m).
  rewrite Hdeep. unfold shallow_pause, gbind at 1. cbn [gput].
  set (w1 := interfere _ (interfere _ _)). set (ops := pe_load env ++ pe_freeze env).
  assert (w_mgr w1 = do_mops ops m) as Hm by (subst ops; simpl; by rewrite do_mops_app).
  unfold freezer in Hfz. destruct (f_groups (w_cg w) !! task) as [g|] eqn:Hg; simpl in Hfz; [|done]. injection Hfz as Hfz.
  assert (f_groups (w_cg w1) !! task = Some g) as Hg1 by done.
  rewrite app_assoc, zlen_app in Hl. fold ops in Hl. pose proof (zlen_nonneg (pe_save env)).
  rewrite app_assoc. fold ops. unfold gtry, Freeze. rewrite (write_run _ _ _ w1 g) by done. destruct (pf_freeze f).
  - exists ops. split; [by left|]. apply PauseKept; [|intros _|..]; try done.
    + unfold status_of. simpl. by rewrite Hst, <- Hrun.
    + unfold freezer. simpl. by rewrite Hg, <- Hfz.
    + transitivity (rearmRetry task (epoch_of m task) (w_mgr w1)); [done|]. rewrite Hm. unfold rearmRetry. by rewrite epochCurrent_ops by (done || lia).
  - eapply commit_end; try done; [simpl; by rewrite lookup_insert_eq|done].
Qed.

(** A cancelled timer never pauses a task.  Once any [Arm], [Reset] or [Disarm] of
    the task follows the [Arm] that scheduled a callback - at any time, with any
    other calls, callbacks and retries before, between and after, also when the
    timer has already fired - that callback does nothing. *)
Theorem stale_callback_ignored f env now ss1 task d ss2 op ss3 w :
  0 < d → touches task op = true → zlen (ss1 ++ ss2 ++ ss3) < 2^64 - 2 →
  let armed := Arm task d (fold_left do_mstep ss1 New) in
  w_mgr w = fold_left do_mstep ss3 (do_mop (fold_left do_mstep ss2 armed) op) →
  ∃ gen, m_timers armed !! task = Some (d, gen) ∧ pause f env now task gen w = (w, Ok tt).
Proof.
  intros Hd Ht Hl armed Hw. rewrite !zlen_app in Hl. pose proof (zlen_nonneg ss1). pose proof (zlen_nonneg ss2). pose proof (zlen_nonneg ss3).
  destruct (msteps_ok ss1 New) as (Hok1 & Hn1 & _); [simpl; lia|apply New_ok|]. simpl in Hn1.
  set (m1 := fold_left do_mstep ss1 New) in *. destruct (arm_gens task d m1) as (Hok2 & Hn2 & _); [lia|done|]. fold armed in Hok2, Hn2.
  destruct (msteps_ok ss2 armed) as (Hok3 & Hn3 & _); [lia|done|]. set (m3 := fold_left do_mstep ss2 armed) in *.
  destruct (mstep_ok (SOp op) m3) as (Hok4 & Hn4 & _); [lia|done|]. simpl in Hok4, Hn4.
  exists (m_nextGen armed). split.
  - subst armed. unfold Arm, armLocked. rewrite (proj2 (Z.leb_gt _ _)) by lia. simpl. by rewrite lookup_insert_eq.
  - pose proof (touch_kills op m3 task Ht ltac:(lia) Hok3 (m_nextGen armed) ltac:(lia)) as Hdead.
    destruct (msteps_ok ss3 (do_mop m3 op)) as (_ & _ & Hd3); [lia|done|]. apply Hd3 in Hdead as [_ Hne]. rewrite <- Hw in Hne.
    unfold pause, claim. destruct (m_gens (w_mgr w) !! task) as [g|]; [|done].
    destruct (Z.eqb_spec g (m_nextGen armed)) as [->|]; [|done]. by destruct Hne.
Qed.

(** ** Resuming *)

Definition granted (f : resume_faults (F:=F)) (task : string) (q : option Q) : bool :=
  match q with None => true | Some q => is_ok (ResumeByTask (rf_reserve f) task q).2 end.
Definition reserved (f : resume_faults (F:=F)) (task : string) (q : option Q) : option Q :=
  (λ q, (ResumeByTask (rf_reserve f) task q).1) <$> q.

(** What a resume that succeeded leaves. *)
Record resumed_ok (f : resume_faults (F:=F)) (task : string) (st : ContainerState) w w' : Prop := {
  ro_status : status_of w' task = Some StatusRunning;
  ro_thawed : freezer w' task = Some "0"%string;
  ro_quota : w_quota w' = reserved f task (w_quota w);
  ro_timer : w_mgr w' = match ParseDuration (st_IdleTimeout st) with
                        | Some d => if 0 <? d then Arm task d (w_mgr w) else w_mgr w
                        | None => w_mgr w
                        end
}.

(** What one that failed leaves: still suspended, unless two saves in a row failed;
    still frozen, unless freezing again failed. *)
Record resume_failed (f : resume_faults (F:=F)) (task : string) w w' : Prop := {
  rx_status : rf_save_running f = None ∨ rf_save_back f = None → status_of w' task = Some StatusSuspended;
  rx_frozen : rf_refreeze f = false → freezer w' task = Some "1"%string;
  rx_quota : w_quota w' = let q := reserved f task (w_quota w) in if granted f task (w_quota w) then release (rf_release f) task q else q;
  rx_mgr : w_mgr w' = w_mgr w
}.
Lemma restore_frame fault task st w g :
  idRe task = true → f_groups (w_cg w) !! task = Some g →
  ∃ st' limit, RestorePauseBalloon (E:=E) fault task st w = (set_cg (set_group task (with_max g limit) (w_cg w)) w, Ok st') ∧
    st_Status st' = st_Status st ∧ st_IdleTimeout st' = st_IdleTimeout st.
Proof.
  intros Hid Hg. assert (w = set_cg (set_group task (with_max g (g_memory_max g)) (w_cg w)) w) as Hw.
  { replace (with_max g (g_memory_max g)) with g by by destruct g. rewrite set_group_same by done. by destruct w. }
  unfold RestorePauseBalloon. destruct (st_Metadata st !! pauseMemoryMaxKey) as [raw|].
  2: { exists st, (g_memory_max g). rewrite <- Hw. done. }
  destruct (ParseInt raw) as [orig|].
  2: { eexists _, (g_memory_max g). rewrite <- Hw. done. }
  unfold gbind, best_effort, SetMemoryMax. rewrite (write_run _ _ _ w g) by done.
  destruct fault; simpl; [eexists _, (g_memory_max g)|eexists _, _]; [rewrite <- Hw|]; done.
Qed.

Lemma failed_released f task w w1 e :
  granted f task (w_quota w) = true → (rf_refreeze f = false → freezer w1 task = Some "1"%string) →
  (rf_save_running f = None ∨ rf_save_back f = None → status_of w1 task = Some StatusSuspended) →
  w_quota w1 = reserved f task (w_quota w) → w_mgr w1 = w_mgr w →
  resume_failed f task w ((do* _ <- releaseQuota (E:=E) (rf_release f) task; gfail (A:=unit) e) w1).1.
Proof.
  intros Hgr Hfz Hs Hq Hm. unfold gbind, releaseQuota. rewrite Hq. unfold gfail.
  destruct (w_quota w) as [q|] eqn:Eq; simpl; split; simpl; try done; rewrite ?Eq, ?Hgr; try done; by rewrite ?Hq.
Qed.

Lemma refreeze_run fault task w g :
  idRe task = true → f_groups (w_cg w) !! task = Some g →
  refreezeBestEffort (E:=E) fault task w = (if fault then w else set_cg (set_group task (with_freeze g "1") (w_cg w)) w, Ok tt).
Proof.
  intros Hid Hg. unfold refreezeBestEffort, best_effort, Freeze. rewrite (write_run fault task _ w g) by done. by destruct fault.
Qed.

(** The world once the quota is reserved and the limit restored. *)
Record reserved_world (f : resume_faults (F:=F)) (task : string) w w1 : Prop := {
  rw_group : is_Some (f_groups (w_cg w1) !! task); rw_status : status_of w1 task = Some StatusSuspended;
  rw_quota : w_quota w1 = reserved f task (w_quota w); rw_mgr : w_mgr w1 = w_mgr w; rw_granted : granted f task (w_quota w) = true
}.

(** The last steps of a resume, after the thaw. *)
Definition resume_steps (f : resume_faults (F:=F)) (now : Z) (task : string) (st : ContainerState) : call (Q:=Q) (E:=E) unit :=
  let release (e : lc_err E) : call unit := do* _ <- releaseQuota (rf_release f) task; gfail e in
  gtry (transition now StatusResuming ActorController "auto-resume" st) release (λ st,
  gtry (saveState (rf_save_resuming f) now task st)
    (λ e, do* _ <- refreezeBestEffort (rf_refreeze f) task; release e) (λ _,
  gtry (transition now StatusRunning ActorController "resumed" st) release (λ st,
  gtry (saveState (rf_save_running f) now task st)
    (λ e,
       do* _ <- best_effort (do* st <- transition now StatusSuspended ActorSystem "resume rollback: persist failed" st;
                             saveState (rf_save_back f) now task st);
       do* _ <- refreezeBestEffort (rf_refreeze f) task;
       release e) (λ _,
  gput (λ w, match ParseDuration (st_IdleTimeout st) with
             | Some d => if 0 <? d then on_mgr (Arm task d) w else w
             | None => w
             end))))).

Definition resume_end (f : resume_faults (F:=F)) (task : string) (st : ContainerState) w (r : world Q * result (lc_err E) unit) : Prop :=
  match r with (w', Ok _) => resumed_ok f task st w w' | (w', Err _) => resume_failed f task w w' end.

Lemma release_fails f task (e : lc_err E) w1 : ((do* _ <- releaseQuota (rf_release f) task; gfail (A:=unit) e) w1).2 = Err e.
Proof. unfold gbind, releaseQuota. by destruct (w_quota w1). Qed.

Lemma failed_end f task st w r : r.2 ≠ Ok tt → resume_failed f task w r.1 → resume_end f task st w r.
Proof. destruct r as [w' [[]|e]]; simpl; done. Qed.

(** Compensation: the task is frozen again and its quota released. *)
Lemma refreeze_end f task st w w1 e :
  idRe task = true → is_Some (f_groups (w_cg w1) !! task) → granted f task (w_quota w) = true →
  (rf_save_running f = None ∨ rf_save_back f = None → status_of w1 task = Some StatusSuspended) →
  w_quota w1 = reserved f task (w_quota w) → w_mgr w1 = w_mgr w →
  resume_end f task st w
    ((do* _ <- refreezeBestEffort (rf_refreeze f) task; do* _ <- releaseQuota (E:=E) (rf_release f) task; gfail e) w1).
Proof.
  intros Hid [g Hg] Hgr Hs Hq Hm. unfold gbind at 1. rewrite (refreeze_run _ _ _ g) by done.
  apply failed_end; [by rewrite release_fails|]. apply failed_released; [done|..]; destruct (rf_refreeze f); try done.
  intros _. apply freezer_set.
Qed.

Lemma resume_steps_end f now task w w1 st0 st :
  idRe task = true → reserved_world f task w w1 → freezer w1 task = Some "0"%string →
  st_Status st = StatusSuspended → st_IdleTimeout st = st_IdleTimeout st0 →
  resume_end f task st0 w (resume_steps f now task st w1).
Proof.
  intros Hid [Hg Hst Hq Hm Hgr] Hfz Hs Hidle. unfold resume_steps, gtry at 1.
  destruct (transition_run (E:=E) now StatusResuming ActorController "auto-resume" st w1) as (st1 & -> & Hs1 & _ & Hi1 & _); [by rewrite Hs..|].
  unfold gtry at 1. destruct (save_run (E:=E) (rf_save_resuming f) now task st1 w1 Hid) as (r & -> & Hr).
  destruct (rf_save_resuming f) as [ft|]; simpl in Hr.
  { apply refreeze_end; try done. intros _. unfold status_of in *. simpl. by rewrite Hr, andb_false_r. }
  unfold gtry at 1.
  destruct (transition_run (E:=E) now StatusRunning ActorController "resumed" st1 (set_root r w1)) as (st2 & -> & Hs2 & _ & Hi2 & _); [by rewrite Hs1..|].
  unfold gtry at 1. destruct (save_run (E:=E) (rf_save_running f) now task st2 (set_root r w1) Hid) as (r2 & -> & Hr2).
  destruct (rf_save_running f) as [ft|] eqn:Es; simpl in Hr2.
  - destruct (transition_run (E:=E) now StatusSuspended ActorSystem "resume rollback: persist failed" st2 (set_root r2 (set_root r w1)))
      as (st3 & Et & Hs3 & _); [by rewrite Hs2..|].
    destruct (save_run (E:=E) (rf_save_back f) now task st3 (set_root r2 (set_root r w1)) Hid) as (r3 & Ev & Hr3).
    erewrite gbind_run; [|unfold best_effort, gbind; rewrite Et, Ev; done]. cbn [fst].
    apply refreeze_end; try done. rewrite Es. intros [?|Hb]; [done|]. rewrite Hb in Hr3. unfold status_of. simpl.
    rewrite Hr3, bool_decide_eq_true_2 by done. simpl. by rewrite Hs3.
  - assert (loaded r2 task = Some st2) as Hl2 by (rewrite Hr2, bool_decide_eq_true_2 by done; done).
    cbn [gput resume_end]. rewrite Hi2, Hi1, Hidle.
    split; destruct (ParseDuration (st_IdleTimeout st0)) as [d|]; try destruct (0 <? d); simpl; rewrite ?Hm; try done;
      unfold status_of; simpl; by rewrite Hl2, <- Hs2.
Qed.

Lemma reserve_run f task w :
  ∃ res, reserveQuota (E:=E) (rf_reserve f) task w = (set_quota (reserved f task (w_quota w)) w, res) ∧
    if granted f task (w_quota w) then res = Ok tt else ∃ e, res = Err e.
Proof.
  unfold reserveQuota, granted, reserved. destruct (w_quota w) as [q|] eqn:Eq; simpl.
  - destruct (ResumeByTask (rf_reserve f) task q) as [q' [b|e]]; simpl; eauto.
  - exists (Ok tt). split; [|done]. f_equal. destruct w. simpl in *. by subst.
Qed.

Lemma resume_run f now task w st :
  idRe task = true → loaded (w_root w) task = Some st → st_Status st = StatusSuspended → freezer w task = Some "1"%string →
  match Resume f now task w with
  | (w', Ok _) => resumed_ok f task st w w'
  | (w', Err _) => resume_failed f task w w'
  end.
Proof.
  intros Hid Hst Hs Hfz. change (resume_end f task st w (Resume f now task w)).
  unfold Resume, gbind at 1. rewrite (load_run _ _ st) by done. rewrite bool_decide_eq_false_2 by (intros Hn; by apply Hn).
  assert (status_of w task = Some StatusSuspended) as Hsw by (unfold status_of; by rewrite Hst, <- Hs).
  unfold freezer in Hfz. destruct (f_groups (w_cg w) !! task) as [g|] eqn:Hg; simpl in Hfz; [|done]. injection Hfz as Hfz.
  destruct (reserve_run f task w) as (res & Er & Hres). unfold gbind at 1. rewrite Er. destruct (granted f task (w_quota w)) eqn:Egr.
  2: { destruct Hres as [e ->]. simpl. split; simpl; try done.
       - intros _. unfold freezer. simpl. by rewrite Hg, <- Hfz.
       - by rewrite Egr. }
  subst res.
  unfold gbind at 1. edestruct (restore_frame (rf_limit f) task st (set_quota (reserved f task (w_quota w)) w) g)
    as (st1 & limit & -> & Hs1 & Hi1); [done..|].
  set (w2 := set_cg _ _). assert (f_groups (w_cg w2) !! task = Some (with_max g limit)) as Hg2 by (simpl; by rewrite lookup_insert_eq).
  change (resume_end f task st w (gtry (cg_call (Thaw (rf_thaw f) task)) (λ e, if missing e then resume_steps f now task st1
    else do* _ <- releaseQuota (rf_release f) task; gfail e) (λ _, resume_steps f now task st1) w2)).
  unfold gtry, Thaw. rewrite (write_run _ _ _ w2 (with_max g limit)) by done. destruct (rf_thaw f).
  - cbn [missing isNotExist]. apply failed_end; [by rewrite release_fails|]. apply failed_released; try done.
    intros _. unfold freezer. by rewrite Hg2, <- Hfz.
  - apply resume_steps_end; try done; [|apply freezer_set|by rewrite Hs1]. split; try done. simpl. rewrite lookup_insert_eq. by eexists.
Qed.

(** C5. What a resume leaves.  For a suspended and frozen task with a live cgroup:
    if it succeeds, the task is saved as running, thawed, its quota reserved and its
    idle timer armed as configured.  If it fails, the timers are untouched; the task
    is still saved as suspended, unless saving as running and undoing that both
    failed; it is still frozen, unless freezing it again failed; and the quota is
    refused, or was reserved and handed to the release call, which may fail too (see
    [unreleased_quota_blocks_resume]). *)
Theorem Resume_outcome f now task w st :
  idRe task = true → loaded (w_root w) task = Some st → st_Status st = StatusSuspended → freezer w task = Some "1"%string →
  match Resume f now task w with
  | (w', Ok _) => resumed_ok f task st w w'
  | (w', Err _) => resume_failed f task w w'
  end.
Proof. apply resume_run. Qed.
(** ** Ballooning *)

Definition limit w (task : string) : result cg_err Z := (MemoryMax false task (w_cg w)).2.

Lemma limit_group w task g : idRe task = true → f_groups (w_cg w) !! task = Some g →
  limit w task = parseMemoryLimit (TrimSpace (g_memory_max g)).
Proof. intros Hid Hg. unfold limit, MemoryMax, gbind, read_file. by rewrite Hid, Hg. Qed.

Lemma gtry_ok {S E' A B} (m1 : method S E' A) h (k : A → method S E' B) s s' b :
  gtry m1 h k s = (s', Ok b) → (∀ e s1, (h e s1).2 ≠ Ok b) → ∃ a s1, m1 s = (s1, Ok a) ∧ k a s1 = (s', Ok b).
Proof.
  unfold gtry. destruct (m1 s) as [s1 [a|e]]; [eauto|]. intros Hh Hn. exfalso. apply (Hn e s1). by rewrite Hh.
Qed.

Lemma transition_world now to actor reason st w w1 (st1 : ContainerState) :
  transition (E:=E) now to actor reason st w = (w1, Ok st1) → w1 = w.
Proof. unfold transition. destruct (Transition _ _ _ _ _ _) as [? [?|?]]; by intros [= <-]. Qed.

Lemma save_world fault now task st w w1 (r : result (lc_err E) unit) : saveState fault now task st w = (w1, r) → w_cg w1 = w_cg w.
Proof. unfold saveState. destruct (SaveState _ _ _ _ _) as [? [?|?]]; by intros [= <- _]. Qed.

Lemma resume_steps_cg f now task st w w' : resume_steps f now task st w = (w', Ok tt) → w_cg w' = w_cg w.
Proof.
  unfold resume_steps. intros Hr. apply gtry_ok in Hr as (st1 & w1 & H1 & Hr); [|intros; by rewrite release_fails].
  apply transition_world in H1 as ->. apply gtry_ok in Hr as (u & w2 & H2 & Hr).
  2: { intros e s1. unfold gbind at 1. destruct (refreezeBestEffort _ _ s1) as [? [?|?]]; [by rewrite release_fails|done]. }
  apply save_world in H2. apply gtry_ok in Hr as (st2 & w3 & H3 & Hr); [|intros; by rewrite release_fails].
  apply transition_world in H3 as ->. apply gtry_ok in Hr as (u' & w4 & H4 & Hr).
  2: { intros e s1. erewrite gbind_run by done. erewrite gbind_run by done. by rewrite release_fails. }
  apply save_world in H4. injection Hr as <-. rewrite <- H2, <- H4.
  destruct (ParseDuration _) as [d|]; [|done]. by destruct (0 <? d).
Qed.

Lemma Resume_limit f now task w w' st g :
  idRe task = true → loaded (w_root w) task = Some st → f_groups (w_cg w) !! task = Some g → rf_limit f = false →
  Resume f now task w = (w', Ok tt) →
  ∃ g', f_groups (w_cg w') !! task = Some g' ∧
    g_memory_max g' = match st_Metadata st !! pauseMemoryMaxKey with
                      | Some raw => match ParseInt raw with Some orig => if orig <? 0 then "max"%string else pretty orig | None => g_memory_max g end
                      | None => g_memory_max g
                      end.
Proof.
  intros Hid Hst Hg Hrl. unfold Resume, gbind at 1. rewrite (load_run _ _ st) by done. case_bool_decide; [done|].
  unfold gbind at 1. destruct (reserve_run f task w) as (res & Er & _). rewrite Er. destruct res as [[]|e]; [|done].
  set (w1 := set_quota _ w). unfold gbind at 1.
  set (lim := match st_Metadata st !! pauseMemoryMaxKey with Some _ => _ | None => _ end).
  assert (∃ st1, RestorePauseBalloon (E:=E) (rf_limit f) task st w1 = (set_cg (set_group task (with_max g lim) (w_cg w1)) w1, Ok st1)) as (st1 & ->).
  { assert (set_cg (set_group task (with_max g (g_memory_max g)) (w_cg w1)) w1 = w1) as Hw.
    { replace (with_max g (g_memory_max g)) with g by by destruct g. rewrite set_group_same by done. by destruct w. }
    rewrite Hrl. unfold RestorePauseBalloon. subst lim. destruct (st_Metadata st !! pauseMemoryMaxKey) as [raw|]; [|rewrite Hw; by eexists].
    destruct (ParseInt raw) as [orig|]; [|rewrite Hw; by eexists].
    unfold gbind, best_effort, SetMemoryMax. rewrite (write_run _ _ _ w1 g) by done. by eexists. }
  set (w2 := set_cg _ w1). change (gtry (cg_call (Thaw (rf_thaw f) task)) (λ e, if missing e then resume_steps f now task st1
    else do* _ <- releaseQuota (rf_release f) task; gfail e) (λ _, resume_steps f now task st1) w2 = (w', Ok tt) → ∃ g', f_groups (w_cg w') !! task = Some g' ∧ g_memory_max g' = lim).
  unfold gtry, Thaw. rewrite (write_run _ _ _ w2 (with_max g lim)) by (try done; simpl; by rewrite lookup_insert_eq).
  destruct (rf_thaw f); cbn [missing isNotExist].
  - intros Hr. exfalso. pose proof (release_fails f task (LCg CgIO) w2) as Hrf. rewrite Hr in Hrf. done.
  - intros Hr%resume_steps_cg. exists (with_freeze (with_max g lim) "0"). rewrite Hr. simpl. by rewrite lookup_insert_eq.
Qed.

(** What ballooning a suspended task leaves: the limit and, when it was lowered, the
    marker that remembers the old one. *)
Lemma balloon_group f now task w w1 r st g orig :
  idRe task = true → loaded (w_root w) task = Some st → st_Metadata st !! pauseMemoryMaxKey = None →
  f_groups (w_cg w) !! task = Some g → limit w task = Ok orig → bf_undo f = false →
  BalloonPause (E:=E) f now task w = (w1, r) →
  ∃ st1 g1 l, loaded (w_root w1) task = Some st1 ∧ f_groups (w_cg w1) !! task = Some g1 ∧
    limit w1 task = Ok l ∧ (l = orig ∨ 0 ≤ l < orig ∨ orig = MemoryUnlimited ∧ 0 ≤ l) ∧
    st_Status st1 = st_Status st ∧
    (st_Metadata st1 !! pauseMemoryMaxKey = Some (pretty orig) ∨ st_Metadata st1 !! pauseMemoryMaxKey = None ∧ l = orig).
Proof.
  intros Hid Hst Hnone Hg Hlim Hundo. rewrite (limit_group _ _ g) in Hlim by done.
  assert (∀ w', w' = w → ∃ st1 g1 l, loaded (w_root w') task = Some st1 ∧ f_groups (w_cg w') !! task = Some g1 ∧
    limit w' task = Ok l ∧ (l = orig ∨ 0 ≤ l < orig ∨ orig = MemoryUnlimited ∧ 0 ≤ l) ∧ st_Status st1 = st_Status st ∧
    (st_Metadata st1 !! pauseMemoryMaxKey = Some (pretty orig) ∨ st_Metadata st1 !! pauseMemoryMaxKey = None ∧ l = orig)) as Hsame.
  { intros w' ->. exists st, g, orig. rewrite (limit_group _ _ g) by done. split_and!; try done; [by left|by right]. }
  assert (set_cg (w_cg w) w = w) as Hw by by destruct w.
  unfold BalloonPause, gbind at 1. rewrite (load_run _ _ st) by done. case_bool_decide; [intros [= <- _]; by apply Hsame|].
  case_bool_decide; [intros [= <- _]; by apply Hsame|].
  unfold gbind at 1, cg_call at 1, MemoryMax. unfold gbind at 1, read_file. rewrite Hid, Hg. cbn [negb].
  destruct (bf_max f); simpl; [rewrite Hw; intros [= <- _]; by apply Hsame|]. rewrite Hlim. cbn. rewrite Hw.
  unfold gbind at 1, cg_call at 1, MemoryCurrent. unfold gbind at 1, read_file. rewrite Hid, Hg. cbn [negb].
  destruct (bf_current f); simpl; [rewrite Hw; intros [= <- _]; by apply Hsame|].
  destruct (ParseInt _) as [cur|] eqn:Ecur; simpl; rewrite Hw; [|intros [= <- _]; by apply Hsame].
  destruct (Z.leb_spec cur 0); [intros [= <- _]; by apply Hsame|].
  pose proof (parseMemoryLimit_range _ _ Hlim) as Hor. apply ParseInt_range in Ecur.
  match goal with |- context [SetMemoryMax (bf_set f) task ?t] => set (target := t) end.
  assert (0 ≤ target < 2^63 ∧ (target = orig ∨ 0 ≤ target < orig ∨ orig = MemoryUnlimited ∧ 0 ≤ target)) as [Hrange Htgt].
  { subst target. unfold MemoryUnlimited in *. destruct (Z.eqb_spec orig (-1)) as [->|]; cbn [negb andb]; [lia|]. destruct (Z.ltb_spec orig cur); lia. }
  unfold gbind at 1, SetMemoryMax at 1. rewrite (write_run _ task _ w g) by done.
  destruct (bf_set f); [intros [= <- _]; by apply Hsame|]. set (w2 := set_cg _ w). unfold gtry.
  set (st' := set_meta st _). set (g2 := with_max g (if target <? 0 then "max"%string else pretty target)).
  assert (f_groups (w_cg w2) !! task = Some g2) as Hg2 by (simpl; by rewrite lookup_insert_eq).
  destruct (save_run (E:=E) (bf_save f) now task st' w2 Hid) as (r' & -> & Hl).
  destruct (bf_save f) as [ft|]; simpl in Hl.
  - unfold gbind, best_effort, SetMemoryMax. rewrite (write_run _ task _ (set_root r' w2) g2) by done. rewrite Hundo. intros [= <- _].
    eexists st, _, orig. split_and!; [simpl; by rewrite Hl, andb_false_r|simpl; by rewrite lookup_insert_eq| |by left|done|by right].
    erewrite limit_group; [|done|simpl; by rewrite lookup_insert_eq]. simpl. rewrite limit_text by (unfold MemoryUnlimited in *; lia).
    destruct (Z.ltb_spec orig 0); [|done]. destruct Hor as [->|]; [done|lia].
  - intros [= <- _]. exists st', g2, target. split_and!; [simpl; rewrite Hl, bool_decide_eq_true_2 by done; done|done| |done|done|left; simpl; by rewrite lookup_insert_eq].
    rewrite (limit_group _ _ g2) by done. simpl. rewrite limit_text by lia. by rewrite (proj2 (Z.ltb_ge _ _)) by lia.
Qed.

(** Ballooning is undone by resuming.  Pausing may lower a task's memory limit, never
    raise it, whatever step of it fails; and after the next resume that succeeds the
    limit is exactly what it was, no limit included. *)
Theorem balloon_roundtrip bf now task w w1 r st g orig f now' w2 :
  idRe task = true → loaded (w_root w) task = Some st → st_Metadata st !! pauseMemoryMaxKey = None →
  f_groups (w_cg w) !! task = Some g → limit w task = Ok orig → bf_undo bf = false → rf_limit f = false →
  BalloonPause (E:=E) bf now task w = (w1, r) → Resume f now' task w1 = (w2, Ok tt) →
  (∃ l, limit w1 task = Ok l ∧ (l = orig ∨ 0 ≤ l < orig ∨ orig = MemoryUnlimited ∧ 0 ≤ l)) ∧ limit w2 task = Ok orig.
Proof.
  intros Hid Hst Hnone Hg Hlim Hundo Hrl Hb Hr.
  assert (orig = MemoryUnlimited ∨ 0 ≤ orig < 2^63) as Hor by (rewrite (limit_group _ _ g) in Hlim by done; by eapply parseMemoryLimit_range).
  edestruct balloon_group as (st1 & g1 & l & Hst1 & Hg1 & Hl1 & Hle & _ & Hm); [done..|]. split; [by exists l|].
  edestruct Resume_limit as (g' & Hg' & Hmax); [done..|]. rewrite (limit_group _ _ g') by done. rewrite Hmax.
  destruct Hm as [->|[-> ->]].
  - rewrite ParseInt_FormatInt by (unfold MemoryUnlimited in *; lia). rewrite limit_text by (unfold MemoryUnlimited in *; lia).
    destruct (Z.ltb_spec orig 0); [|done]. destruct Hor as [->|]; [done|lia].
  - by rewrite <- (limit_group w1 task g1).
Qed.
(** ** Deep pause *)

Record deep_paused (f : deep_faults (F:=F)) (task : string) (st : ContainerState) w w' : Prop := {
  dp_state : ∃ st', loaded (w_root w') task = Some st' ∧ st_Status st' = StatusSuspended ∧
               st_Metadata st' = st_Metadata (deep_meta (mem_dir task) st) ∧ st_PID st' = st_PID st;
  dp_procs : w_procs w' = delete (st_PID st) (w_procs w);
  dp_images : mem_dir task ∈ w_images w';
  dp_identity : PIDIdentityOK (w_procs w) st = true;
  dp_mgr : w_mgr w' = Disarm task (w_mgr w);
  dp_quota : w_quota w' = release (df_release f) task (w_quota w)
}.

Record deep_refused (f : deep_faults (F:=F)) (task : string) (st : ContainerState) w w' : Prop := {
  dx_state : loaded (w_root w') task = Some st;
  dx_thawed : df_thaw f = false → freezer w' task = Some "0"%string;
  dx_procs : w_procs w' = w_procs w ∨ w_procs w' = delete (st_PID st) (w_procs w) ∧ df_save f ≠ None ∧ PIDIdentityOK (w_procs w) st = true;
  dx_mgr : w_mgr w' = w_mgr w;
  dx_quota : w_quota w' = w_quota w
}.

Definition deep_end (f : deep_faults (F:=F)) (task : string) (st : ContainerState) w (r : world Q * result (lc_err E) unit) : Prop :=
  match r with (w', Ok _) => deep_paused f task st w w' | (w', Err _) => deep_refused f task st w w' end.

Lemma deep_thawed f task st w w1 (e : lc_err E) :
  idRe task = true → is_Some (f_groups (w_cg w1) !! task) → loaded (w_root w1) task = Some st →
  (w_procs w1 = w_procs w ∨ w_procs w1 = delete (st_PID st) (w_procs w) ∧ df_save f ≠ None ∧ PIDIdentityOK (w_procs w) st = true) →
  w_mgr w1 = w_mgr w → w_quota w1 = w_quota w →
  deep_end f task st w ((do* _ <- thawBestEffort (df_thaw f) task; gfail (A:=unit) e) w1).
Proof.
  intros Hid [g Hg] Hl Hp Hm Hq. rewrite (gbind_run _ _ _ _ _ (thaw_run _ _ _ g Hid Hg)). simpl.
  destruct (df_thaw f) eqn:Et; split; simpl; try done; [by rewrite Et|]. intros _. apply freezer_set.
Qed.

Lemma deep_pause_end f now task w st :
  idRe task = true → loaded (w_root w) task = Some st → st_Status st = StatusRunning → freezer w task = Some "0"%string →
  match DeepPause f now task w with
  | (w', Ok _) => deep_paused f task st w w'
  | (w', Err _) => deep_refused f task st w w'
  end.
Proof.
  intros Hid Hst Hrun Hfz. change (deep_end f task st w (DeepPause f now task w)).
  assert (deep_refused f task st w w) as Hsame by (split; try done; by left).
  unfold DeepPause. rewrite (gbind_run _ _ _ _ _ (load_run _ _ st Hst)). rewrite bool_decide_eq_false_2 by (intros Hn; by apply Hn).
  destruct (st_PID st <=? 0); [done|]. destruct (df_criu f); [|done]. cbn [negb].
  unfold gbind at 1. cbn [ggets]. destruct (PIDIdentityOK (w_procs w) st) eqn:Hpid; [|done]. cbn [negb].
  unfold freezer in Hfz. destruct (f_groups (w_cg w) !! task) as [g|] eqn:Hg; simpl in Hfz; [|done]. injection Hfz as Hfz.
  unfold gtry at 1, Freeze. rewrite (write_run _ _ _ w g) by done. destruct (df_freeze f); [done|].
  rewrite Hid. cbn [negb]. set (w1 := set_cg _ w).
  assert (is_Some (f_groups (w_cg w1) !! task)) as Hg1 by (simpl; rewrite lookup_insert_eq; by eexists).
  unfold gtry at 1, DumpMemory. destruct (df_dump f); [apply deep_thawed; try done; by left|].
  set (w2 := set_procs _ _). unfold gtry at 1.
  destruct (transition_run (E:=E) now StatusSuspended ActorSystem "deep pause: memory checkpointed, process killed" (deep_meta (mem_dir task) st) w2)
    as (st1 & -> & Hs1 & Hm1 & _ & Hp1); [by rewrite <- ?Hrun; simpl; rewrite Hrun..|].
  unfold gtry at 1. destruct (save_run (E:=E) (df_save f) now task st1 w2 Hid) as (r & -> & Hr).
  destruct (df_save f) as [ft|] eqn:Es; simpl in Hr.
  { apply deep_thawed; try done; simpl; [by rewrite Hr, andb_false_r|]. right. by rewrite Es. }
  unfold deep_kill, kill. assert (w_procs (set_root r w2) !! st_PID st1 = None) as -> by (simpl; rewrite Hp1; apply lookup_delete_eq).
  assert (loaded r task = Some st1) as Hl by (rewrite Hr, bool_decide_eq_true_2 by done; done).
  unfold gbind. cbn [gput]. unfold releaseQuota. simpl. destruct (w_quota w) as [q|] eqn:Eq; simpl; split; simpl; try done.
  all: try (exists st1; done). all: try set_solver. all: by rewrite Eq.
Qed.

(** A deep pause harms no other process and fails safely.  For a running task: if it
    succeeds, the recorded process had the identity that was recorded, it and
    no other process is gone, the saved state is suspended with the checkpoint's
    directory in it, the timer is cancelled and the quota released.  If it
    fails, the task is saved as running as before, thawed, with its timer and
    quota, and no process was touched - unless saving the state failed after the
    checkpoint had stopped the task's own process. *)
Theorem DeepPause_outcome f now task w st :
  idRe task = true → loaded (w_root w) task = Some st → st_Status st = StatusRunning → freezer w task = Some "0"%string →
  match DeepPause f now task w with
  | (w', Ok _) => deep_paused f task st w w'
  | (w', Err _) => deep_refused f task st w w'
  end.
Proof. apply deep_pause_end. Qed.
(** A deep resume that succeeded. *)
Lemma DeepResume_ok f now task w w' st pid stat start :
  idRe task = true → loaded (w_root w) task = Some st → dr_restore f = Some (pid, stat) → stat_start stat = Some start →
  DeepResume f now task w = (w', Ok tt) →
  ∃ st', loaded (w_root w') task = Some st' ∧ st_Status st' = StatusRunning ∧ st_PID st' = pid ∧
    PIDIdentityOK (w_procs w') st' = true ∧
    st_Metadata st' = <[MetaPIDStart := start]> (st_Metadata (shallow_meta st)) ∧ w_cg w' = w_cg w.
Proof.
  intros Hid Hst Hres Hstat. unfold DeepResume. rewrite (gbind_run _ _ _ _ _ (load_run _ _ st Hst)).
  destruct (_ || _) eqn:Eb; [done|]. apply orb_false_iff in Eb as [Hs%bool_decide_eq_false _].
  assert (st_Status st = StatusSuspended) as Hs' by (by destruct (decide (st_Status st = StatusSuspended))).
  case_bool_decide; [done|]. unfold gbind at 1. cbn [ggets]. case_bool_decide; [done|].
  unfold gbind at 1. destruct (reserveQuota _ _ w) as [w1 [[]|e]] eqn:Er; [|done].
  assert (w_procs w1 = w_procs w ∧ w_cg w1 = w_cg w ∧ w_root w1 = w_root w) as (Hp1 & Hc1 & Hr1).
  { unfold reserveQuota in Er. destruct (w_quota w) as [q|]; [|by injection Er as <-].
    destruct (ResumeByTask _ _ _) as [? [?|?]]; by injection Er as <-. }
  unfold gtry at 1. destruct (transition_run (E:=E) now StatusResuming ActorSystem "deep resume" st w1) as (st1 & -> & Hs1 & Hm1 & _); [by rewrite Hs'..|].
  unfold gtry at 1, RestoreMemory. rewrite Hres. destruct (Z.ltb_spec 0 pid).
  2: { unfold gbind at 1, releaseQuota. by destruct (w_quota w1). }
  unfold gbind at 1. cbn [ggets]. set (w2 := set_procs _ w1). set (st2 := StampPID _ _ pid).
  assert (ProcStartTime (w_procs w2) pid = Some start) as Hps 
    by (unfold ProcStartTime; change (w_procs w2) with (<[pid := stat]> (w_procs w1)); by rewrite lookup_insert_eq).
  assert (st_Metadata st2 = <[MetaPIDStart := start]> (st_Metadata (shallow_meta st))) as Hmeta
    by (subst st2; unfold StampPID; rewrite Hps; simpl; by rewrite Hm1).
  assert (st_Status st2 = StatusResuming) as Hs2 by done.
  unfold gtry at 1. destruct (transition_run (E:=E) now StatusRunning ActorSystem "deep resume complete" st2 w2) as (st3 & -> & Hs3 & Hm3 & _ & Hp3); [by rewrite Hs2..|].
  destruct (save_run (E:=E) (dr_save f) now task st3 w2 Hid) as (r & -> & Hr). destruct (dr_save f); [done|]. intros [= <-].
  assert (st_PID st3 = pid) as Hpid by by rewrite Hp3.
  exists st3. split; [simpl; rewrite Hr, bool_decide_eq_true_2 by done; done|]. split_and!; try done; [|by rewrite Hm3].
  unfold PIDIdentityOK. rewrite Hpid, (proj2 (Z.leb_gt _ _)) by done. change (w_procs (set_root r w2)) with (w_procs w2). rewrite Hps.
  unfold meta. rewrite Hm3, Hmeta, lookup_insert_eq. cbn [default from_option]. destruct (bool_decide (id start = EmptyString)); [done|]. by apply bool_decide_eq_true_2.
Qed.

(** A deep pause and a deep resume bring the task back.  The task is running again
    under the number the restore reported, its metadata is what it was but for
    the start time of the new process, and the process passes the identity check
    - so that it can be paused deeply again. *)
Theorem deep_roundtrip f now task w w1 st f' now' w2 pid stat start :
  idRe task = true → loaded (w_root w) task = Some st → st_Status st = StatusRunning → freezer w task = Some "0"%string →
  st_Metadata st !! "pause_mode"%string = None → st_Metadata st !! "pause_memory"%string = None →
  DeepPause f now task w = (w1, Ok tt) →
  dr_restore f' = Some (pid, stat) → stat_start stat = Some start → DeepResume f' now' task w1 = (w2, Ok tt) →
  ∃ st2, loaded (w_root w2) task = Some st2 ∧ st_Status st2 = StatusRunning ∧ st_PID st2 = pid ∧
    st_Metadata st2 = <[MetaPIDStart := start]> (st_Metadata st) ∧ PIDIdentityOK (w_procs w2) st2 = true.
Proof.
  intros Hid Hst Hrun Hfz Hn1 Hn2 Hdp Hres Hstat Hdr.
  pose proof (deep_pause_end f now task w st Hid Hst Hrun Hfz) as Ho. rewrite Hdp in Ho.
  destruct Ho as [(st1 & Hl1 & _ & Hm1 & _) _ _ _ _ _].
  destruct (DeepResume_ok _ _ _ _ _ _ _ _ _ Hid Hl1 Hres Hstat Hdr) as (st2 & Hl2 & Hs2 & Hp2 & Hi2 & Hm2 & _).
  exists st2. split_and!; try done. rewrite Hm2. f_equal. simpl. rewrite Hm1. simpl.
  rewrite (delete_insert_ne _ "pause_mode"%string "pause_memory"%string), delete_insert_id by (done || by rewrite delete_insert_id). 
  by rewrite delete_insert_id.
Qed.
End Claims.

(** ** A run

    One task, its quota a flag that says whether it is held. *)

Definition flag_suspend (_ : unit) (_ : string) : method bool unit bool := λ q, (false, Ok q).
Definition flag_resume (_ : unit) (_ : string) : method bool unit bool := λ q, if q then (q, Err tt) else (true, Ok true).
#[local] Instance flag_hooks : QuotaHooks bool unit unit := {| SuspendByTask := flag_suspend; ResumeByTask := flag_resume |}.

Definition demo_state (s : Status) : ContainerState :=
  mkState "t1" "" "" "" s 42 1 0 "" {["pid_start"%string := "8807"%string]} "90s" false "" [] 0 0 "" "" "".
Definition demo_stat (pid : string) : string := (pid ++ " (uml) " ++ line demo_fields)%string.
Definition demo_cg (freeze : string) : cgfs :=
  mkCgfs {["t1"%string := mkCgroup "42" "1048576" "524288" "max 100000" freeze]} None ∅.
Definition demo_root (s : Status) : state_root := mkRoot {["t1"%string := mkDir (Some (1, Some (demo_state s))) 0]} ∅.
Definition demo_world (s : Status) (freeze : string) (held : bool) : world bool :=
  mkWorld (Arm "t1" 5 New) (demo_root s) (demo_cg freeze) {[42 := demo_stat "42"]} ∅ (Some held).

Definition calm_deep : deep_faults := mkDeepFaults true false false false None None false false tt.
Definition calm : pause_faults := mkPauseFaults false false None None no_balloon_faults tt calm_deep.
Definition calm_resume : resume_faults := mkResumeFaults tt tt false false None None None false.

(** A reset while the state is being saved. *)
Definition busy : pause_env := mkPauseEnv [] [MSetDeep "t2" true] [MArm "t1" 7].

Lemma pause_outcome_witness :
  ∃ ops, (ops = [] ++ [MSetDeep "t2" true] ∨ ops = [] ++ [MSetDeep "t2" true] ++ [MArm "t1" 7]) ∧
    pause_end calm "t1" (mkManager ∅ ∅ {["t1"%string := 1]} ∅ 1) ops (demo_world StatusRunning "0" true)
      (pause calm busy 9 "t1" 1 (demo_world StatusRunning "0" true)).1.
Proof.
  apply (pause_outcome calm busy 9 "t1" 1 (demo_world StatusRunning "0" true) _ 1 (demo_state StatusRunning));
    try (vm_compute; reflexivity).
  apply (mstep_ok (SOp (MArm "t1" 5)) New); [vm_compute; reflexivity|apply New_ok].
Defined.

Lemma stale_callback_ignored_witness :
  ∃ gen, m_timers (Arm "t1" 5 New) !! "t1"%string = Some (5, gen) ∧
    let w := set_mgr (Disarm "t1" (Arm "t1" 5 New)) (demo_world StatusRunning "0" true) in
    pause calm busy 9 "t1" gen w = (w, Ok tt).
Proof.
  apply (stale_callback_ignored calm busy 9 [] "t1" 5 [] (MDisarm "t1") []
    (set_mgr (Disarm "t1" (Arm "t1" 5 New)) (demo_world StatusRunning "0" true))); reflexivity.
Defined.

(** Saving the running state fails; the task is suspended and frozen again. *)
Lemma Resume_outcome_witness :
  resume_failed (mkResumeFaults tt tt false false None (Some SvRename) None false) "t1" (demo_world StatusSuspended "1" false)
    (Resume (mkResumeFaults tt tt false false None (Some SvRename) None false) 9 "t1" (demo_world StatusSuspended "1" false)).1.
Proof.
  pose proof (Resume_outcome (mkResumeFaults tt tt false false None (Some SvRename) None false) 9 "t1"
    (demo_world StatusSuspended "1" false) (demo_state StatusSuspended) eq_refl eq_refl eq_refl eq_refl) as Hr.
  destruct (Resume _ _ _ _) as [w' [?|e]] eqn:E; [exfalso; vm_compute in E; discriminate E|exact Hr].
Defined.

Lemma balloon_roundtrip_witness :
  let w := demo_world StatusSuspended "1" false in
  let w1 := (BalloonPause (E:=unit) no_balloon_faults 9 "t1" w).1 in
  let w2 := (Resume calm_resume 10 "t1" w1).1 in
  limit w1 "t1" = Ok 524288 ∧ limit w2 "t1" = Ok 1048576.
Proof.
  intros w w1 w2. split; [vm_compute; reflexivity|].
  apply (balloon_roundtrip (E:=unit) no_balloon_faults 9 "t1" w w1 (Ok tt) (demo_state StatusSuspended) (mkCgroup "42" "1048576" "524288" "max 100000" "1")
    1048576 calm_resume 10 w2); vm_compute; reflexivity.
Defined.

Lemma DeepPause_outcome_witness :
  deep_paused calm_deep "t1" (demo_state StatusRunning) (demo_world StatusRunning "0" true)
    (DeepPause calm_deep 9 "t1" (demo_world StatusRunning "0" true)).1.
Proof.
  pose proof (DeepPause_outcome calm_deep 9 "t1" (demo_world StatusRunning "0" true) (demo_state StatusRunning) eq_refl eq_refl eq_refl eq_refl) as Hd.
  destruct (DeepPause _ _ _ _) as [w' [?|e]] eqn:E; [exact Hd|exfalso; vm_compute in E; discriminate E].
Defined.

Lemma deep_roundtrip_witness :
  let w1 := (DeepPause calm_deep 9 "t1" (demo_world StatusRunning "0" true)).1 in
  let f := mkDeepResumeFaults tt tt (Some (77, demo_stat "77")) "" None in
  ∃ st2, loaded (w_root (DeepResume f 10 "t1" w1).1) "t1" = Some st2 ∧ st_Status st2 = StatusRunning ∧ st_PID st2 = 77 ∧
    st_Metadata st2 = <[MetaPIDStart := "8807"%string]> (st_Metadata (demo_state StatusRunning)) ∧
    PIDIdentityOK (w_procs (DeepResume f 10 "t1" w1).1) st2 = true.
Proof.
  intros w1 f. apply (deep_roundtrip calm_deep 9 "t1" (demo_world StatusRunning "0" true) w1 (demo_state StatusRunning) f 10 (DeepResume f 10 "t1" w1).1
    77 (demo_stat "77") "8807"); vm_compute; reflexivity.
Defined.

(** ** Where the code departs from its comments *)

(** A deep resume whose restore fails is meant to go back to suspended; there is no
    such edge, the error is ignored, and the task is saved as resuming, from where
    neither resume accepts it again. *)
Theorem failed_restore_sticks :
  let w1 := (DeepPause calm_deep 9 "t1" (demo_world StatusRunning "0" true)).1 in
  let w2 := (DeepResume (mkDeepResumeFaults tt tt None "criu" None) 10 "t1" w1).1 in
  let good := mkDeepResumeFaults tt tt (Some (77, demo_stat "77")) "" None in
  status_of w1 "t1" = Some StatusSuspended ∧ status_of w2 "t1" = Some StatusResuming ∧
  (DeepResume good 11 "t1" w2).2 = Err LNotDeep ∧ (Resume calm_resume 11 "t1" w2).2 = Err (LState ErrInvalidTransition).
Proof. vm_compute. repeat split. Qed.

(** The checkpoint stops the process before the suspended state is saved.  If saving
    fails, the task is saved as running with no process, and the fallback then
    suspends it without its checkpoint. *)
Theorem unsaved_deep_pause_loses_task :
  let f := mkDeepFaults true false false false (Some SvSync) None false false tt in
  let w1 := (DeepPause f 9 "t1" (demo_world StatusRunning "0" true)).1 in
  let w2 := (pause (mkPauseFaults false false None None no_balloon_faults tt f) (mkPauseEnv [] [] []) 9 "t1" 1
               (set_mgr (SetDeepPause "t1" true (Arm "t1" 5 New)) (demo_world StatusRunning "0" true))).1 in
  status_of w1 "t1" = Some StatusRunning ∧ w_procs w1 = ∅ ∧
  status_of w2 "t1" = Some StatusSuspended ∧ IsDeepPaused "t1" w2 = false ∧ w_procs w2 = ∅.
Proof. vm_compute. repeat split. Qed.

(** The deep path does not look at the epoch: a reset that lands before the
    checkpoint does not keep the task running, and its timer is cancelled. *)
Theorem deep_pause_ignores_reset :
  let w := set_mgr (SetDeepPause "t1" true (Arm "t1" 5 New)) (demo_world StatusRunning "0" true) in
  let w1 := (pause calm (mkPauseEnv [MArm "t1" 7] [] []) 9 "t1" 1 w).1 in
  status_of w1 "t1" = Some StatusSuspended ∧ m_timers (w_mgr w1) !! "t1"%string = None.
Proof. vm_compute. repeat split. Qed.
