(* ===== verification/LifecyclePool.v ===== *)
(** * The warm pool behind the quota seam (internal/api/pool_quota.go)

    The lifecycle's quota hooks are the pool's [SuspendByTask] and [ResumeByTask].
    A resume that fails leaves the pool's accounts as they were; a release that
    fails is where the two components disagree. *)

From stdpp Require Import pretty.
From S2P Require Import Prelude FsJson Pool PoolSpec PoolClaims Json Strconv TaskState Pid Cgroup Lifecycle LifecycleSpec LifecycleClaims.

(** [poolQuotaHooks], with a pool; without one the hooks do nothing ([w_quota] is None). *)
#[global] Instance poolQuotaHooks : QuotaHooks Pool.Manager (option io_step) pool_err :=
  {| SuspendByTask := Pool.SuspendByTask; ResumeByTask := Pool.ResumeByTask |}.

(** ** Reserving and releasing again *)

Lemma task_id_insert p i s s' task :
  p !! i = Some s → sb_TaskID s' = sb_TaskID s → sb_ID s' = sb_ID s →
  (λ x, sb_ID x.2) <$> list_find (λ s, sb_TaskID s = task) (<[i := s']> p) =
  (λ x, sb_ID x.2) <$> list_find (λ s, sb_TaskID s = task) p.
Proof.
  intros Hi Ht Hd. revert i Hi. induction p as [|x p IH]; intros i Hi; [done|]. destruct i as [|i]; simpl in *.
  - injection Hi as ->. destruct (decide (sb_TaskID s = task)) as [Hq|Hq].
    + rewrite decide_True by congruence. simpl. by rewrite Hd.
    + rewrite decide_False by congruence. done.
  - destruct (decide (sb_TaskID x = task)); [done|]. specialize (IH i Hi).
    destruct (list_find _ (<[i := s']> p)) as [[? ?]|], (list_find _ p) as [[? ?]|]; simpl in *; congruence.
Qed.

Lemma find_id_insert p i s s' id : find_id id p = Some (i, s) → sb_ID s' = id → find_id id (<[i := s']> p) = Some (i, s').
Proof.
  unfold find_id. intros (Hi & Hid & Hlt)%list_find_Some Hs'. apply list_find_Some. split; [|split; [done|]].
  - apply list_lookup_insert_eq. by eapply lookup_lt_Some.
  - intros j y Hj Hlt'. rewrite list_lookup_insert_ne in Hj by lia. eauto.
Qed.

Lemma suspended_resumed s : sb_State s = SandboxPaused → sb_MemMB s = 0 → suspended (resumed s) = s.
Proof. destruct s; simpl. by intros -> ->. Qed.

Lemma persist_none m : persistLocked None m = (stored None m, None).
Proof. destruct (persist_spec None m) as (e & -> & [_ H]). rewrite H; [done|by right]. Qed.

(** A reservation granted and released again leaves every account as it was. *)
Lemma resume_then_suspend m m1 task b :
  minv m → Pool.ResumeByTask None task m = (m1, Ok b) → same m (Pool.SuspendByTask None task m1).1.
Proof.
  intros Hi. unfold Pool.ResumeByTask. destruct (sandboxIDForTask task m) as [id|] eqn:Eid.
  2: { intros [= <- <-]. unfold Pool.SuspendByTask. by rewrite Eid. }
  destruct (Pool.Resume None id m) as [m1' [[]|e]] eqn:Er; [|done]. intros [= <- _].
  pose proof (exec_good (SecResume None id) m Hi I) as [Hi1 _]. cbn [exec] in Hi1. rewrite Er in Hi1. simpl in Hi1.
  pose proof (exec_good (SecSuspend None id) m1' Hi1 I) as [Hi2 _]. cbn [exec] in Hi2.
  unfold Pool.Resume in Er. destruct (find_id id (m_pool m)) as [[i s]|] eqn:Ef; [|done].
  case_bool_decide as Hs; [done|]. assert (sb_State s = SandboxPaused) as Hs' by (by destruct (decide (sb_State s = SandboxPaused))).
  destruct (_ && _ && _); [done|].
  pose proof Ef as (Hlk & Hid & _)%list_find_Some.
  assert (sandbox_ok s) as [_ _ _ Hso] by (eapply Forall_lookup_1; [apply Hi|done]). rewrite Hs' in Hso. destruct Hso as [Hten Hmem].
  rewrite (eqs_ne _ _ Hten) in Er. rewrite persist_none in Er. injection Er as <-.
  set (m1 := stored None _) in *. assert (m_pool m1 = <[i := resumed s]> (m_pool m)) as Hp1 by done.
  assert (sandboxIDForTask task m1 = Some id) as E1.
  { unfold sandboxIDForTask in *. destruct (eqs task ""); [done|]. rewrite Hp1.
    by rewrite (task_id_insert (m_pool m) i s (resumed s) task Hlk). }
  unfold Pool.SuspendByTask. rewrite E1.
  assert (find_id id (m_pool m1) = Some (i, resumed s)) as Ef1 by (rewrite Hp1; by apply (find_id_insert _ _ s)).
  assert (∃ m2, Pool.Suspend None id m1 = (m2, Ok tt) ∧ m_pool m2 = m_pool m ∧ m_capacity m2 = m_capacity m ∧ m_quotas m2 = m_quotas m ∧
    m_running m2 = m_running m ∧ m_cpu m2 = m_cpu m ∧ m_hourly m2 = m_hourly m ∧ m_pendingCleanups m2 = m_pendingCleanups m ∧
    cnt (m_memMB m2) "" = cnt (m_memMB m) "" ∧
    (m_persists m2 = m_persists m ∧ m_sweeping m2 = m_sweeping m ∧ m_Factory m2 = m_Factory m ∧ m_Destroyer m2 = m_Destroyer m))
    as (m2 & Es & P1 & P2 & P3 & P4 & P5 & P6 & P7 & P8 & P9).
  { unfold Pool.Suspend. rewrite Ef1. cbn [sb_State resumed sb_Tenant]. rewrite (eqs_ne _ _ Hten), persist_none. eexists. split; [done|].
    split_and!; try done.
    - simpl. rewrite list_insert_insert_eq, suspended_resumed by done. by apply list_insert_id.
    - cbn. unfold sub_clamp, add_to. rewrite !cnt_insert. by rewrite (eqs_ne _ _ Hten). }
  rewrite Es in *. simpl in *. split; try done; try congruence.
  intros t. destruct (decide (t = ""%string)) as [->|Hne]; [done|].
  rewrite (proj1 (mi_mem _ Hi2 t Hne)), (proj1 (mi_mem _ Hi t Hne)). by rewrite P1.
Qed.

Lemma refused_same m m1 task e : Pool.ResumeByTask None task m = (m1, Err e) → m1 = m.
Proof.
  unfold Pool.ResumeByTask. destruct (sandboxIDForTask task m) as [id|]; [|done].
  destruct (Pool.Resume None id m) as [m' [[]|e']] eqn:Er; [done|]. intros [= <- _]. unfold Pool.Resume in Er.
  destruct (find_id id (m_pool m)) as [[i s]|]; [|by injection Er as <-]. case_bool_decide; [by injection Er as <-|].
  destruct (_ && _ && _); [by injection Er as <-|]. by rewrite persist_none in Er.
Qed.

(** A resume that fails costs the tenant nothing.  With the warm pool as the quota,
    and its own store writable, a resume that fails - refused by the quota, at the
    thaw, or at either save - leaves every tenant's counters, the pool and its
    settings as they were before. *)
Theorem failed_resume_keeps_accounts f now task (w : world Pool.Manager) w' st q e :
  idRe task = true → loaded (w_root w) task = Some st → st_Status st = StatusSuspended → freezer w task = Some "1"%string →
  w_quota w = Some q → minv q → rf_reserve f = None → rf_release f = None →
  Lifecycle.Resume f now task w = (w', Err e) →
  ∃ q', w_quota w' = Some q' ∧ same q q'.
Proof.
  intros Hid Hst Hs Hfz Hq Hi Hr1 Hr2 Hres.
  pose proof (resume_run f now task w st Hid Hst Hs Hfz) as Ho. rewrite Hres in Ho. destruct Ho as [_ _ Hquota _].
  rewrite Hquota, Hq. unfold granted, reserved, release. simpl. rewrite Hr1, Hr2.
  destruct (Pool.ResumeByTask None task q) as [q1 [b|e']] eqn:Er; simpl.
  - eexists. split; [done|]. by eapply resume_then_suspend.
  - apply refused_same in Er as ->. by exists q.
Qed.

(** ** A run *)

Definition pool_claimed : Pool.Manager :=
  (exec (SecCheck None 20 "acme" demo_tmpl "t1") (exec (SecWarm None 10 demo_tmpl "w1") demo_stored).1).1.
Definition pool_paused : Pool.Manager := (exec (SecSuspend None "w1") pool_claimed).1.

Lemma pool_paused_ok : minv pool_paused.
Proof.
  unfold pool_paused, pool_claimed. do 3 (apply exec_good; [|by vm_compute]). apply reachable_minv. by apply re_enable.
Qed.

Definition pool_world (s : Status) (freeze : string) (q : Pool.Manager) : world Pool.Manager :=
  mkWorld (Arm "t1" 5 New) (demo_root s) (demo_cg freeze) {[42 := demo_stat "42"]} ∅ (Some q).

Definition no_faults : resume_faults (F:=option io_step) := mkResumeFaults None None false false None None None false.
Definition thaw_fails : resume_faults (F:=option io_step) := mkResumeFaults None None false true None None None false.

Lemma failed_resume_keeps_accounts_witness :
  ∃ q', w_quota (Lifecycle.Resume thaw_fails 9 "t1" (pool_world StatusSuspended "1" pool_paused)).1 = Some q' ∧ same pool_paused q'.
Proof.
  destruct (Lifecycle.Resume thaw_fails 9 "t1" (pool_world StatusSuspended "1" pool_paused)) as [w' [?|e]] eqn:Er;
    [exfalso; vm_compute in Er; discriminate Er|].
  exact (failed_resume_keeps_accounts thaw_fails 9 "t1" (pool_world StatusSuspended "1" pool_paused) w' (demo_state StatusSuspended)
    pool_paused e eq_refl eq_refl eq_refl eq_refl eq_refl pool_paused_ok eq_refl eq_refl Er).
Defined.

(** ** Where the components disagree *)

Definition pause_with (back : option save_fault) (fq : option io_step) : pause_faults (F:=option io_step) :=
  mkPauseFaults false false None back no_balloon_faults fq (mkDeepFaults true false false false None None false false None).

(** Releasing the quota on a pause is best effort.  When the pool cannot save the
    release it keeps the sandbox claimed, and then refuses to reserve it again:
    the suspended task cannot be resumed. *)
Theorem unreleased_quota_blocks_resume :
  let w := pool_world StatusRunning "0" pool_claimed in
  let w1 := (pause (pause_with None (Some SSync)) (mkPauseEnv [] [] []) 9 "t1" 1 w).1 in
  status_of w1 "t1" = Some StatusSuspended ∧ (Lifecycle.Resume no_faults 10 "t1" w1).2 = Err (LQuota ErrBadState).
Proof. vm_compute. split; reflexivity. Qed.

(** A pause that was overtaken and could not save its rollback is said to be
    recoverable by a resume; its quota was never released, so the pool refuses. *)
Theorem stranded_pause_blocks_resume :
  let w := pool_world StatusRunning "0" pool_claimed in
  let w1 := (pause (pause_with (Some SvSync) None) (mkPauseEnv [] [] [MArm "t1" 7]) 9 "t1" 1 w).1 in
  status_of w1 "t1" = Some StatusSuspended ∧ freezer w1 "t1" = Some "0"%string ∧
  (Lifecycle.Resume no_faults 10 "t1" w1).2 = Err (LQuota ErrBadState).
Proof. vm_compute. repeat split. Qed.
