(* ===== verification/Identity.v ===== *)
(** * The credential broker (internal/identity)

    [broker.go] and [persist.go]: short-lived tokens signed with HMAC-SHA256, their
    revocation, and what of it survives a restart.  Clock readings, random
    identifiers and failures are arguments of the operations; a record of the
    audit ledger is kept with its phase, subject, action and decision. *)

From S2P Require Import Prelude FsJson Json Strconv Sha256.

(** ** Base64 (encoding/base64, RawURLEncoding) *)

Definition alphabet : list Ascii.ascii :=
  String.list_ascii_of_string "ABCDEFGHIJKLMNOPQRSTUVWXYZabcdefghijklmnopqrstuvwxyz0123456789-_".

Definition b64_char (n : Z) : Ascii.ascii := nth (Z.to_nat n) alphabet Ascii.zero.
Definition b64_index (a : Ascii.ascii) : option Z := (λ x, Z.of_nat x.1) <$> list_find (λ c, c = a) alphabet.

Fixpoint b64_sextets (l : list Z) : list Z :=
  match l with
  | a :: b :: c :: l' => a / 4 :: a mod 4 * 16 + b / 16 :: b mod 16 * 4 + c / 64 :: c mod 64 :: b64_sextets l'
  | [a; b] => [a / 4; a mod 4 * 16 + b / 16; b mod 16 * 4]
  | [a] => [a / 4; a mod 4 * 16]
  | [] => []
  end.

Definition encode (b : list Z) : string := String.string_of_list_ascii (b64_char <$> b64_sextets b).

(** The decoder skips line ends; the low bits of a last partial group are ignored. *)
Definition line_end (a : Ascii.ascii) : bool := (code a =? 10) || (code a =? 13).

Fixpoint b64_octets (l : list Z) : option (list Z) :=
  match l with
  | a :: b :: c :: d :: l' =>
      r ← b64_octets l'; Some (a * 4 + b / 16 :: b mod 16 * 16 + c / 4 :: c mod 4 * 64 + d :: r)
  | [a; b; c] => Some [a * 4 + b / 16; b mod 16 * 16 + c / 4]
  | [a; b] => Some [a * 4 + b / 16]
  | [_] => None
  | [] => Some []
  end.

Definition decode (s : string) : option (list Z) :=
  l ← mapM b64_index (filter (λ a, line_end a = false) (String.list_ascii_of_string s)); b64_octets l.

(** ** HMAC-SHA256 (crypto/hmac) *)

Definition of_bytes (b : list Z) : string := String.string_of_list_ascii ((λ z, Ascii.ascii_of_nat (Z.to_nat z)) <$> b).
Definition word_bytes (w : Z) : list Z := (λ i, Z.shiftr w (8 * (3 - i)) mod 256) <$> seqZ 0 4.
Definition sha256_sum (b : list Z) : list Z := mjoin (word_bytes <$> sha256 (of_bytes b)).

Definition hmac (key msg : list Z) : list Z :=
  let k := if 64 <? zlen key then sha256_sum key else key in
  let k := k ++ replicate (64 - length k) 0 in
  let pad x := (λ b, Z.lxor b x) <$> k in
  sha256_sum (pad 0x5c ++ sha256_sum (pad 0x36 ++ msg)).

(** ** Tokens *)

Record Token := mkToken {
  k_ID : string; k_Caller : string; k_Tenant : string; k_Task : string; k_Scope : list string; k_Exp : Z
}.

(** [json.Marshal] and [json.Unmarshal] of a token: the payload's bytes. *)
Class TokenJSON := { marshalToken : Token → option (list Z); unmarshalToken : list Z → option Token }.

Inductive id_err := ErrRevoked | ErrExpired | ErrSignature | ErrScope | ERandom | EMarshal | EAudit | EWriteRev (e : fs_err) | EPath | EReadRev | EMkdirRev | EKey.

Record audit_row := mkRow { ar_Phase : string; ar_Subject : string; ar_Action : string; ar_Decision : string }.

(** The file of revocations: token ids and tasks. *)
Record revocationFile := mkRevFile { rf_Revoked : gset string; rf_Tasks : gset string }.

Record Broker := mkBroker {
  b_signingKey : list Z;
  b_revoked : gset string;
  b_activeByTask : gmap string (gset string);
  b_taskByToken : gmap string string;
  b_ledger : option (list audit_row);
  b_store : gmap string string;
  b_defaultTTL : Z;
  b_revokedTasks : gset string;
  b_persists : bool;                          (* revPath is set *)
  b_file : FsJson.store revocationFile        (* the directory of revPath *)
}.

Definition minute : Z := 60 * 10^9.

(** [random]: 32 random bytes, unless reading them fails. *)
Definition NewBroker (key : list Z) (random : option (list Z)) (store : gmap string string) (ledger : option (list audit_row))
    (defaultTTL : Z) (disk : FsJson.store revocationFile) : result id_err Broker :=
  let* key := match key with [] => match random with Some k => Ok k | None => Err ERandom end | _ => Ok key end in
  Ok (mkBroker key ∅ ∅ ∅ ledger store (if defaultTTL =? 0 then 15 * minute else defaultTTL) ∅ false disk).

Section Updates.
Implicit Types (b : Broker).
Definition set_revoked b r := mkBroker (b_signingKey b) r (b_activeByTask b) (b_taskByToken b) (b_ledger b) (b_store b) (b_defaultTTL b) (b_revokedTasks b) (b_persists b) (b_file b).
Definition set_index b a t := mkBroker (b_signingKey b) (b_revoked b) a t (b_ledger b) (b_store b) (b_defaultTTL b) (b_revokedTasks b) (b_persists b) (b_file b).
Definition set_ledger b l := mkBroker (b_signingKey b) (b_revoked b) (b_activeByTask b) (b_taskByToken b) l (b_store b) (b_defaultTTL b) (b_revokedTasks b) (b_persists b) (b_file b).
Definition set_tasks b t := mkBroker (b_signingKey b) (b_revoked b) (b_activeByTask b) (b_taskByToken b) (b_ledger b) (b_store b) (b_defaultTTL b) t (b_persists b) (b_file b).
Definition set_file b p f := mkBroker (b_signingKey b) (b_revoked b) (b_activeByTask b) (b_taskByToken b) (b_ledger b) (b_store b) (b_defaultTTL b) (b_revokedTasks b) p f.
End Updates.

(** [ledger.Append], which may fail. *)
Definition append (fails : bool) (row : audit_row) (b : Broker) : Broker * bool :=
  match b_ledger b with
  | None => (b, true)
  | Some l => if fails then (b, false) else (set_ledger b (Some (l ++ [row])), true)
  end.

Definition live (b : Broker) (task : string) : gset string := default ∅ (b_activeByTask b !! task).

(** Drop a token from both indexes. *)
Definition unlink (id : string) (b : Broker) : Broker :=
  match b_taskByToken b !! id with
  | None => b
  | Some task =>
      let active := match b_activeByTask b !! task with
                    | Some ids => let ids := ids ∖ {[id]} in
                                  if bool_decide (ids = ∅) then delete task (b_activeByTask b) else <[task := ids]> (b_activeByTask b)
                    | None => b_activeByTask b
                    end in
      set_index b active (delete id (b_taskByToken b))
  end.

Definition sign (b : Broker) (payload : list Z) : string := encode (hmac (b_signingKey b) payload).

(** [strings.SplitN(s, ".", 2)], if it has two parts. *)
Fixpoint split_dot (s : string) : option (string * string) :=
  match s with
  | EmptyString => None
  | String a s' => if code a =? 46 then Some (EmptyString, s') else '(x, y) ← split_dot s'; Some (String a x, y)
  end.

Section Broker.
Context `{TokenJSON}.

(** [id]: what [randID] returns. *)
Definition Mint (now : Z) (id : option string) (audit_fails : bool)
    (caller tenant taskID : string) (scope : list string) (ttl : Z) : method Broker id_err string := λ b,
  let ttl := if ttl <=? 0 then b_defaultTTL b else ttl in
  match id with
  | None => (b, Err ERandom)
  | Some id =>
      match marshalToken (mkToken id caller tenant taskID scope (now + ttl)) with
      | None => (b, Err EMarshal)
      | Some payload =>
          let tokStr := (encode payload ++ "." ++ sign b payload)%string in
          let b := set_index b (<[taskID := {[id]} ∪ live b taskID]> (b_activeByTask b)) (<[id := taskID]> (b_taskByToken b)) in
          match append audit_fails (mkRow "goal_auth" caller "mint" "allow") b with
          | (b, true) => (b, Ok tokStr)
          | (b, false) =>
              (set_index b (<[taskID := live b taskID ∖ {[id]}]> (b_activeByTask b)) (delete id (b_taskByToken b)), Err EAudit)
          end
      end
  end.

(** The checks of the text: its parts, the signature, the payload. *)
Definition parse_token (b : Broker) (tokStr : string) : option Token :=
  '(p, sig) ← split_dot tokStr;
  payload ← decode p;
  if bool_decide (sig = sign b payload) then unmarshalToken payload else None.

Definition token_revoked (b : Broker) (tok : Token) : bool :=
  bool_decide (k_ID tok ∈ b_revoked b) ||
  match b_taskByToken b !! k_ID tok with Some task => bool_decide (task ∈ b_revokedTasks b) | None => false end ||
  (negb (bool_decide (k_Task tok = EmptyString)) && bool_decide (k_Task tok ∈ b_revokedTasks b)).

Definition Validate (now : Z) (tokStr : string) : method Broker id_err Token := λ b,
  match parse_token b tokStr with
  | None => (b, Err ErrSignature)
  | Some tok =>
      if token_revoked b tok then (b, Err ErrRevoked)
      else if k_Exp tok <? now then
        let b := unlink (k_ID tok) b in
        (set_revoked b (b_revoked b ∖ {[k_ID tok]}), Err ErrExpired)
      else (b, Ok tok)
  end.

Definition RequireScope (now : Z) (tokStr : string) (required : list string) : method Broker id_err Token :=
  do* tok <- Validate now tokStr;
  if forallb (λ want, bool_decide (want ∈ k_Scope tok)) required then gret tok else gfail ErrScope.

(** *** Revocation *)

(** [persistRevLocked]; [w] is the operation of the write that fails. *)
Definition persistRevLocked (w : option io_step) (b : Broker) : Broker * option id_err :=
  if b_persists b then
    let '(f, e) := Write w (mkRevFile (b_revoked b) (b_revokedTasks b)) (b_file b) in
    (set_file b true f, EWriteRev <$> e)
  else (b, None).

Definition Revoke (w : option io_step) (audit_fails : bool) (id : string) : method Broker id_err unit := λ b,
  let b := unlink id (set_revoked b ({[id]} ∪ b_revoked b)) in
  let '(b, e) := persistRevLocked w b in
  let '(b, _) := append audit_fails (mkRow "execution" id "revoke" "revoke") b in
  (b, match e with None => Ok tt | Some e => Err e end).

(** The number of tokens is returned with an error too. *)
Definition RevokeAllForTask (w : option io_step) (audit_fails : bool) (taskID : string) (b : Broker) : Broker * Z * option id_err :=
  let ids := live b taskID in
  let b := set_revoked b (b_revoked b ∪ ids) in
  let b := set_index b (delete taskID (b_activeByTask b)) (filter (λ kv, kv.1 ∉ ids) (b_taskByToken b)) in
  let b := set_tasks b ({[taskID]} ∪ b_revokedTasks b) in
  let '(b, e) := persistRevLocked w b in
  let '(b, _) := append audit_fails (mkRow "execution" taskID "revoke_all" "revoke") b in
  (b, Z.of_nat (size ids), e).

Definition LookupSecret (capability : string) (b : Broker) : option string := b_store b !! capability.

(** What reading the file meets. *)
Inductive rev_read := RvRead | RvUnreadable | RvCorrupt.

Definition PersistRevocations (path_empty mkdir_fails : bool) (rd : rev_read) (w : option io_step) : method Broker id_err unit := λ b,
  if path_empty then (b, Err EPath)
  else if mkdir_fails then (b, Err EMkdirRev)
  else
    let b := set_file b true (b_file b) in
    let persist b := match persistRevLocked w b with (b, None) => (b, Ok tt) | (b, Some e) => (b, Err e) end in
    match rd with
    | RvUnreadable => (b, Err EReadRev)
    | RvCorrupt => persist (set_file b true (Store None (st_temps (b_file b))))     (* renamed away *)
    | RvRead =>
        match st_target (b_file b) with
        | None => persist b
        | Some rf => persist (set_tasks (set_revoked b (b_revoked b ∪ rf_Revoked rf)) (b_revokedTasks b ∪ rf_Tasks rf))
        end
    end.

Definition Refresh (now now' : Z) (id : option string) (w : option io_step) (mint_audit revoke_audit : bool) (tokStr : string) (ttl : Z) :
    method Broker id_err string := λ b,
  match Validate now tokStr b with
  | (b, Err e) => (b, Err e)
  | (b, Ok tok) =>
      let taskID := if bool_decide (k_Task tok = EmptyString) then default EmptyString (b_taskByToken b !! k_ID tok) else k_Task tok in
      match Mint now' id mint_audit (k_Caller tok) (k_Tenant tok) taskID (k_Scope tok) ttl b with
      | (b, Err e) => (b, Err e)
      | (b, Ok fresh) =>
          match Revoke w revoke_audit (k_ID tok) b with
          | (b, Err e) => (b, Err e)
          | (b, Ok _) => (b, Ok fresh)
          end
      end
  end.
End Broker.

(** ** The signing key's file

    [raced]: another process creates the file, with this content, between the read and
    the exclusive create. *)

Record key_faults := mkKeyFaults { kf_mkdir : bool; kf_read : bool; kf_create : bool; kf_write : bool; kf_close : bool }.

Definition usable (raw : option (list Z)) : option (list Z) := k ← raw; if 16 <=? zlen k then Some k else None.

Definition LoadOrCreateKey (f : key_faults) (path_empty : bool) (random : option (list Z)) (raced : option (list Z)) (file : option (list Z)) :
    option (list Z) * result id_err (list Z) :=
  if path_empty || kf_mkdir f then (file, Err EKey)
  else if kf_read f then (file, Err EKey)
  else match usable file with
  | Some k => (file, Ok k)
  | None =>
      match random with
      | None => (file, Err ERandom)
      | Some key =>
          let file := match file with None => raced | _ => file end in
          match file with
          | Some raw => (file, match usable file with Some k => Ok k | None => Err EKey end)
          | None =>
              if kf_create f then (None, Err EKey)
              else if kf_write f then (Some [], Err EKey)
              else (Some key, if kf_close f then Err EKey else Ok key)
          end
      end
  end.

(** ** The endpoints (internal/api/identity_api.go) *)

Section Api.
Context `{TokenJSON}.

Definition parseTTL (raw : string) (def : Z) : Z :=
  if bool_decide (raw = EmptyString) then def
  else match ParseDuration raw with Some d => if 0 <? d then d else def | None => def end.

(** The broker [CurrentIdentity] builds for a state root: its key file and revocation file. *)
Definition CurrentIdentity (f : key_faults) (random raced : option (list Z)) (rd : rev_read) (mkdir_fails : bool) (w : option io_step)
    (key : option (list Z)) (disk : FsJson.store revocationFile) : option (list Z) * result id_err Broker :=
  let '(key, k) := LoadOrCreateKey f false random raced key in
  (key,
   let* k := k in
   let* b := NewBroker k None ∅ None (15 * minute) disk in
   Ok (PersistRevocations false mkdir_fails rd w b).1).

(** A handler's answer: the status code and what it carries. *)
Inductive answer := Token200 (tok : string) (ttl : Z) | Fresh200 (tok : string) | Revoked200 (n : Z) | Status (code : Z).

Definition post_tokens (now : Z) (id : option string) (audit_fails : bool) (task : string)
    (scopes : list string) (ttl caller tenant : string) (b : Broker) : Broker * answer :=
  match scopes with
  | [] => (b, Status 400)
  | _ =>
      let caller := if bool_decide (caller = EmptyString) then "api-user"%string else caller in
      let ttl := parseTTL ttl (15 * minute) in
      match Mint now id audit_fails caller tenant task scopes ttl b with
      | (b, Ok tok) => (b, Token200 tok ttl)
      | (b, Err _) => (b, Status 500)
      end
  end.

Definition post_refresh (now now' : Z) (id : option string) (w : option io_step) (mint_audit revoke_audit : bool)
    (token ttl : string) (b : Broker) : Broker * answer :=
  match Refresh now now' id w mint_audit revoke_audit token (parseTTL ttl (15 * minute)) b with
  | (b, Ok fresh) => (b, Fresh200 fresh)
  | (b, Err _) => (b, Status 401)
  end.

Definition post_revoke (now : Z) (w : option io_step) (audit_fails : bool) (task : string) (token : string) (all : bool)
    (b : Broker) : Broker * answer :=
  if all then
    match RevokeAllForTask w audit_fails task b with
    | (b, n, None) => (b, Revoked200 n)
    | (b, _, Some _) => (b, Status 500)
    end
  else if bool_decide (token = EmptyString) then (b, Status 400)
  else match Validate now token b with
       | (b, Err _) => (b, Status 409)
       | (b, Ok tok) =>
           if negb (bool_decide (k_Task tok = EmptyString)) && negb (bool_decide (k_Task tok = task)) then (b, Status 403)
           else match Revoke w audit_fails (k_ID tok) b with
                | (b, Ok _) => (b, Revoked200 1)
                | (b, Err _) => (b, Status 500)
                end
       end.
End Api.
