(* ===== verification/IdentityClaims.v ===== *)
(** * Properties of the credential broker *)

From S2P Require Import Prelude FsJson Json Sha256 RedactSpec Identity.

(** ** Base64 *)

Definition octet (z : Z) : Prop := 0 ≤ z < 256.

Lemma b64_char_index n : 0 ≤ n < 64 → b64_index (b64_char n) = Some n ∧ line_end (b64_char n) = false ∧ (code (b64_char n) =? 46) = false.
Proof.
  assert (forallb (λ n, bool_decide (b64_index (b64_char n) = Some n) && negb (line_end (b64_char n)) && negb (code (b64_char n) =? 46)) (seqZ 0 64) = true)
    as Hall by (vm_compute; reflexivity).
  intros Hn. rewrite forallb_forall in Hall.
  assert (In n (seqZ 0 64)) as Hin by (apply list_elem_of_In, elem_of_seqZ; lia). apply Hall in Hin.
  apply andb_prop in Hin as [[H1%bool_decide_eq_true H2%negb_true_iff]%andb_prop H3%negb_true_iff]. done.
Qed.

Lemma list_ind3 {A} (P : list A → Prop) :
  P [] → (∀ a, P [a]) → (∀ a b, P [a; b]) → (∀ a b c l, P l → P (a :: b :: c :: l)) → ∀ l, P l.
Proof.
  intros H0 H1 H2 H3 l. assert (P l ∧ (∀ a, P (a :: l)) ∧ ∀ a b, P (a :: b :: l)) as [? _]; [|done].
  induction l as [|x l (IH1 & IH2 & IH3)]; split_and!; auto.
Qed.

Lemma sextets_range b : Forall octet b → Forall (λ z, 0 ≤ z < 64) (b64_sextets b).
Proof.
  unfold octet. induction b as [|x|x y|x y z l IH] using list_ind3; simpl; intros Hb; repeat (apply list.Forall_cons in Hb as [? Hb]);
    repeat (apply list.Forall_cons; split); auto; Z.div_mod_to_equations; lia.
Qed.

Lemma octets_sextets b : Forall octet b → b64_octets (b64_sextets b) = Some b.
Proof.
  unfold octet. induction b as [|x|x y|x y z l IH] using list_ind3; simpl; intros Hb; repeat (apply list.Forall_cons in Hb as [? Hb]).
  - done.
  - repeat f_equal. Z.div_mod_to_equations. lia.
  - repeat f_equal; Z.div_mod_to_equations; lia.
  - rewrite IH by done. simpl. repeat f_equal; Z.div_mod_to_equations; lia.
Qed.

Lemma decode_encode b : Forall octet b → decode (encode b) = Some b.
Proof.
  intros Hb. unfold decode, encode. rewrite String.list_ascii_of_string_of_list_ascii.
  pose proof (sextets_range b Hb) as Hr.
  assert (filter (λ a, line_end a = false) (b64_char <$> b64_sextets b) = b64_char <$> b64_sextets b) as ->.
  { clear Hb. induction Hr as [|n l Hn _ IH]; [done|]. cbn [fmap list_fmap]. rewrite filter_cons, decide_True by by apply b64_char_index.
    by rewrite IH. }
  assert (mapM b64_index (b64_char <$> b64_sextets b) = Some (b64_sextets b)) as ->; [|by apply octets_sextets].
  induction Hr as [|n l Hn _ IH]; [done|]. rewrite fmap_cons. cbn [mapM]. destruct (b64_char_index n Hn) as (-> & _).
  cbn [mbind option_bind]. by rewrite IH.
Qed.

Lemma split_encode b s : Forall octet b → split_dot (encode b ++ "." ++ s)%string = Some (encode b, s).
Proof.
  intros Hb. unfold encode. induction (sextets_range b Hb) as [|n l Hn _ IH].
  - change (String.string_of_list_ascii (b64_char <$> [])) with EmptyString. rewrite append_Empty.
    change ("." ++ s)%string with (String (Ascii.ascii_of_nat 46) s). done.
  - cbn [fmap list_fmap String.string_of_list_ascii]. rewrite append_String. cbn [split_dot].
    destruct (b64_char_index n Hn) as (_ & _ & ->). by rewrite IH.
Qed.

(** ** Tokens *)

(** The text [encoding/json] carries unchanged. *)
Definition token_text (t : Token) : Prop :=
  Forall (λ s, valid s = true) ([k_ID t; k_Caller t; k_Tenant t; k_Task t] ++ k_Scope t).

(** What is relied on of [encoding/json]: bytes, and the token back from them. *)
Class TokenJSONOk `{TokenJSON} : Prop := {
  tj_bytes : ∀ t p, marshalToken t = Some p → Forall octet p;
  tj_round : ∀ t p, marshalToken t = Some p → token_text t → unmarshalToken p = Some t
}.

Section Claims.
Context `{TokenJSONOk}.
Implicit Types (b : Broker).

Lemma parse_minted b b' t payload :
  marshalToken t = Some payload → token_text t → b_signingKey b' = b_signingKey b →
  parse_token b' (encode payload ++ "." ++ sign b payload)%string = Some t.
Proof.
  intros Hm Ht Hk. pose proof (tj_bytes _ _ Hm) as Hb. unfold parse_token. rewrite split_encode by done. cbn [mbind option_bind].
  rewrite decode_encode by done. cbn [mbind option_bind]. unfold sign. rewrite Hk, bool_decide_eq_true_2 by done. by apply tj_round.
Qed.

Lemma append_frame fails row b b' ok : append fails row b = (b', ok) → b' = set_ledger b (b_ledger b').
Proof. unfold append. destruct (b_ledger b) eqn:E; [destruct fails|]; intros [= <- _]; destruct b; simpl in *; by rewrite ?E. Qed.

Definition effective_ttl b (ttl : Z) : Z := if ttl <=? 0 then b_defaultTTL b else ttl.

(** What minting leaves. *)
Lemma Mint_ok now id af caller tenant task scope ttl b b' s :
  Mint now id af caller tenant task scope ttl b = (b', Ok s) →
  ∃ i payload, id = Some i ∧ marshalToken (mkToken i caller tenant task scope (now + effective_ttl b ttl)) = Some payload ∧
    s = (encode payload ++ "." ++ sign b payload)%string ∧
    b' = set_ledger (set_index b (<[task := {[i]} ∪ live b task]> (b_activeByTask b)) (<[i := task]> (b_taskByToken b))) (b_ledger b').
Proof.
  unfold Mint. fold (effective_ttl b ttl). destruct id as [i|]; [|done]. destruct (marshalToken _) as [payload|] eqn:Em; [|done].
  destruct (append _ _ _) as [b1 ok] eqn:Ea. destruct ok; [|done]. intros [= <- <-]. exists i, payload.
  split; [done|]. split; [done|]. split; [done|]. by apply append_frame in Ea.
Qed.

(** A token is what it was minted as, until it expires.  Presented to the broker
    before its time is up, with neither it nor its task revoked, a minted token is
    accepted, names exactly the caller, tenant, task and scopes it was minted
    for, and changes nothing. *)
Theorem minted_token_valid now id af caller tenant task scope ttl b b' s now' :
  Mint now (Some id) af caller tenant task scope ttl b = (b', Ok s) →
  token_text (mkToken id caller tenant task scope (now + effective_ttl b ttl)) →
  id ∉ b_revoked b → task ∉ b_revokedTasks b → now' ≤ now + effective_ttl b ttl →
  Validate now' s b' = (b', Ok (mkToken id caller tenant task scope (now + effective_ttl b ttl))).
Proof.
  intros Hm Ht Hr Hrt Hn. apply Mint_ok in Hm as (i & payload & [= <-] & Hp & -> & Hb').
  unfold Validate. rewrite (parse_minted b b' _ _ Hp Ht) by by rewrite Hb'.
  assert (token_revoked b' (mkToken id caller tenant task scope (now + effective_ttl b ttl)) = false) as ->.
  { unfold token_revoked. rewrite Hb'. simpl. rewrite lookup_insert_eq. rewrite !bool_decide_eq_false_2 by done. by rewrite andb_false_r. }
  simpl. by rewrite (proj2 (Z.ltb_ge _ _)).
Qed.

(** ** Revocation lasts *)

Inductive bop :=
| BMint (now : Z) (id : option string) (af : bool) (caller tenant task : string) (scope : list string) (ttl : Z)
| BValidate (now : Z) (s : string)
| BRevoke (w : option io_step) (af : bool) (id : string)
| BRevokeAll (w : option io_step) (af : bool) (task : string)
| BRefresh (now now' : Z) (id : option string) (w : option io_step) (af af' : bool) (s : string) (ttl : Z)
| BRestart (mkdir_fails : bool) (rd : rev_read) (w : option io_step) (store : gmap string string) (ledger : option (list audit_row)) (ttl : Z).

(** After a restart the broker has the same key and file, and nothing else.  The
    directory may not be writable and the file not readable. *)
Definition restart (mkdir_fails : bool) (rd : rev_read) (w : option io_step) (store : gmap string string) (ledger : option (list audit_row)) (ttl : Z) b : Broker :=
  match NewBroker (b_signingKey b) None store ledger ttl (b_file b) with
  | Ok b0 => (PersistRevocations false mkdir_fails rd w b0).1
  | Err _ => b
  end.

Definition do_bop b (op : bop) : Broker :=
  match op with
  | BMint now id af caller tenant task scope ttl => (Mint now id af caller tenant task scope ttl b).1
  | BValidate now s => (Validate now s b).1
  | BRevoke w af id => (Revoke w af id b).1
  | BRevokeAll w af task => (RevokeAllForTask w af task b).1.1
  | BRefresh now now' id w af af' s ttl => (Refresh now now' id w af af' s ttl b).1
  | BRestart mkdir_fails rd w store ledger ttl => restart mkdir_fails rd w store ledger ttl b
  end.

(** A restart that could read the revocation file back. *)
Definition reads_back (op : bop) : Prop :=
  match op with BRestart mkdir_fails rd _ _ _ _ => mkdir_fails = false ∧ rd = RvRead | _ => True end.

(** [ids] and [tasks] are revoked, in memory and on disk. *)
Record durable (ids tasks : gset string) b : Prop := {
  du_ids : ids ⊆ b_revoked b; du_tasks : tasks ⊆ b_revokedTasks b; du_persists : b_persists b = true;
  du_file : ∃ rf, st_target (b_file b) = Some rf ∧ ids ⊆ rf_Revoked rf ∧ tasks ⊆ rf_Tasks rf
}.

(** In memory, and on disk unless this write fails. *)
Lemma persist_durable w ids tasks b b' e :
  ids ⊆ b_revoked b → tasks ⊆ b_revokedTasks b → b_persists b = true → persistRevLocked w b = (b', e) →
  (e = None ∨ ∃ rf, st_target (b_file b) = Some rf ∧ ids ⊆ rf_Revoked rf ∧ tasks ⊆ rf_Tasks rf) → durable ids tasks b'.
Proof.
  intros Hi Ht Hp. unfold persistRevLocked. rewrite Hp. destruct (Write w _ (b_file b)) as [f fe] eqn:Ew. intros [= <- <-] Hf.
  split; try done. simpl.
  assert (st_target f = st_target (b_file b) ∧ fe ≠ None ∨ st_target f = Some (mkRevFile (b_revoked b) (b_revokedTasks b))) as Hw.
  { destruct (Write_spec w (mkRevFile (b_revoked b) (b_revokedTasks b)) (b_file b)) as [E1 E2]. rewrite Ew in E1, E2. simpl in E1, E2.
    subst f. destruct (committed w) eqn:Ec; [by right|]. left. split; [done|]. intros ->. destruct w as [[]|]; simpl in *; naive_solver. }
  destruct Hw as [[-> Hne]|Heq]; [|rewrite Heq; by eexists]. destruct Hf as [Hn|Hf]; [|done]. by destruct fe.
Qed.

Lemma durable_ledger ids tasks b l : durable ids tasks b → durable ids tasks (set_ledger b l).
Proof. intros []. by split. Qed.

Lemma durable_index ids tasks b a t : durable ids tasks b → durable ids tasks (set_index b a t).
Proof. intros []. by split. Qed.

Lemma unlink_frame id b : ∃ a t, unlink id b = set_index b a t.
Proof.
  unfold unlink. destruct (b_taskByToken b !! id); [by eexists _, _|].
  exists (b_activeByTask b), (b_taskByToken b). by destruct b.
Qed.

Lemma Mint_durable ids tasks now id af caller tenant task scope ttl b :
  durable ids tasks b → durable ids tasks (Mint now id af caller tenant task scope ttl b).1.
Proof.
  intros Hd. unfold Mint. destruct id as [i|]; [|done]. destruct (marshalToken _); [|done].
  destruct (append _ _ _) as [b1 ok] eqn:Ea. apply append_frame in Ea. rewrite Ea. destruct ok; simpl; by destruct Hd.
Qed.

(** A revoked id never leaves the set: a revoked token is refused before it is found expired. *)
Lemma Validate_durable ids tasks now s b : durable ids tasks b → durable ids tasks (Validate now s b).1.
Proof.
  intros Hd. unfold Validate. destruct (parse_token b s) as [tok|]; [|done]. destruct (token_revoked b tok) eqn:Er; [done|].
  destruct (k_Exp tok <? now); [|done]. simpl. destruct (unlink_frame (k_ID tok) b) as (a & t & ->).
  unfold token_revoked in Er. apply orb_false_iff in Er as [[Hn%bool_decide_eq_false _]%orb_false_iff _].
  destruct Hd as [Hi Ht Hp Hf]. split; try done. simpl. set_solver.
Qed.

Lemma Revoke_durable ids tasks w af id b : durable ids tasks b → durable ids tasks (Revoke w af id b).1.
Proof.
  intros [Hi Ht Hp Hf]. unfold Revoke. destruct (unlink_frame id (set_revoked b ({[id]} ∪ b_revoked b))) as (a & t & ->).
  destruct (persistRevLocked w _) as [b1 e] eqn:Ep. destruct (append _ _ b1) as [b2 ok] eqn:Ea. apply append_frame in Ea. rewrite Ea. simpl.
  apply durable_ledger. eapply persist_durable; [..|exact Ep|by right]; simpl; [set_solver|done..].
Qed.

Lemma RevokeAll_durable ids tasks w af task b : durable ids tasks b → durable ids tasks (RevokeAllForTask w af task b).1.1.
Proof.
  intros [Hi Ht Hp Hf]. unfold RevokeAllForTask.
  destruct (persistRevLocked w _) as [b1 e] eqn:Ep. destruct (append _ _ b1) as [b2 ok] eqn:Ea. apply append_frame in Ea. rewrite Ea. simpl.
  apply durable_ledger. eapply persist_durable; [..|exact Ep|by right]; simpl; [set_solver..|done].
Qed.

Lemma restart_durable ids tasks w store ledger ttl b : durable ids tasks b → durable ids tasks (restart false RvRead w store ledger ttl b).
Proof.
  intros Hd. unfold restart. destruct (NewBroker _ _ _ _ _ _) as [b0|] eqn:Eb; [|done].
  assert (b_revoked b0 = ∅ ∧ b_revokedTasks b0 = ∅ ∧ b_file b0 = b_file b) as (E1 & E2 & E3).
  { unfold NewBroker in Eb. destruct (b_signingKey b); simpl in Eb; [done|]. by injection Eb as <-. }
  destruct Hd as [_ _ _ (rf & Hrf & H1 & H2)]. unfold PersistRevocations. cbn [set_file b_file]. rewrite E3, Hrf.
  match goal with |- context [persistRevLocked w ?x] => destruct (persistRevLocked w x) as [b1 e] eqn:Ep end.
  assert (durable ids tasks b1) as Hd; [|by destruct e].
  eapply persist_durable; [..|exact Ep|right; exists rf; by rewrite <- ?Hrf, <- ?E3]; simpl; [set_solver..|done].
Qed.

Lemma bop_durable ids tasks b op : reads_back op → durable ids tasks b → durable ids tasks (do_bop b op).
Proof.
  intros Hrb Hd. destruct op; simpl.
  - by apply Mint_durable.
  - by apply Validate_durable.
  - by apply Revoke_durable.
  - by apply RevokeAll_durable.
  - unfold Refresh. pose proof (Validate_durable ids tasks now s b Hd) as Hv. destruct (Validate now s b) as [b1 [tok|e]]; [|done]. simpl in Hv.
    pose proof (Mint_durable ids tasks now' id af (k_Caller tok) (k_Tenant tok)
      (if bool_decide (k_Task tok = EmptyString) then default EmptyString (b_taskByToken b1 !! k_ID tok) else k_Task tok) (k_Scope tok) ttl b1 Hv) as Hm.
    destruct (Mint _ _ _ _ _ _ _ _ b1) as [b2 [fresh|e]]; [|done]. simpl in Hm.
    pose proof (Revoke_durable ids tasks w af' (k_ID tok) b2 Hm) as Hr. by destruct (Revoke _ _ _ b2) as [b3 [[]|e]].
  - destruct Hrb as [-> ->]. by apply restart_durable.
Qed.

Lemma bops_durable ids tasks ops b : Forall reads_back ops → durable ids tasks b → durable ids tasks (fold_left do_bop ops b).
Proof.
  intros Hrb. revert b. induction Hrb as [|op ops Hop _ IH]; intros b Hd; [done|]. simpl. by apply IH, bop_durable.
Qed.

Lemma Revoke_ok_durable w af id b : b_persists b = true → (Revoke w af id b).2 = Ok tt → durable {[id]} ∅ (Revoke w af id b).1.
Proof.
  intros Hp. unfold Revoke. destruct (unlink_frame id (set_revoked b ({[id]} ∪ b_revoked b))) as (a & t & ->).
  destruct (persistRevLocked w _) as [b1 e] eqn:Ep. destruct (append _ _ b1) as [b2 ok] eqn:Ea. apply append_frame in Ea. rewrite Ea. simpl.
  destruct e; [done|]. intros _. apply durable_ledger. eapply persist_durable; [..|exact Ep|by left]; simpl; [set_solver..|done].
Qed.

(** C18. A revocation lasts.  Once [Revoke] has reported success on a broker that keeps its
    revocations on disk, a token with that id is refused from then on: whatever is
    minted, validated, refreshed or revoked in between, whatever of that fails to
    be saved, and across any number of restarts - provided each restart could create
    the directory and read the file back (see [unreadable_revocations_overwritten]
    for one that could not). *)
Theorem revoked_forever w af id b ops now s tok :
  b_persists b = true → Forall reads_back ops → (Revoke w af id b).2 = Ok tt →
  let b' := fold_left do_bop ops (Revoke w af id b).1 in
  parse_token b' s = Some tok → k_ID tok = id → Validate now s b' = (b', Err ErrRevoked).
Proof.
  intros Hp Hrb Hr b' Hs Hid. pose proof (bops_durable _ _ ops _ Hrb (Revoke_ok_durable w af id b Hp Hr)) as [Hi _ _ _]. fold b' in Hi.
  unfold Validate. rewrite Hs. unfold token_revoked. rewrite Hid, bool_decide_eq_true_2 by set_solver. done.
Qed.

(** Revoking a task cuts it off for good.  Once [RevokeAllForTask] has reported success,
    every token whose signed claim names the task is refused - minted before or
    after, whether or not this process ever saw it - through any later calls and
    through restarts that could read the file back. *)
Theorem task_revoked_forever w af task b ops now s tok :
  b_persists b = true → Forall reads_back ops → (RevokeAllForTask w af task b).2 = None →
  let b' := fold_left do_bop ops (RevokeAllForTask w af task b).1.1 in
  parse_token b' s = Some tok → k_Task tok = task → task ≠ EmptyString → Validate now s b' = (b', Err ErrRevoked).
Proof.
  intros Hp Hrb Hr b' Hs Ht Hne.
  assert (durable ∅ {[task]} (RevokeAllForTask w af task b).1.1) as Hd.
  { revert Hr. unfold RevokeAllForTask. destruct (persistRevLocked w _) as [b1 e] eqn:Ep. destruct (append _ _ b1) as [b2 ok] eqn:Ea.
    apply append_frame in Ea. rewrite Ea. simpl. intros ->. apply durable_ledger. eapply persist_durable; [..|exact Ep|by left]; simpl; [set_solver..|done]. }
  apply (bops_durable _ _ ops _ Hrb) in Hd as [_ Hi _ _]. fold b' in Hi.
  unfold Validate. rewrite Hs. unfold token_revoked. rewrite Ht, (bool_decide_eq_false_2 (task = EmptyString)) by done.
  rewrite (bool_decide_eq_true_2 (task ∈ b_revokedTasks b')) by set_solver. by rewrite orb_true_r.
Qed.

(** ** The index of live tokens *)

Definition index_ok b : Prop := ∀ id task, b_taskByToken b !! id = Some task ↔ id ∈ live b task.

Lemma index_ext b b' : b_activeByTask b' = b_activeByTask b → b_taskByToken b' = b_taskByToken b → index_ok b → index_ok b'.
Proof. intros E1 E2 Hi id task. unfold live. rewrite E1, E2. apply Hi. Qed.

Lemma unlink_index id b : index_ok b → index_ok (unlink id b) ∧ b_taskByToken (unlink id b) = delete id (b_taskByToken b).
Proof.
  intros Hi. unfold unlink. destruct (b_taskByToken b !! id) as [task|] eqn:Et; [|split; [done|by rewrite delete_id]].
  split; [|done]. pose proof (proj1 (Hi id task) Et) as Hin. unfold live in Hin.
  destruct (b_activeByTask b !! task) as [ids|] eqn:Ea; [|set_solver]. simpl in Hin.
  intros i t. unfold live. cbn [b_taskByToken b_activeByTask set_index].
  assert (default ∅ ((if bool_decide (ids ∖ {[id]} = ∅) then delete task (b_activeByTask b) else <[task := ids ∖ {[id]}]> (b_activeByTask b)) !! t)
    = if decide (t = task) then ids ∖ {[id]} else live b t) as ->.
  { destruct (decide (t = task)) as [->|Hne].
    - case_bool_decide as Hz; [by rewrite lookup_delete_eq, Hz|by rewrite lookup_insert_eq].
    - unfold live. case_bool_decide; [by rewrite lookup_delete_ne|by rewrite lookup_insert_ne]. }
  assert (live b task = ids) as Hl by (unfold live; by rewrite Ea). pose proof (Hi i t) as Hit.
  destruct (decide (i = id)) as [->|Hii].
  - rewrite lookup_delete_eq. split; [done|]. destruct (decide (t = task)) as [->|Hne]; [set_solver|]. rewrite <- Hit, Et. congruence.
  - rewrite lookup_delete_ne by done. rewrite Hit. destruct (decide (t = task)) as [->|]; [rewrite Hl; set_solver|done].
Qed.

Lemma live_insert b task ids t' t : live (set_index b (<[task := ids]> (b_activeByTask b)) t') t = if decide (t = task) then ids else live b t.
Proof.
  unfold live. simpl. destruct (decide (t = task)) as [->|]; [by rewrite lookup_insert_eq|by rewrite lookup_insert_ne].
Qed.

Lemma mint_index b id task : index_ok b → b_taskByToken b !! id = None →
  index_ok (set_index b (<[task := {[id]} ∪ live b task]> (b_activeByTask b)) (<[id := task]> (b_taskByToken b))).
Proof.
  intros Hi Hn i t. rewrite live_insert. cbn [set_index b_taskByToken].
  assert (∀ t, id ∉ live b t) as Hnl by (intros t' Hin; apply Hi in Hin; congruence). specialize (Hnl t). pose proof (Hi i t).
  destruct (decide (i = id)) as [->|Hii]; [rewrite lookup_insert_eq|rewrite lookup_insert_ne by done];
    (destruct (decide (t = task)) as [->|Ht]); [set_solver|naive_solver|set_solver|done].
Qed.

(** The identifiers are random: one in use is not drawn again. *)
Definition fresh_op b (op : bop) : Prop :=
  match op with
  | BMint _ (Some id) _ _ _ _ _ _ | BRefresh _ _ (Some id) _ _ _ _ _ => b_taskByToken b !! id = None
  | _ => True
  end.

Lemma Mint_index now id af caller tenant task scope ttl b :
  index_ok b → (∀ i, id = Some i → b_taskByToken b !! i = None) → index_ok (Mint now id af caller tenant task scope ttl b).1.
Proof.
  intros Hi Hf. unfold Mint. destruct id as [i|]; [|done]. destruct (marshalToken _); [|done]. specialize (Hf i eq_refl).
  pose proof (mint_index b i task Hi Hf) as Hm. set (b1 := set_index b _ _) in *.
  destruct (append _ _ b1) as [b2 ok] eqn:Ea. apply append_frame in Ea. rewrite Ea. destruct ok; simpl; [done|].
  intros j t. unfold live. simpl. pose proof (Hi j t) as Hjt. assert (∀ t, i ∉ live b t) as Hnl by (intros t' Hin; apply Hi in Hin; congruence).
  rewrite lookup_insert_eq. cbn [default from_option id]. rewrite delete_insert_id by done.
  destruct (decide (t = task)) as [->|Ht]; [rewrite lookup_insert_eq|rewrite !lookup_insert_ne by done; done].
  cbn [default from_option id]. rewrite Hjt. specialize (Hnl task). set_solver.
Qed.

Lemma Validate_index now s b : index_ok b → index_ok (Validate now s b).1.
Proof.
  intros Hi. unfold Validate. destruct (parse_token b s) as [tok|]; [|done]. destruct (token_revoked b tok); [done|].
  destruct (k_Exp tok <? now); [|done]. by apply unlink_index.
Qed.

Lemma persist_index w b b' e : persistRevLocked w b = (b', e) → index_ok b → index_ok b'.
Proof.
  unfold persistRevLocked. destruct (b_persists b); [|by intros [= <- _]]. destruct (Write _ _ _) as [f fe]. by intros [= <- _].
Qed.

Lemma Revoke_index w af id b : index_ok b → index_ok (Revoke w af id b).1.
Proof.
  intros Hi. unfold Revoke. destruct (persistRevLocked w _) as [b1 e] eqn:Ep. destruct (append _ _ b1) as [b2 ok] eqn:Ea.
  apply append_frame in Ea. rewrite Ea. simpl. apply (index_ext b1); [done..|]. eapply persist_index; [exact Ep|]. by apply unlink_index.
Qed.

Lemma RevokeAll_index w af task b : index_ok b → index_ok (RevokeAllForTask w af task b).1.1.
Proof.
  intros Hi. unfold RevokeAllForTask. destruct (persistRevLocked w _) as [b1 e] eqn:Ep. destruct (append _ _ b1) as [b2 ok] eqn:Ea.
  apply append_frame in Ea. rewrite Ea. simpl. apply (index_ext b1); [done..|]. eapply persist_index; [exact Ep|].
  match goal with |- index_ok ?x => set (b0 := x) end.
  assert (∀ t, live b0 t = if decide (t = task) then ∅ else live b t) as Hl.
  { intros t. unfold live. subst b0. simpl. destruct (decide (t = task)) as [->|]; [by rewrite lookup_delete_eq|by rewrite lookup_delete_ne]. }
  intros i t. change (b_taskByToken b0) with (filter (λ kv, kv.1 ∉ live b task) (b_taskByToken b)).
  rewrite map_lookup_filter_Some, Hl. cbn [fst].
  rewrite (Hi i t). destruct (decide (t = task)) as [->|Ht]; [set_solver|]. split; [by intros [? _]|]. intros Hin. split; [done|].
  intros Hin'. apply Hi in Hin, Hin'. congruence.
Qed.

Lemma bop_index b op : index_ok b → fresh_op b op → index_ok (do_bop b op).
Proof.
  intros Hi Hf. destruct op; simpl.
  - apply Mint_index; [done|]. intros i ->. exact Hf.
  - by apply Validate_index.
  - by apply Revoke_index.
  - by apply RevokeAll_index.
  - unfold Refresh. pose proof (Validate_index now s b Hi) as Hv. destruct (Validate now s b) as [b1 [tok|e]] eqn:Ev; [|done]. simpl in Hv.
    assert (b1 = b) as ->. { unfold Validate in Ev. destruct (parse_token b s) as [t|]; [|done]. destruct (token_revoked b t); [done|].
      destruct (k_Exp t <? now); [done|]. by injection Ev as <-. }
    match goal with |- context [Mint ?a ?b ?c ?d ?e ?f ?g ?h ?i] => pose proof (Mint_index a b c d e f g h i Hv) as Hm; destruct (Mint a b c d e f g h i) as [b2 [fresh|e']] end;
      simpl in Hm; (specialize (Hm ltac:(intros i ->; exact Hf))); [|done].
    pose proof (Revoke_index w af' (k_ID tok) b2 Hm) as Hr. by destruct (Revoke _ _ _ b2) as [b3 [[]|e]].
  - unfold restart. destruct (NewBroker _ _ _ _ _ _) as [b0|] eqn:Eb; [|done].
    assert (index_ok b0) as Hb0.
    { unfold NewBroker in Eb. destruct (b_signingKey b); simpl in Eb; [done|]. injection Eb as <-. intros i t. unfold live. simpl.
      rewrite !lookup_empty. simpl. set_solver. }
    unfold PersistRevocations. destruct mkdir_fails; [done|]. cbn [set_file b_file].
    destruct rd; [|by apply (index_ext b0)|]; [destruct (st_target (b_file b0)) as [rf|]|];
      (match goal with |- context [persistRevLocked w ?x] => destruct (persistRevLocked w x) as [b1 e] eqn:Ep end;
       apply persist_index in Ep; [by destruct e|by apply (index_ext b0)]).
Qed.

Fixpoint fresh_run (ops : list bop) b : Prop :=
  match ops with [] => True | op :: ops' => fresh_op b op ∧ fresh_run ops' (do_bop b op) end.

Lemma bops_index ops b : index_ok b → fresh_run ops b → index_ok (fold_left do_bop ops b).
Proof. revert b. induction ops as [|op ops IH]; intros b Hi Hf; [done|]. destruct Hf as [Hf Hr]. simpl. by apply IH; [apply bop_index|]. Qed.

(** Refreshing. *)

(** Refreshing rotates a token.  The token presented was valid; it is refused from then
    on; the new one carries the same caller, tenant and scopes, under the signed
    task of the old one, so that revoking the task reaches it. *)
Theorem refresh_rotates now now' id w af af' s ttl b b' s' :
  Refresh now now' id w af af' s ttl b = (b', Ok s') →
  ∃ tok i task, id = Some i ∧ parse_token b s = Some tok ∧ now ≤ k_Exp tok ∧ (k_Task tok ≠ EmptyString → task = k_Task tok) ∧
    let fresh := mkToken i (k_Caller tok) (k_Tenant tok) task (k_Scope tok) (now' + effective_ttl b ttl) in
    (token_text fresh → parse_token b' s' = Some fresh) ∧ ∀ n, (Validate n s b').2 = Err ErrRevoked.
Proof.
  unfold Refresh. destruct (Validate now s b) as [b1 [tok|e]] eqn:Ev; [|done].
  assert (b1 = b ∧ parse_token b s = Some tok ∧ now ≤ k_Exp tok) as (-> & Hp & He).
  { unfold Validate in Ev. destruct (parse_token b s) as [t|]; [|done]. destruct (token_revoked b t); [done|].
    destruct (Z.ltb_spec (k_Exp t) now); [done|]. by injection Ev as <- <-. }
  set (task := if bool_decide (k_Task tok = EmptyString) then _ else _).
  destruct (Mint _ _ _ _ _ _ _ _ b) as [b2 [fresh|e]] eqn:Em; [|done].
  destruct (Revoke w af' (k_ID tok) b2) as [b3 [[]|e]] eqn:Er; [|done]. intros [= <- <-].
  apply Mint_ok in Em as (i & payload & -> & Hm & -> & Hb2).
  assert (b_signingKey b3 = b_signingKey b ∧ k_ID tok ∈ b_revoked b3) as [Hk Hin].
  { unfold Revoke in Er. destruct (unlink_frame (k_ID tok) (set_revoked b2 ({[k_ID tok]} ∪ b_revoked b2))) as (a & t & Eu). rewrite Eu in Er.
    destruct (persistRevLocked w _) as [b4 e] eqn:Ep. destruct (append _ _ b4) as [b5 ok] eqn:Ea. apply append_frame in Ea.
    injection Er as <- _. rewrite Ea. simpl. unfold persistRevLocked in Ep. simpl in Ep. rewrite Hb2 in Ep. simpl in Ep.
    destruct (b_persists b); [destruct (Write _ _ _)|]; injection Ep as <- _; simpl; split; [done|set_solver..|done|set_solver]. }
  exists tok, i, task. split_and!; try done.
  - intros Hne. subst task. by rewrite bool_decide_eq_false_2.
  - intros Ht. by apply parse_minted.
  - intros n. unfold Validate. assert (parse_token b3 s = Some tok) as ->.
    { rewrite <- Hp. unfold parse_token, sign. by rewrite Hk. }
    unfold token_revoked. by rewrite bool_decide_eq_true_2.
Qed.

(** With a working ledger and disk, refreshing a valid token succeeds. *)
Lemma Refresh_succeeds now now' i af' s ttl b tok :
  (∀ t, is_Some (marshalToken t)) → Validate now s b = (b, Ok tok) →
  ∃ b' s', Refresh now now' (Some i) None false af' s ttl b = (b', Ok s').
Proof.
  intros Hj Hv. unfold Refresh. rewrite Hv. set (task := if bool_decide _ then _ else _). unfold Mint. fold (effective_ttl b ttl).
  destruct (Hj (mkToken i (k_Caller tok) (k_Tenant tok) task (k_Scope tok) (now' + effective_ttl b ttl))) as [p ->].
  set (b1 := set_index b _ _). assert (∃ b2, append false (mkRow "goal_auth" (k_Caller tok) "mint" "allow") b1 = (b2, true)) as [b2 ->]
    by (unfold append; destruct (b_ledger b1); by eexists).
  unfold Revoke. set (b3 := unlink _ _). assert (∃ b4, persistRevLocked None b3 = (b4, None)) as [b4 ->].
  { unfold persistRevLocked. destruct (b_persists b3); [|by eexists].
    destruct (Write_spec None (mkRevFile (b_revoked b3) (b_revokedTasks b3)) (b_file b3)) as [_ Hw]. destruct (Write None _ _) as [f [[]|]]; naive_solver. }
  destruct (append af' _ b4) as [b5 ok]. by eexists _, _.
Qed.

(** The indexes agree, and the bulk revocation counts exactly.  After any calls and
    restarts, with identifiers that are not drawn twice, [RevokeAllForTask] revokes
    and counts exactly the tokens the reverse index assigns to the task, and
    leaves those of other tasks linked. *)
Theorem revoke_all_exact key random store ledger ttl disk b0 ops w af task :
  NewBroker key random store ledger ttl disk = Ok b0 → fresh_run ops b0 →
  let b := fold_left do_bop ops b0 in
  let b' := (RevokeAllForTask w af task b).1.1 in
  (RevokeAllForTask w af task b).1.2 = Z.of_nat (size (filter (λ kv, kv.2 = task) (b_taskByToken b))) ∧
  b_revoked b' = b_revoked b ∪ dom (filter (λ kv, kv.2 = task) (b_taskByToken b)) ∧
  b_taskByToken b' = filter (λ kv, kv.2 ≠ task) (b_taskByToken b).
Proof.
  intros Hn Hf b b'. assert (index_ok b) as Hi.
  { apply bops_index; [|done]. unfold NewBroker in Hn. destruct key; simpl in Hn; [destruct random; simpl in Hn; [|done]|]; injection Hn as <-;
      intros i t; unfold live; simpl; rewrite !lookup_empty; simpl; set_solver. }
  assert (live b task = dom (filter (λ kv, kv.2 = task) (b_taskByToken b))) as Hl.
  { apply set_eq. intros i. rewrite elem_of_dom. split.
    - intros Hin. apply Hi in Hin. exists task. by apply map_lookup_filter_Some.
    - intros [t [Ht Hq]%map_lookup_filter_Some]. simpl in Hq. subst t. by apply Hi. }
  assert (b_revoked b' = b_revoked b ∪ live b task ∧ b_taskByToken b' = filter (λ kv, kv.1 ∉ live b task) (b_taskByToken b) ∧
    (RevokeAllForTask w af task b).1.2 = Z.of_nat (size (live b task))) as (-> & -> & ->).
  { subst b'. unfold RevokeAllForTask. destruct (persistRevLocked w _) as [b1 e] eqn:Ep. destruct (append _ _ b1) as [b2 ok] eqn:Ea.
    apply append_frame in Ea. rewrite Ea. simpl. unfold persistRevLocked in Ep. simpl in Ep.
    destruct (b_persists b); [destruct (Write _ _ _)|]; injection Ep as <- _; done. }
  split_and!; [by rewrite Hl, size_dom|by rewrite Hl|].
  apply map_eq. intros i. apply option_eq. intros t. rewrite !map_lookup_filter_Some. simpl. split; intros [Ht Hq]; (split; [done|]).
  - intros ->. by apply Hq, Hi.
  - intros Hin. apply Hi in Hin. congruence.
Qed.

(** One task's operator cannot revoke another's token.  Asked to revoke a token whose
    signed claim names another task, the endpoint refuses and revokes nothing. *)
Theorem revoke_endpoint_guarded now w af task token tok b :
  parse_token b token = Some tok → k_Task tok ≠ EmptyString → k_Task tok ≠ task → token ≠ EmptyString →
  b_revoked (post_revoke now w af task token false b).1 ⊆ b_revoked b ∧
  b_revokedTasks (post_revoke now w af task token false b).1 = b_revokedTasks b ∧
  ∃ status, (post_revoke now w af task token false b).2 = Status status ∧ (status = 403 ∨ status = 409).
Proof.
  intros Hp Hne Hnt Hnz. unfold post_revoke. rewrite bool_decide_eq_false_2 by done. unfold Validate. rewrite Hp.
  destruct (token_revoked b tok); [split_and!; eauto|]. destruct (k_Exp tok <? now).
  - destruct (unlink_frame (k_ID tok) b) as (a & t & ->). simpl. split_and!; [set_solver|done|eauto].
  - rewrite !bool_decide_eq_false_2 by done. simpl. split_and!; eauto.
Qed.
End Claims.

(** ** A run

    A token coded as the bits of a number stands in for its JSON text. *)

Fixpoint bits (p : positive) : list Z :=
  match p with xH => [] | xO p' => 0 :: bits p' | xI p' => 1 :: bits p' end.
Fixpoint of_bits (l : list Z) : positive :=
  match l with [] => xH | z :: l' => if z =? 0 then xO (of_bits l') else xI (of_bits l') end.

Lemma of_bits_bits p : of_bits (bits p) = p.
Proof. induction p as [p IH|p IH|]; simpl; by rewrite ?IH. Qed.

Lemma bits_octets p : Forall octet (bits p).
Proof. induction p; simpl; repeat constructor; done. Qed.

Definition token_fields (t : Token) := (k_ID t, k_Caller t, k_Tenant t, k_Task t, k_Scope t, k_Exp t).
Definition of_fields (f : string * string * string * string * list string * Z) : Token :=
  let '(id, caller, tenant, task, scope, exp) := f in mkToken id caller tenant task scope exp.

#[local] Instance demo_json : TokenJSON := {|
  marshalToken t := Some (bits (countable.encode (token_fields t)));
  unmarshalToken l := of_fields <$> countable.decode (of_bits l)
|}.

#[local] Instance demo_json_ok : TokenJSONOk.
Proof.
  split.
  - intros t p [= <-]. apply bits_octets.
  - intros t p [= <-] _. cbn. rewrite of_bits_bits, countable.decode_encode. by destruct t.
Qed.

Definition demo_broker : Broker := mkBroker [7; 7; 7] ∅ ∅ ∅ (Some []) ∅ (15 * minute) ∅ true (Store None []).
Definition demo_token (exp : Z) : Token := mkToken "i1" "agent" "acme" "t1" ["repo:read"%string] exp.
Definition demo_minted : Broker * result id_err string := Mint 0 (Some "i1"%string) false "agent" "acme" "t1" ["repo:read"%string] 100 demo_broker.
Definition demo_text : string :=
  (encode (bits (countable.encode (token_fields (demo_token 100)))) ++ "." ++ sign demo_broker (bits (countable.encode (token_fields (demo_token 100)))))%string.

Lemma demo_minted_ok : demo_minted = (demo_minted.1, Ok demo_text).
Proof. reflexivity. Qed.

Lemma demo_token_text : token_text (demo_token 100).
Proof. unfold token_text. simpl. repeat constructor. Qed.

Lemma demo_parse b : b_signingKey b = [7; 7; 7] → parse_token b demo_text = Some (demo_token 100).
Proof. intros Hk. apply (parse_minted demo_broker b); [reflexivity|apply demo_token_text|by rewrite Hk]. Qed.

Lemma minted_token_valid_witness : Validate 50 demo_text demo_minted.1 = (demo_minted.1, Ok (demo_token 100)).
Proof.
  apply (minted_token_valid 0 "i1" false "agent" "acme" "t1" ["repo:read"%string] 100 demo_broker demo_minted.1 demo_text 50);
    [exact demo_minted_ok|exact demo_token_text|apply not_elem_of_empty|apply not_elem_of_empty|vm_compute; discriminate].
Defined.

(** Revoked, then restarted twice, the second time without a writable disk. *)
Definition demo_ops : list bop := [BRestart false RvRead None ∅ None 0; BMint 20 (Some "i2"%string) false "agent" "acme" "t1" [] 0; BRestart false RvRead (Some SSync) ∅ None 0].

Lemma revoked_forever_witness :
  let b := fold_left do_bop demo_ops (Revoke None false "i1" demo_minted.1).1 in Validate 50 demo_text b = (b, Err ErrRevoked).
Proof.
  apply (revoked_forever None false "i1" demo_minted.1 demo_ops 50 demo_text (demo_token 100)); [reflexivity|by repeat constructor|reflexivity| |reflexivity].
  apply demo_parse. reflexivity.
Defined.

Lemma task_revoked_forever_witness :
  let b := fold_left do_bop demo_ops (RevokeAllForTask None true "t1" demo_broker).1.1 in Validate 50 demo_text b = (b, Err ErrRevoked).
Proof.
  apply (task_revoked_forever None true "t1" demo_broker demo_ops 50 demo_text (demo_token 100)); [reflexivity|by repeat constructor|reflexivity| |reflexivity|discriminate].
  apply demo_parse. reflexivity.
Defined.

Lemma demo_valid : Validate 50 demo_text demo_minted.1 = (demo_minted.1, Ok (demo_token 100)).
Proof.
  unfold Validate. rewrite demo_parse by reflexivity. assert (token_revoked demo_minted.1 (demo_token 100) = false) as -> by (vm_compute; reflexivity).
  reflexivity.
Qed.

Lemma refresh_rotates_witness :
  ∃ b' s' tok i task, Refresh 50 60 (Some "i9"%string) None false false demo_text 100 demo_minted.1 = (b', Ok s') ∧
    i = "i9"%string ∧ parse_token demo_minted.1 demo_text = Some tok ∧ (k_Task tok ≠ EmptyString → task = k_Task tok) ∧
    ∀ n, (Validate n demo_text b').2 = Err ErrRevoked.
Proof.
  destruct (Refresh_succeeds 50 60 "i9" false demo_text 100 demo_minted.1 (demo_token 100)) as (b' & s' & Er);
    [intros t; by eexists|exact demo_valid|].
  destruct (refresh_rotates 50 60 (Some "i9"%string) None false false demo_text 100 demo_minted.1 b' s' Er)
    as (tok & i & task & Hi & Hp & _ & Ht & _ & Hv). injection Hi as <-. exists b', s', tok, "i9"%string, task.
  exact (conj Er (conj eq_refl (conj Hp (conj Ht Hv)))).
Defined.

Lemma revoke_all_exact_witness :
  let b := fold_left do_bop [BMint 0 (Some "i1"%string) false "agent" "acme" "t1" [] 5; BMint 0 (Some "i2"%string) false "agent" "acme" "t2" [] 5]
    (mkBroker [7; 7; 7] ∅ ∅ ∅ None ∅ (15 * minute) ∅ false (Store None [])) in
  (RevokeAllForTask None false "t1" b).1.2 = 1.
Proof.
  intros b. etransitivity; [exact (proj1 (revoke_all_exact [7; 7; 7] None ∅ None 0 (Store None []) _
    [BMint 0 (Some "i1"%string) false "agent" "acme" "t1" [] 5; BMint 0 (Some "i2"%string) false "agent" "acme" "t2" [] 5] None false "t1" eq_refl
    (conj eq_refl (conj eq_refl I))))|].
  vm_compute. reflexivity.
Defined.

Lemma revoke_endpoint_guarded_witness :
  b_revoked (post_revoke 50 None false "t2" demo_text false demo_minted.1).1 ⊆ b_revoked demo_minted.1 ∧
  b_revokedTasks (post_revoke 50 None false "t2" demo_text false demo_minted.1).1 = b_revokedTasks demo_minted.1 ∧
  ∃ status, (post_revoke 50 None false "t2" demo_text false demo_minted.1).2 = Status status ∧ (status = 403 ∨ status = 409).
Proof.
  apply (revoke_endpoint_guarded 50 None false "t2" demo_text (demo_token 100) demo_minted.1);
    [apply demo_parse; reflexivity|discriminate|discriminate|].
  intros Hn. apply (f_equal (λ s, parse_token demo_minted.1 s)) in Hn. rewrite demo_parse in Hn by reflexivity. discriminate Hn.
Defined.

(** ** Where the code departs from its comments *)

(** Expiry is said to clear a token's revocation; a revoked token is refused before its
    expiry is looked at, so nothing is ever cleared. *)
Theorem revocations_never_cleared now s b : b_revoked (Validate now s b).1 = b_revoked b.
Proof.
  unfold Validate. destruct (parse_token b s) as [tok|]; [|done]. destruct (token_revoked b tok) eqn:Er; [done|].
  destruct (k_Exp tok <? now); [|done]. simpl. destruct (unlink_frame (k_ID tok) b) as (a & t & ->). simpl.
  unfold token_revoked in Er. apply orb_false_iff in Er as [[Hn%bool_decide_eq_false _]%orb_false_iff _]. set_solver.
Qed.

Definition old_disk : FsJson.store revocationFile := Store (Some (mkRevFile {["i1"%string]} ∅)) [].

(** When the revocation file cannot be read, persistence is said to be disabled; the path
    stays set, and the next revocation replaces the file: those in it are gone after
    the next restart. *)
Theorem unreadable_revocations_overwritten :
  let start rd disk := (CurrentIdentity (mkKeyFaults false false false false false) None None rd false None (Some (replicate 16 7)) disk).2 in
  match start RvUnreadable old_disk with
  | Ok b =>
      let b1 := (Revoke None false "i2" b).1 in
      match start RvRead (b_file b1) with
      | Ok b2 => b_persists b = true ∧ bool_decide ("i1"%string ∈ b_revoked b2) = false ∧ bool_decide ("i2"%string ∈ b_revoked b2) = true
      | Err _ => False
      end
  | Err _ => False
  end.
Proof. vm_compute. repeat split. Qed.
