(* ===== verification/Incident.v ===== *)
(** * The incident controller (internal/incident/controller.go)

    An anomaly is classified, repeated ones escalate, and the response runs the
    steps the action calls for: revoke, block, pause, preserve, terminate.  The
    hooks, the credential broker and the ledger act on the rest of the system, so
    the controller is stated over any state [W] they act on; a hook that is not
    installed is [None]. *)

From S2P Require Import Prelude FsJson Json Sha256 Identity TaskState.

(** [Severity] is a string type: values outside the four are possible. *)
Inductive Severity := SeverityLow | SeverityMedium | SeverityHigh | SeverityCritical | SeverityOther (s : string).

Record Anomaly := mkAnomaly { a_TaskID : string; a_Severity : Severity; a_Signal : string; a_Detail : string; a_At : Z }.

Inductive IncidentAction := ActionNone | ActionBlock | ActionRevoke | ActionPause | ActionTerminate | ActionQuarantine.
#[global] Instance IncidentAction_eq_dec : EqDecision IncidentAction.
Proof. solve_decision. Defined.

Definition action_text (a : IncidentAction) : string :=
  match a with
  | ActionNone => "none" | ActionBlock => "block" | ActionRevoke => "revoke" | ActionPause => "pause"
  | ActionTerminate => "terminate" | ActionQuarantine => "quarantine"
  end.

(** A call that may fail with an error text. *)
Definition hook (W : Type) : Type := string → W → W * option string.

Record Hooks (W : Type) := mkHooks {
  BlockNetwork : option (hook W); RevokeIdentities : option (hook W); FreezeRuntime : option (hook W);
  HookTerminate : option (hook W); Preserve : option (hook W)
}.
Arguments mkHooks {W} _ _ _ _ _. Arguments BlockNetwork {W} _. Arguments RevokeIdentities {W} _. Arguments FreezeRuntime {W} _.
Arguments HookTerminate {W} _. Arguments Preserve {W} _.

Record Controller (W : Type) := mkController {
  c_hooks : Hooks W;
  c_ledger : option (audit_row → W → W);      (* a failed append is logged *)
  c_broker : option (hook W);                 (* RevokeAllForTask *)
  c_handled : gmap string Z
}.
Arguments mkController {W} _ _ _ _. Arguments c_hooks {W} _. Arguments c_ledger {W} _. Arguments c_broker {W} _. Arguments c_handled {W} _.

Definition NewController {W} (ledger : option (audit_row → W → W)) (broker : option (hook W)) (hooks : Hooks W) : Controller W :=
  mkController hooks ledger broker ∅.

Definition Classify (a : Anomaly) : IncidentAction :=
  match a_Severity a with
  | SeverityCritical => ActionTerminate
  | SeverityHigh => ActionQuarantine
  | SeverityMedium => ActionPause
  | SeverityLow => ActionBlock
  | SeverityOther _ => ActionNone
  end.

Section Controller.
Context {W : Type}.
Implicit Types (c : Controller W) (w : W).

Definition append_row c (row : audit_row) w : W := match c_ledger c with Some f => f row w | None => w end.

Definition audit c (a : Anomaly) (act : IncidentAction) w : W :=
  append_row c (mkRow "execution" (a_TaskID a) ("incident:" +:+ action_text act) "block") w.
Definition auditRaw c (task action dec : string) w : W := append_row c (mkRow "execution" task action dec) w.

(** A hook, and what follows if it is not installed or succeeds. *)
Definition call_hook (h : option (hook W)) (task : string) (k : W → W * option string) w : W * option string :=
  match h with
  | None => k w
  | Some f => match f task w with (w, Some e) => (w, Some e) | (w, None) => k w end
  end.

Definition applyRevoke c (task : string) : W → W * option string :=
  call_hook (c_broker c) task
    (call_hook (RevokeIdentities (c_hooks c)) task (λ w, (auditRaw c task "revoke" "revoke" w, None))).
Definition applyBlock c (task : string) : W → W * option string :=
  call_hook (BlockNetwork (c_hooks c)) task (λ w, (auditRaw c task "block" "block" w, None)).
Definition applyPause c (task : string) : W → W * option string :=
  call_hook (FreezeRuntime (c_hooks c)) task (λ w, (auditRaw c task "pause" "constrain" w, None)).
Definition applyPreserve c (task : string) : W → W * option string :=
  call_hook (Preserve (c_hooks c)) task (λ w, (w, None)).

(** One stage: a failure is recorded, the first one kept. *)
Definition stage c (task name : string) (f : W → W * option string) (s : W * option string) : W * option string :=
  let '(w, firstErr) := s in
  match f w with
  | (w, None) => (w, firstErr)
  | (w, Some e) =>
      (append_row c (mkRow "execution" task ("incident:" +:+ name) "deny") w, match firstErr with None => Some e | _ => firstErr end)
  end.

Definition respond c (task : string) (act : IncidentAction) (s : W * option string) : W * option string :=
  match act with
  | ActionQuarantine | ActionTerminate =>
      stage c task "preserve" (applyPreserve c task)
        (stage c task "pause" (applyPause c task)
           (stage c task "block" (applyBlock c task) (stage c task "revoke" (applyRevoke c task) s)))
  | ActionPause => stage c task "preserve" (applyPreserve c task) (stage c task "pause" (applyPause c task) s)
  | ActionBlock => stage c task "block" (applyBlock c task) s
  | ActionRevoke => stage c task "revoke" (applyRevoke c task) s
  | ActionNone => s
  end.

Definition escalate (count : Z) (act : IncidentAction) : IncidentAction :=
  if (3 <=? count) && (bool_decide (act = ActionBlock) || bool_decide (act = ActionPause)) then ActionQuarantine else act.

Definition Handle (a : Anomaly) (c : Controller W) w : Controller W * W * (IncidentAction * option string) :=
  let count := default 0 (c_handled c !! a_TaskID a) + 1 in
  let c := mkController (c_hooks c) (c_ledger c) (c_broker c) (<[a_TaskID a := count]> (c_handled c)) in
  let act := escalate count (Classify a) in
  let w := audit c a act w in
  let '(w, firstErr) := respond c (a_TaskID a) act (w, None) in
  if bool_decide (act = ActionTerminate) then
    match HookTerminate (c_hooks c) with
    | None => (c, w, (act, firstErr))
    | Some f =>
        match f (a_TaskID a) w with
        | (w, Some e) => (c, audit c a act w, (act, Some e))
        | (w, None) => (c, w, (act, firstErr))
        end
    end
  else (c, w, (act, firstErr)).
End Controller.

(** [MoveToQuarantine], on a state that is there. *)
Definition MoveToQuarantine (now : Z) (reason : string) : method ContainerState state_err unit :=
  Transition now now StatusQuarantined ActorController ("incident: " +:+ reason).
