(* ===== verification/IncidentClaims.v ===== *)
(** * Properties of the incident response *)

From S2P Require Import Prelude FsJson Json Sha256 Identity IdentityClaims TaskState Incident.

(** ** What a response does

    Hooks that log their calls, and fail as [fails] says. *)

Inductive event := EvBroker | EvRevoke | EvBlock | EvFreeze | EvPreserve | EvTerminate | EvAudit (row : audit_row).

Definition is_call (e : event) : bool := match e with EvAudit _ => false | _ => true end.

Definition log_hook (fails : event → option string) (e : event) : hook (list event) := λ _ w, (w ++ [e], fails e).

Definition logging (fails : event → option string) (handled : gmap string Z) : Controller (list event) :=
  mkController
    (mkHooks (Some (log_hook fails EvBlock)) (Some (log_hook fails EvRevoke)) (Some (log_hook fails EvFreeze))
       (Some (log_hook fails EvTerminate)) (Some (log_hook fails EvPreserve)))
    (Some (λ row w, w ++ [EvAudit row])) (Some (log_hook fails EvBroker)) handled.

Definition calls (w : list event) : list event := filter (λ e, is_call e = true) w.

Lemma calls_app w w' : calls (w ++ w') = calls w ++ calls w'.
Proof. apply list.filter_app. Qed.

Definition severe (a : Anomaly) : bool := match a_Severity a with SeverityHigh | SeverityCritical => true | _ => false end.
Definition known (a : Anomaly) : bool := match a_Severity a with SeverityOther _ => false | _ => true end.

(** A severe anomaly, or any third one of a task. *)
Definition serious {W} (c : Controller W) (a : Anomaly) : bool :=
  severe a || (known a && (2 <=? default 0 (c_handled c !! a_TaskID a))).

Definition full_action (a : Anomaly) : IncidentAction := match a_Severity a with SeverityCritical => ActionTerminate | _ => ActionQuarantine end.

Lemma serious_action {W} (c : Controller W) a : serious c a = true →
  escalate (default 0 (c_handled c !! a_TaskID a) + 1) (Classify a) = full_action a.
Proof.
  unfold serious, severe, known, escalate, Classify, full_action. intros Hs.
  destruct (a_Severity a); simpl in *; rewrite ?andb_false_r; try done.
  - rewrite (proj2 (Z.leb_le _ _)) by lia. done.
  - rewrite (proj2 (Z.leb_le _ _)) by lia. done.
Qed.

Definition revoke_calls (fails : event → option string) : list event := EvBroker :: (if fails EvBroker then [] else [EvRevoke]).
Definition revoke_error (fails : event → option string) : option string := match fails EvBroker with None => fails EvRevoke | e => e end.

(** The first error of a sequence. *)
Definition first (errs : list (option string)) : option string := foldr (λ e r, match e with None => r | _ => e end) None errs.

(** Containment goes as far as it can.  For a severe anomaly, and for any third one of a
    task, the response revokes, then blocks the network, freezes and preserves - and
    terminates, if the anomaly is critical - in that order; a step that fails does
    not stop the later ones, and the error returned is termination's or else the
    first. *)
Theorem response_complete fails h a w :
  serious (logging fails h) a = true →
  ∃ c' es err, Handle a (logging fails h) w = (c', w ++ es, (full_action a, err)) ∧
    calls es = revoke_calls fails ++ [EvBlock; EvFreeze; EvPreserve] ++ (if bool_decide (full_action a = ActionTerminate) then [EvTerminate] else []) ∧
    err = first ((if bool_decide (full_action a = ActionTerminate) then [fails EvTerminate] else []) ++
                 [revoke_error fails; fails EvBlock; fails EvFreeze; fails EvPreserve]).
Proof.
  intros Hs. unfold Handle. rewrite (serious_action (logging fails h) a) by done.
  assert (full_action a = ActionQuarantine ∨ full_action a = ActionTerminate) as [-> | ->]
    by (unfold full_action; destruct (a_Severity a); tauto);
    (rewrite ?bool_decide_eq_true_2, ?bool_decide_eq_false_2 by done);
    unfold respond, stage, applyRevoke, applyBlock, applyPause, applyPreserve, call_hook, auditRaw, audit, append_row, logging, log_hook,
      revoke_calls, revoke_error, first;
    simpl; destruct (fails EvBroker), (fails EvRevoke), (fails EvBlock), (fails EvFreeze), (fails EvPreserve), (fails EvTerminate); simpl;
    eexists _, _, _; (split; [rewrite <- !app_assoc; reflexivity|done]).
Qed.

Definition demo_fails (e : event) : option string := match e with EvBroker => Some "disk"%string | EvBlock => Some "tc"%string | _ => None end.

Lemma response_complete_witness :
  ∃ c' es err, Handle (mkAnomaly "t1" SeverityCritical "egress" "" 1) (logging demo_fails ∅) [] = (c', [] ++ es, (ActionTerminate, err)) ∧
    calls es = [EvBroker; EvBlock; EvFreeze; EvPreserve; EvTerminate] ∧ err = Some "disk"%string.
Proof. apply (response_complete demo_fails ∅ (mkAnomaly "t1" SeverityCritical "egress" "" 1) []). reflexivity. Defined.

(** ** Tokens after an incident

    The controller over a state with the broker in it: the other hooks and the ledger
    leave the broker alone. *)

Section Tokens.
Context `{TokenJSON} {W : Type} (br : W → Broker).

Definition keeps (h : option (hook W)) : Prop := match h with None => True | Some f => ∀ task w, br (f task w).1 = br w end.

Record wired (c : Controller W) : Prop := {
  wi_block : keeps (BlockNetwork (c_hooks c)); wi_revoke : keeps (RevokeIdentities (c_hooks c)); wi_freeze : keeps (FreezeRuntime (c_hooks c));
  wi_preserve : keeps (Preserve (c_hooks c)); wi_terminate : keeps (HookTerminate (c_hooks c));
  wi_ledger : match c_ledger c with None => True | Some f => ∀ row w, br (f row w) = br w end;
  wi_broker : ∃ f, c_broker c = Some f ∧ ∀ task w, ∃ wr af, br (f task w).1 = (RevokeAllForTask wr af task (br w)).1.1
}.

Lemma append_keeps c row w : wired c → br (append_row c row w) = br w.
Proof. intros Hc. unfold append_row. pose proof (wi_ledger _ Hc) as Hl. by destruct (c_ledger c). Qed.

Lemma hook_keeps c h task k w : wired c → keeps h → (∀ w, br (k w).1 = br w) → br (call_hook h task k w).1 = br w.
Proof.
  intros Hc Hh Hk. unfold call_hook. destruct h as [f|]; [|apply Hk]. specialize (Hh task w). destruct (f task w) as [w' [e|]]; simpl in *; [done|].
  by rewrite Hk.
Qed.

Lemma stage_br c task name f s : wired c → br (stage c task name f s).1 = br (f s.1).1.
Proof. intros Hc. destruct s as [w e]. unfold stage. simpl. destruct (f w) as [w' [t|]]; simpl; [by rewrite append_keeps|done]. Qed.

(** Of the full response, only the revocation changes the broker. *)
Lemma full_respond_br c task act s :
  wired c → act = ActionQuarantine ∨ act = ActionTerminate → br (respond c task act s).1 = br (applyRevoke c task s.1).1.
Proof.
  intros Hc Hact.
  assert (∀ w, br (applyPreserve c task w).1 = br w) as H1 by (intros w; apply (hook_keeps c); [done|by apply wi_preserve|done]).
  assert (∀ w, br (applyPause c task w).1 = br w) as H2 by (intros w; apply (hook_keeps c); [done|by apply wi_freeze|intros; by apply append_keeps]).
  assert (∀ w, br (applyBlock c task w).1 = br w) as H3 by (intros w; apply (hook_keeps c); [done|by apply wi_block|intros; by apply append_keeps]).
  destruct Hact as [-> | ->]; unfold respond; by rewrite !stage_br, H1, !stage_br, H2, !stage_br, H3, stage_br.
Qed.

Lemma revoke_br c task w : wired c → task ∈ b_revokedTasks (br (applyRevoke c task w).1).
Proof.
  intros Hc. unfold applyRevoke. destruct (wi_broker _ Hc) as (f & -> & Hf). unfold call_hook at 1.
  destruct (Hf task w) as (wr & af & Hb).
  assert (task ∈ b_revokedTasks (br (f task w).1)) as Hin.
  { rewrite Hb. unfold RevokeAllForTask. destruct (persistRevLocked wr _) as [b1 e] eqn:Ep. destruct (append af _ b1) as [b2 ok] eqn:Ea.
    apply append_frame in Ea. rewrite Ea. simpl. unfold persistRevLocked in Ep. simpl in Ep.
    destruct (b_persists (br w)); [destruct (Write _ _ _)|]; injection Ep as <- _; simpl; set_solver. }
  destruct (f task w) as [w' [e|]]; simpl in *; [done|]. rewrite (hook_keeps c); [done|done|by apply wi_revoke|]. intros w0. by apply append_keeps.
Qed.

(** C23. An incident cuts a task's credentials off.  After the response to a severe anomaly,
    or to any third one of a task, every token whose signed claim names the task is
    refused - also when the revocation could not be saved, and when every other
    step of the response failed. *)
Theorem incident_cuts_tokens c a w now s tok :
  wired c → serious c a = true → a_TaskID a ≠ EmptyString →
  let b := br (Handle a c w).1.2 in
  parse_token b s = Some tok → k_Task tok = a_TaskID a → (Validate now s b).2 = Err ErrRevoked.
Proof.
  intros Hw Hs Hne b Hp Ht. assert (a_TaskID a ∈ b_revokedTasks b) as Hin.
  { subst b. unfold Handle. rewrite (serious_action c a) by done. set (c1 := mkController _ _ _ _).
    assert (wired c1) as Hw1 by by destruct Hw. set (w1 := audit c1 a _ w).
    destruct (respond c1 (a_TaskID a) (full_action a) (w1, None)) as [w2 err] eqn:Er.
    assert (a_TaskID a ∈ b_revokedTasks (br w2)) as Hin2.
    { assert (full_action a = ActionQuarantine ∨ full_action a = ActionTerminate) as Hf by (unfold full_action; destruct (a_Severity a); tauto).
      replace w2 with (respond c1 (a_TaskID a) (full_action a) (w1, None)).1 by by rewrite Er.
      rewrite full_respond_br by done. by apply revoke_br. }
    destruct (bool_decide _); [|done]. pose proof (wi_terminate _ Hw1) as Hk. destruct (HookTerminate (c_hooks c1)) as [f|]; [|done].
    specialize (Hk (a_TaskID a) w2). destruct (f (a_TaskID a) w2) as [w3 [e|]]; simpl in *; unfold audit; rewrite ?append_keeps by done; by rewrite Hk. }
  unfold Validate. rewrite Hp. unfold token_revoked. rewrite Ht, (bool_decide_eq_false_2 (a_TaskID a = EmptyString)) by done.
  rewrite (bool_decide_eq_true_2 (a_TaskID a ∈ b_revokedTasks b)) by done. by rewrite orb_true_r.
Qed.
End Tokens.

#[local] Existing Instance demo_json.

(** A broker whose disk is full, and no other hook. *)
Definition broker_only : Controller Broker :=
  NewController None
    (Some (λ task b, let '(b, _, e) := RevokeAllForTask (Some SSync) false task b in (b, match e with Some _ => Some "disk"%string | None => None end)))
    (mkHooks None None None None None).

Lemma broker_only_wired : wired id broker_only.
Proof.
  split; try done. eexists. split; [reflexivity|]. intros task b. exists (Some SSync), false. change (id (let '(b, _, e) := RevokeAllForTask (Some SSync) false task b in (b, match e with Some _ => Some "disk"%string | None => None end)).1
    = (RevokeAllForTask (Some SSync) false task b).1.1).
  by destruct (RevokeAllForTask (Some SSync) false task b) as [[b' n] e].
Qed.

Lemma incident_cuts_tokens_witness :
  (Validate 50 demo_text (Handle (mkAnomaly "t1" SeverityHigh "egress" "" 1) broker_only demo_minted.1).1.2).2 = Err ErrRevoked.
Proof.
  apply (incident_cuts_tokens id broker_only (mkAnomaly "t1" SeverityHigh "egress" "" 1) demo_minted.1 50 demo_text (demo_token 100));
    [exact broker_only_wired|reflexivity|discriminate| |reflexivity].
  apply demo_parse. reflexivity.
Defined.

(** ** Where the code departs from its comments *)

(** Suspected exfiltration is said to end in termination and a credential leak in a
    revocation; the first is a quarantine, and the second is never chosen. *)
Theorem high_severity_not_terminated a n :
  a_Severity a = SeverityHigh → escalate n (Classify a) = ActionQuarantine.
Proof. unfold escalate, Classify. intros ->. rewrite !bool_decide_eq_false_2 by done. by rewrite andb_false_r. Qed.

Theorem revoke_never_chosen a n : escalate n (Classify a) ≠ ActionRevoke.
Proof. unfold escalate, Classify. by destruct (a_Severity a), (3 <=? n). Qed.

(** If the broker cannot save its revocations, the hook that revokes the other
    identities is not called. *)
Theorem broker_failure_skips_hook w :
  ∃ es, (applyRevoke (logging (λ e, match e with EvBroker => Some "disk"%string | _ => None end) ∅) "t1" w).1 = w ++ es ∧ EvRevoke ∉ es.
Proof. exists [EvBroker]. split; [reflexivity|]. set_solver. Qed.

(** A quarantined completed task stays completed. *)
Theorem completed_stays_out_of_quarantine :
  (MoveToQuarantine 1 "exfiltration" (blank_state StatusCompleted)).2 = Err ErrInvalidTransition.
Proof. reflexivity. Qed.
