(* ===== verification/NetIP.v ===== *)
(** * Textual IP addresses

    [net.ParseIP] and [IP.To4] of Go's standard library: dotted quads, and IPv6
    text with its ellipsis and trailing dotted quad.  An address is its sixteen
    bytes; an IPv4 address is the mapped one. *)

From stdpp Require Import pretty.
From S2P Require Import Prelude Json Strconv.

Notation chars := (list Ascii.ascii).

(** ** Dotted quads *)

(** [parseIPv4Fields]: [prev_dot] says that the previous byte was a dot (or that
    there is none), [digLen] and [val] describe the field being read and [fields]
    holds the finished ones, the last first. *)
Fixpoint ipv4_fields (l : chars) (prev_dot : bool) (digLen val : Z) (fields : list Z) : option (list Z) :=
  match l with
  | [] => if Nat.ltb (length fields) 3 then None else Some (rev (val :: fields))
  | c :: t =>
      if is_digit c then
        if (digLen =? 1) && (val =? 0) then None else
        let val := val * 10 + (code c - 48) in
        if 255 <? val then None else ipv4_fields t false (digLen + 1) val fields
      else if code c =? 46 then
        if prev_dot || bool_decide (t = []) then None else
        if Nat.eqb (length fields) 3 then None else ipv4_fields t true 0 0 (val :: fields)
      else None
  end.

Definition parseIPv4 (l : chars) : option (list Z) := ipv4_fields l true 0 0 [].

(** ** IPv6 *)

Definition hex_val (c : Ascii.ascii) : option Z :=
  if within 48 57 c then Some (code c - 48) else
  if within 97 102 c then Some (code c - 87) else
  if within 65 70 c then Some (code c - 55) else None.

(** The inner loop of [parseIPv6]: the digits of a group, how many there were,
    and the rest; a group has at most four. *)
Fixpoint hex_group (l : chars) (off acc : Z) : option (Z * Z * chars) :=
  match l with
  | [] => Some (off, acc, [])
  | c :: t =>
      match hex_val c with
      | None => Some (off, acc, l)
      | Some d => if 3 <? off then None else hex_group t (off + 1) (acc * 16 + d)
      end
  end.

(** The loop over the groups: [ip] holds the bytes read so far and [ellipsis] the
    place of the double colon.  Eight groups fill an address, so [fuel] is eight;
    running out is the loop's own bound. *)
Fixpoint ipv6_loop (fuel : nat) (s : chars) (ip : list Z) (ellipsis : option nat) : option (chars * list Z * option nat) :=
  match fuel with
  | O => Some (s, ip, ellipsis)
  | S fuel =>
      if Nat.leb 16 (length ip) then Some (s, ip, ellipsis) else
      match hex_group s 0 0 with
      | None => None
      | Some (off, acc, s') =>
          if off =? 0 then None else
          match s' with
          | [] => Some ([], ip ++ [acc / 256; acc mod 256], ellipsis)
          | c :: t =>
              if code c =? 46 then
                if bool_decide (ellipsis = None) && negb (Nat.eqb (length ip) 12) then None else
                if Nat.ltb 16 (length ip + 4) then None else
                match parseIPv4 s with
                | None => None
                | Some q => Some ([], ip ++ q, ellipsis)
                end
              else
                let ip := ip ++ [acc / 256; acc mod 256] in
                if negb (code c =? 58) then None else
                match t with
                | [] => None
                | c2 :: t2 =>
                    if code c2 =? 58 then
                      if bool_decide (is_Some ellipsis) then None else
                      match t2 with
                      | [] => Some ([], ip, Some (length ip))
                      | _ => ipv6_loop fuel t2 ip (Some (length ip))
                      end
                    else ipv6_loop fuel t ip ellipsis
                end
          end
      end
  end.

(** What follows the loop: the whole text must be used, and the ellipsis stands
    for at least one group. *)
Definition ipv6_finish (s : chars) (ip : list Z) (ellipsis : option nat) : option (list Z) :=
  match s with
  | _ :: _ => None
  | [] =>
      if Nat.ltb (length ip) 16 then
        match ellipsis with
        | None => None
        | Some e => Some (take e ip ++ replicate (16 - length ip) 0 ++ drop e ip)
        end
      else match ellipsis with Some _ => None | None => Some ip end
  end.

(** [parseIPv6] of a text without a zone; a text with one is refused by the
    caller whatever its address. *)
Definition parseIPv6 (s : chars) : option (list Z) :=
  let '(s, ellipsis) := match s with
                        | a :: b :: t => if (code a =? 58) && (code b =? 58) then (t, Some 0%nat) else (s, None)
                        | _ => (s, None)
                        end in
  match s, ellipsis with
  | [], Some _ => Some (replicate 16 0)
  | _, _ => match ipv6_loop 8 s [] ellipsis with
            | None => None
            | Some (s, ip, ellipsis) => ipv6_finish s ip ellipsis
            end
  end.

(** ** [net.ParseIP] *)

(** The first dot, colon or percent sign decides what the text is. *)
Fixpoint ip_kind (l : chars) : option bool :=
  match l with
  | [] => None
  | c :: t => if code c =? 46 then Some true else if code c =? 58 then Some false else
              if code c =? 37 then None else ip_kind t
  end.

Definition has_zone (l : chars) : bool := existsb (λ c, code c =? 37) l.

Definition mapped (q : list Z) : list Z := replicate 10 0 ++ [255; 255] ++ q.

Definition ParseIP (s : string) : option (list Z) :=
  let l := String.list_ascii_of_string s in
  match ip_kind l with
  | Some true => mapped <$> parseIPv4 l
  | Some false => if has_zone l then None else parseIPv6 l
  | None => None
  end.

Definition To4 (ip : list Z) : option (list Z) :=
  if bool_decide (take 12 ip = replicate 10 0 ++ [255; 255]) then Some (drop 12 ip) else None.

(** ** Facts *)

Example parse_quad : (ParseIP "10.0.0.100" ≫= To4) = Some [10; 0; 0; 100].
Proof. reflexivity. Qed.
Example parse_leading_zero : ParseIP "10.0.0.01" = None.
Proof. reflexivity. Qed.
Example parse_short : ParseIP "10.0.0." = None ∧ ParseIP "10.0.0" = None ∧ ParseIP "10.0.0.1.2" = None ∧ ParseIP "10.0.0.256" = None.
Proof. done. Qed.
Example parse_v6 : ParseIP "fd00::1:2" = Some ([0xfd; 0] ++ replicate 11 0 ++ [1; 0; 2]) ∧ ParseIP "::" = Some (replicate 16 0)
  ∧ ParseIP "1:2:3:4:5:6:7:8" = Some [0;1;0;2;0;3;0;4;0;5;0;6;0;7;0;8] ∧ ParseIP "1:2:3:4:5:6:7:8:9" = None
  ∧ ParseIP "1::2::3" = None ∧ ParseIP "fe80::1%eth0" = None ∧ ParseIP "1:2:3:4:5:6:7::" = Some [0;1;0;2;0;3;0;4;0;5;0;6;0;7;0;0].
Proof. done. Qed.
Example parse_mapped : (ParseIP "::ffff:10.0.0.1" ≫= To4) = Some [10; 0; 0; 1] ∧ (ParseIP "::ffff:a00:1" ≫= To4) = Some [10; 0; 0; 1].
Proof. done. Qed.

Definition is_byte (z : Z) : Prop := 0 ≤ z < 256.

Lemma is_digit_range c : is_digit c = true → 48 ≤ code c ≤ 57.
Proof. unfold is_digit. intros. bsimp. lia. Qed.

Lemma ipv4_fields_bytes l pd dl v fs r : ipv4_fields l pd dl v fs = Some r →
  is_byte v → Forall is_byte fs → (length fs ≤ 3)%nat → length r = 4%nat ∧ Forall is_byte r.
Proof.
  revert pd dl v fs. induction l as [|c t IH]; intros pd dl v fs; simpl.
  - destruct (Nat.ltb_spec (length fs) 3); [done|]. intros [= <-] Hv Hf Hl.
    rewrite length_app, length_rev. simpl. split; [lia|]. apply Forall_app. split; [by apply Forall_rev|]. by constructor.
  - destruct (is_digit c) eqn:Hd.
    + destruct (_ && _); [done|]. case_if; [done|]. intros H Hv Hf Hl. apply is_digit_range in Hd. bsimp.
      eapply IH; eauto. unfold is_byte in *. lia.
    + case_if; [|done]. destruct (_ || _); [done|]. destruct (Nat.eqb_spec (length fs) 3); [done|].
      intros H Hv Hf Hl. eapply IH; eauto; [unfold is_byte; lia|simpl; lia].
Qed.

(** What is accepted as a dotted quad is four bytes. *)
Lemma parseIPv4_bytes l q : parseIPv4 l = Some q → length q = 4%nat ∧ Forall is_byte q.
Proof. intros H. apply (ipv4_fields_bytes _ _ _ _ _ _ H); [unfold is_byte; lia|by constructor|simpl; lia]. Qed.
