(* ===== verification/PortMap.v ===== *)
(** * Published ports (internal/network/portmap.go, ingress.go)

    A mapping publishes a host port and sends what arrives there to a guest: by
    DNAT rules, or - when it carries an access token or a host mask - through a
    proxy in the process.  The mappings are recorded per task and saved as JSON.
    The host's packet filter and its ports are the class [Host]: the iptables
    command is not part of the sources. *)

From stdpp Require Import pretty gmultiset sorting.
From Stdlib Require OrdersEx.
From S2P Require Import Prelude Json Strconv NetIP FsJson.

(** ** Data *)

Record PortMapping : Type := mkMapping {
  pm_TaskID : string; pm_HostPort : Z; pm_GuestPort : Z; pm_GuestIP : string; pm_Protocol : string;
  pm_CreatedAt : Z; pm_AccessToken : string; pm_MaskRequestHost : string
}.

#[global] Instance PortMapping_eq_dec : EqDecision PortMapping.
Proof. solve_decision. Defined.

Definition with_protocol (p : string) (m : PortMapping) : PortMapping :=
  mkMapping (pm_TaskID m) (pm_HostPort m) (pm_GuestPort m) (pm_GuestIP m) p (pm_CreatedAt m) (pm_AccessToken m) (pm_MaskRequestHost m).
Definition with_created (t : Z) (m : PortMapping) : PortMapping :=
  mkMapping (pm_TaskID m) (pm_HostPort m) (pm_GuestPort m) (pm_GuestIP m) (pm_Protocol m) t (pm_AccessToken m) (pm_MaskRequestHost m).

Definition hasIngressL7 (m : PortMapping) : bool :=
  bool_decide (pm_AccessToken m ≠ "") || bool_decide (pm_MaskRequestHost m ≠ "").

Definition argv : Type := list string.

Definition portMapRules (m : PortMapping) (apply : bool) : list argv :=
  let action := if apply then "-A" else "-D" in
  let dnat := (pm_GuestIP m +:+ ":" +:+ pretty (pm_GuestPort m))%string in
  let proto := if bool_decide (pm_Protocol m = "") then "tcp" else pm_Protocol m in
  [["iptables"; "-t"; "nat"; action; "PREROUTING"; "-p"; proto; "--dport"; pretty (pm_HostPort m); "-j"; "DNAT"; "--to-destination"; dnat];
   ["iptables"; "-t"; "nat"; action; "OUTPUT"; "-p"; proto; "--dport"; pretty (pm_HostPort m); "-j"; "DNAT"; "--to-destination"; dnat];
   ["iptables"; action; "FORWARD"; "-d"; (pm_GuestIP m +:+ "/32")%string; "-p"; proto; "--dport"; pretty (pm_GuestPort m); "-j"; "ACCEPT"]].

Definition maxIngressTokenBytes : Z := 512.
Definition maxIngressHostBytes : Z := 255.

Definition ingressPortMapRules (m : PortMapping) (apply : bool) : list argv :=
  let action := if apply then "-A" else "-D" in
  [["iptables"; action; "OUTPUT"; "-d"; (pm_GuestIP m +:+ "/32")%string; "-p"; "tcp"; "--dport"; pretty (pm_GuestPort m); "-j"; "ACCEPT"];
   ["iptables"; action; "FORWARD"; "-d"; (pm_GuestIP m +:+ "/32")%string; "-p"; "tcp"; "--dport"; pretty (pm_GuestPort m); "-j"; "ACCEPT"]].

(** The argv sets of a mapping, as every caller picks them. *)
Definition mapping_argvs (m : PortMapping) (apply : bool) : list argv :=
  if hasIngressL7 m then ingressPortMapRules m apply else portMapRules m apply.

(** How one iptables command ended: it exited, or it gave no status (the deadline
    passed, it could not be started, it was killed). *)
Inductive outcome : Type := Exit (n : Z) | NoStatus.

Inductive ipt_err : Type := IptExit (n : Z) | IptNoStatus | IptArgv.

Inductive pm_err : Type :=
| ENoTask | EHostPort | EGuestPort | EProtocol | EL7Protocol | ETokenLength | EHostLength | EHostChars | EGuestIP
| ERegistry | EConflict (task : string) | EApply (e : ipt_err) | ERemove (e : ipt_err) | EListen | ESave (e : fs_err)
| ErrNotExist.

Definition len (s : string) : Z := Z.of_nat (String.length s).

(** [strings.ContainsAny(host, " \t\r\n/")]. *)
Definition bad_host_char (c : Ascii.ascii) : bool :=
  existsb (λ k, code c =? k) [32; 9; 13; 10; 47].

Definition validatePortMapping (m : PortMapping) : result pm_err unit :=
  if bool_decide (pm_TaskID m = "") then Err ENoTask else
  if (pm_HostPort m <? 1) || (65535 <? pm_HostPort m) then Err EHostPort else
  if (pm_GuestPort m <? 1) || (65535 <? pm_GuestPort m) then Err EGuestPort else
  if negb (bool_decide (pm_Protocol m ∈ [""; "tcp"; "udp"])) then Err EProtocol else
  let* _ :=
    if hasIngressL7 m then
      if bool_decide (pm_Protocol m = "udp") then Err EL7Protocol else
      if maxIngressTokenBytes <? len (pm_AccessToken m) then Err ETokenLength else
      if maxIngressHostBytes <? len (pm_MaskRequestHost m) then Err EHostLength else
      if bool_decide (pm_MaskRequestHost m ≠ "") && existsb bad_host_char (String.list_ascii_of_string (pm_MaskRequestHost m))
      then Err EHostChars else Ok tt
    else Ok tt in
  match ParseIP (pm_GuestIP m) with
  | None => Err EGuestIP
  | Some ip => match To4 ip with None => Err EGuestIP | Some _ => Ok tt end
  end.

(** ** The host *)

Class Host (H : Type) : Type := {
  (** Running an iptables command line. *)
  iptables : argv → H → H * outcome;
  (** Binding a TCP port on all interfaces, and closing its listener. *)
  listen : Z → H → H * bool;
  close_port : Z → H → H;
}.

(** A rule as iptables stores it: table, chain, specification. *)
Definition rule : Type := string * string * list string.

Inductive ipt_op : Type := Append | Check | Delete.

Definition op_of (s : string) : option ipt_op :=
  if bool_decide (s = "-A") then Some Append else if bool_decide (s = "-C") then Some Check else
  if bool_decide (s = "-D") then Some Delete else None.

(** The command lines the package uses, read as iptables reads them. *)
Definition parse_argv (a : argv) : option (ipt_op * rule) :=
  match a with
  | cmd :: x :: y :: t =>
      if bool_decide (cmd ≠ "iptables") then None else
      if bool_decide (x = "-t") then
        match t with
        | op :: chain :: spec => (λ o, (o, (y, chain, spec))) <$> op_of op
        | _ => None
        end
      else (λ o, (o, ("filter", y, t))) <$> op_of x
  | _ => None
  end.

(** What iptables documents: [-A] adds the rule, [-D] removes one copy of it,
    [-C] tells by its status whether it is there, and a command that fails
    changes nothing (one that ended without a status may have done its work). *)
Class HostLaws (H : Type) `{Host H} : Type := {
  rules : H → gmultiset rule;
  append_law a r h : parse_argv a = Some (Append, r) →
    match iptables a h with
    | (h', Exit n) => rules h' = if n =? 0 then rules h ⊎ {[+ r +]} else rules h
    | (h', NoStatus) => rules h' = rules h ∨ rules h' = rules h ⊎ {[+ r +]}
    end;
  check_law a r h : parse_argv a = Some (Check, r) →
    rules (iptables a h).1 = rules h ∧
    ((iptables a h).2 = Exit 0 → r ∈ rules h) ∧ ((iptables a h).2 = Exit 1 → r ∉ rules h);
  delete_law a r h : parse_argv a = Some (Delete, r) →
    match iptables a h with
    | (h', Exit n) => if n =? 0 then r ∈ rules h ∧ rules h' = rules h ∖ {[+ r +]} else rules h' = rules h
    | (h', NoStatus) => rules h' = rules h ∨ rules h' = rules h ∖ {[+ r +]}
    end;
  listen_law p h : rules (listen p h).1 = rules h;
  close_law p h : rules (close_port p h) = rules h;
}.

(** A packet filter whose commands work: no command fails but for a rule that is
    not there. *)
Definition reliable (H : Type) `{HostLaws H} : Prop :=
  ∀ a op r (h : H), parse_argv a = Some (op, r) →
    (iptables a h).2 = Exit 0 ∨ (op ≠ Append ∧ (iptables a h).2 = Exit 1 ∧ r ∉ rules h).

(** ** Running iptables *)

Section Iptables.
Context {H : Type} `{Host H}.

Definition argvValid (a : argv) : bool := match a with c :: _ => bool_decide (c = "iptables") | [] => false end.

Definition runIptables (a : argv) (h : H) : H * option ipt_err :=
  if negb (argvValid a) then (h, Some IptArgv) else
  match iptables a h with
  | (h, Exit n) => (h, if n =? 0 then None else Some (IptExit n))
  | (h, NoStatus) => (h, Some IptNoStatus)
  end.

Definition exitCode (e : ipt_err) : Z := match e with IptExit n => n | _ => -1 end.

(** The command line with its first [-D] replaced by [-C]. *)
Fixpoint check_of (a : argv) : argv :=
  match a with
  | [] => []
  | tok :: t => if bool_decide (tok = "-D") then "-C" :: t else tok :: check_of t
  end.

Definition runIptablesDelete (del : argv) (h : H) : H * option ipt_err :=
  if negb (argvValid del) then (h, Some IptArgv) else
  match runIptables (check_of del) h with
  | (h, None) => runIptables del h
  | (h, Some e) => if exitCode e =? 1 then (h, None) else runIptables del h
  end.

(** The roll back of [AddPortMapping]: its errors are dropped. *)
Definition rollback (rules : list argv) (h : H) : H :=
  fold_left (λ h a, (runIptablesDelete a h).1) rules h.

(** The loops over the command lines of a mapping. *)
Fixpoint apply_rules (all todo : list argv) (h : H) : H * option ipt_err :=
  match todo with
  | [] => (h, None)
  | a :: t => match runIptables a h with
              | (h, None) => apply_rules all t h
              | (h, Some e) => (rollback all h, Some e)
              end
  end.

Fixpoint remove_rules (todo : list argv) (h : H) : H * option ipt_err :=
  match todo with
  | [] => (h, None)
  | a :: t => match runIptablesDelete a h with
              | (h, None) => remove_rules t h
              | (h, Some e) => (h, Some e)
              end
  end.
End Iptables.

(** ** The proxy (ingress.go) *)

Record ingressProxy : Type := mkProxy {
  ip_taskID : string; ip_hostPort : Z; ip_target : string; ip_accessToken : string; ip_maskHost : string
}.

Definition ingressKey (taskID : string) (hostPort : Z) : string := (taskID +:+ "/" +:+ pretty hostPort)%string.

(** [net.JoinHostPort]: an address with a colon goes into brackets. *)
Definition JoinHostPort (host port : string) : string :=
  if existsb (λ c, code c =? 58) (String.list_ascii_of_string host)
  then ("[" +:+ host +:+ "]:" +:+ port)%string else (host +:+ ":" +:+ port)%string.

(** What the handler looks at in a request: the header, the query, the host. *)
Record http_request : Type := mkHTTP { hr_header_token : string; hr_query_token : string; hr_Host : string }.

Inductive http_reply : Type :=
| Unauthorized
| Forward (target host : string).

Definition authorized (p : ingressProxy) (r : http_request) : bool :=
  if bool_decide (ip_accessToken p = "") then true else
  let got := hr_header_token r in
  let got := if bool_decide (got = "") then hr_query_token r else got in
  bool_decide (got = ip_accessToken p).

(** The handler and the director of the reverse proxy. *)
Definition serve (p : ingressProxy) (r : http_request) : http_reply :=
  if negb (authorized p r) then Unauthorized else
  Forward (ip_target p) (if bool_decide (ip_maskHost p = "") then hr_Host r else ip_maskHost p).

(** ** The registry *)

Notation mappings := (gmap string (list PortMapping)).

(** What [portmappings.json] holds: a dump, or bytes that do not decode. *)
Inductive dump : Type := Dump (l : list PortMapping) | Undecodable.

(** Every mapping of the registry.  Go's iteration order is arbitrary;
    [dump_of_any_order] and [listing_stable] show it does not matter. *)
Definition all_mappings (r : mappings) : list PortMapping := concat (snd <$> map_to_list r).

Definition load_one (r : mappings) (m : PortMapping) : mappings :=
  <[pm_TaskID m := default [] (r !! pm_TaskID m) ++ [m]]> r.
Definition load_list (l : list PortMapping) : mappings := fold_left load_one l ∅.

(** What [LoadPortMapRegistry] makes of the file. *)
Definition load_dump (f : option dump) : mappings :=
  match f with Some (Dump l) => load_list l | _ => ∅ end.

(** The process-wide state of the package and the host under it: the singleton
    reg_of (absent before the first use), its file, the running proxies. *)
Record netstate (H : Type) : Type := mkNet {
  ns_host : H;
  ns_reg : option mappings;
  ns_file : store dump;
  ns_proxies : gmap string ingressProxy
}.
Arguments mkNet {H} _ _ _ _.
Arguments ns_host {H} _.
Arguments ns_reg {H} _.
Arguments ns_file {H} _.
Arguments ns_proxies {H} _.

(** What the system does during one call: whether the state directory can be
    made and the file read, which step of the save fails, and the time. *)
Record call_io : Type := mkIO { io_mkdir : bool; io_read : bool; io_save : option io_step; io_now : Z }.

Section Registry.
Context {H : Type} `{Host H}.
Implicit Types (s : netstate H).

Definition set_host (h : H) s : netstate H := mkNet h (ns_reg s) (ns_file s) (ns_proxies s).
Definition set_reg (r : mappings) s : netstate H := mkNet (ns_host s) (Some r) (ns_file s) (ns_proxies s).
Definition set_proxies (p : gmap string ingressProxy) s : netstate H := mkNet (ns_host s) (ns_reg s) (ns_file s) p.

(** The map behind the registry pointer. *)
Definition reg_of s : mappings := default ∅ (ns_reg s).

Definition LoadPortMapRegistry (io : call_io) : method (netstate H) pm_err unit := λ s,
  match ns_reg s with
  | Some _ => (s, Ok tt)
  | None =>
      if negb (io_mkdir io) then (s, Err ERegistry) else
      (set_reg (if io_read io then load_dump (st_target (ns_file s)) else ∅) s, Ok tt)
  end.

Definition save (io : call_io) : method (netstate H) pm_err unit := λ s,
  let '(f, e) := Write (io_save io) (Dump (all_mappings (reg_of s))) (ns_file s) in
  (mkNet (ns_host s) (ns_reg s) f (ns_proxies s), match e with None => Ok tt | Some e => Err (ESave e) end).

Definition startIngressProxy (m : PortMapping) : method (netstate H) pm_err unit := λ s,
  let target := JoinHostPort (pm_GuestIP m) (pretty (pm_GuestPort m)) in
  let '(h, ok) := listen (pm_HostPort m) (ns_host s) in
  let s := set_host h s in
  if negb ok then (s, Err EListen) else
  let p := mkProxy (pm_TaskID m) (pm_HostPort m) target (pm_AccessToken m) (pm_MaskRequestHost m) in
  (set_proxies (<[ingressKey (pm_TaskID m) (pm_HostPort m) := p]> (ns_proxies s)) s, Ok tt).

Definition stopIngressProxy (taskID : string) (hostPort : Z) s : netstate H :=
  let k := ingressKey taskID hostPort in
  let h := match ns_proxies s !! k with Some p => close_port (ip_hostPort p) (ns_host s) | None => ns_host s end in
  set_host h (set_proxies (delete k (ns_proxies s)) s).

Definition stopTaskIngressProxies (taskID : string) s : netstate H :=
  let victims := filter (λ kp, ip_taskID kp.2 = taskID) (ns_proxies s) in
  let h := fold_left (λ h p, close_port (ip_hostPort p) h) (snd <$> map_to_list victims) (ns_host s) in
  set_host h (set_proxies (filter (λ kp, ip_taskID kp.2 ≠ taskID) (ns_proxies s)) s).

(** A mapping that already has the protocol and the port. *)
Definition same_port (proto : string) (port : Z) (ex : PortMapping) : bool :=
  bool_decide (pm_Protocol ex = proto) && (pm_HostPort ex =? port).

Definition conflict (m : PortMapping) (r : mappings) : option PortMapping :=
  snd <$> list_find (λ ex, same_port (pm_Protocol m) (pm_HostPort m) ex = true) (all_mappings r).

Definition default_tcp (p : string) : string := if bool_decide (p = "") then "tcp" else p.

Definition AddPortMapping (io : call_io) (m : PortMapping) : method (netstate H) pm_err unit :=
  let m := with_protocol (default_tcp (pm_Protocol m)) m in
  do* _ <- glift (validatePortMapping m);
  do* _ <- LoadPortMapRegistry io;
  do* s <- gget;
  match conflict m (reg_of s) with
  | Some ex => gfail (EConflict (pm_TaskID ex))
  | None =>
      let rules := mapping_argvs m true in
      do* _ <- (λ s, let '(h, e) := apply_rules rules rules (ns_host s) in
                     (set_host h s, match e with None => Ok tt | Some e => Err (EApply e) end));
      do* _ <- (if hasIngressL7 m
                then λ s, match startIngressProxy m s with
                          | (s, Err e) => (set_host (rollback rules (ns_host s)) s, Err e)
                          | r => r
                          end
                else gret tt);
      let m := with_created (io_now io) m in
      do* _ <- gput (λ s, set_reg (<[pm_TaskID m := default [] (reg_of s !! pm_TaskID m) ++ [m]]> (reg_of s)) s);
      save io
  end.

Definition DeletePortMapping (io : call_io) (taskID : string) (hostPort : Z) (proto : string) :
    method (netstate H) pm_err unit :=
  let proto := default_tcp proto in
  do* _ <- LoadPortMapRegistry io;
  do* s <- gget;
  let ms := default [] (reg_of s !! taskID) in
  match list_find (λ ex, same_port proto hostPort ex = true) ms with
  | None => gfail ErrNotExist
  | Some (i, ex) =>
      do* _ <- (λ s, let '(h, e) := remove_rules (mapping_argvs ex false) (ns_host s) in
                     (set_host h s, match e with None => Ok tt | Some e => Err (ERemove e) end));
      do* _ <- (if hasIngressL7 ex then gput (stopIngressProxy taskID hostPort) else gret tt);
      let ms := take i ms ++ drop (S i) ms in
      do* _ <- gput (λ s, set_reg (if bool_decide (ms = []) then delete taskID (reg_of s)
                                   else <[taskID := ms]> (reg_of s)) s);
      save io
  end.

Definition CleanupTaskPortMappings (io : call_io) (taskID : string) : method (netstate H) pm_err unit :=
  do* _ <- LoadPortMapRegistry io;
  do* s <- gget;
  match default [] (reg_of s !! taskID) with
  | [] => gret tt
  | ms =>
      do* _ <- gput (λ s, set_host (fold_left (λ h m, rollback (mapping_argvs m false) h) ms (ns_host s)) s);
      do* _ <- gput (stopTaskIngressProxies taskID);
      do* _ <- gput (λ s, set_reg (delete taskID (reg_of s)) s);
      save io
  end.

(** The order of the listing: task, protocol, port. *)
Definition listing_cmp (a b : PortMapping) : comparison :=
  match OrdersEx.String_as_OT.compare (pm_TaskID a) (pm_TaskID b) with
  | Eq => match OrdersEx.String_as_OT.compare (pm_Protocol a) (pm_Protocol b) with
          | Eq => Z.compare (pm_HostPort a) (pm_HostPort b)
          | c => c
          end
  | c => c
  end.
Definition listing_le (a b : PortMapping) : Prop := listing_cmp a b ≠ Gt.
#[global] Instance listing_le_dec a b : Decision (listing_le a b).
Proof. unfold listing_le. apply _. Defined.

(** [nil] when the registry cannot be opened. *)
Definition ListPortMappings (io : call_io) s : netstate H * list PortMapping :=
  match LoadPortMapRegistry io s with
  | (s, Err _) => (s, [])
  | (s, Ok _) => (s, merge_sort listing_le (all_mappings (reg_of s)))
  end.

Definition PortMappingsFor (io : call_io) (taskID : string) s : netstate H * list PortMapping :=
  match LoadPortMapRegistry io s with
  | (s, Err _) => (s, [])
  | (s, Ok _) => (s, default [] (reg_of s !! taskID))
  end.
End Registry.
