(* ===== verification/PortMapSpec.v ===== *)
(** * Published ports: the registry, its file and the packet filter

    Lemmas on [PortMap]: the registry as a list of mappings, its round trip
    through the file, the outcomes of the operations case by case, and what
    the packet filter holds after each.  The invariants are proved here for
    every run; [PortMapClaims] states the theorems. *)

From stdpp Require Import pretty gmultiset sorting.
From Stdlib Require OrdersEx.
From S2P Require Import Prelude Json Strconv NetIP FsJson PortMap.

(** ** The registry as a list *)

Lemma all_mappings_insert r t ms : all_mappings (<[t := ms]> r) ≡ₚ ms ++ all_mappings (delete t r).
Proof.
  unfold all_mappings. rewrite <- insert_delete_eq, map_to_list_insert by apply lookup_delete_eq. done.
Qed.

Lemma all_mappings_split r t : all_mappings r ≡ₚ default [] (r !! t) ++ all_mappings (delete t r).
Proof.
  destruct (r !! t) as [ms|] eqn:E; simpl.
  - by rewrite <- (insert_id r t ms E) at 1; rewrite all_mappings_insert.
  - by rewrite delete_id.
Qed.

Lemma all_mappings_add r m :
  all_mappings (<[pm_TaskID m := default [] (r !! pm_TaskID m) ++ [m]]> r) ≡ₚ m :: all_mappings r.
Proof.
  rewrite all_mappings_insert, (all_mappings_split r (pm_TaskID m)).
  rewrite <- app_assoc. symmetry. apply Permutation_middle.
Qed.

Lemma elem_of_all_mappings r m : m ∈ all_mappings r ↔ ∃ t ms, r !! t = Some ms ∧ m ∈ ms.
Proof.
  unfold all_mappings. rewrite list_elem_of_In, in_concat. split.
  - intros (ms & Hms & Hm). apply list_elem_of_In, list_elem_of_fmap in Hms as ([t ms'] & -> & Hk).
    exists t, ms'. split; [by apply elem_of_map_to_list|by apply list_elem_of_In].
  - intros (t & ms & Hr & Hm). exists ms. split; [|by apply list_elem_of_In].
    apply list_elem_of_In, list_elem_of_fmap. exists (t, ms). split; [done|by apply elem_of_map_to_list].
Qed.

(** Removing the mapping at a place of a task's list, as [DeletePortMapping] does. *)
Definition remove_at (t : string) (i : nat) (r : mappings) : mappings :=
  let ms := default [] (r !! t) in
  let ms := take i ms ++ drop (S i) ms in
  if bool_decide (ms = []) then delete t r else <[t := ms]> r.

Lemma take_drop_perm {A} (l : list A) i x : l !! i = Some x → l ≡ₚ x :: take i l ++ drop (S i) l.
Proof. intros Hi. rewrite <- (take_drop_middle l i x Hi) at 1. symmetry. apply Permutation_middle. Qed.

Lemma all_mappings_remove r t i ex : default [] (r !! t) !! i = Some ex →
  all_mappings r ≡ₚ ex :: all_mappings (remove_at t i r).
Proof.
  intros Hi. rewrite (all_mappings_split r t), (take_drop_perm _ _ _ Hi). unfold remove_at. simpl. constructor.
  case_bool_decide as E; [by rewrite E|]. by rewrite all_mappings_insert.
Qed.

(** ** Well-formed registries *)

(** A mapping filed under a task: it passed the checks and its protocol is set. *)
Record wf_mapping (t : string) (m : PortMapping) : Prop := {
  wm_task : pm_TaskID m = t;
  wm_valid : validatePortMapping m = Ok tt;
  wm_proto : pm_Protocol m ≠ ""
}.

Definition port_key (m : PortMapping) : string * Z := (pm_Protocol m, pm_HostPort m).

Record wf_reg (r : mappings) : Prop := {
  wr_tasks : map_Forall (λ t ms, ms ≠ [] ∧ Forall (wf_mapping t) ms) r;
  wr_ports : NoDup (port_key <$> all_mappings r)
}.

Lemma wf_reg_empty : wf_reg ∅.
Proof. split; [apply map_Forall_empty|]. vm_compute. constructor. Qed.

Lemma wf_reg_elem r m : wf_reg r → m ∈ all_mappings r → wf_mapping (pm_TaskID m) m.
Proof.
  intros [Ht _] (t & ms & Hr & Hm)%elem_of_all_mappings.
  destruct (Ht _ _ Hr) as [_ Hf]. rewrite list.Forall_forall in Hf. destruct (Hf _ Hm) as [<- ??]. by split.
Qed.

Lemma wf_reg_task r t m : wf_reg r → m ∈ default [] (r !! t) → wf_mapping t m.
Proof.
  intros [Ht _] Hm. destruct (r !! t) as [ms|] eqn:E; [|by apply elem_of_nil in Hm].
  destruct (Ht _ _ E) as [_ Hf]. rewrite list.Forall_forall in Hf. by apply Hf.
Qed.

Lemma wf_reg_insert (r : mappings) t ms : ms ≠ [] → Forall (wf_mapping t) ms →
  map_Forall (λ t ms, ms ≠ [] ∧ Forall (wf_mapping t) ms) r →
  map_Forall (λ t ms, ms ≠ [] ∧ Forall (wf_mapping t) ms) (<[t := ms]> r).
Proof. intros. by apply map_Forall_insert_2. Qed.

Lemma wf_reg_add r m : wf_reg r → wf_mapping (pm_TaskID m) m → port_key m ∉ port_key <$> all_mappings r →
  wf_reg (<[pm_TaskID m := default [] (r !! pm_TaskID m) ++ [m]]> r).
Proof.
  intros Hr Hm Hk. split.
  - apply wf_reg_insert; [by destruct (default _ _)| |apply Hr]. apply Forall_app. split; [|by apply Forall_singleton].
    apply list.Forall_forall. intros x Hx. by apply (wf_reg_task r).
  - rewrite all_mappings_add. simpl. constructor; [done|apply Hr].
Qed.

Lemma wf_reg_delete r t : wf_reg r → wf_reg (delete t r).
Proof.
  intros [Ht Hp]. split; [by apply map_Forall_delete|].
  rewrite (all_mappings_split r t), fmap_app in Hp. by apply list.NoDup_app in Hp as (_ & _ & ?).
Qed.

Lemma wf_reg_remove r t i ex : wf_reg r → default [] (r !! t) !! i = Some ex → wf_reg (remove_at t i r).
Proof.
  intros Hr Hi. pose proof (all_mappings_remove _ _ _ _ Hi) as Hperm. split.
  - unfold remove_at. case_bool_decide; [by apply map_Forall_delete, Hr|]. apply wf_reg_insert; [done| |apply Hr].
    apply list.Forall_forall. intros x Hx. apply (wf_reg_task r); [done|]. rewrite (take_drop_perm _ _ _ Hi). by right.
  - destruct Hr as [_ Hp]. rewrite Hperm in Hp. simpl in Hp. by inversion Hp.
Qed.

(** Ports identify the mappings of a well-formed registry. *)
Lemma wf_reg_unique r m m' : wf_reg r → m ∈ all_mappings r → m' ∈ all_mappings r → port_key m = port_key m' → m = m'.
Proof.
  intros [_ Hp] (i & Hi)%list_elem_of_lookup (j & Hj)%list_elem_of_lookup Hk.
  assert (i = j) as ->; [|congruence].
  eapply (list.NoDup_lookup _ _ _ (port_key m)); [done|rewrite list_lookup_fmap, Hi; done|rewrite list_lookup_fmap, Hj, Hk; done].
Qed.

(** ** The file *)

Lemma load_group t ms acc : ms ≠ [] → Forall (wf_mapping t) ms →
  fold_left load_one ms acc = <[t := default [] (acc !! t) ++ ms]> acc.
Proof.
  intros Hne Hf. induction ms as [|m ms IH] using rev_ind; [done|]. apply Forall_app in Hf as [Hf Hm].
  rewrite Forall_singleton in Hm. rewrite fold_left_app. destruct (decide (ms = [])) as [->|Hms].
  - simpl. unfold load_one. by rewrite (wm_task _ _ Hm).
  - rewrite IH by done. simpl. unfold load_one. rewrite (wm_task _ _ Hm), lookup_insert_eq. simpl.
    by rewrite insert_insert_eq, <- app_assoc.
Qed.

Lemma load_groups (kvs : list (string * list PortMapping)) acc :
  NoDup kvs.*1 → (∀ k, k ∈ kvs.*1 → acc !! k = None) →
  Forall (λ kv, kv.2 ≠ [] ∧ Forall (wf_mapping kv.1) kv.2) kvs →
  fold_left load_one (concat (snd <$> kvs)) acc = list_to_map kvs ∪ acc.
Proof.
  revert acc. induction kvs as [|[t ms] kvs IH]; intros acc Hnd Hacc Hf.
  { simpl. by rewrite (left_id_L ∅ (∪)). }
  apply list.NoDup_cons in Hnd as [Hni Hnd]. apply list.Forall_cons in Hf as [[Hne Hm] Hf]. simpl in *.
  rewrite fold_left_app, (load_group t ms) by done. rewrite (Hacc t) by left. simpl.
  rewrite IH; [|done| |done].
  - rewrite <- insert_union_r by (by apply not_elem_of_list_to_map_1). by rewrite insert_union_l.
  - intros k Hk. rewrite lookup_insert_ne by (by intros ->). apply Hacc. by right.
Qed.

(** In whatever order the tasks are written, reading gives the registry back. *)
Lemma dump_of_any_order r kvs : wf_reg r → kvs ≡ₚ map_to_list r → load_list (concat (snd <$> kvs)) = r.
Proof.
  intros [Ht _] Hp. unfold load_list. rewrite load_groups; [|rewrite Hp; apply NoDup_fst_map_to_list|by intros; apply lookup_empty|].
  - rewrite (right_id_L ∅ (∪)). rewrite (list_to_map_proper _ (map_to_list r)); [apply list_to_map_to_list| |done].
    rewrite Hp. apply NoDup_fst_map_to_list.
  - rewrite Hp. apply list.Forall_forall. intros [t ms] Hk%elem_of_map_to_list. by apply (Ht t).
Qed.

Lemma load_all_mappings r : wf_reg r → load_list (all_mappings r) = r.
Proof. intros Hr. by apply dump_of_any_order. Qed.

(** ** The operations case by case *)

Section Outcomes.
Context {H : Type} `{Host H}.
Implicit Types (s : netstate H) (io : call_io).

(** The registry a call works on: the one in memory, else what it read. *)
Definition opened io s (r : mappings) : Prop :=
  match ns_reg s with
  | Some r' => r = r'
  | None => io_mkdir io = true ∧ r = if io_read io then load_dump (st_target (ns_file s)) else ∅
  end.

Lemma Load_cases io s :
  LoadPortMapRegistry io s = (s, Err ERegistry) ∨ ∃ r, opened io s r ∧ LoadPortMapRegistry io s = (set_reg r s, Ok tt).
Proof.
  unfold LoadPortMapRegistry, opened. destruct s as [h [r|] f p]; simpl; [right; by exists r|].
  destruct (io_mkdir io); [right; by eexists|by left].
Qed.

(** Recording a mapping and saving. *)
Definition recorded (m : PortMapping) s : netstate H :=
  set_reg (<[pm_TaskID m := default [] (reg_of s !! pm_TaskID m) ++ [m]]> (reg_of s)) s.

Definition proxied (m : PortMapping) s : netstate H :=
  if hasIngressL7 m then (startIngressProxy m s).1 else s.

Inductive add_outcome io (m : PortMapping) s : netstate H * result pm_err unit → Prop :=
| add_invalid e : validatePortMapping m = Err e → add_outcome io m s (s, Err e)
| add_noreg : validatePortMapping m = Ok tt → add_outcome io m s (s, Err ERegistry)
| add_conflict r ex : validatePortMapping m = Ok tt → opened io s r → conflict m r = Some ex →
    add_outcome io m s (set_reg r s, Err (EConflict (pm_TaskID ex)))
| add_unapplied r h e : validatePortMapping m = Ok tt → opened io s r → conflict m r = None →
    apply_rules (mapping_argvs m true) (mapping_argvs m true) (ns_host s) = (h, Some e) →
    add_outcome io m s (set_host h (set_reg r s), Err (EApply e))
| add_unbound r h h' : validatePortMapping m = Ok tt → opened io s r → conflict m r = None →
    apply_rules (mapping_argvs m true) (mapping_argvs m true) (ns_host s) = (h, None) →
    hasIngressL7 m = true → listen (pm_HostPort m) h = (h', false) →
    add_outcome io m s (set_host (rollback (mapping_argvs m true) h') (set_reg r s), Err EListen)
| add_done r h : validatePortMapping m = Ok tt → opened io s r → conflict m r = None →
    apply_rules (mapping_argvs m true) (mapping_argvs m true) (ns_host s) = (h, None) →
    (hasIngressL7 m = true → (listen (pm_HostPort m) h).2 = true) →
    add_outcome io m s (save io (recorded (with_created (io_now io) m) (proxied m (set_host h (set_reg r s))))).

Lemma AddPortMapping_cases io m s :
  add_outcome io (with_protocol (default_tcp (pm_Protocol m)) m) s (AddPortMapping io m s).
Proof.
  unfold AddPortMapping. generalize (with_protocol (default_tcp (pm_Protocol m)) m). intros m'. unfold gbind at 1, glift.
  destruct (validatePortMapping m') as [[]|e] eqn:Ev; [|by apply add_invalid]. unfold gbind at 1.
  destruct (Load_cases io s) as [->|(r & Hr & ->)]; [by apply add_noreg|]. unfold gbind at 1, gget. simpl.
  change (reg_of (set_reg r s)) with r.
  destruct (conflict m' r) as [ex|] eqn:Ec; [by apply add_conflict|]. unfold gbind at 1. simpl.
  destruct (apply_rules _ _ _) as [h [e|]] eqn:Ea; [by eapply add_unapplied|]. unfold gbind at 1.
  destruct (hasIngressL7 m') eqn:E7.
  - destruct (listen (pm_HostPort m') h) as [h' [|]] eqn:El.
    + eapply eq_ind; [eapply (add_done io m' s r h); eauto; by rewrite El|].
      unfold proxied, startIngressProxy. rewrite E7. simpl. by rewrite El.
    + unfold startIngressProxy. simpl. rewrite El. by eapply add_unbound.
  - replace (set_host h (set_reg r s)) with (proxied m' (set_host h (set_reg r s))) by (unfold proxied; by rewrite E7).
    unfold gret. eapply add_done; eauto. congruence.
Qed.

Inductive delete_outcome io (t : string) (port : Z) (proto : string) s : netstate H * result pm_err unit → Prop :=
| del_noreg : delete_outcome io t port proto s (s, Err ERegistry)
| del_missing r : opened io s r → (∀ m, m ∈ default [] (r !! t) → same_port proto port m = false) →
    delete_outcome io t port proto s (set_reg r s, Err ErrNotExist)
| del_failed r i ex h e : opened io s r → default [] (r !! t) !! i = Some ex → same_port proto port ex = true →
    remove_rules (mapping_argvs ex false) (ns_host s) = (h, Some e) →
    delete_outcome io t port proto s (set_host h (set_reg r s), Err (ERemove e))
| del_done r i ex h s2 : opened io s r → default [] (r !! t) !! i = Some ex → same_port proto port ex = true →
    remove_rules (mapping_argvs ex false) (ns_host s) = (h, None) →
    s2 = (if hasIngressL7 ex then stopIngressProxy t port (set_host h (set_reg r s)) else set_host h (set_reg r s)) →
    delete_outcome io t port proto s (save io (set_reg (remove_at t i r) s2)).

Lemma DeletePortMapping_cases io t port proto s :
  delete_outcome io t port (default_tcp proto) s (DeletePortMapping io t port proto s).
Proof.
  unfold DeletePortMapping. set (proto' := default_tcp proto). unfold gbind at 1.
  destruct (Load_cases io s) as [->|(r & Hr & ->)]; [by apply del_noreg|]. unfold gbind at 1, gget. simpl.
  change (reg_of (set_reg r s)) with r.
  destruct (list_find _ _) as [[i ex]|] eqn:Ef.
  - apply list_find_Some in Ef as (Hi & Hp & _). unfold gbind at 1. simpl.
    destruct (remove_rules _ _) as [h [e|]] eqn:Ea; [by eapply del_failed|].
    destruct (hasIngressL7 ex) eqn:E7; (eapply eq_ind; [eapply (del_done io t port proto' s r i ex h); [done..|by rewrite E7]|done]).
  - apply del_missing; [done|]. intros m Hm. apply list_find_None in Ef. rewrite list.Forall_forall in Ef.
    apply not_true_is_false. by apply Ef.
Qed.

(** The host after the clean up of a task. *)
Definition cleaned (t : string) (ms : list PortMapping) s : netstate H :=
  stopTaskIngressProxies t (set_host (fold_left (λ h m, rollback (mapping_argvs m false) h) ms (ns_host s)) s).

Inductive cleanup_outcome io (t : string) s : netstate H * result pm_err unit → Prop :=
| cln_noreg : cleanup_outcome io t s (s, Err ERegistry)
| cln_none r : opened io s r → default [] (r !! t) = [] → cleanup_outcome io t s (set_reg r s, Ok tt)
| cln_done r : opened io s r → default [] (r !! t) ≠ [] →
    cleanup_outcome io t s (save io (set_reg (delete t r) (cleaned t (default [] (r !! t)) (set_reg r s)))).

Lemma CleanupTaskPortMappings_cases io t s : cleanup_outcome io t s (CleanupTaskPortMappings io t s).
Proof.
  unfold CleanupTaskPortMappings. unfold gbind at 1.
  destruct (Load_cases io s) as [->|(r & Hr & ->)]; [by apply cln_noreg|]. unfold gbind at 1, gget. simpl.
  change (reg_of (set_reg r s)) with r. destruct (default [] (r !! t)) as [|m ms] eqn:E; [by apply cln_none|].
  eapply eq_ind; [eapply (cln_done io t s r); [done|by rewrite E]|by rewrite E].
Qed.
End Outcomes.

(** ** Runs *)

Inductive pm_call : Type :=
| CAdd (m : PortMapping)
| CDelete (t : string) (port : Z) (proto : string)
| CCleanup (t : string)
| CList
| CFor (t : string)
| CRestart.

Lemma conflict_free m r : conflict m r = None → port_key m ∉ port_key <$> all_mappings r.
Proof.
  unfold conflict. rewrite fmap_None, list_find_None, list.Forall_forall. intros Hf (ex & Hk & Hex)%list_elem_of_fmap.
  apply (Hf ex Hex). unfold same_port. injection Hk as <- <-. by rewrite bool_decide_true, Z.eqb_refl.
Qed.

Lemma wf_added t m : validatePortMapping (with_protocol (default_tcp (pm_Protocol m)) m) = Ok tt →
  let m' := with_created t (with_protocol (default_tcp (pm_Protocol m)) m) in wf_mapping (pm_TaskID m') m'.
Proof.
  intros Hv. split; [done|exact Hv|]. simpl. unfold default_tcp. by case_bool_decide.
Qed.

Section Runs.
Context {H : Type} `{Host H}.
Implicit Types (s : netstate H) (io : call_io).

(** The process ends and starts again: its memory and its listeners are gone. *)
Definition restart s : netstate H :=
  mkNet (fold_left (λ h p, close_port (ip_hostPort p) h) (snd <$> map_to_list (ns_proxies s)) (ns_host s)) None (ns_file s) ∅.

Definition pm_do io (c : pm_call) s : netstate H * result pm_err unit :=
  match c with
  | CAdd m => AddPortMapping io m s
  | CDelete t port proto => DeletePortMapping io t port proto s
  | CCleanup t => CleanupTaskPortMappings io t s
  | CList => ((ListPortMappings io s).1, Ok tt)
  | CFor t => ((PortMappingsFor io t s).1, Ok tt)
  | CRestart => (restart s, Ok tt)
  end.

(** Every state that calls, failures, restarts and changes of the host reach from
    an empty state directory. *)
Inductive pm_reachable : netstate H → Prop :=
| pmr_init h : pm_reachable (mkNet h None (Store None []) ∅)
| pmr_call io c s : pm_reachable s → pm_reachable (pm_do io c s).1
| pmr_host h s : pm_reachable s → pm_reachable (set_host h s).

Definition file_contents s : mappings := load_dump (st_target (ns_file s)).

Definition reg_inv s : Prop := (∀ r, ns_reg s = Some r → wf_reg r) ∧ wf_reg (file_contents s).

Lemma opened_wf io s r : reg_inv s → opened io s r → wf_reg r.
Proof.
  unfold opened. intros [Hm Hf]. destruct (ns_reg s) as [r'|]; [intros ->; by apply Hm|].
  intros [_ ->]. destruct (io_read io); [done|apply wf_reg_empty].
Qed.

Lemma pm_save_run io r s : ns_reg s = Some r → wf_reg r →
  ns_reg (save io s).1 = Some r ∧ ns_host (save io s).1 = ns_host s ∧ ns_proxies (save io s).1 = ns_proxies s ∧
  file_contents (save io s).1 = (if committed (io_save io) then r else file_contents s).
Proof.
  intros Hs Hr. unfold save, reg_of, file_contents. rewrite Hs. simpl.
  pose proof (Write_spec (io_save io) (Dump (all_mappings r)) (ns_file s)) as [Hw _].
  destruct (Write _ _ _) as [f e]. simpl in *. subst f. destruct (committed _); simpl; [|done].
  by rewrite load_all_mappings.
Qed.

Lemma save_inv io r s : ns_reg s = Some r → wf_reg r → reg_inv s → reg_inv (save io s).1.
Proof.
  intros Hs Hr [_ Hf]. destruct (pm_save_run io r s Hs Hr) as (E & _ & _ & Ef). split.
  - rewrite E. by intros ? [= <-].
  - rewrite Ef. by destruct (committed _).
Qed.

Lemma set_reg_inv r s : wf_reg r → reg_inv s → reg_inv (set_reg r s).
Proof. intros Hr [_ Hf]. split; [by intros ? [= <-]|done]. Qed.

(** Only the registry and the file matter. *)
Lemma reg_inv_same s s' : ns_reg s' = ns_reg s → ns_file s' = ns_file s → reg_inv s → reg_inv s'.
Proof. unfold reg_inv, file_contents. by intros -> ->. Qed.

Lemma proxied_same m s : ns_reg (proxied m s) = ns_reg s ∧ ns_file (proxied m s) = ns_file s.
Proof.
  unfold proxied, startIngressProxy. destruct (hasIngressL7 m); [|done]. by destruct (listen _ _) as [? []].
Qed.

Lemma add_inv io m s : reg_inv s → reg_inv (AddPortMapping io m s).1.
Proof.
  intros Hi. destruct (AddPortMapping_cases io m s) as [| |r ex Hv Ho|r h e Hv Ho|r h h' Hv Ho|r h Hv Ho Hc Ha Hl];
    [done|done|..]; pose proof (opened_wf _ _ _ Hi Ho) as Hr.
  1-3: by apply (reg_inv_same (set_reg r s)); [..|apply set_reg_inv].
  unfold recorded. set (s2 := proxied _ _).
  assert (reg_of s2 = r) as -> by (unfold reg_of, s2; by rewrite (proj1 (proxied_same _ _))).
  assert (wf_reg (<[pm_TaskID m := default [] (r !! pm_TaskID m) ++ [with_created (io_now io) (with_protocol (default_tcp (pm_Protocol m)) m)]]> r))
    by (by apply (wf_reg_add r (with_created (io_now io) (with_protocol (default_tcp (pm_Protocol m)) m)));
        [|apply wf_added|apply (conflict_free _ _ Hc)]).
  eapply save_inv; [done|done|]. apply set_reg_inv; [done|].
  destruct (proxied_same (with_protocol (default_tcp (pm_Protocol m)) m) (set_host h (set_reg r s))) as [E1 E2].
  apply (reg_inv_same (set_reg r s)); [exact E1|exact E2|by apply set_reg_inv].
Qed.

Lemma delete_inv io t port proto s : reg_inv s → reg_inv (DeletePortMapping io t port proto s).1.
Proof.
  intros Hi. destruct (DeletePortMapping_cases io t port proto s) as [|r Ho|r i ex h e Ho Hx|r i ex h s2 Ho Hx Hp Ha Es2];
    [done|..]; pose proof (opened_wf _ _ _ Hi Ho) as Hr.
  1-2: by apply (reg_inv_same (set_reg r s)); [..|apply set_reg_inv].
  pose proof (wf_reg_remove _ _ _ _ Hr Hx) as Hr'. eapply save_inv; [done|done|]. apply set_reg_inv; [done|].
  apply (reg_inv_same (set_reg r s)); [by subst s2; destruct (hasIngressL7 ex)..|by apply set_reg_inv].
Qed.

Lemma cleanup_inv io t s : reg_inv s → reg_inv (CleanupTaskPortMappings io t s).1.
Proof.
  intros Hi. destruct (CleanupTaskPortMappings_cases io t s) as [|r Ho|r Ho Hn];
    [done|..]; pose proof (opened_wf _ _ _ Hi Ho) as Hr; [by apply set_reg_inv|].
  eapply save_inv; [done|by apply wf_reg_delete|]. apply set_reg_inv; [by apply wf_reg_delete|].
  by apply (reg_inv_same (set_reg r s)); [..|apply set_reg_inv].
Qed.

Lemma open_inv io s : reg_inv s → reg_inv (LoadPortMapRegistry io s).1.
Proof.
  intros Hi. destruct (Load_cases io s) as [->|(r & Hr & ->)]; [done|]. apply set_reg_inv; [|done]. by eapply opened_wf.
Qed.

Lemma pm_reachable_inv s : pm_reachable s → reg_inv s.
Proof.
  induction 1 as [h|io c s _ IH|h s _ IH].
  - split; [done|apply wf_reg_empty].
  - destruct c; simpl.
    + by apply add_inv.
    + by apply delete_inv.
    + by apply cleanup_inv.
    + apply (open_inv io) in IH. unfold ListPortMappings. by destruct (LoadPortMapRegistry io s) as [? []].
    + apply (open_inv io) in IH. unfold PortMappingsFor. by destruct (LoadPortMapRegistry io s) as [? []].
    + split; [done|apply IH].
  - exact IH.
Qed.
End Runs.

(** ** The packet filter *)

Definition mapping_rules (m : PortMapping) : list rule := omap (λ a, snd <$> parse_argv a) (mapping_argvs m true).

Lemma argvs_append m :
  Forall2 (λ a r, argvValid a = true ∧ parse_argv a = Some (Append, r)) (mapping_argvs m true) (mapping_rules m).
Proof. unfold mapping_rules, mapping_argvs. destruct (hasIngressL7 m); simpl; by repeat constructor. Qed.

Lemma argvs_delete m :
  Forall2 (λ a r, argvValid a = true ∧ parse_argv a = Some (Delete, r) ∧
                  argvValid (check_of a) = true ∧ parse_argv (check_of a) = Some (Check, r))
    (mapping_argvs m false) (mapping_rules m).
Proof. unfold mapping_rules, mapping_argvs. destruct (hasIngressL7 m); simpl; by repeat constructor. Qed.

(** The rules a registry stands for. *)
Definition filed (r : mappings) : gmultiset rule := list_to_set_disj (all_mappings r ≫= mapping_rules).

Lemma filed_perm r m l : all_mappings r ≡ₚ m :: l →
  filed r = list_to_set_disj (mapping_rules m) ⊎ list_to_set_disj (l ≫= mapping_rules).
Proof. intros Hp. unfold filed. rewrite Hp. by rewrite bind_cons, list_to_set_disj_app. Qed.

Lemma filed_split r t :
  filed r = list_to_set_disj (default [] (r !! t) ≫= mapping_rules) ⊎ filed (delete t r).
Proof. unfold filed. by rewrite (all_mappings_split r t), bind_app, list_to_set_disj_app. Qed.

Section Firewall.
Context {H : Type} `{HostLaws H}.
Implicit Types (h : H) (s : netstate H).

Lemma runIptables_append a r h h' : argvValid a = true → parse_argv a = Some (Append, r) →
  runIptables a h = (h', None) → rules h' = rules h ⊎ {[+ r +]}.
Proof.
  intros Hv Hp. unfold runIptables. rewrite Hv. simpl. pose proof (append_law a r h Hp) as Hl.
  destruct (iptables a h) as [h1 [n|]]; [|done]. destruct (n =? 0); [by intros [= <-]|done].
Qed.

Lemma runIptables_delete a r h h' : argvValid a = true → parse_argv a = Some (Delete, r) →
  runIptables a h = (h', None) → rules h' = rules h ∖ {[+ r +]}.
Proof.
  intros Hv Hp. unfold runIptables. rewrite Hv. simpl. pose proof (delete_law a r h Hp) as Hl.
  destruct (iptables a h) as [h1 [n|]]; [|done]. destruct (n =? 0); [|done]. destruct Hl as [_ Hl]. by intros [= <-].
Qed.

Lemma runIptables_check a r h : argvValid a = true → parse_argv a = Some (Check, r) →
  rules (runIptables a h).1 = rules h ∧ (∀ e, (runIptables a h).2 = Some e → exitCode e = 1 → r ∉ rules h).
Proof.
  intros Hv Hp. unfold runIptables. rewrite Hv. simpl. pose proof (check_law a r h Hp) as (Hl & _ & Hn1).
  destruct (iptables a h) as [h1 [n|]]; simpl in *; (split; [done|]); intros e He; [|by injection He as <-].
  destruct (n =? 0); [done|]. injection He as <-. simpl. intros ->. by apply Hn1.
Qed.

(** An idempotent removal that reports success has removed one copy, or there was
    none. *)
Lemma runIptablesDelete_spec a r h h' :
  argvValid a = true ∧ parse_argv a = Some (Delete, r) ∧ argvValid (check_of a) = true ∧ parse_argv (check_of a) = Some (Check, r) →
  runIptablesDelete a h = (h', None) → rules h' = rules h ∖ {[+ r +]}.
Proof.
  intros (Hv & Hp & Hcv & Hcp). unfold runIptablesDelete. rewrite Hv. simpl.
  pose proof (runIptables_check _ _ h Hcv Hcp) as [Hr Hn1]. destruct (runIptables (check_of a) h) as [h1 [e|]]; simpl in *.
  - destruct (Z.eqb_spec (exitCode e) 1) as [Ee|].
    + intros [= <-]. rewrite Hr. specialize (Hn1 e eq_refl Ee). multiset_solver.
    + intros Hd. rewrite (runIptables_delete _ _ _ _ Hv Hp Hd). by rewrite Hr.
  - intros Hd. rewrite (runIptables_delete _ _ _ _ Hv Hp Hd). by rewrite Hr.
Qed.

Lemma apply_rules_spec all todo rs h h' :
  Forall2 (λ a r, argvValid a = true ∧ parse_argv a = Some (Append, r)) todo rs →
  apply_rules all todo h = (h', None) → rules h' = rules h ⊎ list_to_set_disj rs.
Proof.
  intros Hf. revert h. induction Hf as [|a r todo rs [Hv Hp] _ IH]; intros h; simpl.
  - intros [= <-]. multiset_solver.
  - destruct (runIptables a h) as [h1 [e|]] eqn:E; [done|]. intros Ht. rewrite (IH h1 Ht).
    rewrite (runIptables_append _ _ _ _ Hv Hp E). multiset_solver.
Qed.

Lemma remove_rules_spec todo rs h h' :
  Forall2 (λ a r, argvValid a = true ∧ parse_argv a = Some (Delete, r) ∧
                  argvValid (check_of a) = true ∧ parse_argv (check_of a) = Some (Check, r)) todo rs →
  remove_rules todo h = (h', None) → rules h' = rules h ∖ list_to_set_disj rs.
Proof.
  intros Hf. revert h. induction Hf as [|a r todo rs Ha _ IH]; intros h; simpl.
  - intros [= <-]. multiset_solver.
  - destruct (runIptablesDelete a h) as [h1 [e|]] eqn:E; [done|]. intros Ht. rewrite (IH h1 Ht).
    rewrite (runIptablesDelete_spec _ _ _ _ Ha E). multiset_solver.
Qed.

(** With a working packet filter nothing fails. *)
Section Reliable.
Hypothesis Hrel : reliable H.

Lemma runIptables_reliable a op r h : argvValid a = true → parse_argv a = Some (op, r) →
  (op = Append ∨ r ∈ rules h → (runIptables a h).2 = None) ∧
  ((runIptables a h).2 = None ∨ (runIptables a h).2 = Some (IptExit 1)).
Proof.
  intros Hv Hp. unfold runIptables. rewrite Hv. simpl. pose proof (Hrel a op r h Hp) as Hr.
  destruct (iptables a h) as [h1 o]. simpl in *. destruct Hr as [->|(Ho & -> & Hn)]; simpl; [by split; [|left]|].
  split; [by intros []|by right].
Qed.

Lemma runIptablesDelete_reliable a r h :
  argvValid a = true ∧ parse_argv a = Some (Delete, r) ∧ argvValid (check_of a) = true ∧ parse_argv (check_of a) = Some (Check, r) →
  (runIptablesDelete a h).2 = None.
Proof.
  intros (Hv & Hp & Hcv & Hcp). unfold runIptablesDelete. rewrite Hv. simpl.
  destruct (runIptables_reliable _ _ _ h Hcv Hcp) as [_ Hc].
  pose proof (check_law _ r h Hcp) as (Hr & Hin & _).
  destruct (runIptables (check_of a) h) as [h1 o] eqn:E. simpl in Hc. destruct Hc as [-> | ->]; simpl; [|done].
  assert (r ∈ rules h1).
  { revert E. unfold runIptables. rewrite Hcv. simpl. destruct (iptables (check_of a) h) as [h2 [n|]]; [|done]. simpl in *.
    destruct (Z.eqb_spec n 0) as [->|]; [|done]. intros [= <-]. rewrite Hr. by apply Hin. }
  destruct (runIptables_reliable _ _ _ h1 Hv Hp) as [Hd _]. apply Hd. by right.
Qed.

Lemma remove_rules_reliable m h : (remove_rules (mapping_argvs m false) h).2 = None.
Proof.
  revert h. induction (argvs_delete m) as [|a r todo rs Ha _ IH]; intros h; simpl; [done|].
  pose proof (runIptablesDelete_reliable a r h Ha) as Hn. destruct (runIptablesDelete a h) as [h1 o]. simpl in Hn. subst o. apply IH.
Qed.

Lemma apply_rules_reliable all m h : (apply_rules all (mapping_argvs m true) h).2 = None.
Proof.
  revert h. induction (argvs_append m) as [|a r todo rs [Hv Hp] _ IH]; intros h; simpl; [done|].
  destruct (runIptables_reliable a _ r h Hv Hp) as [Hn _]. specialize (Hn (or_introl eq_refl)).
  destruct (runIptables a h) as [h1 o]. simpl in Hn. subst o. apply IH.
Qed.

Lemma rollback_reliable m h : rules (rollback (mapping_argvs m false) h) = rules h ∖ list_to_set_disj (mapping_rules m).
Proof.
  unfold rollback. revert h. induction (argvs_delete m) as [|a r todo rs Ha _ IH]; intros h; simpl; [multiset_solver|].
  rewrite IH. pose proof (runIptablesDelete_reliable a r h Ha) as Hn. destruct (runIptablesDelete a h) as [h1 o] eqn:E.
  simpl in *. subst o. rewrite (runIptablesDelete_spec _ _ _ _ Ha E). multiset_solver.
Qed.

Lemma rollbacks_reliable ms h :
  rules (fold_left (λ h m, rollback (mapping_argvs m false) h) ms h) = rules h ∖ list_to_set_disj (ms ≫= mapping_rules).
Proof.
  revert h. induction ms as [|m ms IH]; intros h; [simpl; multiset_solver|]. cbn [fold_left].
  rewrite IH, rollback_reliable, bind_cons, list_to_set_disj_app. multiset_solver.
Qed.
End Reliable.
End Firewall.

(** ** The registry and the packet filter together *)

Definition proxy_of (m : PortMapping) : ingressProxy :=
  mkProxy (pm_TaskID m) (pm_HostPort m) (JoinHostPort (pm_GuestIP m) (pretty (pm_GuestPort m))) (pm_AccessToken m) (pm_MaskRequestHost m).

Section Synced.
Context {H : Type} `{HostLaws H}.
Implicit Types (h : H) (s : netstate H).

(** The mappings in force: those in memory, else those of the file. *)
Definition contents s : mappings := match ns_reg s with Some r => r | None => file_contents s end.

(** Runs in which the file can be read, saves reach the disk and no proxy fails to
    bind its port; other failures and restarts may happen. *)
Inductive pm_synced (base : gmultiset rule) : netstate H → Prop :=
| pms_init h : rules h = base → pm_synced base (mkNet h None (Store None []) ∅)
| pms_call io c s : pm_synced base s → io_read io = true → committed (io_save io) = true →
    (pm_do io c s).2 ≠ Err EListen → pm_synced base (pm_do io c s).1.

(** A proxy runs only for a mapping in force that needs one. *)
Definition proxy_ok (r : mappings) (k : string) (p : ingressProxy) : Prop :=
  ∃ m, m ∈ all_mappings r ∧ hasIngressL7 m = true ∧ p = proxy_of m ∧ k = ingressKey (pm_TaskID m) (pm_HostPort m).

Record in_force (base : gmultiset rule) (r : mappings) s : Prop := {
  if_rules : rules (ns_host s) = base ⊎ filed r;
  if_proxies : map_Forall (proxy_ok r) (ns_proxies s)
}.

Record sync_inv (base : gmultiset rule) s : Prop := {
  sy_wf : wf_reg (contents s);
  sy_file : file_contents s = contents s;
  sy_force : in_force base (contents s) s
}.

Lemma opened_contents base io s r : sync_inv base s → io_read io = true → opened io s r → r = contents s.
Proof.
  intros _ Hio. unfold opened, contents. destruct (ns_reg s); [done|]. intros [_ ->]. by rewrite Hio.
Qed.

Lemma sync_open base s : sync_inv base s → sync_inv base (set_reg (contents s) s).
Proof. intros [Hw Hf [Hr Hp]]. by split. Qed.

(** Saving a registry whose rules and proxies are in place. *)
Lemma sync_save base io r s : wf_reg r → committed (io_save io) = true → in_force base r s →
  sync_inv base (save io (set_reg r s)).1.
Proof.
  intros Hr Hc [Hru Hp]. destruct (pm_save_run io r (set_reg r s) eq_refl Hr) as (E1 & E2 & E3 & E4).
  rewrite Hc in E4. assert (contents (save io (set_reg r s)).1 = r) as Ec by (unfold contents; by rewrite E1).
  split; rewrite Ec; [done|done|]. split; [by rewrite E2|by rewrite E3].
Qed.

Lemma in_force_add base r m t s h : in_force base r s → wf_reg r →
  rules h = rules (ns_host s) ⊎ list_to_set_disj (mapping_rules m) →
  let m' := with_created t m in
  in_force base (<[pm_TaskID m := default [] (r !! pm_TaskID m) ++ [m']]> r) (proxied m (set_host h s)).
Proof.
  intros [Hr Hp] Hw Hh m'. pose proof (all_mappings_add r m') as Hperm. change (pm_TaskID m') with (pm_TaskID m) in Hperm. split.
  - rewrite (filed_perm _ _ _ Hperm). fold (filed r). change (mapping_rules m') with (mapping_rules m).
    transitivity (rules h); [|rewrite Hh, Hr; multiset_solver].
    unfold proxied, startIngressProxy. destruct (hasIngressL7 m); [|done]. simpl.
    pose proof (listen_law (pm_HostPort m) h) as Hl. by destruct (listen _ _) as [h' []].
  - assert (map_Forall (proxy_ok (<[pm_TaskID m := default [] (r !! pm_TaskID m) ++ [m']]> r)) (ns_proxies s)) as Hold.
    { intros k p (x & Hx & Hrest)%Hp. exists x. split; [|done]. rewrite Hperm. by right. }
    unfold proxied, startIngressProxy. destruct (hasIngressL7 m) eqn:E7; [|done]. simpl.
    destruct (listen _ _) as [h' []]; simpl; [|done]. apply map_Forall_insert_2; [|done].
    exists m'. split; [rewrite Hperm; by left|done].
Qed.

Lemma in_force_remove base r t i ex port proto s h : in_force base r s → wf_reg r →
  default [] (r !! t) !! i = Some ex → same_port proto port ex = true →
  rules h = rules (ns_host s) ∖ list_to_set_disj (mapping_rules ex) →
  in_force base (remove_at t i r) (if hasIngressL7 ex then stopIngressProxy t port (set_host h s) else set_host h s).
Proof.
  intros [Hr Hp] Hw Hi Hs Hh. pose proof (all_mappings_remove _ _ _ _ Hi) as Hperm.
  assert (pm_TaskID ex = t) as Et by (apply (wm_task _ _ (wf_reg_task r t ex Hw (list_elem_of_lookup_2 _ _ _ Hi)))).
  assert (pm_HostPort ex = port) as Ep by (unfold same_port in Hs; bsimp; done).
  split.
  - transitivity (rules h).
    + unfold stopIngressProxy. destruct (hasIngressL7 ex); [|done]. simpl. destruct (ns_proxies s !! _); [apply close_law|done].
    + rewrite Hh, Hr, (filed_perm _ _ _ Hperm). fold (filed (remove_at t i r)). multiset_solver.
  - assert (∀ k p, ns_proxies s !! k = Some p → (hasIngressL7 ex = true → k ≠ ingressKey t port) → proxy_ok (remove_at t i r) k p) as Hkeep.
    { intros k p (x & Hx & Hl & Hrest & Hk)%Hp Hne. exists x. split; [|done]. rewrite Hperm in Hx.
      apply elem_of_cons in Hx as [->|]; [|done]. destruct (Hne Hl). by rewrite Hk, Et, Ep. }
    destruct (hasIngressL7 ex); simpl.
    + intros k p (Hne & Hk)%lookup_delete_Some. by apply Hkeep.
    + intros k p Hk. by apply Hkeep.
Qed.

Lemma fold_close_rules (l : list ingressProxy) h :
  rules (fold_left (λ h p, close_port (ip_hostPort p) h) l h) = rules h.
Proof. revert h. induction l as [|p l IH]; intros h; simpl; [done|]. by rewrite IH, close_law. Qed.

Lemma in_force_cleanup base r t s : reliable H → in_force base r s → wf_reg r →
  in_force base (delete t r) (cleaned t (default [] (r !! t)) s).
Proof.
  intros Hrel [Hr Hp] Hw. split.
  - unfold cleaned, stopTaskIngressProxies. simpl. rewrite fold_close_rules, rollbacks_reliable by done.
    rewrite Hr, (filed_split r t). multiset_solver.
  - intros k p (Hk & Hne)%map_lookup_filter_Some. simpl in *.
    apply Hp in Hk as (x & Hx & Hl & -> & ->). exists x. split; [|done].
    rewrite (all_mappings_split r t) in Hx. apply elem_of_app in Hx as [Hx|]; [|done].
    destruct Hne. apply (wm_task _ _ (wf_reg_task r t x Hw Hx)).
Qed.
End Synced.
