(* ===== verification/PortMapDemo.v ===== *)
(** * A packet filter in memory

    Instances of the class of [PortMap] for hosts: one whose commands work, and
    one on which chosen commands are refused.  The witnesses of [PortMapClaims]
    and the failures shown there run on them. *)

From stdpp Require Import gmultiset.
From S2P Require Import Prelude PortMap.

(** The rules in the order they were added and the ports that are bound. *)
Record demo : Type := mkDemo { d_rules : list rule; d_busy : list Z }.

Fixpoint remove_first (r : rule) (l : list rule) : list rule :=
  match l with [] => [] | x :: t => if bool_decide (x = r) then t else x :: remove_first r t end.

Definition demo_iptables (a : argv) (d : demo) : demo * outcome :=
  match parse_argv a with
  | Some (Append, r) => (mkDemo (d_rules d ++ [r]) (d_busy d), Exit 0)
  | Some (Check, r) => (d, if bool_decide (r ∈ d_rules d) then Exit 0 else Exit 1)
  | Some (Delete, r) =>
      if bool_decide (r ∈ d_rules d) then (mkDemo (remove_first r (d_rules d)) (d_busy d), Exit 0) else (d, Exit 1)
  | None => (d, Exit 2)
  end.

#[global] Instance demo_host : Host demo := {
  iptables := demo_iptables;
  listen p d := if bool_decide (p ∈ d_busy d) then (d, false) else (mkDemo (d_rules d) (p :: d_busy d), true);
  close_port p d := mkDemo (d_rules d) (filter (λ q, q ≠ p) (d_busy d))
}.

Definition demo_rules (d : demo) : gmultiset rule := list_to_set_disj (d_rules d).

Lemma remove_first_spec r l : r ∈ l → list_to_set_disj (remove_first r l) = list_to_set_disj l ∖ {[+ r +]} :> gmultiset rule.
Proof.
  induction l as [|x l IH]; simpl; [by intros ?%elem_of_nil|]. case_bool_decide as E.
  - subst x. intros _. multiset_solver.
  - intros Hin. apply elem_of_cons in Hin as [->|Hin]; [done|]. simpl. rewrite (IH Hin).
    apply (elem_of_list_to_set_disj (A := rule)) in Hin. multiset_solver.
Qed.

Lemma demo_append a r d : parse_argv a = Some (Append, r) →
  (demo_iptables a d).2 = Exit 0 ∧ demo_rules (demo_iptables a d).1 = demo_rules d ⊎ {[+ r +]}.
Proof.
  intros Hp. unfold demo_iptables. rewrite Hp. simpl. split; [done|]. unfold demo_rules. simpl.
  rewrite list_to_set_disj_app. simpl. multiset_solver.
Qed.

Lemma demo_check a r d : parse_argv a = Some (Check, r) →
  (demo_iptables a d).1 = d ∧ (demo_iptables a d).2 = if bool_decide (r ∈ demo_rules d) then Exit 0 else Exit 1.
Proof.
  intros Hp. unfold demo_iptables. rewrite Hp. simpl. split; [done|]. unfold demo_rules.
  by rewrite (bool_decide_ext _ _ (elem_of_list_to_set_disj (A := rule) r (d_rules d))).
Qed.

Lemma demo_delete a r d : parse_argv a = Some (Delete, r) →
  (r ∈ demo_rules d ∧ (demo_iptables a d).2 = Exit 0 ∧ demo_rules (demo_iptables a d).1 = demo_rules d ∖ {[+ r +]}) ∨
  (r ∉ demo_rules d ∧ demo_iptables a d = (d, Exit 1)).
Proof.
  intros Hp. unfold demo_iptables, demo_rules. rewrite Hp, elem_of_list_to_set_disj. case_bool_decide; [left|by right].
  simpl. split_and!; [done|done|by apply remove_first_spec].
Qed.

#[global] Program Instance demo_laws : HostLaws demo := { rules := demo_rules }.
Next Obligation.
  intros a r d Hp. simpl. destruct (demo_append a r d Hp) as [E1 E2]. destruct (demo_iptables a d) as [d' o]. by simpl in *; subst o.
Qed.
Next Obligation.
  intros a r d Hp. simpl. destruct (demo_check a r d Hp) as [E1 E2]. rewrite E1, E2. split; [done|].
  by case_bool_decide.
Qed.
Next Obligation.
  intros a r d Hp. simpl. destruct (demo_delete a r d Hp) as [(Hin & E1 & E2)|(_ & ->)]; [|done].
  destruct (demo_iptables a d) as [d' o]. by simpl in *; subst o.
Qed.
Next Obligation. intros p d. simpl. by case_bool_decide. Qed.
Next Obligation. done. Qed.

Lemma demo_reliable : reliable demo.
Proof.
  intros a op r d Hp. simpl. destruct op.
  - left. by apply (demo_append a r d Hp).
  - destruct (demo_check a r d Hp) as [_ ->]. case_bool_decide; [by left|by right].
  - destruct (demo_delete a r d Hp) as [(_ & -> & _)|(Hn & ->)]; [by left|by right].
Qed.

(** The same with a script of refusals: a command whose turn says [true] fails
    with status 4 and changes nothing. *)
Record flaky : Type := mkFlaky { f_script : list bool; f_demo : demo }.

Definition flaky_iptables (a : argv) (f : flaky) : flaky * outcome :=
  match f_script f with
  | true :: t => (mkFlaky t (f_demo f), Exit 4)
  | l => let '(d, o) := demo_iptables a (f_demo f) in (mkFlaky (tail l) d, o)
  end.

#[global] Instance flaky_host : Host flaky := {
  iptables := flaky_iptables;
  listen p f := let '(d, ok) := listen p (f_demo f) in (mkFlaky (f_script f) d, ok);
  close_port p f := mkFlaky (f_script f) (close_port p (f_demo f))
}.

#[global] Program Instance flaky_laws : HostLaws flaky := { rules f := demo_rules (f_demo f) }.
Next Obligation.
  intros a r [[|[] t] d] Hp; simpl; [|done|]; pose proof (append_law a r d Hp) as Hl; simpl in Hl;
    unfold flaky_iptables; simpl; by destruct (demo_iptables a d) as [d' []].
Qed.
Next Obligation.
  intros a r [[|[] t] d] Hp; simpl; [|done|]; pose proof (check_law a r d Hp) as Hl; simpl in Hl;
    unfold flaky_iptables; simpl; by destruct (demo_iptables a d) as [d' []].
Qed.
Next Obligation.
  intros a r [[|[] t] d] Hp; simpl; [|done|]; pose proof (delete_law a r d Hp) as Hl; simpl in Hl;
    unfold flaky_iptables; simpl; by destruct (demo_iptables a d) as [d' []].
Qed.
Next Obligation. intros p f. simpl. by case_bool_decide. Qed.
Next Obligation. done. Qed.
