(* ===== verification/PortMapClaims.v ===== *)
(** * Published ports: the theorems

    Who receives what arrives at a published port, for every run; that ports are
    unique, the listing stable, publishing undone by unpublishing; and the
    failures the code handles wrongly. *)

From stdpp Require Import pretty gmultiset sorting.
From Stdlib Require OrdersEx.
From S2P Require Import Prelude Json Strconv NetIP FsJson PortMap PortMapSpec PortMapDemo.

Section Invariant.
Context {H : Type} `{HostLaws H}.
Implicit Types (s : netstate H) (io : call_io).
Context (base : gmultiset rule) (Hrel : reliable H).

Lemma sync_add io m s : io_read io = true → committed (io_save io) = true → sync_inv base s →
  (AddPortMapping io m s).2 ≠ Err EListen → sync_inv base (AddPortMapping io m s).1.
Proof.
  intros Hio Hc Hs. destruct (AddPortMapping_cases io m s) as [e Hv|Hv|r ex Hv Ho|r h e Hv Ho Hcf Ha|r h h' Hv Ho|r h Hv Ho Hcf Ha Hl];
    intros Hne; [done|done|..]; rewrite (opened_contents base io s r Hs Hio Ho) in *.
  - by apply sync_open.
  - pose proof (apply_rules_reliable Hrel (mapping_argvs (with_protocol (default_tcp (pm_Protocol m)) m) true)
      (with_protocol (default_tcp (pm_Protocol m)) m) (ns_host s)) as Hn. by rewrite Ha in Hn.
  - done.
  - pose proof (apply_rules_spec _ _ _ _ _ (argvs_append _) Ha) as Hh. destruct (sync_open _ _ Hs) as [Hw _ Hf].
    unfold recorded. set (m' := with_protocol _ m) in *.
    assert (reg_of (proxied m' (set_host h (set_reg (contents s) s))) = contents s) as ->
      by (unfold reg_of; by rewrite (proj1 (proxied_same _ _))).
    apply sync_save; [|done|].
    + apply (wf_reg_add (contents s) (with_created (io_now io) m')); [done|by apply wf_added|by apply (conflict_free m')].
    + by apply (in_force_add base (contents s) m' (io_now io) (set_reg (contents s) s) h).
Qed.

Lemma sync_delete io t port proto s : io_read io = true → committed (io_save io) = true → sync_inv base s →
  sync_inv base (DeletePortMapping io t port proto s).1.
Proof.
  intros Hio Hc Hs. destruct (DeletePortMapping_cases io t port proto s) as [|r Ho|r i ex h e Ho Hx Hp Ha|r i ex h s2 Ho Hx Hp Ha Es2];
    [done|..]; rewrite (opened_contents base io s r Hs Hio Ho) in *.
  - by apply sync_open.
  - pose proof (remove_rules_reliable Hrel ex (ns_host s)) as Hn. by rewrite Ha in Hn.
  - pose proof (remove_rules_spec _ _ _ _ (argvs_delete _) Ha) as Hh. destruct (sync_open _ _ Hs) as [Hw _ Hf].
    apply sync_save; [by eapply wf_reg_remove|done|]. subst s2.
    by apply (in_force_remove base (contents s) t i ex port (default_tcp proto) (set_reg (contents s) s) h).
Qed.

Lemma sync_cleanup io t s : io_read io = true → committed (io_save io) = true → sync_inv base s →
  sync_inv base (CleanupTaskPortMappings io t s).1.
Proof.
  intros Hio Hc Hs. destruct (CleanupTaskPortMappings_cases io t s) as [|r Ho Hn|r Ho Hn];
    [done|..]; rewrite (opened_contents base io s r Hs Hio Ho) in *; destruct (sync_open _ _ Hs) as [Hw Hfl Hf]; [done|].
  apply sync_save; [by apply wf_reg_delete|done|by apply in_force_cleanup].
Qed.

Lemma sync_load io s : io_read io = true → sync_inv base s → sync_inv base (LoadPortMapRegistry io s).1.
Proof.
  intros Hio Hs. destruct (Load_cases io s) as [->|(r & Ho & ->)]; [done|].
  rewrite (opened_contents base io s r Hs Hio Ho). by apply sync_open.
Qed.

Lemma sync_restart s : sync_inv base s → sync_inv base (restart s).
Proof.
  intros [Hw Hf [Hr Hp]]. assert (contents (restart s) = contents s) as E by exact Hf.
  split; rewrite E; [done|exact Hf|]. split; [|apply map_Forall_empty]. unfold restart. simpl. by rewrite fold_close_rules.
Qed.

Lemma synced_inv s : pm_synced base s → sync_inv base s.
Proof.
  induction 1 as [h Hh|io c s _ IH Hio Hc Hne].
  - split; [apply wf_reg_empty|done|]. split; [|apply map_Forall_empty]. simpl. rewrite Hh. vm_compute (filed _). multiset_solver.
  - destruct c; simpl in *.
    + by apply sync_add.
    + by apply sync_delete.
    + by apply sync_cleanup.
    + apply (sync_load io) in IH; [|done]. unfold ListPortMappings. by destruct (LoadPortMapRegistry io s) as [? []].
    + apply (sync_load io) in IH; [|done]. unfold PortMappingsFor. by destruct (LoadPortMapRegistry io s) as [? []].
    + by apply sync_restart.
Qed.
End Invariant.

(** ** Who is reached *)

(** The specification of a DNAT rule for a published port. *)
Definition dnat_spec (proto : string) (port : Z) (t : string) : list string :=
  ["-p"; proto; "--dport"; pretty port; "-j"; "DNAT"; "--to-destination"; t].

(** Where the mapping says its traffic goes. *)
Definition guest_address (m : PortMapping) : string :=
  if hasIngressL7 m then JoinHostPort (pm_GuestIP m) (pretty (pm_GuestPort m))
  else (pm_GuestIP m +:+ ":" +:+ pretty (pm_GuestPort m))%string.

(** The request carries the token where the proxy looks for it. *)
Definition presents (r : http_request) (token : string) : Prop :=
  hr_header_token r = token ∨ (hr_header_token r = "" ∧ hr_query_token r = token).

Lemma serve_forward p r t host : serve p r = Forward t host →
  t = ip_target p ∧ (ip_accessToken p ≠ "" → presents r (ip_accessToken p)) ∧ (ip_maskHost p ≠ "" → host = ip_maskHost p).
Proof.
  unfold serve. destruct (authorized p r) eqn:Ea; [|done]. simpl. intros [= <- <-]. split; [done|]. split.
  - revert Ea. unfold authorized, presents. repeat case_bool_decide; naive_solver.
  - intros Hm. by rewrite bool_decide_false.
Qed.

Lemma elem_of_filed x r : x ∈ filed r ↔ ∃ m, m ∈ all_mappings r ∧ x ∈ mapping_rules m.
Proof. unfold filed. rewrite elem_of_list_to_set_disj, list_elem_of_bind. naive_solver. Qed.

Lemma valid_proto m : validatePortMapping m = Ok tt → pm_Protocol m ∈ [""; "tcp"; "udp"] ∧ (hasIngressL7 m = true → pm_Protocol m ≠ "udp").
Proof.
  unfold validatePortMapping. intros Hv.
  repeat match type of Hv with (if ?b then _ else _) = _ => destruct b eqn:?; [done|] end.
  split; [by apply negb_false_iff, bool_decide_eq_true in Heqb2|]. intros E7 Eu. rewrite E7, bool_decide_true in Hv by done. done.
Qed.

Lemma l7_tcp t m : wf_mapping t m → hasIngressL7 m = true → pm_Protocol m = "tcp".
Proof.
  intros [_ Hv Hne] H7. destruct (valid_proto m Hv) as [Hin Hu]. specialize (Hu H7).
  rewrite !elem_of_cons, elem_of_nil in Hin. naive_solver.
Qed.

(** A DNAT rule among the rules of a mapping is the one of its own port. *)
Lemma mapping_rules_dnat w chain proto port t m : wf_mapping w m →
  ("nat", chain, dnat_spec proto port t) ∈ mapping_rules m →
  hasIngressL7 m = false ∧ port_key m = (proto, port) ∧ t = guest_address m.
Proof.
  intros [_ _ Hne]. unfold mapping_rules, mapping_argvs, guest_address. destruct (hasIngressL7 m); simpl.
  - rewrite !elem_of_cons, elem_of_nil. intros [|[|[]]]; discriminate.
  - rewrite bool_decide_false by done. rewrite !elem_of_cons, elem_of_nil.
    intros [Ht|[Ht|[Ht|[]]]]; [| |discriminate]; injection Ht as _ -> Hp ->; apply (inj pretty) in Hp as ->; done.
Qed.

Section Reaches.
Context {H : Type} `{HostLaws H}.
Implicit Types (s : netstate H).

(** Traffic of a protocol to a port of the host gets to the address [t]: a DNAT
    rule sends it there, or a proxy on the port forwards the request, with the
    host name it shows. *)
Inductive reaches s (proto : string) (port : Z) (req : http_request) (t : string) : option string → Prop :=
| reach_dnat chain : ("nat", chain, dnat_spec proto port t) ∈ rules (ns_host s) → reaches s proto port req t None
| reach_proxy k p host : proto = "tcp" → ns_proxies s !! k = Some p → ip_hostPort p = port →
    serve p req = Forward t host → reaches s proto port req t (Some host).

(** C9. In every run in which the packet filter works, the registry can be read,
    saves reach the disk and proxies could bind their ports, with refused calls and
    restarts, what rules and proxies lead from a host port that no foreign rule
    forwards reaches a guest only if a mapping in force publishes that port and
    protocol; it is the only such mapping, the address reached is the one it names,
    a mapping with an access token is reached only by requests that present it, and
    one with a host mask shows the guest nothing else as host.  (See
    [unreadable_registry_overwritten] for a registry that cannot be read.) *)
Theorem published_port_owner base s proto port req t host :
  reliable H → pm_synced base s →
  (∀ chain t, ("nat", chain, dnat_spec proto port t) ∉ base) →
  reaches s proto port req t host →
  ∃ m, m ∈ all_mappings (contents s) ∧ port_key m = (proto, port) ∧
    (∀ m', m' ∈ all_mappings (contents s) → port_key m' = (proto, port) → m' = m) ∧
    t = guest_address m ∧
    (pm_AccessToken m ≠ "" → presents req (pm_AccessToken m)) ∧
    (pm_MaskRequestHost m ≠ "" → host = Some (pm_MaskRequestHost m)).
Proof.
  intros Hrel Hs Hb Hr. destruct (synced_inv base Hrel s Hs) as [Hw _ [Hru Hpx]].
  assert (∀ m, m ∈ all_mappings (contents s) → port_key m = (proto, port) →
    ∀ m', m' ∈ all_mappings (contents s) → port_key m' = (proto, port) → m' = m) as Hu
    by (intros m Hm Hk m' Hm' Hk'; apply (wf_reg_unique _ _ _ Hw Hm' Hm); congruence).
  destruct Hr as [chain Hin|k p host -> Hk <- Hsv].
  - rewrite Hru, gmultiset_elem_of_disj_union in Hin. destruct Hin as [Hin|Hin]; [by destruct (Hb _ _ Hin)|].
    apply elem_of_filed in Hin as (m & Hm & Hin).
    destruct (mapping_rules_dnat _ _ _ _ _ _ (wf_reg_elem _ _ Hw Hm) Hin) as (E7 & Hkey & ->).
    exists m. unfold hasIngressL7 in E7. apply orb_false_iff in E7 as [E1 E2]. apply bool_decide_eq_false in E1, E2.
    split_and!; [done|done|by apply Hu|done|done|done].
  - apply Hpx in Hk as (m & Hm & H7 & -> & ->). apply serve_forward in Hsv as (-> & Htok & Hmask).
    assert (port_key m = ("tcp", ip_hostPort (proxy_of m))) as Hkey
      by (unfold port_key; by rewrite (l7_tcp _ _ (wf_reg_elem _ _ Hw Hm) H7)).
    exists m. split_and!; [done|done|by apply Hu|unfold guest_address; by rewrite H7|done|].
    intros Hne. by rewrite (Hmask Hne).
Qed.
End Reaches.

(** ** Ports are unique *)

Section Ports.
Context {H : Type} `{Host H}.
Implicit Types (s : netstate H) (io : call_io).

(** C26. Whatever calls are made, whichever of them fail, through restarts and
    changes of the host: no two recorded mappings share a protocol and a host
    port, whatever tasks they belong to, in memory as on disk, and every recorded
    mapping passed the checks. *)
Theorem ports_unique s r : pm_reachable s → ns_reg s = Some r ∨ r = file_contents s →
  NoDup (port_key <$> all_mappings r) ∧
  ∀ m, m ∈ all_mappings r → validatePortMapping m = Ok tt ∧ (pm_Protocol m = "tcp" ∨ pm_Protocol m = "udp").
Proof.
  intros [Hm Hf]%pm_reachable_inv Hr. assert (wf_reg r) as Hw by (destruct Hr as [Hr| ->]; [by apply Hm|done]).
  split; [apply Hw|]. intros m Hin. destruct (wf_reg_elem _ _ Hw Hin) as [_ Hv Hne]. split; [done|].
  destruct (valid_proto m Hv) as [Hp _]. rewrite !elem_of_cons, elem_of_nil in Hp. naive_solver.
Qed.
End Ports.

(** ** Publishing and unpublishing *)

Lemma pm_save_ok {H} io (s s' : netstate H) : save io s = (s', Ok tt) → s' = (save io s).1 ∧ committed (io_save io) = true.
Proof.
  unfold save. pose proof (Write_spec (io_save io) (Dump (all_mappings (reg_of s))) (ns_file s)) as [_ Hw].
  destruct (Write _ _ _) as [f [e|]]; simpl in *; intros [= <-]. by rewrite Hw.
Qed.

Lemma find_appended m r ms : conflict m r = None → ms = default [] (r !! pm_TaskID m) →
  ∀ i ex t, (ms ++ [with_created t m]) !! i = Some ex → same_port (pm_Protocol m) (pm_HostPort m) ex = true → i = length ms.
Proof.
  intros Hc -> i ex t Hi Hs. destruct (decide (i = length (default [] (r !! pm_TaskID m)))); [done|].
  apply conflict_free in Hc. destruct Hc. assert (i < length (default [] (r !! pm_TaskID m)))%nat as Hlt.
  { apply lookup_lt_Some in Hi. rewrite length_app in Hi. simpl in Hi. lia. }
  rewrite lookup_app_l in Hi by done. apply list_elem_of_fmap. exists ex. split.
  - unfold same_port in Hs. bsimp. apply bool_decide_eq_true in H. unfold port_key. congruence.
  - rewrite (all_mappings_split r (pm_TaskID m)). apply elem_of_app. left. by apply list_elem_of_lookup_2 in Hi.
Qed.

Lemma remove_appended r m t : wf_reg r →
  remove_at (pm_TaskID m) (length (default [] (r !! pm_TaskID m)))
    (<[pm_TaskID m := default [] (r !! pm_TaskID m) ++ [with_created t m]]> r) = r.
Proof.
  intros Hw. unfold remove_at. rewrite lookup_insert_eq. simpl. rewrite take_app_length, drop_app_ge by lia.
  replace (S _ - _)%nat with 1%nat by lia. simpl. rewrite app_nil_r. destruct (r !! pm_TaskID m) as [ms|] eqn:E; simpl.
  - destruct (wr_tasks _ Hw _ _ E) as [Hne _]. rewrite bool_decide_false, insert_insert_eq by done. by rewrite insert_id.
  - by rewrite delete_insert_id.
Qed.

Section RoundTrip.
Context {H : Type} `{HostLaws H}.
Implicit Types (s : netstate H) (io : call_io).

Definition norm (m : PortMapping) : PortMapping := with_protocol (default_tcp (pm_Protocol m)) m.

(** A successful publication, step by step. *)
Lemma add_ok io m s s1 r : ns_reg s = Some r → reg_inv s → AddPortMapping io m s = (s1, Ok tt) →
  conflict (norm m) r = None ∧
  ns_reg s1 = Some (<[pm_TaskID m := default [] (r !! pm_TaskID m) ++ [with_created (io_now io) (norm m)]]> r) ∧
  rules (ns_host s1) = rules (ns_host s) ⊎ list_to_set_disj (mapping_rules (norm m)) ∧
  ns_proxies s1 = (if hasIngressL7 m then <[ingressKey (pm_TaskID m) (pm_HostPort m) := proxy_of m]> (ns_proxies s) else ns_proxies s).
Proof.
  intros Hs Hi He. pose proof (AddPortMapping_cases io m s) as Hc. fold (norm m) in Hc. rewrite He in Hc.
  inversion Hc as [| | | | |r' h Hv Ho Hcf Ha Hl Esv].
  unfold opened in Ho. rewrite Hs in Ho. subst r'. pose proof (proj1 Hi r Hs) as Hw.
  pose proof (apply_rules_spec _ _ _ _ _ (argvs_append _) Ha) as Hh. apply pm_save_ok in Esv as [-> _].
  unfold recorded. set (s2 := proxied _ _).
  assert (reg_of s2 = r) as -> by (unfold reg_of, s2; by rewrite (proj1 (proxied_same _ _))).
  destruct (pm_save_run io _ (set_reg (<[pm_TaskID m := default [] (r !! pm_TaskID m) ++ [with_created (io_now io) (norm m)]]> r) s2)
    eq_refl) as (E1 & E2 & E3 & _).
  { apply (wf_reg_add r (with_created (io_now io) (norm m))); [done|by apply wf_added|by apply (conflict_free (norm m))]. }
  split_and!; [done|exact E1| |].
  - etransitivity; [exact (f_equal rules E2)|]. simpl. unfold s2, proxied, startIngressProxy.
    destruct (hasIngressL7 (norm m)); [|done]. simpl.
    pose proof (listen_law (pm_HostPort m) h) as Hll. by destruct (listen _ _) as [h' []]; simpl in *; rewrite Hll.
  - etransitivity; [exact E3|]. simpl. unfold s2, proxied, startIngressProxy.
    change (hasIngressL7 (norm m)) with (hasIngressL7 m) in *. destruct (hasIngressL7 m); [|done]. simpl in *.
    specialize (Hl eq_refl). by destruct (listen _ _) as [h' []].
Qed.

(** Unpublishing undoes publishing: after both succeeded the registry is what it
    was, the packet filter holds the same rules as often as before - also where
    another mapping has equal ones - and the proxy is gone. *)
Theorem publish_roundtrip io io' m s s1 s2 : pm_reachable s → is_Some (ns_reg s) →
  AddPortMapping io m s = (s1, Ok tt) →
  DeletePortMapping io' (pm_TaskID m) (pm_HostPort m) (pm_Protocol m) s1 = (s2, Ok tt) →
  ns_reg s2 = ns_reg s ∧ rules (ns_host s2) = rules (ns_host s) ∧
  ns_proxies s2 = (if hasIngressL7 m then delete (ingressKey (pm_TaskID m) (pm_HostPort m)) (ns_proxies s) else ns_proxies s).
Proof.
  intros Hi%pm_reachable_inv [r Hr] Ha Hd. destruct (add_ok _ _ _ _ _ Hr Hi Ha) as (Hcf & Hr1 & Hru & Hpx).
  pose proof (proj1 Hi r Hr) as Hw. pose proof (DeletePortMapping_cases io' (pm_TaskID m) (pm_HostPort m) (pm_Protocol m) s1) as Hc.
  rewrite Hd in Hc. inversion Hc as [| | |r' i ex h s3 Ho Hx Hp Hrm Es3 Esv]. unfold opened in Ho. rewrite Hr1 in Ho. subst r'.
  rewrite lookup_insert_eq in Hx. simpl in Hx.
  pose proof (find_appended (norm m) r _ Hcf eq_refl i ex (io_now io) Hx Hp) as ->. simpl in *.
  rewrite list_lookup_middle in Hx by done. injection Hx as <-.
  pose proof (remove_appended r (norm m) (io_now io) Hw) as Er. simpl in Er. rewrite Er in *. clear Er.
  pose proof (remove_rules_spec _ _ _ _ (argvs_delete _) Hrm) as Hh. apply pm_save_ok in Esv as [-> _].
  change (mapping_rules (with_created (io_now io) (norm m))) with (mapping_rules (norm m)) in Hh.
  destruct (pm_save_run io' r (set_reg r s3) eq_refl Hw) as (E1 & E2 & E3 & _). rewrite Hr.
  split; [exact E1|]. rewrite E2, E3. subst s3. change (hasIngressL7 (with_created (io_now io) (norm m))) with (hasIngressL7 m).
  destruct (hasIngressL7 m) eqn:E7; simpl.
  - split; [|rewrite Hpx; apply delete_insert_eq]. rewrite Hpx, lookup_insert_eq, close_law, Hh, Hru. multiset_solver.
  - split; [|done]. rewrite Hh, Hru. multiset_solver.
Qed.
End RoundTrip.

(** ** The listing *)

Lemma str_compare_eq a b : OrdersEx.String_as_OT.compare a b = Eq ↔ a = b.
Proof.
  split.
  - intros E. pose proof (OrdersEx.String_as_OT.compare_spec a b) as S1. rewrite E in S1. by inversion S1.
  - intros ->. pose proof (OrdersEx.String_as_OT.compare_spec b b) as S1. pose proof OrdersEx.String_as_OT.lt_strorder as [Hirr _].
    inversion S1 as [E1|E1|E1]; [done|by destruct (Hirr b)..].
Qed.

Lemma str_compare_trans a b c : OrdersEx.String_as_OT.compare a b = Lt → OrdersEx.String_as_OT.compare b c = Lt →
  OrdersEx.String_as_OT.compare a c = Lt.
Proof. apply (@StrictOrder_Transitive _ _ OrdersEx.String_as_OT.lt_strorder). Qed.

Lemma str_compare_irrefl a : OrdersEx.String_as_OT.compare a a ≠ Lt.
Proof. by rewrite (proj2 (str_compare_eq a a) eq_refl). Qed.

Lemma str_compare_sym a b : OrdersEx.String_as_OT.compare b a = CompOpp (OrdersEx.String_as_OT.compare a b).
Proof.
  destruct (OrdersEx.String_as_OT.compare_spec a b) as [E|Hlt|Hgt]; simpl; [apply str_compare_eq; by rewrite E| |exact Hgt].
  destruct (OrdersEx.String_as_OT.compare b a) eqn:E; [| |done]; exfalso; apply (str_compare_irrefl a).
  - apply str_compare_eq in E as ->. exact Hlt.
  - exact (str_compare_trans a b a Hlt E).
Qed.

Lemma listing_cmp_sym a b : listing_cmp b a = CompOpp (listing_cmp a b).
Proof.
  unfold listing_cmp. rewrite (str_compare_sym (pm_TaskID a)), (str_compare_sym (pm_Protocol a)).
  destruct (OrdersEx.String_as_OT.compare _ _); [|done|done].
  destruct (OrdersEx.String_as_OT.compare _ _); [|done|done]. simpl. apply Z.compare_antisym.
Qed.

Lemma listing_cmp_eq a b : listing_cmp a b = Eq → port_key a = port_key b.
Proof.
  unfold listing_cmp, port_key. destruct (OrdersEx.String_as_OT.compare (pm_TaskID a) _) eqn:E1; try done.
  destruct (OrdersEx.String_as_OT.compare (pm_Protocol a) _) eqn:E2; try done. intros ->%Z.compare_eq_iff.
  by apply str_compare_eq in E2 as ->.
Qed.

#[global] Instance listing_le_total : Total listing_le.
Proof.
  intros a b. unfold listing_le. rewrite (listing_cmp_sym a b). destruct (listing_cmp a b); [by left..|by right].
Qed.

(** Lexicographic composition of comparisons keeps their order transitive. *)
Lemma lex_trans (ab bc ac ab' bc' ac' : comparison) :
  (ab = Lt → bc = Lt → ac = Lt) → (ab = Eq → ac = bc) → (bc = Eq → ac = ab) →
  (ab = Eq → bc = Eq → ab' ≠ Gt → bc' ≠ Gt → ac' ≠ Gt) →
  match ab with Eq => ab' | Lt => Lt | Gt => Gt end ≠ Gt → match bc with Eq => bc' | Lt => Lt | Gt => Gt end ≠ Gt →
  match ac with Eq => ac' | Lt => Lt | Gt => Gt end ≠ Gt.
Proof.
  intros Hl He1 He2 Hn. destruct ab, bc; intros H1 H2; try done.
  - rewrite (He1 eq_refl). by apply Hn.
  - by rewrite (He1 eq_refl).
  - by rewrite (He2 eq_refl).
  - by rewrite (Hl eq_refl eq_refl).
Qed.

Lemma str_lex a b c :
  let cmp := OrdersEx.String_as_OT.compare in
  (cmp a b = Lt → cmp b c = Lt → cmp a c = Lt) ∧ (cmp a b = Eq → cmp a c = cmp b c) ∧ (cmp b c = Eq → cmp a c = cmp a b).
Proof.
  simpl. split; [apply str_compare_trans|]. split; intros E%str_compare_eq; by subst.
Qed.

#[global] Instance listing_le_trans : Transitive listing_le.
Proof.
  intros a b c. unfold listing_le, listing_cmp.
  destruct (str_lex (pm_TaskID a) (pm_TaskID b) (pm_TaskID c)) as (T1 & T2 & T3).
  destruct (str_lex (pm_Protocol a) (pm_Protocol b) (pm_Protocol c)) as (P1 & P2 & P3).
  pose proof (lex_trans _ _ _ (pm_HostPort a ?= pm_HostPort b) (pm_HostPort b ?= pm_HostPort c) (pm_HostPort a ?= pm_HostPort c) P1 P2 P3) as HP.
  apply (lex_trans _ _ _ _ _ _ T1 T2 T3). intros _ _. apply HP. intros _ _. rewrite !Z.compare_le_iff. lia.
Qed.

(** The listing is the one sorted arrangement of the recorded mappings by task,
    protocol and port: neither the order in which the map is walked nor the
    sorting algorithm shows in it. *)
Theorem listing_stable {H} `{Host H} io (s : netstate H) : pm_reachable s →
  (LoadPortMapRegistry io s).2 = Ok tt →
  let l := (ListPortMappings io s).2 in
  StronglySorted listing_le l ∧ l ≡ₚ all_mappings (reg_of (LoadPortMapRegistry io s).1) ∧
  ∀ k, k ≡ₚ all_mappings (reg_of (LoadPortMapRegistry io s).1) → StronglySorted listing_le k → k = l.
Proof.
  intros Hi%pm_reachable_inv Hok. pose proof (open_inv io s Hi) as [Hw _]. unfold ListPortMappings.
  destruct (Load_cases io s) as [E|(r & Hr & E)]; rewrite E in *; [done|]. simpl in *. change (reg_of (set_reg r s)) with r.
  specialize (Hw r eq_refl). assert (StronglySorted listing_le (merge_sort listing_le (all_mappings r))) as Hs
    by (apply (StronglySorted_merge_sort listing_le)).
  split; [done|]. split; [apply merge_sort_Permutation|]. intros k Hk Hks.
  apply (StronglySorted_unique_strong listing_le); [|done|done|by rewrite merge_sort_Permutation].
  intros x y Hx Hy H1 H2. rewrite Hk in Hx. rewrite merge_sort_Permutation in Hy. apply (wf_reg_unique r); [done..|].
  apply listing_cmp_eq. unfold listing_le in H1, H2. rewrite (listing_cmp_sym x y) in H2. by destruct (listing_cmp x y).
Qed.

(** ** Witnesses *)

Definition good_io : call_io := mkIO true true None 7.
Definition start {H} (h : H) : netstate H := mkNet h None (Store None []) ∅.

(** A gated web port, a plain port with the same target, and another task's. *)
Definition web : PortMapping := mkMapping "web" 8080 80 "10.0.0.100" "" 0 "secret" "inner".
Definition plain80 : PortMapping := mkMapping "web" 8081 80 "10.0.0.100" "tcp" 0 "" "".
Definition gated2 : PortMapping := mkMapping "web" 8082 80 "10.0.0.100" "tcp" 0 "other" "".
Definition thief : PortMapping := mkMapping "thief" 8080 22 "10.0.0.101" "tcp" 0 "" "".

Definition demo0 : demo := mkDemo [] [].
Definition demo1 : netstate demo := (AddPortMapping good_io web (start demo0)).1.
Definition demo2 : netstate demo := (AddPortMapping good_io plain80 demo1).1.

Lemma demo2_synced : pm_synced ∅ demo2.
Proof.
  apply (pms_call ∅ good_io (CAdd plain80)); [|done|done|by vm_compute].
  apply (pms_call ∅ good_io (CAdd web)); [|done|done|by vm_compute]. by apply pms_init.
Qed.

(** The thief's request for the port is refused. *)
Example taken_port : (AddPortMapping good_io thief demo2).2 = Err (EConflict "web").
Proof. by vm_compute. Qed.

Lemma published_port_owner_witness :
  let req := mkHTTP "secret" "" "public.example" in
  reaches demo2 "tcp" 8080 req "10.0.0.100:80" (Some "inner") ∧
  ∃ m, m ∈ all_mappings (contents demo2) ∧ port_key m = ("tcp", 8080) ∧
    (∀ m', m' ∈ all_mappings (contents demo2) → port_key m' = ("tcp", 8080) → m' = m) ∧
    "10.0.0.100:80" = guest_address m ∧
    (pm_AccessToken m ≠ "" → presents req (pm_AccessToken m)) ∧
    (pm_MaskRequestHost m ≠ "" → Some "inner" = Some (pm_MaskRequestHost m)).
Proof.
  intros req.
  assert (reaches demo2 "tcp" 8080 req "10.0.0.100:80" (Some "inner")) as Hr.
  { apply (reach_proxy _ _ _ _ _ "web/8080" (mkProxy "web" 8080 "10.0.0.100:80" "secret" "inner")); [done|by vm_compute|done|by vm_compute]. }
  split; [exact Hr|].
  apply (published_port_owner ∅ demo2 "tcp" 8080 req "10.0.0.100:80" (Some "inner"));
    [apply demo_reliable|apply demo2_synced|intros chain t Hin; multiset_solver|exact Hr].
Defined.

Lemma ports_unique_witness : ns_reg demo2 = Some (contents demo2) ∧
  NoDup (port_key <$> all_mappings (contents demo2)) ∧
  ∀ m, m ∈ all_mappings (contents demo2) → validatePortMapping m = Ok tt ∧ (pm_Protocol m = "tcp" ∨ pm_Protocol m = "udp").
Proof.
  split; [by vm_compute|]. apply (ports_unique demo2); [|left; by vm_compute].
  apply (pmr_call good_io (CAdd plain80)), (pmr_call good_io (CAdd web)), pmr_init.
Defined.

Lemma publish_roundtrip_witness :
  let s1 := (AddPortMapping good_io gated2 demo2).1 in
  let s2 := (DeletePortMapping good_io "web" 8082 "tcp" s1).1 in
  ns_reg s2 = ns_reg demo2 ∧ rules (ns_host s2) = rules (ns_host demo2) ∧
  ns_proxies s2 = delete (ingressKey "web" 8082) (ns_proxies demo2).
Proof.
  intros s1 s2. apply (publish_roundtrip good_io good_io gated2 demo2 s1 s2).
  - apply (pmr_call good_io (CAdd plain80)), (pmr_call good_io (CAdd web)), pmr_init.
  - exists (contents demo2). by vm_compute.
  - by vm_compute.
  - by vm_compute.
Defined.

(** ** What goes wrong on failures *)

(** The roll back is given the command lines that added the rules; none has a [-D]
    to turn into a check, so each is run twice more: a publication that fails
    because the port is taken leaves every rule three times. *)
Theorem failed_publish_leaves_rules :
  let '(s, r) := AddPortMapping good_io web (start (mkDemo [] [8080])) in
  r = Err EListen ∧ all_mappings (contents s) = [] ∧
  d_rules (ns_host s) ≡ₚ mapping_rules web ++ mapping_rules web ++ mapping_rules web.
Proof. vm_compute. split; [done|]. split; [done|]. solve_Permutation. Qed.

(** Two mappings to the same guest port have equal rules.  An unpublication that
    fails half way and is repeated removes the other mapping's copy. *)
Definition shared_flaky : netstate flaky :=
  (AddPortMapping good_io gated2 (AddPortMapping good_io web (start (mkFlaky (replicate 6 false ++ [true; true]) demo0))).1).1.

Theorem repeated_delete_takes_other :
  let '(s1, r1) := DeletePortMapping good_io "web" 8080 "" shared_flaky in
  let '(s2, r2) := DeletePortMapping good_io "web" 8080 "" s1 in
  r1 = Err (ERemove (IptExit 4)) ∧ r2 = Ok tt ∧
  port_key <$> all_mappings (contents s2) = [("tcp", 8082)] ∧
  mapping_rules gated2 = [("filter", "OUTPUT", ["-d"; "10.0.0.100/32"; "-p"; "tcp"; "--dport"; "80"; "-j"; "ACCEPT"]);
                          ("filter", "FORWARD", ["-d"; "10.0.0.100/32"; "-p"; "tcp"; "--dport"; "80"; "-j"; "ACCEPT"])] ∧
  d_rules (f_demo (ns_host s2)) = [("filter", "FORWARD", ["-d"; "10.0.0.100/32"; "-p"; "tcp"; "--dport"; "80"; "-j"; "ACCEPT"])].
Proof. by vm_compute. Qed.

(** After a restart the recorded mapping of the task refuses its own registration,
    though neither its proxy runs nor its rules need be there. *)
Theorem reregistration_refused :
  ns_proxies (restart demo1) = ∅ ∧ (AddPortMapping good_io web (restart demo1)).2 = Err (EConflict "web").
Proof. by vm_compute. Qed.

(** A registry file that cannot be read counts as empty: the next mapping replaces
    the file, and its port may be one whose rules are still in place. *)
Theorem unreadable_registry_overwritten :
  let '(s, r) := AddPortMapping (mkIO true false None 9) (mkMapping "b" 8081 22 "10.0.0.101" "tcp" 0 "" "") (restart demo2) in
  r = Ok tt ∧ pm_TaskID <$> all_mappings (file_contents s) = ["b"] ∧
  filter (λ r : rule, r.1 = ("nat", "PREROUTING")) (d_rules (ns_host s)) =
    [("nat", "PREROUTING", dnat_spec "tcp" 8081 "10.0.0.100:80"); ("nat", "PREROUTING", dnat_spec "tcp" 8081 "10.0.0.101:22")].
Proof. by vm_compute. Qed.
