(* ===== verification/PortMapApi.v ===== *)
(** * Published ports over HTTP (internal/api/portmap_api.go)

    The handlers that list, create and delete mappings, with the resolution of a
    task name from [e2b_compat.go].  A handler is a function of the task states
    and of the network state; its answer is the status and the body. *)

From stdpp Require Import pretty.
From S2P Require Import Prelude Json Strconv FsJson TaskState PortMap PortMapSpec PortMapDemo PortMapClaims.

(** ** Task names *)

Inductive resolve_err : Type := RList (e : state_err) | RNotExist | RAmbiguous (ids : list string).

(** The loop of [resolveSandboxID]: an exact name ends it. *)
Fixpoint resolve_loop (shortID : string) (all : list ContainerState) (matches : list string) : result resolve_err string :=
  match all with
  | [] => match matches with
          | [id] => Ok id
          | [] => Err RNotExist
          | ids => Err (RAmbiguous ids)
          end
  | st :: t =>
      if bool_decide (st_ID st = shortID) then Ok (st_ID st) else
      resolve_loop shortID t (if String.prefix shortID (st_ID st) then matches ++ [st_ID st] else matches)
  end.

(** [dirs] is the listing of an existing state directory, or an error of reading
    it. *)
Definition resolveSandboxID (dirs : option (list string)) (shortID : string) : method state_root resolve_err string := λ r,
  match ListAll dirs r with
  | (r, Err e) => (r, Err (RList e))
  | (r, Ok all) => (r, resolve_loop shortID all [])
  end.

(** ** Requests and answers *)

Record portMapRequest : Type := mkPMReq {
  rq_Task : string; rq_HostPort : Z; rq_GuestPort : Z; rq_GuestIP : string; rq_Protocol : string;
  rq_AccessToken : string; rq_MaskRequestHost : string
}.

Inductive pm_body : Type :=
| BError | BMapping (m : PortMapping) | BList (l : list PortMapping) | BNone.

Definition pm_answer : Type := Z * pm_body.

Section Handlers.
Context {H : Type} `{Host H}.

Definition api_state : Type := state_root * netstate H.

Definition listPortMaps (io : call_io) (s : api_state) : api_state * pm_answer :=
  let '(n, l) := ListPortMappings io s.2 in ((s.1, n), (200, BList l)).

(** The mapping the POST handler builds, once the task and its state are known. *)
Definition request_mapping (req : portMapRequest) (taskID : string) (st : ContainerState) : option PortMapping :=
  if bool_decide (st_Metadata st !! "dataplane" = Some "tc") then None else
  let recorded := default "" (st_Metadata st !! "guest_ip") in
  if bool_decide (rq_GuestIP req ≠ "") && bool_decide (rq_GuestIP req ≠ recorded) then None else
  let guestIP := if bool_decide (rq_GuestIP req = "") then recorded else rq_GuestIP req in
  if bool_decide (guestIP = "") then None else
  Some (mkMapping taskID (rq_HostPort req) (rq_GuestPort req) guestIP (rq_Protocol req) 0 (rq_AccessToken req) (rq_MaskRequestHost req)).

(** [req] is what [Bind] makes of the body, if it does. *)
Definition postPortMap (dirs : option (list string)) (io : call_io) (req : option portMapRequest) (s : api_state) :
    api_state * pm_answer :=
  match req with
  | None => (s, (400, BError))
  | Some req =>
      match resolveSandboxID dirs (rq_Task req) s.1 with
      | (r, Err RNotExist) => ((r, s.2), (404, BError))
      | (r, Err _) => ((r, s.2), (409, BError))
      | (r, Ok taskID) =>
          match LoadState taskID r with
          | Err _ => ((r, s.2), (404, BError))
          | Ok st =>
              match request_mapping req taskID st with
              | None => ((r, s.2), (if bool_decide (st_Metadata st !! "dataplane" = Some "tc") then 409 else 400, BError))
              | Some m => match AddPortMapping io m s.2 with
                          | (n, Err _) => ((r, n), (400, BError))
                          | (n, Ok _) => ((r, n), (201, BMapping m))
                          end
              end
          end
      end
  end.

(** [strconv.Atoi] is [ParseInt] in base ten. *)
Definition deletePortMap (dirs : option (list string)) (io : call_io) (task hostPort proto : string) (s : api_state) :
    api_state * pm_answer :=
  match resolveSandboxID dirs task s.1 with
  | (r, Err RNotExist) => ((r, s.2), (404, BError))
  | (r, Err _) => ((r, s.2), (409, BError))
  | (r, Ok taskID) =>
      match ParseInt hostPort with
      | None => ((r, s.2), (400, BError))
      | Some p =>
          if (p <? 1) || (65535 <? p) then ((r, s.2), (400, BError)) else
          match DeletePortMapping io taskID p proto s.2 with
          | (n, Err ErrNotExist) => ((r, n), (404, BError))
          | (n, Err _) => ((r, n), (500, BError))
          | (n, Ok _) => ((r, n), (204, BNone))
          end
      end
  end.
End Handlers.

(** ** The resolution of names *)

Lemma resolve_loop_spec short all acc id : short ∉ acc →
  (∀ x, x ∈ acc → String.prefix short x = true) →
  resolve_loop short all acc = Ok id ↔
  (id = short ∧ ∃ st, st ∈ all ∧ st_ID st = short) ∨
  ((∀ st, st ∈ all → st_ID st ≠ short) ∧
   acc ++ filter (λ x, String.prefix short x = true) (st_ID <$> all) = [id]).
Proof.
  revert acc. induction all as [|st all IH]; intros acc Hn Hp; simpl.
  - rewrite app_nil_r. split.
    + destruct acc as [|x [|]]; [done| |done]. intros [= ->]. right. split; [by intros ? ?%elem_of_nil|done].
    + intros [(_ & st & Hst & _)|[_ ->]]; [by apply elem_of_nil in Hst|done].
  - case_bool_decide as E.
    + rewrite E. split.
      * intros [= <-]. left. split; [done|]. exists st. split; [by left|done].
      * intros [(-> & _)|[Hne _]]; [done|]. destruct (Hne st); [by left|done].
    + rewrite IH.
      * rewrite filter_cons. destruct (String.prefix short (st_ID st)) eqn:Epre.
        -- rewrite decide_True by done. rewrite <- app_assoc. simpl. set_solver.
        -- rewrite decide_False by done. set_solver.
      * destruct (String.prefix _ _); [|done]. rewrite elem_of_app, list_elem_of_singleton. naive_solver.
      * destruct (String.prefix _ _) eqn:Epre; [|done]. intros x. rewrite elem_of_app, list_elem_of_singleton. naive_solver.
Qed.

(** A name is resolved to a task exactly when it is that task's id, or it is no
    task's id and exactly one listed id begins with it. *)
Theorem resolve_exact dirs short r id :
  (resolveSandboxID dirs short r).2 = Ok id ↔
  ∃ all, (ListAll dirs r).2 = Ok all ∧
    ((id = short ∧ ∃ st, st ∈ all ∧ st_ID st = short) ∨
     ((∀ st, st ∈ all → st_ID st ≠ short) ∧ filter (λ x, String.prefix short x = true) (st_ID <$> all) = [id])).
Proof.
  unfold resolveSandboxID. destruct (ListAll dirs r) as [r' [all|e]]; simpl.
  - rewrite (resolve_loop_spec short all [] id); [|set_solver|set_solver]. split; [eauto|]. by intros (a & [= ->] & ?).
  - split; [done|]. by intros (? & ? & _).
Qed.

(** ** Publishing over HTTP *)

(** The task of a request as its state file has it: the plane is not tc, and the
    address is the recorded one. *)
Lemma request_mapping_spec req taskID st m : request_mapping req taskID st = Some m →
  pm_TaskID m = taskID ∧ pm_HostPort m = rq_HostPort req ∧ st_Metadata st !! "guest_ip" = Some (pm_GuestIP m) ∧
  st_Metadata st !! "dataplane" ≠ Some "tc".
Proof.
  unfold request_mapping. case_bool_decide; [done|]. repeat case_bool_decide; simpl; try done; intros [= <-]; simpl;
    destruct (st_Metadata st !! "guest_ip"); simpl in *; split_and!; congruence.
Qed.

(** A mapping created over HTTP sends traffic to the address recorded for the
    task it names and to no other: the answer 201 means that the name resolved to
    a task, that the task's saved state records the address and is not on the tc
    plane, and that the mapping with that address is now in force, the only new
    one. *)
Theorem api_publishes_own_guest {H} `{HostLaws H} dirs io req (s s' : api_state (H := H)) m :
  pm_reachable s.2 → is_Some (ns_reg s.2) →
  postPortMap dirs io (Some req) s = (s', (201, BMapping m)) →
  ∃ taskID st, (resolveSandboxID dirs (rq_Task req) s.1).2 = Ok taskID ∧ LoadState taskID s'.1 = Ok st ∧
    st_Metadata st !! "guest_ip" = Some (pm_GuestIP m) ∧ st_Metadata st !! "dataplane" ≠ Some "tc" ∧
    pm_TaskID m = taskID ∧ pm_HostPort m = rq_HostPort req ∧
    all_mappings (reg_of s'.2) ≡ₚ with_created (io_now io) (norm m) :: all_mappings (reg_of s.2) ∧
    rules (ns_host s'.2) = rules (ns_host s.2) ⊎ list_to_set_disj (mapping_rules (norm m)).
Proof.
  intros Hr [r0 Hreg] Hp. unfold postPortMap in Hp.
  destruct (resolveSandboxID dirs (rq_Task req) s.1) as [r [taskID|[]]]; simplify_eq.
  destruct (LoadState taskID r) as [st|] eqn:El; simplify_eq.
  destruct (request_mapping req taskID st) as [m'|] eqn:Em; simplify_eq.
  destruct (AddPortMapping io m' s.2) as [n [[]|e]] eqn:Ea; simplify_eq. simpl in *.
  destruct (request_mapping_spec _ _ _ _ Em) as (Et & Ep & Eg & Ed).
  destruct (add_ok _ _ _ _ _ Hreg (pm_reachable_inv _ Hr) Ea) as (_ & Hr1 & Hru & _).
  exists taskID, st. split_and!; try done. unfold reg_of. rewrite Hr1, Hreg. simpl.
  apply (all_mappings_add r0 (with_created (io_now io) (norm m))).
Qed.

Definition api_demo : api_state (H := demo) :=
  (mkRoot {[ "t1" := mkDir (Some (1, Some (set_meta (blank_state StatusRunning) {[ "guest_ip" := "10.0.0.100" ]}))) 0 ]} ∅, demo2).
Definition api_req : portMapRequest := mkPMReq "t" 9000 22 "" "tcp" "" "".
Definition api_mapping : PortMapping := mkMapping "t1" 9000 22 "10.0.0.100" "tcp" 0 "" "".

Lemma api_publishes_own_guest_witness :
  let s' := (postPortMap (Some ["t1"]) good_io (Some api_req) api_demo).1 in
  ∃ taskID st, (resolveSandboxID (Some ["t1"]) "t" api_demo.1).2 = Ok taskID ∧ LoadState taskID s'.1 = Ok st ∧
    st_Metadata st !! "guest_ip" = Some "10.0.0.100" ∧ st_Metadata st !! "dataplane" ≠ Some "tc" ∧
    "t1" = taskID ∧ 9000 = 9000 ∧
    all_mappings (reg_of s'.2) ≡ₚ with_created 7 (norm api_mapping) :: all_mappings (reg_of demo2) ∧
    rules (ns_host s'.2) = rules (ns_host demo2) ⊎ list_to_set_disj (mapping_rules (norm api_mapping)).
Proof.
  intros s'. apply (api_publishes_own_guest (Some ["t1"]) good_io api_req api_demo s' api_mapping).
  - apply (pmr_call good_io (CAdd plain80)), (pmr_call good_io (CAdd web)), pmr_init.
  - exists (contents demo2). by vm_compute.
  - by vm_compute.
Defined.

(** A mapping whose record could not be saved is answered as a bad request though
    it is in force. *)
Theorem unsaved_mapping_answered_400 :
  let '(s', a) := postPortMap (Some ["t1"]) (mkIO true true (Some SSync) 7) (Some api_req) api_demo in
  a = (400, BError) ∧ with_created 7 api_mapping ∈ all_mappings (reg_of s'.2).
Proof.
  vm_compute. split; [done|]. by right; right; left.
Qed.

(** The answer shows the mapping as it was requested: not the protocol it got and
    not the time it was made. *)
Theorem answer_not_the_record :
  let req := mkPMReq "t1" 9000 22 "" "" "" "" in
  let '(s', a) := postPortMap (Some ["t1"]) good_io (Some req) api_demo in
  a = (201, BMapping (with_protocol "" api_mapping)) ∧ with_created 7 api_mapping ∈ all_mappings (reg_of s'.2).
Proof.
  vm_compute. split; [done|]. by right; right; left.
Qed.
