(* ===== verification/FsTree.v ===== *)
(** * A file system with symbolic links

    The part of [os] that the extraction of archives uses, over a tree of
    directories, symbolic links and files with shared inodes: path resolution as
    the kernel does it, and the calls built on it.  Any call that changes
    something can be refused: [denied] says where. *)

From S2P Require Import Prelude Paths.

(** ** Absolute paths and their components *)

Definition abs (es : list path) : path := slash :: join_slash es.

Lemma split_app a b : split_slash (a ++ slash :: b) = split_slash a ++ split_slash b.
Proof.
  induction a as [|c a IH]; [done|]. simpl. destruct (c =? slash); simpl; rewrite IH; [done|].
  by destruct (split_slash a) as [|e es] eqn:E; [destruct a; simpl in E; [|destruct (_ =? _); [|destruct (split_slash _)]]|].
Qed.

Lemma split_plain e : slash ∉ e → split_slash e = [e].
Proof.
  induction e as [|c e IH]; [done|]. intros [Hc He]%not_elem_of_cons. simpl.
  destruct (Z.eqb_spec c slash); [congruence|]. by rewrite IH.
Qed.

Lemma split_join es : Forall plain es → es ≠ [] → split_slash (join_slash es) = es.
Proof.
  induction 1 as [|e es (_ & _ & _ & He) Hes IH]; [done|]. intros _. destruct es as [|e' es]; [by apply split_plain|].
  change (join_slash (e :: e' :: es)) with (e ++ slash :: join_slash (e' :: es)).
  rewrite split_app, split_plain, IH by done. done.
Qed.

Lemma split_abs es : Forall plain es → split_slash (abs es) = [] :: match es with [] => [[]] | _ => es end.
Proof. intros Hp. unfold abs. simpl. f_equal. destruct es; [done|]. by apply split_join. Qed.

Lemma clean_plain acc es : Forall plain es → fold_left (clean_step true) es acc = rev es ++ acc.
Proof.
  intros Hp. revert acc. induction Hp as [|e es (H1 & H2 & H3 & _) _ IH]; intros acc; [done|]. simpl.
  rewrite IH. unfold clean_step at 1. rewrite !bool_decide_false by done. simpl. by rewrite <- app_assoc.
Qed.

Lemma elems_abs es : Forall plain es → elems (abs es) = es.
Proof.
  intros Hp. unfold elems. rewrite split_abs by done. change (IsAbs (abs es)) with true.
  assert (∀ acc, fold_left (clean_step true) (match es with [] => [[]] | _ => es end) acc = fold_left (clean_step true) es acc) as E
    by (by destruct es). simpl. rewrite E, clean_plain, app_nil_r by done. apply rev_involutive.
Qed.

Lemma Clean_abs p : IsAbs p = true → Clean p = abs (elems p).
Proof. intros Hp. unfold Clean. by rewrite Hp. Qed.

Lemma Clean_of_abs es : Forall plain es → Clean (abs es) = abs es.
Proof. intros Hp. rewrite Clean_abs by done. by rewrite elems_abs. Qed.

Lemma fold_split_abs es acc : Forall plain es →
  fold_left (clean_step true) (split_slash (abs es)) acc = rev es ++ acc.
Proof. intros Hp. rewrite split_abs by done. simpl. destruct es; [done|]. by rewrite clean_plain. Qed.

(** Joining onto an absolute path: the components of the name act one by one. *)
Definition descend (es : list path) (name : path) : list path := rev (fold_left (clean_step true) (split_slash name) (rev es)).

Lemma descend_plain es name : Forall plain es → Forall plain (descend es name).
Proof.
  intros He. apply Forall_rev. assert (H : ∀ l acc, Forall (λ e, slash ∉ e) l → Forall plain acc → Forall plain (fold_left (clean_step true) l acc)).
  { induction l as [|e l IH]; intros acc Hl Ha; [done|]. inversion Hl; subst. simpl. apply IH; [done|]. by apply clean_step_plain. }
  apply H; [apply split_slash_elems|by apply Forall_rev].
Qed.

Lemma Join_abs es name : Forall plain es → Join (abs es) name = abs (descend es name).
Proof.
  intros Hp. unfold Join. destruct name as [|c name].
  - transitivity (abs (rev (rev es))); [|done]. rewrite rev_involutive. by apply Clean_of_abs.
  - change (Clean (abs es ++ slash :: c :: name) = abs (descend es (c :: name))). rewrite Clean_abs by done. f_equal.
    unfold elems, descend. change (IsAbs (abs es ++ _)) with true. rewrite split_app, fold_left_app, fold_split_abs by done.
    by rewrite app_nil_r.
Qed.

Lemma descend_names es ks : Forall plain ks → ks ≠ [] → descend es (join_slash ks) = es ++ ks.
Proof.
  intros Hp Hn. unfold descend. rewrite split_join, clean_plain by done. by rewrite rev_app_distr, !rev_involutive.
Qed.

Lemma dir_prefix_join e es : slash ∉ e → dir_prefix (es ++ slash :: e) = es ++ [slash].
Proof.
  intros He. assert (Hn : dir_prefix e = []).
  { destruct e as [|c e]; [done|]. apply not_elem_of_cons in He as [Hc He]. simpl.
    rewrite bool_decide_false by done. destruct (Z.eqb_spec c slash); [congruence|done]. }
  induction es as [|c es IH]; simpl; [|rewrite IH].
  - by rewrite orb_true_r, Hn.
  - rewrite bool_decide_true by set_solver. done.
Qed.

Lemma join_app es ks : es ≠ [] → ks ≠ [] → join_slash (es ++ ks) = join_slash es ++ slash :: join_slash ks.
Proof.
  intros He Hk. induction es as [|e es IH]; [done|]. destruct es as [|e' es]; [by destruct ks|].
  change (join_slash ((e :: e' :: es) ++ ks)) with (e ++ slash :: join_slash ((e' :: es) ++ ks)). rewrite IH by done.
  change (join_slash (e :: e' :: es)) with (e ++ slash :: join_slash (e' :: es)). by rewrite <- app_assoc.
Qed.

Lemma abs_app es ks : es ≠ [] → ks ≠ [] → abs (es ++ ks) = abs es ++ slash :: join_slash ks.
Proof. intros. unfold abs. by rewrite join_app. Qed.

Lemma abs_snoc es e : abs (es ++ [e]) = (match es with [] => [] | _ => abs es end) ++ slash :: e.
Proof. destruct es as [|x es]; [done|]. by rewrite abs_app. Qed.

Lemma Dir_snoc es e : Forall plain es → plain e → Dir (abs (es ++ [e])) = abs es.
Proof.
  intros Hp (_ & _ & _ & He). unfold Dir. rewrite abs_snoc, dir_prefix_join by done. destruct es as [|x es]; [done|].
  rewrite Clean_abs by done. f_equal. unfold elems. change (IsAbs (abs (x :: es) ++ _)) with true.
  rewrite split_app, fold_left_app, fold_split_abs by done. simpl. rewrite app_nil_r. apply (rev_involutive (x :: es)).
Qed.

Lemma Dir_root : Dir (abs []) = abs [].
Proof. by vm_compute. Qed.

Lemma Dir_abs es : Forall plain es → Dir (abs es) = abs (removelast es).
Proof.
  intros Hp. destruct es as [|e es _] using rev_ind; [apply Dir_root|]. apply Forall_app in Hp as [Hp He%Forall_inv].
  by rewrite Dir_snoc, removelast_last.
Qed.

Lemma abs_inj es fs : Forall plain es → Forall plain fs → abs es = abs fs → es = fs.
Proof. intros He Hf E. rewrite <- (elems_abs es He), <- (elems_abs fs Hf). by rewrite E. Qed.

(** [strings.HasPrefix(p, root + "/")] on absolute clean paths. *)
Lemma has_prefix_abs ds rs : Forall plain ds → Forall plain rs → ds ≠ [] →
  has_prefix (abs ds ++ [slash]) (abs rs) = true ↔ ∃ ks, ks ≠ [] ∧ rs = ds ++ ks.
Proof.
  intros Hd Hr Hn. rewrite has_prefix_app. split.
  - intros [q Hq]. rewrite <- app_assoc in Hq. simpl in Hq.
    assert (E : [] :: (match rs with [] => [[]] | _ => rs end) = ([] :: ds) ++ split_slash q).
    { rewrite <- split_abs by done. rewrite Hq. change (split_slash (abs ds ++ slash :: q) = ([] :: ds) ++ split_slash q).
      rewrite split_app, split_abs by done. by destruct ds. }
    simpl in E. injection E as E. destruct rs as [|r rs].
    + destruct ds as [|d ds]; [done|]. injection E as <- _. by apply Forall_inv in Hd as [? _].
    + exists (split_slash q). split; [|done]. destruct q; simpl; [done|]. destruct (_ =? _); [done|]. by destruct (split_slash q).
  - intros (ks & Hk & ->). exists (join_slash ks). rewrite abs_app by done. by rewrite <- app_assoc.
Qed.

(** ** The tree *)

Inductive node : Type :=
| NDir (mode : Z)
| NLink (target : path)
| NFile (ino : nat).

(** A location is the list of names from the root. *)
Notation loc := (list path).

(** The tree, the inodes with mode and contents, and the next free inode. *)
Record fs : Type := mkFs { f_tree : gmap loc node; f_inodes : gmap nat (Z * list Z); f_next : nat }.

Inductive errno : Type := ENOENT | ENOTDIR | ELOOP | EEXIST | ENOTEMPTY | EISDIR | EPERM | EBUSY.

Definition is_link (n : option node) : bool := match n with Some (NLink _) => true | _ => false end.

(** *** Path resolution

    From the directory [cur] along [todo]; a symbolic link on the way is followed,
    the last one only if [follow] says so, and at most [links] of them.  The
    result is a location; what it names may not exist yet. *)
Fixpoint walk (links : nat) (t : gmap loc node) (follow : bool) : loc → list path → result errno loc :=
  fix go (cur : loc) (todo : list path) {struct todo} : result errno loc :=
    match todo with
    | [] => Ok cur
    | c :: rest =>
        if bool_decide (c = []) || bool_decide (c = dot) then go cur rest
        else if bool_decide (c = dotdot) then go (removelast cur) rest
        else
          let p := cur ++ [c] in
          match t !! p with
          | None => if bool_decide (rest = []) then Ok p else Err ENOENT
          | Some (NDir _) => go p rest
          | Some (NFile _) => if bool_decide (rest = []) then Ok p else Err ENOTDIR
          | Some (NLink target) =>
              if bool_decide (rest = []) && negb follow then Ok p else
              match links with
              | O => Err ELOOP
              | S links => walk links t follow (if IsAbs target then [] else cur) (split_slash target ++ rest)
              end
          end
    end.

(** Linux follows forty links. *)
Definition max_links : nat := 40.

Definition resolve_path (s : fs) (follow : bool) (p : path) : result errno loc := walk max_links (f_tree s) follow [] (split_slash p).

(** *** Calls that look *)

Definition node_at (s : fs) (follow : bool) (p : path) : result errno (loc * node) :=
  let* l := resolve_path s follow p in
  match f_tree s !! l with Some n => Ok (l, n) | None => Err ENOENT end.

Definition Lstat (s : fs) (p : path) : result errno node := let* ln := node_at s false p in Ok ln.2.
Definition Stat (s : fs) (p : path) : result errno node := let* ln := node_at s true p in Ok ln.2.

(** *** Calls that change *)

Definition set_node (l : loc) (n : node) (s : fs) : fs := mkFs (<[l := n]> (f_tree s)) (f_inodes s) (f_next s).
Definition drop_node (l : loc) (s : fs) : fs := mkFs (delete l (f_tree s)) (f_inodes s) (f_next s).
Definition set_inode (i : nat) (v : Z * list Z) (s : fs) : fs := mkFs (f_tree s) (<[i := v]> (f_inodes s)) (f_next s).
Definition inode (s : fs) (i : nat) : Z * list Z := default (0, []) (f_inodes s !! i).

Definition has_child (l : loc) (s : fs) : bool :=
  existsb (λ kn, bool_decide (l = removelast kn.1) && negb (bool_decide (kn.1 = []))) (map_to_list (f_tree s)).

Section Calls.
Context (denied : loc → bool) (umask : Z).

(** The place for a new entry: it must not exist. *)
Definition vacant (s : fs) (p : path) : result errno loc :=
  let* l := resolve_path s false p in
  match f_tree s !! l with
  | Some _ => Err EEXIST
  | None => if denied l then Err EPERM else Ok l
  end.

Definition Mkdir (p : path) (perm : Z) : method fs errno unit := λ s,
  match vacant s p with
  | Err e => (s, Err e)
  | Ok l => (set_node l (NDir (Z.ldiff perm umask)) s, Ok tt)
  end.

(** [os.MkdirAll] of an absolute clean path, by its components from the last. *)
Fixpoint mkdir_all (rev_es : list path) (perm : Z) : method fs errno unit := λ s,
  let p := abs (rev rev_es) in
  match Stat s p with
  | Ok (NDir _) => (s, Ok tt)
  | Ok _ => (s, Err ENOTDIR)
  | Err _ =>
      let '(s, r) := match rev_es with [] => (s, Ok tt) | _ :: parent => mkdir_all parent perm s end in
      match r with
      | Err e => (s, Err e)
      | Ok _ =>
          match Mkdir p perm s with
          | (s, Ok _) => (s, Ok tt)
          | (s, Err e) => match Lstat s p with Ok (NDir _) => (s, Ok tt) | _ => (s, Err e) end
          end
      end
  end.
Definition MkdirAll (p : path) (perm : Z) : method fs errno unit := mkdir_all (rev (elems p)) perm.

(** [os.Remove]: a file, a link or an empty directory. *)
Definition Remove (p : path) : method fs errno unit := λ s,
  match node_at s false p with
  | Err e => (s, Err e)
  | Ok (l, n) =>
      if denied l then (s, Err EPERM) else
      match n with
      | NDir _ => if bool_decide (l = []) then (s, Err EBUSY) else
                  if has_child l s then (s, Err ENOTEMPTY) else (drop_node l s, Ok tt)
      | _ => (drop_node l s, Ok tt)
      end
  end.

(** [os.OpenFile] with [O_CREATE|O_TRUNC|O_WRONLY]: the inode to write to. *)
Definition OpenFile (p : path) (perm : Z) : method fs errno nat := λ s,
  match resolve_path s true p with
  | Err e => (s, Err e)
  | Ok l =>
      if denied l then (s, Err EPERM) else
      match f_tree s !! l with
      | Some (NFile i) => (set_inode i ((inode s i).1, []) s, Ok i)
      | Some _ => (s, Err EISDIR)
      | None =>
          let i := f_next s in
          (mkFs (<[l := NFile i]> (f_tree s)) (<[i := (Z.ldiff perm umask, [])]> (f_inodes s)) (S i), Ok i)
      end
  end.

Definition WriteFile (i : nat) (data : list Z) (s : fs) : fs := set_inode i ((inode s i).1, data) s.

(** [os.Chmod] follows links. *)
Definition Chmod (p : path) (perm : Z) : method fs errno unit := λ s,
  match node_at s true p with
  | Err e => (s, Err e)
  | Ok (l, n) =>
      if denied l then (s, Err EPERM) else
      match n with
      | NDir _ => (set_node l (NDir perm) s, Ok tt)
      | NFile i => (set_inode i (perm, (inode s i).2) s, Ok tt)
      | NLink _ => (s, Err ELOOP)
      end
  end.

Definition Symlink (target p : path) : method fs errno unit := λ s,
  if bool_decide (target = []) then (s, Err ENOENT) else
  match vacant s p with
  | Err e => (s, Err e)
  | Ok l => (set_node l (NLink target) s, Ok tt)
  end.

(** [linkat] without [AT_SYMLINK_FOLLOW]: a link to a link is the same link. *)
Definition Linkat (src dst : path) : method fs errno unit := λ s,
  match node_at s false src with
  | Err e => (s, Err e)
  | Ok (_, NDir _) => (s, Err EPERM)
  | Ok (_, n) =>
      match vacant s dst with
      | Err e => (s, Err e)
      | Ok l => (set_node l n s, Ok tt)
      end
  end.
End Calls.
