(* ===== verification/Tar.v ===== *)
(** * Extraction of untrusted archives (internal/tarutil/tarutil.go)

    [Extract] over the file system of [FsTree].  An archive is what [tar.Reader]
    gives: its members in order, each with the bytes the stream still has for it,
    and how the stream ends. *)

From stdpp Require Import sorting.
From S2P Require Import Prelude Paths FsTree.

(** ** Data *)

Record Limits : Type := mkLimits { MaxFileSize : Z; MaxTotalBytes : Z; MaxEntries : Z }.

Definition DefaultLimits : Limits := mkLimits (2 ^ 30) (8 * 2 ^ 30) 200000.

Inductive Typeflag : Type := TypeDir | TypeReg | TypeSymlink | TypeLink | TypeXGlobalHeader | TypeOther.

#[global] Instance Typeflag_eq_dec : EqDecision Typeflag.
Proof. solve_decision. Defined.

Record Header : Type := mkHeader {
  h_Typeflag : Typeflag; h_Name : path; h_Linkname : path; h_Size : Z; h_Mode : Z
}.

(** [true]: the stream ends cleanly. *)
Record archive : Type := mkArchive { a_members : list (Header * list Z); a_eof : bool }.

Inductive tar_err : Type :=
| ELimits | EReadTar | ETooMany | EEmptyName | EAbsName | EEscapes | ENul | ETooLarge | ETotal | EUnsupported
| EAbsLink | ELinkEscapes | EHardEscapes | ERel | EThroughLink | ETruncated | EOs (e : errno).

Definition validate (l : Limits) : bool :=
  negb ((MaxFileSize l <=? 0) || (MaxTotalBytes l <=? 0) || (MaxEntries l <=? 0)) && negb (MaxTotalBytes l <? MaxFileSize l).

(** [os.FileMode(mode).Perm() & 0777]. *)
Definition perm_bits (mode : Z) : Z := Z.land mode 0x1ff.

Definition safeName (name : path) : result tar_err path :=
  if bool_decide (name = []) then Err EEmptyName else
  if has_prefix [slash] name then Err EAbsName else
  let clean := Clean name in
  if bool_decide (clean = dotdot) || has_prefix (dotdot ++ [slash]) clean then Err EEscapes else
  if bool_decide (0 ∈ clean) then Err ENul else Ok clean.

(** The loop of [checkNoSymlinkAncestor] over the parts of the relative path. *)
Fixpoint check_parts (s : fs) (curr : path) (parts : list path) : result tar_err unit :=
  match parts with
  | [] => Ok tt
  | part :: rest =>
      if bool_decide (part = []) || bool_decide (part = dot) || bool_decide (part = dotdot) then check_parts s curr rest else
      let curr := Join curr part in
      match Lstat s curr with
      | Err ENOENT => Ok tt
      | Err e => Err (EOs e)
      | Ok (NLink _) => Err EThroughLink
      | Ok _ => check_parts s curr rest
      end
  end.

Definition checkNoSymlinkAncestor (s : fs) (root target : path) : result tar_err unit :=
  match Rel root target with
  | None => Err ERel
  | Some rel => check_parts s root (split_slash rel)
  end.

(** [p == root || strings.HasPrefix(p, root + "/")]. *)
Definition inside (root p : path) : bool := bool_decide (p = root) || has_prefix (root ++ [slash]) p.

(** ** The members *)

Section Extract.
Context (denied : loc → bool) (umask : Z).

Definition tar_method := method fs tar_err unit.

Definition checked (root target : path) : tar_method := λ s, (s, checkNoSymlinkAncestor s root target).

(** A call of [os] whose error ends the extraction. *)
Definition os_call {A} (c : method fs errno A) : method fs tar_err A := λ s,
  match c s with (s, Ok a) => (s, Ok a) | (s, Err e) => (s, Err (EOs e)) end.

(** [os.Remove] where a missing entry is no error. *)
Definition remove_existing (target : path) : tar_method := λ s,
  match Remove denied target s with
  | (s, Err ENOENT) => (s, Ok tt)
  | (s, Err e) => (s, Err (EOs e))
  | (s, Ok _) => (s, Ok tt)
  end.

(** A symbolic link where the file goes is removed first. *)
Definition remove_stale_link (target : path) : tar_method := λ s,
  match Lstat s target with
  | Ok (NLink _) => os_call (Remove denied target) s
  | _ => (s, Ok tt)
  end.

Definition extractFile (absDest target : path) (mode size : Z) (content : list Z) : tar_method :=
  do* _ <- checked absDest (Dir target);
  do* _ <- os_call (MkdirAll denied umask (Dir target) 0x1ed);
  do* _ <- remove_stale_link target;
  let perm := perm_bits mode in
  do* i <- os_call (OpenFile denied umask target perm);
  do* _ <- gput (WriteFile i (take (Z.to_nat size) content));
  if zlen content <? size then gfail ETruncated else
  os_call (Chmod denied target perm).

Definition extractSymlink (hdr : Header) (absDest target : path) : tar_method :=
  let link := h_Linkname hdr in
  if has_prefix [slash] link then gfail EAbsLink else
  let resolved := Clean (Join (Dir target) link) in
  if negb (inside absDest resolved) then gfail ELinkEscapes else
  do* _ <- checked absDest (Dir target);
  do* _ <- os_call (MkdirAll denied umask (Dir target) 0x1ed);
  do* _ <- remove_existing target;
  os_call (Symlink denied link target).

(** The symbolic link made in place of a hard link to one: [Ok true] if it was. *)
Definition copy_link (absDest src target link : path) : method fs tar_err bool := λ s,
  let resolved := if IsAbs link then link else Clean (Join (Dir src) link) in
  if negb (inside absDest resolved) then (s, Err EHardEscapes) else
  match Rel (Dir target) resolved with
  | None => (s, Err ERel)
  | Some relTarget =>
      let '(s, _) := Remove denied target s in
      match Symlink denied relTarget target s with
      | (s, Ok _) => (s, Ok true)
      | (s, Err _) => (s, Ok false)
      end
  end.

Definition extractHardlink (hdr : Header) (absDest target : path) : tar_method :=
  let src := Clean (Join absDest (h_Linkname hdr)) in
  if negb (inside absDest src) then gfail EHardEscapes else
  do* _ <- checked absDest (Dir src);
  do* _ <- checked absDest (Dir target);
  do* _ <- os_call (MkdirAll denied umask (Dir target) 0x1ed);
  do* _ <- remove_existing target;
  do* s <- gget;
  do* n <- glift (match Lstat s src with Ok n => Ok n | Err e => Err (EOs e) end);
  do* done <- (match n with NLink link => copy_link absDest src target link | _ => gret false end);
  if done : bool then gret tt else os_call (Linkat denied src target).

(** ** The loop *)

(** What the loop keeps: the counters and the directory modes to set at the end. *)
Record tally_state : Type := mkTally { t_total : Z; t_entries : Z; t_modes : gmap path Z }.

(** One member after its name was found safe. *)
Definition extract_member (absDest : path) (lim : Limits) (hdr : Header) (content : list Z) (name : path) (t : tally_state) :
    method fs tar_err tally_state :=
  let target := Join absDest name in
  match h_Typeflag hdr with
  | TypeDir =>
      do* _ <- checked absDest target;
      let perm := perm_bits (h_Mode hdr) in
      let t := mkTally (t_total t) (t_entries t) (<[target := perm]> (t_modes t)) in
      do* _ <- os_call (MkdirAll denied umask target (Z.lor perm 0x1c0));
      gret t
  | TypeReg =>
      if MaxFileSize lim <? h_Size hdr then gfail ETooLarge else
      let total := int64 (t_total t + h_Size hdr) in
      if MaxTotalBytes lim <? total then gfail ETotal else
      do* _ <- extractFile absDest target (h_Mode hdr) (h_Size hdr) content;
      gret (mkTally total (t_entries t) (t_modes t))
  | TypeSymlink => do* _ <- extractSymlink hdr absDest target; gret t
  | TypeLink => do* _ <- extractHardlink hdr absDest target; gret t
  | _ => gfail EUnsupported
  end.

Fixpoint extract_members (absDest : path) (lim : Limits) (ms : list (Header * list Z)) (t : tally_state) :
    method fs tar_err tally_state :=
  match ms with
  | [] => gret t
  | (hdr, content) :: ms =>
      if bool_decide (h_Typeflag hdr = TypeXGlobalHeader) then extract_members absDest lim ms t else
      let t := mkTally (t_total t) (int64 (t_entries t + 1)) (t_modes t) in
      if MaxEntries lim <? t_entries t then gfail ETooMany else
      do* name <- glift (safeName (h_Name hdr));
      do* t <- extract_member absDest lim hdr content name t;
      extract_members absDest lim ms t
  end.

(** The order in which the modes are set: longer paths first. *)
Definition longer (a b : path * Z) : Prop := zlen b.1 ≤ zlen a.1.
#[global] Instance longer_dec a b : Decision (longer a b).
Proof. unfold longer. apply _. Defined.

Fixpoint chmod_all (l : list (path * Z)) : tar_method :=
  match l with
  | [] => gret tt
  | (p, mode) :: l => do* _ <- os_call (Chmod denied p mode); chmod_all l
  end.

Definition applyDirModes (modes : gmap path Z) : tar_method := chmod_all (merge_sort longer (map_to_list modes)).

Definition Extract (cwd : path) (a : archive) (dest : path) (lim : Limits) : tar_method :=
  if negb (validate lim) then gfail ELimits else
  let absDest := Abs cwd dest in
  do* t <- extract_members absDest lim (a_members a) (mkTally 0 0 ∅);
  if a_eof a then applyDirModes (t_modes t) else gfail EReadTar.
End Extract.
