(* ===== verification/TarSpec.v ===== *)
(** * Extraction stays where it should

    What an extraction can touch: the resolution of paths without links, the
    shape of the tree that the members keep, and that nothing outside the
    destination changes while they are extracted. *)

From stdpp Require Import sorting.
From S2P Require Import Prelude Paths FsTree Tar.

(** ** Resolution along directories *)

Lemma walk_eq n t follow cur todo : walk n t follow cur todo =
  match todo with
  | [] => Ok cur
  | c :: rest =>
      if bool_decide (c = []) || bool_decide (c = dot) then walk n t follow cur rest
      else if bool_decide (c = dotdot) then walk n t follow (removelast cur) rest
      else
        match t !! (cur ++ [c]) with
        | None => if bool_decide (rest = []) then Ok (cur ++ [c]) else Err ENOENT
        | Some (NDir _) => walk n t follow (cur ++ [c]) rest
        | Some (NFile _) => if bool_decide (rest = []) then Ok (cur ++ [c]) else Err ENOTDIR
        | Some (NLink target) =>
            if bool_decide (rest = []) && negb follow then Ok (cur ++ [c]) else
            match n with
            | O => Err ELOOP
            | S n => walk n t follow (if IsAbs target then [] else cur) (split_slash target ++ rest)
            end
        end
  end.
Proof. by destruct n, todo. Qed.

(** Strictly above [es] there are only directories; no links. *)
Definition dirs_above (t : gmap loc node) (es : loc) : Prop := ∀ k x, es = k ++ x → x ≠ [] → ∃ m, t !! k = Some (NDir m).
Definition no_links_above (t : gmap loc node) (es : loc) : Prop := ∀ k x, es = k ++ x → x ≠ [] → is_link (t !! k) = false.

Lemma walk_plain n t follow cur c rest : plain c →
  walk n t follow cur (c :: rest) =
    match t !! (cur ++ [c]) with
    | None => if bool_decide (rest = []) then Ok (cur ++ [c]) else Err ENOENT
    | Some (NDir _) => walk n t follow (cur ++ [c]) rest
    | Some (NFile _) => if bool_decide (rest = []) then Ok (cur ++ [c]) else Err ENOTDIR
    | Some (NLink target) =>
        if bool_decide (rest = []) && negb follow then Ok (cur ++ [c]) else
        match n with
        | O => Err ELOOP
        | S n => walk n t follow (if IsAbs target then [] else cur) (split_slash target ++ rest)
        end
    end.
Proof. intros (H1 & H2 & H3 & _). rewrite walk_eq. by rewrite !bool_decide_false by done. Qed.

(** Without links on the way a path leads to its own components, or nowhere. *)
Lemma walk_straight n t follow cur todo : Forall plain todo → dirs_above t (cur ++ todo) ∨ no_links_above t (cur ++ todo) →
  (∃ m, t !! cur = Some (NDir m)) → dirs_above t cur →
  (follow = true → is_link (t !! (cur ++ todo)) = false) →
  (walk n t follow cur todo = Ok (cur ++ todo) ∧ dirs_above t (cur ++ todo)) ∨
  (∃ e, walk n t follow cur todo = Err e ∧ ¬ dirs_above t (cur ++ todo) ∧
        (e = ENOENT → ∃ k x, cur ++ todo = k ++ x ∧ t !! k = None)).
Proof.
  intros Hp Hl. assert (no_links_above t (cur ++ todo)) as Hn.
  { destruct Hl as [Hd|]; [|done]. intros k x E Hx. by destruct (Hd k x E Hx) as [m ->]. }
  clear Hl. revert cur Hn. induction Hp as [|c rest Hc Hp IH]; intros cur Hn Hcur Hab Hf.
  { left. rewrite walk_eq, app_nil_r. done. }
  rewrite walk_plain by done. replace (cur ++ c :: rest) with ((cur ++ [c]) ++ rest) in * by (by rewrite <- app_assoc).
  assert (dirs_above t (cur ++ [c])) as Hab'.
  { intros k x E Hx. destruct x as [|y x _] using rev_ind; [done|]. rewrite app_assoc in E. apply app_inj_tail in E as [-> _].
    destruct x as [|z x]; [by rewrite app_nil_r in *|]. by apply (Hab k (z :: x)). }
  destruct (t !! (cur ++ [c])) as [[m|target|i]|] eqn:E.
  - apply IH; [done|by exists m|done|done].
  - destruct rest as [|r rest].
    + rewrite !(app_nil_r (cur ++ [c])) in *. destruct follow; [by rewrite E in Hf; specialize (Hf eq_refl)|]. left. by split.
    + specialize (Hn (cur ++ [c]) (r :: rest) eq_refl ltac:(done)). by rewrite E in Hn.
  - destruct rest as [|r rest]; [rewrite (app_nil_r (cur ++ [c])); by left|]. right. exists ENOTDIR. split; [done|]. split; [|done].
    intros Hd. destruct (Hd (cur ++ [c]) (r :: rest) eq_refl ltac:(done)) as [m Em]. by rewrite E in Em.
  - destruct rest as [|r rest]; [rewrite (app_nil_r (cur ++ [c])); by left|]. right. exists ENOENT. split; [done|]. split.
    + intros Hd. destruct (Hd (cur ++ [c]) (r :: rest) eq_refl ltac:(done)) as [m Em]. by rewrite E in Em.
    + intros _. by exists (cur ++ [c]), (r :: rest).
Qed.

Lemma walk_empty n t follow cur rest : walk n t follow cur ([] :: rest) = walk n t follow cur rest.
Proof. by rewrite walk_eq. Qed.

Lemma resolve_straight s follow es : Forall plain es → (∃ m, f_tree s !! [] = Some (NDir m)) →
  no_links_above (f_tree s) es → (follow = true → is_link (f_tree s !! es) = false) →
  (resolve_path s follow (abs es) = Ok es ∧ dirs_above (f_tree s) es) ∨
  (∃ e, resolve_path s follow (abs es) = Err e ∧ ¬ dirs_above (f_tree s) es ∧
        (e = ENOENT → ∃ k x, es = k ++ x ∧ f_tree s !! k = None)).
Proof.
  intros Hp Hr Hn Hf. unfold resolve_path. rewrite split_abs, walk_empty by done. generalize max_links. intros n.
  assert (dirs_above (f_tree s) []) by (intros k x E Hx; by destruct k, x).
  destruct es as [|e es]; [rewrite walk_empty; by apply (walk_straight n (f_tree s) follow [] []); [|right|..]|].
  apply (walk_straight n (f_tree s) follow [] (e :: es)); [done|by right|done|done|done].
Qed.

(** ** The shape of the tree *)

Definition within (ds l : loc) : Prop := ds `prefix_of` l.

(** The destination and what is above it are directories, entries are in
    directories, a file below the destination has no name outside it, and the next
    inode is free. *)
Record good (ds : loc) (s : fs) : Prop := {
  g_chain : ∀ k x, ds = k ++ x → ∃ m, f_tree s !! k = Some (NDir m);
  g_closed : ∀ l c, is_Some (f_tree s !! (l ++ [c])) → ∃ m, f_tree s !! l = Some (NDir m);
  g_own : ∀ l l' i, f_tree s !! l = Some (NFile i) → f_tree s !! l' = Some (NFile i) → within ds l → within ds l';
  g_fresh : ∀ l i, f_tree s !! l = Some (NFile i) → (i < f_next s)%nat
}.

(** Nothing outside the destination differs: no entry, and no contents or mode of a
    file that has a name there. *)
Record untouched (ds : loc) (s s' : fs) : Prop := {
  u_tree : ∀ l, ¬ within ds l → f_tree s' !! l = f_tree s !! l;
  u_inode : ∀ l i, ¬ within ds l → f_tree s !! l = Some (NFile i) → f_inodes s' !! i = f_inodes s !! i
}.

#[global] Instance untouched_refl ds : Reflexive (untouched ds).
Proof. by split. Qed.
#[global] Instance untouched_trans ds : Transitive (untouched ds).
Proof.
  intros s1 s2 s3 [T1 I1] [T2 I2]. split.
  - intros l Hl. by rewrite T2, T1.
  - intros l i Hl Hi. rewrite (I2 l i Hl), (I1 l i Hl Hi); [done|]. by rewrite T1.
Qed.

Lemma good_root ds s : good ds s → ∃ m, f_tree s !! [] = Some (NDir m).
Proof. intros Hg. by apply (g_chain _ _ Hg [] ds). Qed.

Lemma closed_none ds s k x : good ds s → f_tree s !! k = None → f_tree s !! (k ++ x) = None.
Proof.
  intros Hg Hk. induction x as [|c x IH] using rev_ind; [by rewrite app_nil_r|]. rewrite app_assoc.
  destruct (f_tree s !! ((k ++ x) ++ [c])) eqn:E; [|done].
  destruct (g_closed _ _ Hg (k ++ x) c) as [m Hm]; [by eexists|]. by rewrite IH in Hm.
Qed.

(** Above the destination there are no links; and below a place where there are
    none either. *)
Lemma no_links_below ds s ks : good ds s → (∀ k x, ks = k ++ x → x ≠ [] → is_link (f_tree s !! (ds ++ k)) = false) →
  no_links_above (f_tree s) (ds ++ ks).
Proof.
  intros Hg Hk k x E Hx. apply app_eq_inv in E as [(y & -> & E)|(y & E & Ex)].
  - destruct (g_chain _ _ Hg k y) as [m ->]; done.
  - subst k. by apply (Hk y x).
Qed.

(** ** Changes below the destination *)

Section Changes.
Context (ds : loc).

(** A new entry in a directory below the destination. *)
Lemma add_entry s ks c n : good ds s → f_tree s !! (ds ++ ks ++ [c]) = None →
  (∃ m, f_tree s !! (ds ++ ks) = Some (NDir m)) →
  (∀ i, n = NFile i → ∃ l, within ds l ∧ f_tree s !! l = Some (NFile i)) →
  let s' := set_node (ds ++ ks ++ [c]) n s in good ds s' ∧ untouched ds s s'.
Proof.
  intros Hg Hnone Hpar Hfile. set (q := ds ++ ks ++ [c]) in *. simpl. split; [split|split]; simpl.
  - intros k x E. destruct (g_chain _ _ Hg k x E) as [m Hm]. exists m. rewrite lookup_insert_ne; [done|].
    intros <-. by rewrite Hnone in Hm.
  - intros l e Hsome. assert (∀ m, f_tree s !! l = Some (NDir m) → ∃ m, <[q:=n]> (f_tree s) !! l = Some (NDir m)) as Hkeep.
    { intros m Hm. exists m. rewrite lookup_insert_ne; [done|]. intros <-. by rewrite Hnone in Hm. }
    destruct (decide (q = l ++ [e])) as [Eq|Hne].
    + unfold q in Eq. rewrite app_assoc in Eq. apply app_inj_tail in Eq as [<- _]. destruct Hpar as [m Hm]. by eapply Hkeep.
    + rewrite lookup_insert_ne in Hsome by done. destruct (g_closed _ _ Hg l e Hsome) as [m Hm]. by eapply Hkeep.
  - intros l l' i Hl Hl' Hw. destruct (decide (q = l')) as [<-|]; [unfold q; by apply prefix_app_r|].
    rewrite lookup_insert_ne in Hl' by done. destruct (decide (q = l)) as [<-|].
    + rewrite lookup_insert_eq in Hl. injection Hl as ->. destruct (Hfile i eq_refl) as (l0 & Hw0 & Hl0).
      by apply (g_own _ _ Hg l0 l' i).
    + rewrite lookup_insert_ne in Hl by done. by apply (g_own _ _ Hg l l' i).
  - intros l i Hl. destruct (decide (q = l)) as [<-|].
    + rewrite lookup_insert_eq in Hl. injection Hl as ->. destruct (Hfile i eq_refl) as (l0 & _ & Hl0). by apply (g_fresh _ _ Hg l0).
    + rewrite lookup_insert_ne in Hl by done. by apply (g_fresh _ _ Hg l).
  - intros l Hl. rewrite lookup_insert_ne; [done|]. intros <-. apply Hl. unfold q. by apply prefix_app_r.
  - done.
Qed.

(** An entry without children, strictly below the destination, goes away. *)
Lemma drop_entry s ks : good ds s → ks ≠ [] → (∀ c, f_tree s !! ((ds ++ ks) ++ [c]) = None) →
  let s' := drop_node (ds ++ ks) s in good ds s' ∧ untouched ds s s'.
Proof.
  intros Hg Hne Hnc. simpl. split; [split|split]; simpl.
  - intros k x E. destruct (g_chain _ _ Hg k x E) as [m Hm]. exists m. rewrite lookup_delete_ne; [done|].
    intros <-. apply (f_equal length) in E. rewrite !length_app in E. destruct ks; [done|]. simpl in E. lia.
  - intros l e [n Hn]. apply lookup_delete_Some in Hn as [_ Hn]. destruct (g_closed _ _ Hg l e) as [m Hm]; [by eexists|].
    exists m. rewrite lookup_delete_ne; [done|]. intros <-. by rewrite Hnc in Hn.
  - intros l l' i [_ Hl]%lookup_delete_Some [_ Hl']%lookup_delete_Some. by apply (g_own _ _ Hg l l' i).
  - intros l i [_ Hl]%lookup_delete_Some. by apply (g_fresh _ _ Hg l).
  - intros l Hl. rewrite lookup_delete_ne; [done|]. intros <-. apply Hl. by apply prefix_app_r.
  - done.
Qed.

(** The contents or mode of a file below the destination change. *)
Lemma change_file s l i v : good ds s → within ds l → f_tree s !! l = Some (NFile i) →
  let s' := set_inode i v s in good ds s' ∧ untouched ds s s'.
Proof.
  intros Hg Hw Hl. simpl. split; [by destruct Hg; split|split; [done|]]. simpl.
  intros l' j Hl' Hj. rewrite lookup_insert_ne; [done|]. intros <-. apply Hl'. by apply (g_own _ _ Hg l l' i).
Qed.

(** The mode of a directory changes. *)
Lemma change_dir s ks m m' : good ds s → f_tree s !! (ds ++ ks) = Some (NDir m) →
  let s' := set_node (ds ++ ks) (NDir m') s in good ds s' ∧ untouched ds s s'.
Proof.
  intros Hg Hd. assert (∀ l m0, f_tree s !! l = Some (NDir m0) → ∃ m, <[ds ++ ks := NDir m']> (f_tree s) !! l = Some (NDir m)) as Hkeep.
  { intros l m0 Hm. destruct (decide (ds ++ ks = l)) as [<-|]; [rewrite lookup_insert_eq; by eexists|].
    rewrite lookup_insert_ne by done. by eexists. }
  assert (∀ l i, <[ds ++ ks := NDir m']> (f_tree s) !! l = Some (NFile i) → f_tree s !! l = Some (NFile i)) as Hfile.
  { intros l i. destruct (decide (ds ++ ks = l)) as [<-|]; [by rewrite lookup_insert_eq|]. by rewrite lookup_insert_ne. }
  simpl. split; [split|split]; simpl.
  - intros k x E. destruct (g_chain _ _ Hg k x E) as [m0 Hm]. by eapply Hkeep.
  - intros l e Hs. assert (is_Some (f_tree s !! (l ++ [e]))) as Hs'.
    { destruct (decide (ds ++ ks = l ++ [e])) as [<-|]; [by eexists|]. by rewrite lookup_insert_ne in Hs. }
    destruct (g_closed _ _ Hg l e Hs') as [m0 Hm]. by eapply Hkeep.
  - intros l l' i Hl%Hfile Hl'%Hfile. by apply (g_own _ _ Hg l l' i).
  - intros l i Hl%Hfile. by apply (g_fresh _ _ Hg l).
  - intros l Hl. rewrite lookup_insert_ne; [done|]. intros <-. apply Hl. by apply prefix_app_r.
  - done.
Qed.

(** A new file with a fresh inode. *)
Lemma add_file s ks c v : good ds s → f_tree s !! (ds ++ ks ++ [c]) = None →
  (∃ m, f_tree s !! (ds ++ ks) = Some (NDir m)) →
  let s' := mkFs (<[ds ++ ks ++ [c] := NFile (f_next s)]> (f_tree s)) (<[f_next s := v]> (f_inodes s)) (S (f_next s)) in
  good ds s' ∧ untouched ds s s'.
Proof.
  intros Hg Hnone Hpar. set (q := ds ++ ks ++ [c]) in *. simpl.
  assert (∀ l i, <[q := NFile (f_next s)]> (f_tree s) !! l = Some (NFile i) →
    (l = q ∧ i = f_next s) ∨ (f_tree s !! l = Some (NFile i) ∧ i ≠ f_next s)) as Hfile.
  { intros l i. destruct (decide (q = l)) as [<-|]; [rewrite lookup_insert_eq; intros [= <-]; by left|].
    rewrite lookup_insert_ne by done. intros Hl. right. split; [done|]. pose proof (g_fresh _ _ Hg l i Hl). lia. }
  assert (∀ l m, f_tree s !! l = Some (NDir m) → ∃ m, <[q := NFile (f_next s)]> (f_tree s) !! l = Some (NDir m)) as Hkeep.
  { intros l m Hm. exists m. rewrite lookup_insert_ne; [done|]. intros <-. by rewrite Hnone in Hm. }
  split; [split|split]; simpl.
  - intros k x E. destruct (g_chain _ _ Hg k x E) as [m Hm]. by eapply Hkeep.
  - intros l e Hsome. destruct (decide (q = l ++ [e])) as [Eq|Hne].
    + unfold q in Eq. rewrite app_assoc in Eq. apply app_inj_tail in Eq as [<- _]. destruct Hpar as [m Hm]. by eapply Hkeep.
    + rewrite lookup_insert_ne in Hsome by done. destruct (g_closed _ _ Hg l e Hsome) as [m Hm]. by eapply Hkeep.
  - intros l l' i [[_ Ei]|[Hl Hi]]%Hfile [[El' _]|[Hl' Hi']]%Hfile Hw; try done; subst; try (unfold q; by apply prefix_app_r).
    by apply (g_own _ _ Hg l l' i).
  - intros l i [[-> ->]|[Hl _]]%Hfile; [lia|]. pose proof (g_fresh _ _ Hg l i Hl). lia.
  - intros l Hl. rewrite lookup_insert_ne; [done|]. intros <-. apply Hl. unfold q. by apply prefix_app_r.
  - intros l i Hl Hi. rewrite lookup_insert_ne; [done|]. intros <-. pose proof (g_fresh _ _ Hg l _ Hi). lia.
Qed.
End Changes.

(** ** The calls on checked paths *)

Definition kept (ds : loc) (s s' : fs) : Prop := good ds s' ∧ untouched ds s s'.

Lemma kept_refl ds s : good ds s → kept ds s s.
Proof. by split. Qed.
Lemma kept_trans ds s1 s2 s3 : kept ds s1 s2 → kept ds s2 s3 → kept ds s1 s3.
Proof. intros [_ U1] [G2 U2]. split; [done|by etransitivity]. Qed.
#[export] Hint Resolve kept_refl : go.

(** No link at the components below the destination, the last one apart. *)
Definition clear_to (ds : loc) (s : fs) (ks : list path) : Prop :=
  ∀ k x, ks = k ++ x → x ≠ [] → is_link (f_tree s !! (ds ++ k)) = false.

Section Calls.
Context (ds : loc) (Hds : Forall plain ds) (denied : loc → bool) (umask : Z).
Implicit Types (s : fs) (ks : list path).

Lemma above_existing s a b : good ds s → is_Some (f_tree s !! (a ++ b)) → b ≠ [] → ∃ m, f_tree s !! a = Some (NDir m).
Proof.
  intros Hg. induction b as [|c b IH] using rev_ind; [done|]. intros Hs _. rewrite app_assoc in Hs.
  destruct (g_closed _ _ Hg _ _ Hs) as [m Hm]. destruct b as [|x b]; [rewrite app_nil_r in Hm; by exists m|].
  apply IH; [by exists (NDir m)|done].
Qed.

Lemma existing_clear s ks : good ds s → is_Some (f_tree s !! (ds ++ ks)) → clear_to ds s ks.
Proof.
  intros Hg Hs k x -> Hx. rewrite app_assoc in Hs. by destruct (above_existing s _ _ Hg Hs Hx) as [m ->].
Qed.

(** A directory below the destination is a place for new entries. *)
Lemma dir_clear s ks m c : good ds s → f_tree s !! (ds ++ ks) = Some (NDir m) → clear_to ds s (ks ++ [c]).
Proof.
  intros Hg Hd k x E Hx. destruct x as [|y x _] using rev_ind; [done|]. rewrite app_assoc in E. apply app_inj_tail in E as [-> _].
  destruct x as [|z x]; [rewrite app_nil_r in Hd; by rewrite Hd|].
  by refine (existing_clear s (k ++ z :: x) Hg _ k (z :: x) eq_refl _); [eexists|].
Qed.

(** A checked path is resolved to its own components or not at all. *)
Lemma resolve_clear s ks follow l : good ds s → Forall plain ks → clear_to ds s ks →
  (follow = true → is_link (f_tree s !! (ds ++ ks)) = false) →
  resolve_path s follow (abs (ds ++ ks)) = Ok l → l = ds ++ ks ∧ dirs_above (f_tree s) (ds ++ ks).
Proof.
  intros Hg Hk Hc Hf Hr.
  destruct (resolve_straight s follow (ds ++ ks)) as [[E Hd]|(e & E & _)];
    [by apply Forall_app|by eapply good_root|by apply no_links_below|done|..]; rewrite E in Hr; [|done].
  by injection Hr as <-.
Qed.

Lemma node_clear s ks follow l n : good ds s → Forall plain ks → clear_to ds s ks →
  (follow = true → is_link (f_tree s !! (ds ++ ks)) = false) →
  node_at s follow (abs (ds ++ ks)) = Ok (l, n) → l = ds ++ ks ∧ f_tree s !! (ds ++ ks) = Some n.
Proof.
  intros Hg Hk Hc Hf. unfold node_at. destruct (resolve_path _ _ _) as [l'|e] eqn:E; [|done]. simpl.
  destruct (resolve_clear s ks follow l' Hg Hk Hc Hf E) as [-> _]. by destruct (f_tree s !! (ds ++ ks)); [intros [= <- <-]|].
Qed.

(** What exists is found. *)
Lemma node_found s ks follow n : good ds s → Forall plain ks → f_tree s !! (ds ++ ks) = Some n →
  (follow = true → is_link (Some n) = false) → node_at s follow (abs (ds ++ ks)) = Ok (ds ++ ks, n).
Proof.
  intros Hg Hk Hn Hf. unfold node_at.
  destruct (resolve_straight s follow (ds ++ ks)) as [[E Hd]|(e & E & Hnd & _)].
  - by apply Forall_app.
  - by eapply good_root.
  - apply no_links_below; [done|]. apply (existing_clear s ks Hg). by eexists.
  - by rewrite Hn.
  - rewrite E. simpl. by rewrite Hn.
  - destruct Hnd. intros k x Ex Hx. apply (above_existing s k x Hg); [|done]. rewrite <- Ex. by eexists.
Qed.

Lemma vacant_clear s ks l : good ds s → Forall plain ks → clear_to ds s ks → vacant denied s (abs (ds ++ ks)) = Ok l →
  l = ds ++ ks ∧ f_tree s !! (ds ++ ks) = None ∧ dirs_above (f_tree s) (ds ++ ks).
Proof.
  intros Hg Hk Hc. unfold vacant. destruct (resolve_path _ _ _) as [l'|e] eqn:E; [|done]. simpl.
  destruct (resolve_clear s ks false l' Hg Hk Hc ltac:(done) E) as [-> Hd].
  destruct (f_tree s !! (ds ++ ks)); [done|]. destruct (denied _); [done|]. by intros [= <-].
Qed.

(** Making an entry at a vacant place. *)
Lemma vacant_add s ks c n l : good ds s → Forall plain (ks ++ [c]) → clear_to ds s (ks ++ [c]) →
  vacant denied s (abs (ds ++ ks ++ [c])) = Ok l →
  (∀ i, n = NFile i → ∃ l, within ds l ∧ f_tree s !! l = Some (NFile i)) →
  kept ds s (set_node l n s) ∧ l = ds ++ ks ++ [c].
Proof.
  intros Hg Hk Hc Hv Hn. destruct (vacant_clear _ _ _ Hg Hk Hc Hv) as (-> & Hnone & Hd). split; [|done].
  apply add_entry; [done|done| |done]. apply (Hd (ds ++ ks) [c]); [by rewrite <- app_assoc|done].
Qed.

Lemma Mkdir_kept s ks c perm s' r : good ds s → Forall plain (ks ++ [c]) → clear_to ds s (ks ++ [c]) →
  Mkdir denied umask (abs (ds ++ ks ++ [c])) perm s = (s', r) →
  kept ds s s' ∧ (r = Ok tt → ∃ m, f_tree s' !! (ds ++ ks ++ [c]) = Some (NDir m)).
Proof.
  intros Hg Hk Hc. unfold Mkdir. destruct (vacant _ _ _) as [l|e] eqn:E; intros [= <- <-]; [|by split; [apply kept_refl|]].
  destruct (vacant_add s ks c (NDir (Z.ldiff perm umask)) l Hg Hk Hc E) as [Hkp ->]; [done|]. split; [done|].
  intros _. simpl. rewrite lookup_insert_eq. by eexists.
Qed.

Lemma Stat_dir s ks m : good ds s → Forall plain ks → f_tree s !! (ds ++ ks) = Some (NDir m) → Stat s (abs (ds ++ ks)) = Ok (NDir m).
Proof. intros Hg Hk Hm. unfold Stat. by rewrite (node_found s ks true (NDir m)). Qed.

(** [MkdirAll] below the destination, where no component is a link. *)
Lemma mkdir_all_kept ks perm s s' r : good ds s → Forall plain ks → clear_to ds s (ks ++ [[]]) →
  mkdir_all denied umask (rev (ds ++ ks)) perm s = (s', r) →
  kept ds s s' ∧ (r = Ok tt → ∃ m, f_tree s' !! (ds ++ ks) = Some (NDir m)).
Proof.
  revert s s' r. induction ks as [|c ks IH] using rev_ind; intros s s' r Hg Hk Hc.
  - destruct (g_chain _ _ Hg ds []) as [m Hm]; [by rewrite app_nil_r|].
    assert (Stat s (abs (rev (rev (ds ++ [])))) = Ok (NDir m)) as Hst
      by (rewrite rev_involutive; apply Stat_dir; [done|done|by rewrite app_nil_r]).
    destruct (rev (ds ++ [])) as [|x l] eqn:E; cbn [mkdir_all]; rewrite Hst; intros [= <- <-];
      (split; [by apply kept_refl|intros _; rewrite app_nil_r; by exists m]).
  - assert (is_link (f_tree s !! (ds ++ ks ++ [c])) = false) as Hlast by (by apply (Hc (ks ++ [c]) [[]])).
    assert (clear_to ds s (ks ++ [c])) as Hct.
    { intros k x E Hx. apply (Hc k (x ++ [[]])); [by rewrite app_assoc, <- E|by destruct x]. }
    assert (clear_to ds s (ks ++ [[]])) as Hcp.
    { intros k x E Hx. destruct x as [|y x _] using rev_ind; [done|]. rewrite app_assoc in E. apply app_inj_tail in E as [-> _].
      apply (Hct k (x ++ [c])); [by rewrite app_assoc|by destruct x]. }
    assert (rev (ds ++ ks ++ [c]) = c :: rev (ds ++ ks)) as Erev by (by rewrite app_assoc, rev_app_distr).
    rewrite Erev. cbn [mkdir_all]. rewrite <- Erev, rev_involutive. apply Forall_app in Hk as Hk'. destruct Hk' as [Hk' _].
    destruct (Stat s (abs (ds ++ ks ++ [c]))) as [n|e] eqn:Est.
    { assert (f_tree s !! (ds ++ ks ++ [c]) = Some n) as Hn.
      { unfold Stat in Est. destruct (node_at _ _ _) as [[l n']|] eqn:En; [|done]. simpl in Est. injection Est as ->.
        by apply (node_clear s (ks ++ [c]) true l n) in En as [_ ?]. }
      destruct n; intros [= <- <-]; (split; [by apply kept_refl|]); try done. intros _. by eexists. }
    destruct (mkdir_all denied umask (rev (ds ++ ks)) perm s) as [s1 r1] eqn:E1.
    destruct (IH s s1 r1 Hg Hk' Hcp E1) as [K1 Hd1]. destruct r1 as [[]|e1]; [|intros [= <- <-]; by split].
    destruct (Hd1 eq_refl) as [m1 Hm1]. pose proof (dir_clear s1 ks m1 c (proj1 K1) Hm1) as Hc1.
    destruct (Mkdir denied umask (abs (ds ++ ks ++ [c])) perm s1) as [s2 r2] eqn:E2.
    destruct (Mkdir_kept s1 ks c perm s2 r2 (proj1 K1) Hk Hc1 E2) as [K2 Hd2]. pose proof (kept_trans _ _ _ _ K1 K2) as K.
    destruct r2 as [[]|e2]; [intros [= <- <-]; split; [done|by intros _; apply Hd2]|].
    unfold Mkdir in E2. destruct (vacant denied s1 _) as [l|e3]; [done|]. injection E2 as <- _.
    unfold Lstat. destruct (node_at s1 false _) as [[l n]|] eqn:En; simpl; [|intros [= <- <-]; by split].
    apply (node_clear s1 (ks ++ [c]) false l n (proj1 K1) Hk Hc1) in En as [_ Hn]; [|done].
    destruct n; intros [= <- <-]; (split; [done|]); try done. intros _. by eexists.
Qed.
(** *** Removing, opening, linking *)

Lemma has_child_none s l c : has_child l s = false → f_tree s !! (l ++ [c]) = None.
Proof.
  intros Hh. destruct (f_tree s !! (l ++ [c])) as [n|] eqn:E; [|done]. exfalso. revert Hh. apply not_false_iff_true.
  unfold has_child. apply existsb_exists. exists (l ++ [c], n). split; [by apply list_elem_of_In, elem_of_map_to_list|]. simpl.
  rewrite removelast_last, bool_decide_true by done. rewrite bool_decide_false; [done|]. by destruct l.
Qed.

(** Only a directory has entries. *)
Lemma childless s l n : good ds s → f_tree s !! l = Some n → (∀ m, n ≠ NDir m) → ∀ c, f_tree s !! (l ++ [c]) = None.
Proof.
  intros Hg Hl Hn c. destruct (f_tree s !! (l ++ [c])) eqn:E; [|done]. destruct (g_closed _ _ Hg l c) as [m Hm]; [by eexists|].
  rewrite Hl in Hm. injection Hm as ->. by destruct (Hn m).
Qed.

Lemma Remove_kept s ks c s' r : good ds s → Forall plain (ks ++ [c]) → clear_to ds s (ks ++ [c]) →
  Remove denied (abs (ds ++ ks ++ [c])) s = (s', r) →
  (s' = s ∧ is_ok r = false) ∨ (r = Ok tt ∧ s' = drop_node (ds ++ ks ++ [c]) s ∧ kept ds s s').
Proof.
  intros Hg Hk Hc. unfold Remove. destruct (node_at _ _ _) as [[l n]|e] eqn:En; [|intros [= <- <-]; by left].
  destruct (node_clear s _ false l n Hg Hk Hc ltac:(done) En) as [-> Hn].
  destruct (denied _); [intros [= <- <-]; by left|].
  assert ((∀ c', f_tree s !! ((ds ++ ks ++ [c]) ++ [c']) = None) → kept ds s (drop_node (ds ++ ks ++ [c]) s)) as Hdrop
    by (intros Hnc; apply (drop_entry ds s (ks ++ [c])); [done|by destruct ks|done]).
  destruct n as [m|t|i].
  - case_bool_decide; [intros [= <- <-]; by left|]. destruct (has_child _ s) eqn:Eh; intros [= <- <-]; [by left|].
    right. split_and!; [done|done|]. apply Hdrop. intros c'. by apply has_child_none.
  - intros [= <- <-]. right. split_and!; [done|done|]. apply Hdrop. by apply (childless s _ (NLink t)).
  - intros [= <- <-]. right. split_and!; [done|done|]. apply Hdrop. by apply (childless s _ (NFile i)).
Qed.

(** No call but the making of links makes one. *)
Definition no_new_links s s' : Prop := ∀ l, is_link (f_tree s' !! l) = true → is_link (f_tree s !! l) = true.

#[global] Instance no_new_links_refl : Reflexive no_new_links.
Proof. by intros s l. Qed.

Lemma no_new_links_trans s1 s2 s3 : no_new_links s1 s2 → no_new_links s2 s3 → no_new_links s1 s3.
Proof. intros H1 H2 l Hl. by apply H1, H2. Qed.

Lemma drop_no_links s l : no_new_links s (drop_node l s).
Proof. intros l'. simpl. destruct (decide (l = l')) as [<-|]; [by rewrite lookup_delete_eq|]. by rewrite lookup_delete_ne. Qed.

Lemma Mkdir_no_links p perm s : no_new_links s (Mkdir denied umask p perm s).1.
Proof.
  unfold Mkdir. destruct (vacant _ _ _) as [l|]; [|done]. intros l'. simpl.
  destruct (decide (l = l')) as [<-|]; [by rewrite lookup_insert_eq|]. by rewrite lookup_insert_ne.
Qed.

Lemma mkdir_all_no_links es perm s : no_new_links s (mkdir_all denied umask es perm s).1.
Proof.
  revert s. induction es as [|e es IH]; intros s; cbn [mkdir_all].
  - destruct (Stat s _) as [[]|]; [done..|]. pose proof (Mkdir_no_links (abs (rev [])) perm s) as Hm.
    destruct (Mkdir _ _ _ _ s) as [s2 [|e1]]; simpl in *; [done|]. by destruct (Lstat s2 _) as [[]|].
  - destruct (Stat s _) as [[]|]; [done..|]. specialize (IH s). destruct (mkdir_all _ _ es perm s) as [s1 [u|e1]]; simpl in *; [|done].
    pose proof (Mkdir_no_links (abs (rev es ++ [e])) perm s1) as Hm.
    destruct (Mkdir _ _ _ _ s1) as [s2 [|e2]]; simpl in *; [by apply (no_new_links_trans _ s1)|].
    destruct (Lstat s2 _) as [[]|]; simpl; by apply (no_new_links_trans _ s1).
Qed.

Lemma clear_mono s s' ks : no_new_links s s' → clear_to ds s ks → clear_to ds s' ks.
Proof.
  intros Hn Hc k x E Hx. destruct (is_link (f_tree s' !! (ds ++ k))) eqn:El; [|done]. apply Hn in El. by rewrite (Hc k x E Hx) in El.
Qed.

Lemma OpenFile_kept s ks c perm s' r : good ds s → Forall plain (ks ++ [c]) → clear_to ds s (ks ++ [c]) →
  is_link (f_tree s !! (ds ++ ks ++ [c])) = false →
  OpenFile denied umask (abs (ds ++ ks ++ [c])) perm s = (s', r) →
  kept ds s s' ∧ (∀ i, r = Ok i → f_tree s' !! (ds ++ ks ++ [c]) = Some (NFile i)).
Proof.
  intros Hg Hk Hc Hl. unfold OpenFile. destruct (resolve_path _ _ _) as [l|e] eqn:Er; [|intros [= <- <-]; by split; [apply kept_refl|]].
  destruct (resolve_clear s _ true l Hg Hk Hc ltac:(done) Er) as [-> Hd].
  destruct (denied _); [intros [= <- <-]; by split; [apply kept_refl|]|].
  destruct (f_tree s !! (ds ++ ks ++ [c])) as [[m|t|i]|] eqn:En; intros [= <- <-].
  - by split; [apply kept_refl|].
  - done.
  - split; [|by intros ? [= <-]]. apply (change_file ds s (ds ++ ks ++ [c])); [done|by apply prefix_app_r|done].
  - split; [|intros i [= <-]; simpl; by rewrite lookup_insert_eq]. apply add_file; [done|done|].
    apply (Hd (ds ++ ks) [c]); [by rewrite <- app_assoc|done].
Qed.

Lemma Chmod_kept s ks i perm s' r : good ds s → Forall plain ks → f_tree s !! (ds ++ ks) = Some (NFile i) →
  Chmod denied (abs (ds ++ ks)) perm s = (s', r) →
  kept ds s s' ∧ (r = Ok tt → s' = set_inode i (perm, (inode s i).2) s).
Proof.
  intros Hg Hk Hi. unfold Chmod. rewrite (node_found s ks true (NFile i)) by done.
  destruct (denied _); intros [= <- <-]; [by split; [apply kept_refl|]|]. split; [|done].
  apply (change_file ds s (ds ++ ks)); [done|by apply prefix_app_r|done].
Qed.

Lemma Symlink_kept s t ks c s' r : good ds s → Forall plain (ks ++ [c]) → clear_to ds s (ks ++ [c]) →
  Symlink denied t (abs (ds ++ ks ++ [c])) s = (s', r) → kept ds s s' ∧ (is_ok r = false → s' = s).
Proof.
  intros Hg Hk Hc. unfold Symlink. case_bool_decide; [intros [= <- <-]; by split; [apply kept_refl|]|].
  destruct (vacant _ _ _) as [l|e] eqn:E; intros [= <- <-]; [|by split; [apply kept_refl|]].
  split; [|done]. by apply (vacant_add s ks c (NLink t) l Hg Hk Hc E).
Qed.

Lemma Linkat_kept s js ks c s' r : good ds s → Forall plain js → clear_to ds s js →
  Forall plain (ks ++ [c]) → clear_to ds s (ks ++ [c]) →
  Linkat denied (abs (ds ++ js)) (abs (ds ++ ks ++ [c])) s = (s', r) → kept ds s s'.
Proof.
  intros Hg Hj Hcj Hk Hc. unfold Linkat. destruct (node_at _ _ _) as [[l n]|e] eqn:En; [|intros [= <- <-]; by apply kept_refl].
  destruct (node_clear s js false l n Hg Hj Hcj ltac:(done) En) as [-> Hn].
  destruct n as [m|t|i]; [intros [= <- <-]; by apply kept_refl|..];
    (destruct (vacant _ _ _) as [l|e] eqn:E; intros [= <- <-]; [|by apply kept_refl]).
  - by apply (vacant_add s ks c (NLink t) l Hg Hk Hc E).
  - apply (vacant_add s ks c (NFile i) l Hg Hk Hc E). intros ? [= <-]. exists (ds ++ js). split; [by apply prefix_app_r|done].
Qed.
End Calls.

(** * Extraction stays where it should: the members

    The checks of [tarutil.go] establish what [TarSpec] asks of paths, and so
    every kind of member changes nothing outside the destination. *)

(** ** Names *)

Lemma strip_common_below ds ks : strip_common ds (ds ++ ks) = ([], ks).
Proof. induction ds as [|d ds IH]; [by destruct ks|]. simpl. by rewrite bool_decide_true. Qed.

Lemma Rel_below ds ks : Forall plain ds → Forall plain ks →
  Rel (abs ds) (abs (ds ++ ks)) = Some (match ks with [] => dot | _ => join_slash ks end).
Proof.
  intros Hd Hk. unfold Rel. rewrite !elems_abs, strip_common_below by (try apply Forall_app; done). by destruct ks.
Qed.

(** The components of a relative path: it climbs, then descends. *)
Lemma clean_shape l acc j ps : acc = ps ++ replicate j dotdot → Forall plain ps → Forall (λ e, slash ∉ e) l →
  ∃ j' ps', fold_left (clean_step false) l acc = ps' ++ replicate j' dotdot ∧ Forall plain ps'.
Proof.
  revert acc j ps. induction l as [|e l IH]; intros acc j ps -> Hps Hl; [by exists j, ps|].
  apply list.Forall_cons in Hl as [He Hl]. simpl. unfold clean_step at 2.
  destruct (bool_decide_reflect (e = [])) as [|H1]; [by eapply IH|].
  destruct (bool_decide_reflect (e = dot)) as [|H2]; [by eapply IH|]. simpl.
  destruct (bool_decide_reflect (e = dotdot)) as [->|H3].
  - destruct ps as [|x ps]; simpl.
    + destruct j as [|j]; simpl; [by apply (IH _ 1%nat [])|]. by apply (IH _ (S (S j)) []).
    + apply list.Forall_cons in Hps as [(_ & _ & Hx & _) Hps]. rewrite bool_decide_false by done. by eapply IH.
  - eapply (IH _ j (e :: ps)); [done| |done]. by constructor.
Qed.

Lemma safeName_spec n name : safeName n = Ok name →
  ∃ ks, Forall plain ks ∧ name = (match ks with [] => dot | _ => join_slash ks end).
Proof.
  unfold safeName. cbv zeta. case_bool_decide; [done|]. destruct (has_prefix [slash] n) eqn:Ea; [done|].
  assert (IsAbs n = false) as Hr by (destruct n as [|z n]; [done|]; cbn [has_prefix IsAbs] in *; by rewrite andb_true_r, Z.eqb_sym in Ea).
  destruct (bool_decide (Clean n = dotdot) || _) eqn:Ec; [done|]. destruct (bool_decide (0 ∈ Clean n)); [done|]. intros [= <-].
  apply orb_false_iff in Ec as [Ed Ep]. apply bool_decide_eq_false in Ed.
  destruct (clean_shape (split_slash n) [] 0 [] eq_refl ltac:(done) (split_slash_elems n)) as (j & ps & E & Hps).
  assert (elems n = replicate j dotdot ++ rev ps) as Ee by (unfold elems; rewrite Hr, E, rev_app_distr; f_equal; rewrite rev_alt; apply reverse_replicate).
  assert (Clean n = match elems n with [] => dot | es => join_slash es end) as Ecl by (unfold Clean; by rewrite Hr).
  destruct j as [|j].
  - exists (rev ps). split; [by apply Forall_rev|]. rewrite Ecl, Ee. simpl. by destruct (rev ps).
  - exfalso. assert (Clean n = join_slash (dotdot :: replicate j dotdot ++ rev ps)) as E' by (by rewrite Ecl, Ee).
    rewrite E' in Ed, Ep.
    destruct (climbing (replicate j dotdot) (rev ps)) as [E1|E1]; [done|by rewrite E1 in Ep].
Qed.

Lemma Join_safe ds n name : Forall plain ds → safeName n = Ok name →
  ∃ ks, Forall plain ks ∧ Join (abs ds) name = abs (ds ++ ks) ∧ (ks = [] ↔ name = dot).
Proof.
  intros Hd (ks & Hk & ->)%safeName_spec. exists ks. split; [done|]. destruct ks as [|k ks].
  - rewrite Join_abs, app_nil_r by done. split; [|done]. f_equal. unfold descend. simpl. apply rev_involutive.
  - rewrite Join_abs, descend_names by done. split; [done|]. split; [done|]. intros E.
    assert (split_slash (join_slash (k :: ks)) = split_slash dot) as E' by (by rewrite E).
    rewrite split_join in E' by done. simpl in E'. injection E' as -> _. by apply Forall_inv in Hk as (_ & ? & _).
Qed.

(** ** The check for links *)

Section Members.
Context (ds : loc) (Hds : Forall plain ds) (denied : loc → bool) (umask : Z).
Implicit Types (s : fs) (ks : list path).

Lemma snoc_prefix {A} (l k x : list A) c : l ++ [c] = k ++ x → x ≠ [] → ∃ y, l = k ++ y.
Proof.
  intros E Hx. destruct x as [|z x _] using rev_ind; [done|]. rewrite app_assoc in E. apply app_inj_tail in E as [-> _]. by exists x.
Qed.

Lemma check_parts_clear s pre ks : good ds s → Forall plain pre → Forall plain ks → clear_to ds s (pre ++ [[]]) →
  check_parts s (abs (ds ++ pre)) ks = Ok tt → clear_to ds s ((pre ++ ks) ++ [[]]).
Proof.
  intros Hg Hp Hk. revert pre Hp. induction Hk as [|c ks Hc Hk IH]; intros pre Hp Hcl Hch; [by rewrite app_nil_r|].
  cbn [check_parts] in Hch. pose proof Hc as (H1 & H2 & H3 & H4). rewrite !bool_decide_false in Hch by done. cbn [orb] in Hch.
  assert (Forall plain (ds ++ pre)) as Hdp by (by apply Forall_app).
  rewrite Join_abs in Hch by done. change (descend (ds ++ pre) c) with (descend (ds ++ pre) (join_slash [c])) in Hch.
  rewrite descend_names in Hch by (first [done|by apply Forall_singleton]).
  rewrite <- app_assoc in Hch. assert (clear_to ds s (pre ++ [c])) as Hcl'.
  { intros k x E Hx. destruct (snoc_prefix _ _ _ _ E Hx) as [y ->]. apply (Hcl k (y ++ [[]])); [by rewrite app_assoc|by destruct y]. }
  assert (Forall plain (pre ++ [c])) as Hpc by (apply Forall_app; split; [done|by constructor]).
  destruct (f_tree s !! (ds ++ pre ++ [c])) as [n|] eqn:En.
  - unfold Lstat in Hch. rewrite (node_found ds Hds s (pre ++ [c]) false n) in Hch by done. simpl in Hch.
    assert (clear_to ds s ((pre ++ [c]) ++ [[]])) as Hcc.
    { intros k x E Hx. destruct (snoc_prefix _ _ _ _ E Hx) as [y Ey]. destruct y as [|z y].
      - rewrite app_nil_r in Ey. subst k. rewrite En. by destruct n.
      - by refine (Hcl' k (z :: y) Ey _). }
    replace (pre ++ c :: ks) with ((pre ++ [c]) ++ ks) by (by rewrite <- app_assoc).
    destruct n; [by apply IH|done|by apply IH].
  - intros k x E Hx. destruct (snoc_prefix _ _ _ _ E Hx) as [y Ey]. apply app_eq_inv in Ey as [(z & Ez & Ey)|(z & -> & Ez)].
    + apply (Hcl k (z ++ [[]])); [by rewrite Ez, app_assoc|by destruct z].
    + destruct z as [|z0 z].
      * rewrite app_nil_r. apply (Hcl pre [[]]); done.
      * injection Ez as -> Ez. replace (ds ++ pre ++ z0 :: z) with ((ds ++ pre ++ [z0]) ++ z) by (by rewrite <- !app_assoc).
        by rewrite (closed_none ds s _ z Hg En).
Qed.

Lemma check_clear s ks : good ds s → Forall plain ks → checkNoSymlinkAncestor s (abs ds) (abs (ds ++ ks)) = Ok tt →
  clear_to ds s (ks ++ [[]]).
Proof.
  intros Hg Hk. unfold checkNoSymlinkAncestor. rewrite Rel_below by done. intros Hch.
  assert (clear_to ds s ([] ++ [[]])) as H0.
  { intros k x E Hx. destruct (snoc_prefix _ _ _ _ E Hx) as [y Ey]. destruct k; [|done]. rewrite app_nil_r.
    by destruct (g_chain _ _ Hg ds []) as [m ->]; [rewrite app_nil_r|]. }
  destruct ks as [|c ks]; [done|]. rewrite split_join in Hch by done.
  apply (check_parts_clear s [] (c :: ks)); [done|done|done|done|]. by rewrite app_nil_r.
Qed.

(** The start shared by the members that are not directories: the parent is
    checked and made. *)
Lemma prepared s s1 s2 ks c o : good ds s → Forall plain (ks ++ [c]) →
  checked (abs ds) (abs (ds ++ ks)) s = (s1, Ok tt) →
  os_call (MkdirAll denied umask (abs (ds ++ ks)) 0x1ed) s1 = (s2, o) →
  kept ds s s2 ∧ no_new_links s s2 ∧
  (o = Ok tt → clear_to ds s2 (ks ++ [c]) ∧ ∃ m, f_tree s2 !! (ds ++ ks) = Some (NDir m)).
Proof.
  intros Hg Hk Hc. apply Forall_app in Hk as [Hk _]. unfold checked in Hc. injection Hc as <- Hc.
  pose proof (check_clear s ks Hg Hk Hc) as Hcl. unfold os_call, MkdirAll. rewrite elems_abs by (by apply Forall_app).
  pose proof (mkdir_all_no_links denied umask (rev (ds ++ ks)) 0x1ed s) as Hnl.
  destruct (mkdir_all _ _ _ _ s) as [s' r] eqn:Em. destruct (mkdir_all_kept ds Hds denied umask ks _ s s' r Hg Hk Hcl Em) as [K Hd].
  simpl in Hnl. destruct r as [[]|e]; intros [= <- <-]; (split; [done|split; [done|]]); [|done]. intros _.
  destruct (Hd eq_refl) as [m Hm]. split; [|by exists m]. by apply (dir_clear ds s' ks m c (proj1 K) Hm).
Qed.
(** ** Running a method step by step *)

Lemma gbind_inv {S E A B} (m : method S E A) (k : A → method S E B) x y r : gbind m k x = (y, r) →
  (∃ e, m x = (y, Err e) ∧ r = Err e) ∨ ∃ x1 a, m x = (x1, Ok a) ∧ k a x1 = (y, r).
Proof. unfold gbind. destruct (m x) as [x1 [a|e]]; [right; eauto|]. intros [= <- <-]. left. eauto. Qed.

Lemma os_call_inv {A} (c : method fs errno A) s s' (r : result tar_err A) : os_call c s = (s', r) →
  ∃ o, c s = (s', o) ∧ r = match o with Ok a => Ok a | Err e => Err (EOs e) end.
Proof. unfold os_call. destruct (c s) as [s1 [a|e]]; intros [= <- <-]; eauto. Qed.

(** ** The members below the destination *)

Lemma checked_inv s root p s' r : checked root p s = (s', r) → s' = s ∧ r = checkNoSymlinkAncestor s root p.
Proof. by intros [= <- <-]. Qed.

Lemma remove_existing_kept s ks c s' r m : good ds s → Forall plain (ks ++ [c]) → clear_to ds s (ks ++ [c]) →
  f_tree s !! (ds ++ ks) = Some (NDir m) →
  remove_existing denied (abs (ds ++ ks ++ [c])) s = (s', r) →
  kept ds s s' ∧ no_new_links s s' ∧ f_tree s' !! (ds ++ ks) = Some (NDir m).
Proof.
  intros Hg Hk Hc Hm. unfold remove_existing. destruct (Remove denied _ s) as [s1 o] eqn:E.
  assert (kept ds s s1 ∧ no_new_links s s1 ∧ f_tree s1 !! (ds ++ ks) = Some (NDir m)) as Hs1.
  { apply (Remove_kept ds Hds denied s ks c) in E as [[-> _]|(_ & -> & K)]; [split_and!; [by apply kept_refl|done|done]| |done..].
    split_and!; [done|apply drop_no_links|]. simpl. rewrite lookup_delete_ne; [done|]. rewrite app_assoc. intros Eq.
    apply (f_equal length) in Eq. rewrite length_app in Eq. simpl in Eq. lia. }
  destruct o as [[]|[]]; by intros [= <- <-].
Qed.

Lemma target_dir ks c : Forall plain (ks ++ [c]) → Dir (abs (ds ++ ks ++ [c])) = abs (ds ++ ks).
Proof.
  intros [Hk Hc%Forall_inv]%Forall_app. rewrite app_assoc. apply Dir_snoc; [by apply Forall_app|done].
Qed.

Lemma extractSymlink_kept s hdr ks c s' r : good ds s → Forall plain (ks ++ [c]) →
  extractSymlink denied umask hdr (abs ds) (abs (ds ++ ks ++ [c])) s = (s', r) → kept ds s s'.
Proof.
  intros Hg Hk. unfold extractSymlink. rewrite target_dir by done. destruct (has_prefix _ _); [by intros [= <- <-]; apply kept_refl|].
  cbv zeta. destruct (negb _); [by intros [= <- <-]; apply kept_refl|].
  intros [(e & E & ->)|(s1 & [] & Ec & E)]%gbind_inv; [apply checked_inv in E as [-> _]; by apply kept_refl|].
  apply gbind_inv in E as [(e & E & ->)|(s2 & [] & Em & E)]; [apply (prepared s s1 s' ks c _ Hg Hk Ec) in E as [K _]; done|].
  destruct (prepared s s1 s2 ks c _ Hg Hk Ec Em) as (K2 & _ & Hok). destruct (Hok eq_refl) as [Hc2 [m Hm]].
  apply gbind_inv in E as [(e & E & ->)|(s3 & [] & Er & E)].
  - apply (remove_existing_kept s2 ks c s' _ m (proj1 K2) Hk Hc2 Hm) in E as (K3 & _). by apply (kept_trans ds s s2).
  - apply (remove_existing_kept s2 ks c s3 _ m (proj1 K2) Hk Hc2 Hm) in Er as (K3 & _ & Hm3).
    pose proof (kept_trans _ _ _ _ K2 K3) as K. apply os_call_inv in E as (o & E & _).
    apply (Symlink_kept ds Hds denied s3 _ ks c s' o (proj1 K3) Hk) in E as [K4 _]; [by apply (kept_trans ds s s3)|].
    by apply (dir_clear ds s3 ks m c (proj1 K3)).
Qed.

Lemma stale_kept s ks c s' r m : good ds s → Forall plain (ks ++ [c]) → clear_to ds s (ks ++ [c]) →
  f_tree s !! (ds ++ ks) = Some (NDir m) →
  remove_stale_link denied (abs (ds ++ ks ++ [c])) s = (s', r) →
  kept ds s s' ∧ f_tree s' !! (ds ++ ks) = Some (NDir m) ∧ (r = Ok tt → is_link (f_tree s' !! (ds ++ ks ++ [c])) = false).
Proof.
  intros Hg Hk Hc Hm. unfold remove_stale_link.
  destruct (f_tree s !! (ds ++ ks ++ [c])) as [n|] eqn:En.
  - unfold Lstat. rewrite (node_found ds Hds s (ks ++ [c]) false n) by done. simpl.
    destruct n as [m'|t|i]; try (intros [= <- <-]; rewrite En; split_and!; by try apply kept_refl).
    intros (o & E & ->)%os_call_inv. apply (Remove_kept ds Hds denied s ks c) in E as [[-> Eo]|(-> & -> & K)]; [..|done|done|done].
    + split_and!; [by apply kept_refl|done|]. by destruct o.
    + split_and!; [done| |]; simpl; [|by rewrite lookup_delete_eq]. rewrite lookup_delete_ne; [done|]. rewrite app_assoc. intros Eq.
      apply (f_equal length) in Eq. rewrite length_app in Eq. simpl in Eq. lia.
  - assert (remove_stale_link denied (abs (ds ++ ks ++ [c])) s = (s, Ok tt)) as E.
    { unfold remove_stale_link, Lstat. destruct (node_at s false _) as [[l n]|] eqn:E; [|done].
      apply (node_clear ds Hds s _ false l n Hg Hk Hc) in E as [_ E]; [by rewrite En in E|done]. }
    unfold remove_stale_link in E. rewrite E. intros [= <- <-]. rewrite En. split_and!; by try apply kept_refl.
Qed.

Lemma extractFile_kept s mode size content ks c s' r : good ds s → Forall plain (ks ++ [c]) →
  extractFile denied umask (abs ds) (abs (ds ++ ks ++ [c])) mode size content s = (s', r) →
  kept ds s s' ∧ (r = Ok tt → ∃ i, f_tree s' !! (ds ++ ks ++ [c]) = Some (NFile i) ∧
                              f_inodes s' !! i = Some (perm_bits mode, take (Z.to_nat size) content) ∧ size ≤ zlen content).
Proof.
  intros Hg Hk. unfold extractFile. rewrite target_dir by done.
  intros [(e & E & ->)|(s1 & [] & Ec & E)]%gbind_inv; [apply checked_inv in E as [-> _]; by split; [apply kept_refl|]|].
  apply gbind_inv in E as [(e & E & ->)|(s2 & [] & Em & E)];
    [apply (prepared s s1 s' ks c _ Hg Hk Ec) in E as [K _]; done|].
  destruct (prepared s s1 s2 ks c _ Hg Hk Ec Em) as (K2 & _ & Hok). destruct (Hok eq_refl) as [Hc2 [m Hm]].
  apply gbind_inv in E as [(e & E & ->)|(s3 & [] & Er & E)].
  { apply (stale_kept s2 ks c s' _ m (proj1 K2) Hk Hc2 Hm) in E as (K3 & _). split; [by apply (kept_trans ds s s2)|done]. }
  apply (stale_kept s2 ks c s3 _ m (proj1 K2) Hk Hc2 Hm) in Er as (K3 & Hm3 & Hl3). pose proof (kept_trans _ _ _ _ K2 K3) as K.
  pose proof (dir_clear ds s3 ks m c (proj1 K3) Hm3) as Hc3. cbv zeta in E.
  apply gbind_inv in E as [(e & E & ->)|(s4 & i & Eo & E)].
  { apply os_call_inv in E as (o & E & _). apply (OpenFile_kept ds Hds denied umask s3 ks c) in E as [K4 _]; [|apply K3|done..|by apply Hl3].
    split; [by apply (kept_trans ds s s3)|done]. }
  apply os_call_inv in Eo as (o & Eo & Ei). destruct o as [i'|]; [|done]. injection Ei as <-.
  apply (OpenFile_kept ds Hds denied umask s3 ks c) in Eo as [K4 Hi4]; [|apply K3|done..|by apply Hl3].
  specialize (Hi4 i eq_refl). pose proof (kept_trans _ _ _ _ K K4) as K'.
  apply gbind_inv in E as [(e & E & _)|(s5 & [] & Ew & E)]; [done|]. injection Ew as <-.
  assert (kept ds s4 (WriteFile i (take (Z.to_nat size) content) s4)) as K5
    by (apply (change_file ds s4 (ds ++ ks ++ [c])); [apply K4|by apply prefix_app_r|done]).
  pose proof (kept_trans _ _ _ _ K' K5) as K6. destruct (Z.ltb_spec (zlen content) size); [injection E as <- <-; by split|].
  apply os_call_inv in E as (o & E & ->). apply (Chmod_kept ds Hds denied _ (ks ++ [c]) i) in E as [K7 Hch]; [|apply K5|done|done].
  split; [by apply (kept_trans ds s _ s' K6)|]. intros Hr. destruct o as [[]|]; [|done]. rewrite (Hch eq_refl). exists i. simpl.
  rewrite lookup_insert_eq. split_and!; [done| |lia]. unfold inode. simpl. by rewrite lookup_insert_eq.
Qed.
(** A source that the check accepted, in a later state without new links. *)
Lemma source_clear s s1 js : good ds s → Forall plain js → js ≠ [] →
  checked (abs ds) (Dir (abs (ds ++ js))) s = (s1, Ok tt) → clear_to ds s js.
Proof.
  intros Hg Hj Hne. destruct js as [|c js _] using rev_ind; [done|]. rewrite target_dir by done. intros [= <- Hc].
  apply Forall_app in Hj as [Hj _]. pose proof (check_clear s js Hg Hj Hc) as Hcl.
  intros k x E Hx. destruct (snoc_prefix _ _ _ _ E Hx) as [y ->]. apply (Hcl k (y ++ [[]])); [by rewrite app_assoc|by destruct y].
Qed.

Lemma copy_link_kept s absDest src link ks c s' r m : good ds s → Forall plain (ks ++ [c]) → clear_to ds s (ks ++ [c]) →
  f_tree s !! (ds ++ ks) = Some (NDir m) →
  copy_link denied absDest src (abs (ds ++ ks ++ [c])) link s = (s', r) →
  kept ds s s' ∧ (r = Ok false → no_new_links s s' ∧ f_tree s' !! (ds ++ ks) = Some (NDir m)).
Proof.
  intros Hg Hk Hc Hm. unfold copy_link. cbv zeta. destruct (negb _); [by intros [= <- <-]; split; [apply kept_refl|]|].
  destruct (Rel _ _) as [rel|]; [|by intros [= <- <-]; split; [apply kept_refl|]].
  destruct (Remove denied _ s) as [s1 o1] eqn:E1.
  assert (kept ds s s1 ∧ no_new_links s s1 ∧ f_tree s1 !! (ds ++ ks) = Some (NDir m)) as (K1 & N1 & Hm1).
  { destruct (remove_existing denied (abs (ds ++ ks ++ [c])) s) as [s2 o2] eqn:E2.
    assert (s2 = s1) as ->; [|by eapply remove_existing_kept].
    unfold remove_existing in E2. rewrite E1 in E2. by destruct o1 as [[]|[]]; injection E2 as <- _. }
  destruct (Symlink denied rel _ s1) as [s2 o2] eqn:E2.
  apply (Symlink_kept ds Hds denied s1 rel ks c s2 o2 (proj1 K1) Hk) in E2 as [K2 Hn2]; [|by apply (dir_clear ds s1 ks m c (proj1 K1))].
  destruct o2 as [u|e]; intros [= <- <-]; (split; [by apply (kept_trans ds s s1)|]); [done|]. intros _. by rewrite (Hn2 eq_refl).
Qed.

Lemma extractHardlink_kept s hdr ks c s' r : good ds s → ds ≠ [] → Forall plain (ks ++ [c]) →
  extractHardlink denied umask hdr (abs ds) (abs (ds ++ ks ++ [c])) s = (s', r) → kept ds s s'.
Proof.
  intros Hg Hdn Hk. unfold extractHardlink. rewrite target_dir by done.
  assert (∃ rs, Forall plain rs ∧ Clean (Join (abs ds) (h_Linkname hdr)) = abs rs) as (rs & Hrs & ->).
  { exists (descend ds (h_Linkname hdr)). split; [by apply descend_plain|]. rewrite Join_abs by done. by apply Clean_of_abs, descend_plain. }
  destruct (inside (abs ds) (abs rs)) eqn:Ein; [|by intros [= <- <-]; apply kept_refl]. cbn [negb].
  assert (∃ js, rs = ds ++ js) as (js & ->).
  { unfold inside in Ein. apply orb_true_iff in Ein as [Ei|Ei].
    - apply bool_decide_eq_true, abs_inj in Ei as ->; [|done|done]. exists []. by rewrite app_nil_r.
    - apply has_prefix_abs in Ei as (js & _ & ->); [by exists js|done..]. }
  apply Forall_app in Hrs as [_ Hjs].
  intros [(e & E & ->)|(s0 & [] & Esrc & E)]%gbind_inv; [apply checked_inv in E as [-> _]; by apply kept_refl|].
  assert (clear_to ds s js) as Hsrc.
  { destruct (decide (js = [])) as [->|Hne]; [|by eapply source_clear]. intros k x Ek Hx. by destruct k, x. }
  pose proof (checked_inv _ _ _ _ _ Esrc) as [-> _]. clear Esrc.
  apply gbind_inv in E as [(e & E & ->)|(s1 & [] & Ec & E)]; [apply checked_inv in E as [-> _]; by apply kept_refl|].
  apply gbind_inv in E as [(e & E & ->)|(s2 & [] & Em & E)]; [apply (prepared s s1 s' ks c _ Hg Hk Ec) in E as [K _]; done|].
  destruct (prepared s s1 s2 ks c _ Hg Hk Ec Em) as (K2 & N2 & Hok). destruct (Hok eq_refl) as [Hc2 [m Hm]].
  apply gbind_inv in E as [(e & E & ->)|(s3 & [] & Er & E)].
  { apply (remove_existing_kept s2 ks c s' _ m (proj1 K2) Hk Hc2 Hm) in E as (K3 & _). by apply (kept_trans ds s s2). }
  apply (remove_existing_kept s2 ks c s3 _ m (proj1 K2) Hk Hc2 Hm) in Er as (K3 & N3 & Hm3).
  pose proof (kept_trans _ _ _ _ K2 K3) as K. pose proof (no_new_links_trans _ _ _ N2 N3) as N.
  apply gbind_inv in E as [(e & E & ->)|(sx & sy & Eg & E)]; [done|]. injection Eg as <- <-.
  apply gbind_inv in E as [(e & E & ->)|(sx & n & Eg & E)]; [by injection E as <- _|]. injection Eg as <- Eg.
  apply gbind_inv in E as [(e & E & ->)|(s4 & done & Ed & E)].
  { destruct n as [|link|]; [done| |done]. apply (copy_link_kept s3 _ _ _ ks c s' _ m (proj1 K3) Hk) in E as [K4 _];
      [by apply (kept_trans ds s s3)|by apply (dir_clear ds s3 ks m c (proj1 K3))|done]. }
  assert (kept ds s3 s4 ∧ (done = false → no_new_links s3 s4 ∧ f_tree s4 !! (ds ++ ks) = Some (NDir m))) as [K4 Hd4].
  { destruct n as [|link|]; [injection Ed as <- <-; by split; [apply kept_refl; apply K3|]| |injection Ed as <- <-; by split; [apply kept_refl; apply K3|]].
    apply (copy_link_kept s3 _ _ _ ks c s4 _ m (proj1 K3) Hk) in Ed as [K4 Hd]; [|by apply (dir_clear ds s3 ks m c (proj1 K3))|done].
    split; [done|]. intros ->. by apply Hd. }
  pose proof (kept_trans _ _ _ _ K K4) as K'. destruct done; [by injection E as <- _|]. destruct (Hd4 eq_refl) as [N4 Hm4].
  apply os_call_inv in E as (o & E & _). apply (kept_trans ds s s4); [done|].
  apply (Linkat_kept ds Hds denied s4 js ks c s' o (proj1 K4) Hjs) in E; [done| |done|].
  - apply (clear_mono ds s); [|done]. by apply (no_new_links_trans _ s3).
  - by apply (dir_clear ds s4 ks m c (proj1 K4)).
Qed.
(** ** The destination itself as a member *)

Lemma Stat_above s es x : good ds s → ds = es ++ x → ∃ m, Stat s (abs es) = Ok (NDir m).
Proof.
  intros Hg E. assert (dirs_above (f_tree s) es) as Hd.
  { intros k y Ek _. apply (g_chain _ _ Hg k (y ++ x)). by rewrite E, Ek, <- app_assoc. }
  destruct (g_chain _ _ Hg es x E) as [m Hm]. exists m. unfold Stat, node_at.
  destruct (resolve_straight s true es) as [[-> _]|(e & _ & Hn & _)]; [| | | | |done].
  - rewrite E in Hds. by apply Forall_app in Hds as [? _].
  - by eapply good_root.
  - intros k y Ek Hy. by destruct (Hd k y Ek Hy) as [? ->].
  - by rewrite Hm.
  - simpl. by rewrite Hm.
Qed.

Lemma MkdirAll_above s es x perm : good ds s → ds = es ++ x → MkdirAll denied umask (abs es) perm s = (s, Ok tt).
Proof.
  intros Hg E. destruct (Stat_above s es x Hg E) as [m Hs]. unfold MkdirAll.
  rewrite elems_abs by (rewrite E in Hds; by apply Forall_app in Hds as [? _]).
  rewrite <- (rev_involutive es) in Hs. by destruct (rev es); cbn [mkdir_all]; rewrite Hs.
Qed.

Lemma removelast_prefix {A} (l : list A) : ∃ x, l = removelast l ++ x.
Proof. destruct l as [|a l _] using rev_ind; [by exists []|]. exists [a]. by rewrite removelast_last. Qed.

Lemma dest_node s follow : good ds s → ∃ m, node_at s follow (abs ds) = Ok (ds, NDir m).
Proof.
  intros Hg. destruct (g_chain _ _ Hg ds []) as [m Hm]; [by rewrite app_nil_r|]. exists m.
  pose proof (node_found ds Hds s [] follow (NDir m)) as H. rewrite !app_nil_r in H. by apply H.
Qed.

(** A file member that names the destination is refused. *)
Lemma extractFile_dest s mode size content s' r : good ds s →
  extractFile denied umask (abs ds) (abs ds) mode size content s = (s', r) → s' = s ∧ is_ok r = false.
Proof.
  intros Hg. unfold extractFile. rewrite Dir_abs by done. destruct (removelast_prefix ds) as [x Ex].
  intros [(e & E & ->)|(s1 & [] & Ec & E)]%gbind_inv; [by apply checked_inv in E as [-> _]|]. apply checked_inv in Ec as [-> _].
  apply gbind_inv in E as [(e & E & ->)|(s2 & [] & Em & E)];
    [unfold os_call in E; rewrite (MkdirAll_above s _ x) in E by done; done|].
  unfold os_call in Em. rewrite (MkdirAll_above s _ x) in Em by done. injection Em as <-.
  destruct (dest_node s false Hg) as [m Hm]. assert (remove_stale_link denied (abs ds) s = (s, Ok tt)) as Est
    by (unfold remove_stale_link, Lstat; by rewrite Hm).
  apply gbind_inv in E as [(e & E & ->)|(s3 & [] & Er & E)]; [by rewrite Est in E|]. rewrite Est in Er. injection Er as <-. cbv zeta in E.
  assert (is_ok (OpenFile denied umask (abs ds) (perm_bits mode) s).2 = false ∧ (OpenFile denied umask (abs ds) (perm_bits mode) s).1 = s) as [Ho Hs].
  { destruct (dest_node s true Hg) as [m' Hm']. unfold OpenFile. unfold node_at in Hm'.
    destruct (resolve_path s true (abs ds)) as [l|e]; [|done]. simpl in Hm'. destruct (f_tree s !! l) as [n|] eqn:El; [|done].
    injection Hm' as -> ->. by destruct (denied ds). }
  unfold gbind at 1, os_call in E. destruct (OpenFile _ _ _ _ s) as [s4 [i|e]]; simpl in *; [done|]. by injection E as <- <-.
Qed.

(** A hard link that names the destination can only remove it, if it is empty, and
    then fails. *)
Lemma extractHardlink_dest s hdr s' r : good ds s → ds ≠ [] →
  extractHardlink denied umask hdr (abs ds) (abs ds) s = (s', r) → untouched ds s s' ∧ is_ok r = false.
Proof.
  intros Hg Hdn. unfold extractHardlink. rewrite Dir_abs by done. destruct (removelast_prefix ds) as [x Ex].
  assert (∃ rs, Forall plain rs ∧ Clean (Join (abs ds) (h_Linkname hdr)) = abs rs) as (rs & Hrs & ->).
  { exists (descend ds (h_Linkname hdr)). split; [by apply descend_plain|]. rewrite Join_abs by done. by apply Clean_of_abs, descend_plain. }
  destruct (inside (abs ds) (abs rs)) eqn:Ein; [|by intros [= <- <-]]. cbn [negb].
  assert (∃ js, rs = ds ++ js) as (js & ->).
  { unfold inside in Ein. apply orb_true_iff in Ein as [Ei|Ei].
    - apply bool_decide_eq_true, abs_inj in Ei as ->; [|done|done]. exists []. by rewrite app_nil_r.
    - apply has_prefix_abs in Ei as (js & _ & ->); [by exists js|done..]. }
  intros [(e & E & ->)|(s0 & [] & Esrc & E)]%gbind_inv; [by apply checked_inv in E as [-> _]|]. apply checked_inv in Esrc as [-> _].
  apply gbind_inv in E as [(e & E & ->)|(s1 & [] & Ec & E)]; [by apply checked_inv in E as [-> _]|]. apply checked_inv in Ec as [-> _].
  apply gbind_inv in E as [(e & E & ->)|(s2 & [] & Em & E)];
    [unfold os_call in E; rewrite (MkdirAll_above s _ x) in E by done; done|].
  unfold os_call in Em. rewrite (MkdirAll_above s _ x) in Em by done. injection Em as <-.
  destruct (dest_node s false Hg) as [m Hm].
  assert (∀ s3 o, remove_existing denied (abs ds) s = (s3, o) → (s3 = s ∧ is_ok o = false) ∨
    (s3 = drop_node ds s ∧ has_child ds s = false)) as Hrem.
  { intros s3 o. unfold remove_existing, Remove. rewrite Hm. destruct (denied ds); [intros [= <- <-]; by left|].
    rewrite bool_decide_false by done. destruct (has_child ds s) eqn:Eh; intros [= <- <-]; [by left|by right]. }
  assert (untouched ds s (drop_node ds s)) as Hu by (split; [intros l Hl; simpl; rewrite lookup_delete_ne; [done|]; by intros <-; apply Hl|done]).
  apply gbind_inv in E as [(e & E & ->)|(s3 & [] & Er & E)]; [by apply Hrem in E as [[-> _]|[-> _]]|].
  apply Hrem in Er as [[_ Hx]|[-> Hch]]; [done|].
  apply gbind_inv in E as [(e & E & ->)|(sx & sy & Eg & E)]; [done|]. injection Eg as <- <-.
  assert (∃ e, Lstat (drop_node ds s) (abs (ds ++ js)) = Err e) as [e He].
  { assert (∀ y, f_tree (drop_node ds s) !! (ds ++ y) = None) as Hbelow.
    { intros [|c y]; simpl; [rewrite app_nil_r; apply lookup_delete_eq|]. apply lookup_delete_None. right.
      rewrite cons_middle, app_assoc. apply (closed_none ds s _ y Hg). by apply has_child_none. }
    assert (∀ k z, ds = k ++ z → z ≠ [] → ∃ m, f_tree (drop_node ds s) !! k = Some (NDir m)) as Habove.
    { intros k z Ek Hz. destruct (g_chain _ _ Hg k z Ek) as [m' Hm']. exists m'. simpl. rewrite lookup_delete_ne; [done|].
      intros <-. apply (f_equal length) in Ek. rewrite length_app in Ek. destruct z; [done|]. simpl in Ek. lia. }
    unfold Lstat, node_at. destruct (resolve_straight (drop_node ds s) false (ds ++ js)) as [[-> _]|(e & -> & _)];
      [done|by apply (Habove [] ds)| |done|cbn [rbind]; rewrite Hbelow; by eexists|by eexists].
    intros k z Ek Hz. apply app_eq_inv in Ek as [(y & Ey & _)|(y & -> & _)]; [|by rewrite Hbelow].
    destruct y as [|c y]; [rewrite app_nil_r in Ey; subst k; pose proof (Hbelow []) as Hb; rewrite app_nil_r in Hb; by rewrite Hb|].
    by destruct (Habove k (c :: y) Ey) as [m' ->]. }
  unfold gbind at 1, glift in E. rewrite He in E. by injection E as <- <-.
Qed.
End Members.
