(* ===== verification/TarClaims.v ===== *)
(** * Extraction of archives: the theorems

    Nothing outside the destination gains, loses or changes an entry or contents;
    the limits hold; a file member has the contents of the archive.  And where the
    promises of the package fail: links that lead out, and the modes that are set
    through them. *)

From stdpp Require Import sorting.
From S2P Require Import Prelude Json Paths FsTree Tar TarSpec.

(** ** All members *)

Section Members.
Context (ds : loc) (Hds : Forall plain ds) (Hne : ds ≠ []) (denied : loc → bool) (umask : Z).

(** The member that would put a link in the place of the destination. *)
Definition replaces_dest (m : Header * list Z) : Prop := h_Typeflag m.1 = TypeSymlink ∧ Clean (h_Name m.1) = dot.

Lemma member_confined lim hdr content name t s s' r : good ds s → safeName (h_Name hdr) = Ok name →
  ¬ replaces_dest (hdr, content) → extract_member denied umask (abs ds) lim hdr content name t s = (s', r) →
  untouched ds s s' ∧ (is_ok r = true → good ds s').
Proof.
  intros Hg Hn Hr. assert (name = Clean (h_Name hdr)) as Ename.
  { unfold safeName in Hn. cbv zeta in Hn. repeat (destruct (_ : bool) in Hn; [done|]). by injection Hn as <-. }
  destruct (Join_safe ds _ _ Hds Hn) as (ks & Hk & Ej & Hdot). unfold extract_member. rewrite Ej. cbv zeta.
  assert (∀ s2 (r2 : result tar_err tally_state), kept ds s s2 → untouched ds s s2 ∧ (is_ok r2 = true → good ds s2)) as Hkept
    by (by intros s2 r2 [G U]).
  assert (ks = [] ∨ ∃ ks' c, ks = ks' ++ [c]) as Hcase by (destruct ks as [|c ks' _] using rev_ind; [by left|right; eauto]).
  destruct (h_Typeflag hdr) eqn:Et.
  - intros [(e & E & ->)|(s1 & [] & Ec & E)]%gbind_inv; [apply checked_inv in E as [-> _]; by split|].
    apply checked_inv in Ec as [-> Hc]. symmetry in Hc. pose proof (check_clear ds Hds s ks Hg Hk Hc) as Hcl.
    assert (∀ s2 o, os_call (MkdirAll denied umask (abs (ds ++ ks)) (Z.lor (perm_bits (h_Mode hdr)) 448)) s = (s2, o) → kept ds s s2) as Hm.
    { intros s2 o (o' & E' & _)%os_call_inv. unfold MkdirAll in E'. rewrite elems_abs in E' by (by apply Forall_app).
      by apply (mkdir_all_kept ds Hds denied umask ks _ s s2 o' Hg Hk Hcl) in E' as [K _]. }
    apply gbind_inv in E as [(e & E & ->)|(s2 & [] & E2 & E)]; [by apply Hkept, (Hm _ _ E)|].
    injection E as <- <-. by apply Hkept, (Hm _ _ E2).
  - case_if; [by intros [= <- <-]; split|]. case_if; [by intros [= <- <-]; split|].
    destruct Hcase as [->|(ks' & c & ->)].
    + rewrite app_nil_r. intros [(e & E & ->)|(s1 & [] & Ef & E)]%gbind_inv.
      * by apply (extractFile_dest ds Hds denied umask) in E as [-> _].
      * by apply (extractFile_dest ds Hds denied umask) in Ef as [_ Hf].
    + intros [(e & E & ->)|(s1 & [] & Ef & E)]%gbind_inv.
      * apply (extractFile_kept ds Hds denied umask) in E as [K _]; [by apply Hkept|done|done].
      * injection E as <- <-. apply (extractFile_kept ds Hds denied umask) in Ef as [K _]; [by apply Hkept|done|done].
  - destruct Hcase as [->|(ks' & c & ->)].
    + destruct Hr. split; [done|]. simpl. rewrite <- Ename. by apply Hdot.
    + intros [(e & E & ->)|(s1 & [] & Ef & E)]%gbind_inv.
      * apply (extractSymlink_kept ds Hds denied umask) in E as K; [by apply Hkept|done|done].
      * injection E as <- <-. apply (extractSymlink_kept ds Hds denied umask) in Ef as K; [by apply Hkept|done|done].
  - destruct Hcase as [->|(ks' & c & ->)].
    + rewrite app_nil_r. intros [(e & E & ->)|(s1 & [] & Ef & E)]%gbind_inv.
      * by apply (extractHardlink_dest ds Hds denied umask) in E as [U _].
      * by apply (extractHardlink_dest ds Hds denied umask) in Ef as [_ Hf].
    + intros [(e & E & ->)|(s1 & [] & Ef & E)]%gbind_inv.
      * apply (extractHardlink_kept ds Hds denied umask) in E as K; [by apply Hkept|done|done|done].
      * injection E as <- <-. apply (extractHardlink_kept ds Hds denied umask) in Ef as K; [by apply Hkept|done|done|done].
  - by intros [= <- <-].
  - by intros [= <- <-].
Qed.

Lemma members_confined lim ms t s s' r : good ds s → Forall (λ m, ¬ replaces_dest m) ms →
  extract_members denied umask (abs ds) lim ms t s = (s', r) → untouched ds s s' ∧ (is_ok r = true → good ds s').
Proof.
  intros Hg Hr. revert t s Hg. induction Hr as [|[hdr content] ms Hm Hms IH]; intros t s Hg; simpl; [by intros [= <- <-]|].
  case_bool_decide; [by apply IH|]. case_if; [by intros [= <- <-]|].
  intros [(e & E & ->)|(s1 & name & En & E)]%gbind_inv; [by injection E as <- _|]. injection En as <- En.
  apply gbind_inv in E as [(e & E & ->)|(s2 & t2 & Em & E)].
  - apply (member_confined lim hdr content name _ s s') in E as [U _]; [by split|done..].
  - apply (member_confined lim hdr content name _ s s2) in Em as [U G]; [|done..]. destruct (IH t2 s2 (G eq_refl) E) as [U2 G2].
    split; [by transitivity s2|done].
Qed.
End Members.

(** ** Confinement *)

(** An entry without its permission bits. *)
Definition shape (n : option node) : option node := match n with Some (NDir _) => Some (NDir 0) | n => n end.

Definition same_but_modes (s s' : fs) : Prop :=
  (∀ l, shape (f_tree s' !! l) = shape (f_tree s !! l)) ∧ (∀ i, (inode s' i).2 = (inode s i).2).

Lemma Chmod_modes denied p perm s : same_but_modes s (Chmod denied p perm s).1.
Proof.
  unfold Chmod. destruct (node_at s true p) as [[l n]|] eqn:E; [|done]. destruct (denied l); [done|].
  assert (f_tree s !! l = Some n) as Hl.
  { unfold node_at in E. destruct (resolve_path s true p) as [l'|]; [|done]. simpl in E. destruct (f_tree s !! l') eqn:El; [|done]. by injection E as <- <-. }
  destruct n as [m|t|i]; simpl; [|done|].
  - split; [|done]. intros l'. simpl. destruct (decide (l = l')) as [<-|]; [by rewrite lookup_insert_eq, Hl|by rewrite lookup_insert_ne].
  - split; [done|]. intros j. unfold inode. simpl. destruct (decide (i = j)) as [<-|]; [by rewrite lookup_insert_eq|by rewrite lookup_insert_ne].
Qed.

Lemma chmod_all_modes denied l s : same_but_modes s (chmod_all denied l s).1.
Proof.
  revert s. induction l as [|[p mode] l IH]; intros s; simpl; [done|]. unfold gbind, os_call.
  pose proof (Chmod_modes denied p mode s) as [H1 H2]. destruct (Chmod denied p mode s) as [s1 [u|e]]; simpl in *; [|done].
  destruct (IH s1) as [H3 H4]. split; [intros l'; by rewrite H3|intros i; by rewrite H4].
Qed.

Lemma abs_dest cwd dest : IsAbs cwd = true → Abs cwd dest = abs (elems (Abs cwd dest)) ∧ Forall plain (elems (Abs cwd dest)).
Proof.
  intros Hc. assert (∃ es, Forall plain es ∧ Abs cwd dest = abs es) as (es & He & ->); [|by rewrite elems_abs].
  unfold Abs. destruct (IsAbs dest) eqn:Ed; [exists (elems dest); split; [by apply elems_plain|by apply Clean_abs]|].
  assert (∃ p, IsAbs p = true ∧ Join cwd dest = Clean p) as (p & Hp & ->).
  { destruct cwd as [|c cwd]; [done|]. destruct dest as [|d dest]; [by exists (c :: cwd)|]. by exists ((c :: cwd) ++ slash :: d :: dest). }
  exists (elems p). split; [by apply elems_plain|by apply Clean_abs].
Qed.

(** C14. Whatever else the archive holds and whatever fails, extracting it leaves
    every place outside the destination as it was - the same entries, the same link
    texts, the same contents of files - but for permission bits: as long as the
    destination is reached through directories and shares no file with the outside,
    and no symbolic-link member names the destination itself (see
    [destination_replaced]). *)
Theorem extraction_confined denied umask cwd a dest lim s s' r :
  IsAbs cwd = true → good (elems (Abs cwd dest)) s → Forall (λ m, ¬ replaces_dest m) (a_members a) →
  Extract denied umask cwd a dest lim s = (s', r) →
  ∀ l, ¬ within (elems (Abs cwd dest)) l →
    shape (f_tree s' !! l) = shape (f_tree s !! l) ∧
    (∀ i, f_tree s !! l = Some (NFile i) → (inode s' i).2 = (inode s i).2).
Proof.
  intros Hcwd Hg Hm HE l Hl. destruct (abs_dest cwd dest Hcwd) as [Ea Hp]. unfold Extract in HE. rewrite Ea in HE.
  set (ds := elems (Abs cwd dest)) in *. destruct (validate lim); [|by injection HE as <- _]. simpl in HE.
  destruct (decide (ds = [])) as [E0|Hne]; [destruct Hl; rewrite E0; by apply prefix_nil|].
  apply gbind_inv in HE as [(e & E & ->)|(s1 & t & E & HE)].
  - apply (members_confined ds Hp Hne) in E as [[U1 U2] _]; [|done|done]. split; [by rewrite U1|].
    intros i Hi. unfold inode. by rewrite (U2 l i).
  - apply (members_confined ds Hp Hne) in E as [[U1 U2] _]; [|done|done].
    assert (same_but_modes s1 s') as [M1 M2].
    { destruct (a_eof a); [|by injection HE as <- _]. pose proof (chmod_all_modes denied (merge_sort longer (map_to_list (t_modes t))) s1) as M.
      unfold applyDirModes in HE. by rewrite HE in M. }
    split; [by rewrite M1, U1|]. intros i Hi. rewrite M2. unfold inode. by rewrite (U2 l i).
Qed.

(** ** Contents *)

(** C24. A regular member that was extracted is there: its path leads to a file that
    holds exactly the bytes of the archive, whatever was at the path before, with
    the permission bits of the header and no others. *)
Theorem file_extracted ds denied umask lim hdr content name t s s' t' :
  Forall plain ds → good ds s → h_Typeflag hdr = TypeReg → safeName (h_Name hdr) = Ok name → 0 ≤ h_Size hdr →
  extract_member denied umask (abs ds) lim hdr content name t s = (s', Ok t') →
  ∃ i, Lstat s' (Join (abs ds) name) = Ok (NFile i) ∧
    (inode s' i).1 = Z.land (h_Mode hdr) 0x1ff ∧ 0 ≤ (inode s' i).1 < 0x200 ∧
    (inode s' i).2 = take (Z.to_nat (h_Size hdr)) content ∧ zlen (inode s' i).2 = h_Size hdr.
Proof.
  intros Hp Hg Et Hn Hsz. destruct (Join_safe ds _ _ Hp Hn) as (ks & Hk & Ej & _). unfold extract_member. rewrite Et, Ej. cbv zeta.
  case_if; [done|]. case_if; [done|].
  intros [(e & _ & ?)|(s1 & [] & Ef & E)]%gbind_inv; [done|]. injection E as <- <-.
  destruct ks as [|c ks _] using rev_ind.
  { rewrite app_nil_r in Ef. by apply (extractFile_dest ds Hp denied umask) in Ef as [_ ?]. }
  apply (extractFile_kept ds Hp denied umask) in Ef as [[G _] Hf]; [|done|done]. destruct (Hf eq_refl) as (i & Hi & Hd & Hlen).
  exists i. unfold Lstat. rewrite (node_found ds Hp s1 (ks ++ [c]) false (NFile i)) by done. unfold inode. rewrite Hd. simpl.
  assert (0 ≤ perm_bits (h_Mode hdr) < 0x200) as Hb.
  { unfold perm_bits. change 0x1ff with (Z.ones 9). rewrite Z.land_ones by lia. apply (Z.mod_pos_bound (h_Mode hdr) (2 ^ 9)). lia. }
  split_and!; [done|done|lia|lia|done|]. unfold zlen in *. rewrite length_take. lia.
Qed.

(** ** Limits *)

Definition is_member (m : Header * list Z) : bool := negb (bool_decide (h_Typeflag m.1 = TypeXGlobalHeader)).
Definition reg_size (m : Header * list Z) : Z := if bool_decide (h_Typeflag m.1 = TypeReg) then h_Size m.1 else 0.

Lemma member_tally denied umask absDest lim hdr content name t s s' t' :
  extract_member denied umask absDest lim hdr content name t s = (s', Ok t') →
  t_entries t' = t_entries t ∧
  (h_Typeflag hdr = TypeReg → h_Size hdr ≤ MaxFileSize lim ∧ t_total t' = int64 (t_total t + h_Size hdr) ∧ t_total t' ≤ MaxTotalBytes lim) ∧
  (h_Typeflag hdr ≠ TypeReg → t_total t' = t_total t).
Proof.
  unfold extract_member. cbv zeta. destruct (h_Typeflag hdr) eqn:Et; try done.
  - intros [(e & _ & ?)|(s1 & [] & _ & E)]%gbind_inv; [done|]. apply gbind_inv in E as [(e & _ & ?)|(s2 & [] & _ & E)]; [done|].
    by injection E as _ <-.
  - case_if; [done|]. case_if; [done|]. intros [(e & _ & ?)|(s1 & [] & _ & E)]%gbind_inv; [done|]. injection E as _ <-. simpl. bsimp. by split_and!.
  - intros [(e & _ & ?)|(s1 & [] & _ & E)]%gbind_inv; [done|]. by injection E as _ <-.
  - intros [(e & _ & ?)|(s1 & [] & _ & E)]%gbind_inv; [done|]. by injection E as _ <-.
Qed.

(** C33. An extraction whose members were all processed kept the limits it was given:
    no file larger than the limit per file, no more bytes in all than the total,
    no more members than allowed - global headers not counted - and the counters
    never wrapped. *)
Theorem limits_hold denied umask absDest lim ms s s' t t' :
  validate lim = true → MaxTotalBytes lim + MaxFileSize lim < 2 ^ 63 → MaxEntries lim < 2 ^ 63 - 1 →
  Forall (λ m, 0 ≤ h_Size m.1) ms → 0 ≤ t_total t ≤ MaxTotalBytes lim → 0 ≤ t_entries t ≤ MaxEntries lim →
  extract_members denied umask absDest lim ms t s = (s', Ok t') →
  t_total t' = t_total t + zsum reg_size ms ∧ t_total t' ≤ MaxTotalBytes lim ∧
  t_entries t' = t_entries t + zlen (List.filter is_member ms) ∧ t_entries t' ≤ MaxEntries lim ∧
  Forall (λ m, h_Typeflag m.1 = TypeReg → h_Size m.1 ≤ MaxFileSize lim) ms.
Proof.
  intros Hv HT HE Hsz. revert s t. induction Hsz as [|[hdr content] ms Hm Hms IH]; intros s t Ht He; cbn [extract_members List.filter].
  { intros [= _ <-]. change (zsum reg_size []) with 0. change (zlen []) with 0. split_and!; try done; lia. }
  rewrite zsum_cons. unfold is_member at 1, reg_size at 1. cbn [fst] in *. case_bool_decide as Eg; cbn [negb].
  { intros E. destruct (IH s t Ht He E) as (I1 & I2 & I3 & I4 & I5). rewrite bool_decide_false by (by rewrite Eg).
    split_and!; [lia|lia|lia|lia|]. constructor; [|done]. simpl. by rewrite Eg. }
  cbn [t_entries t_total t_modes]. rewrite int64_small by lia. destruct (Z.ltb_spec (MaxEntries lim) (t_entries t + 1)); [done|].
  intros [(e & _ & ?)|(s1 & name & _ & E)]%gbind_inv; [done|]. apply gbind_inv in E as [(e & _ & ?)|(s2 & t2 & Em & E)]; [done|].
  apply member_tally in Em as (M1 & M2 & M3). cbn [t_total t_entries] in *. rewrite zlen_cons.
  case_bool_decide as Er.
  - destruct (M2 Er) as (B1 & B2 & B3). rewrite int64_small in B2 by lia.
    destruct (IH s2 t2) as (I1 & I2 & I3 & I4 & I5); [lia|lia|done|]. split_and!; [lia|lia|lia|lia|]. by constructor.
  - specialize (M3 Er). destruct (IH s2 t2) as (I1 & I2 & I3 & I4 & I5); [lia|lia|done|]. split_and!; [lia|lia|lia|lia|]. by constructor.
Qed.

(** ** A concrete file system *)

(** Deciding [good] by looking at every entry. *)
Definition is_dir (n : option node) : bool := match n with Some (NDir _) => true | _ => false end.

Definition goodb (ds : loc) (s : fs) : bool :=
  forallb (λ n, is_dir (f_tree s !! take n ds)) (seq 0 (S (length ds))) &&
  forallb (λ kn, bool_decide (kn.1 = []) || is_dir (f_tree s !! removelast kn.1)) (map_to_list (f_tree s)) &&
  forallb (λ kn, match kn.2 with
                 | NFile i => Nat.ltb i (f_next s) &&
                     forallb (λ kn', match kn'.2 with
                                     | NFile j => negb (Nat.eqb i j) || negb (bool_decide (ds `prefix_of` kn.1)) || bool_decide (ds `prefix_of` kn'.1)
                                     | _ => true
                                     end) (map_to_list (f_tree s))
                 | _ => true
                 end) (map_to_list (f_tree s)).

Lemma is_dir_spec n : is_dir n = true → ∃ m, n = Some (NDir m).
Proof. destruct n as [[m| |]|]; [by exists m|done..]. Qed.

Lemma goodb_good ds s : goodb ds s = true → good ds s.
Proof.
  unfold goodb. rewrite !andb_true_iff, !forallb_forall. intros [[Hc Hp] Hf].
  assert (∀ l n, f_tree s !! l = Some n → In (l, n) (map_to_list (f_tree s))) as Hin
    by (intros l n Hl; by apply list_elem_of_In, elem_of_map_to_list).
  split.
  - intros k x E. apply is_dir_spec. rewrite <- (Hc (length k)).
    + by rewrite E, take_app_length.
    + apply in_seq. rewrite E, length_app. lia.
  - intros l c [n Hn]. specialize (Hp _ (Hin _ _ Hn)). cbn [fst] in Hp. rewrite removelast_last in Hp.
    apply orb_true_iff in Hp as [Hp|Hp]; [|by apply is_dir_spec]. apply bool_decide_eq_true in Hp. by destruct l.
  - intros l l' i Hl Hl' Hw. specialize (Hf _ (Hin _ _ Hl)). cbn [fst snd] in Hf. apply andb_true_iff in Hf as [_ Hf].
    rewrite forallb_forall in Hf. specialize (Hf _ (Hin _ _ Hl')). cbn [fst snd] in Hf.
    rewrite Nat.eqb_refl, (bool_decide_true (ds `prefix_of` l)) in Hf by exact Hw. by apply bool_decide_eq_true in Hf.
  - intros l i Hl. specialize (Hf _ (Hin _ _ Hl)). cbn [fst snd] in Hf. apply andb_true_iff in Hf as [Hf _]. by apply Nat.ltb_lt.
Qed.

Definition txt (s : string) : path := map code (String.list_ascii_of_string s).
Definition at_ (l : list string) : loc := map txt l.

(** [/srv/d] is the destination; beside it a link, and system directories. *)
Definition host : fs := mkFs (list_to_map [
  ([], NDir 493); (at_ ["etc"], NDir 493); (at_ ["etc"; "d"], NDir 493); (at_ ["etc"; "x"], NDir 493); (at_ ["etc"; "passwd"], NFile 0);
  (at_ ["srv"], NDir 493); (at_ ["srv"; "d"], NDir 493); (at_ ["srv"; "y"], NLink (txt "/etc/x"))]) {[ 0%nat := (420, [114; 111; 111; 116]) ]} 1.

Definition dir_entry (n : string) (mode : Z) : Header * list Z := (mkHeader TypeDir (txt n) [] 0 mode, []).
Definition link_entry (n t : string) : Header * list Z := (mkHeader TypeSymlink (txt n) (txt t) 0 511, []).
Definition file_entry (n : string) (data : list Z) : Header * list Z := (mkHeader TypeReg (txt n) [] (zlen data) 0xfff, data).
Definition hard_entry (n t : string) : Header * list Z := (mkHeader TypeLink (txt n) (txt t) 0 420, []).

Definition anywhere (l : loc) : bool := false.
Definition run (ms : list (Header * list Z)) : fs * result tar_err unit :=
  Extract anywhere 18 (txt "/") (mkArchive ms true) (txt "/srv/d") DefaultLimits host.

(** An archive with a bit of everything, and attempts to get out. *)
Definition sample : list (Header * list Z) :=
  [dir_entry "a/b/c" 0xfff; link_entry "a/b/c/up" "../../.."; file_entry "a/f" [1; 2; 3]; hard_entry "a/g" "a/f";
   link_entry "out" "a/b/c/up/../../etc/passwd"; file_entry "out" [9]].

Example sample_ok : (run sample).2 = Ok tt ∧ Lstat (run sample).1 (txt "/srv/d/a/g") = Ok (NFile 1) ∧
  inode (run sample).1 1 = (0x1ff, [1; 2; 3]) ∧ inode (run sample).1 0 = (420, [114; 111; 111; 116]).
Proof. by vm_compute. Qed.

Lemma extraction_confined_witness :
  let s' := (run sample).1 in
  ¬ within (at_ ["srv"; "d"]) (at_ ["etc"; "passwd"]) ∧
  shape (f_tree s' !! at_ ["etc"; "passwd"]) = shape (f_tree host !! at_ ["etc"; "passwd"]) ∧
  ∀ i, f_tree host !! at_ ["etc"; "passwd"] = Some (NFile i) → (inode s' i).2 = (inode host i).2.
Proof.
  intros s'. assert (¬ within (at_ ["srv"; "d"]) (at_ ["etc"; "passwd"])) as Hw by (intros [k Hk]; by vm_compute in Hk).
  split; [exact Hw|].
  apply (extraction_confined anywhere 18 (txt "/") (mkArchive sample true) (txt "/srv/d") DefaultLimits host s' (run sample).2).
  - reflexivity.
  - apply goodb_good. vm_compute. reflexivity.
  - repeat constructor; intros [H1 H2]; first [by vm_compute in H1|by vm_compute in H2].
  - unfold s', run. by destruct (Extract _ _ _ _ _ _ _).
  - exact Hw.
Defined.

Lemma file_extracted_witness :
  let r := extract_member anywhere 18 (abs (at_ ["srv"; "d"])) DefaultLimits (file_entry "a/f" [1; 2; 3]).1 [1; 2; 3] (txt "a/f") (mkTally 0 1 ∅) host in
  ∃ i, Lstat r.1 (Join (abs (at_ ["srv"; "d"])) (txt "a/f")) = Ok (NFile i) ∧
    (inode r.1 i).1 = Z.land 0xfff 0x1ff ∧ 0 ≤ (inode r.1 i).1 < 0x200 ∧
    (inode r.1 i).2 = take (Z.to_nat 3) [1; 2; 3] ∧ zlen (inode r.1 i).2 = 3.
Proof.
  intros r. apply (file_extracted (at_ ["srv"; "d"]) anywhere 18 DefaultLimits (file_entry "a/f" [1; 2; 3]).1 [1; 2; 3] (txt "a/f")
    (mkTally 0 1 ∅) host r.1 (mkTally 3 1 ∅)).
  - repeat constructor; try done; vm_compute; intros H; repeat (apply elem_of_cons in H as [H|H]; [done|]); by apply elem_of_nil in H.
  - apply goodb_good. vm_compute. reflexivity.
  - reflexivity.
  - vm_compute. reflexivity.
  - vm_compute. discriminate.
  - vm_compute. reflexivity.
Defined.

Lemma limits_hold_witness :
  let t' := mkTally 4 6 (<[txt "/srv/d/a/b/c" := 0x1ff]> ∅) in
  t_total t' = 0 + zsum reg_size sample ∧ t_total t' ≤ MaxTotalBytes DefaultLimits ∧
  t_entries t' = 0 + zlen (List.filter is_member sample) ∧ t_entries t' ≤ MaxEntries DefaultLimits ∧
  Forall (λ m, h_Typeflag m.1 = TypeReg → h_Size m.1 ≤ MaxFileSize DefaultLimits) sample.
Proof.
  intros t'.
  apply (limits_hold anywhere 18 (txt "/srv/d") DefaultLimits sample host
    (extract_members anywhere 18 (txt "/srv/d") DefaultLimits sample (mkTally 0 0 ∅) host).1 (mkTally 0 0 ∅) t').
  - reflexivity.
  - reflexivity.
  - reflexivity.
  - repeat constructor; vm_compute; discriminate.
  - vm_compute. split; discriminate.
  - vm_compute. split; discriminate.
  - vm_compute. reflexivity.
Defined.

(** ** Where the promises fail *)

(** The check of a link's target is lexical, but the kernel takes [..] after
    following links: a link that passes the check leads out of the destination. *)
Theorem link_leads_out :
  let '(s', r) := run [dir_entry "a/b/c" 493; link_entry "a/b/c/up" "../../.."; link_entry "out" "a/b/c/up/../../etc/passwd"] in
  r = Ok tt ∧ Stat s' (txt "/srv/d/out") = Ok (NFile 0) ∧ f_tree s' !! at_ ["etc"; "passwd"] = Some (NFile 0).
Proof. by vm_compute. Qed.

(** The directory modes are set at the end, through links: a directory member that
    a later link member replaced makes the mode of any directory of the host what
    the archive says. *)
Theorem mode_set_outside :
  let '(s', r) := run [dir_entry "a/b/c" 493; link_entry "a/b/c/up" "../../.."; dir_entry "p" 0x1ff; link_entry "p" "a/b/c/up/../../etc"] in
  r = Ok tt ∧ f_tree host !! at_ ["etc"] = Some (NDir 493) ∧ f_tree s' !! at_ ["etc"] = Some (NDir 0x1ff).
Proof. by vm_compute. Qed.

(** A symbolic link named [.] takes the place of the empty destination; what
    follows goes where it leads. *)
Theorem destination_replaced :
  let '(s', r) := run [link_entry "." "y/../d"; file_entry "f" [7]] in
  r = Ok tt ∧ f_tree s' !! at_ ["srv"; "d"] = Some (NLink (txt "y/../d")) ∧ is_Some (f_tree s' !! at_ ["etc"; "d"; "f"]).
Proof. vm_compute. split; [done|]. split; [done|]. by eexists. Qed.
