(* ===== verification/GoText.v ===== *)
(** * Host names, authorities, paths and headers as text

    What the network code uses of [strings], [net], [path] and [net/http]: case
    mapping, prefixes and suffixes, [net.SplitHostPort], the text and the classes
    of IP addresses, [path.Clean] on strings and header maps.  The part of the
    Unicode tables beyond ASCII is the class [Unicode]. *)

From stdpp Require Import pretty.
From S2P Require Import Prelude Json Strconv NetIP.
From S2P Require Paths.

(** ** Case *)

(** [unicode.ToLower] and the orbits of [unicode.SimpleFold] on runes outside
    ASCII. *)
Class Unicode : Type := { uni_lower : Z → Z; uni_fold : Z → Z → bool }.

(** [utf8.AppendRune]. *)
Definition utf8 (r : Z) : string :=
  let r := if ((0xD800 <=? r) && (r <=? 0xDFFF)) || (0x10FFFF <? r) || (r <? 0) then 0xFFFD else r in
  String.string_of_list_ascii (byte <$>
    (if r <? 0x80 then [r]
     else if r <? 0x800 then [0xC0 + r / 64; 0x80 + r mod 64]
     else if r <? 0x10000 then [0xE0 + r / 4096; 0x80 + (r / 64) mod 64; 0x80 + r mod 64]
     else [0xF0 + r / 262144; 0x80 + (r / 4096) mod 64; 0x80 + (r / 64) mod 64; 0x80 + r mod 64])).

Definition rune_lower `{Unicode} (r : Z) : Z :=
  if r <? 0x80 then (if (65 <=? r) && (r <=? 90) then r + 32 else r) else uni_lower r.

(** [strings.ToLower]: an invalid byte becomes U+FFFD. *)
Definition ToLower `{Unicode} (s : string) : string :=
  foldr (λ ch t, utf8 (rune_lower (rune_of ch)) +:+ t) EmptyString (runes s).

(** One pair of runes of [strings.EqualFold]; two runes outside ASCII fold
    with K (U+212A) and with S (U+017F). *)
Definition fold_pair `{Unicode} (a b : Z) : bool :=
  (a =? b) ||
  let sr := Z.min a b in let tr := Z.max a b in
  if tr <? 0x80 then (65 <=? sr) && (sr <=? 90) && (tr =? sr + 32)
  else if sr <? 0x80 then
    (((sr =? 75) || (sr =? 107)) && (tr =? 0x212A)) || (((sr =? 83) || (sr =? 115)) && (tr =? 0x17F))
  else uni_fold sr tr.

Fixpoint fold_runes `{Unicode} (l m : list chunk) : bool :=
  match l, m with
  | [], [] => true
  | a :: l, b :: m => fold_pair (rune_of a) (rune_of b) && fold_runes l m
  | _, _ => false
  end.

Definition EqualFold `{Unicode} (s t : string) : bool := fold_runes (runes s) (runes t).

(** ** Prefixes and suffixes *)

Definition HasPrefix (s pre : string) : bool := String.prefix pre s.

Definition HasSuffix (s suf : string) : bool :=
  Nat.leb (String.length suf) (String.length s) &&
  bool_decide (String.substring (String.length s - String.length suf) (String.length suf) s = suf).

Definition TrimSuffix (s suf : string) : string :=
  if HasSuffix s suf then String.substring 0 (String.length s - String.length suf) s else s.

(** [strings.ReplaceAll] of a text that is not empty. *)
Fixpoint replace_all (fuel : nat) (s old new : string) : string :=
  match fuel with
  | O => s
  | S fuel =>
      match s with
      | EmptyString => EmptyString
      | String c t =>
          if String.prefix old s
          then new +:+ replace_all fuel (String.substring (String.length old) (String.length s - String.length old) s) old new
          else String c (replace_all fuel t old new)
      end
  end.
Definition ReplaceAll (s old new : string) : string := replace_all (String.length s) s old new.

(** ** Authorities *)

Definition colon : Ascii.ascii := Ascii.ascii_of_nat 58.
Definition lbrack : Ascii.ascii := Ascii.ascii_of_nat 91.
Definition rbrack : Ascii.ascii := Ascii.ascii_of_nat 93.

Definition has (c : Ascii.ascii) (l : chars) : bool := existsb (Ascii.eqb c) l.

(** The part before the first [c] and the part from it on. *)
Fixpoint until (c : Ascii.ascii) (l : chars) : chars * chars :=
  match l with
  | [] => ([], [])
  | a :: t => if Ascii.eqb a c then ([], l) else let '(x, y) := until c t in (a :: x, y)
  end.

(** The parts around the last [c]. *)
Definition split_last (c : Ascii.ascii) (l : chars) : option (chars * chars) :=
  match until c (rev l) with
  | (after, _ :: before) => Some (rev before, rev after)
  | (_, []) => None
  end.

(** [net.SplitHostPort]; [None] is its error. *)
Definition SplitHostPort (s : string) : option (string * string) :=
  let l := String.list_ascii_of_string s in
  '(before, port) ← split_last colon l;
  match l with
  | c :: t =>
      if Ascii.eqb c lbrack then
        match until rbrack t with
        | (_, []) => None
        | (host, _ :: rest) =>
            match rest with
            | c2 :: port' =>
                if Ascii.eqb c2 colon && negb (has colon port') then
                  if has lbrack t || has rbrack rest then None
                  else Some (String.string_of_list_ascii host, String.string_of_list_ascii port')
                else None
            | [] => None
            end
        end
      else if has colon before || has lbrack l || has rbrack l then None
      else Some (String.string_of_list_ascii before, String.string_of_list_ascii port)
  | [] => None
  end.

(** ** IP addresses: their text and their classes *)

Definition ip4 (ip : list Z) : option (list Z) :=
  if Nat.eqb (length ip) 4 then Some ip
  else if Nat.eqb (length ip) 16 then To4 ip else None.

Definition hex_digit (d : Z) : string := String (byte (if d <? 10 then 48 + d else 87 + d)) EmptyString.

(** A group of an IPv6 address, without leading zeros. *)
Definition hex_text (g : Z) : string :=
  let ds := [g / 4096; (g / 256) mod 16; (g / 16) mod 16; g mod 16] in
  let fix go ds := match ds with
                   | [d] => hex_digit d
                   | d :: t => if d =? 0 then go t else String.concat "" (hex_digit <$> ds)
                   | [] => ""%string
                   end in go ds.

Fixpoint groups (ip : list Z) : list Z :=
  match ip with a :: b :: t => a * 256 + b :: groups t | _ => [] end.

Fixpoint zero_run (l : list Z) : nat := match l with z :: t => if z =? 0 then S (zero_run t) else O | [] => O end.

(** The first longest run of two zero groups or more: its place and length. *)
Fixpoint best_run (i : nat) (l : list Z) (best : nat * nat) : nat * nat :=
  match l with
  | [] => best
  | _ :: t => let n := zero_run l in
              best_run (S i) t (if Nat.ltb 1 n && Nat.ltb best.2 n then (i, n) else best)
  end.

Definition text6 (ip : list Z) : string :=
  let g := groups ip in
  let '(at_, n) := best_run 0 g (0, 0)%nat in
  if Nat.eqb n 0 then String.concat ":" (hex_text <$> g)
  else String.concat ":" (hex_text <$> take at_ g) +:+ "::" +:+ String.concat ":" (hex_text <$> drop (at_ + n) g).

(** [IP.String]. *)
Definition IPString (ip : list Z) : string :=
  match ip with
  | [] => "<nil>"
  | _ =>
    match ip4 ip with
    | Some q => String.concat "." (pretty <$> q)
    | None => if Nat.eqb (length ip) 16 then text6 ip
              else "?" +:+ String.concat "" ((λ b, hex_digit (b / 16) +:+ hex_digit (b mod 16)) <$> ip)
    end
  end.

Definition nth_byte (ip : list Z) (i : nat) : Z := nth i ip 0.

Definition IsLoopback (ip : list Z) : bool :=
  match ip4 ip with
  | Some q => nth_byte q 0 =? 127
  | None => bool_decide (ip = replicate 15 0 ++ [1])
  end.
Definition IsPrivate (ip : list Z) : bool :=
  match ip4 ip with
  | Some q => (nth_byte q 0 =? 10) || ((nth_byte q 0 =? 172) && (Z.land (nth_byte q 1) 0xf0 =? 16)) ||
              ((nth_byte q 0 =? 192) && (nth_byte q 1 =? 168))
  | None => Nat.eqb (length ip) 16 && (Z.land (nth_byte ip 0) 0xfe =? 0xfc)
  end.
Definition IsLinkLocalUnicast (ip : list Z) : bool :=
  match ip4 ip with
  | Some q => (nth_byte q 0 =? 169) && (nth_byte q 1 =? 254)
  | None => Nat.eqb (length ip) 16 && (nth_byte ip 0 =? 0xfe) && (Z.land (nth_byte ip 1) 0xc0 =? 0x80)
  end.
Definition IsLinkLocalMulticast (ip : list Z) : bool :=
  match ip4 ip with
  | Some q => (nth_byte q 0 =? 224) && (nth_byte q 1 =? 0) && (nth_byte q 2 =? 0)
  | None => Nat.eqb (length ip) 16 && (nth_byte ip 0 =? 0xff) && (Z.land (nth_byte ip 1) 0x0f =? 2)
  end.
Definition IsMulticast (ip : list Z) : bool :=
  match ip4 ip with
  | Some q => Z.land (nth_byte q 0) 0xf0 =? 0xe0
  | None => Nat.eqb (length ip) 16 && (nth_byte ip 0 =? 0xff)
  end.
Definition IsUnspecified (ip : list Z) : bool :=
  bool_decide (ip4 ip = Some [0; 0; 0; 0]) || bool_decide (ip = replicate 16 0).

(** ** [path.Clean] *)

Definition path_of (s : string) : Paths.path := code <$> String.list_ascii_of_string s.
Definition of_path (p : Paths.path) : string := String.string_of_list_ascii (byte <$> p).
Definition path_Clean (s : string) : string := of_path (Paths.Clean (path_of s)).

(** ** Headers *)

(** A header field name byte ([textproto.validHeaderFieldByte]). *)
Definition token_char (c : Ascii.ascii) : bool :=
  within 48 57 c || within 65 90 c || within 97 122 c ||
  existsb (λ k, code c =? k) [33; 35; 36; 37; 38; 39; 42; 43; 45; 46; 94; 95; 96; 124; 126].

Fixpoint canonical (up : bool) (l : chars) : chars :=
  match l with
  | [] => []
  | c :: t =>
      let c := if up && within 97 122 c then byte (code c - 32)
               else if negb up && within 65 90 c then byte (code c + 32) else c in
      c :: canonical (code c =? 45) t
  end.

(** [textproto.CanonicalMIMEHeaderKey]. *)
Definition CanonicalHeaderKey (k : string) : string :=
  let l := String.list_ascii_of_string k in
  if forallb token_char l then String.string_of_list_ascii (canonical true l) else k.

Notation Header := (gmap string (list string)).

Definition Header_Get (h : Header) (k : string) : string :=
  match h !! CanonicalHeaderKey k with Some (v :: _) => v | _ => "" end.
Definition Header_Set (h : Header) (k v : string) : Header := <[CanonicalHeaderKey k := [v]]> h.
Definition Header_Del (h : Header) (k : string) : Header := delete (CanonicalHeaderKey k) h.

(** ** Examples *)

Module AsciiOnly.
#[export] Instance ascii_only : Unicode :=
  { uni_lower r := if r =? 0x212A then 107 else if r =? 0x130 then 105 else r; uni_fold _ _ := false }.
End AsciiOnly.
Import AsciiOnly.

Example lower_host : ToLower "API.Example.COM" = "api.example.com".
Proof. reflexivity. Qed.
Example fold_scheme : EqualFold "HTTPS" "https" = true ∧ EqualFold "http" "https" = false.
Proof. done. Qed.
Example suffix_wild : HasSuffix "a.example.com" ".example.com" = true ∧ HasSuffix "example.com" ".example.com" = false
  ∧ TrimSuffix "example.com." "." = "example.com".
Proof. done. Qed.
Example split_ports : SplitHostPort "h:80" = Some ("h", "80") ∧ SplitHostPort "[::1]:8443" = Some ("::1", "8443")
  ∧ SplitHostPort "h" = None ∧ SplitHostPort "::1" = None ∧ SplitHostPort "[::1]" = None ∧ SplitHostPort "h:" = Some ("h", "")
  ∧ SplitHostPort "[a]b:1" = None ∧ SplitHostPort "[a]:1:2" = None ∧ SplitHostPort "a]:1" = None.
Proof. done. Qed.
Example ip_texts : IPString [10; 0; 0; 100] = "10.0.0.100" ∧ IPString (mapped [1; 1; 1; 1]) = "1.1.1.1"
  ∧ (IPString <$> ParseIP "fd00::1:2") = Some "fd00::1:2" ∧ (IPString <$> ParseIP "1:0:0:2:0:0:0:3") = Some "1:0:0:2::3"
  ∧ (IPString <$> ParseIP "::") = Some "::" ∧ (IPString <$> ParseIP "1:2:3:4:5:6:0:8") = Some "1:2:3:4:5:6:0:8".
Proof. done. Qed.
Example header_keys : CanonicalHeaderKey "x-task-id" = "X-Task-Id" ∧ CanonicalHeaderKey "TE" = "Te" ∧ CanonicalHeaderKey "a b" = "a b".
Proof. done. Qed.
Example replaced : ReplaceAll "Bearer ${SECRET}" "${SECRET}" "s3" = "Bearer s3".
Proof. reflexivity. Qed.
Example cleaned : path_Clean "//a/../b" = "/b" ∧ path_Clean "/v1/" = "/v1".
Proof. done. Qed.
