(* ===== verification/Threads.v ===== *)
(** * Handlers as programs, goroutines as threads

    A handler of the network gateway is a tree of atomic operations on the shared
    state, each answered by that state and by the environment; goroutines are
    such programs run in any interleaving.  [wp] is the program logic the handlers
    are proved in: an invariant of the shared state, a preorder it only moves
    along, and at every operation any interference in between. *)

From S2P Require Import Prelude.

Section progs.
Context {S W : Type} {E : Type → Type} (exec : ∀ X, E X → W → S → S * X).
Arguments exec {X} _ _ _.

Inductive prog : Type → Type :=
| Ret {A} (a : A) : prog A
| Vis {A X} (e : E X) (k : X → prog A) : prog A
| Go {A} (p : prog unit) (k : prog A) : prog A.

Fixpoint pbind {A B} (p : prog A) : (A → prog B) → prog B :=
  match p in prog A return (A → prog B) → prog B with
  | Ret a => λ f, f a
  | Vis e k => λ f, Vis e (λ x, pbind (k x) f)
  | Go q k => λ f, Go q (pbind k f)
  end.

(** One step of a thread: the new shared state, what is left of it and the
    thread it started. *)
Definition small {A} (p : prog A) (w : W) (s : S) : option (S * prog A * list (prog unit)) :=
  match p in prog A return option (S * prog A * list (prog unit)) with
  | Ret _ => None
  | Vis e k => let '(s', x) := exec e w s in Some (s', k x, [])
  | Go q k => Some (s, k, [q])
  end.

(** A run of one program alone, the environment's answers given in order. *)
Fixpoint alone {A} (p : prog A) : list W → S → option (S * A) :=
  match p in prog A return list W → S → option (S * A) with
  | Ret a => λ _ s, Some (s, a)
  | Vis e k => λ ws s, match ws with
                       | w :: ws => let '(s', x) := exec e w s in alone (k x) ws s'
                       | [] => None
                       end
  | Go _ k => λ ws s, alone k ws s
  end.

Definition system : Type := S * list (prog unit).

(** What starts threads ([entry]) and what else changes the shared state
    ([env]). *)
Context (entry : prog unit → Prop) (env : S → S → Prop).

Inductive step : system → system → Prop :=
| step_start s ts p : entry p → step (s, ts) (s, ts ++ [p])
| step_env s s' ts : env s s' → step (s, ts) (s', ts)
| step_run s ts i p w s' p' new :
    ts !! i = Some p → small p w s = Some (s', p', new) → step (s, ts) (s', <[i := p']> ts ++ new).

Definition reachable (s0 : S) : system → Prop := rtc step (s0, []).

Context (I : S → Prop) (R : S → S → Prop).

Fixpoint wp {A} (p : prog A) : (A → S → Prop) → S → Prop :=
  match p in prog A return (A → S → Prop) → S → Prop with
  | Ret a => λ Q s0, Q a s0
  | Vis e k => λ Q s0, ∀ s w, R s0 s → I s →
      let '(s', x) := exec e w s in I s' ∧ R s s' ∧ wp (k x) Q s'
  | Go q k => λ Q s0, wp q (λ _ _, True) s0 ∧ wp k Q s0
  end.

Context `{!PreOrder R}.

Lemma wp_mono {A} (p : prog A) (Q Q' : A → S → Prop) s0 s1 :
  (∀ a s s', Q a s → R s0 s → R s s' → Q' a s') → R s0 s1 → wp p Q s0 → wp p Q' s1.
Proof.
  revert Q Q' s0 s1. induction p as [A a|A X e k IH|A q IHq k IHk]; simpl; intros Q Q' s0 s1 HQ H01 Hw.
  - eapply HQ; eauto. reflexivity.
  - intros s w H1s HI. specialize (Hw s w ltac:(by etrans) HI).
    destruct (exec e w s) as [s' x]. destruct Hw as (HI'&HR&Hw). split; [done|]. split; [done|].
    eapply (IH x Q Q' s' s'); [|reflexivity|done].
    intros a t t' Ha ??. eapply HQ; eauto. by do 2 etrans.
  - destruct Hw as [H1 H2]. split; [|by eapply IHk; eauto]. by eapply (IHq (λ _ _, True)).
Qed.

Lemma wp_bind {A B} (p : prog A) (f : A → prog B) Q s0 :
  wp p (λ a s, wp (f a) Q s) s0 → wp (pbind p f) Q s0.
Proof.
  revert f Q s0. induction p as [A a|A X e k IH|A q IHq k IHk]; simpl; intros f Q s0 Hw; [done| |].
  - intros s w HR HI. specialize (Hw s w HR HI). destruct (exec e w s). destruct Hw as (?&?&?). eauto.
  - destruct Hw. eauto.
Qed.

Definition threads_ok (sys : system) : Prop :=
  I sys.1 ∧ Forall (λ p, wp p (λ _ _, True) sys.1) sys.2.

Lemma wp_stable (p : prog unit) s s' : R s s' → wp p (λ _ _, True) s → wp p (λ _ _, True) s'.
Proof. intros. by eapply (wp_mono p (λ _ _, True)). Qed.

Lemma small_ok (p : prog unit) w s s' p' new :
  I s → wp p (λ _ _, True) s → small p w s = Some (s', p', new) →
  I s' ∧ R s s' ∧ wp p' (λ _ _, True) s' ∧ Forall (λ p, wp p (λ _ _, True) s') new.
Proof.
  intros HI Hw Hs.
  assert (∀ A (p : prog A) (p' : prog A), wp p (λ _ _, True) s → small p w s = Some (s', p', new) →
    I s' ∧ R s s' ∧ wp p' (λ _ _, True) s' ∧ Forall (λ p, wp p (λ _ _, True) s') new) as Hgen; [|by eapply Hgen].
  clear -HI PreOrder0. intros A p. destruct p as [A a|A X e k|A q k]; intros p' Hw Hs; simpl in *; [done| |].
  - specialize (Hw s w ltac:(reflexivity) HI). destruct (exec e w s). simplify_eq. naive_solver.
  - simplify_eq. destruct Hw. split_and!; [done|reflexivity|done|]. by constructor.
Qed.

(** Soundness: the invariant holds in every interleaving. *)
Lemma threads_sound s0 sys :
  I s0 →
  (∀ p s, entry p → I s → wp p (λ _ _, True) s) →
  (∀ s s', env s s' → I s → I s' ∧ R s s') →
  reachable s0 sys → threads_ok sys.
Proof.
  intros H0 Hentry Henv Hr. unfold reachable in Hr.
  remember (s0, []) as init eqn:Hinit. assert (threads_ok init) as Hok by (subst; split; [done|constructor]). clear Hinit H0.
  induction Hr as [|x y z Hstep _ IH]; [done|]. apply IH. clear IH z.
  destruct Hok as [HI Hts]. destruct Hstep as [s ts p Hp|s s' ts He|s ts i p w s' p' new Hi Hs]; simpl in *.
  - split; simpl; [done|]. apply Forall_app. split; [done|]. constructor; [by apply Hentry|done].
  - destruct (Henv s s' He HI) as [HI' HR]. split; simpl; [done|].
    eapply Forall_impl; [|exact Hts]. intros q. by apply wp_stable.
  - destruct (small_ok p w s s' p' new) as (HI'&HR&Hp'&Hnew); [done|exact (Forall_lookup_1 _ _ _ _ Hts Hi)|done|].
    split; simpl; [done|]. apply Forall_app. split; [|done]. apply Forall_insert; [|done].
    eapply Forall_impl; [|exact Hts]. intros q. by apply wp_stable.
Qed.

(** A program run alone as a thread of the system. *)
Lemma small_alone (w0 : W) (p : prog unit) ws s s' u ts i :
  alone p ws s = Some (s', u) → ts !! i = Some p →
  ∃ ts', rtc step (s, ts) (s', ts') ∧ ∀ j, j ≠ i → (j < length ts)%nat → ts' !! j = ts !! j.
Proof.
  assert (∀ A (p : prog A), ∀ (HA : A = unit) ws s u ts, alone p ws s = Some (s', u) →
    ts !! i = Some (eq_rect A prog p unit HA) →
    ∃ ts', rtc step (s, ts) (s', ts') ∧ ∀ j, j ≠ i → (j < length ts)%nat → ts' !! j = ts !! j) as Hgen.
  { clear ws s u ts p. intros A p. induction p as [A a|A X e k IH|A q IHq k IHk]; intros -> ws s u ts; simpl; intros Ha Hi.
    - simplify_eq. eexists. split; [reflexivity|done].
    - destruct ws as [|w ws]; [done|]. destruct (exec e w s) as [s1 x] eqn:Hx.
      destruct (IH x eq_refl ws s1 u (<[i := k x]> ts ++ [])) as (ts'&Hr&Hj); [done| |].
      { rewrite app_nil_r. simpl. apply list_lookup_insert_eq. by eapply lookup_lt_Some. }
      exists ts'. split.
      + eapply rtc_l; [|done]. eapply step_run; [done|]. simpl. by rewrite Hx.
      + intros j Hji Hjl. rewrite Hj; [|done|by rewrite app_nil_r, length_insert].
        by rewrite app_nil_r, list_lookup_insert_ne.
    - destruct (IHk eq_refl ws s u (<[i := k]> ts ++ [q])) as (ts'&Hr&Hj); [done| |].
      { simpl. apply lookup_app_l_Some, list_lookup_insert_eq. by eapply lookup_lt_Some. }
      exists ts'. split.
      + eapply rtc_l; [|done]. by eapply (step_run _ _ _ _ w0).
      + intros j Hji Hjl. rewrite Hj; [|done|rewrite length_app, length_insert; simpl; lia].
        rewrite lookup_app_l by (by rewrite length_insert). by rewrite list_lookup_insert_ne. }
  intros. by eapply (Hgen unit p eq_refl).
Qed.

(** Programs run one after the other, each alone from its start to its end. *)
Fixpoint in_turn (l : list (prog unit * list W)) (s : S) : option S :=
  match l with
  | [] => Some s
  | (p, ws) :: l => match alone p ws s with Some (s', _) => in_turn l s' | None => None end
  end.

Lemma run_in_turn (w0 : W) s0 s ts progs s' :
  reachable s0 (s, ts) → Forall (λ pw, entry pw.1) progs → in_turn progs s = Some s' → ∃ ts', reachable s0 (s', ts').
Proof.
  intros Hr Hf. revert s ts Hr. induction Hf as [|[p ws] progs Hp Hf IH]; intros s ts Hr Hi; simpl in *.
  - simplify_eq. eauto.
  - destruct (alone p ws s) as [[s1 u]|] eqn:Ha; [|done].
    destruct (small_alone w0 p ws s s1 u (ts ++ [p]) (length ts)) as (ts1&Hs&_); [done|by apply list_lookup_middle|].
    eapply IH; [|done]. unfold reachable in *. etrans; [exact Hr|]. eapply rtc_l; [by apply step_start|exact Hs].
Qed.

(** A schedule: which thread runs next, and what the environment answers it. *)
Fixpoint sched (l : list (nat * W)) (sys : system) : option system :=
  match l with
  | [] => Some sys
  | (i, w) :: l =>
      match sys.2 !! i ≫= λ p, small p w sys.1 with
      | Some (s', p', new) => sched l (s', <[i := p']> sys.2 ++ new)
      | None => None
      end
  end.

Lemma sched_steps l sys sys' : sched l sys = Some sys' → rtc step sys sys'.
Proof.
  revert sys. induction l as [|[i w] l IH]; intros [s ts] Hs; simpl in *; [by simplify_eq|].
  destruct (ts !! i) as [p|] eqn:Hi; simpl in Hs; [|done]. destruct (small p w s) as [[[s' p'] new]|] eqn:Hp; [|done].
  eapply rtc_l; [by eapply step_run|]. by apply IH.
Qed.

Lemma run_sched s0 s ts ps l sys :
  reachable s0 (s, ts) → Forall entry ps → sched l (s, ts ++ ps) = Some sys → reachable s0 sys.
Proof.
  intros Hr Hps Hs. apply sched_steps in Hs. unfold reachable in *. etrans; [|exact Hs]. clear Hs. revert ts Hr.
  induction Hps as [|p ps Hp _ IH]; intros ts Hr; [by rewrite app_nil_r|]. rewrite (cons_middle p ts ps), app_assoc. apply IH.
  eapply rtc_r; [exact Hr|by apply step_start].
Qed.

Lemma run_env s0 s ts s' : reachable s0 (s, ts) → env s s' → reachable s0 (s', ts).
Proof. intros Hr He. eapply rtc_r; [exact Hr|by apply step_env]. Qed.
End progs.

Arguments prog : clear implicits.
Arguments Ret {E A} _ : assert.
Arguments Vis {E A X} _ _ : assert.
Arguments Go {E A} _ _ : assert.

(** ** Contracts of operations

    With a precondition and a postcondition for every operation - the latter
    facts that stay true - programs are proved one operation at a time:
    [spec K p Q] says that [p], started where the fact [K] holds, keeps the invariant
    whatever else runs, and ends with [Q]. *)

Section contracts.
Context {S W : Type} {E : Type → Type} (exec : ∀ X, E X → W → S → S * X).
Context (I : S → Prop) (R : S → S → Prop) `{!PreOrder R}.

Definition stable (K : S → Prop) : Prop := ∀ s s', R s s' → K s → K s'.

Definition spec {A} (K : S → Prop) (p : prog E A) (Q : A → S → Prop) : Prop :=
  ∀ s, K s → wp exec I R p Q s.

Lemma spec_ret {A} K (a : A) Q : (∀ s, K s → Q a s) → spec K (Ret a) Q.
Proof. intros Hq s. apply Hq. Qed.

Lemma spec_bind {A B} K (p : prog E A) (f : A → prog E B) P Q :
  stable K → spec K p P → (∀ a, spec (λ s, K s ∧ P a s) (f a) Q) → (∀ a, stable (P a)) → spec K (pbind p f) Q.
Proof.
  intros HK Hp Hf HP s Hs. apply wp_bind. eapply (wp_mono exec I R p P); [|reflexivity|by apply Hp].
  intros a t t' Ha HL HL'. apply Hf. split; [|by eapply HP]. eapply HK; [|done]. by etrans.
Qed.

Lemma spec_go {A} K (q : prog E unit) (k : prog E A) Q : spec K q (λ _ _, True) → spec K k Q → spec K (Go q k) Q.
Proof. intros Hq Hk s Hs. split; [by apply Hq|by apply Hk]. Qed.

Lemma spec_weaken {A} K K' (p : prog E A) Q : (∀ s, K s → K' s) → spec K' p Q → spec K p Q.
Proof. intros HK Hp s Hs. by apply Hp, HK. Qed.

Lemma stable_and K K' : stable K → stable K' → stable (λ s, K s ∧ K' s).
Proof. intros H1 H2 s s' HL []. split; eauto. Qed.
Lemma stable_pure (P : Prop) : stable (λ _, P).
Proof. by intros s s'. Qed.

Context (pre : ∀ X, E X → S → Prop) (post : ∀ X, E X → X → S → Prop).
Context (Hops : ∀ X (o : E X) w s, I s → pre X o s → let '(s', x) := exec X o w s in I s' ∧ R s s' ∧ post X o x s').

Lemma spec_vis {A X} K (o : E X) (k : X → prog E A) Q :
  stable K → (∀ s, I s → K s → pre X o s) → (∀ x, spec (λ s, K s ∧ post X o x s) (k x) Q) → spec K (Vis o k) Q.
Proof.
  intros HK Hpre Hk s0 Hs0 s w HL HI. pose proof (HK _ _ HL Hs0) as HKs.
  pose proof (Hops X o w s HI (Hpre s HI HKs)) as He. destruct (exec X o w s) as [s' x]. destruct He as (HI'&HL'&Hp).
  split_and!; [done|done|]. apply Hk. split; [by eapply HK|done].
Qed.
End contracts.

Notation "x '<-!' e ';' k" := (Vis e (λ x, k)) (at level 100, e at next level, k at level 200, right associativity) : go_scope.
Notation "e '⨟' k" := (Vis e (λ _ : unit, k)) (at level 100, k at level 200, right associativity) : go_scope.
Notation "'bind' x ':=' p 'in' k" := (pbind p (λ x, k)) (at level 10, x pattern, p at level 100, k at level 200) : go_scope.
