(* ===== verification/Egress.v ===== *)
(** * Egress policy (internal/network/egress)

    The policy of a task and what is decided from it: domain and path matching,
    the first-match rules, credential injection, interception, and the floor of
    addresses that are never contacted. *)

From stdpp Require Import pretty.
From S2P Require Import Prelude Json Strconv NetIP GoText.

(** ** Data *)

Record EgressInject : Type := mkInject {
  inj_Header : string; inj_Format : string; inj_Secret : string; inj_AllowPlainHTTP : bool
}.

Record EgressRule : Type := mkRule {
  er_Name : string; er_Host : string; er_SNI : string; er_Method : list string; er_Path : string;
  er_Scheme : string; er_Port : Z; er_Allow : option bool; er_Inject : option EgressInject; er_MITM : option bool
}.

Record URL : Type := mkURL { u_Scheme : string; u_Host : string; u_Path : string; u_RawQuery : string }.

(** An [http.Request] as the server hands it over; [r_Body] is what the client
    sends as its body, whatever length it announced ([-1] is none). *)
Record Request : Type := mkRequest {
  r_Method : string; r_URL : URL; r_Host : string; r_Header : Header; r_ContentLength : Z; r_Body : list Z
}.

(** What [net/http] does with the target of a request: one with an authority
    decides [Host]. *)
Definition server_request (r : Request) : Request :=
  if bool_decide (u_Host (r_URL r) = "") then r
  else mkRequest (r_Method r) (r_URL r) (u_Host (r_URL r)) (r_Header r) (r_ContentLength r) (r_Body r).

Record Policy : Type := mkPolicy {
  AllowDomains : list string; BlockDomains : list string; MaxRequestBody : Z; MaxResponseBody : Z;
  AllowedMethods : list string; ReviewHook : option (Request → Z → bool * string); Rules : list EgressRule
}.

(** [&Policy{}]. *)
Definition empty_policy : Policy := mkPolicy [] [] 0 0 [] None [].

Inductive Decision : Type := DecisionAllow | DecisionBlock | DecisionReview.
#[global] Instance Decision_eq_dec : EqDecision Decision.
Proof. solve_decision. Defined.

Definition maxInjectValueBytes : Z := 2048.

Record requestView : Type := mkView { v_method : string; v_host : string; v_path : string; v_scheme : string; v_port : string }.

(** A peer of a connection: [*net.TCPAddr], or something else. *)
Inductive Addr : Type := TCPAddr (ip : list Z) (port : Z) | OtherAddr.
#[global] Instance Addr_eq_dec : EqDecision Addr.
Proof. solve_decision. Defined.

(** ** Views *)

Definition splitHostPort (hostport : string) : string * string :=
  match SplitHostPort hostport with
  | Some hp => hp
  | None =>
      if HasPrefix hostport "[" && HasSuffix hostport "]"
      then (String.substring 1 (String.length hostport - 2) hostport, "")
      else (hostport, "")
  end.

Definition stripPort (hostport : string) : string := (splitHostPort hostport).1.

Definition stripPortMITM (hostport : string) : string :=
  match SplitHostPort hostport with Some (h, _) => h | None => hostport end.

Definition normalizePath (p : string) : string :=
  if bool_decide (p = "") then "/" else
  let clean := path_Clean p in
  if negb (bool_decide (clean = "/")) && HasSuffix p "/" then clean +:+ "/" else clean.

(** [domainMatches], exported as [DomainMatches]. *)
Definition domainMatches (host rule : string) : bool :=
  if bool_decide (rule = host) then true
  else if HasPrefix rule "*." then HasSuffix host (String.substring 1 (String.length rule - 1) rule)
  else false.

Definition pathMatches (rule p : string) : bool :=
  if bool_decide (rule = p) then true
  else if HasSuffix rule "/*" then
    let prefix := TrimSuffix rule "*" in
    let bare := TrimSuffix prefix "/" in
    HasPrefix p prefix || bool_decide (p = bare)
  else false.

Section views.
Context `{Unicode}.

Definition viewFromHTTP (r : Request) : requestView :=
  let scheme := if bool_decide (u_Scheme (r_URL r) = "") then "http" else u_Scheme (r_URL r) in
  let '(host, urlPort) := splitHostPort (r_Host r) in
  let port := if bool_decide (urlPort = "") then (if EqualFold scheme "https" then "443" else "80") else urlPort in
  mkView (r_Method r) (ToLower host) (normalizePath (u_Path (r_URL r))) (ToLower scheme) port.

Definition viewFromConnect (r : Request) : requestView :=
  let '(host, port) := splitHostPort (r_Host r) in
  mkView "CONNECT" (ToLower host) "" "https" (if bool_decide (port = "") then "443" else port).

(** ** Decisions *)

Definition ruleMatches (r : EgressRule) (v : requestView) : bool :=
  let h := if bool_decide (er_Host r = "") then er_SNI r else er_Host r in
  if bool_decide (h = "") || negb (domainMatches (v_host v) (ToLower h)) then false else
  if bool_decide (er_Method r ≠ []) && negb (existsb (λ m, EqualFold m (v_method v)) (er_Method r)) then false else
  if bool_decide (er_Path r ≠ "") && negb (pathMatches (er_Path r) (v_path v)) then false else
  if bool_decide (er_Scheme r ≠ "") && negb (EqualFold (er_Scheme r) (v_scheme v)) then false else
  if negb (er_Port r =? 0) && negb (bool_decide (pretty (er_Port r) = v_port v)) then false else true.

(** The loop over the rules: the first that matches fully. *)
Definition owner (v : requestView) (pol : Policy) : option EgressRule :=
  find (λ r, ruleMatches r v) (Rules pol).

Definition decideDomain (v : requestView) (pol : Policy) : Decision :=
  if existsb (λ b, domainMatches (v_host v) (ToLower b)) (BlockDomains pol) then DecisionBlock else
  if bool_decide (Rules pol ≠ []) then
    match owner v pol with
    | Some r => if bool_decide (er_Allow r = Some false) then DecisionBlock else DecisionAllow
    | None => DecisionBlock
    end
  else if existsb (λ a, domainMatches (v_host v) (ToLower a)) (AllowDomains pol) then DecisionAllow
  else DecisionBlock.

(** The header value [ApplyInject] sets, and under which name. *)
Definition injection (v : requestView) (pol : Policy) : option (string * string) :=
  if bool_decide (Rules pol = []) then None else
  r ← owner v pol;
  inj ← er_Inject r;
  if negb (EqualFold (v_scheme v) "https") && negb (inj_AllowPlainHTTP inj) then None else
  if bool_decide (inj_Header inj = "") || bool_decide (inj_Secret inj = "") || bool_decide (er_Allow r = Some false) then None else
  let format := if bool_decide (inj_Format inj = "") then "${SECRET}" else inj_Format inj in
  let val := ReplaceAll format "${SECRET}" (inj_Secret inj) in
  if maxInjectValueBytes <? Z.of_nat (String.length val) then None else Some (inj_Header inj, val).

Definition ApplyInject (hdr : Header) (v : requestView) (pol : Policy) : Header :=
  match injection v pol with Some (k, val) => Header_Set hdr k val | None => hdr end.

Definition methodAllowed (method : string) (allowed : list string) : bool :=
  if bool_decide (allowed = []) then bool_decide (method ∈ ["GET"; "HEAD"; "POST"; "PUT"; "DELETE"; "PATCH"])
  else existsb (λ a, EqualFold a method) allowed.

Definition ruleMITM (host : string) (pol : Policy) : option EgressRule :=
  let host := stripPortMITM host in
  find (λ r, if bool_decide (er_MITM r = Some true) && bool_decide (is_Some (er_Inject r)) then
               let name := if bool_decide (er_SNI r = "") then er_Host r else er_SNI r in
               bool_decide (name = "") || domainMatches host (ToLower name)
             else false) (Rules pol).
End views.

(** ** Headers *)

Definition hopByHopHeaders : list string :=
  ["Connection"; "Proxy-Connection"; "Keep-Alive"; "Proxy-Authenticate"; "Proxy-Authorization"; "Te"; "Trailer";
   "Transfer-Encoding"; "Upgrade"].

Definition stripInternalHeaders (hdr : Header) : Header :=
  foldl Header_Del (Header_Del hdr "X-Task-Id") hopByHopHeaders.

Definition taskFromRequest (r : Request) : string := Header_Get (r_Header r) "X-Task-Id".

(** ** The floor *)

Definition isPrivate (a : Addr) : bool :=
  match a with
  | OtherAddr => false
  | TCPAddr ip _ =>
      if bool_decide (ip = []) then false else
      if IsLoopback ip || IsPrivate ip || IsLinkLocalUnicast ip || IsLinkLocalMulticast ip then true else
      match ip4 ip with
      | None => false
      | Some q =>
          if IsUnspecified ip || IsMulticast ip then true else
          if (nth_byte q 0 =? 100) && (Z.land (nth_byte q 1) 0xC0 =? 64) then true else
          if (nth_byte q 0 =? 0) || (240 <=? nth_byte q 0) then true else
          (nth_byte q 0 =? 198) && (Z.land (nth_byte q 1) 0xFE =? 18)
      end
  end.

Definition learnedSetContainsIP (set : gset string) (a : Addr) : bool :=
  match a with TCPAddr ip _ => bool_decide (IPString ip ∈ set) | OtherAddr => false end.

(** ** Facts on matching *)

Lemma substring_0_eq (s : string) n : n = String.length s → String.substring 0 n s = s.
Proof. intros ->. induction s as [|c s IH]; simpl; [done|]. by rewrite IH. Qed.

Lemma append_cons c (a b : string) : String c a +:+ b = String c (a +:+ b).
Proof. done. Qed.

Lemma substring_split (s : string) n :
  (n ≤ String.length s)%nat → s = String.substring 0 n s +:+ String.substring n (String.length s - n) s.
Proof.
  revert n. induction s as [|c s IH]; intros n Hn; simpl in *; [by destruct n|].
  destruct n; simpl; [by rewrite substring_0_eq|].
  rewrite append_cons. f_equal. apply IH. lia.
Qed.

Lemma HasSuffix_spec s suf : HasSuffix s suf = true ↔ ∃ pre, s = pre +:+ suf.
Proof.
  unfold HasSuffix. rewrite andb_true_iff, Nat.leb_le, bool_decide_eq_true. split.
  - intros [Hl Hs]. exists (String.substring 0 (String.length s - String.length suf) s).
    rewrite <- Hs at 2. rewrite (substring_split s (String.length s - String.length suf)) at 1 by lia.
    do 2 f_equal. lia.
  - intros [pre ->].
    assert (String.length (pre +:+ suf) = String.length pre + String.length suf)%nat as Hlen
      by (induction pre as [|c pre IH]; simpl; [done|by rewrite <- IH]).
    rewrite Hlen. split; [lia|]. replace (_ + _ - _)%nat with (String.length pre) by lia. clear Hlen.
    induction pre as [|c pre IH]; simpl; [by apply substring_0_eq|done].
Qed.

Lemma HasPrefix_spec s pre : HasPrefix s pre = true ↔ ∃ t, s = pre +:+ t.
Proof.
  unfold HasPrefix. revert s. induction pre as [|c pre IH]; intros s; simpl.
  - destruct s; (split; [intros _; eauto|done]).
  - destruct s as [|d s]; [by split; [|intros [t Ht]]|].
    change (String.prefix (String c pre) (String d s)) with (if Ascii.ascii_dec c d then String.prefix pre s else false).
    destruct (Ascii.ascii_dec c d) as [->|Hne].
    + rewrite IH. split; intros [t Ht]; exists t; [by subst|by injection Ht as ->].
    + split; [done|intros [t Ht]]. by injection Ht as ->.
Qed.

(** A rule matches its own name, and a wildcard every name that ends in what
    follows its star. *)
Lemma domainMatches_spec host rule :
  domainMatches host rule = true ↔ rule = host ∨ ∃ suf pre, rule = "*." +:+ suf ∧ host = pre +:+ "." +:+ suf.
Proof.
  unfold domainMatches. case_bool_decide as Heq; [naive_solver|].
  destruct (HasPrefix rule "*.") eqn:Hp.
  - apply HasPrefix_spec in Hp as [suf ->]. simpl.
    rewrite substring_0_eq by lia. rewrite HasSuffix_spec. split.
    + intros [pre ->]. right. by exists suf, pre.
    + intros [?|(suf'&pre&Heq'&->)]; [done|]. exists pre. by injection Heq' as ->.
  - split; [done|]. intros [?|(suf&pre&->&_)]; [done|]. by rewrite (proj2 (HasPrefix_spec _ _)) in Hp by eauto.
Qed.
