(* ===== verification/Sni.v ===== *)
(** * The server name of a TLS ClientHello (egress/transparent.go)

    [parseSNI] and [sniffClientHello] on bytes a guest chooses.  Indexing and
    slicing are checked: [EPanic] is Go's run-time error.  The theorems: neither
    panics nor loops on any bytes, and the name a client encodes is the name
    found. *)

From S2P Require Import Prelude Json Strconv NetIP GoText.

Inductive sni_err : Type :=
| ENotHello | ETruncated | EBlockOverruns | EExtOverruns | ENameOverruns | EMalformed | ENoSNI
| ENotHandshake | ERecordLength | ERead | EPanic | EFuel.
#[global] Instance sni_err_eq_dec : EqDecision sni_err.
Proof. solve_decision. Defined.

Notation bytes := (list Z).
Definition blen (b : bytes) : Z := Z.of_nat (length b).

(** [b[i]] and [b[i:j]]. *)
Definition index (b : bytes) (i : Z) : result sni_err Z :=
  if i <? 0 then Err EPanic else match b !! Z.to_nat i with Some x => Ok x | None => Err EPanic end.
Definition slice (b : bytes) (i j : Z) : result sni_err bytes :=
  if (0 <=? i) && (i <=? j) && (j <=? blen b) then Ok (take (Z.to_nat (j - i)) (drop (Z.to_nat i) b)) else Err EPanic.

(** [binary.BigEndian.Uint16], which reads two bytes of its argument. *)
Definition be16 (b : bytes) : result sni_err Z :=
  let* hi := index b 0 in let* lo := index b 1 in Ok (hi * 256 + lo).

(** The closures of [parseSNI], over the position [p]. *)
Definition readU16 (hs : bytes) (p : Z) : result sni_err (Z * Z) :=
  if blen hs <? p + 2 then Err ETruncated else
  let* s := slice hs p (p + 2) in let* v := be16 s in Ok (v, p + 2).
Definition readU8 (hs : bytes) (p : Z) : result sni_err (Z * Z) :=
  if blen hs <=? p then Err ETruncated else let* v := index hs p in Ok (v, p + 1).
Definition skip (hs : bytes) (p n : Z) : result sni_err Z :=
  if (n <? 0) || (blen hs <? p + n) then Err ETruncated else Ok (p + n).

Definition text_of (b : bytes) : string := String.string_of_list_ascii (byte <$> b).

Fixpoint extensions (fuel : nat) (hs : bytes) (p extEnd : Z) : result sni_err string :=
  match fuel with
  | O => Err EFuel
  | S fuel =>
      if extEnd <? p + 4 then Err ENoSNI else
      let* st := slice hs p (p + 2) in let* extType := be16 st in
      let* sl := slice hs (p + 2) (p + 4) in let* extLen := be16 sl in
      let p := p + 4 in
      if (extLen <? 0) || (extEnd <? p + extLen) then Err EExtOverruns else
      if extType =? 0 then
        let* body := slice hs p (p + extLen) in
        if blen body <? 5 then Err EMalformed else
        let* kind := index body 2 in
        if negb (kind =? 0) then Err EMalformed else
        let* sn := slice body 3 5 in let* nameLen := be16 sn in
        if blen body <? 5 + nameLen then Err ENameOverruns else
        let* name := slice body 5 (5 + nameLen) in Ok (text_of name)
      else extensions fuel hs (p + extLen) extEnd
  end.

Definition parseSNI (hs : bytes) : result sni_err string :=
  if blen hs <? 44 then Err ENotHello else
  let* b0 := index hs 0 in
  if negb (b0 =? 1) then Err ENotHello else
  let p := 4 + 2 + 32 in
  let* (sidLen, p) := readU8 hs p in
  let* p := skip hs p sidLen in
  let* (csLen, p) := readU16 hs p in
  let* p := skip hs p csLen in
  let* (cmLen, p) := readU8 hs p in
  let* p := skip hs p cmLen in
  let* (extTotal, p) := readU16 hs p in
  let extEnd := p + extTotal in
  if blen hs <? extEnd then Err EBlockOverruns else
  extensions (length hs) hs p extEnd.

(** The default size of a [bufio.Reader]: [Peek] of more fails. *)
Definition bufio_size : Z := 4096.

(** [br.Peek(n)] on a connection over which [input] arrives and no more. *)
Definition Peek (input : bytes) (n : Z) : result sni_err bytes :=
  if (bufio_size <? n) || (blen input <? n) then Err ERead else Ok (take (Z.to_nat n) input).

Definition sniffClientHello (input : bytes) : result sni_err (string * bytes) :=
  let* hdr := Peek input 5 in
  let* t := index hdr 0 in
  if negb (t =? 0x16) then Err ENotHandshake else
  let* h := index hdr 3 in let* l := index hdr 4 in
  let recLen := Z.lor (Z.shiftl h 8) l in
  if (recLen <? 44) || (2^16 <? recLen) then Err ERecordLength else
  let* full := Peek input (5 + recLen) in
  let* hs := slice full 5 (blen full) in
  let* sni := parseSNI hs in
  Ok (sni, full).

(** ** No panic, no divergence *)

Definition harmless {A} (P : A → Prop) (r : result sni_err A) : Prop :=
  match r with Ok a => P a | Err e => e ≠ EPanic ∧ e ≠ EFuel end.

Lemma harmless_bind {A B} (P : A → Prop) (Q : B → Prop) (r : result sni_err A) k :
  harmless P r → (∀ a, P a → harmless Q (k a)) → harmless Q (rbind r k).
Proof. destruct r; simpl; eauto. Qed.

Lemma harmless_impl {A} (P Q : A → Prop) (r : result sni_err A) :
  harmless P r → (∀ a, P a → Q a) → harmless Q r.
Proof. destruct r; simpl; eauto. Qed.

Lemma index_ok b i : Forall is_byte b → 0 ≤ i < blen b → harmless is_byte (index b i).
Proof.
  intros Hb Hi. unfold index. destruct (Z.ltb_spec i 0); [lia|]. unfold blen in *.
  destruct (lookup_lt_is_Some_2 b (Z.to_nat i)) as [x Hx]; [lia|]. rewrite Hx. simpl.
  exact (Forall_lookup_1 _ _ _ _ Hb Hx).
Qed.

Lemma slice_ok b i j : Forall is_byte b → 0 ≤ i ≤ j → j ≤ blen b →
  harmless (λ s, Forall is_byte s ∧ blen s = j - i) (slice b i j).
Proof.
  intros Hb Hi Hj. unfold slice. rewrite !(proj2 (Z.leb_le _ _)) by lia. simpl.
  split; [by apply Forall_take, Forall_drop|]. unfold blen in *. rewrite length_take, length_drop. lia.
Qed.

Lemma be16_ok b : Forall is_byte b → 2 ≤ blen b → harmless (λ v, 0 ≤ v < 65536) (be16 b).
Proof.
  intros Hb Hl. unfold be16.
  eapply harmless_bind; [apply index_ok; [done|lia]|]; cbv beta; intros hi Hhi.
  eapply harmless_bind; [apply index_ok; [done|lia]|]; cbv beta; intros lo Hlo. simpl. unfold is_byte in *. lia.
Qed.

(** A field of two bytes at [p]. *)
Lemma field_ok b p : Forall is_byte b → 0 ≤ p → p + 2 ≤ blen b →
  harmless (λ v, 0 ≤ v < 65536) (let* s := slice b p (p + 2) in be16 s).
Proof.
  intros Hb Hp Hl. eapply harmless_bind; [apply slice_ok; [done|lia|lia]|]. intros s [Hs Hsl]. apply be16_ok; [done|lia].
Qed.

Lemma readU16_ok hs p : Forall is_byte hs → 0 ≤ p → harmless (λ vp, 0 ≤ vp.1 < 65536 ∧ vp.2 = p + 2 ∧ vp.2 ≤ blen hs) (readU16 hs p).
Proof.
  intros Hb Hp. unfold readU16. destruct (Z.ltb_spec (blen hs) (p + 2)); [by split|].
  eapply harmless_bind; [apply slice_ok; [done|lia|lia]|]; cbv beta; intros s [Hs Hsl].
  eapply harmless_bind; [apply be16_ok; [done|lia]|]; cbv beta; intros v Hv. simpl in *. lia.
Qed.

Lemma readU8_ok hs p : Forall is_byte hs → 0 ≤ p → harmless (λ vp, is_byte vp.1 ∧ vp.2 = p + 1 ∧ vp.2 ≤ blen hs) (readU8 hs p).
Proof.
  intros Hb Hp. unfold readU8. destruct (Z.leb_spec (blen hs) p); [by split|].
  eapply harmless_bind; [apply index_ok; [done|lia]|]; cbv beta; intros v Hv. simpl. split; [done|lia].
Qed.

Lemma skip_ok hs p n : harmless (λ p', p' = p + n ∧ 0 ≤ n ∧ p' ≤ blen hs) (skip hs p n).
Proof. unfold skip. destruct (Z.ltb_spec n 0), (Z.ltb_spec (blen hs) (p + n)); simpl; (split; [done|done] || lia). Qed.

Lemma extensions_ok fuel hs p extEnd :
  Forall is_byte hs → 0 ≤ p ≤ extEnd → extEnd ≤ blen hs → extEnd - p < 4 * Z.of_nat fuel →
  harmless (λ _, True) (extensions fuel hs p extEnd).
Proof.
  revert p. induction fuel as [|fuel IH]; intros p Hb Hp He Hf; simpl extensions.
  - lia.
  - destruct (Z.ltb_spec extEnd (p + 4)); [by split|].
    eapply harmless_bind; [apply slice_ok; [done|lia|lia]|]; cbv beta; intros st [Hst Hstl].
    eapply harmless_bind; [apply be16_ok; [done|lia]|]; cbv beta; intros ty Hty.
    eapply harmless_bind; [apply slice_ok; [done|lia|lia]|]; cbv beta; intros sl [Hsl Hsll].
    eapply harmless_bind; [apply be16_ok; [done|lia]|]; cbv beta; intros n Hn.
    destruct (Z.ltb_spec n 0); [lia|]. destruct (Z.ltb_spec extEnd (p + 4 + n)); [by split|]. simpl.
    destruct (Z.eqb_spec ty 0); [|apply IH; [done|lia|done|lia]].
    eapply harmless_bind; [apply slice_ok; [done|lia|lia]|]; cbv beta; intros body [Hbody Hbl].
    destruct (Z.ltb_spec (blen body) 5); [by split|].
    eapply harmless_bind; [apply index_ok; [done|lia]|]; cbv beta; intros kind _.
    destruct (kind =? 0); simpl; [|by split].
    eapply harmless_bind; [apply slice_ok; [done|lia|lia]|]; cbv beta; intros sn [Hsn Hsnl].
    eapply harmless_bind; [apply be16_ok; [done|lia]|]; cbv beta; intros nl Hnl.
    destruct (Z.ltb_spec (blen body) (5 + nl)); [by split|].
    eapply harmless_bind; [apply slice_ok; [done|lia|lia]|]. done.
Qed.

Lemma parseSNI_harmless hs : Forall is_byte hs → harmless (λ _, True) (parseSNI hs).
Proof.
  intros Hb. unfold parseSNI. destruct (Z.ltb_spec (blen hs) 44); [by split|].
  eapply harmless_bind; [apply index_ok; [done|lia]|]; cbv beta; intros b0 _. destruct (negb _); [by split|].
  eapply harmless_bind; [by apply readU8_ok|]; cbv beta; intros [v1 p1] (_&Hp1&_). simpl in *.
  eapply harmless_bind; [apply skip_ok|]; cbv beta; intros p2 (Hp2&?&_).
  eapply harmless_bind; [apply readU16_ok; [done|lia]|]; cbv beta; intros [v3 p3] (_&Hp3&_). simpl in *.
  eapply harmless_bind; [apply skip_ok|]; cbv beta; intros p4 (Hp4&?&_).
  eapply harmless_bind; [apply readU8_ok; [done|lia]|]; cbv beta; intros [v5 p5] (_&Hp5&_). simpl in *.
  eapply harmless_bind; [apply skip_ok|]; cbv beta; intros p6 (Hp6&?&_).
  eapply harmless_bind; [apply readU16_ok; [done|lia]|]; cbv beta; intros [v7 p7] (Hv7&Hp7&Hl7). simpl in *.
  destruct (Z.ltb_spec (blen hs) (p7 + v7)); [by split|].
  apply extensions_ok; [done|lia|lia|]. unfold blen in *. lia.
Qed.

Lemma sniff_harmless input : Forall is_byte input → harmless (λ _, True) (sniffClientHello input).
Proof.
  intros Hb. unfold sniffClientHello.
  assert (∀ n, 0 ≤ n → harmless (λ b, Forall is_byte b ∧ blen b = n) (Peek input n)) as HP.
  { intros n Hn. unfold Peek. destruct (Z.ltb_spec bufio_size n); [by split|].
    destruct (Z.ltb_spec (blen input) n); [by split|]. simpl. split; [by apply Forall_take|].
    unfold blen in *. rewrite length_take. lia. }
  eapply harmless_bind; [by apply HP|]; cbv beta; intros hdr [Hh Hl].
  eapply harmless_bind; [apply index_ok; [done|lia]|]; cbv beta; intros t _. destruct (negb _); [by split|].
  eapply harmless_bind; [apply index_ok; [done|lia]|]; cbv beta; intros h _.
  eapply harmless_bind; [apply index_ok; [done|lia]|]; cbv beta; intros l _.
  destruct (Z.ltb_spec (Z.lor (Z.shiftl h 8) l) 44); [by split|]. simpl. destruct (2^16 <? _); [by split|].
  eapply harmless_bind; [apply HP; lia|]; cbv beta; intros full [Hf Hfl].
  eapply harmless_bind; [apply slice_ok; [done|lia|lia]|]; cbv beta; intros hs [Hhs _].
  eapply harmless_bind; [by apply parseSNI_harmless|]. done.
Qed.

(** ** What a client encodes (RFC 8446, RFC 6066) *)

Definition u16b (v : Z) : bytes := [v / 256; v mod 256].
Definition ext_bytes (e : Z * bytes) : bytes := u16b e.1 ++ u16b (blen e.2) ++ e.2.
Definition server_name (name : bytes) : bytes := u16b (3 + blen name) ++ [0] ++ u16b (blen name) ++ name.

Record hello : Type := mkHello {
  h_version : bytes; h_random : bytes; h_sid : bytes; h_suites : bytes; h_comp : bytes; h_exts : list (Z * bytes)
}.

Definition exts_bytes (es : list (Z * bytes)) : bytes := concat (ext_bytes <$> es).

(** Everything of the ClientHello before its extensions. *)
Definition hello_head (h : hello) (total : Z) : bytes :=
  [1; total / 65536; (total / 256) mod 256; total mod 256] ++ h_version h ++ h_random h ++ blen (h_sid h) :: h_sid h ++
  u16b (blen (h_suites h)) ++ h_suites h ++ blen (h_comp h) :: h_comp h.

Definition handshake (h : hello) : bytes :=
  let es := exts_bytes (h_exts h) in
  let total := 2 + 32 + 1 + blen (h_sid h) + 2 + blen (h_suites h) + 1 + blen (h_comp h) + 2 + blen es in
  hello_head h total ++ u16b (blen es) ++ es.

Definition tls_record (h : hello) : bytes := [0x16; 3; 1] ++ u16b (blen (handshake h)) ++ handshake h.

Definition hello_wf (h : hello) : Prop :=
  blen (h_version h) = 2 ∧ blen (h_random h) = 32 ∧ blen (h_sid h) < 256 ∧ blen (h_suites h) < 65536 ∧
  blen (h_comp h) < 256 ∧ blen (exts_bytes (h_exts h)) < 65536 ∧ Forall (λ e, 0 ≤ e.1 < 65536) (h_exts h).

Lemma blen_app (a b : bytes) : blen (a ++ b) = blen a + blen b.
Proof. unfold blen. rewrite length_app. lia. Qed.
Lemma blen_cons x (b : bytes) : blen (x :: b) = 1 + blen b.
Proof. unfold blen. simpl. lia. Qed.
Lemma blen_u16b v : blen (u16b v) = 2.
Proof. done. Qed.
Lemma blen_pos b : 0 ≤ blen b.
Proof. unfold blen. lia. Qed.
Lemma Z_to_nat_blen a : Z.to_nat (blen a) = length a.
Proof. unfold blen. lia. Qed.

Lemma slice_mid (a b c : bytes) i j : i = blen a → j = blen a + blen b → slice (a ++ b ++ c) i j = Ok b.
Proof.
  intros -> ->. unfold slice. pose proof (blen_pos a). pose proof (blen_pos b). pose proof (blen_pos c). rewrite !blen_app.
  rewrite !(proj2 (Z.leb_le _ _)) by lia. simpl.
  replace (blen a + blen b - blen a) with (blen b) by lia. rewrite !Z_to_nat_blen, drop_app_length, take_app_length. done.
Qed.

Lemma index_mid (a b : bytes) x i : i = blen a → index (a ++ x :: b) i = Ok x.
Proof.
  intros ->. unfold index. destruct (Z.ltb_spec (blen a) 0); [pose proof (blen_pos a); lia|].
  by rewrite Z_to_nat_blen, list_lookup_middle.
Qed.

Lemma be16_u16b v : 0 ≤ v < 65536 → be16 (u16b v) = Ok v.
Proof. intros Hv. unfold be16, u16b, index. simpl. f_equal. pose proof (Z_div_mod_eq_full v 256). lia. Qed.

Lemma readU16_mid (a c : bytes) v p : p = blen a → 0 ≤ v < 65536 → readU16 (a ++ u16b v ++ c) p = Ok (v, p + 2).
Proof.
  intros -> Hv. unfold readU16. rewrite !blen_app, blen_u16b. destruct (Z.ltb_spec (blen a + (2 + blen c)) (blen a + 2)).
  { pose proof (blen_pos c). lia. }
  rewrite (slice_mid a (u16b v) c) by done. cbn [rbind]. by rewrite be16_u16b.
Qed.

Lemma readU8_mid (a c : bytes) v p : p = blen a → readU8 (a ++ v :: c) p = Ok (v, p + 1).
Proof.
  intros ->. unfold readU8. rewrite blen_app, blen_cons. destruct (Z.leb_spec (blen a + (1 + blen c)) (blen a)).
  { pose proof (blen_pos c). lia. }
  by rewrite index_mid.
Qed.

Lemma skip_mid (a b c : bytes) p : p = blen a → skip (a ++ b ++ c) p (blen b) = Ok (p + blen b).
Proof.
  intros ->. unfold skip. rewrite !blen_app. pose proof (blen_pos b). pose proof (blen_pos c).
  destruct (Z.ltb_spec (blen b) 0), (Z.ltb_spec (blen a + (blen b + blen c)) (blen a + blen b)); simpl; try lia. done.
Qed.

(** One extension read from the front of the block. *)
Lemma extensions_cons fuel a t body c p extEnd :
  p = blen a → 0 ≤ t < 65536 → t ≠ 0 → blen body < 65536 → p + 4 + blen body ≤ extEnd →
  extensions (S fuel) (a ++ ext_bytes (t, body) ++ c) p extEnd =
  extensions fuel ((a ++ ext_bytes (t, body)) ++ c) (p + 4 + blen body) extEnd.
Proof.
  intros -> Ht Hne Hb He. cbn [extensions]. pose proof (blen_pos body). destruct (Z.ltb_spec extEnd (blen a + 4)); [lia|].
  unfold ext_bytes. cbn [fst snd]. rewrite <- !(assoc_L (++)).
  rewrite (slice_mid a (u16b t)) by done. cbn [rbind]. rewrite be16_u16b by done. cbn [rbind].
  rewrite (assoc_L (++) a). rewrite (slice_mid (a ++ u16b t) (u16b (blen body))) by (rewrite blen_app, !blen_u16b; lia).
  cbn [rbind]. rewrite be16_u16b by lia. cbn [rbind].
  destruct (Z.ltb_spec (blen body) 0); [lia|]. destruct (Z.ltb_spec extEnd (blen a + 4 + blen body)); [lia|]. cbn [orb].
  destruct (Z.eqb_spec t 0); [done|]. by rewrite <- !(assoc_L (++)).
Qed.

Lemma extensions_sni fuel a name c p extEnd :
  p = blen a → 5 + blen name < 65536 → p + 4 + blen (server_name name) ≤ extEnd →
  extensions (S fuel) (a ++ ext_bytes (0, server_name name) ++ c) p extEnd = Ok (text_of name).
Proof.
  intros -> Hn He. pose proof (blen_pos name) as Hpos.
  assert (blen (server_name name) = 5 + blen name) as Hlen
    by (unfold server_name; rewrite !blen_app, !blen_u16b, blen_cons; change (blen []) with 0; lia).
  cbn [extensions]. destruct (Z.ltb_spec extEnd (blen a + 4)); [lia|].
  unfold ext_bytes. cbn [fst snd]. rewrite <- !(assoc_L (++)).
  rewrite (slice_mid a (u16b 0)) by done. cbn [rbind]. rewrite be16_u16b by lia. cbn [rbind].
  rewrite (assoc_L (++) a). rewrite (slice_mid (a ++ u16b 0) (u16b (blen (server_name name)))) by (rewrite blen_app, !blen_u16b; lia).
  cbn [rbind]. rewrite be16_u16b by lia. cbn [rbind].
  destruct (Z.ltb_spec (blen (server_name name)) 0); [lia|].
  destruct (Z.ltb_spec extEnd (blen a + 4 + blen (server_name name))); [lia|]. cbn [orb].
  rewrite (assoc_L (++) (a ++ u16b 0)).
  rewrite (slice_mid ((a ++ u16b 0) ++ u16b (blen (server_name name))) (server_name name)) by (rewrite !blen_app, !blen_u16b; lia).
  cbn [rbind Z.eqb]. rewrite Hlen. destruct (Z.ltb_spec (5 + blen name) 5); [lia|].
  unfold server_name. change (u16b (3 + blen name) ++ [0] ++ u16b (blen name) ++ name) with
    (u16b (3 + blen name) ++ 0 :: (u16b (blen name) ++ name)).
  rewrite index_mid by done. cbn [rbind Z.eqb negb].
  change (u16b (3 + blen name) ++ 0 :: (u16b (blen name) ++ name)) with ((u16b (3 + blen name) ++ [0]) ++ u16b (blen name) ++ name).
  rewrite (slice_mid (u16b (3 + blen name) ++ [0]) (u16b (blen name)) name) by done. cbn [rbind].
  rewrite be16_u16b by lia. cbn [rbind]. destruct (Z.ltb_spec (5 + blen name) (5 + blen name)); [lia|].
  rewrite (assoc_L (++)). rewrite <- (app_nil_r name) at 3. rewrite (slice_mid _ name []) by done. done.
Qed.

Lemma exts_bytes_cons e es : exts_bytes (e :: es) = ext_bytes e ++ exts_bytes es.
Proof. done. Qed.

Lemma blen_ext e : blen (ext_bytes e) = 4 + blen e.2.
Proof. unfold ext_bytes. rewrite !blen_app, !blen_u16b. lia. Qed.

Lemma extensions_list fuel a pre name post p :
  p = blen a → Forall (λ e, 0 < e.1 < 65536) pre → (length pre < fuel)%nat →
  blen (exts_bytes (pre ++ (0, server_name name) :: post)) < 65536 →
  extensions fuel (a ++ exts_bytes (pre ++ (0, server_name name) :: post)) p
    (p + blen (exts_bytes (pre ++ (0, server_name name) :: post))) = Ok (text_of name).
Proof.
  revert fuel a p. induction pre as [|[t b] pre IH]; intros [|fuel] a p Hp Hpre Hf Hl; simpl in Hf; try lia.
  - simpl app in *. rewrite exts_bytes_cons, blen_app, blen_ext in Hl. cbn [snd] in Hl.
    pose proof (blen_pos (exts_bytes post)). pose proof (blen_pos name).
    assert (blen (server_name name) = 5 + blen name) as Hlen
      by (unfold server_name; rewrite !blen_app, !blen_u16b, blen_cons; change (blen []) with 0; lia).
    rewrite exts_bytes_cons. apply extensions_sni; [done|lia|]. rewrite blen_app, blen_ext. cbn [snd]. lia.
  - inversion Hpre as [|? ? [Ht1 Ht2] Hpre']; subst. simpl app in *. cbn [fst snd] in *.
    rewrite exts_bytes_cons, blen_app, blen_ext in Hl |- *. cbn [snd] in *.
    pose proof (blen_pos (exts_bytes (pre ++ (0, server_name name) :: post))). pose proof (blen_pos b).
    rewrite extensions_cons by lia. rewrite <- (IH fuel (a ++ ext_bytes (t, b)) (blen a + 4 + blen b)); [|..].
    + f_equal. lia.
    + rewrite blen_app, blen_ext. cbn [snd]. lia.
    + done.
    + lia.
    + lia.
Qed.

Lemma exts_bytes_length es : (length es ≤ length (exts_bytes es))%nat.
Proof.
  induction es as [|e es IH]; [done|]. rewrite exts_bytes_cons, length_app.
  assert (length (ext_bytes e) = 4 + length e.2)%nat by done. simpl. lia.
Qed.

(** What a client sends as the name is the name [parseSNI] returns. *)
Lemma parseSNI_handshake h pre name post :
  hello_wf h → h_exts h = pre ++ (0, server_name name) :: post → Forall (λ e, e.1 ≠ 0) pre →
  parseSNI (handshake h) = Ok (text_of name).
Proof.
  intros (Hv&Hr&Hsid&Hcs&Hcm&Hes&Hty) Hex Hpre. unfold handshake.
  set (total := 2 + 32 + 1 + _ + _ + _ + _ + _ + _ + _). clearbody total.
  set (es := exts_bytes (h_exts h)) in *. unfold hello_head.
  set (hd := [1; total / 65536; (total / 256) mod 256; total mod 256]).
  assert (blen (hd ++ h_version h ++ h_random h) = 38) as Hhd by (rewrite !blen_app, Hv, Hr; done).
  pose proof (blen_pos (h_sid h)). pose proof (blen_pos (h_suites h)). pose proof (blen_pos (h_comp h)). pose proof (blen_pos es).
  assert ((hd ++ h_version h ++ h_random h ++ blen (h_sid h) :: h_sid h ++ u16b (blen (h_suites h)) ++ h_suites h ++
           blen (h_comp h) :: h_comp h) ++ u16b (blen es) ++ es =
          (hd ++ h_version h ++ h_random h) ++ blen (h_sid h) :: h_sid h ++ u16b (blen (h_suites h)) ++ h_suites h ++
           blen (h_comp h) :: h_comp h ++ u16b (blen es) ++ es) as ->
    by (repeat (rewrite <- ?app_assoc; cbn [app]); done).
  remember (hd ++ h_version h ++ h_random h) as A eqn:HA.
  assert (∃ A', A = 1 :: A') as [A' HA'] by (subst A; by eexists).
  unfold parseSNI.
  destruct (Z.ltb_spec (blen (A ++ blen (h_sid h) :: h_sid h ++ u16b (blen (h_suites h)) ++ h_suites h ++
           blen (h_comp h) :: h_comp h ++ u16b (blen es) ++ es)) 44) as [Hlt|_].
  { rewrite !blen_app, !blen_cons, !blen_app, !blen_u16b, !blen_cons, !blen_app, !blen_u16b in Hlt. lia. }
  replace (index (A ++ _) 0) with (@Ok sni_err Z 1) by (by rewrite HA'). cbn [rbind Z.eqb negb].
  rewrite (readU8_mid A) by lia. cbn [rbind].
  set (A1 := A ++ [blen (h_sid h)]).
  change (A ++ blen (h_sid h) :: ?x) with (A ++ [blen (h_sid h)] ++ x). rewrite (assoc_L (++) A). fold A1.
  assert (blen A1 = 39) as HA1 by (unfold A1; rewrite blen_app, Hhd; done).
  rewrite (skip_mid A1) by lia. cbn [rbind]. rewrite (assoc_L (++) A1).
  rewrite (readU16_mid (A1 ++ h_sid h)) by (rewrite ?blen_app; lia). cbn [rbind].
  rewrite (assoc_L (++) (A1 ++ h_sid h)).
  rewrite (skip_mid _ (h_suites h)) by (rewrite !blen_app, blen_u16b; lia). cbn [rbind].
  rewrite (assoc_L (++) ((A1 ++ h_sid h) ++ _)).
  rewrite readU8_mid by (rewrite !blen_app, blen_u16b; lia). cbn [rbind].
  match goal with |- context [?x ++ blen (h_comp h) :: ?y] =>
    change (x ++ blen (h_comp h) :: y) with (x ++ [blen (h_comp h)] ++ y); rewrite (assoc_L (++) x) end.
  rewrite (skip_mid _ (h_comp h)) by (rewrite !blen_app, blen_u16b, blen_cons; change (blen []) with 0; lia). cbn [rbind].
  match goal with |- context [?x ++ h_comp h ++ ?y] => rewrite (assoc_L (++) x) end.
  rewrite (readU16_mid _ es) by (rewrite ?blen_app, ?blen_u16b, ?blen_cons; change (blen []) with 0; lia). cbn [rbind].
  match goal with |- context [?x ++ u16b (blen es) ++ es] => rewrite (assoc_L (++) x) end.
  match goal with |- context [extensions _ (?x ++ es) _ _] => remember x as B eqn:HB end.
  assert (blen B = 38 + 1 + blen (h_sid h) + 2 + blen (h_suites h) + 1 + blen (h_comp h) + 2) as HBl
    by (subst B A1; rewrite !blen_app, Hhd, !blen_u16b, !blen_cons; change (blen []) with 0; lia).
  match goal with |- context [extensions _ (B ++ es) ?p _] => replace p with (blen B) by (rewrite HBl; lia) end.
  destruct (Z.ltb_spec (blen (B ++ es)) (blen B + blen es)) as [Hlt|_]; [rewrite blen_app in Hlt; lia|].
  subst es. rewrite Hex in *. apply extensions_list; [done| | |done].
  - apply Forall_app in Hty as [Hty _]. apply Forall_forall. intros e He.
    rewrite Forall_forall in Hty, Hpre. specialize (Hty e He). specialize (Hpre e He). simpl in *. lia.
  - rewrite length_app. pose proof (exts_bytes_length (pre ++ (0, server_name name) :: post)) as Hl.
    rewrite length_app in Hl. simpl in Hl. lia.
Qed.

Lemma sniff_record h pre name post rest :
  hello_wf h → h_exts h = pre ++ (0, server_name name) :: post → Forall (λ e, e.1 ≠ 0) pre →
  blen (tls_record h) ≤ bufio_size →
  sniffClientHello (tls_record h ++ rest) = Ok (text_of name, tls_record h).
Proof.
  intros Hwf Hex Hpre Hsz.
  assert (blen (tls_record h) = 5 + blen (handshake h)) as Hrec by (unfold tls_record; rewrite !blen_app, blen_u16b; change (blen [0x16; 3; 1]) with 3; lia).
  assert (44 ≤ blen (handshake h)) as Hmin.
  { destruct Hwf as (Hv&Hr&_). unfold handshake, hello_head.
    rewrite !blen_app, !blen_cons, !blen_app, !blen_u16b, !blen_cons, Hv, Hr.
    pose proof (blen_pos (h_sid h)). pose proof (blen_pos (h_suites h)). pose proof (blen_pos (h_comp h)).
    pose proof (blen_pos (exts_bytes (h_exts h))). change (blen []) with 0. lia. }
  assert (blen (tls_record h ++ rest) = blen (tls_record h) + blen rest) as Hall by apply blen_app.
  pose proof (blen_pos rest) as Hrest. unfold bufio_size in Hsz.
  unfold sniffClientHello. unfold Peek at 1.
  destruct (Z.ltb_spec bufio_size 5); [unfold bufio_size in *; lia|].
  destruct (Z.ltb_spec (blen (tls_record h ++ rest)) 5); [lia|]. cbn [orb rbind].
  set (n := blen (handshake h)) in *.
  replace (take (Z.to_nat 5) (tls_record h ++ rest)) with [0x16; 3; 1; n / 256; n mod 256] by done.
  change (index [22; 3; 1; n / 256; n mod 256] 0) with (@Ok sni_err Z 22).
  change (index [22; 3; 1; n / 256; n mod 256] 3) with (@Ok sni_err Z (n / 256)).
  change (index [22; 3; 1; n / 256; n mod 256] 4) with (@Ok sni_err Z (n mod 256)). cbn [rbind].
  change (negb (22 =? 0x16)) with false. cbn iota.
  assert (Z.lor (Z.shiftl (n / 256) 8) (n mod 256) = n) as ->.
  { rewrite <- Z.land_ones with (n := 8) by lia. change (n / 256) with (n / 2^8). rewrite <- Z.shiftr_div_pow2 by lia.
    apply Z.bits_inj'. intros i Hi. rewrite Z.lor_spec, Z.shiftl_spec, Z.land_spec by done.
    destruct (Z.ltb_spec i 8).
    - rewrite Z.testbit_neg_r, Z.ones_spec_low by lia. by rewrite andb_true_r.
    - rewrite Z.shiftr_spec, Z.ones_spec_high by lia. rewrite andb_false_r, orb_false_r. f_equal. lia. }
  destruct (Z.ltb_spec n 44); [lia|]. destruct (Z.ltb_spec (2^16) n); [lia|]. cbn [orb].
  unfold Peek. destruct (Z.ltb_spec bufio_size (5 + n)); [unfold bufio_size in *; lia|].
  destruct (Z.ltb_spec (blen (tls_record h ++ rest)) (5 + n)); [lia|]. cbn [orb rbind].
  rewrite <- Hrec, Z_to_nat_blen, take_app_length.
  replace (slice (tls_record h) 5 (blen (tls_record h))) with (@Ok sni_err _ (handshake h)).
  2:{ symmetry. unfold tls_record. rewrite (assoc_L (++)). rewrite <- (app_nil_r (handshake h)) at 2.
      apply slice_mid; [done|]. rewrite !blen_app, blen_u16b. change (blen []) with 0. lia. }
  cbn [rbind]. by rewrite (parseSNI_handshake h pre name post).
Qed.
