(* ===== verification/EgressGate.v ===== *)
(** * The egress gateway (internal/network/egress/gateway.go, mitm.go, transparent.go)

    The shared state of the gateway, the atomic operations on it - critical
    sections, and the calls into the network and into the DNS learner - and the
    handlers as programs over them: proxied requests, CONNECT tunnels,
    intercepted TLS and transparently redirected connections, next to
    [SetPolicy], which may run at any time.  [g_trace], [g_past], [g_updates] and
    [g_swept] are history the code does not keep; the statements are about it. *)

From stdpp Require Import pretty sorting.
From Stdlib Require OrdersEx.
From S2P Require Import Prelude Json Strconv NetIP GoText Threads Egress Sni.

Notation conn := nat.

(** [LearnedIPChecker]: [L] is the state of what implements it. *)
Class LearnedIPChecker (L : Type) : Type :=
  { LearnedIPs : L → string → string → list (list Z); TaskLearned : L → string → bool }.

Inductive kind : Type := KConnect | KSplice | KMitm.
#[global] Instance kind_eq_dec : EqDecision kind.
Proof. solve_decision. Defined.

(** A request as it is handed to a transport: [o_Body] is what its reader gives. *)
Record outgoing : Type := mkOut { o_Method : string; o_URL : URL; o_Header : Header; o_Body : list Z }.

Record response : Type := mkResponse { rs_status : Z; rs_body : list Z }.

(** What a handler decided on: the task, the view it judged and the policy. *)
Record judged : Type := mkJudged { j_task : string; j_view : requestView; j_pol : Policy; j_mitm : bool }.

Inductive event : Type :=
| EvTracked (task : string) (n : Z) (pol : Policy) (c : conn)
| EvReleased (task : string) (c : conn) (dead : bool)
| EvUpdated (task : string) (n : Z)
| EvRelay (k : kind) (j : judged) (set : option (gset string)) (c : conn) (peer : Addr) (first : list Z) (from : nat)
| EvSent (j : judged) (r : Request) (set : option (gset string)) (o : outgoing) (peer : Addr) (n : nat)
| EvPlain (task : string) (pol : Policy) (c : conn)
| EvServeHTTP (c : conn) (from : nat).

Record row : Type := mkRow { row_task : string; row_decision : Decision; row_reason : string }.

(** ** State *)

Record policies : Type := mkPolicies {
  p_policies : gmap string Policy; p_polGen : gmap string Z; p_tunnels : gmap string (gset conn)
}.
Record accounts : Type := mkAccounts { a_out : gmap string Z; a_in : gmap string Z; a_denied : gmap string Z }.
Record gw_config : Type := mkConfig {
  c_ledger : option nat; c_ledgers : gmap string (option nat); c_mitmCA : bool;
  c_ssrfBypass : bool; c_learnChecker : bool; c_rebindGuardOff : bool
}.
(** [t_guard] holds the transports that exist, each with the learned set its
    dialer checks; [t_pool] their open connections, by authority. *)
Record transports : Type := mkTransports {
  t_shared : option nat; t_learned : gmap string (string * nat);
  t_guard : gmap nat (option (gset string)); t_pool : gmap nat (list (string * Addr))
}.
Record history : Type := mkHistory {
  h_updates : gmap string Z; h_past : gmap (string * Z) Policy; h_swept : gmap (string * Z) (list conn); h_trace : list event
}.

Record Gateway (L : Type) : Type := mkGateway {
  g_pol : policies; g_acc : accounts; g_cfg : gw_config; g_tr : transports; g_rows : list (nat * row);
  g_learn : L; g_next : conn; g_closed : gset conn; g_ended : gset (conn * bool); g_hist : history
}.
Arguments mkGateway {L} _ _ _ _ _ _ _ _ _ _.
Arguments g_pol {L} _. Arguments g_acc {L} _. Arguments g_cfg {L} _. Arguments g_tr {L} _. Arguments g_rows {L} _.
Arguments g_learn {L} _. Arguments g_next {L} _. Arguments g_closed {L} _. Arguments g_ended {L} _. Arguments g_hist {L} _.

Section setters.
Context {L : Type}.
Definition set_pol (f : policies → policies) (g : Gateway L) : Gateway L :=
  mkGateway (f (g_pol g)) (g_acc g) (g_cfg g) (g_tr g) (g_rows g) (g_learn g) (g_next g) (g_closed g) (g_ended g) (g_hist g).
Definition set_acc (f : accounts → accounts) (g : Gateway L) : Gateway L :=
  mkGateway (g_pol g) (f (g_acc g)) (g_cfg g) (g_tr g) (g_rows g) (g_learn g) (g_next g) (g_closed g) (g_ended g) (g_hist g).
Definition set_cfg (f : gw_config → gw_config) (g : Gateway L) : Gateway L :=
  mkGateway (g_pol g) (g_acc g) (f (g_cfg g)) (g_tr g) (g_rows g) (g_learn g) (g_next g) (g_closed g) (g_ended g) (g_hist g).
Definition set_tr (f : transports → transports) (g : Gateway L) : Gateway L :=
  mkGateway (g_pol g) (g_acc g) (g_cfg g) (f (g_tr g)) (g_rows g) (g_learn g) (g_next g) (g_closed g) (g_ended g) (g_hist g).
Definition add_rows (r : list (nat * row)) (g : Gateway L) : Gateway L :=
  mkGateway (g_pol g) (g_acc g) (g_cfg g) (g_tr g) (g_rows g ++ r) (g_learn g) (g_next g) (g_closed g) (g_ended g) (g_hist g).
Definition set_learn (l : L) (g : Gateway L) : Gateway L :=
  mkGateway (g_pol g) (g_acc g) (g_cfg g) (g_tr g) (g_rows g) l (g_next g) (g_closed g) (g_ended g) (g_hist g).
Definition set_conns (f : conn → conn) (cl : gset conn → gset conn) (en : gset (conn * bool) → gset (conn * bool)) (g : Gateway L) : Gateway L :=
  mkGateway (g_pol g) (g_acc g) (g_cfg g) (g_tr g) (g_rows g) (g_learn g) (f (g_next g)) (cl (g_closed g)) (en (g_ended g)) (g_hist g).
Definition set_hist (f : history → history) (g : Gateway L) : Gateway L :=
  mkGateway (g_pol g) (g_acc g) (g_cfg g) (g_tr g) (g_rows g) (g_learn g) (g_next g) (g_closed g) (g_ended g) (f (g_hist g)).
Definition emit (e : event) : Gateway L → Gateway L :=
  set_hist (λ h, mkHistory (h_updates h) (h_past h) (h_swept h) (h_trace h ++ [e])).
End setters.

Notation polGen g task := (default 0 (p_polGen (g_pol g) !! task)).
Notation tunnels g task := (default ∅ (p_tunnels (g_pol g) !! task)).
Notation updates g task := (default 0 (h_updates (g_hist g) !! task)).

(** [NewGateway]. *)
Definition NewGateway {L} (l : L) : Gateway L :=
  mkGateway (mkPolicies ∅ ∅ ∅) (mkAccounts ∅ ∅ ∅) (mkConfig None ∅ false false false false) (mkTransports None ∅ ∅ ∅) [] l 0%nat ∅ ∅
            (mkHistory ∅ ∅ ∅ []).

(** ** What the environment answers *)

Inductive hijacked : Type := Unsupported | HijackFailed | Hijacked.

Record World : Type := mkWorld {
  w_addr : option Addr; w_ok : bool; w_hijack : hijacked; w_n : nat; w_req : option Request; w_reuse : option nat;
  w_resp : option response
}.

Inductive rt_err : Type := EUpstream | EPrivateIP | ELearnedMismatch.
#[global] Instance rt_err_eq_dec : EqDecision rt_err.
Proof. solve_decision. Defined.

(** How a round trip ended, after how many bytes of the body were read. *)
Inductive rt_result : Type := RTErr (e : rt_err) (n : nat) | RTOk (n : nat) (resp : response).

(** ** Atomic operations *)

Inductive op : Type → Type :=
| PolicyWithGen (task : string) : op (option Policy * Z)
| SetPolicyCS (task : string) (p : Policy) : op (Z * list conn)
| PolicyUpdated (task : string) (n : Z) : op unit
| TrackTunnelIfFresh (task : string) (pol : Policy) (gen : Z) (c : conn) : op bool
| UntrackTunnel (task : string) (c : conn) : op unit
| CloseConn (c : conn) : op unit
| RecordRow (task : string) (d : Decision) (reason : string) : op unit
| AddBytes (task : string) (n : Z) : op unit
| AddRxBytes (task : string) (n : Z) : op unit
| SsrFloorEnabled : op bool
| ReadGuard : op (bool * bool)
| CheckerIPs (task host : string) : op (list (list Z))
| CheckerTask (task : string) : op bool
| MitmCA : op bool
| AcceptConn : op conn
| OriginalDst : op (option Addr)
| Dial (addr : string) : op (option (conn * Addr))
| Hijack : op hijacked
| Ok_ : op bool
| Count (limit : nat) : op nat
| CopyEnds (c : conn) (up : bool) : op nat
| ReadRequest (c : conn) : op (option Request)
| Event (e : event) : op unit
| ReadTransport : op (option nat)
| CreateTransport : op nat
| LearnedTransport (task host : string) (set : gset string) : op nat
| RoundTrip (j : judged) (r : Request) (set : option (gset string)) (t : nat) (o : outgoing) : op rt_result.

(** [sort.Strings] compares bytes. *)
Definition str_le (a b : string) : Prop := OrdersEx.String_as_OT.compare a b ≠ Gt.
#[global] Instance str_le_dec : RelDecision str_le.
Proof. unfold str_le. intros a b. destruct (OrdersEx.String_as_OT.compare a b); [left|left|right]; naive_solver. Defined.

Definition learnedSetFingerprint (set : gset string) : string := String.concat "," (merge_sort str_le (elements set)).

Definition NUL : string := String (Ascii.ascii_of_nat 0) EmptyString.

Definition cachePrefix (task host : string) : string := task +:+ NUL +:+ host +:+ NUL.

(** A cached transport of this host built from another learned set. *)
Definition stale (task host fp : string) (kv : string * (string * nat)) : Prop :=
  HasPrefix kv.1 (cachePrefix task host) = true ∧ kv.2.1 ≠ fp.
#[global] Instance stale_dec task host fp kv : base.Decision (stale task host fp kv).
Proof. unfold stale. apply _. Defined.

(** What follows a miss in the cache: the transports of this host built from
    another set are dropped with their idle connections, and one is cloned. *)
Definition rebuild_transport (task host : string) (set : gset string) (tr : transports) : transports * nat :=
  let fp := learnedSetFingerprint set in
  let key := cachePrefix task host +:+ fp in
  let pools := map_fold (λ _ e p, <[e.2 := []]> p) (t_pool tr) (filter (stale task host fp) (t_learned tr)) in
  let kept := filter (λ kv, ¬ stale task host fp kv) (t_learned tr) in
  match kept !! key with
  | Some (_, t) => (mkTransports (t_shared tr) kept (t_guard tr) pools, t)
  | None =>
      let t := fresh (dom (t_guard tr)) in
      (mkTransports (t_shared tr) (<[key := (fp, t)]> kept) (<[t := Some set]> (t_guard tr)) pools, t)
  end.

(** The locked part of [transportForTask]: the cached transport of this learned
    set, or a new one. *)
Definition learned_transport (task host : string) (set : gset string) (tr : transports) : transports * nat :=
  let fp := learnedSetFingerprint set in
  let key := cachePrefix task host +:+ fp in
  match t_learned tr !! key with
  | Some (fp', t) => if bool_decide (fp' = fp) then (tr, t) else rebuild_transport task host set tr
  | None => rebuild_transport task host set tr
  end.

Definition authority (u : URL) : string := u_Scheme u +:+ "://" +:+ u_Host u.

(** The dialer of transport [t]: the floor, then the learned set. *)
Definition dial_check (bypass : bool) (guard : option (gset string)) (a : Addr) : option rt_err :=
  if negb bypass && isPrivate a then Some EPrivateIP else
  match guard with
  | Some set => if learnedSetContainsIP set a then None else Some ELearnedMismatch
  | None => None
  end.

(** Connections of [t] to the authority of [o]. *)
Definition pooled (tr : transports) (t : nat) (o : outgoing) : list Addr :=
  snd <$> filter (λ ka, ka.1 = authority (o_URL o)) (default [] (t_pool tr !! t)).

(** The connection a round trip uses: an open one, or a new one that passes the
    checks. *)
Definition connect (w : World) (bypass : bool) (t : nat) (o : outgoing) (tr : transports) : transports * (rt_err + Addr) :=
  match w_reuse w ≫= λ i, pooled tr t o !! i with
  | Some a => (tr, inr a)
  | None =>
      match w_addr w with
      | None => (tr, inl EUpstream)
      | Some a =>
          match dial_check bypass (default None (t_guard tr !! t)) a with
          | Some e => (tr, inl e)
          | None => (mkTransports (t_shared tr) (t_learned tr) (t_guard tr)
                       (<[t := (authority (o_URL o), a) :: default [] (t_pool tr !! t)]> (t_pool tr)), inr a)
          end
      end
  end.

Definition round_trip {L} (j : judged) (r : Request) (set : option (gset string)) (t : nat) (o : outgoing) (w : World) (g : Gateway L) :
    Gateway L * rt_result :=
  if bool_decide (u_Host (o_URL o) = "") then (g, RTErr EUpstream 0) else
  match connect w (c_ssrfBypass (g_cfg g)) t o (g_tr g) with
  | (tr, inl e) => (set_tr (λ _, tr) g, RTErr e 0)
  | (tr, inr a) =>
      let n := Nat.min (w_n w) (length (o_Body o)) in
      (emit (EvSent j r set o a n) (set_tr (λ _, tr) g),
       match w_resp w with None => RTErr EUpstream n | Some resp => RTOk n resp end)
  end.

(** [map[task] += n] on the counters. *)
Definition bump (task : string) (n : Z) (m : gmap string Z) : gmap string Z := <[task := int64 (default 0 (m !! task) + n)]> m.

(** No more bytes can flow over [c]: it was closed, or both copies have ended. *)
Definition dead_conn {L} (g : Gateway L) (c : conn) : bool :=
  bool_decide (c ∈ g_closed g) || (bool_decide ((c, true) ∈ g_ended g) && bool_decide ((c, false) ∈ g_ended g)).

(** The ledger a row of [task] goes to ([record], [recordRaw]). *)
Definition ledger_of (cfg : gw_config) (task : string) : option nat :=
  match c_ledgers cfg !! task with Some (Some l) => Some l | _ => c_ledger cfg end.

Definition append_row {L} (task : string) (d : Decision) (reason : string) (g : Gateway L) : Gateway L :=
  let g := if bool_decide (d = DecisionBlock)
           then set_acc (λ a, mkAccounts (a_out a) (a_in a) (bump task 1 (a_denied a))) g else g in
  match ledger_of (g_cfg g) task with
  | Some l => add_rows [(l, mkRow task d reason)] g
  | None => g
  end.

(** The critical section of [SetPolicy]; it returns how many updates of the task
    there were. *)
Definition setPolicy_cs {L} (task : string) (p : Policy) (g : Gateway L) : Gateway L * (Z * list conn) :=
  let n := updates g task + 1 in
  let conns := elements (tunnels g task) in
  (set_hist (λ h, mkHistory (<[task := n]> (h_updates h)) (<[(task, n) := p]> (h_past h)) (<[(task, n) := conns]> (h_swept h)) (h_trace h))
    (set_pol (λ s, mkPolicies (<[task := p]> (p_policies s)) (<[task := u64 (polGen g task + 1)]> (p_polGen s)) (delete task (p_tunnels s))) g),
   (n, conns)).

(** [pol] is the policy the caller judged by; only the history records it. *)
Definition trackTunnelIfFresh {L} (task : string) (pol : Policy) (gen : Z) (c : conn) (g : Gateway L) : Gateway L * bool :=
  if bool_decide (polGen g task = gen) then
    (emit (EvTracked task (updates g task) pol c)
      (set_pol (λ s, mkPolicies (p_policies s) (p_polGen s) (<[task := tunnels g task ∪ {[c]}]> (p_tunnels s))) g), true)
  else (g, false).

Definition untrackTunnel {L} (task : string) (c : conn) (g : Gateway L) : Gateway L :=
  emit (EvReleased task c (dead_conn g c))
    (set_pol (λ s, mkPolicies (p_policies s) (p_polGen s)
       (match p_tunnels s !! task with
        | Some m => if bool_decide (m ∖ {[c]} = ∅) then delete task (p_tunnels s) else <[task := m ∖ {[c]}]> (p_tunnels s)
        | None => p_tunnels s
        end)) g).

Section exec.
Context {L : Type} `{LearnedIPChecker L}.

Definition exec (X : Type) (o : op X) (w : World) (g : Gateway L) : Gateway L * X :=
  match o in op X return Gateway L * X with
  | PolicyWithGen task => (g, (p_policies (g_pol g) !! task, polGen g task))
  | SetPolicyCS task p => setPolicy_cs task p g
  | PolicyUpdated task n => (emit (EvUpdated task n) g, tt)
  | TrackTunnelIfFresh task pol gen c => trackTunnelIfFresh task pol gen c g
  | UntrackTunnel task c => (untrackTunnel task c g, tt)
  | CloseConn c => (set_conns id (union {[c]}) id g, tt)
  | RecordRow task d reason => (append_row task d reason g, tt)
  | AddBytes task n => (set_acc (λ a, mkAccounts (bump task n (a_out a)) (a_in a) (a_denied a)) g, tt)
  | AddRxBytes task n => (set_acc (λ a, mkAccounts (a_out a) (bump task n (a_in a)) (a_denied a)) g, tt)
  | SsrFloorEnabled => (g, negb (c_ssrfBypass (g_cfg g)))
  | ReadGuard => (g, (c_learnChecker (g_cfg g), c_rebindGuardOff (g_cfg g)))
  | CheckerIPs task host => (g, LearnedIPs (g_learn g) task host)
  | CheckerTask task => (g, TaskLearned (g_learn g) task)
  | MitmCA => (g, c_mitmCA (g_cfg g))
  | AcceptConn => (set_conns S id id g, g_next g)
  | OriginalDst => (g, w_addr w)
  | Dial _ => match w_addr w with
              | Some a => (set_conns S id id g, Some (g_next g, a))
              | None => (g, None)
              end
  | Hijack => (g, w_hijack w)
  | Ok_ => (g, w_ok w)
  | Count limit => (g, Nat.min (w_n w) limit)
  | CopyEnds c up => (set_conns id id (union {[(c, up)]}) g, w_n w)
  | ReadRequest c => (g, if bool_decide (c ∈ g_closed g) then None else server_request <$> w_req w)
  | Event e => (emit e g, tt)
  | ReadTransport => (g, t_shared (g_tr g))
  | CreateTransport =>
      match t_shared (g_tr g) with
      | Some t => (g, t)
      | None => let t := fresh (dom (t_guard (g_tr g))) in
                (set_tr (λ tr, mkTransports (Some t) (t_learned tr) (<[t := None]> (t_guard tr)) (t_pool tr)) g, t)
      end
  | LearnedTransport task host set =>
      let '(tr, t) := learned_transport task host set (g_tr g) in (set_tr (λ _, tr) g, t)
  | RoundTrip j r set t out => round_trip j r set t out w g
  end.
End exec.

(** ** Settings and readings *)

Section settings.
Context {L : Type}.
Implicit Types g : Gateway L.

Definition AttachLedger (l : option nat) : Gateway L → Gateway L :=
  set_cfg (λ c, mkConfig l (c_ledgers c) (c_mitmCA c) (c_ssrfBypass c) (c_learnChecker c) (c_rebindGuardOff c)).
Definition AttachTaskLedger (task : string) (l : option nat) : Gateway L → Gateway L :=
  set_cfg (λ c, mkConfig (c_ledger c) (<[task := l]> (c_ledgers c)) (c_mitmCA c) (c_ssrfBypass c) (c_learnChecker c) (c_rebindGuardOff c)).
Definition EnableMITM (armed : bool) : Gateway L → Gateway L :=
  set_cfg (λ c, mkConfig (c_ledger c) (c_ledgers c) armed (c_ssrfBypass c) (c_learnChecker c) (c_rebindGuardOff c)).
Definition EnableSSRFBypassForTest : Gateway L → Gateway L :=
  set_cfg (λ c, mkConfig (c_ledger c) (c_ledgers c) (c_mitmCA c) true (c_learnChecker c) (c_rebindGuardOff c)).
Definition SetLearnedChecker (present : bool) : Gateway L → Gateway L :=
  set_cfg (λ c, mkConfig (c_ledger c) (c_ledgers c) (c_mitmCA c) (c_ssrfBypass c) present (c_rebindGuardOff c)).
Definition SetRebindingGuard (enabled : bool) : Gateway L → Gateway L :=
  set_cfg (λ c, mkConfig (c_ledger c) (c_ledgers c) (c_mitmCA c) (c_ssrfBypass c) (c_learnChecker c) (negb enabled)).

Definition PolicySnapshot g (task : string) : Policy := default empty_policy (p_policies (g_pol g) !! task).
Definition PolicyGeneration g (task : string) : Z := polGen g task.
Definition BytesUsed g (task : string) : Z := default 0 (a_out (g_acc g) !! task).
Definition BytesRx g (task : string) : Z := default 0 (a_in (g_acc g) !! task).
Definition BytesDenied g (task : string) : Z := default 0 (a_denied (g_acc g) !! task).
End settings.
