(* ===== verification/EgressServe.v ===== *)
(** * The handlers of the egress gateway

    The functions of gateway.go, mitm.go and transparent.go that serve traffic, as
    programs over the operations of EgressGate.  [Status] is the answer written to
    the client, [Taken] a connection the handler took over. *)

From stdpp Require Import pretty.
From S2P Require Import Prelude Json Strconv NetIP GoText Threads Egress Sni EgressGate.

Notation handler := (prog op).

Inductive served : Type := Status (code : Z) | Taken.

(** ** Shared pieces *)

Definition learnedDialSet (task host : string) : handler (option (gset string)) :=
  p <-! ReadGuard;
  if negb p.1 || p.2 || bool_decide (host = "") then Ret None else
  ips <-! CheckerIPs task host;
  if bool_decide (ips = []) then Ret None else Ret (Some (list_to_set (IPString <$> ips))).

Definition sniGuardActive (task : string) : handler bool :=
  p <-! ReadGuard;
  if negb p.1 || p.2 then Ret false else
  b <-! CheckerTask task;
  Ret b.

Definition dialCheckedTransport : handler nat :=
  t <-! ReadTransport;
  match t with
  | Some t => Ret t
  | None => t <-! CreateTransport; Ret t
  end.

(** [transportForTask], with the set it constrains dials by. *)
Definition transportForTask (task host : string) : handler (nat * option (gset string)) :=
  bind base := dialCheckedTransport in
  bind set := learnedDialSet task host in
  match set with
  | None => Ret (base, None)
  | Some s => t <-! LearnedTransport task host s; Ret (t, Some s)
  end.

Fixpoint closeAll {A} (conns : list conn) (k : handler A) : handler A :=
  match conns with
  | [] => k
  | c :: conns => CloseConn c ⨟ closeAll conns k
  end.

Definition SetPolicy (task : string) (p : Policy) : handler unit :=
  nc <-! SetPolicyCS task p;
  closeAll nc.2 (PolicyUpdated task nc.1 ⨟ Ret tt).

(** [ListenForTaskOn], up to the socket. *)
Definition ListenForTaskOn (task : string) : handler unit :=
  pg <-! PolicyWithGen task;
  match pg.1 with
  | None => SetPolicy task empty_policy
  | Some _ => Ret tt
  end.

(** [pipe]: one direction of a tunnel; the deferred closes run last. *)
Definition pipe (c target : conn) (up : bool) (task : string) : handler unit :=
  n <-! CopyEnds c up;
  (if up then AddBytes task (Z.of_nat n) else AddRxBytes task (Z.of_nat n)) ⨟
  CloseConn (if up then c else target) ⨟
  CloseConn (if up then target else c) ⨟
  Ret tt.

Definition Itoa (n : Z) : string := pretty n.

Definition stale_reason : string := "policy updated during connect (generation moved)".
Definition guard_reason : string := "dialed IP not in DNS-learned set (rebinding guard)".

(** [url.Parse(u.String())]: a path that is not rooted gets its slash when there
    is a host. *)
Definition reparsed (u : URL) : URL :=
  mkURL (u_Scheme u) (u_Host u)
    (if negb (bool_decide (u_Path u = "")) && negb (HasPrefix (u_Path u) "/") && negb (bool_decide (u_Host u = ""))
     then "/" +:+ u_Path u else u_Path u) (u_RawQuery u).

(** The body a policy lets a transport read, and what the reader has left after
    [n] bytes (an [io.LimitedReader] of [MaxRequestBody + 1] bytes). *)
Definition limitedBody (pol : Policy) (body : list Z) : list Z :=
  if 0 <? MaxRequestBody pol then take (Z.to_nat (int64 (MaxRequestBody pol + 1))) body else body.
Definition overran (pol : Policy) (n : nat) : bool :=
  (0 <? MaxRequestBody pol) && (int64 (MaxRequestBody pol + 1) - Z.of_nat n <=? 0).

Definition limitedResponse (pol : Policy) (resp : response) : list Z :=
  if 0 <? MaxResponseBody pol then take (Z.to_nat (MaxResponseBody pol)) (rs_body resp) else rs_body resp.

Section handlers.
Context `{Unicode}.

(** ** Plain requests *)

Definition rt_reason (e : rt_err) : string :=
  match e with
  | EUpstream => "upstream error"
  | EPrivateIP => "target resolved to private IP (SSRF floor)"
  | ELearnedMismatch => guard_reason
  end.

Definition handleHTTP (r : Request) (task : string) (pol : Policy) : handler served :=
  let v := viewFromHTTP r in
  if bool_decide (decideDomain v pol = DecisionBlock) then
    RecordRow task DecisionBlock "domain blocked" ⨟ Ret (Status 403)
  else if negb (methodAllowed (r_Method r) (AllowedMethods pol)) then
    RecordRow task DecisionBlock ("method " +:+ r_Method r +:+ " not allowed") ⨟ Ret (Status 405)
  else if (0 <? MaxRequestBody pol) && (MaxRequestBody pol <? r_ContentLength r) then
    RecordRow task DecisionBlock ("request body " +:+ Itoa (r_ContentLength r) +:+ " > " +:+ Itoa (MaxRequestBody pol)) ⨟ Ret (Status 413)
  else
  let outURL := mkURL (u_Scheme (r_URL r)) (u_Host (r_URL r)) (normalizePath (u_Path (r_URL r))) (u_RawQuery (r_URL r)) in
  ok <-! Ok_;
  if negb ok then Ret (Status 400) else
  let out := mkOut (r_Method r) (reparsed outURL) (ApplyInject (stripInternalHeaders (r_Header r)) v pol)
                   (limitedBody pol (r_Body r)) in
  bind ts := transportForTask task (v_host v) in
  res <-! RoundTrip (mkJudged task v pol false) r ts.2 ts.1 out;
  match res with
  | RTErr e n =>
      AddBytes task (Z.of_nat n) ⨟
      RecordRow task DecisionBlock (rt_reason e) ⨟
      Ret (Status (if bool_decide (e = EUpstream) then 502 else 403))
  | RTOk n resp =>
      if overran pol n then
        AddBytes task (Z.of_nat n) ⨟
        RecordRow task DecisionBlock "chunked request body exceeded cap" ⨟
        Ret (Status 413)
      else
      respN <-! Count (length (limitedResponse pol resp));
      AddRxBytes task (Z.of_nat respN) ⨟
      AddBytes task (Z.of_nat n) ⨟
      RecordRow task DecisionAllow (r_Method r +:+ " " +:+ v_host v +:+ " -> " +:+ Itoa (rs_status resp)) ⨟
      Ret (Status (rs_status resp))
  end.

(** ** Interception *)

Definition contentLengthOf (r : Request) : Z := if 0 <? r_ContentLength r then r_ContentLength r else 0.

Definition mitmDrainCap : Z := 65536.

(** [drainRejectedBody] with [left] bytes of the body still to come. *)
Definition drainRejectedBody (left : nat) : bool := Z.of_nat left <=? mitmDrainCap.

(** The inner request rebound to the destination of the tunnel. *)
Definition rebound (host : string) (r : Request) : Request :=
  mkRequest (r_Method r) (mkURL "https" host (u_Path (r_URL r)) (u_RawQuery (r_URL r))) host (r_Header r) (r_ContentLength r) (r_Body r).

(** One round of the loop of [serveMITM]; [true] goes on with the connection. *)
Definition mitm_request (task host : string) (pol : Policy) (r0 : Request) : handler bool :=
  let r := rebound host r0 in
  let v := viewFromHTTP r in
  let d := decideDomain v pol in
  let drained := drainRejectedBody (length (r_Body r)) in
  if bool_decide (d = DecisionBlock) then
    RecordRow task DecisionBlock "mitm: blocked by rule" ⨟ Ret drained
  else
  let review := match ReviewHook pol with
                | Some hook => if bool_decide (d = DecisionReview) then hook r 0 else (true, "")
                | None => (true, "")
                end in
  if negb review.1 then
    RecordRow task DecisionBlock ("mitm review denied: " +:+ review.2) ⨟ Ret drained
  else if negb (methodAllowed (r_Method r) (AllowedMethods pol)) then
    RecordRow task DecisionBlock ("mitm: method " +:+ r_Method r +:+ " not allowed") ⨟ Ret drained
  else if (0 <? MaxRequestBody pol) && (MaxRequestBody pol <? r_ContentLength r) then
    RecordRow task DecisionBlock ("mitm: request body " +:+ Itoa (r_ContentLength r) +:+ " > " +:+ Itoa (MaxRequestBody pol)) ⨟ Ret drained
  else
  let hdr := ApplyInject (r_Header r) v pol in
  AddBytes task (contentLengthOf r) ⨟
  RecordRow task DecisionAllow "mitm proxied" ⨟
  ok <-! Ok_;
  if negb ok then Ret drained else
  let out := mkOut (r_Method r) (reparsed (r_URL r)) (stripInternalHeaders hdr) (limitedBody pol (r_Body r)) in
  bind ts := transportForTask task (stripPortMITM host) in
  res <-! RoundTrip (mkJudged task v pol true) r ts.2 ts.1 out;
  match res with
  | RTErr _ n => Ret (drainRejectedBody (if 0 <? MaxRequestBody pol then length (r_Body r) - n else 0))
  | RTOk n resp =>
      if overran pol n then
        RecordRow task DecisionBlock "mitm: chunked request body exceeded cap" ⨟ Ret false
      else Ret true
  end.

(** The connection ends when the client stops sending requests: [fuel] is any
    number of them. *)
Fixpoint mitm_loop (fuel : nat) (c : conn) (task host : string) (pol : Policy) : handler unit :=
  match fuel with
  | O => Ret tt
  | S fuel =>
      req <-! ReadRequest c;
      match req with
      | None => Ret tt
      | Some r => bind more := mitm_request task host pol r in
                  if (more : bool) then mitm_loop fuel c task host pol else Ret tt
      end
  end.

Definition serveMITM (fuel : nat) (c : conn) (task host : string) (pol : Policy) : handler unit :=
  ca <-! MitmCA;
  if negb ca then CloseConn c ⨟ Ret tt else
  Event (EvPlain task pol c) ⨟
  ok <-! Ok_;
  if negb ok then RecordRow task DecisionBlock "mitm handshake failed" ⨟ CloseConn c ⨟ Ret tt else
  bind _ := mitm_loop fuel c task host pol in
  CloseConn c ⨟ Ret tt.

(** ** CONNECT *)

(** The end of [handleConnect], with the tunnel registered; the registration is
    dropped when the function returns. *)
Definition connect_relay (j : judged) (set : option (gset string)) (c target : conn) (peer : Addr) : handler served :=
  let task := j_task j in
  ok <-! Ok_;
  if negb ok then CloseConn target ⨟ CloseConn c ⨟ UntrackTunnel task c ⨟ Ret Taken else
  copied <-! Ok_;
  if negb copied then CloseConn target ⨟ CloseConn c ⨟ UntrackTunnel task c ⨟ Ret Taken else
  RecordRow task DecisionAllow ("CONNECT " +:+ v_host (j_view j)) ⨟
  Event (EvRelay KConnect j set c peer [] 0) ⨟
  Go (pipe c target true task) (Go (pipe c target false task) (
  UntrackTunnel task c ⨟
  Ret Taken)).

Definition connect_intercept (fuel : nat) (r : Request) (task : string) (pol : Policy) (gen : Z) (c : conn) : handler served :=
  hj <-! Hijack;
  match hj with
  | Unsupported => Ret (Status 500)
  | HijackFailed => Ret Taken
  | Hijacked =>
      fresh_ <-! TrackTunnelIfFresh task pol gen c;
      if negb fresh_ then CloseConn c ⨟ RecordRow task DecisionBlock stale_reason ⨟ Ret Taken else
      bind _ := serveMITM fuel c task (r_Host r) pol in
      UntrackTunnel task c ⨟
      Ret Taken
  end.

Definition flat_port (r : Request) : string := match SplitHostPort (r_Host r) with Some (_, p) => p | None => "443" end.

Definition handleConnect (fuel : nat) (r : Request) (task : string) (pol : Policy) (gen : Z) (c : conn) : handler served :=
  let v := viewFromConnect r in
  if bool_decide (decideDomain v pol = DecisionBlock) then
    RecordRow task DecisionBlock "domain blocked" ⨟ Ret (Status 403)
  else if bool_decide (Rules pol = []) && negb (bool_decide (flat_port r ∈ ["80"; "443"])) then
    RecordRow task DecisionBlock ("CONNECT port " +:+ flat_port r +:+ " not allowed in flat allowlist mode (80/443 only)") ⨟ Ret (Status 403)
  else if bool_decide (is_Some (ruleMITM (r_Host r) pol)) then connect_intercept fuel r task pol gen c
  else
  target <-! Dial (r_Host r);
  match target with
  | None => RecordRow task DecisionBlock "dial failed" ⨟ Ret (Status 502)
  | Some (target, peer) =>
      floor <-! SsrFloorEnabled;
      if floor && isPrivate peer then
        CloseConn target ⨟ RecordRow task DecisionBlock "target resolved to private IP (SSRF floor)" ⨟ Ret (Status 403)
      else
      bind set := learnedDialSet task (v_host v) in
      if match set with Some s => negb (learnedSetContainsIP s peer) | None => false end then
        CloseConn target ⨟ RecordRow task DecisionBlock guard_reason ⨟ Ret (Status 403)
      else
      hj <-! Hijack;
      match hj with
      | Unsupported => CloseConn target ⨟ Ret (Status 500)
      | HijackFailed => CloseConn target ⨟ Ret Taken
      | Hijacked =>
          fresh_ <-! TrackTunnelIfFresh task pol gen c;
          if negb fresh_ then
            CloseConn target ⨟ CloseConn c ⨟ RecordRow task DecisionBlock stale_reason ⨟ Ret Taken
          else connect_relay (mkJudged task v pol false) set c target peer
      end
  end.

(** ** Dispatch *)

Definition handle (fuel : nat) (r : Request) (c : conn) : handler served :=
  let task := taskFromRequest r in
  pg <-! PolicyWithGen task;
  match pg.1 with
  | None => RecordRow task DecisionBlock "no policy registered" ⨟ Ret (Status 403)
  | Some pol => if bool_decide (r_Method r = "CONNECT") then handleConnect fuel r task pol pg.2 c else handleHTTP r task pol
  end.

(** The handler of a listener of [ListenForTaskOn]: the task is the listener's. *)
Definition with_task (task : string) (r : Request) : Request :=
  mkRequest (r_Method r) (r_URL r) (r_Host r) (Header_Set (r_Header r) "X-Task-Id" task) (r_ContentLength r) (r_Body r).
Definition handleForTask (task : string) (fuel : nat) (r : Request) (c : conn) : handler served := handle fuel (with_task task r) c.

(** ** Transparent connections *)

(** [originalDstAddr] gives a [*net.TCPAddr]. *)
Definition dst_port (dst : Addr) : Z := match dst with TCPAddr _ p => p | OtherAddr => 0 end.
Definition dst_text (dst : Addr) : string :=
  match dst with TCPAddr ip p => IPString ip +:+ ":" +:+ Itoa p | OtherAddr => "" end.

(** The wrapper of [serveTransparentHTTP] around a request in origin form. *)
Definition upgraded (task : string) (dst : Addr) (r : Request) : Request :=
  let r := with_task task r in
  if bool_decide (u_Host (r_URL r) = "") then
    let host := if bool_decide (r_Host r = "") then dst_text dst else r_Host r in
    mkRequest (r_Method r) (mkURL "http" host (u_Path (r_URL r)) (u_RawQuery (r_URL r))) (r_Host r) (r_Header r) (r_ContentLength r) (r_Body r)
  else r.

(** The server's goroutine for the connection, over [fuel] requests. *)
Fixpoint http_conn (fuel mfuel : nat) (task : string) (dst : Addr) (c : conn) : handler unit :=
  match fuel with
  | O => CloseConn c ⨟ Ret tt
  | S fuel =>
      req <-! ReadRequest c;
      match req with
      | None => CloseConn c ⨟ Ret tt
      | Some r => bind s := handle mfuel (upgraded task dst r) c in
                  match s with Status _ => http_conn fuel mfuel task dst c | Taken => Ret tt end
      end
  end.

(** [serveTransparentHTTP]: [Serve] starts the goroutine and returns, since the
    listener has one connection.  [from] bytes of the connection were read
    before. *)
Definition serveTransparentHTTP (fuel mfuel : nat) (task : string) (dst : Addr) (c : conn) (from : nat) : handler unit :=
  Event (EvServeHTTP c from) ⨟
  Go (http_conn fuel mfuel task dst c) (Ret tt).

(** The end of [serveTransparentTLS]: the handler waits for both copies, so their
    ends are its steps. *)
Definition splice (j : judged) (set : option (gset string)) (gen : Z) (c target : conn) (peer : Addr) (hello : list Z) (from : nat) : handler unit :=
  let task := j_task j in let pol := j_pol j in
  ok <-! Ok_;
  if negb ok then CloseConn target ⨟ Ret tt else
  fresh_ <-! TrackTunnelIfFresh task pol gen c;
  if negb fresh_ then RecordRow task DecisionBlock stale_reason ⨟ CloseConn target ⨟ Ret tt else
  Event (EvRelay KSplice j set c peer hello from) ⨟
  _u <-! CopyEnds c true;
  _d <-! CopyEnds c false;
  UntrackTunnel task c ⨟
  CloseConn target ⨟
  Ret tt.

(** The address checks of [serveTransparentTLS]. *)
Definition splice_checks (task sni : string) (peer : Addr) : handler (string + option (gset string)) :=
  floor <-! SsrFloorEnabled;
  if floor && isPrivate peer then Ret (inl "target is private IP (SSRF floor)") else
  bind active := sniGuardActive task in
  bind set := learnedDialSet task sni in
  match set with
  | None => Ret (if active : bool then inl "SNI host not DNS-learned for task (unverifiable SNI to destination)" else inr None)
  | Some s => Ret (if learnedSetContainsIP s peer then inr (Some s) else inl guard_reason)
  end.

Definition serveTransparentTLS (fuel : nat) (c : conn) (input : list Z) (task : string) (dst : Addr) (pol : Policy) (gen : Z) : handler unit :=
  match sniffClientHello input with
  | Err _ => RecordRow task DecisionBlock "unreadable ClientHello" ⨟ Ret tt
  | Ok (sni, hello) =>
      let v := mkView "" sni "" "https" (Itoa (dst_port dst)) in
      if bool_decide (decideDomain v pol = DecisionBlock) then
        RecordRow task DecisionBlock ("domain blocked: " +:+ sni) ⨟ Ret tt
      else if bool_decide (is_Some (ruleMITM sni pol)) then
        fresh_ <-! TrackTunnelIfFresh task pol gen c;
        if negb fresh_ then RecordRow task DecisionBlock stale_reason ⨟ Ret tt else
        bind _ := serveMITM fuel c task sni pol in
        UntrackTunnel task c ⨟ Ret tt
      else
      extra <-! Count (Nat.min 4096 (length input) - length hello);
      target <-! Dial (dst_text dst);
      match target with
      | None => RecordRow task DecisionBlock "dial failed" ⨟ Ret tt
      | Some (target, peer) =>
          bind chk := splice_checks task sni peer in
          match chk with
          | inl reason => RecordRow task DecisionBlock reason ⨟ CloseConn target ⨟ Ret tt
          | inr set => splice (mkJudged task v pol false) set gen c target peer hello (length hello + extra)
          end
      end
  end.

(** [serveTransparent] on a connection over which [input] arrives; the buffered
    reader takes what is there with the first byte. *)
Definition serveTransparent (fuel mfuel : nat) (input : list Z) (task : string) (c : conn) : handler unit :=
  dst <-! OriginalDst;
  match dst with
  | None => CloseConn c ⨟ Ret tt
  | Some dst =>
      pg <-! PolicyWithGen task;
      match pg.1 with
      | None => RecordRow task DecisionBlock "no policy registered" ⨟ CloseConn c ⨟ Ret tt
      | Some pol =>
          match input with
          | [] => CloseConn c ⨟ Ret tt
          | b :: rest =>
              bind _ := (if b =? 0x16 then serveTransparentTLS mfuel c input task dst pol pg.2
                         else more <-! Count (Nat.min 4095 (length rest)); serveTransparentHTTP fuel mfuel task dst c (1 + more)) in
              CloseConn c ⨟ Ret tt
          end
      end
  end.

(** ** What runs *)

Inductive entry : handler unit → Prop :=
| entry_request fuel task r :
    entry (c <-! AcceptConn; bind _ := handleForTask task fuel (server_request r) c in Ret tt)
| entry_shared fuel r :
    entry (c <-! AcceptConn; bind _ := handle fuel (server_request r) c in Ret tt)
| entry_transparent fuel mfuel input task :
    Forall is_byte input → entry (c <-! AcceptConn; serveTransparent fuel mfuel input task c)
| entry_setPolicy task p : entry (SetPolicy task p)
| entry_listen task : entry (ListenForTaskOn task).
End handlers.

(** What else changes: the learner, and the settings (not the test-only one). *)
Inductive env {L} (learned : L → Prop) : Gateway L → Gateway L → Prop :=
| env_learn l g : learned l → env learned g (set_learn l g)
| env_ledger l g : env learned g (AttachLedger l g)
| env_taskLedger task l g : env learned g (AttachTaskLedger task l g)
| env_mitm b g : env learned g (EnableMITM b g)
| env_checker b g : env learned g (SetLearnedChecker b g)
| env_guard b g : env learned g (SetRebindingGuard b g).
