(* ===== verification/EgressSpec.v ===== *)
(** * What the egress gateway keeps

    The invariant of the gateway's state ([Inv]) and the order it moves along
    ([Le]), what each operation needs and gives ([pre], [post]), and that every
    operation keeps the invariant ([exec_ok]).  Every handler is
    proved from these ([gateway_invariant]). *)

From stdpp Require Import pretty sorting.
From S2P Require Import Prelude Json Strconv NetIP GoText Threads Egress Sni EgressGate EgressServe.

(** ** Fingerprints of learned sets *)

Definition comma_free (s : string) : Prop := s ≠ "" ∧ Forall (λ c, c ≠ Ascii.ascii_of_nat 44) (String.list_ascii_of_string s).
Definition texts (set : gset string) : Prop := ∀ x, x ∈ set → comma_free x.

Lemma append_inj_comma a b s t :
  Forall (λ c, c ≠ Ascii.ascii_of_nat 44) (String.list_ascii_of_string a) →
  Forall (λ c, c ≠ Ascii.ascii_of_nat 44) (String.list_ascii_of_string b) →
  (a +:+ "," +:+ s = b +:+ "," +:+ t → a = b ∧ s = t) ∧ (a +:+ "," +:+ s = b → False) ∧ (a = b +:+ "," +:+ t → False).
Proof.
  revert b. induction a as [|c a IH]; intros [|d b] Ha Hb; simpl in *.
  - split_and!; [by intros [=]|done|done].
  - inversion Hb; subst. split_and!; [|intros [=]; subst; done|done]. intros [=]; subst. done.
  - inversion Ha; subst. split_and!; [|done|intros [=]; subst; done]. intros [=]; subst. done.
  - inversion Ha; inversion Hb; subst. destruct (IH b) as (IH1&IH2&IH3); [done..|].
    split_and!; intros [=]; subst; [|by apply IH2|by apply IH3]. destruct IH1 as [-> ->]; done.
Qed.

Lemma concat_comma_inj l m : Forall comma_free l → Forall comma_free m → String.concat "," l = String.concat "," m → l = m.
Proof.
  revert m. induction l as [|a l IH]; intros [|b m] Hl Hm Heq; [done| | |].
  - inversion Hm as [|? ? [Hb _]]; subst. destruct m; simpl in Heq; [by subst|]. by destruct b.
  - inversion Hl as [|? ? [Ha _]]; subst. destruct l; simpl in Heq; [by subst|]. by destruct a.
  - inversion Hl as [|? ? [Ha Hac] Hl']; inversion Hm as [|? ? [Hb Hbc] Hm']; subst.
    destruct l as [|a' l], m as [|b' m]; cbn [String.concat] in Heq.
    + by subst.
    + by destruct (append_inj_comma a b "" (String.concat "," (b' :: m)) Hac Hbc) as (_&_&[]).
    + by destruct (append_inj_comma a b (String.concat "," (a' :: l)) "" Hac Hbc) as (_&[]&_).
    + destruct (append_inj_comma a b (String.concat "," (a' :: l)) (String.concat "," (b' :: m)) Hac Hbc) as ([-> Heq']&_&_); [done|].
      by rewrite (IH (b' :: m)).
Qed.

Lemma fingerprint_inj s1 s2 : texts s1 → texts s2 → learnedSetFingerprint s1 = learnedSetFingerprint s2 → s1 = s2.
Proof.
  intros H1 H2 Heq.
  assert (∀ s, texts s → Forall comma_free (merge_sort str_le (elements s))) as Ht.
  { intros s Hs. rewrite merge_sort_Permutation. apply Forall_lookup_2. intros i x Hx.
    apply Hs, elem_of_elements. by eapply list_elem_of_lookup_2. }
  apply concat_comma_inj in Heq; [|by apply Ht..].
  apply set_eq. intros x. rewrite <- !elem_of_elements, <- (merge_sort_Permutation str_le (elements s1)), Heq, merge_sort_Permutation. done.
Qed.

(** ** The text of an address has no comma *)

Definition no_comma (s : string) : Prop := Forall (λ c, c ≠ Ascii.ascii_of_nat 44) (String.list_ascii_of_string s).

Lemma no_comma_app a b : no_comma a → no_comma b → no_comma (a +:+ b).
Proof. unfold no_comma. induction a; simpl; [done|]. intros Ha Hb. inversion Ha; subst. constructor; [done|]. by apply IHa. Qed.

Lemma no_comma_concat sep l : no_comma sep → Forall no_comma l → no_comma (String.concat sep l).
Proof.
  intros Hs. induction 1 as [|a l Ha Hl IH]; [by constructor|]. destruct l as [|b l]; [done|].
  cbn [String.concat]. by repeat apply no_comma_app.
Qed.

Lemma no_comma_digits s : digits_text s → no_comma s.
Proof.
  unfold digits_text, no_comma. intros Hs. eapply Forall_impl; [|exact Hs]. intros a Ha ->. vm_compute in Ha. done.
Qed.

Lemma no_comma_pretty z : 0 ≤ z → no_comma (pretty z) ∧ pretty z ≠ "".
Proof.
  intros Hz. rewrite pretty_Z_nonneg by done. split; [apply no_comma_digits, pretty_N_digits|apply pretty_N_nonempty].
Qed.

Lemma hex_digit_ok d : 0 ≤ d < 16 → no_comma (hex_digit d).
Proof.
  intros Hd. assert (∃ n : nat, (n < 16)%nat ∧ d = Z.of_nat n) as (n&Hn&->) by (exists (Z.to_nat d); lia).
  do 16 (destruct n as [|n]; [repeat constructor; discriminate|]). lia.
Qed.

Lemma hex_text_ok g : 0 ≤ g < 65536 → no_comma (hex_text g) ∧ hex_text g ≠ "".
Proof.
  intros Hg. unfold hex_text. cbv zeta.
  assert (Forall (λ d, 0 ≤ d < 16) [g / 4096; (g / 256) mod 16; (g / 16) mod 16; g mod 16]) as Hd.
  { repeat constructor; try (apply Z.mod_pos_bound; lia); [apply Z.div_pos; lia|apply Z.div_lt_upper_bound; lia]. }
  assert (∀ l, Forall (λ d, 0 ≤ d < 16) l → no_comma (String.concat "" (hex_digit <$> l))) as Hc.
  { intros l Hl. apply no_comma_concat; [by constructor|]. apply Forall_fmap. eapply Forall_impl; [|exact Hl].
    intros x. apply hex_digit_ok. }
  do 4 (inversion Hd as [|? ? ? Hd']; subst; clear Hd; rename Hd' into Hd).
  repeat case_match; (split; [first [apply hex_digit_ok; assumption|apply Hc; repeat (constructor; [assumption|]); constructor]|done]).
Qed.

Definition ip_wf (ip : list Z) : Prop := (length ip = 4%nat ∨ length ip = 16%nat) ∧ Forall is_byte ip.

Lemma groups_ok ip : Forall is_byte ip → Forall (λ g, 0 ≤ g < 65536) (groups ip).
Proof.
  remember (length ip) as n eqn:Hn. revert ip Hn. induction (lt_wf n) as [n _ IH]. intros [|a [|b ip]] Hn Hb; [constructor..|].
  inversion Hb as [|? ? Ha Hb']; subst. inversion Hb' as [|? ? Hb0 Hb'']; subst. simpl. unfold is_byte in *.
  constructor; [lia|]. by eapply IH; [|reflexivity|done]; simpl; lia.
Qed.

Lemma text6_ok ip : Forall is_byte ip → length ip = 16%nat → comma_free (text6 ip).
Proof.
  intros Hb Hl. unfold text6. pose proof (groups_ok ip Hb) as Hg. destruct (best_run 0 (groups ip) (0, 0)%nat) as [at_ n].
  assert (∀ l, Forall (λ g, 0 ≤ g < 65536) l → Forall no_comma (hex_text <$> l)) as Hx.
  { intros l Hf. apply Forall_fmap. eapply Forall_impl; [|exact Hf]. intros g Hgg. by apply hex_text_ok. }
  destruct (Nat.eqb n 0).
  - split; [|apply no_comma_concat; [repeat constructor; discriminate|by apply Hx]].
    destruct ip as [|a [|b [|c [|d ip]]]]; try done. cbn [groups] in *. inversion Hg as [|? ? H1 H2]; subst.
    destruct (hex_text_ok _ H1) as [_ Hne]. cbn [fmap list_fmap String.concat]. by destruct (hex_text (a * 256 + b)).
  - split.
    + by destruct (String.concat ":" (hex_text <$> take at_ (groups ip))).
    + repeat apply no_comma_app; [|repeat constructor; discriminate|];
        (apply no_comma_concat; [repeat constructor; discriminate|]); apply Hx; [by apply Forall_take|by apply Forall_drop].
Qed.

Lemma dotted_ok q : Forall is_byte q → q ≠ [] → comma_free (String.concat "." (pretty <$> q)).
Proof.
  intros Hb Hne. split.
  - destruct q as [|a q]; [done|]. inversion Hb as [|? ? Ha]; subst. destruct (no_comma_pretty a) as [_ Hp]; [unfold is_byte in Ha; lia|].
    cbn [fmap list_fmap String.concat]. destruct q; cbn [fmap list_fmap]; [done|]. by destruct (pretty a).
  - apply no_comma_concat; [repeat constructor; discriminate|]. apply Forall_fmap. eapply Forall_impl; [|exact Hb].
    intros x Hx. apply no_comma_pretty. unfold is_byte in Hx. lia.
Qed.

Lemma IPString_text ip : ip_wf ip → comma_free (IPString ip).
Proof.
  intros [Hl Hb]. unfold IPString. destruct ip as [|a ip]; [simpl in Hl; lia|].
  destruct (ip4 (a :: ip)) as [q|] eqn:Hq.
  - unfold ip4 in Hq. destruct (Nat.eqb _ 4); simplify_eq; [by apply dotted_ok|].
    destruct (Nat.eqb _ 16) eqn:H16; [|done]. unfold To4 in Hq. case_bool_decide; [|done]. simplify_eq.
    apply dotted_ok; [by apply Forall_drop|]. apply Nat.eqb_eq in H16. intros Hd. apply (f_equal length) in Hd.
    rewrite length_drop in Hd. simpl in *. lia.
  - destruct Hl as [Hl|Hl]; [by unfold ip4 in Hq; rewrite Hl in Hq|]. rewrite Hl. simpl. by apply text6_ok.
Qed.

(** The set [learnedDialSet] builds. *)
Lemma texts_of_ips ips : Forall ip_wf ips → texts (list_to_set (IPString <$> ips)).
Proof.
  intros Hf x Hx. apply elem_of_list_to_set, list_elem_of_fmap in Hx as (ip&->&Hip).
  apply IPString_text. apply list_elem_of_lookup_1 in Hip as [i Hi]. exact (Forall_lookup_1 _ _ _ _ Hf Hi).
Qed.

(** ** The invariant *)

Definition allowed_peer (set : option (gset string)) (peer : Addr) : Prop :=
  isPrivate peer = false ∧ match set with Some s => learnedSetContainsIP s peer = true | None => True end.

(** A header of the request that was not dropped, or the one injected. *)
Definition header_origin `{Unicode} (v : requestView) (pol : Policy) (hdr out : Header) : Prop :=
  ∀ k vals, out !! k = Some vals →
    (∃ name val, injection v pol = Some (name, val) ∧ k = CanonicalHeaderKey name ∧ vals = [val]) ∨
    (hdr !! k = Some vals ∧ k ∉ "X-Task-Id" :: hopByHopHeaders).

Definition rooted (p : string) : Prop := HasPrefix p "/" = true.

(** What a request handed to a transport owes to the policy it was judged by. *)
Record sendable `{Unicode} (j : judged) (r : Request) (o : outgoing) : Prop := mkSendable {
  sd_view : j_view j = viewFromHTTP r;
  sd_allowed : decideDomain (j_view j) (j_pol j) = DecisionAllow;
  sd_method : o_Method o = r_Method r ∧ methodAllowed (r_Method r) (AllowedMethods (j_pol j)) = true;
  sd_host : u_Host (o_URL o) = u_Host (r_URL r) ∧ (u_Host (r_URL r) = "" ∨ r_Host r = u_Host (r_URL r) ∨ r_Host r = "");
  sd_path : j_mitm j = false → rooted (v_path (j_view j)) → u_Path (o_URL o) = v_path (j_view j);
  sd_header : header_origin (j_view j) (j_pol j) (r_Header r) (o_Header o);
  sd_body : ∃ rest, o_Body o ++ rest = r_Body r;
  sd_cap : 0 < MaxRequestBody (j_pol j) < 2^63 - 1 → Z.of_nat (length (o_Body o)) ≤ MaxRequestBody (j_pol j) + 1
}.

Section invariant.
Context `{Unicode} {L : Type} `{LearnedIPChecker L} (learned : L → Prop).
Implicit Types g : Gateway L.

Definition in_past g (task : string) (pol : Policy) : Prop := ∃ n, h_past (g_hist g) !! (task, n) = Some pol.

(** The policy was the task's when its generation was [gen]. *)
Definition judged_at g (task : string) (pol : Policy) (gen : Z) : Prop :=
  ∃ n, h_past (g_hist g) !! (task, n) = Some pol ∧ gen = n `mod` 2^64 ∧ 0 ≤ n ≤ updates g task.

Definition is_connect g (c : conn) : Prop := ∃ j set peer first from, EvRelay KConnect j set c peer first from ∈ h_trace (g_hist g).

(** The set is what the learner held for a host of the task. *)
Definition learned_for (task host : string) (set : option (gset string)) : Prop :=
  match set with Some s => ∃ l, learned l ∧ s = list_to_set (IPString <$> LearnedIPs l task host) | None => True end.

Definition sent_set (j : judged) (set : option (gset string)) : Prop :=
  ∃ host, learned_for (j_task j) host set ∧ (j_mitm j = false → host = v_host (j_view j)).

(** The connection was registered under this policy. *)
Definition tracked g (task : string) (pol : Policy) (c : conn) : Prop := ∃ n, EvTracked task n pol c ∈ h_trace (g_hist g).

(** A connection of the task is intercepted under this policy. *)
Definition intercepted g (task : string) (pol : Policy) : Prop := ∃ c, EvPlain task pol c ∈ h_trace (g_hist g).

Definition good g (e : event) : Prop :=
  match e with
  | EvTracked task n pol c => updates g task < 2^64 → h_past (g_hist g) !! (task, n) = Some pol
  | EvReleased _ c dead => if dead then dead_conn g c = true else is_connect g c
  | EvUpdated task n => ∃ l, h_swept (g_hist g) !! (task, n) = Some l ∧ Forall (λ c, c ∈ g_closed g) l
  | EvRelay k j set c peer _ _ =>
      in_past g (j_task j) (j_pol j) ∧ decideDomain (j_view j) (j_pol j) = DecisionAllow ∧ allowed_peer set peer ∧
      learned_for (j_task j) (v_host (j_view j)) set ∧
      (k = KConnect → Rules (j_pol j) = [] → v_port (j_view j) ∈ ["80"; "443"]) ∧ tracked g (j_task j) (j_pol j) c
  | EvSent j r set o peer n =>
      in_past g (j_task j) (j_pol j) ∧ sendable j r o ∧ allowed_peer set peer ∧ sent_set j set ∧ u_Host (o_URL o) ≠ "" ∧ (n ≤ length (o_Body o))%nat ∧
      (j_mitm j = true → intercepted g (j_task j) (j_pol j))
  | EvPlain task pol c => tracked g task pol c
  | EvServeHTTP _ from => (1 ≤ from)%nat
  end.

(** Every tunnel registered under a policy is still registered under it, was
    swept by the next one, or was released by its handler. *)
Definition tracked_ok g : Prop := ∀ task n pol c, EvTracked task n pol c ∈ h_trace (g_hist g) →
  (c ∈ tunnels g task ∧ n = updates g task) ∨
  (∃ l, h_swept (g_hist g) !! (task, n + 1) = Some l ∧ c ∈ l) ∨
  (∃ dead, EvReleased task c dead ∈ h_trace (g_hist g)).

Record Inv g : Prop := mkInv {
  inv_floor : c_ssrfBypass (g_cfg g) = false;
  inv_learn : learned (g_learn g);
  inv_gen : ∀ task, 0 ≤ updates g task ∧ polGen g task = updates g task `mod` 2^64;
  inv_pol : ∀ task pol, p_policies (g_pol g) !! task = Some pol → h_past (g_hist g) !! (task, updates g task) = Some pol;
  inv_past : ∀ task n, is_Some (h_past (g_hist g) !! (task, n)) → 0 ≤ n ≤ updates g task;
  inv_swept : ∀ task n, is_Some (h_swept (g_hist g) !! (task, n)) → n ≤ updates g task;
  inv_shared : ∀ t, t_shared (g_tr g) = Some t → t_guard (g_tr g) !! t = Some None;
  inv_cache : ∀ key fp t, t_learned (g_tr g) !! key = Some (fp, t) →
    ∃ set, texts set ∧ fp = learnedSetFingerprint set ∧ t_guard (g_tr g) !! t = Some (Some set);
  inv_pool : ∀ t l k a, t_pool (g_tr g) !! t = Some l → (k, a) ∈ l →
    ∃ gd, t_guard (g_tr g) !! t = Some gd ∧ dial_check false gd a = None;
  inv_trace : ∀ e, e ∈ h_trace (g_hist g) → good g e;
  inv_tracked : tracked_ok g
}.

(** The state only moves along this order. *)
Record Le g g' : Prop := mkLe {
  le_trace : ∀ e, e ∈ h_trace (g_hist g) → e ∈ h_trace (g_hist g');
  le_closed : g_closed g ⊆ g_closed g';
  le_ended : g_ended g ⊆ g_ended g';
  le_past : h_past (g_hist g) ⊆ h_past (g_hist g');
  le_swept : h_swept (g_hist g) ⊆ h_swept (g_hist g');
  le_updates : ∀ task, updates g task ≤ updates g' task;
  le_guard : t_guard (g_tr g) ⊆ t_guard (g_tr g')
}.

#[global] Instance Le_preorder : PreOrder Le.
Proof.
  split.
  - intros g. by constructor.
  - intros g1 g2 g3 [] []. constructor; [by auto|by etrans..| |by etrans]. intros task. etrans; eauto.
Qed.

Notation stable := (stable Le).

Lemma dead_mono g g' c : Le g g' → dead_conn g c = true → dead_conn g' c = true.
Proof. intros [] Hd. unfold dead_conn in *. apply orb_true_iff in Hd. rewrite andb_true_iff, !bool_decide_eq_true in Hd.
  apply orb_true_iff. rewrite andb_true_iff, !bool_decide_eq_true.
  destruct Hd as [Hd|[Hd1 Hd2]]; [left; by apply le_closed0|right; split; by apply le_ended0]. Qed.

Lemma in_past_mono g g' task pol : Le g g' → in_past g task pol → in_past g' task pol.
Proof. intros [] [n Hn]. exists n. by eapply lookup_weaken. Qed.

Lemma judged_at_mono g g' task pol gen : Le g g' → judged_at g task pol gen → judged_at g' task pol gen.
Proof.
  intros [] (n&Hn&Hg&Hle). exists n. split; [by eapply lookup_weaken|]. split; [done|].
  specialize (le_updates0 task). lia.
Qed.

Lemma tracked_mono g g' task pol c : Le g g' → tracked g task pol c → tracked g' task pol c.
Proof. intros [] [n Hn]. exists n. by apply le_trace0. Qed.

Lemma intercepted_mono g g' task pol : Le g g' → intercepted g task pol → intercepted g' task pol.
Proof. intros [] [c Hc]. exists c. by apply le_trace0. Qed.

Lemma good_mono g g' e : Le g g' → good g e → good g' e.
Proof.
  intros HL. pose proof HL as []. destruct e as [t n pol c|t c d|t n|k j s c a f i|j r s o a n|t pol c|c f]; simpl; [..|done].
  - intros Hg Hb. eapply lookup_weaken; [apply Hg|done]. specialize (le_updates0 t). lia.
  - destruct d; [by apply dead_mono|]. intros (j&s&p&f&i&Hin). exists j, s, p, f, i. by apply le_trace0.
  - intros (l&Hl&Hf). exists l. split; [by eapply lookup_weaken|]. eapply Forall_impl; [|exact Hf]. intros c. apply le_closed0.
  - intros (Hp&?&?&?&?&Ht). split_and!; try done; [by eapply in_past_mono|by eapply tracked_mono].
  - intros (Hp&?&?&?&?&?&Hm). split_and!; try done; [by eapply in_past_mono|]. intros ?. by eapply intercepted_mono, Hm.
  - by apply tracked_mono.
Qed.

(** ** What operations need and give *)

Definition ordinary (e : event) : Prop :=
  match e with EvRelay _ _ _ _ _ _ _ | EvPlain _ _ _ | EvServeHTTP _ _ => True | _ => False end.

Definition pre {X} (o : op X) g : Prop :=
  match o with
  | PolicyUpdated task n => good g (EvUpdated task n)
  | TrackTunnelIfFresh task pol gen _ => judged_at g task pol gen
  | UntrackTunnel _ c => dead_conn g c = true ∨ is_connect g c
  | Event e => ordinary e ∧ good g e
  | LearnedTransport _ _ set => texts set
  | RoundTrip j r set t o => in_past g (j_task j) (j_pol j) ∧ sendable j r o ∧ sent_set j set ∧ t_guard (g_tr g) !! t = Some set ∧
      (j_mitm j = true → intercepted g (j_task j) (j_pol j))
  | _ => True
  end.

Definition post {X} (o : op X) : X → Gateway L → Prop :=
  match o in op X return X → Gateway L → Prop with
  | PolicyWithGen task => λ x g, ∀ pol, x.1 = Some pol → judged_at g task pol x.2
  | SetPolicyCS task _ => λ x g, h_swept (g_hist g) !! (task, x.1) = Some x.2
  | TrackTunnelIfFresh task pol _ c => λ x g, x = true → tracked g task pol c
  | CloseConn c => λ _ g, c ∈ g_closed g
  | SsrFloorEnabled => λ x _, x = true
  | CheckerIPs task host => λ x _, ∃ l, learned l ∧ x = LearnedIPs l task host
  | CopyEnds c up => λ _ g, (c, up) ∈ g_ended g
  | Event e => λ _ g, e ∈ h_trace (g_hist g)
  | ReadTransport => λ x g, ∀ t, x = Some t → t_guard (g_tr g) !! t = Some None
  | CreateTransport => λ x g, t_guard (g_tr g) !! x = Some None
  | LearnedTransport _ _ set => λ x g, t_guard (g_tr g) !! x = Some (Some set)
  | ReadRequest _ => λ x _, ∀ r, x = Some r → r_Host r = u_Host (r_URL r) ∨ u_Host (r_URL r) = ""
  | _ => λ _ _, True
  end.

Lemma post_stable {X} (o : op X) x : stable (post o x).
Proof.
  intros g g' HL. pose proof HL as []. destruct o; simpl; try done; intros Hp.
  - intros pol Hpol. eapply judged_at_mono; [done|]. by apply Hp.
  - by eapply lookup_weaken.
  - intros Hx. by eapply tracked_mono, Hp.
  - by apply le_closed0.
  - by apply le_ended0.
  - by apply le_trace0.
  - intros t Ht. eapply lookup_weaken; [by apply Hp|done].
  - by eapply lookup_weaken.
  - by eapply lookup_weaken.
Qed.
(** ** Operations keep the invariant *)

Lemma good_same g g' e : g_hist g' = g_hist g → g_closed g ⊆ g_closed g' → g_ended g ⊆ g_ended g' → good g e → good g' e.
Proof.
  intros Hh Hc He. destruct e as [t n pol c|t c d|t n|k j s c a f i|j r s o a n|t pol c|c f]; simpl; [..|done];
    unfold in_past, is_connect, tracked, intercepted; rewrite Hh; try done.
  - destruct d; [|done]. unfold dead_conn. rewrite !orb_true_iff, !andb_true_iff, !bool_decide_eq_true.
    intros [Hd|[Hd1 Hd2]]; [left; by apply Hc|right; split; by apply He].
  - intros (l&Hl&Hf). exists l. split; [done|]. eapply Forall_impl; [|exact Hf]. intros c. apply Hc.
Qed.

(** A step that leaves policies, transports, learner and history alone. *)
Lemma Inv_frame g g' :
  Inv g → g_pol g' = g_pol g → c_ssrfBypass (g_cfg g') = c_ssrfBypass (g_cfg g) → g_tr g' = g_tr g → learned (g_learn g') →
  g_hist g' = g_hist g → g_closed g ⊆ g_closed g' → g_ended g ⊆ g_ended g' → Inv g' ∧ Le g g'.
Proof.
  intros [] Hp Hc Ht Hl Hh Hcl Hen. split.
  - constructor; rewrite ?Hp, ?Hc, ?Ht, ?Hh; try done.
    + intros e He. rewrite <- Hh in He. eapply good_same; [done..|]. apply inv_trace0. by rewrite <- Hh.
    + unfold tracked_ok. by rewrite Hp, Hh.
  - constructor; by rewrite ?Hh, ?Ht.
Qed.

Lemma Le_emit g e : Le g (emit e g).
Proof. constructor; simpl; try done. intros e'. rewrite elem_of_app. by left. Qed.

Lemma Inv_emit g e :
  Inv g → good (emit e g) e → match e with EvTracked _ _ _ _ => False | _ => True end → Inv (emit e g) ∧ Le g (emit e g).
Proof.
  intros HI Hg Hne. pose proof (Le_emit g e) as HL. pose proof HI as []. split; [|done].
  constructor; simpl; try done.
  - intros e' He'. apply elem_of_app in He' as [He'| ->%list_elem_of_singleton]; [|done]. eapply good_mono; [done|by apply inv_trace0].
  - intros task n pol c Hin. simpl in Hin. apply elem_of_app in Hin as [Hin|Heq%list_elem_of_singleton]; [|by subst e].
    destruct (inv_tracked0 _ _ _ _ Hin) as [H1|[H1|[d H1]]]; [by left|by right; left|right; right]. exists d.
    simpl. apply elem_of_app. by left.
Qed.

Definition tr_ok (tr : transports) : Prop :=
  (∀ t, t_shared tr = Some t → t_guard tr !! t = Some None) ∧
  (∀ key fp t, t_learned tr !! key = Some (fp, t) →
    ∃ set, texts set ∧ fp = learnedSetFingerprint set ∧ t_guard tr !! t = Some (Some set)) ∧
  (∀ t l k a, t_pool tr !! t = Some l → (k, a) ∈ l → ∃ gd, t_guard tr !! t = Some gd ∧ dial_check false gd a = None).

Lemma Inv_tr_ok g : Inv g → tr_ok (g_tr g).
Proof. intros []. by split_and!. Qed.

Lemma Inv_set_tr g tr : Inv g → tr_ok tr → t_guard (g_tr g) ⊆ t_guard tr → Inv (set_tr (λ _, tr) g) ∧ Le g (set_tr (λ _, tr) g).
Proof.
  intros [] (H1&H2&H3) Hsub. split; [|by constructor]. constructor; try done.
Qed.

Lemma tr_ok_guard tr gd : tr_ok tr → let t := fresh (dom (t_guard tr)) in
  ∀ sh le, (∀ u, sh = Some u → <[t := gd]> (t_guard tr) !! u = Some None) →
  (∀ key fp u, le !! key = Some (fp, u) → ∃ set, texts set ∧ fp = learnedSetFingerprint set ∧ <[t := gd]> (t_guard tr) !! u = Some (Some set)) →
  ∀ pools, (∀ u l ka, pools !! u = Some l → ka ∈ l → ∃ l', t_pool tr !! u = Some l' ∧ ka ∈ l') →
  tr_ok (mkTransports sh le (<[t := gd]> (t_guard tr)) pools) ∧ t_guard tr ⊆ <[t := gd]> (t_guard tr).
Proof.
  intros (H1&H2&H3) t sh le Hsh Hle pools Hpool.
  assert (t_guard tr !! t = None) as Hfresh by (apply not_elem_of_dom; unfold t; apply is_fresh).
  split; [|by apply insert_subseteq]. split_and!; simpl; [done|done|].
  intros u l k a Hu Hin. destruct (Hpool _ _ _ Hu Hin) as (l'&Hl'&Hin'). destruct (H3 _ _ _ _ Hl' Hin') as (gd'&Hg&Hd).
  exists gd'. split; [|done]. rewrite lookup_insert_ne; [done|]. intros ->. congruence.
Qed.

Lemma pools_emptied (m : gmap string (string * nat)) (p : gmap nat (list (string * Addr))) u l ka :
  map_fold (λ _ e p, <[e.2 := []]> p) p m !! u = Some l → ka ∈ l → p !! u = Some l.
Proof.
  revert l. induction m as [|k e m Hm Hk IH] using map_first_key_ind; [done|]. intros l.
  rewrite map_fold_insert_first_key by done. rewrite lookup_insert. case_decide; [|by apply IH].
  intros [= <-] Hin. by apply elem_of_nil in Hin.
Qed.

Lemma rebuild_ok tr task host set :
  tr_ok tr → texts set →
  let '(tr', t) := rebuild_transport task host set tr in
  tr_ok tr' ∧ t_guard tr ⊆ t_guard tr' ∧ t_guard tr' !! t = Some (Some set).
Proof.
  intros Htr Hset. pose proof Htr as (H1&H2&H3). unfold rebuild_transport.
  set (fp := learnedSetFingerprint set). set (key := cachePrefix task host +:+ fp).
  set (kept := filter (λ kv, ¬ stale task host fp kv) (t_learned tr)).
  assert (∀ k v, kept !! k = Some v → t_learned tr !! k = Some v ∧ ¬ stale task host fp (k, v)) as Hk
    by (intros k v Hkv; by apply map_lookup_filter_Some in Hkv).
  destruct (kept !! key) as [[fp' t]|] eqn:Hkey.
  - destruct (Hk _ _ Hkey) as [Hl Hns]. destruct (H2 _ _ _ Hl) as (s'&Hs'&Hfp&Hg).
    assert (fp' = fp) as Heq.
    { destruct (decide (fp' = fp)) as [->|Hne]; [done|]. destruct Hns. split; [|done]. apply HasPrefix_spec. by exists fp. }
    assert (s' = set) as -> by (apply fingerprint_inj; [done..|by rewrite <- Hfp]).
    split_and!; simpl; [|done|done]. split_and!; simpl; [done| |].
    + intros k f u Hu. apply Hk in Hu as [Hu _]. by eapply H2.
    + intros u l k a Hu Hin. eapply H3; [by eapply pools_emptied|done].
  - edestruct (tr_ok_guard tr (Some set) Htr (t_shared tr) (<[key := (fp, fresh (dom (t_guard tr)))]> kept)) as [Ha Hb].
    + intros u Hu. rewrite lookup_insert_ne; [by apply H1|]. intros <-. specialize (H1 _ Hu).
      apply (is_fresh (dom (t_guard tr))). by apply elem_of_dom_2 in H1.
    + intros k f u. rewrite lookup_insert. case_decide.
      * intros [= <- <-]. exists set. rewrite lookup_insert. by case_decide.
      * intros Hu. apply Hk in Hu as [Hu _]. destruct (H2 _ _ _ Hu) as (s'&Hs'&Hf&Hg). exists s'. split_and!; [done..|].
        rewrite lookup_insert_ne; [done|]. intros <-. apply (is_fresh (dom (t_guard tr))). by apply elem_of_dom_2 in Hg.
    + intros u l ka Hu Hin. exists l. split; [by eapply pools_emptied|done].
    + split_and!; [exact Ha|exact Hb|]. simpl. rewrite lookup_insert. by case_decide.
Qed.

Lemma learned_transport_ok tr task host set :
  tr_ok tr → texts set →
  let '(tr', t) := learned_transport task host set tr in
  tr_ok tr' ∧ t_guard tr ⊆ t_guard tr' ∧ t_guard tr' !! t = Some (Some set).
Proof.
  intros Htr Hset. pose proof (rebuild_ok tr task host set Htr Hset) as Hr. unfold learned_transport.
  destruct (t_learned tr !! _) as [[fp t]|] eqn:Hl; [|done]. case_bool_decide as Heq; [|done].
  destruct Htr as (H1&H2&H3). destruct (H2 _ _ _ Hl) as (s&Hs&Hf&Hg). split_and!; [by split_and!|done|].
  rewrite Hg. do 2 f_equal. apply fingerprint_inj; [done..|by rewrite <- Hf].
Qed.

Lemma connect_ok w t set out tr :
  tr_ok tr → t_guard tr !! t = Some set →
  let '(tr', res) := connect w false t out tr in
  tr_ok tr' ∧ t_guard tr ⊆ t_guard tr' ∧ match res with inr a => allowed_peer set a | inl _ => True end.
Proof.
  intros Htr Hg. pose proof Htr as (H1&H2&H3).
  assert (∀ a, dial_check false set a = None → allowed_peer set a) as Hd.
  { intros a. unfold dial_check, allowed_peer. destruct (isPrivate a); [done|]. destruct set as [s|]; [|done]. simpl.
    by destruct (learnedSetContainsIP s a). }
  unfold connect. destruct (w_reuse w ≫= _) as [a|] eqn:Hre.
  - split_and!; [done|done|]. apply Hd. destruct (w_reuse w) as [i|]; [|done]. simpl in Hre. unfold pooled in Hre.
    apply list_elem_of_lookup_2 in Hre. apply list_elem_of_fmap in Hre as ([k a']&->&Hin).
    apply list_elem_of_filter in Hin as [_ Hin]. destruct (t_pool tr !! t) as [l|] eqn:Hl; [|by apply elem_of_nil in Hin].
    destruct (H3 _ _ _ _ Hl Hin) as (gd&Hgd&Hc). simpl. congruence.
  - destruct (w_addr w) as [a|]; [|done]. rewrite Hg. simpl. destruct (dial_check false set a) eqn:Hc; [done|].
    split_and!; simpl; [|done|by apply Hd]. split_and!; simpl; [done|done|].
    intros u l k b Hu Hin. rewrite lookup_insert in Hu. case_decide as Hut.
    + simplify_eq. apply elem_of_cons in Hin as [[= -> ->]|Hin]; [eauto|].
      destruct (t_pool tr !! u) as [l|] eqn:Hl; [by eapply H3|by apply elem_of_nil in Hin].
    + by eapply H3.
Qed.
Lemma updates_insert g task (n : Z) t' :
  default 0 (<[task := n]> (h_updates (g_hist g)) !! t') = if decide (task = t') then n else updates g t'.
Proof. rewrite lookup_insert. by case_decide. Qed.

Lemma setPolicy_ok g task p : Inv g →
  let '(g', (n, l)) := setPolicy_cs task p g in Inv g' ∧ Le g g' ∧ h_swept (g_hist g') !! (task, n) = Some l.
Proof.
  intros HI. pose proof HI as []. remember (updates g task + 1) as n eqn:Hn.
  assert (h_past (g_hist g) !! (task, n) = None) as Hp.
  { apply eq_None_not_Some. intros Hs. apply inv_past0 in Hs. lia. }
  assert (h_swept (g_hist g) !! (task, n) = None) as Hs.
  { apply eq_None_not_Some. intros Hx. apply inv_swept0 in Hx. lia. }
  unfold setPolicy_cs. rewrite <- Hn. set (g' := set_hist _ _).
  assert (Le g g') as HL.
  { constructor; simpl; try done; [by apply insert_subseteq|by apply insert_subseteq|].
    intros t'. rewrite updates_insert. case_decide as Hd; [rewrite <- Hd|]; lia. }
  split_and!; [|done|by simpl; rewrite lookup_insert; case_decide]. constructor; simpl; try done.
  - intros t'. rewrite updates_insert, lookup_insert. destruct (inv_gen0 t') as [H1 H2]. case_decide; [subst|done]. simpl.
    split; [lia|]. unfold u64. rewrite H2, Zplus_mod_idemp_l. done.
  - intros t' pol. rewrite updates_insert, lookup_insert. case_decide; subst.
    + intros [= <-]. rewrite lookup_insert. by case_decide.
    + intros Ht. rewrite lookup_insert_ne by congruence. by apply inv_pol0.
  - intros t' m. rewrite updates_insert, lookup_insert. case_decide as Hd; [injection Hd as <- <-|].
    + intros _. rewrite decide_True by done. destruct (inv_gen0 task). lia.
    + intros Hx%inv_past0. case_decide; subst; lia.
  - intros t' m. rewrite updates_insert, lookup_insert. case_decide as Hd; [injection Hd as <- <-|].
    + intros _. by rewrite decide_True.
    + intros Hx%inv_swept0. case_decide; subst; lia.
  - intros e He. eapply good_mono; [done|]. by apply inv_trace0.
  - intros t' m pol c Hin. simpl in *. destruct (inv_tracked0 _ _ _ _ Hin) as [[Hc Hm]|[(l&Hl&Hc)|Hr]]; [|right; left|by right; right].
    + rewrite updates_insert, lookup_delete. case_decide; subst; [|by left]. right; left.
      exists (elements (tunnels g t')). rewrite lookup_insert. case_decide; [|done]. split; [done|by apply elem_of_elements].
    + exists l. split; [|done]. rewrite lookup_insert_ne; [done|]. intros Heq. rewrite Heq in Hs. congruence.
Qed.

Lemma track_ok g task pol gen c : Inv g → judged_at g task pol gen →
  let '(g', x) := trackTunnelIfFresh task pol gen c g in Inv g' ∧ Le g g' ∧ (x = true → tracked g' task pol c).
Proof.
  intros HI (m&Hm&Hgen&Hle). pose proof HI as []. unfold trackTunnelIfFresh. case_bool_decide as Hf; [|by split_and!].
  set (g' := emit _ _). assert (Le g g') as HL by (constructor; simpl; try done; intros e; rewrite elem_of_app; by left).
  split_and!; [|done|intros _; exists (updates g task); simpl; apply elem_of_app; right; by apply list_elem_of_singleton].
  constructor; simpl; try done.
  - intros e He. apply elem_of_app in He as [He| ->%list_elem_of_singleton]; [by eapply good_mono, inv_trace0|].
    simpl. intros Hb. destruct (inv_gen0 task) as [H1 H2]. rewrite H2, Hgen in Hf.
    rewrite !Z.mod_small in Hf by lia. by rewrite Hf.
  - intros t' n' pol' c' Hin. simpl in *. rewrite lookup_insert.
    assert (∀ e, e ∈ h_trace (g_hist g) → e ∈ h_trace (g_hist g) ++ [EvTracked task (updates g task) pol c]) as Hsub
      by (intros e He; apply elem_of_app; by left).
    apply elem_of_app in Hin as [Hin|Heq%list_elem_of_singleton].
    + destruct (inv_tracked0 _ _ _ _ Hin) as [[Hc Hn]|[Hs|[d Hr]]]; [left|by right; left|right; right; eauto].
      case_decide; subst; [|done]. split; [set_solver|done].
    + injection Heq as -> -> -> ->. left. rewrite decide_True by done. split; [set_solver|done].
Qed.

Lemma tunnels_removed (m : gmap string (gset conn)) task c t' (x : conn) :
  x ≠ c ∨ t' ≠ task → x ∈ (default ∅ (m !! t') : gset conn) →
  x ∈ (default ∅ (match m !! task with
                  | Some s => if bool_decide (s ∖ {[c]} = ∅) then delete task m else <[task := s ∖ {[c]}]> m
                  | None => m
                  end !! t') : gset conn).
Proof.
  intros Hne Hx. destruct (m !! task) as [s|] eqn:Hs; [|done]. destruct (decide (task = t')) as [->|Ht].
  - rewrite Hs in Hx. simpl in Hx. destruct Hne as [Hne|]; [|done]. case_bool_decide as He; [set_solver|].
    rewrite lookup_insert, decide_True by done. set_solver.
  - case_bool_decide; [by rewrite lookup_delete_ne|by rewrite lookup_insert_ne].
Qed.

Lemma untrack_ok g task c : Inv g → dead_conn g c = true ∨ is_connect g c → Inv (untrackTunnel task c g) ∧ Le g (untrackTunnel task c g).
Proof.
  intros HI Hpre. pose proof HI as []. unfold untrackTunnel. set (g' := emit _ _).
  assert (Le g g') as HL by (constructor; simpl; try done; intros e; rewrite elem_of_app; by left).
  split; [|done]. constructor; simpl; try done.
  - intros e He. apply elem_of_app in He as [He| ->%list_elem_of_singleton]; [by eapply good_mono, inv_trace0|].
    eapply good_mono; [done|]. simpl. destruct (dead_conn g c); [done|]. by destruct Hpre.
  - intros t' n pol x Hin. simpl in *. apply elem_of_app in Hin as [Hin|Heq%list_elem_of_singleton]; [|done].
    destruct (inv_tracked0 _ _ _ _ Hin) as [[Hc Hn]|[Hs|[d Hr]]]; [|by right; left|right; right; exists d; apply elem_of_app; by left].
    destruct (decide (x = c ∧ t' = task)) as [[-> ->]|Hne].
    + right; right. exists (dead_conn g c). apply elem_of_app. right. by apply list_elem_of_singleton.
    + left. split; [|done]. apply tunnels_removed; [|done].
      destruct (decide (x = c)) as [->|]; [|by left]. right. intros ->. by apply Hne.
Qed.

Lemma round_trip_ok g j r set t out w : Inv g →
  in_past g (j_task j) (j_pol j) → sendable j r out → sent_set j set → t_guard (g_tr g) !! t = Some set →
  (j_mitm j = true → intercepted g (j_task j) (j_pol j)) →
  let '(g', _) := round_trip j r set t out w g in Inv g' ∧ Le g g'.
Proof.
  intros HI Hp Hs Hset Hg Hm. unfold round_trip. case_bool_decide; [by split|]. rewrite (inv_floor _ HI).
  pose proof (connect_ok w t set out (g_tr g) (Inv_tr_ok _ HI) Hg) as Hc.
  destruct (connect w false t out (g_tr g)) as [tr [e|a]]; destruct Hc as (Htr&Hsub&Ha).
  - by apply Inv_set_tr.
  - destruct (Inv_set_tr g tr HI Htr Hsub) as [HI1 HL1].
    destruct (Inv_emit (set_tr (λ _, tr) g) (EvSent j r set out a (Nat.min (w_n w) (length (o_Body out))))) as [HI2 HL2]; [done| |done|].
    + assert (Le g (emit (EvSent j r set out a (Nat.min (w_n w) (length (o_Body out)))) (set_tr (λ _, tr) g))) as HL2
        by (etrans; [exact HL1|apply Le_emit]).
      simpl. split_and!; [by eapply in_past_mono|done|done|done|done|lia|]. intros Hj. by eapply intercepted_mono, Hm.
    + split; [done|]. by etrans.
Qed.

Ltac framed := match goal with HI : Inv ?g |- _ => destruct (Inv_frame g _ HI) as [? ?]; cycle -1 end.

(** Every operation keeps the invariant and gives what [post] says. *)
Lemma exec_ok {X} (o : op X) w g : Inv g → pre o g → let '(g', x) := exec X o w g in Inv g' ∧ Le g g' ∧ post o x g'.
Proof.
  intros HI Hpre. pose proof (inv_learn _ HI) as Hlearn.
  assert (∀ g', Inv g' ∧ Le g g' → ∀ P : Prop, P → Inv g' ∧ Le g g' ∧ P) as Hand by (by intros g' [] P).
  assert (∀ P : Prop, P → Inv g ∧ Le g g ∧ P) as Hsame by (intros; by apply Hand).
  destruct o; cbn [exec post pre] in *.
  - apply Hsame. intros pol Hpol. destruct (inv_gen _ HI task). exists (updates g task).
    split; [by apply (inv_pol _ HI)|]. split; [done|lia].
  - pose proof (setPolicy_ok g task p HI) as Hs. by destruct (setPolicy_cs task p g) as [g' [n l]].
  - apply Hand; [|done]. apply Inv_emit; [done| |done]. eapply good_mono; [apply Le_emit|done].
  - pose proof (track_ok g task pol gen c HI Hpre) as Ht. by destruct (trackTunnelIfFresh task pol gen c g).
  - apply Hand; [|done]. by apply untrack_ok.
  - apply Hand; [|simpl; set_solver]. apply (Inv_frame g); simpl; try done. set_solver.
  - apply Hand; [|done]. unfold append_row.
    destruct (bool_decide (d = DecisionBlock)); destruct (ledger_of _ _); by apply (Inv_frame g).
  - apply Hand; [|done]. by apply (Inv_frame g).
  - apply Hand; [|done]. by apply (Inv_frame g).
  - apply Hsame. by rewrite (inv_floor _ HI).
  - by apply Hsame.
  - apply Hsame. eauto.
  - by apply Hsame.
  - by apply Hsame.
  - apply Hand; [|done]. by apply (Inv_frame g).
  - by apply Hsame.
  - destruct (w_addr w); [|by apply Hsame]. apply Hand; [|done]. by apply (Inv_frame g).
  - by apply Hsame.
  - by apply Hsame.
  - by apply Hsame.
  - apply Hand; [|simpl; set_solver]. apply (Inv_frame g); simpl; try done. set_solver.
  - apply Hsame. intros r. case_bool_decide; [done|]. destruct (w_req w) as [q|]; [|done]. simpl. intros [= <-].
    unfold server_request. case_bool_decide; [by right|by left].
  - destruct Hpre as [Ho Hg]. destruct (Inv_emit g e) as [HI' HL]; [done|by eapply good_mono, Hg; apply Le_emit|by destruct e|].
    split_and!; [done|done|]. simpl. apply elem_of_app. right. by apply list_elem_of_singleton.
  - apply Hsame. apply (inv_shared _ HI).
  - destruct (t_shared (g_tr g)) as [t|] eqn:Ht; [by apply Hsame, (inv_shared _ HI)|].
    destruct (tr_ok_guard (g_tr g) None (Inv_tr_ok _ HI) (Some (fresh (dom (t_guard (g_tr g))))) (t_learned (g_tr g))) with (pools := t_pool (g_tr g)) as [Ha Hb].
    + intros u [= <-]. by rewrite lookup_insert, decide_True.
    + intros k f u Hu. destruct (inv_cache _ HI _ _ _ Hu) as (s&Hs&Hf&Hg). exists s. split_and!; [done..|].
      rewrite lookup_insert_ne; [done|]. intros <-. apply (is_fresh (dom (t_guard (g_tr g)))). by apply elem_of_dom_2 in Hg.
    + eauto.
    + destruct (Inv_set_tr g _ HI Ha Hb) as [HI' HL']. split_and!; [exact HI'|exact HL'|]. simpl. by rewrite lookup_insert, decide_True.
  - pose proof (learned_transport_ok (g_tr g) task host set (Inv_tr_ok _ HI) Hpre) as Hl.
    destruct (learned_transport task host set (g_tr g)) as [tr t]. destruct Hl as (Ha&Hb&Hc).
    destruct (Inv_set_tr g tr HI Ha Hb) as [HI' HL']. by split_and!.
  - destruct Hpre as (Hp&Hs&Hset&Hg&Hm). pose proof (round_trip_ok g j r set t o w HI Hp Hs Hset Hg Hm) as Hr.
    destruct (round_trip j r set t o w g). by apply Hand.
Qed.

Lemma Inv_init (l : L) : learned l → Inv (NewGateway l).
Proof.
  intros Hl. constructor; simpl; try done.
  - intros task n [? Hn]. by rewrite lookup_empty in Hn.
  - intros task n [? Hn]. by rewrite lookup_empty in Hn.
  - intros e He. by apply elem_of_nil in He.
  - intros task n pol c Hin. by apply elem_of_nil in Hin.
Qed.

Lemma env_ok g g' : env learned g g' → Inv g → Inv g' ∧ Le g g'.
Proof. intros He HI. pose proof (inv_learn _ HI). destruct He; by apply (Inv_frame g). Qed.

(** ** Proving handlers *)

Lemma gw_vis {A X} (K : Gateway L → Prop) (o : op X) (k : X → handler A) Q :
  stable K → (∀ g, Inv g → K g → pre o g) → (∀ x, spec exec Inv Le (λ g, K g ∧ post o x g) (k x) Q) → spec exec Inv Le K (Vis o k) Q.
Proof. apply (spec_vis exec Inv Le (@pre) (@post)). intros Y o' w g. apply exec_ok. Qed.

Lemma gw_bind {A B} (K : Gateway L → Prop) (p : handler A) (f : A → handler B) P Q :
  stable K → spec exec Inv Le K p P → (∀ a, spec exec Inv Le (λ g, K g ∧ P a g) (f a) Q) → (∀ a, stable (P a)) →
  spec exec Inv Le K (pbind p f) Q.
Proof. apply spec_bind. apply _. Qed.

Lemma stable_judged task pol gen : stable (λ g, judged_at g task pol gen).
Proof. intros g g'. apply judged_at_mono. Qed.
Lemma stable_past task pol : stable (λ g, in_past g task pol).
Proof. intros g g'. apply in_past_mono. Qed.
Lemma stable_tracked task pol c : stable (λ g, tracked g task pol c).
Proof. intros g g'. apply tracked_mono. Qed.
Lemma stable_intercepted task pol : stable (λ g, intercepted g task pol).
Proof. intros g g'. apply intercepted_mono. Qed.
Lemma judged_past g task pol gen : judged_at g task pol gen → in_past g task pol.
Proof. intros (n&Hn&_). by exists n. Qed.
End invariant.

(** * The handlers keep the gateway's invariant

    Each handler of EgressServe, proved with [spec] against the operations'
    contracts of EgressSpec, for every answer of the environment and every
    interleaving. *)

Section proofs.
Context `{Unicode} {L : Type} `{LearnedIPChecker L} (learned : L → Prop).
Context (learned_wf : ∀ l, learned l → ∀ task host, Forall ip_wf (LearnedIPs l task host)).
Notation spec := (spec exec (Inv learned) Le).
Notation stable := (stable Le).
Notation post := (post learned).

Lemma stable_guard t x : stable (λ g : Gateway L, t_guard (g_tr g) !! t = Some x).
Proof. intros g g' HL Hg. eapply lookup_weaken; [exact Hg|apply HL]. Qed.

Ltac stab := repeat first [assumption | apply stable_pure | apply stable_judged | apply stable_guard | apply stable_past | apply post_stable | apply stable_and].

(** One operation without a precondition. *)
Ltac op1 x := apply gw_vis; [stab|done|intros x].
(** Operations without preconditions, tests and returns, as far as they go. *)
Ltac ops := repeat match goal with
  | |- Threads.spec _ _ _ _ (Ret _) _ => apply spec_ret; done
  | |- Threads.spec _ _ _ _ (Vis _ _) _ => apply gw_vis; [stab|done|intros ?]
  | |- Threads.spec _ _ _ _ (if ?b then _ else _) _ => destruct b eqn:?
  | |- Threads.spec _ _ _ _ (match ?x with _ => _ end) _ => destruct x eqn:?
  end.

Lemma spec_learnedDialSet K task host : stable K → spec K (learnedDialSet task host) (λ set _, learned_for learned task host set).
Proof.
  intros HK. unfold learnedDialSet. op1 p. destruct (_ || _); [by apply spec_ret|]. op1 ips.
  case_bool_decide; apply spec_ret; [done|]. intros g [_ (l&Hl&->)]. by exists l.
Qed.

Lemma spec_transport K task host : stable K →
  spec K (transportForTask task host) (λ ts g, learned_for learned task host ts.2 ∧ t_guard (g_tr g) !! ts.1 = Some ts.2).
Proof.
  intros HK. unfold transportForTask, dialCheckedTransport.
  apply (gw_bind _ _ _ _ (λ t g, t_guard (g_tr g) !! t = Some None)); [done| | |].
  - op1 t. destruct t as [t|]; [apply spec_ret; intros g [_ Hp]; by apply Hp|]. op1 t. apply spec_ret. by intros g [_ Hp].
  - intros base. apply (gw_bind _ _ _ _ (λ set _, learned_for learned task host set)); [| | |intros a; cbv beta; apply stable_pure].
    + stab.
    + apply spec_learnedDialSet. stab.
    + intros [s|]; [|apply spec_ret; intros g [[_ Hg] _]; done].
      apply gw_vis; [stab| |].
      * intros g _ [_ (l&Hl&->)]. apply texts_of_ips. by apply learned_wf.
      * intros t. apply spec_ret. intros g [[_ Hl] Ht]. done.
  - intros t. apply stable_guard.
Qed.

Lemma stable_transport task host ts : stable (λ g : Gateway L, learned_for learned task host ts.2 ∧ t_guard (g_tr g) !! ts.1 = Some ts.2).
Proof. stab. Qed.

(** *** Policies *)

Lemma spec_closeAll {A} K (conns : list conn) (k : handler A) Q :
  stable K → spec (λ g, K g ∧ Forall (λ c, c ∈ g_closed g) conns) k Q → spec K (closeAll conns k) Q.
Proof.
  revert K. induction conns as [|c conns IH]; intros K HK Hk; simpl.
  - eapply spec_weaken; [|exact Hk]. by intros g.
  - op1 u. apply IH; [stab|]. eapply spec_weaken; [|exact Hk]. intros g [[HKg Hc] Hf]. split; [done|]. by constructor.
Qed.

Lemma spec_SetPolicy K task p : stable K → spec K (SetPolicy task p) (λ _ _, True).
Proof.
  intros HK. unfold SetPolicy. op1 nc. apply spec_closeAll; [stab|]. apply gw_vis; [| |intros u; by apply spec_ret].
  - apply stable_and; [stab|]. intros g g' HL Hf. eapply Forall_impl; [|exact Hf]. intros c. apply HL.
  - intros g _ [[_ Hs] Hf]. by exists nc.2.
Qed.

Lemma spec_ListenForTaskOn K task : stable K → spec K (ListenForTaskOn task) (λ _ _, True).
Proof. intros HK. unfold ListenForTaskOn. op1 pg. destruct pg.1; [by apply spec_ret|]. apply spec_SetPolicy. stab. Qed.

Lemma spec_pipe K c target up task : stable K → spec K (pipe c target up task) (λ _ _, True).
Proof. intros HK. unfold pipe. op1 n. destruct up; ops. Qed.

(** *** Requests *)

Definition req_wf (r : Request) : Prop := u_Host (r_URL r) = "" ∨ r_Host r = u_Host (r_URL r) ∨ r_Host r = "".

Lemma server_request_wf r : req_wf (server_request r).
Proof. unfold req_wf, server_request. case_bool_decide; [by left|by right; left]. Qed.
Lemma with_task_wf task r : req_wf r → req_wf (with_task task r).
Proof. done. Qed.
Lemma upgraded_wf task dst r : r_Host r = u_Host (r_URL r) ∨ u_Host (r_URL r) = "" → req_wf (upgraded task dst r).
Proof.
  unfold req_wf, upgraded. intros Hr. case_bool_decide as Hu; simpl in *; [|naive_solver].
  case_bool_decide; simpl; [by right; right|by right; left].
Qed.

Lemma decide_allow v pol : decideDomain v pol ≠ DecisionBlock → decideDomain v pol = DecisionAllow.
Proof. unfold decideDomain. repeat case_match; done. Qed.

Lemma dropped_lookup names hdr k vals :
  foldl Header_Del hdr names !! k = Some vals → hdr !! k = Some vals ∧ k ∉ CanonicalHeaderKey <$> names.
Proof.
  revert hdr. induction names as [|n names IH]; intros hdr; simpl.
  - intros ->. split; [done|apply not_elem_of_nil].
  - intros [Hd Hk]%IH. unfold Header_Del in Hd. apply lookup_delete_Some in Hd as [Hne Hd]. split; [done|].
    apply not_elem_of_cons. split; [by intros ->|done].
Qed.

Lemma strip_lookup hdr k vals :
  stripInternalHeaders hdr !! k = Some vals → hdr !! k = Some vals ∧ k ∉ "X-Task-Id" :: hopByHopHeaders.
Proof.
  intros Hs. change (stripInternalHeaders hdr) with (foldl Header_Del hdr ("X-Task-Id" :: hopByHopHeaders)) in Hs.
  by apply dropped_lookup in Hs.
Qed.

Lemma inject_lookup hdr v pol k vals : ApplyInject hdr v pol !! k = Some vals →
  (∃ name val, injection v pol = Some (name, val) ∧ k = CanonicalHeaderKey name ∧ vals = [val]) ∨ hdr !! k = Some vals.
Proof.
  unfold ApplyInject. destruct (injection v pol) as [[name val]|]; [|by right]. unfold Header_Set.
  rewrite lookup_insert. case_decide; [|by right]. intros [= <-]. left. by exists name, val.
Qed.

Lemma limitedBody_prefix pol body : ∃ rest, limitedBody pol body ++ rest = body.
Proof. unfold limitedBody. case_match; [eexists; apply take_drop|by exists []; rewrite app_nil_r]. Qed.

Lemma limitedBody_cap pol body : 0 < MaxRequestBody pol < 2^63 - 1 →
  Z.of_nat (length (limitedBody pol body)) ≤ MaxRequestBody pol + 1.
Proof.
  intros Hm. unfold limitedBody. destruct (Z.ltb_spec 0 (MaxRequestBody pol)); [|lia].
  rewrite int64_small by lia. rewrite length_take. lia.
Qed.

Lemma viewFromHTTP_path r : v_path (viewFromHTTP r) = normalizePath (u_Path (r_URL r)).
Proof. unfold viewFromHTTP. by destruct (splitHostPort (r_Host r)). Qed.

Lemma http_sendable r task pol :
  req_wf r → decideDomain (viewFromHTTP r) pol ≠ DecisionBlock → methodAllowed (r_Method r) (AllowedMethods pol) = true →
  sendable (mkJudged task (viewFromHTTP r) pol false) r
    (mkOut (r_Method r) (reparsed (mkURL (u_Scheme (r_URL r)) (u_Host (r_URL r)) (normalizePath (u_Path (r_URL r))) (u_RawQuery (r_URL r))))
           (ApplyInject (stripInternalHeaders (r_Header r)) (viewFromHTTP r) pol) (limitedBody pol (r_Body r))).
Proof.
  intros Hr Hd Hm. constructor; simpl; [done|by apply decide_allow|done|done| | |apply limitedBody_prefix|apply limitedBody_cap].
  - intros _. rewrite viewFromHTTP_path. unfold rooted. intros ->. by rewrite andb_false_r.
  - intros k vals [Hi|Hs]%inject_lookup; [by left|right]. by apply strip_lookup.
Qed.

Lemma mitm_sendable host r0 task pol :
  let r := rebound host r0 in
  decideDomain (viewFromHTTP r) pol ≠ DecisionBlock → methodAllowed (r_Method r) (AllowedMethods pol) = true →
  sendable (mkJudged task (viewFromHTTP r) pol true) r
    (mkOut (r_Method r) (reparsed (r_URL r)) (stripInternalHeaders (ApplyInject (r_Header r) (viewFromHTTP r) pol)) (limitedBody pol (r_Body r))).
Proof.
  intros r Hd Hm. constructor; simpl; [done|by apply decide_allow|done| |done| |apply limitedBody_prefix|apply limitedBody_cap].
  - split; [done|]. by right; left.
  - intros k vals [Hs Hk]%strip_lookup. apply inject_lookup in Hs as [Hi|Hs]; [by left|by right].
Qed.

Lemma spec_handleHTTP K r task pol :
  stable K → (∀ g, K g → in_past g task pol) → req_wf r → spec K (handleHTTP r task pol) (λ _ _, True).
Proof.
  intros HK Hp Hr. unfold handleHTTP. case_bool_decide as Hd; [ops|]. destruct (methodAllowed _ _) eqn:Hm; cbn [negb]; [|ops].
  destruct (_ && _); [ops|]. op1 ok. destruct ok; cbn [negb]; [|ops].
  eapply gw_bind; [stab|apply spec_transport; stab| |intros ts; apply stable_transport].
  intros [t set]. cbn [fst snd]. apply gw_vis; [stab| |intros res; ops].
  intros g _ [[HKg _] [Hl Hg]]. split_and!; [by apply Hp|by apply http_sendable| |done|done].
  exists (v_host (viewFromHTTP r)). by split.
Qed.

(** *** Interception *)

Lemma spec_mitm_request K task host pol r :
  stable K → (∀ g, K g → in_past g task pol) → (∀ g, K g → intercepted g task pol) →
  spec K (mitm_request task host pol r) (λ _ _, True).
Proof.
  intros HK Hp Hm0. unfold mitm_request. case_bool_decide as Hd; [ops|]. case_match eqn:Hrev; [ops|]. clear Hrev.
  destruct (methodAllowed _ _) eqn:Hm; cbn [negb]; [|ops]. destruct (_ && _); [ops|].
  op1 u1. op1 u2. op1 ok. destruct ok; cbn [negb]; [|ops].
  eapply gw_bind; [stab|apply spec_transport; stab| |intros ts; apply stable_transport].
  intros [t set]. cbn [fst snd]. apply gw_vis; [stab| |intros res; ops].
  intros g _ [HKg [Hl Hg]]. split_and!; [apply Hp; by destruct_and! HKg|by apply mitm_sendable| |done|intros _; apply Hm0; by destruct_and! HKg].
  by exists (stripPortMITM host).
Qed.

Lemma spec_mitm_loop fuel K c task host pol :
  stable K → (∀ g, K g → in_past g task pol) → (∀ g, K g → intercepted g task pol) →
  spec K (mitm_loop fuel c task host pol) (λ _ _, True).
Proof.
  revert K. induction fuel as [|fuel IH]; intros K HK Hp Hm; cbn [mitm_loop]; [by apply spec_ret|]. op1 req.
  destruct req as [r|]; [|by apply spec_ret].
  eapply gw_bind; [stab|apply spec_mitm_request; [stab|intros g [HKg _]; by apply Hp|intros g [HKg _]; by apply Hm]| |intros a; cbv beta; apply stable_pure].
  intros [|]; [|by apply spec_ret]. apply IH; [stab|..]; intros g [[HKg _] _]; [by apply Hp|by apply Hm].
Qed.

(** Interception leaves the connection closed. *)
Lemma spec_serveMITM fuel K c task host pol :
  stable K → (∀ g, K g → in_past g task pol) → (∀ g, K g → tracked g task pol c) →
  spec K (serveMITM fuel c task host pol) (λ _ g, c ∈ g_closed g).
Proof.
  intros HK Hp Ht. unfold serveMITM. op1 ca. destruct ca; cbn [negb]; [|op1 u; apply spec_ret; by intros g [_ Hc]].
  apply gw_vis; [stab|intros g _ HKg; split; [done|]; apply Ht; by destruct_and! HKg|intros u].
  op1 ok. destruct ok; cbn [negb]; [|op1 u'; op1 u''; apply spec_ret; by intros g [_ Hc]].
  eapply gw_bind; [stab|apply spec_mitm_loop; [stab|..]| |intros a; cbv beta; apply stable_pure].
  - intros g HKg. apply Hp. by destruct_and! HKg.
  - intros g HKg. exists c. cbn in HKg. by destruct_and! HKg.
  - intros a. cbv beta. op1 u'. apply spec_ret. by intros g [_ Hc].
Qed.

Lemma stable_closed c : stable (λ g : Gateway L, c ∈ g_closed g).
Proof. intros g g' HL. apply HL. Qed.

Lemma closed_dead (g : Gateway L) c : c ∈ g_closed g → dead_conn g c = true.
Proof. intros Hc. unfold dead_conn. by rewrite bool_decide_eq_true_2. Qed.

Lemma connect_port r pol : Rules pol = [] → flat_port r ∈ ["80"; "443"] → v_port (viewFromConnect r) ∈ ["80"; "443"].
Proof.
  unfold flat_port, viewFromConnect, splitHostPort. intros _. destruct (SplitHostPort (r_Host r)) as [[h p]|]; simpl.
  - intros Hp. case_bool_decide; [|done]. subst. set_solver.
  - intros _. destruct (HasPrefix (r_Host r) "[" && HasSuffix (r_Host r) "]"); simpl; set_solver.
Qed.

Ltac kn := match goal with HK : _ ∧ _ |- _ => destruct_and! HK end.

Lemma spec_connect_relay K j set c target peer :
  stable K → (∀ g, Inv learned g → K g → good learned g (EvRelay KConnect j set c peer [] 0)) →
  spec K (connect_relay j set c target peer) (λ _ _, True).
Proof.
  intros HK Hgood. unfold connect_relay. op1 ok.
  assert (∀ K', stable K' → spec K' (CloseConn target ⨟ CloseConn c ⨟ UntrackTunnel (j_task j) c ⨟ Ret Taken) (λ _ _, True)) as Hfail.
  { intros K' HK'. op1 u. op1 u'. apply gw_vis; [stab| |intros u''; by apply spec_ret].
    intros g _ [_ Hc]. left. by apply closed_dead. }
  destruct ok; cbn [negb]; [|apply Hfail; stab]. op1 copied. destruct copied; cbn [negb]; [|apply Hfail; stab].
  op1 u. apply gw_vis; [stab| |intros u'].
  - intros g HI HKg. split; [done|]. apply Hgood; [done|]. by kn.
  - do 2 (apply spec_go; [apply spec_pipe; stab|]). apply gw_vis; [stab| |intros u''; by apply spec_ret].
    intros g _ [_ Hin]. right. by exists j, set, peer, [], 0%nat.
Qed.

Lemma spec_connect_intercept K fuel r task pol gen c :
  stable K → (∀ g, K g → judged_at g task pol gen) → spec K (connect_intercept fuel r task pol gen c) (λ _ _, True).
Proof.
  intros HK Hj. unfold connect_intercept. op1 hj. destruct hj; [ops|ops|].
  apply gw_vis; [stab| |intros fr].
  - intros g _ [HKg _]. by apply Hj.
  - destruct fr; cbn [negb]; [|ops]. eapply gw_bind; [stab|apply spec_serveMITM; [stab|..]| |intros a; cbv beta; apply stable_closed].
    + intros g [[HKg _] _]. by eapply judged_past, Hj.
    + intros g [_ Hx]. by apply Hx.
    + intros a. cbv beta. apply gw_vis; [apply stable_and; [stab|apply stable_closed]| |intros u; by apply spec_ret].
      intros g _ [_ Hc]. left. by apply closed_dead.
Qed.

Lemma spec_handleConnect K fuel r task pol gen c :
  stable K → (∀ g, K g → judged_at g task pol gen) → spec K (handleConnect fuel r task pol gen c) (λ _ _, True).
Proof.
  intros HK Hj. unfold handleConnect. case_bool_decide as Hd; [ops|].
  destruct (bool_decide (Rules pol = []) && _) eqn:Hflat; [ops|].
  destruct (bool_decide (is_Some _)); [by apply spec_connect_intercept|]. op1 tg. destruct tg as [[target peer]|]; [|ops].
  op1 fl. destruct (fl && isPrivate peer) eqn:Hfl; [ops|].
  eapply gw_bind; [stab|apply spec_learnedDialSet; stab| |intros s; cbv beta; apply stable_pure]. intros set.
  destruct (match set with Some s => negb (learnedSetContainsIP s peer) | None => false end) eqn:Hset; [ops|].
  op1 hj. destruct hj; [ops|ops|]. apply gw_vis; [stab| |intros fr].
  - intros g _ HKg. apply Hj. by kn.
  - destruct fr; cbn [negb]; [|ops]. apply spec_connect_relay; [stab|]. intros g _ HKg. cbn in HKg. destruct_and! HKg. subst fl. simpl in *.
    split_and!; [by eapply judged_past, Hj|by apply decide_allow| |done| |].
    + split; [done|]. destruct set as [s|]; [|done]. by destruct (learnedSetContainsIP s peer).
    + intros _ Hr. apply (connect_port r pol); [done|]. rewrite bool_decide_eq_true_2 in Hflat by done. simpl in Hflat.
      by apply negb_false_iff, bool_decide_eq_true in Hflat.
    + auto.
Qed.

Lemma spec_handle K fuel r c : stable K → req_wf r → spec K (handle fuel r c) (λ _ _, True).
Proof.
  intros HK Hr. unfold handle. op1 pg. destruct pg as [[pol|] gen]; cbn [fst snd]; [|ops].
  case_bool_decide.
  - apply spec_handleConnect; [stab|]. intros g [_ Hp]. by apply Hp.
  - apply spec_handleHTTP; [stab| |done]. intros g [_ Hp]. by eapply judged_past, Hp.
Qed.

(** *** Transparent connections *)

Lemma spec_http_conn fuel mfuel K task dst c : stable K → spec K (http_conn fuel mfuel task dst c) (λ _ _, True).
Proof.
  revert K. induction fuel as [|fuel IH]; intros K HK; cbn [http_conn]; [ops|]. op1 req. destruct req as [r|]; [|ops].
  eapply spec_weaken with (K' := λ g, K g ∧ (r_Host r = u_Host (r_URL r) ∨ u_Host (r_URL r) = "")).
  { intros g [HKg Hp]. split; [done|]. by apply Hp. }
  intros g [HKg Hr]. revert g HKg. change (spec K (bind s := handle mfuel (upgraded task dst r) c in
    match s with Status _ => http_conn fuel mfuel task dst c | Taken => Ret tt end) (λ _ _, True)).
  eapply gw_bind; [stab|apply spec_handle; [stab|by apply upgraded_wf]| |intros a; cbv beta; apply stable_pure].
  intros [code|]; [apply IH; stab|by apply spec_ret].
Qed.

Lemma both_ended_dead (g : Gateway L) c : (c, true) ∈ g_ended g → (c, false) ∈ g_ended g → dead_conn g c = true.
Proof. intros H1 H2. unfold dead_conn. rewrite !(bool_decide_eq_true_2 (_ ∈ g_ended g)) by done. by rewrite orb_true_r. Qed.

Lemma spec_splice K j set gen c target peer hello from :
  stable K → (∀ g, K g → judged_at g (j_task j) (j_pol j) gen) →
  (∀ g, K g → tracked g (j_task j) (j_pol j) c → good learned g (EvRelay KSplice j set c peer hello from)) →
  spec K (splice j set gen c target peer hello from) (λ _ _, True).
Proof.
  intros HK Hj Hgood. unfold splice. op1 ok. destruct ok; cbn [negb]; [|ops].
  apply gw_vis; [stab| |intros fr]. { intros g _ [HKg _]. by apply Hj. }
  destruct fr; cbn [negb]; [|ops]. apply gw_vis; [stab| |intros u].
  { intros g _ [[HKg _] Ht]. split; [done|]. apply Hgood; [done|by apply Ht]. }
  op1 n. op1 m. apply gw_vis; [stab| |intros u'; ops].
  intros g _ HKg. cbn in HKg. destruct_and! HKg. left. by apply both_ended_dead.
Qed.

Lemma spec_splice_checks K task sni peer : stable K →
  spec K (splice_checks task sni peer) (λ r _, match r with
    | inr set => allowed_peer set peer ∧ learned_for learned task sni set | inl _ => True end).
Proof.
  intros HK. unfold splice_checks. op1 fl. destruct (fl && isPrivate peer) eqn:Hfl; [by apply spec_ret|].
  apply (gw_bind _ _ _ _ (λ _ _, True)); [stab| | |intros a; cbv beta; apply stable_pure].
  { unfold sniGuardActive. op1 p. destruct (_ || _); [by apply spec_ret|]. op1 b. by apply spec_ret. }
  intros active. eapply gw_bind; [stab|apply spec_learnedDialSet; stab| |intros a; cbv beta; apply stable_pure].
  intros [s|]; apply spec_ret; intros g HKg; cbn in HKg; destruct_and! HKg; subst fl; simpl in *.
  - destruct (learnedSetContainsIP s peer) eqn:Hs; [|done]. done.
  - by destruct active.
Qed.

Lemma spec_serveTransparentTLS K fuel c input task dst pol gen :
  stable K → (∀ g, K g → judged_at g task pol gen) → spec K (serveTransparentTLS fuel c input task dst pol gen) (λ _ _, True).
Proof.
  intros HK Hj. unfold serveTransparentTLS. destruct (sniffClientHello input) as [[sni hello]|e]; [|ops].
  case_bool_decide as Hd; [ops|]. case_bool_decide.
  - apply gw_vis; [stab| |intros fr]; [by intros g _ HKg; apply Hj|]. destruct fr; cbn [negb]; [|ops].
    eapply gw_bind; [stab|apply spec_serveMITM; [stab|..]| |intros a; cbv beta; apply stable_closed].
    + intros g [HKg _]. by eapply judged_past, Hj.
    + intros g [_ Hx]. by apply Hx.
    + intros a. cbv beta. apply gw_vis; [apply stable_and; [stab|apply stable_closed]| |intros u; by apply spec_ret].
      intros g _ [_ Hc]. left. by apply closed_dead.
  - op1 extra. op1 tg. destruct tg as [[target peer]|]; [|ops].
    eapply gw_bind; [stab|apply spec_splice_checks; stab| |intros a; destruct a; cbv beta iota; apply stable_pure].
    intros [reason|set]; [ops|]. apply spec_splice; [stab| |].
    + intros g HKg. apply Hj. by kn.
    + intros g HKg Htr. cbn in HKg. destruct_and! HKg. split_and!; [by eapply judged_past, Hj|by apply decide_allow|done|done|done|done].
Qed.

Lemma spec_serveTransparent K fuel mfuel input task c : stable K → spec K (serveTransparent fuel mfuel input task c) (λ _ _, True).
Proof.
  intros HK. unfold serveTransparent. op1 dst. destruct dst as [dst|]; [|ops]. op1 pg.
  destruct pg as [[pol|] gen]; cbn [fst snd]; [|ops]. destruct input as [|b rest]; [ops|].
  apply (gw_bind _ _ _ _ (λ _ _, True)); [stab| |intros u; ops|intros a; cbv beta; apply stable_pure].
  destruct (b =? 0x16).
  - apply spec_serveTransparentTLS; [stab|]. intros g [_ Hp]. by apply Hp.
  - op1 more. unfold serveTransparentHTTP. apply gw_vis; [stab| |intros u].
    + intros g _ _. split; [done|]. simpl. lia.
    + apply spec_go; [apply spec_http_conn; stab|by apply spec_ret].
Qed.

(** *** All of them *)

Lemma entry_ok p g : entry p → wp exec (Inv learned) Le p (λ _ _, True) g.
Proof.
  intros He. assert (∀ p : handler unit, spec (λ _, True) p (λ _ _, True) → wp exec (Inv learned) Le p (λ _ _, True) g) as Hs by eauto.
  assert (∀ (f : conn → handler unit), (∀ c K, stable K → spec K (f c) (λ _ _, True)) → spec (λ _, True) (c <-! AcceptConn; f c) (λ _ _, True)) as Ha.
  { intros f Hf. op1 c. apply Hf. stab. }
  apply Hs. destruct He.
  - apply Ha. intros c K HK. eapply gw_bind; [stab|apply spec_handle; [stab|apply with_task_wf, server_request_wf]|intros a; by apply spec_ret|intros a; cbv beta; apply stable_pure].
  - apply Ha. intros c K HK. eapply gw_bind; [stab|apply spec_handle; [stab|apply server_request_wf]|intros a; by apply spec_ret|intros a; cbv beta; apply stable_pure].
  - apply Ha. intros c K HK. by apply spec_serveTransparent.
  - apply spec_SetPolicy. stab.
  - apply spec_ListenForTaskOn. stab.
Qed.

Notation gateway_reachable := (reachable (S := Gateway L) exec entry (env learned)).

(** Everything the gateway does, in any interleaving. *)
Lemma gateway_invariant l sys : learned l → gateway_reachable (NewGateway l) sys → Inv learned sys.1.
Proof.
  intros Hl Hr. eapply (threads_sound exec entry (env learned) (Inv learned) Le) in Hr; [apply Hr|by apply Inv_init|..].
  - intros p s He _. by apply entry_ok.
  - intros s s'. apply env_ok.
Qed.
End proofs.

(** ** Addresses as numbers *)

Definition ip_number (q : list Z) : Z := foldl (λ n b, n * 256 + b) 0 q.

Lemma land_byte b m n : is_byte b →
  forallb (λ k, Bool.eqb (Z.land (Z.of_nat k) m =? n) ((n <=? Z.of_nat k) && (Z.of_nat k <=? n + 255 - m))) (seq 0 256) = true →
  (Z.land b m =? n) = ((n <=? b) && (b <=? n + 255 - m)).
Proof.
  intros Hb Hf. rewrite forallb_forall in Hf. specialize (Hf (Z.to_nat b)). unfold is_byte in Hb.
  rewrite Z2Nat.id in Hf by lia. apply Bool.eqb_prop, Hf. apply in_seq. lia.
Qed.
