(* ===== verification/EgressClaims.v ===== *)
(** * What the egress gateway promises

    Statements about every interleaving of the handlers and of policy updates:
    what is sent out was allowed, by a policy of the task, to a peer outside the
    forbidden ranges; connections do not outlive the policy they were judged by.
    The last part shows where the code departs from its comments. *)

From stdpp Require Import pretty.
From Stdlib Require Import ZifyBool.
From S2P Require Import Prelude Json Strconv NetIP GoText Threads Egress Sni EgressGate EgressServe EgressSpec.

(** ** Runs of the gateway *)

Definition gateway_run `{Unicode} {L} `{LearnedIPChecker L} (learned : L → Prop) (l : L) : system (S := Gateway L) (E := op) → Prop :=
  reachable exec entry (env learned) (NewGateway l).

(** ** Addresses that are never contacted *)

(** The ranges of bpf/egress.c, as first and last address. *)
Definition floor_ranges : list (Z * Z) :=
  let net a b c d len := let n := ((a * 256 + b) * 256 + c) * 256 + d in (n, n + 2^(32 - len) - 1) in
  [net 0 0 0 0 8; net 10 0 0 0 8; net 100 64 0 0 10; net 127 0 0 0 8; net 169 254 0 0 16; net 172 16 0 0 12;
   net 192 168 0 0 16; net 198 18 0 0 15; net 224 0 0 0 4; net 240 0 0 0 4].

Lemma if_orb (x y : bool) : (if x then true else y) = x || y.
Proof. by destruct x. Qed.

(** The ranges in terms of the bytes of an address. *)
Lemma floor_bytes a b c d : is_byte a → is_byte b → is_byte c → is_byte d →
  existsb (λ r, (r.1 <=? ip_number [a; b; c; d]) && (ip_number [a; b; c; d] <=? r.2)) floor_ranges =
  ((a =? 0) || (a =? 10) || ((a =? 100) && (64 <=? b) && (b <=? 127)) || (a =? 127) || ((a =? 169) && (b =? 254)) ||
   ((a =? 172) && (16 <=? b) && (b <=? 31)) || ((a =? 192) && (b =? 168)) || ((a =? 198) && (18 <=? b) && (b <=? 19)) || (224 <=? a)).
Proof.
  unfold is_byte. intros Ha Hb Hc Hd. change (ip_number [a; b; c; d]) with (((((0 * 256 + a) * 256 + b) * 256 + c) * 256 + d)).
  remember (((((0 * 256 + a) * 256 + b) * 256 + c) * 256 + d)) as n eqn:Hn.
  let r := eval vm_compute in floor_ranges in change floor_ranges with r. cbn [existsb fst snd].
  rewrite orb_false_r.
  replace ((0 <=? n) && (n <=? 16777215)) with (a =? 0) by lia.
  replace ((167772160 <=? n) && (n <=? 184549375)) with (a =? 10) by lia.
  replace ((1681915904 <=? n) && (n <=? 1686110207)) with ((a =? 100) && (64 <=? b) && (b <=? 127)) by lia.
  replace ((2130706432 <=? n) && (n <=? 2147483647)) with (a =? 127) by lia.
  replace ((2851995648 <=? n) && (n <=? 2852061183)) with ((a =? 169) && (b =? 254)) by lia.
  replace ((2886729728 <=? n) && (n <=? 2887778303)) with ((a =? 172) && (16 <=? b) && (b <=? 31)) by lia.
  replace ((3232235520 <=? n) && (n <=? 3232301055)) with ((a =? 192) && (b =? 168)) by lia.
  replace ((3323068416 <=? n) && (n <=? 3323199487)) with ((a =? 198) && (18 <=? b) && (b <=? 19)) by lia.
  replace ((3758096384 <=? n) && (n <=? 4026531839)) with ((224 <=? a) && (a <=? 239)) by lia.
  replace ((4026531840 <=? n) && (n <=? 4294967295)) with (240 <=? a) by lia.
  clear Hn n. lia.
Qed.

(** C34. An IPv4 address is refused by the floor exactly if it lies in one of the
    ranges of the packet filter: loopback, RFC 1918, link-local, carrier NAT,
    benchmarking, multicast, reserved and 0/8; written as an IPv6-mapped
    address it is refused alike. *)
Theorem floor_exact (q : list Z) (port : Z) :
  length q = 4%nat → Forall is_byte q →
  isPrivate (TCPAddr q port) = existsb (λ r, (r.1 <=? ip_number q) && (ip_number q <=? r.2)) floor_ranges ∧
  isPrivate (TCPAddr (mapped q) port) = isPrivate (TCPAddr q port).
Proof.
  intros Hl Hb. destruct q as [|a [|b [|c [|d [|]]]]]; try done. clear Hl.
  inversion Hb as [|? ? Ha Hb1]; subst. inversion Hb1 as [|? ? Hbb Hb2]; subst. inversion Hb2 as [|? ? Hc Hb3]; subst.
  inversion Hb3 as [|? ? Hd _]; subst. split.
  - unfold isPrivate, IsLoopback, IsPrivate, IsLinkLocalUnicast, IsLinkLocalMulticast, IsUnspecified, IsMulticast, ip4, nth_byte.
    rewrite bool_decide_eq_false_2 by done. cbn [length Nat.eqb nth].
    rewrite (land_byte b 0xf0 16), (land_byte a 0xf0 0xe0), (land_byte b 0xC0 64), (land_byte b 0xFE 18) by (done || by vm_compute).
    rewrite (bool_decide_eq_false_2 ([a; b; c; d] = _)) by done. rewrite orb_false_r.
    unfold is_byte in *. case_bool_decide as Hz; [by injection Hz as -> -> -> ->|].
    rewrite (floor_bytes a b c d) by done. repeat match goal with |- context [if ?x then true else _] => rewrite (if_orb x) end. lia.
  - unfold isPrivate, IsLoopback, IsPrivate, IsLinkLocalUnicast, IsLinkLocalMulticast, IsUnspecified, IsMulticast.
    change (ip4 (mapped [a; b; c; d])) with (Some [a; b; c; d]). change (ip4 [a; b; c; d]) with (Some [a; b; c; d]).
    rewrite !(bool_decide_eq_false_2 (_ = [])), !(bool_decide_eq_false_2 (_ = replicate 16 0)) by done. done.
Qed.

Lemma floor_exact_witness :
  isPrivate (TCPAddr [100; 100; 100; 200] 80) = existsb (λ r, (r.1 <=? ip_number [100; 100; 100; 200]) && (ip_number [100; 100; 100; 200] <=? r.2)) floor_ranges ∧
  isPrivate (TCPAddr (mapped [100; 100; 100; 200]) 80) = isPrivate (TCPAddr [100; 100; 100; 200] 80).
Proof. apply (floor_exact [100; 100; 100; 200] 80); [reflexivity|]. repeat constructor; discriminate. Defined.

(** ** Decisions *)

Section decisions.
Context `{Unicode}.

(** A name in a list of patterns matches the host: itself, or as a wildcard. *)
Definition listed (host : string) (patterns : list string) : Prop :=
  ∃ p, p ∈ patterns ∧ (ToLower p = host ∨ ∃ suf pre, ToLower p = "*." +:+ suf ∧ host = pre +:+ "." +:+ suf).

Lemma listed_spec host patterns : existsb (λ p, domainMatches host (ToLower p)) patterns = true ↔ listed host patterns.
Proof.
  rewrite existsb_exists. unfold listed. split.
  - intros (p&Hp&Hm). exists p. split; [by apply list_elem_of_In|by apply domainMatches_spec].
  - intros (p&Hp&Hm). exists p. split; [by apply list_elem_of_In|by apply domainMatches_spec].
Qed.

(** The rule that decides for a view: the first that matches fully. *)
Definition first_match (v : requestView) (pol : Policy) (r : EgressRule) : Prop :=
  ∃ pre post, Rules pol = pre ++ r :: post ∧ ruleMatches r v = true ∧ Forall (λ q, ruleMatches q v = false) pre.

Lemma owner_spec v pol r : owner v pol = Some r ↔ first_match v pol r.
Proof.
  unfold owner, first_match. induction (Rules pol) as [|q l IH]; simpl.
  - split; [done|]. intros ([|]&post&Hl&_); done.
  - destruct (ruleMatches q v) eqn:Hq.
    + split; [intros [= <-]; by exists [], l|]. intros ([|x pre]&post&[= -> ->]&Hr&Hf); [done|]. inversion Hf; congruence.
    + rewrite IH. split.
      * intros (pre&post&->&Hr&Hf). exists (q :: pre), post. split_and!; [done|done|by constructor].
      * intros ([|x pre]&post&[= -> ->]&Hr&Hf); [congruence|]. inversion Hf; subst. by exists pre, post.
Qed.

(** C29. A request may leave exactly if no blocked name matches its host and, when
    there are rules, the first that matches it fully does not deny - when there
    are none, an allowed name matches its host.  Nothing is ever referred for
    review. *)
Theorem decide_exact v pol :
  (decideDomain v pol = DecisionAllow ↔
    ¬ listed (v_host v) (BlockDomains pol) ∧
    ((Rules pol ≠ [] ∧ ∃ r, first_match v pol r ∧ er_Allow r ≠ Some false) ∨ (Rules pol = [] ∧ listed (v_host v) (AllowDomains pol)))) ∧
  decideDomain v pol ≠ DecisionReview.
Proof.
  split; [|unfold decideDomain; repeat case_match; done].
  unfold decideDomain. rewrite <- !listed_spec. destruct (existsb _ (BlockDomains pol)); [naive_solver|].
  case_bool_decide as Hr.
  - split.
    + intros Hd. split; [done|]. left. split; [done|]. destruct (owner v pol) as [r|] eqn:Ho; [|done].
      exists r. split; [by apply owner_spec|]. by case_bool_decide.
    + intros (_&[(_&r&Hf&Ha)|[? _]]); [|done]. apply owner_spec in Hf as ->. by rewrite bool_decide_eq_false_2.
  - destruct (existsb _ (AllowDomains pol)); naive_solver.
Qed.

(** C28. A credential is attached only by the first rule that matches the request
    fully, if that rule does not deny it, over HTTPS or where this rule allows
    plain HTTP, and only in the header it names; the value has at most 2048 bytes. *)
Theorem credential_owner hdr v pol k vals :
  ApplyInject hdr v pol !! k = Some vals → hdr !! k ≠ Some vals →
  ∃ r inj, first_match v pol r ∧ er_Allow r ≠ Some false ∧ er_Inject r = Some inj ∧
    (EqualFold (v_scheme v) "https" = true ∨ inj_AllowPlainHTTP inj = true) ∧
    k = CanonicalHeaderKey (inj_Header inj) ∧
    ∃ val, vals = [val] ∧ Z.of_nat (String.length val) ≤ maxInjectValueBytes ∧
      val = ReplaceAll (if bool_decide (inj_Format inj = "") then "${SECRET}" else inj_Format inj) "${SECRET}" (inj_Secret inj).
Proof.
  intros Hk Hne. apply inject_lookup in Hk as [(name&val&Hi&->&->)|]; [|done]. revert Hi. unfold injection. case_bool_decide; [done|].
  destruct (owner v pol) as [r|] eqn:Ho; [|done]. simpl. destruct (er_Inject r) as [inj|] eqn:Hj; [|done]. simpl.
  destruct (negb (EqualFold (v_scheme v) "https") && negb (inj_AllowPlainHTTP inj)) eqn:Hs; [done|].
  destruct (bool_decide (inj_Header inj = "") || bool_decide (inj_Secret inj = "")); [done|]. simpl.
  case_bool_decide as Ha; [done|]. destruct (Z.ltb_spec maxInjectValueBytes (Z.of_nat (String.length (ReplaceAll (if bool_decide (inj_Format inj = "") then "${SECRET}" else inj_Format inj) "${SECRET}" (inj_Secret inj))))); [done|].
  intros [= <- <-]. exists r, inj. split_and!; [by apply owner_spec|done|done| |done|by eexists].
  apply andb_false_iff in Hs as [Hs|Hs]; apply negb_false_iff in Hs; [by left|by right].
Qed.
End decisions.

Import AsciiOnly.

Definition api_inject : EgressInject := mkInject "authorization" "Bearer ${SECRET}" "s3cret" false.
Definition api_rule : EgressRule := mkRule "api" "api.example.com" "" ["GET"] "/v1/*" "https" 443 None (Some api_inject) (Some true).
Definition api_policy : Policy := mkPolicy [] ["bad.example.com"] 0 0 [] None [api_rule].
Definition api_view : requestView := mkView "GET" "api.example.com" "/v1/models" "https" "443".

Lemma credential_owner_witness :
  ApplyInject ∅ api_view api_policy !! "Authorization" = Some ["Bearer s3cret"] ∧
  ∃ r inj, first_match api_view api_policy r ∧ er_Allow r ≠ Some false ∧ er_Inject r = Some inj ∧
    (EqualFold (v_scheme api_view) "https" = true ∨ inj_AllowPlainHTTP inj = true) ∧
    "Authorization" = CanonicalHeaderKey (inj_Header inj) ∧
    ∃ val, ["Bearer s3cret"] = [val] ∧ Z.of_nat (String.length val) ≤ maxInjectValueBytes ∧
      val = ReplaceAll (if bool_decide (inj_Format inj = "") then "${SECRET}" else inj_Format inj) "${SECRET}" (inj_Secret inj).
Proof.
  assert (ApplyInject ∅ api_view api_policy !! "Authorization" = Some ["Bearer s3cret"]) as Hk by reflexivity.
  split; [exact Hk|]. apply (credential_owner ∅ api_view api_policy "Authorization" ["Bearer s3cret"]); [exact Hk|discriminate].
Defined.

(** ** What leaves, and for how long *)

Section promises.
Context `{Unicode} {L : Type} `{LearnedIPChecker L} (learned : L → Prop).
Context (learned_wf : ∀ l, learned l → ∀ task host, Forall ip_wf (LearnedIPs l task host)).

(** C8. In every interleaving of requests, tunnels, policy updates and learner
    changes, a request handed to an upstream was allowed - as the code reads its host
    and cleaned path - by a policy set for its task, with an allowed method, and went
    to a connection whose peer is outside the floor and, where the guard found the
    host learned, in its learned set; the authority judged is the one contacted,
    unless the request named none; for a request that is not intercepted and whose
    cleaned path is rooted, the path sent is the path judged (an intercepted one is
    sent with its raw path, see [intercepted_path_raw]); every header sent is a header
    of the request that is not internal or hop-by-hop, or the credential of the
    deciding rule; where the policy caps the body below 2^63 - 1, no more of it was
    read than the cap and one byte. *)
Theorem forwarded_permitted l sys j r set o peer n :
  learned l → gateway_run learned l sys → EvSent j r set o peer n ∈ h_trace (g_hist sys.1) →
  (∃ k, h_past (g_hist sys.1) !! (j_task j, k) = Some (j_pol j)) ∧
  j_view j = viewFromHTTP r ∧ decideDomain (j_view j) (j_pol j) = DecisionAllow ∧
  o_Method o = r_Method r ∧ methodAllowed (r_Method r) (AllowedMethods (j_pol j)) = true ∧
  isPrivate peer = false ∧
  (∀ s, set = Some s → learnedSetContainsIP s peer = true ∧ ∃ host l', learned l' ∧
     s = list_to_set (IPString <$> LearnedIPs l' (j_task j) host) ∧ (j_mitm j = false → host = v_host (j_view j))) ∧
  (r_Host r = u_Host (o_URL o) ∨ r_Host r = "") ∧
  (j_mitm j = false → rooted (v_path (j_view j)) → u_Path (o_URL o) = v_path (j_view j)) ∧
  header_origin (j_view j) (j_pol j) (r_Header r) (o_Header o) ∧
  (0 < MaxRequestBody (j_pol j) < 2^63 - 1 → Z.of_nat n ≤ MaxRequestBody (j_pol j) + 1).
Proof.
  intros Hl Hr Hin. pose proof (gateway_invariant learned learned_wf l sys Hl Hr) as HI.
  destruct (inv_trace _ _ HI _ Hin) as (Hp&[Hv Ha [Hm1 Hm2] [Hh1 Hh2] Hpath Hhdr _ Hcap]&[Hf Hs]&(host&Hlf&Hhost)&Hne&Hn&_).
  split_and!; try done.
  - intros s ->. split; [done|]. destruct Hlf as (l'&Hl'&->). by exists host, l'.
  - rewrite Hh1 in Hne |- *. destruct Hh2 as [|[|]]; [done|by left|by right].
  - intros Hmax. specialize (Hcap Hmax). lia.
Qed.

(** C11. A tunnel or splice relays bytes only to a peer outside the floor and, where
    the guard found the host learned for the task, in its learned set; the decision
    function allowed its host, as the guest wrote it, under a policy set for the task
    (a CONNECT host is lower-cased first, the name of a redirected TLS connection is
    not, see [blocked_name_in_capitals]), and under a plain list of names a CONNECT
    tunnel leads to port 80 or 443. *)
Theorem tunnels_permitted l sys k j set c peer first from :
  learned l → gateway_run learned l sys → EvRelay k j set c peer first from ∈ h_trace (g_hist sys.1) →
  (∃ n, h_past (g_hist sys.1) !! (j_task j, n) = Some (j_pol j)) ∧
  decideDomain (j_view j) (j_pol j) = DecisionAllow ∧
  isPrivate peer = false ∧
  (∀ s, set = Some s → learnedSetContainsIP s peer = true ∧ ∃ l', learned l' ∧
     s = list_to_set (IPString <$> LearnedIPs l' (j_task j) (v_host (j_view j)))) ∧
  (k = KConnect → Rules (j_pol j) = [] → v_port (j_view j) ∈ ["80"; "443"]).
Proof.
  intros Hl Hr Hin. pose proof (gateway_invariant learned learned_wf l sys Hl Hr) as HI.
  destruct (inv_trace _ _ HI _ Hin) as (Hp&Ha&[Hf Hs]&Hlf&Hport&_). split_and!; try done. by intros s ->.
Qed.

(** Bytes of the task go over [c] under policy [pol]: it is spliced to an upstream, or
    it is intercepted. *)
Definition carries (tr : list event) (task : string) (pol : Policy) (c : conn) : Prop :=
  (∃ j set peer first from, EvRelay KSplice j set c peer first from ∈ tr ∧ j_task j = task ∧ j_pol j = pol) ∨
  EvPlain task pol c ∈ tr.

(** C10. Every connection that is spliced or intercepted was registered under the
    policy it was judged by, the n-th of its task; it carries nothing any more once
    the call that set the next policy has returned, and until then it is dead, that
    policy is in force, or the next one has it in its list to close.  An intercepted
    request that was sent out came over such a connection.  (Fewer than 2^64 policies
    are set for the task, and the connection does not also carry a CONNECT tunnel:
    those are not closed, see [connect_outlives_policy].) *)
Theorem no_stale_tunnel l sys task :
  learned l → gateway_run learned l sys → updates sys.1 task < 2^64 →
  (∀ pol c, carries (h_trace (g_hist sys.1)) task pol c →
    (∀ j set peer first from, EvRelay KConnect j set c peer first from ∉ h_trace (g_hist sys.1)) →
    ∃ n, EvTracked task n pol c ∈ h_trace (g_hist sys.1) ∧ h_past (g_hist sys.1) !! (task, n) = Some pol ∧
      (EvUpdated task (n + 1) ∈ h_trace (g_hist sys.1) → dead_conn sys.1 c = true) ∧
      (dead_conn sys.1 c = true ∨ updates sys.1 task = n ∨ ∃ swept, h_swept (g_hist sys.1) !! (task, n + 1) = Some swept ∧ c ∈ swept)) ∧
  (∀ j r set o peer k, EvSent j r set o peer k ∈ h_trace (g_hist sys.1) → j_mitm j = true → j_task j = task →
    ∃ c, carries (h_trace (g_hist sys.1)) task (j_pol j) c).
Proof.
  intros Hl Hr Hb. pose proof (gateway_invariant learned learned_wf l sys Hl Hr) as HI. split; cycle 1.
  { intros j r set o peer k Hin Hj <-. destruct (inv_trace _ _ HI _ Hin) as (_&_&_&_&_&_&Hm).
    destruct (Hm Hj) as [c Hc]. exists c. by right. }
  intros pol c Hca Hnc.
  assert (tracked sys.1 task pol c) as [n Hin].
  { destruct Hca as [(j&set&peer&first&from&Hin&<-&<-)|Hin]; [|exact (inv_trace _ _ HI _ Hin)].
    by destruct (inv_trace _ _ HI _ Hin) as (_&_&_&_&_&Ht). }
  exists n. split; [done|].
  split; [by apply (inv_trace _ _ HI _ Hin)|].
  assert (∀ d, EvReleased task c d ∈ h_trace (g_hist sys.1) → dead_conn sys.1 c = true) as Hrel.
  { intros d Hd. pose proof (inv_trace _ _ HI _ Hd) as Hg. simpl in Hg. destruct d; [done|].
    destruct Hg as (j&s&p&f&i&Hc). by destruct (Hnc j s p f i). }
  destruct (inv_tracked _ _ HI _ _ _ _ Hin) as [[Hc Hn]|[(sw&Hs&Hc)|[d Hd]]].
  - split; [|by right; left]. intros Hu. destruct (inv_trace _ _ HI _ Hu) as (sw&Hs&_).
    pose proof (inv_swept _ _ HI task (n + 1) (mk_is_Some _ _ Hs)). lia.
  - split; [|right; right; by exists sw]. intros Hu. destruct (inv_trace _ _ HI _ Hu) as (sw'&Hs'&Hf).
    rewrite Hs in Hs'. injection Hs' as <-. apply closed_dead.
    apply list_elem_of_lookup_1 in Hc as [i Hi]. exact (Forall_lookup_1 _ _ _ _ Hf Hi).
  - pose proof (Hrel d Hd). split; [done|by left].
Qed.
End promises.
