(* ===== verification/EgressDemo.v ===== *)
(** * The egress gateway at work

    A learner with a fixed table, runs of the gateway on concrete requests, the
    instances of the theorems of EgressClaims at them, and the places where the
    code departs from its comments. *)

From stdpp Require Import pretty.
From S2P Require Import Prelude Json Strconv NetIP GoText Threads Egress Sni EgressGate EgressServe EgressSpec EgressClaims.
Import AsciiOnly.

(** ** A learner with a fixed table *)

Notation table := (list (string * string * list Z)).

#[local] Instance table_checker : LearnedIPChecker table :=
  { LearnedIPs l task host := snd <$> filter (λ e, e.1 = (task, host)) l;
    TaskLearned l task := existsb (λ e, bool_decide (e.1.1 = task)) l }.

Definition table_wf (l : table) : Prop := Forall (λ e, ip_wf e.2) l.

Lemma table_learned l : table_wf l → ∀ task host, Forall ip_wf (LearnedIPs l task host).
Proof.
  intros Hl task host. simpl. apply Forall_fmap. apply Forall_lookup_2. intros i e He.
  apply list_elem_of_lookup_2 in He. apply list_elem_of_filter in He as [_ He]. apply list_elem_of_lookup_1 in He as [k Hk].
  exact (Forall_lookup_1 _ _ _ _ Hl Hk).
Qed.

Definition www_ip : list Z := [93; 184; 216; 34].
Definition demo_table : table := [("t", "www.example.com", www_ip)].

Lemma demo_table_wf : table_wf demo_table.
Proof. repeat constructor; discriminate. Qed.

(** ** Runs *)

Definition world (addr : Addr) (req : option Request) : World := mkWorld (Some addr) true Hijacked 5 req None (Some (mkResponse 200 [1; 2; 3])).
Definition www : Addr := TCPAddr www_ip 443.
Definition ws (w : World) : list World := repeat w 40.

Definition armed : Gateway table := SetLearnedChecker true (EnableMITM true (NewGateway demo_table)).

Lemma run_armed progs g' :
  Forall (λ pw, entry pw.1) progs → in_turn exec progs armed = Some g' → ∃ ts, gateway_run table_wf demo_table (g', ts).
Proof.
  intros Hp Hi. eapply (run_in_turn exec entry _ (mkWorld None false Unsupported 0 None None None)); [|done|done].
  eapply run_env; [eapply run_env; [apply rtc_refl|apply env_mitm]|apply env_checker].
Qed.

Definition list_policy : Policy := mkPolicy ["*.example.com"] ["bad.example.com"] 4 0 [] None [].

Definition request (method scheme host path : string) (body : list Z) : Request :=
  mkRequest method (mkURL scheme (if bool_decide (method = "CONNECT") then "" else host) path "") host
    (Header_Set (Header_Set ∅ "Accept" "*/*") "Proxy-Connection" "keep-alive") (-1) body.

Definition proxied (task : string) (r : Request) : handler unit :=
  c <-! AcceptConn; bind _ := handleForTask task 3 (server_request r) c in Ret tt.

Definition get_www : Request := request "POST" "http" "www.example.com" "//a/../b" [7; 7].
Definition connect_www : Request := request "CONNECT" "" "www.example.com:443" "" [].

Definition http_progs := [(SetPolicy "t" list_policy, ws (world www None)); (proxied "t" get_www, ws (world www None));
                          (proxied "t" connect_www, ws (world www None)); (SetPolicy "t" empty_policy, ws (world www None))].

Definition after_http : Gateway table := default armed (in_turn exec http_progs armed).
Definition get_www_event : option event := h_trace (g_hist after_http) !! 1%nat.

Lemma http_entries : Forall (λ pw, entry pw.1) http_progs.
Proof. repeat constructor. Qed.

Lemma http_reached : ∃ ts, gateway_run table_wf demo_table (after_http, ts).
Proof. apply (run_armed http_progs); [apply http_entries|]. vm_compute. reflexivity. Qed.

(** The request as it went out: cleaned path, no internal or hop-by-hop header. *)
Definition www_judged : judged := mkJudged "t" (viewFromHTTP (with_task "t" get_www)) list_policy false.
Definition www_out : outgoing :=
  mkOut "POST" (mkURL "http" "www.example.com" "/b" "") (Header_Set ∅ "Accept" "*/*") [7; 7].
Definition www_set : option (gset string) := Some {["93.184.216.34"]}.

Lemma www_sent : EvSent www_judged (with_task "t" get_www) www_set www_out www 2 ∈ h_trace (g_hist after_http).
Proof. apply (list_elem_of_lookup_2 _ 1%nat). vm_compute. reflexivity. Qed.

Lemma forwarded_permitted_witness :
  (∃ k, h_past (g_hist after_http) !! ("t", k) = Some list_policy) ∧ isPrivate www = false ∧
  (∀ s, www_set = Some s → learnedSetContainsIP s www = true) ∧ u_Path (o_URL www_out) = "/b".
Proof.
  destruct http_reached as [ts Hr].
  destruct (forwarded_permitted table_wf table_learned demo_table (after_http, ts) www_judged (with_task "t" get_www) www_set www_out www 2
    demo_table_wf Hr www_sent) as (Hp&_&_&_&_&Hf&Hs&_&Hpath&_&_).
  split; [exact Hp|]. split; [exact Hf|]. split; [intros s Hss; apply (Hs s Hss)|].
  exact (Hpath eq_refl eq_refl).
Defined.

Definition connect_judged : judged := mkJudged "t" (viewFromConnect (with_task "t" connect_www)) list_policy false.

Lemma www_tunnel : EvRelay KConnect connect_judged www_set 1 www [] 0 ∈ h_trace (g_hist after_http).
Proof. apply (list_elem_of_lookup_2 _ 3%nat). vm_compute. reflexivity. Qed.

Lemma tunnels_permitted_witness :
  decideDomain (j_view connect_judged) list_policy = DecisionAllow ∧ isPrivate www = false ∧ v_port (j_view connect_judged) ∈ ["80"; "443"].
Proof.
  destruct http_reached as [ts Hr].
  destruct (tunnels_permitted table_wf table_learned demo_table (after_http, ts) KConnect connect_judged www_set 1 www [] 0
    demo_table_wf Hr www_tunnel) as (_&Ha&Hf&_&Hp).
  split; [exact Ha|]. split; [exact Hf|]. exact (Hp eq_refl eq_refl).
Defined.

(** *** Interception *)

Definition deny_admin : EgressRule := mkRule "admin" "api.example.com" "" [] "/admin/*" "" 0 (Some false) None None.
Definition mitm_rule : EgressRule := mkRule "api" "api.example.com" "" [] "" "" 0 None (Some api_inject) (Some true).
Definition mitm_policy : Policy := mkPolicy [] [] 0 0 [] None [deny_admin; mitm_rule].

Definition connect_api : Request := request "CONNECT" "" "api.example.com:443" "" [].
Definition inner : Request := mkRequest "POST" (mkURL "" "" "/admin/../v1/x" "") "other" ∅ (-1) [1; 2; 3].
Definition api : Addr := TCPAddr [104; 18; 6; 192] 443.

Definition mitm_progs := [(SetPolicy "m" mitm_policy, ws (world api None)); (proxied "m" connect_api, ws (world api (Some inner)));
                          (SetPolicy "m" empty_policy, ws (world api None))].
Definition after_mitm : Gateway table := default armed (in_turn exec mitm_progs armed).

Lemma mitm_reached : ∃ ts, gateway_run table_wf demo_table (after_mitm, ts).
Proof. apply (run_armed mitm_progs); [repeat constructor|]. vm_compute. reflexivity. Qed.

Lemma no_stale_tunnel_witness :
  h_past (g_hist after_mitm) !! ("m", 1) = Some mitm_policy ∧ dead_conn after_mitm 0 = true.
Proof.
  destruct mitm_reached as [ts Hr].
  assert (EvPlain "m" mitm_policy 0 ∈ h_trace (g_hist after_mitm)) as Ht
    by (apply (list_elem_of_lookup_2 _ 2%nat); vm_compute; reflexivity).
  assert (EvUpdated "m" (1 + 1) ∈ h_trace (g_hist after_mitm)) as Hu
    by (apply (list_elem_of_lookup_2 _ 7%nat); vm_compute; reflexivity).
  assert (∀ j set peer first from, EvRelay KConnect j set 0 peer first from ∉ h_trace (g_hist after_mitm)) as Hn.
  { intros j set peer first from Hin. apply list_elem_of_lookup_1 in Hin as [i Hi].
    do 9 (destruct i as [|i]; [vm_compute in Hi; discriminate|]). vm_compute in Hi. discriminate. }
  assert (∀ n, EvTracked "m" n mitm_policy 0 ∈ h_trace (g_hist after_mitm) → n = 1) as H1.
  { intros n Hin. apply list_elem_of_lookup_1 in Hin as [i Hi].
    do 9 (destruct i as [|i]; [vm_compute in Hi; first [discriminate|by injection Hi as <-]|]). vm_compute in Hi. discriminate. }
  destruct (no_stale_tunnel table_wf table_learned demo_table (after_mitm, ts) "m" demo_table_wf Hr
    ltac:(vm_compute; reflexivity)) as [Hall _].
  destruct (Hall mitm_policy 0%nat (or_intror Ht) Hn) as (n&Hin&Hp&Hd&_). rewrite (H1 n Hin) in *.
  split; [exact Hp|exact (Hd Hu)].
Defined.

(** ** Departures *)

(** [SetPolicy] is said to invalidate live tunnels, but [handleConnect] drops the
    registration when it returns, while its two copies still run: a CONNECT
    tunnel registered under the first policy is open, and relaying, after the call
    that replaced the policy has returned. *)
Lemma connect_outlives_policy :
  (∃ ts, gateway_run table_wf demo_table (after_http, ts)) ∧
  EvTracked "t" 1 list_policy 1 ∈ h_trace (g_hist after_http) ∧ EvUpdated "t" 2 ∈ h_trace (g_hist after_http) ∧
  EvRelay KConnect connect_judged www_set 1 www [] 0 ∈ h_trace (g_hist after_http) ∧ dead_conn after_http 1 = false ∧
  decideDomain (j_view connect_judged) empty_policy = DecisionBlock.
Proof.
  split; [apply http_reached|]. split; [apply (list_elem_of_lookup_2 _ 2%nat); vm_compute; reflexivity|].
  split; [apply (list_elem_of_lookup_2 _ 5%nat); vm_compute; reflexivity|]. split; [apply www_tunnel|]. by vm_compute.
Qed.

(** A server name is not lower-cased before it is judged: in capitals a blocked name
    passes the block list of a policy that allows its domain by a wildcard. *)
Lemma blocked_name_in_capitals :
  decideDomain (mkView "" "bad.example.com" "" "https" "443") list_policy = DecisionBlock ∧
  decideDomain (mkView "" "BAD.example.com" "" "https" "443") list_policy = DecisionAllow.
Proof. by vm_compute. Qed.

(** Nor is the target of a CONNECT before the rule for interception is looked up: in
    capitals an intercepted host is allowed as a raw tunnel. *)
Lemma interception_skipped :
  is_Some (ruleMITM "api.example.com:443" mitm_policy) ∧ ruleMITM "API.example.com:443" mitm_policy = None ∧
  decideDomain (viewFromConnect (request "CONNECT" "" "API.example.com:443" "" [])) mitm_policy = DecisionAllow.
Proof. split; [by eexists|]. by vm_compute. Qed.

(** A rule that names no host never matches a request, but it intercepts all. *)
Lemma nameless_rule_intercepts :
  let r := mkRule "" "" "" [] "" "" 0 None (Some api_inject) (Some true) in
  (∀ v, ruleMatches r v = false) ∧ ruleMITM "www.example.com:443" (mkPolicy [] [] 0 0 [] None [r]) = Some r.
Proof. by split. Qed.

(** Inside an intercepted connection the path judged is the cleaned one and the path
    sent the raw one: a path below the denied /admin goes out. *)
Lemma intercepted_path_raw :
  ∃ j r set o peer n, EvSent j r set o peer n ∈ h_trace (g_hist after_mitm) ∧
    v_path (j_view j) = "/v1/x" ∧ u_Path (o_URL o) = "/admin/../v1/x" ∧ n = 3%nat.
Proof.
  assert (∃ e, h_trace (g_hist after_mitm) !! 3%nat = Some e) as [e He] by (vm_compute; by eexists).
  pose proof He as He'. vm_compute in He'. injection He' as <-.
  do 6 eexists. split; [exact (list_elem_of_lookup_2 _ _ _ He)|]. split; [reflexivity|split; reflexivity].
Qed.

(** Its bytes are billed by the announced length: those of a chunked body count as
    none. *)
Lemma intercepted_chunks_unbilled : BytesUsed after_mitm "m" = 0.
Proof. by vm_compute. Qed.

(** *** Transparent connections *)

Definition hello_to (name : string) : list Z :=
  tls_record (mkHello [3; 3] (repeat 0 32) [] [19; 1] [0] [(0, server_name (code <$> String.list_ascii_of_string name))]).

Lemma all_bytes l : forallb (λ z, (0 <=? z) && (z <? 256)) l = true → Forall is_byte l.
Proof. induction l as [|z l IH]; simpl; [constructor|]. intros Hz. bsimp. constructor; [unfold is_byte; lia|tauto]. Qed.

Definition transparent (task : string) (input : list Z) : handler unit := c <-! AcceptConn; serveTransparent 3 3 input task c.

Definition splice_progs := [(SetPolicy "t" list_policy, ws (world www None));
                            (transparent "t" (hello_to "www.example.com"), ws (world www None))].
Definition after_splice : Gateway table := default armed (in_turn exec splice_progs armed).

(** A transparent splice that relays five bytes each way bills none of them: the
    counting wrapper is only read from. *)
Lemma splice_unbilled :
  (∃ ts, gateway_run table_wf demo_table (after_splice, ts)) ∧
  (∃ j set hello from, EvRelay KSplice j set 0 www hello from ∈ h_trace (g_hist after_splice)) ∧
  (0%nat, true) ∈ g_ended after_splice ∧ BytesUsed after_splice "t" = 0 ∧ BytesRx after_splice "t" = 0.
Proof.
  split. { apply (run_armed splice_progs); [|vm_compute; reflexivity].
    constructor; [apply entry_setPolicy|]. constructor; [|constructor]. apply entry_transparent. by apply all_bytes. }
  split.
  - assert (∃ e, h_trace (g_hist after_splice) !! 2%nat = Some e) as [e He] by (vm_compute; by eexists).
    pose proof He as He'. vm_compute in He'. injection He' as <-. do 4 eexists. exact (list_elem_of_lookup_2 _ _ _ He).
  - split; [|by vm_compute]. apply (bool_decide_eq_true_1 ((0%nat, true) ∈ g_ended after_splice)). vm_compute. reflexivity.
Qed.

Definition plain_progs := [(SetPolicy "m" mitm_policy, ws (world api None));
                           (transparent "m" (hello_to "api.example.com"), ws (world api None))].
Definition after_plain : Gateway table := default armed (in_turn exec plain_progs armed).

(** A transparently redirected client that is intercepted gets the answer to a CONNECT
    it never sent, in the clear, where it waits for a ServerHello. *)
Lemma transparent_interception_answers_connect : EvPlain "m" mitm_policy 0 ∈ h_trace (g_hist after_plain).
Proof. apply (list_elem_of_lookup_2 _ 2%nat). vm_compute. reflexivity. Qed.

Definition http_bytes : list Z := code <$> String.list_ascii_of_string "GET / HTTP/1.1".
Definition redirect_progs := [(SetPolicy "t" list_policy, ws (world www None)); (transparent "t" http_bytes, ws (world www (Some get_www)))].
Definition after_redirect : Gateway table := default armed (in_turn exec redirect_progs armed).

(** The server of a redirected plain connection reads from behind the bytes that were
    buffered to tell HTTP from TLS, and the handler closes the connection under it: here
    before the server has read anything. *)
Lemma transparent_http_starved :
  EvServeHTTP 0 6 ∈ h_trace (g_hist after_redirect) ∧ (0%nat : conn) ∈ g_closed after_redirect.
Proof.
  split; [apply (list_elem_of_lookup_2 _ 1%nat); vm_compute; reflexivity|].
  apply (bool_decide_eq_true_1 ((0%nat : conn) ∈ g_closed after_redirect)). vm_compute. reflexivity.
Qed.

(** In general: the server never sees the first byte of a request. *)
Lemma transparent_http_loses_bytes l sys c from :
  table_wf l → gateway_run table_wf l sys → EvServeHTTP c from ∈ h_trace (g_hist sys.1) → (1 ≤ from)%nat.
Proof. intros Hl Hr Hin. exact (inv_trace _ _ (gateway_invariant table_wf table_learned l sys Hl Hr) _ Hin). Qed.

(** ** The server name of a client *)

(** C35. Whatever bytes a guest sends as its first record, looking for the server name
    ends without indexing out of range. *)
Theorem sni_never_panics (input : list Z) :
  Forall is_byte input →
  sniffClientHello input ≠ Err EPanic ∧ sniffClientHello input ≠ Err EFuel.
Proof.
  intros Hb. pose proof (sniff_harmless input Hb) as Hs. destruct (sniffClientHello input) as [|e]; [done|].
  destruct Hs. split; congruence.
Qed.

Lemma sni_never_panics_witness :
  sniffClientHello [22; 3; 1; 0; 50; 1; 255] ≠ Err EPanic ∧ sniffClientHello [22; 3; 1; 0; 50; 1; 255] ≠ Err EFuel.
Proof. apply (sni_never_panics [22; 3; 1; 0; 50; 1; 255]). repeat constructor; discriminate. Defined.

(** C36. For every ClientHello with a server_name extension that fits the reader's buffer,
    the name judged is the name the client encoded, and the record is handed on
    unchanged. *)
Theorem sni_roundtrip h pre name post rest :
  hello_wf h → h_exts h = pre ++ (0, server_name name) :: post → Forall (λ e, e.1 ≠ 0) pre →
  blen (tls_record h) ≤ bufio_size →
  sniffClientHello (tls_record h ++ rest) = Ok (text_of name, tls_record h).
Proof. apply sniff_record. Qed.

Definition demo_hello : hello :=
  mkHello [3; 3] (repeat 0 32) [] [19; 1] [0] [(10, [0; 2; 0; 29]); (0, server_name (code <$> String.list_ascii_of_string "pypi.org"))].

Lemma sni_roundtrip_witness : sniffClientHello (tls_record demo_hello ++ [1; 2]) = Ok ("pypi.org", tls_record demo_hello).
Proof.
  assert (text_of (code <$> String.list_ascii_of_string "pypi.org") = "pypi.org") as Ht by (vm_compute; reflexivity).
  rewrite <- Ht at 1. apply (sni_roundtrip demo_hello [(10, [0; 2; 0; 29])] (code <$> String.list_ascii_of_string "pypi.org") [] [1; 2]).
  - repeat (split; [reflexivity|]). repeat constructor; discriminate.
  - reflexivity.
  - repeat constructor; discriminate.
  - vm_compute. discriminate.
Defined.
