(* ===== verification/DnsLearn.v ===== *)
(** * DNS learning (internal/network/dnslearn)

    The table of addresses learned from the DNS answers a task sees, mirrored into
    the task's whitelist in the packet filter.  Critical sections are functions on
    the table; the writes to the whitelist follow outside the lock, so the
    operations are programs whose steps interleave.  The parser of DNS messages
    (golang.org/x/net) is the class [DnsParser]. *)

From stdpp Require Import pretty sorting.
From S2P Require Import Prelude Json Strconv NetIP GoText Threads Egress EgressGate.

Definition second : Z := 10^9.
Definition DefaultLearnTTL : Z := 300 * second.
Definition DefaultMaxEntries : Z := 256.
Definition minLearnTTL : Z := 300 * second.

(** ** Names and addresses *)

Definition normalizeName `{Unicode} (name : string) : string := ToLower (TrimSuffix (TrimSpace name) ".").

(** [isPublicIPv4]; the last test is the network 100.64.0.0/10. *)
Definition isPublicIPv4 (ip : list Z) : bool :=
  match ip4 ip with
  | None => false
  | Some q =>
      negb (IsPrivate q || IsLoopback q || IsLinkLocalUnicast q || IsLinkLocalMulticast q || IsMulticast q || IsUnspecified q ||
            ((nth_byte q 0 =? 100) && (Z.land (nth_byte q 1) 0xC0 =? 64)))
  end.

(** ** The learner *)

Record lentry : Type := mkLEntry { le_ip : string; le_expiry : Z }.
#[global] Instance lentry_eq_dec : EqDecision lentry.
Proof. solve_decision. Defined.

Record Learner : Type := mkLearner {
  ln_enabled : bool; ln_allow : list string; ln_maxTTL : Z; ln_maxEntries : Z; ln_upstream : string;
  ln_learned : gmap string (list lentry); ln_total : Z; ln_dropped : Z
}.

Definition set_table (m : gmap string (list lentry)) (total dropped : Z) (l : Learner) : Learner :=
  mkLearner (ln_enabled l) (ln_allow l) (ln_maxTTL l) (ln_maxEntries l) (ln_upstream l) m total dropped.

Inductive dns_err : Type := ENoTask | EUpstreamForm | EUpstreamHost | ENotAllowed | EQuery | EId | EResponse.

(** [net.JoinHostPort]. *)
Definition JoinHostPort (host port : string) : string :=
  if has colon (String.list_ascii_of_string host) then "[" +:+ host +:+ "]:" +:+ port else host +:+ ":" +:+ port.

(** [firstNameserver] on the text of the file. *)
Fixpoint lines_of (l : chars) (cur : chars) : list string :=
  match l with
  | [] => [String.string_of_list_ascii (rev cur)]
  | c :: t => if code c =? 10 then String.string_of_list_ascii (rev cur) :: lines_of t [] else lines_of t (c :: cur)
  end.
Definition firstNameserver (data : option string) : string :=
  match data with
  | None => ""
  | Some s =>
      let line_ns line := match Fields line with
                          | "nameserver" :: ns :: _ => if bool_decide (is_Some (ParseIP ns)) then Some ns else None
                          | _ => None
                          end in
      default "" (head (omap line_ns (lines_of (String.list_ascii_of_string s) [])))
  end.

Definition defaultUpstream (resolv : option string) : string :=
  let ns := firstNameserver resolv in
  if bool_decide (ns = "") then "1.1.1.1:53" else JoinHostPort ns "53".

Definition normalizeUpstream (resolv : option string) (up : string) : result dns_err string :=
  if bool_decide (up = "") then Ok (defaultUpstream resolv) else
  if bool_decide (is_Some (ParseIP up)) then Ok (JoinHostPort up "53") else
  match SplitHostPort up with
  | None => Err EUpstreamForm
  | Some (host, port) => if bool_decide (is_Some (ParseIP host)) then Ok (JoinHostPort host port) else Err EUpstreamHost
  end.

Record Config : Type := mkConfig {
  cf_TaskID : string; cf_AllowDomains : list string; cf_LearnTTL : Z; cf_Upstream : string; cf_MaxEntries : Z
}.

Section learner.
Context `{Unicode}.

Definition New (resolv : option string) (cfg : Config) : result dns_err Learner :=
  if bool_decide (cf_TaskID cfg = "") then Err ENoTask else
  let* up := normalizeUpstream resolv (cf_Upstream cfg) in
  Ok (mkLearner true (normalizeName <$> cf_AllowDomains cfg)
        (if cf_LearnTTL cfg <=? 0 then DefaultLearnTTL else cf_LearnTTL cfg)
        (if cf_MaxEntries cfg <=? 0 then DefaultMaxEntries else cf_MaxEntries cfg) up ∅ 0 0).

Definition IsAllowlisted (l : Learner) (domain : string) : bool :=
  existsb (λ rule, domainMatches (normalizeName domain) rule) (ln_allow l).

(** Refreshing the first entry of an address. *)
Fixpoint refresh (s : string) (expiry : Z) (es : list lentry) : list lentry :=
  match es with
  | [] => []
  | e :: es => if bool_decide (le_ip e = s) then mkLEntry s expiry :: es else e :: refresh s expiry es
  end.

Notation entries l domain := (default [] (ln_learned l !! domain)).

(** One round of the loop of [ProcessResponse]; the second component is the list
    of inserts, with whether each was a refresh. *)
Definition learn_ip (domain : string) (expiry : Z) (st : Learner * list (string * bool)) (ip : list Z) : Learner * list (string * bool) :=
  let '(l, inserts) := st in
  match ip4 ip with
  | None => st
  | Some q =>
      if negb (isPublicIPv4 q) then st else
      let s := IPString q in
      let es := entries l domain in
      if existsb (λ e, bool_decide (le_ip e = s)) es then
        (set_table (<[domain := refresh s expiry es]> (ln_learned l)) (ln_total l) (ln_dropped l) l, inserts ++ [(s, true)])
      else if ln_maxEntries l <=? ln_total l then
        (set_table (ln_learned l) (ln_total l) (ln_dropped l + 1) l, inserts)
      else
        (set_table (<[domain := es ++ [mkLEntry s expiry]]> (ln_learned l)) (ln_total l + 1) (ln_dropped l) l, inserts ++ [(s, false)])
  end.

(** The lifetime of what an answer teaches: at least five minutes, at most the cap
    of the task. *)
Definition lifetime_of (ttl : Z) (maxTTL : Z) : Z := Z.min (Z.max (ttl * second) minLearnTTL) maxTTL.

(** The locked part of [ProcessResponse]. *)
Definition process_cs (domain : string) (ips : list (list Z)) (ttl now : Z) (l : Learner) : Learner * list (string * bool) :=
  if negb (ln_enabled l) then (l, []) else
  if negb (existsb (λ rule, domainMatches domain rule) (ln_allow l)) then (l, []) else
  foldl (learn_ip domain (now + lifetime_of ttl (ln_maxTTL l))) (l, []) ips.

Definition live (now : Z) (e : lentry) : bool := now <? le_expiry e.

Definition ipStillReferenced (m : gmap string (list lentry)) (skipDomain ip : string) (now : Z) : bool :=
  existsb (λ de, negb (bool_decide (de.1 = skipDomain)) && existsb (λ e, bool_decide (le_ip e = ip) && live now e) de.2) (map_to_list m).

(** The locked part of [Drop]: how many entries went, and which addresses are to be
    deleted from the whitelist. *)
Definition drop_cs (host : string) (now : Z) (l : Learner) : Learner * (nat * list string) :=
  let domain := normalizeName host in
  let es := entries l domain in
  let m := delete domain (ln_learned l) in
  (set_table m (ln_total l - Z.of_nat (length es)) (ln_dropped l) l,
   (length es, filter (λ ip, ipStillReferenced m domain ip now = false) (le_ip <$> es))).

(** The locked part of [sweep], over the domains in [order]: what is kept, and the
    dead entries with their domains. *)
Definition keep_live (now : Z) (es : list lentry) : option (list lentry) :=
  match filter (λ e, live now e = true) es with [] => None | keep => Some keep end.
Definition dead_of (now : Z) (m : gmap string (list lentry)) (domain : string) : list (string * string) :=
  (λ e, (domain, le_ip e)) <$> filter (λ e, live now e = false) (default [] (m !! domain)).

Definition sweep_cs (order : list string) (now : Z) (l : Learner) : Learner * list string :=
  let dead := order ≫= dead_of now (ln_learned l) in
  let m := omap (keep_live now) (ln_learned l) in
  (set_table m (ln_total l - Z.of_nat (length dead)) (ln_dropped l) l,
   snd <$> filter (λ d, ipStillReferenced m d.1 d.2 now = false) dead).

Definition AddAllow (domain : string) (l : Learner) : Learner * bool :=
  let d := normalizeName domain in
  if bool_decide (d ∈ ln_allow l) then (l, false)
  else (mkLearner (ln_enabled l) (ln_allow l ++ [d]) (ln_maxTTL l) (ln_maxEntries l) (ln_upstream l) (ln_learned l) (ln_total l) (ln_dropped l), true).

Definition SetEnabled (on : bool) (l : Learner) : Learner :=
  mkLearner on (ln_allow l) (ln_maxTTL l) (ln_maxEntries l) (ln_upstream l) (ln_learned l) (ln_total l) (ln_dropped l).
Definition SetLearnTTL (d : Z) (l : Learner) : Learner :=
  mkLearner (ln_enabled l) (ln_allow l) d (ln_maxEntries l) (ln_upstream l) (ln_learned l) (ln_total l) (ln_dropped l).

(** [LearnedIPs], for the rebinding guard of the gateway. *)
Definition Learner_LearnedIPs (l : Learner) (now : Z) (host : string) : list (list Z) :=
  omap (λ e, if live now e then ParseIP (le_ip e) else None) (entries l (normalizeName host)).

(** [List]; [RemainingSec] in whole seconds. *)
Record LearnedEntry : Type := mkListed { li_domain : string; li_ip : string; li_expiry : Z; li_remaining : Z }.
Definition listed_le (a b : LearnedEntry) : Prop :=
  match OrdersEx.String_as_OT.compare (li_domain a) (li_domain b) with
  | Lt => True | Gt => False | Eq => str_le (li_ip a) (li_ip b)
  end.
#[global] Instance listed_le_dec : RelDecision listed_le.
Proof. unfold listed_le. intros a b. destruct (OrdersEx.String_as_OT.compare _ _); apply _. Defined.

Definition List_ (l : Learner) (now : Z) : list LearnedEntry :=
  merge_sort listed_le
    (map_to_list (ln_learned l) ≫= λ de,
      (λ e, mkListed de.1 (le_ip e) (le_expiry e) ((le_expiry e - now) / second)) <$> filter (λ e, live now e = true) de.2).
End learner.

(** ** Messages (proxy.go) *)

Notation bytes := (list Z).

(** What [dnsmessage.Parser] gives: [dp_left] bounds the answers still to come. *)
Inductive answer_header : Type := AnswersDone | HeaderFails | AnswerHeader (typ ttl : Z).
Class DnsParser : Type := {
  dp : Type;
  dp_Start : bytes → option dp;
  dp_Question : dp → option string;
  dp_SkipAllQuestions : dp → option dp;
  dp_AnswerHeader : dp → answer_header;
  dp_SkipAnswer : dp → option dp;
  dp_Answer : dp → option (option (list Z) * dp);
  dp_left : dp → nat
}.
(** Reading or skipping an answer uses one up; an address record has four bytes. *)
Class DnsParserLaws `{DnsParser} : Prop := {
  dp_answer_bytes p a p' : dp_Answer p = Some (Some a, p') → length a = 4%nat ∧ Forall is_byte a;
  dp_skip_left p p' : dp_SkipAnswer p = Some p' → (dp_left p' < dp_left p)%nat;
  dp_answer_left p a p' : dp_Answer p = Some (a, p') → (dp_left p' < dp_left p)%nat
}.

Definition TypeA : Z := 1.

Section messages.
Context `{DnsParser}.

Definition firstQuestionName (msg : bytes) : option string := dp_Start msg ≫= dp_Question.

(** The loop of [parseAResponse]; [None] is its failure, [Some None] the end of the
    fuel. *)
Fixpoint parse_answers (fuel : nat) (p : dp) (ips : list (list Z)) (minTTL : Z) (first : bool) : option (option (list (list Z) * Z)) :=
  match fuel with
  | O => Some None
  | S fuel =>
      match dp_AnswerHeader p with
      | AnswersDone => Some (Some (ips, minTTL))
      | HeaderFails => None
      | AnswerHeader typ ttl =>
          if negb (typ =? TypeA) then
            match dp_SkipAnswer p with None => None | Some p => parse_answers fuel p ips minTTL first end
          else
            match dp_Answer p with
            | None => None
            | Some (None, p) => parse_answers fuel p ips minTTL first
            | Some (Some a, p) => parse_answers fuel p (ips ++ [a]) (if first || (ttl <? minTTL) then ttl else minTTL) false
            end
      end
  end.

Definition parseAResponse (msg : bytes) : option (option (list (list Z) * Z)) :=
  match dp_Start msg ≫= dp_SkipAllQuestions with
  | None => None
  | Some p => parse_answers (S (dp_left p)) p [] 0 true
  end.

Definition msg_id (m : bytes) : option Z := match m with a :: b :: _ => Some (a * 256 + b) | _ => None end.

(** [forward] once the upstream answered: what goes back to the guest, and what is
    learned from it - the question's name, the addresses and their least TTL. *)
Definition forward (query resp : bytes) : option bytes * option (string * list (list Z) * Z) :=
  match msg_id query, msg_id resp with
  | Some i, Some j =>
      if i =? j then
        (Some resp,
         match firstQuestionName query, parseAResponse resp with
         | Some qname, Some (Some (ips, ttl)) => if bool_decide (ips = []) then None else Some (qname, ips, ttl)
         | _, _ => None
         end)
      else (None, None)
  | _, _ => (None, None)
  end.

(** [queryA] after the exchange with the upstream; [id] is the query's. *)
Definition queryA_answer (id : Z) (resp : bytes) : result dns_err (list (list Z) * Z) :=
  if bool_decide (msg_id resp = Some id) then
    match parseAResponse resp with Some (Some r) => Ok r | _ => Err EResponse end
  else Err EId.
End messages.

(** ** Operations as programs *)

(** [d_white] is the task's whitelist in the filter; [d_answers] is history: the
    answers processed, when, and under which cap. *)
Record answer : Type := mkAnswer { an_domain : string; an_ips : list (list Z); an_ttl : Z; an_now : Z; an_cap : Z }.
Record dstate : Type := mkD { d_learner : Learner; d_white : gset string; d_now : Z; d_answers : list answer }.

(** The environment: whether a map write succeeds (the filter may be degraded), the
    clock, the order a map is iterated in. *)
Record dworld : Type := mkDW { dw_ok : bool; dw_now : Z; dw_order : list string }.

Inductive dop : Type → Type :=
| ProcessCS (domain : string) (ips : list (list Z)) (ttl : Z) : dop (list (string * bool))
| DropCS (host : string) : dop (nat * list string)
| SweepCS : dop (list string)
| AddWhitelist (ip : string) : dop unit
| DeleteWhitelist (ip : string) : dop unit
| ReadAllowlisted (domain : string) : dop bool
| QueryUpstream : dop (option (Z * bytes))
| AddAllowCS (domain : string) : dop bool
| SetEnabledCS (on : bool) : dop unit
| SetLearnTTLCS (d : Z) : dop unit.

Definition sweep_order (w : dworld) (m : gmap string (list lentry)) : list string :=
  if bool_decide (NoDup (dw_order w) ∧ list_to_set (C := gset string) (dw_order w) = dom m) then dw_order w else elements (dom m).

Section operations.
Context `{Unicode} `{DnsParser}.

Definition with_learner (l : Learner) (s : dstate) : dstate := mkD l (d_white s) (d_now s) (d_answers s).
Definition at_time (w : dworld) (s : dstate) : dstate := mkD (d_learner s) (d_white s) (Z.max (d_now s) (dw_now w)) (d_answers s).
Definition with_white (f : gset string → gset string) (s : dstate) : dstate := mkD (d_learner s) (f (d_white s)) (d_now s) (d_answers s).

Context (upstream : dworld → option (Z * bytes)).

Definition dexec (X : Type) (o : dop X) (w : dworld) (s : dstate) : dstate * X :=
  match o in dop X return dstate * X with
  | ProcessCS domain ips ttl =>
      let s := at_time w s in
      let '(l, inserts) := process_cs domain ips ttl (d_now s) (d_learner s) in
      (mkD l (d_white s) (d_now s) (d_answers s ++ [mkAnswer domain ips ttl (d_now s) (ln_maxTTL (d_learner s))]), inserts)
  | DropCS host => let s := at_time w s in let '(l, r) := drop_cs host (d_now s) (d_learner s) in (with_learner l s, r)
  | SweepCS => let s := at_time w s in
               let '(l, r) := sweep_cs (sweep_order w (ln_learned (d_learner s))) (d_now s) (d_learner s) in (with_learner l s, r)
  | AddWhitelist ip => (if dw_ok w then with_white (union {[ip]}) s else s, tt)
  | DeleteWhitelist ip => (if dw_ok w then with_white (λ x, x ∖ {[ip]}) s else s, tt)
  | ReadAllowlisted domain => (s, IsAllowlisted (d_learner s) domain)
  | QueryUpstream => (s, upstream w)
  | AddAllowCS domain => let '(l, r) := AddAllow domain (d_learner s) in (with_learner l s, r)
  | SetEnabledCS on => (with_learner (SetEnabled on (d_learner s)) s, tt)
  | SetLearnTTLCS d => (with_learner (SetLearnTTL d (d_learner s)) s, tt)
  end.

Fixpoint add_all {A} (inserts : list (string * bool)) (k : prog dop A) : prog dop A :=
  match inserts with [] => k | i :: l => AddWhitelist i.1 ⨟ add_all l k end.
Fixpoint delete_all {A} (ips : list string) (k : prog dop A) : prog dop A :=
  match ips with [] => k | ip :: l => DeleteWhitelist ip ⨟ delete_all l k end.

Definition ProcessResponse (qname : string) (ips : list (list Z)) (ttl : Z) : prog dop nat :=
  if (ttl =? 0) || bool_decide (ips = []) then Ret 0%nat else
  inserts <-! ProcessCS (normalizeName qname) ips ttl;
  add_all inserts (Ret (length inserts)).

Definition Drop (host : string) : prog dop nat := r <-! DropCS host; delete_all r.2 (Ret r.1).
Definition sweep : prog dop unit := doomed <-! SweepCS; delete_all doomed (Ret tt).

Definition LearnNow (domain : string) : prog dop (result dns_err nat) :=
  ok <-! ReadAllowlisted domain;
  if negb ok then Ret (Err ENotAllowed) else
  r <-! QueryUpstream;
  match r with
  | None => Ret (Err EQuery)
  | Some (id, resp) =>
      match queryA_answer id resp with
      | Err e => Ret (Err e)
      | Ok (ips, ttl) => bind n := ProcessResponse domain ips ttl in Ret (Ok n)
      end
  end.

(** What runs: answers the guest sees, the sweeper, the API. *)
Inductive dentry : prog dop unit → Prop :=
| dentry_snoop query resp qname ips ttl :
    (forward query resp).2 = Some (qname, ips, ttl) → dentry (bind _ := ProcessResponse qname ips ttl in Ret tt)
| dentry_drop host : dentry (bind _ := Drop host in Ret tt)
| dentry_sweep : dentry sweep
| dentry_learn domain : dentry (bind _ := LearnNow domain in Ret tt)
| dentry_allow domain : dentry (_b <-! AddAllowCS domain; Ret tt)
| dentry_enabled on : dentry (SetEnabledCS on ⨟ Ret tt)
| dentry_ttl d : dentry (SetLearnTTLCS d ⨟ Ret tt).
End operations.

(** ** The registry of learners

    Learners are numbered; [rg_closed] are the ones [Close] was called on. *)

Record lregistry : Type := mkLR { rg_m : gmap string nat; rg_next : nat; rg_closed : gset nat }.

Inductive rop : Type → Type :=
| ForOp (task : string) : rop (option nat)
| NewOp : rop (option nat)
| PublishCS (task : string) (l : nat) : rop (option nat)
| CloseOp (l : nat) : rop unit
| RegisterOp (task : string) (l : nat) : rop unit
| UnregisterOp (task : string) (l : nat) : rop unit.

Definition rexec (X : Type) (o : rop X) (ok : bool) (s : lregistry) : lregistry * X :=
  match o in rop X return lregistry * X with
  | ForOp task => (s, rg_m s !! task)
  | NewOp => if ok then (mkLR (rg_m s) (S (rg_next s)) (rg_closed s), Some (rg_next s)) else (s, None)
  | PublishCS task l =>
      match rg_m s !! task with
      | Some w => (s, Some w)
      | None => (mkLR (<[task := l]> (rg_m s)) (rg_next s) (rg_closed s), None)
      end
  | CloseOp l => (mkLR (rg_m s) (rg_next s) ({[l]} ∪ rg_closed s), tt)
  | RegisterOp task l => (mkLR (<[task := l]> (rg_m s)) (rg_next s) (rg_closed s), tt)
  | UnregisterOp task l =>
      (if bool_decide (rg_m s !! task = Some l) then mkLR (delete task (rg_m s)) (rg_next s) (rg_closed s) else s, tt)
  end.

(** [GetOrCreate], from its end: the publication of the new learner, and its creation. *)
Definition goc_publish (task : string) (l : nat) : prog rop (option nat) :=
  winner <-! PublishCS task l;
  match winner with
  | Some w => CloseOp l ⨟ Ret (Some w)
  | None => Ret (Some l)
  end.
Definition goc_create (task : string) : prog rop (option nat) :=
  n <-! NewOp;
  match n with None => Ret None | Some l => goc_publish task l end.
Definition GetOrCreate (task : string) : prog rop (option nat) :=
  l <-! ForOp task;
  match l with Some l => Ret (Some l) | None => goc_create task end.
