(* ===== verification/DnsSpec.v ===== *)
(** * What DNS learning keeps

    The invariant of the learned table and of the whitelist, in every interleaving
    of answers, sweeps and API calls, and what every operation does to it. *)

From stdpp Require Import pretty sorting.
From Stdlib Require Import ZifyBool.
From S2P Require Import Prelude Json Strconv NetIP GoText Threads Egress EgressGate EgressSpec DnsLearn.

(** ** Counting entries *)

Notation ltable := (gmap string (list lentry)).

Definition size_at (m : ltable) (ks : list string) : nat := sum_list_with (λ d, length (default [] (m !! d))) ks.
Definition size_of (m : ltable) : nat := size_at m (elements (dom m)).

Lemma size_at_perm m ks ks' : ks ≡ₚ ks' → size_at m ks = size_at m ks'.
Proof. unfold size_at. intros ->. done. Qed.

Lemma size_at_ext m m' ks : (∀ d, d ∈ ks → m !! d = m' !! d) → size_at m ks = size_at m' ks.
Proof.
  unfold size_at. induction ks as [|d ks IH]; intros Hd; simpl; [done|].
  rewrite Hd by left. rewrite IH; [done|]. intros d' Hd'. apply Hd. by right.
Qed.

Lemma filter_split {A} (P : A → Prop) `{∀ x, base.Decision (P x)} (l : list A) :
  l ≡ₚ filter P l ++ filter (λ x, ¬ P x) l.
Proof.
  induction l as [|x l IH]; [done|]. rewrite !filter_cons. destruct (decide (P x)).
  - rewrite (decide_False (P := ¬ P x)) by tauto. simpl. by rewrite IH at 1.
  - rewrite (decide_True (P := ¬ P x)) by done. rewrite IH at 1. apply Permutation_middle.
Qed.

(** Any list of domains without duplicates that has all of the table's counts alike. *)
Lemma size_at_dom m ks : NoDup ks → (∀ d, is_Some (m !! d) → d ∈ ks) → size_at m ks = size_of m.
Proof.
  intros Hnd Hin. unfold size_of.
  assert (∃ rest, ks ≡ₚ elements (dom m) ++ rest ∧ ∀ d, d ∈ rest → m !! d = None) as (rest&Hp&Hr).
  { exists (filter (λ d, d ∉ dom m) ks). split.
    - rewrite (filter_split (λ d, d ∈ dom m) ks) at 1. apply Permutation_app; [|done].
      apply NoDup_Permutation; [by apply list.NoDup_filter|apply NoDup_elements|].
      intros d. rewrite list_elem_of_filter, elem_of_elements, elem_of_dom. naive_solver.
    - intros d Hd. apply list_elem_of_filter in Hd as [Hd _]. by apply not_elem_of_dom. }
  rewrite (size_at_perm _ _ _ Hp). unfold size_at. rewrite sum_list_with_app.
  assert (sum_list_with (λ d, length (default [] (m !! d))) rest = 0)%nat as ->; [|lia].
  clear Hp. induction rest as [|d rest IH]; simpl; [done|]. rewrite Hr by left. simpl. apply IH. intros d' Hd'. apply Hr. by right.
Qed.

Lemma size_insert m d es : (size_of (<[d := es]> m) + length (default [] (m !! d)) = size_of m + length es)%nat.
Proof.
  set (ks := d :: elements (dom m ∖ {[d]})).
  assert (NoDup ks) as Hnd by (apply list.NoDup_cons; split; [set_solver|apply NoDup_elements]).
  assert (∀ m' : ltable, (∀ d', is_Some (m' !! d') → d' = d ∨ is_Some (m !! d')) → size_at m' ks = size_of m') as Hk.
  { intros m' Hm'. apply size_at_dom; [done|]. intros d' [->|Hd']%Hm'; [by left|]. unfold ks.
    destruct (decide (d' = d)) as [->|]; [by left|right]. apply elem_of_elements. apply elem_of_dom in Hd'. set_solver. }
  rewrite <- (Hk (<[d := es]> m)), <- (Hk m).
  - unfold ks, size_at. simpl. rewrite lookup_insert, decide_True by done. simpl.
    change (sum_list_with (λ d0, length (default [] (<[d:=es]> m !! d0))) ?l) with (size_at (<[d := es]> m) l).
    rewrite (size_at_ext (<[d := es]> m) m); [unfold size_at; lia|]. intros d' Hd'. rewrite lookup_insert_ne; [done|]. set_solver.
  - intros d' Hd'. by right.
  - intros d' Hd'. rewrite lookup_insert in Hd'. case_decide; [by left|by right].
Qed.

Lemma size_delete m d : (size_of (delete d m) + length (default [] (m !! d)) = size_of m)%nat.
Proof.
  destruct (m !! d) as [es|] eqn:Hd; simpl.
  - pose proof (size_insert (delete d m) d es) as Hs. rewrite insert_delete_id, lookup_delete, decide_True in Hs by done. simpl in Hs. lia.
  - rewrite delete_id by done. lia.
Qed.

Lemma size_sweep m now order :
  NoDup order → (∀ d, is_Some (m !! d) → d ∈ order) →
  (size_of (omap (keep_live now) m) + length (order ≫= dead_of now m) = size_of m)%nat.
Proof.
  intros Hnd Hin. rewrite <- (size_at_dom m order), <- (size_at_dom (omap (keep_live now) m) order) by
    (done || (intros d; rewrite lookup_omap; intros [x Hx]; apply Hin; by destruct (m !! d))).
  unfold size_at. clear Hnd Hin. induction order as [|d order IH]; simpl; [done|]. rewrite length_app.
  assert (length (default [] (omap (keep_live now) m !! d)) + length (dead_of now m d) = length (default [] (m !! d)))%nat as Hd.
  { rewrite lookup_omap. unfold dead_of, keep_live. rewrite length_fmap. destruct (m !! d) as [es|]; simpl; [|done].
    assert (length (filter (λ e, live now e = true) es) + length (filter (λ e, live now e = false) es) = length es)%nat as He.
    { clear. induction es as [|e es IH]; [done|]. rewrite !filter_cons. destruct (live now e) eqn:Hl.
      - rewrite decide_True, decide_False by congruence. simpl. lia.
      - rewrite decide_False, decide_True by congruence. simpl. lia. }
    destruct (filter (λ e, live now e = true) es) eqn:Hf; simpl in *; lia. }
  change (list_bind _ _ (dead_of now m) order) with (order ≫= dead_of now m). lia.
Qed.

(** ** The invariant *)

(** The ranges no answer is learned from, as first and last address: RFC 1918,
    loopback, link-local, multicast, the unspecified address and carrier NAT. *)
Definition refused_ranges : list (Z * Z) :=
  let net a b c d len := let n := ((a * 256 + b) * 256 + c) * 256 + d in (n, n + 2^(32 - len) - 1) in
  [net 10 0 0 0 8; net 172 16 0 0 12; net 192 168 0 0 16; net 127 0 0 0 8; net 169 254 0 0 16; net 224 0 0 0 4;
   net 0 0 0 0 32; net 100 64 0 0 10].

Definition learnable (q : list Z) : bool :=
  negb (existsb (λ r, (r.1 <=? ip_number q) && (ip_number q <=? r.2)) refused_ranges).

(** [isPublicIPv4] refuses exactly these ranges. *)
Lemma isPublicIPv4_exact q : length q = 4%nat → Forall is_byte q → isPublicIPv4 q = learnable q.
Proof.
  intros Hl Hb. destruct q as [|a [|b [|c [|d [|]]]]]; try done. clear Hl.
  inversion Hb as [|? ? Ha Hb1]; subst. inversion Hb1 as [|? ? Hbb Hb2]; subst. inversion Hb2 as [|? ? Hc Hb3]; subst.
  inversion Hb3 as [|? ? Hd _]; subst.
  unfold isPublicIPv4, IsLoopback, IsPrivate, IsLinkLocalUnicast, IsLinkLocalMulticast, IsUnspecified, IsMulticast, ip4, nth_byte.
  cbn [length Nat.eqb nth]. rewrite (land_byte b 0xf0 16), (land_byte a 0xf0 0xe0), (land_byte b 0xC0 64) by (done || by vm_compute).
  rewrite (bool_decide_eq_false_2 ([a; b; c; d] = replicate 16 0)) by done.
  assert (bool_decide (Some [a; b; c; d] = Some [0; 0; 0; 0]) = ((a =? 0) && (b =? 0) && (c =? 0) && (d =? 0))) as ->.
  { case_bool_decide as Hz; [by injection Hz as -> -> -> ->|]. destruct (Z.eqb_spec a 0), (Z.eqb_spec b 0), (Z.eqb_spec c 0), (Z.eqb_spec d 0); done || congruence. }
  unfold learnable. f_equal. unfold is_byte in *.
  change (ip_number [a; b; c; d]) with (((((0 * 256 + a) * 256 + b) * 256 + c) * 256 + d)).
  remember (((((0 * 256 + a) * 256 + b) * 256 + c) * 256 + d)) as n eqn:Hn.
  let r := eval vm_compute in refused_ranges in change refused_ranges with r. cbn [existsb fst snd].
  rewrite !orb_false_r.
  replace ((167772160 <=? n) && (n <=? 184549375)) with (a =? 10) by lia.
  replace ((2886729728 <=? n) && (n <=? 2887778303)) with ((a =? 172) && (16 <=? b) && (b <=? 31)) by lia.
  replace ((3232235520 <=? n) && (n <=? 3232301055)) with ((a =? 192) && (b =? 168)) by lia.
  replace ((2130706432 <=? n) && (n <=? 2147483647)) with (a =? 127) by lia.
  replace ((2851995648 <=? n) && (n <=? 2852061183)) with ((a =? 169) && (b =? 254)) by lia.
  replace ((3758096384 <=? n) && (n <=? 4026531839)) with ((224 <=? a) && (a <=? 239)) by lia.
  replace ((0 <=? n) && (n <=? 0)) with ((a =? 0) && (b =? 0) && (c =? 0) && (d =? 0)) by lia.
  replace ((1681915904 <=? n) && (n <=? 1686110207)) with ((a =? 100) && (64 <=? b) && (b <=? 127)) by lia.
  clear Hn n. lia.
Qed.

Definition public_text (s : string) : Prop := ∃ q, length q = 4%nat ∧ Forall is_byte q ∧ learnable q = true ∧ s = IPString q.

Definition allowed_by (allow : list string) (d : string) : Prop := existsb (λ rule, domainMatches d rule) allow = true.

(** The entries of one domain: no address twice, all outside those ranges, the domain
    allowed. *)
Definition entries_ok (allow : list string) (d : string) (es : list lentry) : Prop :=
  NoDup (le_ip <$> es) ∧ allowed_by allow d ∧ Forall public_text (le_ip <$> es).

Record table_ok (l : Learner) : Prop := mkTableOk {
  tb_total : ln_total l = Z.of_nat (size_of (ln_learned l));
  tb_cap : ln_total l ≤ ln_maxEntries l;
  tb_entries : map_Forall (entries_ok (ln_allow l)) (ln_learned l)
}.

Lemma refresh_ips s x es : le_ip <$> refresh s x es = le_ip <$> es.
Proof. induction es as [|e es IH]; simpl; [done|]. case_bool_decide as He; simpl; [by rewrite He|by f_equal]. Qed.

Lemma refresh_length s x es : length (refresh s x es) = length es.
Proof. rewrite <- (length_fmap le_ip), refresh_ips. apply length_fmap. Qed.

Lemma has_ip_spec s es : existsb (λ e, bool_decide (le_ip e = s)) es = true ↔ s ∈ le_ip <$> es.
Proof.
  rewrite existsb_exists, list_elem_of_fmap. split; intros (e&H1&H2).
  - exists e. apply bool_decide_eq_true in H2. split; [done|by apply list_elem_of_In].
  - exists e. split; [by apply list_elem_of_In|by apply bool_decide_eq_true].
Qed.

Lemma ip4_four ip q : ip_wf ip → ip4 ip = Some q → length q = 4%nat ∧ Forall is_byte q.
Proof.
  intros [Hl Hb]. unfold ip4. destruct (Nat.eqb_spec (length ip) 4) as [H4|_]; [by intros [= <-]|].
  destruct (Nat.eqb_spec (length ip) 16) as [H16|]; [|done]. unfold To4. case_bool_decide; [|done]. intros [= <-].
  split; [rewrite length_drop; lia|by apply Forall_drop].
Qed.

Definition in_table (m : ltable) (d ip : string) : Prop := ip ∈ le_ip <$> default [] (m !! d).

(** Writing the entries of one domain. *)
Lemma table_put l domain es dropped :
  table_ok l → entries_ok (ln_allow l) domain es →
  let es0 := default [] (ln_learned l !! domain) in
  let total := ln_total l + Z.of_nat (length es) - Z.of_nat (length es0) in
  total ≤ ln_maxEntries l →
  table_ok (set_table (<[domain := es]> (ln_learned l)) total dropped l).
Proof.
  intros [Ht Hc He] Hes es0 total Hcap. pose proof (size_insert (ln_learned l) domain es) as Hs. fold es0 in Hs.
  constructor; simpl; [lia|done|]. by apply map_Forall_insert_2.
Qed.

Lemma table_entries l domain : table_ok l → allowed_by (ln_allow l) domain →
  entries_ok (ln_allow l) domain (default [] (ln_learned l !! domain)).
Proof.
  intros Hl Ha. destruct (ln_learned l !! domain) as [es|] eqn:Hd; simpl; [by apply (tb_entries _ Hl)|].
  split_and!; [constructor|done|constructor].
Qed.

Lemma in_table_put m domain es d ip :
  in_table (<[domain := es]> m) d ip ↔ (d = domain ∧ ip ∈ le_ip <$> es) ∨ (d ≠ domain ∧ in_table m d ip).
Proof. unfold in_table. rewrite lookup_insert. case_decide; subst; simpl; naive_solver. Qed.

(** The texts of the addresses of an answer that may be learned. *)
Definition public_of (a : list Z) : option string :=
  q ← ip4 a; if learnable q then Some (IPString q) else None.
Definition public_texts (ips : list (list Z)) : list string := omap public_of ips.

Lemma public_of_text a s : ip_wf a → public_of a = Some s → public_text s.
Proof.
  intros Ha. unfold public_of. destruct (ip4 a) as [q|] eqn:Hq; simpl; [|done]. destruct (learnable q) eqn:Hp; [|done].
  intros [= <-]. destruct (ip4_four _ _ Ha Hq). by exists q.
Qed.

Lemma public_texts_ok ips : Forall ip_wf ips → Forall public_text (public_texts ips).
Proof.
  induction 1 as [|a ips Ha _ IH]; [constructor|]. unfold public_texts. simpl.
  destruct (public_of a) eqn:Hp; [|done]. constructor; [by eapply public_of_text|done].
Qed.

(** What the loop of [ProcessResponse] keeps: the settings, the table, and that what
    it reports as inserted is what the table has beyond what it had. *)
Record learned_more (domain : string) (expiry : Z) (ips : list (list Z)) (l l' : Learner) (more : list (string * bool)) : Prop := mkMore {
  mo_ok : table_ok l';
  mo_same : ln_allow l' = ln_allow l ∧ ln_maxEntries l' = ln_maxEntries l;
  mo_in d s : in_table (ln_learned l') d s ↔ in_table (ln_learned l) d s ∨ (d = domain ∧ s ∈ more.*1);
  mo_new d e : e ∈ default [] (ln_learned l' !! d) →
    (e ∈ default [] (ln_learned l !! d) ∧ ¬ (d = domain ∧ le_ip e ∈ more.*1)) ∨ (d = domain ∧ le_expiry e = expiry ∧ le_ip e ∈ more.*1);
  mo_public : more.*1 ⊆ public_texts ips;
  mo_total : ln_total l ≤ ln_total l' ≤ ln_total l + Z.of_nat (length ips);
  mo_all : ln_total l + Z.of_nat (length ips) ≤ ln_maxEntries l → public_texts ips ⊆ more.*1
}.

Lemma learned_nothing domain expiry ips l l' : table_ok l → ln_learned l' = ln_learned l → ln_total l' = ln_total l →
  ln_allow l' = ln_allow l → ln_maxEntries l' = ln_maxEntries l →
  (ln_total l + Z.of_nat (length ips) ≤ ln_maxEntries l → public_texts ips = []) → learned_more domain expiry ips l l' [].
Proof.
  intros [Ht Hc He] H1 H2 H3 H4 Hroom. constructor; simpl; rewrite ?H1; try done.
  - constructor; rewrite ?H1, ?H2, ?H3, ?H4; done.
  - intros d s. split; [by left|]. by intros [?|[_ []%elem_of_nil]].
  - intros d e Hin. left. split; [done|]. by intros [_ []%elem_of_nil].
  - set_solver.
  - lia.
  - intros Hr. rewrite Hroom by done. set_solver.
Qed.

(** Refreshing, and adding, an entry. *)
Lemma refresh_new s x es e : NoDup (le_ip <$> es) → e ∈ refresh s x es → (e ∈ es ∧ le_ip e ≠ s) ∨ (le_ip e = s ∧ le_expiry e = x).
Proof.
  induction es as [|e' es IH]; simpl; intros Hnd Hin; [by apply elem_of_nil in Hin|].
  apply list.NoDup_cons in Hnd as [Hn Hnd]. case_bool_decide as He; apply elem_of_cons in Hin as [->|Hin].
  - by right.
  - left. split; [by right|]. intros Hs. apply Hn. rewrite He, <- Hs. by apply list_elem_of_fmap_2.
  - left. split; [by left|done].
  - destruct (IH Hnd Hin) as [[? ?]|?]; [left; split; [by right|done]|by right].
Qed.

(** The two ways [learn_ip] writes an entry. *)
Lemma learn_put domain expiry ip s l es es' (flag : bool) total :
  es = default [] (ln_learned l !! domain) → table_ok l → allowed_by (ln_allow l) domain → public_of ip = Some s → ip_wf ip →
  NoDup (le_ip <$> es') → (∀ x, x ∈ le_ip <$> es' ↔ x ∈ le_ip <$> es ∨ x = s) →
  (∀ e, e ∈ es' → (e ∈ es ∧ le_ip e ≠ s) ∨ (le_ip e = s ∧ le_expiry e = expiry)) →
  total = ln_total l + Z.of_nat (length es') - Z.of_nat (length es) → total ≤ ln_maxEntries l → ln_total l ≤ total ≤ ln_total l + 1 →
  learned_more domain expiry [ip] l (set_table (<[domain := es']> (ln_learned l)) total (ln_dropped l) l) [(s, flag)].
Proof.
  intros Hes Hl Ha Hs Hip Hnd Hips Hnew Htot Hcap Hle.
  destruct (table_entries l domain Hl Ha) as (_&_&Hpub). rewrite <- Hes in Hpub.
  assert (public_texts [ip] = [s]) as Hpt by (unfold public_texts; simpl; by rewrite Hs).
  constructor; simpl; rewrite ?Hpt; try done.
  - subst total es. apply table_put; [done| |done]. split_and!; [done|done|].
    apply Forall_lookup_2. intros i x Hx. apply list_elem_of_lookup_2, Hips in Hx as [Hx| ->]; [|by eapply public_of_text].
    apply list_elem_of_lookup_1 in Hx as [j Hx]. exact (Forall_lookup_1 _ _ _ _ Hpub Hx).
  - intros d x. rewrite in_table_put, Hips, list_elem_of_singleton. unfold in_table.
    destruct (decide (d = domain)) as [->|]; [rewrite <- Hes|]; tauto.
  - intros d e. rewrite list_elem_of_singleton, lookup_insert. case_decide as Hd; simpl; [subst d|intros; left; naive_solver].
    intros [[H1 H2]|[H1 H2]]%Hnew; [left; rewrite <- Hes; tauto|by right].
  - by rewrite Hs.
  - intros _. by rewrite Hs.
Qed.

Lemma learn_ip_ok domain expiry l ins ip :
  ip_wf ip → table_ok l → allowed_by (ln_allow l) domain →
  ∃ l' more, learn_ip domain expiry (l, ins) ip = (l', ins ++ more) ∧ learned_more domain expiry [ip] l l' more.
Proof.
  intros Hip Hl Ha. unfold learn_ip.
  assert (∀ l', ln_learned l' = ln_learned l → ln_total l' = ln_total l → ln_allow l' = ln_allow l → ln_maxEntries l' = ln_maxEntries l →
    (ln_total l + 1 ≤ ln_maxEntries l → public_of ip = None) →
    ∃ l'' more, (l', ins) = (l'', ins ++ more) ∧ learned_more domain expiry [ip] l l'' more) as Hsame.
  { intros l' ???? Hr. exists l', []. rewrite app_nil_r. split; [done|]. apply learned_nothing; try done.
    intros Hroom. unfold public_texts. simpl. by rewrite Hr. }
  destruct (ip4 ip) as [q|] eqn:Hq; [|apply Hsame; try done; intros _; unfold public_of; by rewrite Hq].
  destruct (ip4_four _ _ Hip Hq) as [H4 H4b]. rewrite (isPublicIPv4_exact q H4 H4b).
  destruct (learnable q) eqn:Hpub; simpl; [|apply Hsame; try done; intros _; unfold public_of; rewrite Hq; simpl; by rewrite Hpub].
  assert (public_of ip = Some (IPString q)) as Hpo by (unfold public_of; rewrite Hq; simpl; by rewrite Hpub).
  destruct (table_entries l domain Hl Ha) as (Hnd&_&_). pose proof (tb_cap _ Hl) as Hcap.
  set (s := IPString q) in *. set (es := default [] (ln_learned l !! domain)) in *.
  destruct (existsb (λ e, bool_decide (le_ip e = s)) es) eqn:Hhas.
  - apply has_ip_spec in Hhas. eexists _, [(s, true)]. split; [done|].
    eapply (learn_put domain expiry ip s l es); try done; rewrite ?refresh_ips, ?refresh_length; try done; try lia.
    + intros x. split; [by left|]. by intros [?| ->].
    + intros e. by apply refresh_new.
  - assert (s ∉ le_ip <$> es) as Hnin by (rewrite <- has_ip_spec; by rewrite Hhas).
    destruct (Z.leb_spec (ln_maxEntries l) (ln_total l)); [apply Hsame; try done; lia|].
    eexists _, [(s, false)]. split; [done|].
    eapply (learn_put domain expiry ip s l es); try done; rewrite ?fmap_app, ?length_app; simpl; try lia.
    + apply list.NoDup_app. split_and!; [done| |apply list.NoDup_singleton]. by intros x Hx ->%list_elem_of_singleton.
    + intros x. by rewrite elem_of_app, list_elem_of_singleton.
    + intros e [He| ->%list_elem_of_singleton]%elem_of_app; [|by right]. left. split; [done|]. intros Hs. apply Hnin.
      rewrite <- Hs. by apply list_elem_of_fmap_2.
Qed.

Lemma learned_more_app domain expiry ips1 ips2 l l1 l2 more1 more2 :
  learned_more domain expiry ips1 l l1 more1 → learned_more domain expiry ips2 l1 l2 more2 →
  learned_more domain expiry (ips1 ++ ips2) l l2 (more1 ++ more2).
Proof.
  intros [H1 [A1 M1] I1 N1 P1 T1 L1] [H2 [A2 M2] I2 N2 P2 T2 L2].
  assert (public_texts (ips1 ++ ips2) = public_texts ips1 ++ public_texts ips2) as Hp by apply omap_app.
  constructor; rewrite ?fmap_app, ?Hp, ?length_app; try done.
  - split; congruence.
  - intros d s. rewrite I2, I1, elem_of_app. tauto.
  - intros d e [[He Hn]|(->&?&?)]%N2; [|right; rewrite elem_of_app; tauto].
    apply N1 in He as [[He Hn']|(->&?&?)]; rewrite elem_of_app; [left|right]; tauto.
  - apply list_subseteq_app_iff_l. split; [set_solver|set_solver].
  - lia.
  - intros Hroom. rewrite Nat2Z.inj_add in Hroom. specialize (L1 ltac:(lia)). specialize (L2 ltac:(lia)). set_solver.
Qed.

Lemma process_loop_ok domain expiry ips l ins :
  Forall ip_wf ips → table_ok l → allowed_by (ln_allow l) domain →
  ∃ l' more, foldl (learn_ip domain expiry) (l, ins) ips = (l', ins ++ more) ∧ learned_more domain expiry ips l l' more.
Proof.
  intros Hips. revert l ins. induction Hips as [|ip ips Hip Hips IH]; intros l ins Hl Ha; cbn [foldl].
  - exists l, []. rewrite app_nil_r. split; [done|]. by apply learned_nothing.
  - destruct (learn_ip_ok domain expiry l ins ip) as (l1&m1&->&H1); [done..|].
    destruct (IH l1 (ins ++ m1)) as (l2&m2&->&H2); [apply H1|destruct (mo_same _ _ _ _ _ _ H1) as [-> _]; done|].
    exists l2, (m1 ++ m2). rewrite app_assoc. split; [done|]. by apply (learned_more_app domain expiry [ip] ips l l1).
Qed.

Section critical.
Context `{Unicode}.

Lemma process_cs_ok domain ips ttl now l :
  Forall ip_wf ips → table_ok l →
  ∃ l' more, process_cs domain ips ttl now l = (l', more) ∧
    ((l' = l ∧ more = []) ∨
     (allowed_by (ln_allow l) domain ∧ learned_more domain (now + lifetime_of ttl (ln_maxTTL l)) ips l l' more)).
Proof.
  intros Hips Hl. unfold process_cs. destruct (ln_enabled l); simpl; [|by eauto 6].
  destruct (existsb _ (ln_allow l)) eqn:Ha; simpl; [|by eauto 6].
  destruct (process_loop_ok domain (now + lifetime_of ttl (ln_maxTTL l)) ips l []) as (l'&more&->&Hm); [done..|].
  exists l', more. split; [done|]. by right.
Qed.

(** ** Dropping and sweeping *)

Definition live_at (m : ltable) (now : Z) (d ip : string) : Prop := ∃ e, e ∈ default [] (m !! d) ∧ le_ip e = ip ∧ live now e = true.

Lemma referenced_spec m skip ip now : ipStillReferenced m skip ip now = true ↔ ∃ d, d ≠ skip ∧ live_at m now d ip.
Proof.
  unfold ipStillReferenced, live_at. rewrite existsb_exists. split.
  - intros ([d es]&Hin&Ht). apply list_elem_of_In, elem_of_map_to_list in Hin. simpl in Ht.
    apply andb_prop in Ht as [Hd Ht]. apply existsb_exists in Ht as (e&He&Hl). apply andb_prop in Hl as [Hip Hl].
    apply negb_true_iff, bool_decide_eq_false in Hd. apply bool_decide_eq_true in Hip.
    exists d. split; [done|]. exists e. rewrite Hin. split; [by apply list_elem_of_In|done].
  - intros (d&Hd&e&He&Hip&Hl). destruct (m !! d) as [es|] eqn:Hm; [|by apply elem_of_nil in He].
    exists (d, es). split; [by apply list_elem_of_In, elem_of_map_to_list|]. simpl. rewrite bool_decide_false by done. simpl.
    apply existsb_exists. exists e. split; [by apply list_elem_of_In|]. by rewrite bool_decide_true.
Qed.

Lemma live_in_table m now d ip : live_at m now d ip → in_table m d ip.
Proof. intros (e&He&<-&_). by apply list_elem_of_fmap_2. Qed.

(** A table with fewer entries per domain is as well-formed as it was. *)
Definition smaller (m m' : ltable) : Prop := ∀ d es, m' !! d = Some es → ∃ es0, m !! d = Some es0 ∧ es `sublist_of` es0.

Lemma table_shrink l m total dropped :
  table_ok l → smaller (ln_learned l) m → total = Z.of_nat (size_of m) → total ≤ ln_total l → table_ok (set_table m total dropped l).
Proof.
  intros [Ht Hc He] Hm Htot Hle. constructor; simpl; [done|lia|]. intros d es Hd.
  destruct (Hm _ _ Hd) as (es0&H0&Hs). destruct (He _ _ H0) as (H1&H2&H3). split_and!; [|done|].
  - eapply sublist_NoDup; [done|by apply fmap_sublist].
  - apply list.Forall_forall. intros x Hx. eapply list.Forall_forall; [exact H3|]. revert Hx. by apply sublist_subseteq, fmap_sublist.
Qed.

Lemma drop_cs_ok host now l :
  table_ok l →
  ∃ l' n doomed, drop_cs host now l = (l', (n, doomed)) ∧ table_ok l' ∧
    ln_allow l' = ln_allow l ∧ ln_learned l' = delete (normalizeName host) (ln_learned l) ∧
    n = length (default [] (ln_learned l !! normalizeName host)) ∧
    (∀ x, x ∈ doomed ↔ in_table (ln_learned l) (normalizeName host) x ∧ ∀ d, ¬ live_at (ln_learned l') now d x).
Proof.
  intros Hl. unfold drop_cs. set (domain := normalizeName host). eexists _, _, _. split; [done|]. simpl.
  pose proof (size_delete (ln_learned l) domain) as Hs. pose proof (tb_total _ Hl) as Ht. split_and!; try done.
  - apply table_shrink; [done| |lia|lia]. intros d es Hd. apply lookup_delete_Some in Hd as [_ Hd]. by exists es.
  - intros x. rewrite list_elem_of_filter. fold (in_table (ln_learned l) domain x).
    rewrite <- not_true_iff_false, referenced_spec. split; intros [H1 H2]; [split; [done|]|split; [|done]].
    + intros d Hd. apply H1. exists d. split; [|done]. intros ->. destruct Hd as (e&He&_).
      rewrite lookup_delete, decide_True in He by done. by apply elem_of_nil in He.
    + intros (d&_&Hd). by eapply H2.
Qed.

Lemma swept (m : ltable) now d : default [] (omap (keep_live now) m !! d) = filter (λ e, live now e = true) (default [] (m !! d)).
Proof.
  rewrite lookup_omap. destruct (m !! d) as [es|]; simpl; [|done]. unfold keep_live.
  by destruct (filter (λ e, live now e = true) es).
Qed.

Lemma swept_live (m : ltable) now d ip : live_at (omap (keep_live now) m) now d ip ↔ live_at m now d ip.
Proof. unfold live_at. setoid_rewrite swept. setoid_rewrite list_elem_of_filter. naive_solver. Qed.

Lemma sweep_cs_ok order now l :
  table_ok l → NoDup order → (∀ d, is_Some (ln_learned l !! d) ↔ d ∈ order) →
  ∃ l' doomed, sweep_cs order now l = (l', doomed) ∧ table_ok l' ∧
    ln_allow l' = ln_allow l ∧ ln_learned l' = omap (keep_live now) (ln_learned l) ∧
    (∀ x, x ∈ doomed ↔ ∃ d, in_table (ln_learned l) d x ∧ ∀ d', ¬ live_at (ln_learned l) now d' x).
Proof.
  intros Hl Hnd Hord. unfold sweep_cs. eexists _, _. split; [done|]. simpl.
  pose proof (size_sweep (ln_learned l) now order Hnd (λ d, proj1 (Hord d))) as Hs. pose proof (tb_total _ Hl) as Ht.
  split_and!; try done.
  - apply table_shrink; [done| |lia|lia]. intros d es Hd. rewrite lookup_omap in Hd.
    destruct (ln_learned l !! d) as [es0|]; [|done]. simpl in Hd. exists es0. split; [done|]. unfold keep_live in Hd.
    destruct (filter _ es0) eqn:Hf; simplify_eq. rewrite <- Hf. apply sublist_filter.
  - intros x. rewrite list_elem_of_fmap. setoid_rewrite list_elem_of_filter. split.
    + intros ([d y]&->&Hr&Hin). simpl in *. rewrite <- not_true_iff_false, referenced_spec in Hr. setoid_rewrite swept_live in Hr.
      apply list_elem_of_bind in Hin as (d0&Hin&_). apply list_elem_of_fmap in Hin as (e&[= -> ->]&Hin).
      apply list_elem_of_filter in Hin as [Hdead Hin]. exists d0. split; [by apply list_elem_of_fmap_2|].
      intros d' Hlive. destruct (decide (d' = d0)) as [->|]; [|by apply Hr; exists d'].
      destruct Hlive as (e'&He'&Hip&Hl'). assert (e' = e) as ->; [|congruence].
      destruct (ln_learned l !! d0) as [es|] eqn:Hes; [|by apply elem_of_nil in Hin]. simpl in *.
      destruct (tb_entries _ Hl _ _ Hes) as (Hnd'&_). apply list_elem_of_lookup_1 in He' as [i Hi], Hin as [j Hj].
      assert (i = j) as ->; [|congruence]. eapply NoDup_lookup; [exact Hnd'| |]; rewrite list_lookup_fmap; [by rewrite Hi|rewrite Hj; simpl; congruence].
    + intros (d&Hin&Hno). unfold in_table in Hin. apply list_elem_of_fmap in Hin as (e&->&Hin).
      exists (d, le_ip e). split; [done|]. split.
      * simpl. rewrite <- not_true_iff_false, referenced_spec. setoid_rewrite swept_live. intros (d'&_&Hl'). by apply (Hno d').
      * apply list_elem_of_bind. exists d. split.
        -- apply list_elem_of_fmap. exists e. split; [done|]. apply list_elem_of_filter. split; [|done].
           destruct (live now e) eqn:Hlv; [|done]. exfalso. apply (Hno d). by exists e.
        -- apply Hord. destruct (ln_learned l !! d); [done|]. by apply elem_of_nil in Hin.
Qed.
End critical.
