(* ===== verification/DnsClaims.v ===== *)
(** * What DNS learning promises

    Every interleaving of answers, sweeps and API calls keeps the table within its
    bounds and admits only addresses that were answered for allowed names
    ([learning_sound]); run one at a time over a working filter, the whitelist
    mirrors the table ([mirror_exact]). *)

From stdpp Require Import pretty sorting.
From S2P Require Import Prelude Json Strconv NetIP GoText Threads Egress Sni EgressGate EgressServe EgressSpec EgressClaims DnsLearn DnsSpec.

(** ** Reading a response *)

Section response.
Context `{DnsParserLaws}.

(** The loop ends within the answers the message has, and gives addresses. *)
Lemma parse_answers_ok fuel p ips ttl first :
  (dp_left p < fuel)%nat → Forall ip_wf ips →
  match parse_answers fuel p ips ttl first with
  | Some (Some (ips', _)) => Forall ip_wf ips'
  | Some None => False
  | None => True
  end.
Proof.
  revert p ips ttl first. induction fuel as [|fuel IH]; intros p ips ttl first Hf Hips; [lia|]. simpl.
  destruct (dp_AnswerHeader p) as [| |typ t]; [done|done|]. destruct (negb _).
  - destruct (dp_SkipAnswer p) as [p'|] eqn:Hs; [|done]. apply IH; [|done]. apply dp_skip_left in Hs. lia.
  - destruct (dp_Answer p) as [[[a|] p']|] eqn:Ha; [| |done]; pose proof (dp_answer_left _ _ _ Ha); (apply IH; [lia|]); [|done].
    apply Forall_app. split; [done|]. constructor; [|done]. destruct (dp_answer_bytes _ _ _ Ha). split; [by left|done].
Qed.

Lemma parseAResponse_total msg : parseAResponse msg ≠ Some None.
Proof.
  unfold parseAResponse. destruct (dp_Start msg ≫= dp_SkipAllQuestions) as [p|]; [|done]. intros Hp.
  pose proof (parse_answers_ok (S (dp_left p)) p [] 0 true) as Hok. rewrite Hp in Hok. apply Hok; [lia|constructor].
Qed.

Lemma parseAResponse_wf msg ips ttl : parseAResponse msg = Some (Some (ips, ttl)) → Forall ip_wf ips.
Proof.
  unfold parseAResponse. destruct (dp_Start msg ≫= dp_SkipAllQuestions) as [p|]; [|done]. intros Hp.
  pose proof (parse_answers_ok (S (dp_left p)) p [] 0 true) as Hok. rewrite Hp in Hok. apply Hok; [lia|constructor].
Qed.
End response.

(** ** The invariant *)

(** What an answer says, when it was processed. *)
Definition teaches (an : answer) (ip : string) : Prop := ip ∈ public_texts (an_ips an).
Definition expires (an : answer) : Z := an_now an + lifetime_of (an_ttl an) (an_cap an).

Section invariant.
Context `{Unicode} `{DnsParserLaws} (upstream : dworld → option (Z * list Z)) (base : gset string) (cap : Z).
Notation dexec := (dexec upstream).

(** The answers of a response. *)
Definition heard (ips : list (list Z)) (ttl : Z) : Prop := ttl ≠ 0 ∧ ∃ resp, parseAResponse resp = Some (Some (ips, ttl)).

Definition justified (ip : string) (s : dstate) : Prop :=
  ∃ an, an ∈ d_answers s ∧ teaches an ip ∧ allowed_by (ln_allow (d_learner s)) (an_domain an).

Record DInv (s : dstate) : Prop := mkDInv {
  di_table : table_ok (d_learner s);
  di_cap : ln_maxEntries (d_learner s) = cap;
  di_origin d e : e ∈ default [] (ln_learned (d_learner s) !! d) →
    ∃ an, an ∈ d_answers s ∧ an_domain an = d ∧ teaches an (le_ip e) ∧ le_expiry e = expires an;
  di_white x : x ∈ d_white s → x ∈ base ∨ justified x s;
  di_heard an : an ∈ d_answers s → heard (an_ips an) (an_ttl an) ∧ an_now an ≤ d_now s
}.

Record DLe (s s' : dstate) : Prop := mkDLe {
  dl_allow : ln_allow (d_learner s) ⊆ ln_allow (d_learner s');
  dl_max : ln_maxEntries (d_learner s') = ln_maxEntries (d_learner s);
  dl_answers : d_answers s ⊆ d_answers s';
  dl_now : d_now s ≤ d_now s'
}.

#[global] Instance DLe_preorder : PreOrder DLe.
Proof.
  split.
  - intros s. constructor; done.
  - intros s1 s2 s3 [] []. constructor; [by etrans|congruence|by etrans|lia].
Qed.

Lemma allowed_mono allow allow' d : allow ⊆ allow' → allowed_by allow d → allowed_by allow' d.
Proof.
  unfold allowed_by. rewrite !existsb_exists. intros Hs (r&Hr&Hm). exists r. split; [|done].
  apply list_elem_of_In. apply Hs. by apply list_elem_of_In.
Qed.

Lemma justified_stable ip : Threads.stable DLe (justified ip).
Proof.
  intros s s' [] (an&Hin&Ht&Ha). exists an. split_and!; [by apply dl_answers0|done|by eapply allowed_mono].
Qed.

Definition dpre {X} (o : dop X) : dstate → Prop :=
  match o with
  | ProcessCS _ ips ttl => λ _, heard ips ttl
  | AddWhitelist ip => justified ip
  | _ => λ _, True
  end.
Definition dpost {X} (o : dop X) : X → dstate → Prop :=
  match o in dop X return X → dstate → Prop with
  | ProcessCS _ _ _ => λ ins s, Forall (λ i, justified i.1 s) ins
  | _ => λ _ _, True
  end.

Lemma dpost_stable {X} (o : dop X) x : Threads.stable DLe (dpost o x).
Proof.
  destruct o; simpl; try by apply stable_pure. intros s s' HL. apply Forall_impl. intros i. by apply justified_stable.
Qed.

(** What changes neither the table nor the whitelist. *)
Lemma DInv_grow s s' :
  DInv s → DLe s s' → ln_learned (d_learner s') = ln_learned (d_learner s) → ln_total (d_learner s') = ln_total (d_learner s) →
  d_answers s' = d_answers s → d_white s' ⊆ d_white s ∪ base → DInv s'.
Proof.
  intros [[Ht Hc He] Hcap Ho Hw Hh] HL Hm Htot Ha Hwh. pose proof HL as [HA HM _ HN]. constructor; rewrite ?Hm, ?Ha; try done.
  - constructor; rewrite ?Hm, ?Htot, ?HM; try done. intros d es Hd. destruct (He _ _ Hd) as (?&?&?).
    split_and!; [done|by eapply allowed_mono|done].
  - congruence.
  - intros x Hx. apply Hwh, elem_of_union in Hx as [Hx|]; [|by left]. apply Hw in Hx as [|Hx]; [by left|right].
    by eapply justified_stable.
  - intros an Han. destruct (Hh _ Han). split; [done|lia].
Qed.

(** Entries and whitelist shrink, or stay. *)
Lemma DInv_shrink s l :
  DInv s → table_ok l → ln_allow l = ln_allow (d_learner s) → ln_maxEntries l = ln_maxEntries (d_learner s) →
  (∀ d, default [] (ln_learned l !! d) ⊆ default [] (ln_learned (d_learner s) !! d)) →
  DInv (with_learner l s) ∧ DLe s (with_learner l s).
Proof.
  intros [Ht Hcap Ho Hw Hh] Hl Ha Hm Hsub. split.
  - constructor; simpl; try done.
    + congruence.
    + intros d e He. by apply Ho, Hsub.
    + intros x Hx. apply Hw in Hx as [|Hx]; [by left|right]. unfold justified. simpl. by rewrite Ha.
  - constructor; simpl; [by rewrite Ha|done|done|lia].
Qed.

Lemma at_time_ok w s : DInv s → DInv (at_time w s) ∧ DLe s (at_time w s).
Proof.
  intros HI. assert (DLe s (at_time w s)) as HL by (constructor; simpl; try done; lia).
  split; [|done]. apply (DInv_grow s); try done. simpl. set_solver.
Qed.

Lemma process_ok domain ips ttl w s : DInv s → heard ips ttl →
  let '(s', x) := dexec _ (ProcessCS domain ips ttl) w s in DInv s' ∧ DLe s s' ∧ dpost (ProcessCS domain ips ttl) x s'.
Proof.
  intros HI0 Hh. cbn [DnsLearn.dexec]. destruct (at_time_ok w s HI0) as [HI HL0]. revert HI HL0. generalize (at_time w s). intros s1 HI HL0.
  assert (Forall ip_wf ips) as Hips by (destruct Hh as (_&resp&Hr); by eapply parseAResponse_wf).
  destruct (process_cs_ok domain ips ttl (d_now s1) (d_learner s1) Hips (di_table _ HI)) as (l&more&->&Hcase).
  set (an := mkAnswer domain ips ttl (d_now s1) (ln_maxTTL (d_learner s1))).
  set (s' := mkD l (d_white s1) (d_now s1) (d_answers s1 ++ [an])).
  assert (an ∈ d_answers s') as Han by (simpl; apply elem_of_app; right; by left).
  assert (table_ok l ∧ ln_allow l = ln_allow (d_learner s1) ∧ ln_maxEntries l = ln_maxEntries (d_learner s1)) as (Hok&Hal&Hmx).
  { destruct Hcase as [[-> ->]|[_ [? [] ? ? ? ? ?]]]; [|done]. split; [apply HI|done]. }
  assert (DLe s1 s') as HL by (constructor; simpl; [by rewrite Hal|done|set_solver|lia]).
  split_and!; [|by etrans|].
  - constructor; simpl.
    + done.
    + rewrite Hmx. apply HI.
    + intros d e He. destruct Hcase as [[-> ->]|[_ [_ _ _ Hnew Hpub _ _]]].
      * destruct (di_origin _ HI d e He) as (an'&?&?). exists an'. split; [set_solver|done].
      * apply Hnew in He as [[He _]|(->&He&Hin)].
        -- destruct (di_origin _ HI d e He) as (an'&?&?). exists an'. split; [set_solver|done].
        -- exists an. split_and!; [done|done|by apply Hpub|done].
    + intros x Hx. apply (di_white _ HI) in Hx as [|Hx]; [by left|right]. by eapply justified_stable.
    + intros a [Ha| ->%list_elem_of_singleton]%elem_of_app; [apply (di_heard _ HI _ Ha)|]. split; [done|simpl; lia].
  - simpl. destruct Hcase as [[-> ->]|[Hall [_ _ _ _ Hpub _ _]]]; [constructor|]. apply list.Forall_forall. intros i Hi.
    exists an. split_and!; [done|apply Hpub; by apply list_elem_of_fmap_2|simpl; by rewrite Hal].
Qed.

Lemma sweep_order_ok w (m : gmap string (list lentry)) : NoDup (sweep_order w m) ∧ ∀ d, is_Some (m !! d) ↔ d ∈ sweep_order w m.
Proof.
  unfold sweep_order. case_bool_decide as Hb.
  - destruct Hb as [Hn He]. split; [done|]. intros d. rewrite <- elem_of_dom, <- He. by rewrite elem_of_list_to_set.
  - split; [apply NoDup_elements|]. intros d. by rewrite elem_of_elements, elem_of_dom.
Qed.

Ltac grows := simpl; try done; try (constructor; simpl; try done; try lia); set_solver.

Lemma dexec_ok {X} (o : dop X) w s : DInv s → dpre o s →
  let '(s', x) := dexec X o w s in DInv s' ∧ DLe s s' ∧ dpost o x s'.
Proof.
  intros HI Hpre.
  assert (∀ s', DLe s s' → ln_learned (d_learner s') = ln_learned (d_learner s) → ln_total (d_learner s') = ln_total (d_learner s) →
    d_answers s' = d_answers s → d_white s' ⊆ d_white s ∪ base → DInv s' ∧ DLe s s' ∧ True) as Hgrow.
  { intros. split_and!; [by eapply DInv_grow|done|done]. }
  destruct o; try by apply process_ok.
  - cbn [DnsLearn.dexec]. destruct (at_time_ok w s HI) as [HI1 HL1]. revert HI1 HL1. generalize (at_time w s). intros s1 HI1 HL1.
    destruct (drop_cs_ok host (d_now s1) (d_learner s1) (di_table _ HI1)) as (l&n&doomed&Heq&Hl&Ha&Hm&_). rewrite Heq.
    destruct (DInv_shrink s1 l HI1 Hl Ha) as [? ?]; [by unfold drop_cs in Heq; simplify_eq| |split_and!; [done|by etrans|done]].
    intros d. rewrite Hm, lookup_delete. case_decide; [set_solver|done].
  - cbn [DnsLearn.dexec]. destruct (at_time_ok w s HI) as [HI1 HL1]. revert HI1 HL1. generalize (at_time w s). intros s1 HI1 HL1.
    destruct (sweep_order_ok w (ln_learned (d_learner s1))) as [Hn Ho].
    destruct (sweep_cs_ok _ (d_now s1) (d_learner s1) (di_table _ HI1) Hn Ho) as (l&doomed&Heq&Hl&Ha&Hm&_). rewrite Heq.
    destruct (DInv_shrink s1 l HI1 Hl Ha) as [? ?]; [by unfold sweep_cs in Heq; simplify_eq| |split_and!; [done|by etrans|done]].
    intros d. rewrite Hm, swept. intros e He. by apply list_elem_of_filter in He as [_ ?].
  - cbn [DnsLearn.dexec]. destruct (dw_ok w); [|by split_and!].
    assert (DLe s (with_white (union {[ip]}) s)) as HL by (constructor; simpl; try done; lia). split_and!; [|done|done].
    destruct HI as [Ht Hcap Ho Hw Hh]. constructor; simpl; try done. intros x [->%elem_of_singleton|Hx]%elem_of_union; [by right|by apply Hw].
  - cbn [DnsLearn.dexec]. destruct (dw_ok w); [|by split_and!]. apply Hgrow; grows.
  - by split_and!.
  - by split_and!.
  - cbn [DnsLearn.dexec]. unfold AddAllow. case_bool_decide; apply Hgrow; grows.
  - apply Hgrow; grows.
  - apply Hgrow; grows.
Qed.

(** ** The programs *)

Notation spec := (Threads.spec dexec DInv DLe).
Notation stable := (Threads.stable DLe).

Lemma d_vis {A X} K (o : dop X) (k : X → prog dop A) Q :
  stable K → (∀ s, DInv s → K s → dpre o s) → (∀ x, spec (λ s, K s ∧ dpost o x s) (k x) Q) → spec K (Vis o k) Q.
Proof. apply (spec_vis dexec DInv DLe (@dpre) (@dpost)). intros Y o' w s HI Hp. by apply dexec_ok. Qed.

Lemma spec_add_all {A} K ins (k : prog dop A) Q :
  stable K → (∀ s, K s → Forall (λ i, justified i.1 s) ins) → spec K k Q → spec K (add_all ins k) Q.
Proof.
  intros HK. induction ins as [|i ins IH]; simpl; intros Hj Hk; [done|]. apply d_vis; [done| |].
  - intros s _ Hs. specialize (Hj s Hs). by inversion Hj.
  - intros u. apply (spec_weaken _ _ _ _ K); [by intros s []|]. apply IH; [|done]. intros s Hs. specialize (Hj s Hs). by inversion Hj.
Qed.

Lemma spec_delete_all {A} K ips (k : prog dop A) Q : stable K → spec K k Q → spec K (delete_all ips k) Q.
Proof.
  intros HK Hk. induction ips as [|ip ips IH]; simpl; [done|]. apply d_vis; [done|done|]. intros u.
  by apply (spec_weaken _ _ _ _ K); [intros s []|].
Qed.

Notation anything := (λ _, True : Prop).

Lemma spec_ProcessResponse qname ips ttl (Q : nat → dstate → Prop) :
  (∃ resp, parseAResponse resp = Some (Some (ips, ttl))) → (∀ n s, Q n s) → spec anything (ProcessResponse qname ips ttl) Q.
Proof.
  intros Hresp HQ. unfold ProcessResponse. destruct (Z.eqb_spec ttl 0); simpl; [by apply spec_ret|].
  case_bool_decide; [by apply spec_ret|]. apply d_vis; [apply stable_pure|by intros s _ _|]. intros ins.
  apply spec_add_all; [apply stable_and; [apply stable_pure|apply (dpost_stable (ProcessCS (normalizeName qname) ips ttl))]|by intros s []|].
  by apply spec_ret.
Qed.

Lemma dentry_ok p : dentry p → spec anything p (λ _ _, True).
Proof.
  assert (∀ A (p : prog dop A), spec anything p (λ _ _, True) → spec anything (bind _ := p in Ret tt) (λ _ _, True)) as Hdone.
  { intros A q Hq. eapply (spec_bind _ _ _ _ _ _ (λ _ _, True)); [apply stable_pure|done| |intros a; apply stable_pure].
    intros a. by apply spec_ret. }
  destruct 1 as [query resp qname ips ttl Hf|host| |domain|domain|on|d].
  - apply Hdone. apply spec_ProcessResponse; [|done]. exists resp. unfold forward in Hf.
    destruct (msg_id query), (msg_id resp); try done. destruct (_ =? _); [|done]. simpl in Hf.
    destruct (firstQuestionName query); [|done]. destruct (parseAResponse resp) as [[[ips' ttl']|]|]; [|done..].
    case_bool_decide; by simplify_eq.
  - apply Hdone. apply d_vis; [apply stable_pure|done|]. intros [n doomed]. apply spec_delete_all; [apply stable_and; apply stable_pure|].
    by apply spec_ret.
  - apply d_vis; [apply stable_pure|done|]. intros doomed. apply spec_delete_all; [apply stable_and; apply stable_pure|].
    by apply spec_ret.
  - apply Hdone. unfold LearnNow. apply d_vis; [apply stable_pure|done|]. intros ok. destruct (negb ok); [by apply spec_ret|].
    apply d_vis; [apply stable_and; apply stable_pure|done|]. intros [[id resp]|]; [|by apply spec_ret].
    unfold queryA_answer. case_bool_decide; [|by apply spec_ret]. destruct (parseAResponse resp) as [[[ips ttl]|]|] eqn:Hr; [|by apply spec_ret..].
    eapply (spec_bind _ _ _ _ _ _ (λ _ _, True)); [repeat apply stable_and; apply stable_pure| | |intros a; apply stable_pure].
    + apply (spec_weaken _ _ _ _ anything); [done|]. apply spec_ProcessResponse; [by exists resp|done].
    + intros a. by apply spec_ret.
  - apply d_vis; [apply stable_pure|done|]. intros x. by apply spec_ret.
  - apply d_vis; [apply stable_pure|done|]. intros x. by apply spec_ret.
  - apply d_vis; [apply stable_pure|done|]. intros x. by apply spec_ret.
Qed.

(** The operator lists addresses of [base] in the filter, and removes any. *)
Definition operator (s s' : dstate) : Prop :=
  ∃ x, (x ∈ base ∧ s' = with_white (union {[x]}) s) ∨ s' = with_white (λ w, w ∖ {[x]}) s.

Lemma operator_ok s s' : operator s s' → DInv s → DInv s' ∧ DLe s s'.
Proof.
  intros (x&Hx) HI. assert (DLe s s') as HL by (destruct Hx as [[_ ->]| ->]; constructor; simpl; try done; lia).
  split; [|done]. apply (DInv_grow s); try done; destruct Hx as [[? ->]| ->]; simpl; try done; set_solver.
Qed.

(** A task's learner from its start, under everything that runs. *)
Definition learner_run (resolv : option string) (cfg : Config) (white : gset string) (now : Z) (sys : system (S := dstate) (E := dop)) : Prop :=
  ∃ l, New resolv cfg = Ok l ∧ ln_maxEntries l = cap ∧ white ⊆ base ∧ reachable dexec dentry operator (mkD l white now []) sys.

Lemma learner_invariant resolv cfg white now sys :
  learner_run resolv cfg white now sys → DInv sys.1.
Proof.
  intros (l&Hnew&Hcap&Hb&Hr). assert (DInv (mkD l white now [])) as Hinit.
  { unfold New in Hnew. case_bool_decide; [done|]. destruct (normalizeUpstream _ _); simpl in Hnew; simplify_eq.
    constructor; simpl; [constructor; simpl|done| | |].
    - done.
    - destruct (Z.leb_spec (cf_MaxEntries cfg) 0); [done|lia].
    - apply map_Forall_empty.
    - intros d e He. rewrite lookup_empty in He. by apply elem_of_nil in He.
    - intros x Hx. left. by apply Hb.
    - intros an Han. by apply elem_of_nil in Han. }
  eapply (threads_sound dexec dentry operator DInv DLe) in Hr; [apply Hr|done|..].
  - intros p s He _. by apply dentry_ok.
  - apply operator_ok.
Qed.
End invariant.

(** ** Statements of record *)

Section promises.
Context `{Unicode} `{DnsParserLaws} (upstream : dworld → option (Z * list Z)) (base : gset string) (cap : Z).

(** C12. In every interleaving of DNS answers, sweeps, drops, lookups and operator
    changes, whatever the filter's writes do: the count is the number of entries and
    within the cap; an entry is an IPv4 address outside the refused ranges (10/8,
    172.16/12, 192.168/16, 127/8, 169.254/16, 224/4, 0.0.0.0 and 100.64/10) that a
    response gave for its name, the name is allowed, and it expires when that answer's
    lifetime (its TTL raised to five minutes, cut at the task's limit) ends; and every
    whitelisted address is the operator's or lies outside those ranges and was
    answered for an allowed name.  (Other ranges that are not routable are learned,
    see [not_routable_but_public].) *)
Theorem learning_sound resolv cfg white now sys :
  learner_run upstream base cap resolv cfg white now sys →
  let s := sys.1 in let l := d_learner s in
  ln_total l = Z.of_nat (size_of (ln_learned l)) ∧ ln_total l ≤ cap ∧
  (∀ d e, e ∈ default [] (ln_learned l !! d) → allowed_by (ln_allow l) d ∧ public_text (le_ip e) ∧
     ∃ an, an ∈ d_answers s ∧ heard (an_ips an) (an_ttl an) ∧ an_now an ≤ d_now s ∧
       an_domain an = d ∧ teaches an (le_ip e) ∧ le_expiry e = expires an) ∧
  (∀ x, x ∈ d_white s → x ∈ base ∨ (public_text x ∧
     ∃ an, an ∈ d_answers s ∧ heard (an_ips an) (an_ttl an) ∧ teaches an x ∧ allowed_by (ln_allow l) (an_domain an))).
Proof.
  intros Hr s l. pose proof (learner_invariant _ _ _ _ _ _ _ _ Hr) as [Ht Hcap Ho Hw Hh]. fold s in Ht, Hcap, Ho, Hw, Hh. fold l in Ht, Hcap, Ho, Hw.
  assert (∀ an x, an ∈ d_answers s → teaches an x → public_text x) as Hpub.
  { intros an x Han Hx. destruct (Hh _ Han) as [(_&resp&Hresp) _]. apply parseAResponse_wf, public_texts_ok in Hresp.
    by eapply list.Forall_forall. }
  split_and!.
  - apply Ht.
  - rewrite <- Hcap. apply Ht.
  - intros d e He. destruct (Ho _ _ He) as (an&Han&Hd&Hx&Hexp). destruct (Hh _ Han). split_and!; [|by eapply Hpub|by exists an].
    destruct (ln_learned l !! d) as [es|] eqn:Hes; [|by apply elem_of_nil in He]. by apply (tb_entries _ Ht _ _ Hes).
  - intros x [|(an&Han&Hx&Hal)]%Hw; [by left|right]. split; [by eapply Hpub|]. exists an. destruct (Hh _ Han). done.
Qed.
End promises.

(** * The whitelist mirrors the table

    Operations run one after the other over a working filter: what is live is
    whitelisted, what is whitelisted is the operator's or in the table, and a sweep
    leaves exactly the live addresses. *)

Section mirror.
Context `{Unicode} `{DnsParserLaws} (upstream : dworld → option (Z * list Z)) (base : gset string).
Notation dexec := (dexec upstream).

(** One operation run alone, every write to the filter succeeding. *)
Definition works (ws : list dworld) : Prop := Forall (λ w, dw_ok w = true) ws.
Inductive seq_step : dstate → dstate → Prop :=
| seq_run p ws s s' u : dentry p → works ws → alone dexec p ws s = Some (s', u) → seq_step s s'.

Definition live_now (s : dstate) (d ip : string) : Prop := live_at (ln_learned (d_learner s)) (d_now s) d ip.

Record mirrored (s : dstate) : Prop := mkMirrored {
  mi_table : table_ok (d_learner s);
  mi_live d ip : live_now s d ip → ip ∈ d_white s;
  mi_white x : x ∈ d_white s → x ∈ base ∨ ∃ d, in_table (ln_learned (d_learner s)) d x
}.

(** ** Runs of the loops *)

Lemma alone_fmap {A B} (p : prog dop A) (f : A → B) ws s s' b :
  alone dexec (pbind p (λ a, Ret (f a))) ws s = Some (s', b) → ∃ a, alone dexec p ws s = Some (s', a) ∧ b = f a.
Proof.
  revert f ws s. induction p as [A a|A X e k IH|A q IHq k IHk]; simpl; intros f ws s Ha.
  - simplify_eq. by exists a.
  - destruct ws as [|w ws]; [done|]. destruct (dexec X e w s). by apply IH.
  - by apply IHk.
Qed.

Lemma alone_add_all {A} ins (a : A) ws s s' b :
  works ws → alone dexec (add_all ins (Ret a)) ws s = Some (s', b) → s' = with_white (union (list_to_set ins.*1)) s.
Proof.
  revert ws s. induction ins as [|i ins IH]; simpl; intros ws s Hw Ha.
  - simplify_eq. destruct s'. unfold with_white. simpl. f_equal. set_solver.
  - destruct ws as [|w ws]; [done|]. inversion Hw as [|? ? Hok Hw']; subst. simpl in Ha. rewrite Hok in Ha.
    rewrite (IH _ _ Hw' Ha). unfold with_white. simpl. f_equal. set_solver.
Qed.

Lemma alone_delete_all {A} ips (a : A) ws s s' b :
  works ws → alone dexec (delete_all ips (Ret a)) ws s = Some (s', b) → s' = with_white (λ w, w ∖ list_to_set ips) s.
Proof.
  revert ws s. induction ips as [|i ips IH]; simpl; intros ws s Hw Ha.
  - simplify_eq. destruct s'. unfold with_white. simpl. f_equal. set_solver.
  - destruct ws as [|w ws]; [done|]. inversion Hw as [|? ? Hok Hw']; subst. simpl in Ha. rewrite Hok in Ha.
    rewrite (IH _ _ Hw' Ha). unfold with_white. simpl. f_equal. set_solver.
Qed.

(** ** What each operation does to the mirror *)

Lemma live_later m now now' d ip : now ≤ now' → live_at m now' d ip → live_at m now d ip.
Proof. intros Hn (e&He&Hip&Hl). exists e. split_and!; [done|done|]. unfold live in *. apply Z.ltb_lt in Hl. apply Z.ltb_lt. lia. Qed.

Lemma live_dec (m : gmap string (list lentry)) now x : (∃ d, live_at m now d x) ∨ ∀ d, ¬ live_at m now d x.
Proof.
  destruct (existsb (λ e, bool_decide (le_ip e = x) && live now e) (default [] (m !! ""))) eqn:Hhere.
  - left. exists "". apply existsb_exists in Hhere as (e&He&Hl). apply andb_prop in Hl as [Hip Hl]. apply bool_decide_eq_true in Hip.
    exists e. split; [by apply list_elem_of_In|done].
  - destruct (ipStillReferenced m "" x now) eqn:Hr.
    + apply referenced_spec in Hr as (d&_&Hd). left. by exists d.
    + right. intros d Hd. destruct (decide (d = "")) as [->|Hne].
      * destruct Hd as (e&He&Hip&Hl). apply not_true_iff_false in Hhere. apply Hhere. apply existsb_exists. exists e.
        split; [by apply list_elem_of_In|]. by rewrite bool_decide_true.
      * apply not_true_iff_false in Hr. apply Hr. apply referenced_spec. by exists d.
Qed.

Lemma mirrored_time w s : mirrored s → mirrored (at_time w s).
Proof.
  intros [Ht Hl Hw]. constructor; simpl; [done| |done]. intros d ip Hlive. apply (Hl d). eapply live_later; [|exact Hlive]. simpl. lia.
Qed.

Lemma mirrored_process domain ips ttl ws s s' (n : nat) :
  mirrored s → Forall ip_wf ips → works ws →
  alone dexec (ins <-! ProcessCS domain ips ttl; add_all ins (Ret (length ins))) ws s = Some (s', n) → mirrored s'.
Proof.
  intros Hm Hips Hws Ha. destruct ws as [|w ws]; [done|]. inversion Hws as [|? ? Hok Hw']; subst. cbn [alone DnsLearn.dexec] in Ha.
  apply (mirrored_time w) in Hm as [Ht Hl Hw]. revert Ha Ht Hl Hw. generalize (at_time w s). clear s Hws. intros s1 Ha Ht Hl Hw.
  destruct (process_cs_ok domain ips ttl (d_now s1) (d_learner s1) Hips Ht) as (l&more&Heq&Hcase). rewrite Heq in Ha.
  apply alone_add_all in Ha as ->; [|done]. destruct Hcase as [[-> ->]|[_ [Hok' _ Hin Hnew _ _ _]]].
  - constructor; [done| |]; simpl.
    + intros d ip Hlive. apply elem_of_union. right. by apply (Hl d).
    + intros x Hx. apply Hw. set_solver.
  - constructor; simpl; [done| |].
    + intros d ip (e&He&<-&Hlv). apply elem_of_union. apply Hnew in He as [[He _]|(_&_&He)].
      * right. apply (Hl d). by exists e.
      * left. by apply elem_of_list_to_set.
    + intros x [Hx|Hx]%elem_of_union.
      * apply elem_of_list_to_set in Hx. right. exists domain. apply Hin. by right.
      * apply Hw in Hx as [|[d Hd]]; [by left|right]. exists d. apply Hin. by left.
Qed.

Lemma mirrored_shrink s l doomed :
  mirrored s → table_ok l →
  (∀ d ip, live_at (ln_learned l) (d_now s) d ip → live_now s d ip ∧ ip ∉ doomed) →
  (∀ d x, in_table (ln_learned (d_learner s)) d x → x ∉ doomed → ∃ d', in_table (ln_learned l) d' x) →
  mirrored (with_white (λ w, w ∖ list_to_set doomed) (with_learner l s)).
Proof.
  intros [Ht Hl Hw] Hok Hlive Hkeep. constructor; simpl; [done| |].
  - intros d ip Hd. destruct (Hlive d ip Hd) as [Hlv Hnd]. apply elem_of_difference. split; [by apply (Hl d)|by rewrite elem_of_list_to_set].
  - intros x [Hx Hn]%elem_of_difference. rewrite elem_of_list_to_set in Hn. apply Hw in Hx as [|[d Hd]]; [by left|right]. by eapply Hkeep.
Qed.

Lemma mirrored_drop host ws s s' (n : nat) :
  mirrored s → works ws → alone dexec (Drop host) ws s = Some (s', n) → mirrored s'.
Proof.
  intros Hm Hws Ha. destruct ws as [|w ws]; [done|]. inversion Hws as [|? ? Hok Hw']; subst. unfold Drop in Ha. cbn [alone DnsLearn.dexec] in Ha.
  apply (mirrored_time w) in Hm. revert Ha Hm. generalize (at_time w s). clear s Hws. intros s1 Ha Hm.
  destruct (drop_cs_ok host (d_now s1) (d_learner s1) (mi_table _ Hm)) as (l&k&doomed&Heq&Hl&_&Hdel&_&Hdoom). rewrite Heq in Ha. simpl in Ha.
  apply alone_delete_all in Ha as ->; [|done]. apply mirrored_shrink; [done|done| |].
  - intros d ip Hd. split; [|intros [_ Hno]%Hdoom; by apply (Hno d)]. destruct Hd as (e&He&?&?). exists e. rewrite Hdel, lookup_delete in He.
    case_decide; [by apply elem_of_nil in He|done].
  - intros d x Hin Hn. destruct (decide (d = normalizeName host)) as [->|Hne].
    + destruct (live_dec (ln_learned l) (d_now s1) x) as [[d Hd]|Hno]; [exists d; by eapply live_in_table|]. exfalso. by apply Hn, Hdoom.
    + exists d. unfold in_table. rewrite Hdel, lookup_delete_ne by done. done.
Qed.

Lemma mirrored_sweep ws s s' u :
  mirrored s → works ws → alone dexec sweep ws s = Some (s', u) →
  mirrored s' ∧ ∀ d x, in_table (ln_learned (d_learner s')) d x → live_now s' d x.
Proof.
  intros Hm Hws Ha. destruct ws as [|w ws]; [done|]. inversion Hws as [|? ? Hok Hw']; subst. unfold sweep in Ha. cbn [alone DnsLearn.dexec] in Ha.
  apply (mirrored_time w) in Hm. revert Ha Hm. generalize (at_time w s). clear s Hws. intros s1 Ha Hm.
  destruct (sweep_order_ok w (ln_learned (d_learner s1))) as [Hn Ho].
  destruct (sweep_cs_ok _ (d_now s1) (d_learner s1) (mi_table _ Hm) Hn Ho) as (l&doomed&Heq&Hl&_&Hom&Hdoom). rewrite Heq in Ha.
  apply alone_delete_all in Ha as ->; [|done]. split; [apply mirrored_shrink; [done|done| |]|].
  - intros d ip. rewrite Hom, swept_live. intros Hd. split; [done|]. intros (d'&_&Hno)%Hdoom. by apply (Hno d).
  - intros d x Hin Hnd. destruct (live_dec (ln_learned (d_learner s1)) (d_now s1) x) as [[d' Hd']|Hno].
    + exists d'. rewrite Hom. eapply live_in_table. by apply swept_live.
    + exfalso. apply Hnd, Hdoom. by exists d.
  - unfold in_table, live_now. simpl. rewrite Hom. intros d x Hx. apply list_elem_of_fmap in Hx as (e&->&He).
    exists e. split_and!; [done|done|]. rewrite swept in He. by apply list_elem_of_filter in He as [? _].
Qed.

Lemma mirrored_response qname ips ttl ws s s' (n : nat) :
  mirrored s → Forall ip_wf ips → works ws → alone dexec (ProcessResponse qname ips ttl) ws s = Some (s', n) → mirrored s'.
Proof.
  intros Hm Hips Hws. unfold ProcessResponse. destruct (_ || _); [by intros [= <- _]|]. by apply mirrored_process.
Qed.

(** What changes settings only. *)
Lemma mirrored_settings s l :
  mirrored s → ln_learned l = ln_learned (d_learner s) → ln_total l = ln_total (d_learner s) → ln_maxEntries l = ln_maxEntries (d_learner s) →
  ln_allow (d_learner s) ⊆ ln_allow l → mirrored (with_learner l s).
Proof.
  intros [[Ht Hc He] Hl Hw] Hm Htot Hmax Ha. constructor; simpl; [constructor; rewrite ?Hm, ?Htot, ?Hmax; try done| |].
  - intros d es Hd. destruct (He _ _ Hd) as (?&?&?). split_and!; [done|by eapply allowed_mono|done].
  - unfold live_now. simpl. by rewrite Hm.
  - by rewrite Hm.
Qed.

Lemma mirrored_step s s' : seq_step s s' → mirrored s → mirrored s'.
Proof.
  destruct 1 as [p ws s s' u Hp Hws Ha]. intros Hm. destruct Hp as [query resp qname ips ttl Hf|host| |domain|domain|on|d].
  - apply (alone_fmap _ (λ _, tt)) in Ha as (n&Ha&_). eapply mirrored_response; [done| |done|done].
    unfold forward in Hf. destruct (msg_id query), (msg_id resp); try done. destruct (_ =? _); [|done]. simpl in Hf.
    destruct (firstQuestionName query); [|done]. destruct (parseAResponse resp) as [[[ips' ttl']|]|] eqn:Hr; [|done..].
    case_bool_decide; simplify_eq. by eapply parseAResponse_wf.
  - apply (alone_fmap _ (λ _, tt)) in Ha as (n&Ha&_). by eapply mirrored_drop.
  - by eapply mirrored_sweep.
  - apply (alone_fmap _ (λ _, tt)) in Ha as (n&Ha&_). unfold LearnNow in Ha. destruct ws as [|w ws]; [done|]. simpl in Ha.
    destruct (IsAllowlisted _ _); simpl in Ha; [|by simpl in Ha; simplify_eq]. destruct ws as [|w2 ws]; [done|]. simpl in Ha.
    destruct (upstream w2) as [[id resp]|]; [|by simpl in Ha; simplify_eq]. unfold queryA_answer in Ha. case_bool_decide; [|by simpl in Ha; simplify_eq].
    destruct (parseAResponse resp) as [[[ips ttl]|]|] eqn:Hr; [|by simpl in Ha; simplify_eq..].
    apply (alone_fmap _ Ok) in Ha as (k&Ha&_). eapply mirrored_response; [done|by eapply parseAResponse_wf| |done].
    by do 2 (inversion Hws as [|? ? _ Hws']; subst; clear Hws; rename Hws' into Hws).
  - destruct ws as [|w ws]; [done|]. simpl in Ha. unfold AddAllow in Ha. case_bool_decide; simpl in Ha; simplify_eq;
      (apply mirrored_settings; simpl; try done). set_solver.
  - destruct ws as [|w ws]; [done|]. simpl in Ha. simplify_eq. by apply mirrored_settings.
  - destruct ws as [|w ws]; [done|]. simpl in Ha. simplify_eq. by apply mirrored_settings.
Qed.

(** C30. Operations run one after the other, every write to the filter succeeding
    and no operator changing it: every address with an unexpired entry is
    whitelisted and every whitelisted address is one of the initial ones or in the
    table; right after a sweep the whitelist beyond the initial addresses is exactly
    the addresses with an unexpired entry. *)
Theorem mirror_exact resolv cfg l now s :
  New resolv cfg = Ok l → rtc seq_step (mkD l base now []) s →
  (∀ d ip, live_now s d ip → ip ∈ d_white s) ∧
  (∀ x, x ∈ d_white s → x ∈ base ∨ ∃ d, in_table (ln_learned (d_learner s)) d x) ∧
  (∀ ws s' u x, works ws → alone dexec sweep ws s = Some (s', u) → x ∉ base → x ∈ d_white s' ↔ ∃ d, live_now s' d x).
Proof.
  intros Hnew Hr. assert (mirrored s) as Hm.
  { assert (mirrored (mkD l base now [])) as Hinit.
    { unfold New in Hnew. case_bool_decide; [done|]. destruct (normalizeUpstream _ _); simpl in Hnew; simplify_eq.
      constructor; simpl; [constructor; simpl| |].
      - done.
      - destruct (Z.leb_spec (cf_MaxEntries cfg) 0); [done|lia].
      - apply map_Forall_empty.
      - intros d ip (e&He&_). simpl in He. rewrite lookup_empty in He. by apply elem_of_nil in He.
      - by left. }
    revert Hinit. clear Hnew. induction Hr as [|x y z Hxy _ IH]; [done|]. intros Hx. apply IH. by eapply mirrored_step. }
  split_and!; [apply Hm|apply Hm|]. intros ws s' u x Hws Ha Hx.
  destruct (mirrored_sweep _ _ _ _ Hm Hws Ha) as [Hm' Hall]. split.
  - intros [?|[d Hd]]%(mi_white _ Hm'); [done|]. exists d. by apply Hall.
  - intros [d Hd]. by eapply (mi_live _ Hm').
Qed.
End mirror.
