(* ===== verification/DnsGuard.v ===== *)
(** * The gateway behind the learners

    The registry of learners as the gateway's [LearnedIPChecker]: what the guard of
    the gateway compares a peer with are the addresses of unexpired answers. *)

From stdpp Require Import pretty sorting.
From S2P Require Import Prelude Json Strconv NetIP GoText Threads Egress Sni EgressGate EgressServe EgressSpec EgressClaims.
From S2P Require Import DnsLearn DnsSpec DnsClaims.

(** ** The text of an IPv4 address parses *)

Notation text b := (String.list_ascii_of_string (pretty b)).








(** ** The registry as a checker *)


Section checker.
Context `{Unicode} `{DnsParserLaws} (upstream : dworld → option (Z * list Z)).

(** [Checker]: each task's registered learner, with its clock. *)
Notation lreg := (gmap string dstate).

#[global] Instance Checker : LearnedIPChecker lreg :=
  { LearnedIPs r task host := match r !! task with
                              | None => []
                              | Some s => Learner_LearnedIPs (d_learner s) (d_now s) host
                              end;
    TaskLearned r task := bool_decide (is_Some (r !! task)) }.




End checker.

(** * The registry of learners leaks none

    [GetOrCreate] from any number of callers: each learner that was created has one
    place - a caller that still works on it, the registry, or the closed ones. *)

Definition ignore (p : prog rop (option nat)) : prog rop unit := bind _ := p in Ret tt.

Inductive goc_entry : prog rop unit → Prop := goc_call task : goc_entry (ignore (GetOrCreate task)).

(** Where a caller is, and the learner it holds. *)
Inductive goc_at : prog rop unit → option nat → Prop :=
| at_for task : goc_at (ignore (GetOrCreate task)) None
| at_new task : goc_at (ignore (goc_create task)) None
| at_publish task l : goc_at (ignore (goc_publish task l)) (Some l)
| at_close l w : goc_at (ignore (CloseOp l ⨟ Ret (Some w))) (Some l)
| at_end : goc_at (Ret tt) None.

(** [os] are what the callers hold. *)
Record reg_inv (s : lregistry) (os : list (option nat)) : Prop := mkRegInv {
  ri_held i l : os !! i = Some (Some l) → (l < rg_next s)%nat ∧ l ∉ rg_closed s ∧ ∀ t, rg_m s !! t ≠ Some l;
  ri_one i j l : os !! i = Some (Some l) → os !! j = Some (Some l) → i = j;
  ri_reg t l : rg_m s !! t = Some l → (l < rg_next s)%nat ∧ l ∉ rg_closed s;
  ri_closed l : l ∈ rg_closed s → (l < rg_next s)%nat;
  ri_all l : (l < rg_next s)%nat → (∃ i, os !! i = Some (Some l)) ∨ (∃ t, rg_m s !! t = Some l) ∨ l ∈ rg_closed s
}.

(** A caller lets go of nothing it held, or of its learner, which then has a place. *)
Lemma reg_release s s' os i l :
  reg_inv s os → os !! i = Some (Some l) → rg_next s' = rg_next s →
  (rg_closed s' = {[l]} ∪ rg_closed s ∧ rg_m s' = rg_m s) ∨ (rg_closed s' = rg_closed s ∧ ∃ t, rg_m s !! t = None ∧ rg_m s' = <[t := l]> (rg_m s)) →
  reg_inv s' (<[i := None]> os).
Proof.
  intros [Hh Ho Hr Hc Ha] Hi Hn Hcase.
  assert (∀ j x, (<[i := None]> os) !! j = Some (Some x) → j ≠ i ∧ os !! j = Some (Some x) ∧ x ≠ l) as Hj.
  { intros j x Hx. apply list_lookup_insert_Some in Hx as [(_&[=]&_)|[Hne Hx]]. split_and!; [done|done|]. intros ->. by apply Hne, (Ho i j l). }
  assert (∀ j x, os !! j = Some (Some x) → j ≠ i → (<[i := None]> os) !! j = Some (Some x)) as Hk by (intros; by rewrite list_lookup_insert_ne).
  destruct (Hh _ _ Hi) as (Hl&Hlc&Hlm).
  constructor; rewrite ?Hn; intros.
  - destruct (Hj _ _ H) as (_&Hx&Hne). destruct (Hh _ _ Hx) as (?&?&Hm). destruct Hcase as [[-> ->]|[-> (t&Ht&->)]].
    + split_and!; [done|set_solver|done].
    + split_and!; [done|done|]. intros t'. rewrite lookup_insert. case_decide; [congruence|done].
  - eapply Ho; [apply (Hj _ _ H)|apply (Hj _ _ H0)].
  - destruct Hcase as [[-> Hm]|[-> (t'&Ht&Hm)]]; rewrite Hm in H.
    + destruct (Hr _ _ H). split; [done|]. intros [->%elem_of_singleton|?]%elem_of_union; [by apply (Hlm t)|done].
    + rewrite lookup_insert in H. case_decide; [simplify_eq; done|by apply (Hr t)].
  - destruct Hcase as [[Hc' _]|[Hc' _]]; rewrite Hc' in H; [set_solver|by apply Hc].
  - destruct (decide (l0 = l)) as [->|Hne].
    + destruct Hcase as [[-> _]|[_ (t&_&->)]]; [right; right; set_solver|right; left]. exists t. by rewrite lookup_insert, decide_True.
    + destruct (Ha l0 H) as [[j Hjx]|[[t Ht]|?]].
      * left. exists j. apply Hk; [done|]. intros ->. congruence.
      * right; left. exists t. destruct Hcase as [[_ ->]|[_ (t'&Ht'&->)]]; [done|]. rewrite lookup_insert_ne; [done|congruence].
      * right; right. destruct Hcase as [[-> _]|[-> _]]; set_solver.
Qed.

Lemma reg_idle s os i o : reg_inv s os → os !! i = Some o → reg_inv s (<[i := o]> os).
Proof. intros Hr Hi. by rewrite list_insert_id. Qed.

Lemma reg_start s os : reg_inv s os → reg_inv s (os ++ [None]).
Proof.
  intros [Hh Ho Hr Hc Ha].
  assert (∀ j x, (os ++ [None]) !! j = Some (Some x) ↔ os !! j = Some (Some x)) as Hj.
  { intros j x. rewrite lookup_app_Some, list_lookup_singleton_Some. naive_solver. }
  constructor; try done.
  - intros i l Hi. apply Hj in Hi. by eapply Hh.
  - intros i j l Hi Hi'. apply Hj in Hi, Hi'. by eapply Ho.
  - intros l Hl. destruct (Ha l Hl) as [[i Hi]|?]; [left|by right]. exists i. by apply Hj.
Qed.

Lemma reg_create s os i :
  reg_inv s os → (i < length os)%nat → os !! i = Some None →
  reg_inv (mkLR (rg_m s) (S (rg_next s)) (rg_closed s)) (<[i := Some (rg_next s)]> os).
Proof.
  intros [Hh Ho Hr Hc Ha] Hlen Hi.
  assert (∀ j x, (<[i := Some (rg_next s)]> os) !! j = Some (Some x) → (j = i ∧ x = rg_next s) ∨ (j ≠ i ∧ os !! j = Some (Some x))) as Hj.
  { intros j x Hx. apply list_lookup_insert_Some in Hx as [(->&[= ->]&_)|[Hne Hx]]; [by left|right; done]. }
  constructor; simpl.
  - intros j l [[-> ->]|[_ Hx]]%Hj; [|destruct (Hh _ _ Hx) as (?&?&?); split_and!; [lia|done|done]].
    split_and!; [lia|intros ?%Hc; lia|intros t Ht; apply Hr in Ht; lia].
  - intros j j' l [[-> ->]|[Hn Hx]]%Hj [[-> ?]|[Hn' Hx']]%Hj; [done| | |by eapply Ho]; subst; exfalso.
    + apply Hh in Hx' as [? _]. lia.
    + apply Hh in Hx as [? _]. lia.
  - intros t l Ht. destruct (Hr t l Ht). split; [lia|done].
  - intros l Hl. apply Hc in Hl. lia.
  - intros l Hl. destruct (decide (l = rg_next s)) as [->|Hne].
    + left. exists i. by rewrite list_lookup_insert_eq.
    + destruct (Ha l ltac:(lia)) as [[j Hjx]|?]; [left|by right]. exists j. rewrite list_lookup_insert_ne; [done|]. intros ->. congruence.
Qed.

Definition reg_ok (sys : system (S := lregistry) (E := rop)) : Prop := ∃ os, Forall2 goc_at sys.2 os ∧ reg_inv sys.1 os.

Lemma reg_step sys sys' : step rexec goc_entry (λ _ _, False) sys sys' → reg_ok sys → reg_ok sys'.
Proof.
  destruct 1 as [s ts p Hp|s s' ts []|s ts i p w s' p' new Hi Hs]; intros (os&Hf&HI); simpl in *.
  - exists (os ++ [None]). split; [|by apply reg_start]. apply Forall2_app; [done|]. constructor; [|done]. destruct Hp. constructor.
  - destruct (Forall2_lookup_l _ _ _ _ _ Hf Hi) as (o&Ho&Hat).
    assert (i < length os)%nat as Hlen by (by eapply lookup_lt_Some).
    assert (∀ o', goc_at p' o' → reg_inv s' (<[i := o']> os) → new = [] → reg_ok (s', <[i := p']> ts ++ new)) as Hgo.
    { intros o' Hat' HI' ->. rewrite app_nil_r. exists (<[i := o']> os). split; [by apply Forall2_insert|done]. }
    destruct Hat as [task|task|task l|l v|]; simpl in Hs; simplify_eq.
    + destruct (rg_m s' !! task); eapply (Hgo None); try done; try (by apply reg_idle); constructor.
    + destruct w; simplify_eq; simpl in *.
      * eapply (Hgo (Some (rg_next s))); [constructor|by apply reg_create|done].
      * eapply (Hgo None); [constructor|by apply reg_idle|done].
    + destruct (rg_m s !! task) as [v|] eqn:Hv; simplify_eq; simpl in *.
      * eapply (Hgo (Some l)); [apply (at_close l v)|by apply reg_idle|done].
      * eapply (Hgo None); [constructor| |done]. eapply (reg_release s _ _ _ l); [done|done|done|]. right. eauto.
    + eapply (Hgo None); [constructor| |done]. eapply (reg_release s _ _ _ l); [done|done|done|]. by left.
Qed.

(** C37. However many callers race in [GetOrCreate], and whichever creations fail: a
    registered learner is never closed, and once all callers have returned every
    learner that was created is registered or closed - none leaks its socket and its
    sweeper. *)
Theorem no_learner_leaks sys :
  reachable rexec goc_entry (λ _ _, False) (mkLR ∅ 0 ∅) sys →
  (∀ t l, rg_m sys.1 !! t = Some l → l ∉ rg_closed sys.1) ∧
  (Forall (λ p, p = Ret tt) sys.2 → ∀ l, (l < rg_next sys.1)%nat → (∃ t, rg_m sys.1 !! t = Some l) ∨ l ∈ rg_closed sys.1).
Proof.
  intros Hr. assert (reg_ok sys) as (os&Hf&HI).
  { unfold reachable in Hr. assert (reg_ok (mkLR ∅ 0 ∅, [])) as Hinit.
    { exists []. split; [constructor|]. constructor; simpl; try done; intros; lia. }
    revert Hinit. generalize dependent sys. intros sys Hr. induction Hr as [|x y z Hxy _ IH]; [done|]. intros Hx. by eapply IH, reg_step. }
  split; [intros t l Ht; by apply (ri_reg _ _ HI t)|]. intros Hdone l Hl.
  destruct (ri_all _ _ HI l Hl) as [[i Hi]|?]; [exfalso|done]. destruct (Forall2_lookup_r _ _ _ _ _ Hf Hi) as (p&Hp&Hat).
  pose proof (Forall_lookup_1 _ _ _ _ Hdone Hp) as ->. inversion Hat.
Qed.

(** Two callers race for one task. *)
Definition two_callers : list (nat * bool) := (λ i, (i, true)) <$> [0; 1; 0; 1; 0; 1; 1]%nat.
Definition raced : system (S := lregistry) (E := rop) :=
  default (mkLR ∅ 0 ∅, []) (sched rexec two_callers (mkLR ∅ 0 ∅, [ignore (GetOrCreate "t"); ignore (GetOrCreate "t")])).

Lemma no_learner_leaks_witness :
  rg_m raced.1 !! "t" = Some 0%nat ∧ 0%nat ∉ rg_closed raced.1 ∧ ((∃ t, rg_m raced.1 !! t = Some 1%nat) ∨ 1%nat ∈ rg_closed raced.1).
Proof.
  destruct (no_learner_leaks raced) as [Hr Hall].
  - eapply (run_sched rexec goc_entry _ _ (mkLR ∅ 0 ∅) [] [ignore (GetOrCreate "t"); ignore (GetOrCreate "t")] two_callers);
      [apply rtc_refl|repeat constructor|vm_compute; reflexivity].
  - split; [vm_compute; reflexivity|]. split; [apply (Hr "t"); vm_compute; reflexivity|].
    apply Hall; [vm_compute; repeat constructor|vm_compute; lia].
Defined.
