(* ===== verification/DnsDemo.v ===== *)
(** * DNS learning at work

    A message format small enough to read, runs of a learner over it, the theorems
    at these runs, the gateway over a registry with that learner, and the places
    where the code departs from its comments. *)

From stdpp Require Import pretty sorting.
From S2P Require Import Prelude Json Strconv NetIP GoText Threads Egress Sni EgressGate EgressServe EgressSpec EgressClaims EgressDemo.
From S2P Require Import DnsLearn DnsSpec DnsClaims DnsGuard.
Import AsciiOnly.

(** ** Messages: identifier, length and name of the question, then records of type,
    TTL and four bytes *)

Definition all_byte (l : list Z) : bool := forallb (λ b, (0 <=? b) && (b <? 256)) l.

#[local] Instance tiny : DnsParser := {|
  dp := string * list Z;
  dp_Start m := match m with
                | _ :: _ :: n :: t => Some (String.string_of_list_ascii (byte <$> take (Z.to_nat n) t), drop (Z.to_nat n) t)
                | _ => None
                end;
  dp_Question p := Some p.1;
  dp_SkipAllQuestions p := Some p;
  dp_AnswerHeader p := match p.2 with [] => AnswersDone | typ :: ttl :: _ => AnswerHeader typ ttl | _ => HeaderFails end;
  dp_SkipAnswer p := match p.2 with _ :: _ :: _ :: _ :: _ :: _ :: t => Some (p.1, t) | _ => None end;
  dp_Answer p := match p.2 with
                 | _ :: _ :: a :: b :: c :: d :: t => if all_byte [a; b; c; d] then Some (Some [a; b; c; d], (p.1, t)) else None
                 | _ => None
                 end;
  dp_left p := length p.2
|}.

Lemma all_byte_ok l : all_byte l = true → Forall is_byte l.
Proof.
  intros Hl. apply list.Forall_forall. intros b Hb. unfold all_byte in Hl. rewrite forallb_forall in Hl.
  specialize (Hl b). rewrite <- list_elem_of_In in Hl. specialize (Hl Hb). unfold is_byte. lia.
Qed.

#[local] Instance tiny_laws : DnsParserLaws.
Proof.
  split; intros [q [|? [|? [|? [|? [|? [|? r]]]]]]]; simpl; try done.
  - intros x p'. repeat case_match; try done. intros [= <- <-]. split; [done|]. by apply all_byte_ok.
  - intros p' [= <-]. simpl. lia.
  - intros x p'. repeat case_match; try done. intros [= <- <-]. simpl. lia.
Qed.

Definition no_upstream (w : dworld) : option (Z * list Z) := None.
Notation texec := (dexec no_upstream).

Definition name_bytes (s : string) : list Z := code <$> String.list_ascii_of_string s.
Definition message (name : string) (records : list Z) : list Z :=
  [7; 7; Z.of_nat (String.length name)] ++ name_bytes name ++ records.
Definition www_query : list Z := message "WWW.example.com." [].
Definition www_response : list Z := message "x" ([1; 60] ++ www_ip ++ [28; 60; 1; 2; 3; 4] ++ [1; 20; 10; 0; 0; 1]).

Example www_forward : forward www_query www_response = (Some www_response, Some ("WWW.example.com.", [www_ip; [10; 0; 0; 1]], 20)).
Proof. vm_compute. reflexivity. Qed.

(** ** A run: two answers, a drop of another name, a sweep *)

Definition cfg : Config := mkConfig "t" ["www.example.com"; "*.cdn.net"] 0 "9.9.9.9" 0.
Definition learner0 : Learner := default (mkLearner true [] 0 0 "" ∅ 0 0) (match New None cfg with Ok l => Some l | Err _ => None end).
Definition static : gset string := {["8.8.8.8"]}.
Definition start : dstate := mkD learner0 static 0 [].

Definition at_sec (n : Z) : list dworld := repeat (mkDW true (n * second) []) 10.
Definition snoop : prog dop unit := bind _ := ProcessResponse "WWW.example.com." [www_ip; [10; 0; 0; 1]] 20 in Ret tt.
Definition drop_cdn : prog dop unit := bind _ := Drop "a.cdn.net" in Ret tt.
Definition learn_progs := [(snoop, at_sec 1); (drop_cdn, at_sec 2); (snoop, at_sec 3)].

Lemma snoop_entry : dentry snoop.
Proof. eapply (dentry_snoop www_query www_response). vm_compute. reflexivity. Qed.

Lemma learn_entries : Forall (λ pw, dentry pw.1) learn_progs.
Proof. repeat constructor; apply snoop_entry. Qed.

Definition after_learn : dstate := default start (in_turn texec learn_progs start).

Lemma learn_reached : ∃ ts, learner_run no_upstream static 256 None cfg static 0 (after_learn, ts).
Proof.
  destruct (run_in_turn texec dentry (operator static) (mkDW false 0 []) start start [] learn_progs after_learn) as [ts Hr].
  - apply rtc_refl.
  - apply learn_entries.
  - vm_compute. reflexivity.
  - exists ts, learner0. split; [vm_compute; reflexivity|]. split; [vm_compute; reflexivity|]. split; [done|exact Hr].
Qed.

Definition www_entry : lentry := mkLEntry "93.184.216.34" (303 * second).

Lemma learning_sound_witness :
  ln_total (d_learner after_learn) = 1 ∧ ln_total (d_learner after_learn) ≤ 256 ∧
  allowed_by (ln_allow (d_learner after_learn)) "www.example.com" ∧ public_text (le_ip www_entry).
Proof.
  destruct learn_reached as [ts Hr].
  destruct (learning_sound no_upstream static 256 None cfg static 0 (after_learn, ts) Hr) as (_&Hc&He&_).
  split; [vm_compute; reflexivity|]. split; [exact Hc|].
  destruct (He "www.example.com" www_entry) as (Ha&Hp&_); [|split; [exact Ha|exact Hp]].
  apply (list_elem_of_lookup_2 _ 0%nat). vm_compute. reflexivity.
Defined.

Lemma learn_steps : rtc (seq_step no_upstream) start after_learn.
Proof.
  assert (∀ p ws s s', dentry p → works ws → alone texec p ws s = Some (s', tt) → seq_step no_upstream s s') as Hs by (intros; by econstructor).
  eapply rtc_l; [eapply (Hs snoop (at_sec 1)); [apply snoop_entry|repeat constructor|vm_compute; reflexivity]|].
  eapply rtc_l; [eapply (Hs drop_cdn (at_sec 2)); [constructor|repeat constructor|vm_compute; reflexivity]|].
  eapply rtc_once. eapply (Hs snoop (at_sec 3)); [apply snoop_entry|repeat constructor|vm_compute; reflexivity].
Qed.

Definition after_sweep : dstate := match alone texec sweep (at_sec 400) after_learn with Some (s, _) => s | None => start end.

Lemma mirror_exact_witness :
  "93.184.216.34" ∈ d_white after_learn ∧ ("93.184.216.34" ∈ d_white after_sweep ↔ ∃ d, live_now after_sweep d "93.184.216.34").
Proof.
  destruct (mirror_exact no_upstream static None cfg learner0 0 after_learn) as (Hl&_&Hs); [vm_compute; reflexivity|exact learn_steps|].
  split.
  - apply (Hl "www.example.com"). exists www_entry. split; [apply (list_elem_of_lookup_2 _ 0%nat); vm_compute; reflexivity|]. split; reflexivity.
  - apply (Hs (at_sec 400) after_sweep tt); [repeat constructor|vm_compute; reflexivity|]. apply (bool_decide_unpack _). vm_compute. exact I.
Defined.

(** ** The gateway over a registry with that learner *)







(** ** Departures *)

Definition drop_www : prog dop unit := bind _ := Drop "www.example.com" in Ret tt.
Definition tick (n : Z) : dworld := mkDW true (n * second) [].

Definition race (progs : list (prog dop unit)) (l : list (nat * dworld)) : system := default (start, []) (sched texec l (start, progs)).

Lemma race_run progs l sys : Forall dentry progs → sched texec l (start, progs) = Some sys → learner_run no_upstream static 256 None cfg static 0 sys.
Proof.
  intros Hp Hs. exists learner0. split; [vm_compute; reflexivity|]. split; [vm_compute; reflexivity|]. split; [done|].
  eapply (run_sched _ _ _ start start [] progs); [apply rtc_refl|done|done].
Qed.

Ltac by_dec := apply (bool_decide_unpack _); vm_compute; exact I.

(** [ProcessResponse] writes the whitelist after releasing the lock: a [Drop] in
    between deletes first, and the address stays whitelisted with no entry that could
    ever expire. *)
Definition drop_race : system := race [snoop; drop_www] [(0%nat, tick 1); (1%nat, tick 1); (1%nat, tick 1); (0%nat, tick 1)].
Lemma late_insert_outlives_drop :
  learner_run no_upstream static 256 None cfg static 0 drop_race ∧ ln_learned (d_learner drop_race.1) = ∅ ∧
  "93.184.216.34" ∈ d_white drop_race.1 ∧ drop_race.2 = [Ret tt; Ret tt].
Proof.
  split; [apply (race_run [snoop; drop_www] [(0%nat, tick 1); (1%nat, tick 1); (1%nat, tick 1); (0%nat, tick 1)]);
    [repeat constructor; apply snoop_entry|vm_compute; reflexivity]|].
  split; [vm_compute; reflexivity|]. split; [by_dec|vm_compute; reflexivity].
Qed.

(** A sweep deletes the whitelist entry of an address that was answered again after
    the sweep released the lock: the address is live and blocked. *)
Definition sweep_race_plan : list (nat * dworld) :=
  [(0%nat, tick 1); (0%nat, tick 1); (1%nat, tick 302); (2%nat, tick 302); (2%nat, tick 302); (1%nat, tick 302)].
Definition sweep_race : system := race [snoop; sweep; snoop] sweep_race_plan.
Lemma sweep_removes_relearned :
  learner_run no_upstream static 256 None cfg static 0 sweep_race ∧ live_now sweep_race.1 "www.example.com" "93.184.216.34" ∧
  "93.184.216.34" ∉ d_white sweep_race.1 ∧ sweep_race.2 = [Ret tt; Ret tt; Ret tt].
Proof.
  split; [apply (race_run [snoop; sweep; snoop] sweep_race_plan); [repeat constructor; apply snoop_entry|vm_compute; reflexivity]|].
  split; [|split; [by_dec|vm_compute; reflexivity]].
  exists (mkLEntry "93.184.216.34" (602 * second)). split; [apply (list_elem_of_lookup_2 _ 0%nat); vm_compute; reflexivity|]. split; reflexivity.
Qed.

(** An address the operator listed and the guest also resolved is deleted when the
    answer expires. *)
Definition operator_listed : dstate := mkD learner0 {["93.184.216.34"]} 0 [].
Lemma expiry_removes_operators_entry :
  "93.184.216.34" ∈ d_white operator_listed ∧
  "93.184.216.34" ∉ d_white (default operator_listed (in_turn texec [(snoop, at_sec 1); (sweep, at_sec 400)] operator_listed)).
Proof. split; by_dec. Qed.

(** [isPublicIPv4] takes addresses that are not routable, and that the gateway's floor
    refuses, for public. *)
Lemma not_routable_but_public q :
  q ∈ [[255; 255; 255; 255]; [0; 1; 2; 3]; [198; 18; 0; 1]; [240; 0; 0; 1]] → isPublicIPv4 q = true ∧ isPrivate (TCPAddr q 443) = true.
Proof. repeat (intros [->|Hq]%elem_of_cons; [by vm_compute|revert Hq]). by intros ?%elem_of_nil. Qed.

(** [Count], the number of live entries by its comment, counts expired ones. *)
Lemma count_of_expired : ln_total (d_learner after_learn) = 1 ∧ List_ (d_learner after_learn) (400 * second) = [].
Proof. split; vm_compute; reflexivity. Qed.
